(* ===== verification/_CoqProject ===== *)
-Q . S2P
Prelude.v
ToolChoiceQueue.v
FallbackChain.v
YieldQueue.v
Harness.v
Lease.v
VimBuffer.v
VimKeys.v
VimEx.v
VimText.v
VimEngine.v
VimCommands.v
VimModes.v
VimInvariant.v
VimModesKeep.v
VimDemo.v
VimMotions.v
VimSafety.v
VimEffects.v
Json.v
Hashline.v
HashlineApply.v
HashlineRefine.v
HashlineAbsorb.v
HashlineParse.v
HashlineTyped.v
HashlineEffects.v
HashlineReplace.v
HashlineInput.v
HashlineDiff.v
HashlineTool.v
HashlineBatch.v
HashlineRecover.v
HashlineStream.v
HashlinePrefixes.v
HashlineDemo.v
Goals.v
GoalsLife.v
GoalsLedger.v
GoalsText.v
GoalsGuard.v
GoalsTool.v
GoalsDemo.v
ToolBatch.v
ToolBatchRuns.v
ToolBatchProofs.v
ToolBatchSafety.v
ToolBatchExclusive.v
ToolBatchEnds.v
ToolBatchDemo.v
JsFloat.v
Compaction.v
CompactionCut.v
CompactionContext.v
CompactionDemo.v
Prune.v
PrunePlan.v
PruneKeys.v
PruneStale.v
PruneCommit.v
PruneArguments.v
PruneDemo.v
RunLedger.v
RunLedgerProofs.v
RunLedgerSafety.v
RunLedgerPromises.v
RunLedgerDemo.v
Staged.v
StagedSize.v
StagedCopies.v
Attempt.v
AttemptProofs.v
AttemptEffects.v
AttemptDemo.v
AgentLoop.v
AgentLoopProofs.v
AgentLoopPairs.v
AgentLoopStops.v
AgentLoopInput.v
AgentLoopDemo.v
