(* ===== verification/Prelude.v ===== *)
(** * A verification development for the coding agent's core

    The repository is a coding agent in TypeScript.  Its own logic is in
    src/gajae-code/packages/coding-agent/src and packages/agent/src (written CA and AG below); this
    library models the parts of it that decide something: the queues and the fallback chain that steer
    a session, the loop of turns itself, the attempts that may be taken back, the tool calls of a turn, the
    compaction and pruning of the context, the goal that a session pursues and what it is charged, the control plane that watches over a worker, and the two
    ways in which the agent edits files, the vim engine and the hashline edits.

    ** Files

    - [Prelude] (this file): what the code uses of JavaScript (strings as lists of UTF-16 units,
      [slice], [splice], [indexOf], [split], ...) in the scope [js_scope]; the state and error
      monad [SM] of stateful classes; [keeps] with its hint database and tactic; lemmas on lists.
    - [ToolChoiceQueue]: CA/session/tool-choice-queue.ts.  Directives that force the next tool.
      The iterators of the directives live in a store, because a requeued directive and its
      owner share one; [onRejected] is a value.  Operations: [push], [pushOnce], [pushSequence],
      [nextToolChoice], [resolve], [reject], [degradeInFlight], [removeByLabel], [clear].
    - [FallbackChain]: CA/session/fallback-chain-controller.ts.  The walk over the models of a
      chain, the attempt budget and the retry delays.
    - [YieldQueue]: CA/session/yield-queue.ts.  Background results kept until the session may be
      interrupted; what the queue asks of its host is a trace of events.
    - [Harness]: CA/harness-control-plane: state-machine.ts (lifecycle and permitted actions),
      classifier.ts (recovery), lifecycle-reconciliation.ts, and the review verdicts of types.ts.
    - [Lease]: CA/harness-control-plane/session-lease.ts.  The lease file that makes one process
      the writer of a session; several parties interleave through a step relation.
    - The vim tool, CA/vim: [VimBuffer] is buffer.ts and types.ts, [VimKeys] is parser.ts, [VimEx]
      is commands.ts.  engine.ts is [VimText] (words, paragraphs, brackets, patterns), [VimEngine]
      (state, undo, insertion), [VimCommands] (searches, motions, operators, ex commands) and
      [VimModes] (the handlers of the modes and the key loop).  Its theorems: [VimInvariant] and
      [VimModesKeep] (what every command keeps), [VimSafety] (the loop), [VimEffects] (changes and
      ex commands), [VimMotions] (words and brackets).  [VimDemo] is a concrete host, on which the
      witnesses run.
    - [Json]: [JSON.stringify], JSON values, and that a value can be told from its text.
    - The hashline edits, CA/hashline: [Hashline] is types.ts, constants.ts, hash.ts, parser.ts and
      anchors.ts, [HashlineApply] apply.ts, [HashlineInput] input.ts, [HashlineDiff] CA/edit/diff.ts and
      diff-preview.ts, [HashlineTool] execute.ts, recovery.ts and, of CA/edit, normalize.ts,
      read-file.ts and file-read-cache.ts, [HashlineStream] stream.ts, [HashlinePrefixes] prefixes.ts.
      Their theorems: [HashlineRefine] (the meaning of a batch), [HashlineAbsorb] (boundary lines),
      [HashlineEffects] and [HashlineReplace] (one application), [HashlineParse] and [HashlineTyped]
      (what is read), [HashlineBatch] and [HashlineRecover] (a call of the tool).  [HashlineDemo]
      holds the instances and the witnesses.
    - The goal, CA/goals: [Goals] is state.ts and runtime.ts, [GoalsTool] tools/goal-tool.ts,
      [GoalsGuard] continuation-timeout-guard.ts.  [GoalsLife] runs the runtime with interference and
      refines it to the moves of an accounting machine, [GoalsLedger] has what is charged,
      [GoalsText] the objective inside a prompt, [GoalsDemo] a host and the witnesses.
    - The tool calls of a turn, executeToolCalls of AG/agent-loop.ts: [ToolBatch] is its records, tasks
      and events as a step relation, and [ToolBatchRuns] the reachable batches.  Theorems:
      [ToolBatchProofs] and [ToolBatchSafety] (answers and events), [ToolBatchExclusive] (exclusive
      tools), [ToolBatchEnds] (the batch ends); [ToolBatchDemo] has the witnesses.
    - The loop of a run, runLoopBody and streamAssistantResponse of AG/agent-loop.ts: [AgentLoop] is one
      iteration as a computation and [AgentLoop.step] the two loops around it; messages have identities,
      because the loop changes them in place and looks them up, and everything it does is a log.  The
      queues, the provider, the tools and the classifiers are the class [AgentLoop.Host].
      [AgentLoopProofs] has the rules of its monad and what a run announces; theorems: [AgentLoopPairs]
      (calls and results), [AgentLoopStops] (an aborted signal, and requests made again),
      [AgentLoopInput] (user input); [AgentLoopDemo] plays runs over a scripted host.
    - The provisional attempts of the same file: [Staged] is the walk that measures a value, the bounded
      copy and the caps, [Attempt] the class ManagedAttemptTransaction, whose events are plain objects
      ([Staged.value]) and whose outlets are a trace.  Theorems: [StagedSize] (the walk measures what
      JSON.stringify prints), [StagedCopies] (copies and caps), [AttemptProofs] (histories and bounds),
      [AttemptEffects] (atomicity, overflows, content); [AttemptDemo] has the witnesses.
    - The resources of a run, AG/run-resource-ledger.ts: [RunLedger] is the ledger, its leases and
      the standalone bridge, and [RunLedger.history] any order of calls, settled promises and timers.
      [RunLedgerProofs] reduces each operation to one of a few changes, [RunLedgerSafety] has the
      invariants of work, waits and releases, [RunLedgerPromises] the theorems and [RunLedgerDemo]
      the witnesses.
    - Context compaction, AG/compaction: [Compaction] is entries.ts, compaction.ts and the file
      operations of utils.ts, with the messages that buildSessionContext of CA/session/session-manager.ts
      makes of a path.  [CompactionCut] has the estimate and the cut, [CompactionContext] what a
      compaction keeps and loses, [CompactionDemo] small sessions.  [JsFloat] are the doubles that the
      thresholds need.
    - Pruning, AG/compaction/pruning.ts: [Prune] has the targets of tool calls and the notices (with
      sanitizeText of packages/utils), [PrunePlan] staleness, candidates, plan, commit and the pruning
      of arguments.  Theorems: [PruneKeys], [PruneStale], [PruneCommit], [PruneArguments]; [PruneDemo]
      has the witnesses.

    A stateful class is a record and its methods are functions on it: total functions from state
    to state where the method cannot fail, computations in [SM] where it can throw.  A throw keeps
    the state reached before it, as in the code.  [await] is sequencing: one caller drives an
    engine or a queue at a time; where parties do interleave ([Lease], the host of [YieldQueue], the
    tasks of [GoalsLife] and of [ToolBatch], the callers of [RunLedger]) the interleaving is part of the model.

    ** What the theorems show

    - Queues: identities stay distinct in every reachable tool-choice queue; values are served in
      queue order and each once; requeueing replays exactly the lost value; degradation and
      removal drop it.  A flush of the yield queue hands each live entry to its builder once and in
      order, and no entry is left without a pending flush.
    - Fallback: a chain is walked entry by entry, each as often as its attempts allow; the budget
      bounds the whole history; an exhausted chain stays so; delays respect their cap.
    - Control plane: [retired] is absorbing and [completed] is reached through [finalizing]; the
      permitted actions agree with the machine; the classifier never picks an action that loses a
      worker's changes; reconciliation is idempotent.  A live holder keeps its lease whatever the
      others do, and each change of owner takes the next epoch after a death.
    - Vim: no keys in any mode break the buffer, even when a command throws; the key loop ends;
      offsets and positions are inverse; edits change what they name and nothing else; changes are
      undone and redone exactly; the ex reader stays in the file, and [:d], [:m] and [:sort] do
      what they say to the lines of their range; [%] pairs brackets; [w], [b] and [e] land on the
      stated starts and ends of words.
    - Hashline: anchors, operations and sections are read back from their text; an application is
      refused exactly when an anchor is stale and otherwise does what an order-independent
      specification says, up to the boundary lines that it absorbs and warns of; a call of the tool
      changes nothing when a section is refused and otherwise writes the planned texts in order, up to
      the first write that fails; it keeps the format of the files and previews what it does; a recovery
      rests on lines that were read; streams are numbered and cut the same however the text arrives,
      in chunks as large as the bounds allow.
    - Goals: under every interleaving the flags agree with the status, a goal keeps its identity, a
      complete one stays as it is, and the seconds charged have passed; without interference, with the
      current counters and while the goal is not exchanged the tokens balance exactly; an objective cannot leave its tags; a turn is held exactly when it repeats the
      timeout of the one before; the tool reports what is stored.
    - Tool calls: every call gets one answer whatever the order of the tasks, and without an abort the
      events of each call are one start, one end and its message; an
      exclusive tool runs alone, interrupted calls are skipped and the batch can always end.
    - Agent loop: what is sent to the provider pairs every call with its result; a run announces its end
      once and last; an aborted signal ends it in three steps without a request or a tool; requests that are
      made again in a row are at most 14; a managed run keeps every user
      message in order, unless the maintenance releases the context, and from there on those that come after.
    - Attempts: a managed attempt is published whole or not at all; what is published is what was
      admitted, in order, superseded increments apart; what is held back before the commit is charged
      and within its caps; an overflow says which caps it exceeded; the copy that stands for a hostile value always ends and can be printed.
    - Resource ledger: a run that is said to be settled has no work, promise or open lease; every wait
      has one answer or a timer that will give it; a run's domain is given back once; quarantine is
      final; a producer that is turned away quarantines the run.
    - Compaction: what is kept opens with the beginning of an exchange, and the cut keeps calls with their
      results unless a message of another kind was put between them; it is as late as the budget allows; the
      context is split into what is summarised and what is kept without a gap; the text of a request
      fits; the cache of the estimate cannot be seen.
    - Pruning: keys of targets do not collide; the index of stale results is what staleness means;
      what a plan prunes may go; a commit gives every digest the outcome it must have and touches nothing
      that has changed since, and at once it saves what the plan announced; pruned arguments are stale and their savings exact.
    Some of these say where the code does less than it means to (a request that is not made again in a
    turn that steering opened, follow-ups that are opened on an aborted signal, the overflow of a callback
    that misreports what was left, an abort that leaves its queue, the
    messages that a second compaction forgets, a custom message that separates a call from its result, [.] after an ex command, [w] next
    to a word, the plain key [<], tokens forfeited at a turn start, tokens charged twice by a late
    flush).

    ** Bounds

    The JavaScript loops over a string, a list or the keys are structural recursions or take the
    length as fuel, with the lemma that more changes nothing ([VimSafety.token_loop_terminates],
    [VimKeys.tokens_point_into_sequences]).  [VimText.while_up] and [while_down] count down the
    distance to their limit, which is the number of steps the loop can make.  A [.] replays keys,
    which may hold a [.]: [VimModes.executeTokens] takes the depth of that nesting, and
    [VimSafety.repeat_depth_irrelevant] shows that a run that does not hit the bound is the same
    under any larger one ([VimSafety.no_dot_any_depth]: keys without [.] never need it).
    [HashlineStream.drain] and the loops of [HashlinePrefixes] take the length of the text, each step of which consumes a unit.  A task
    of [Goals] is a finite tree of segments and needs no fuel.  The loops over entries of
    [Compaction] and [PrunePlan] recurse on the number of entries left; [strip_tags] takes the
    length of the text, each step of which consumes a tag.  The walks of [Staged] recurse on the value and
    carry their budget.  The loop of a run need not end, so [AgentLoop.steps] makes a given number of steps
    and its theorems hold for every number; each step is a total function, since the events of one
    response are a list.  Numbers are exact integers; the code's
    doubles are exact below 2^53, and where a factor is a fraction they are [JsFloat]'s.

    ** Parameters

    What the source calls and does not define is an argument, with documented behaviour as
    hypotheses: the process table, the clock and the hash of [Lease], the delay sample of
    [FallbackChain], the host of [YieldQueue], and for vim the class [VimEngine.VimHost] (the
    callbacks, the regular expressions and the case conversion of JavaScript, of which only that a
    match lies inside the text is assumed).  For the hashline edits: [Hashline.BunHash] (the hash, not
    negative), [HashlineInput.NodePath], [HashlineDiff.DiffLines] (the parts of a diff make up both
    texts), [HashlineTool.SnapshotStore], [PatchLib] and [EditHost] (the snapshot cache, the package
    diff, guards and writers), and the pieces that the decoder of a stream returns.  For the goals:
    [Goals.GoalHost] (clock, ids, calls that may throw, prompt templates) and the guards of the
    ultragoal workflow, an argument of [GoalsTool].  For the tool calls: the class [ToolBatch.ToolHost],
    and what hooks and tools answer, which labels the steps.  For the agent loop: [AgentLoop.Host], with the laws
    [AgentLoopPairs.HostLaws]: an aborted signal stays aborted, a response is a start, updates and a final
    message, each open call gets one result in order, a repair keeps a message's calls, the copy
    that is accepted stopped as the message did, and an aborted message without content does not leak.  For the attempts:
    [Attempt.Normalizer], the shells and snapshots of messages.  For the resource ledger: what a
    bound bridge answers; it is taken not to call the ledger back.  For compaction and pruning:
    [Compaction.Summarizer] (the model requests and a template) and [Prune.PruneHost] ([Bun.stripANSI]
    and the digest); nothing is assumed of either.

    ** Not modelled

    Rendering, providers, native bindings and everything that is mainly I/O is left out; of the
    hashline files, the placeholders of the grammar text (resolveHashlineGrammarPlaceholders), of the
    goals the tool's renderer; of a tool call, timestamps and the telemetry spans apart from their
    status; of the compaction, the prompts and requests (generateSummary, generateHandoff, openai.ts,
    branch-summarization.ts) and the history that a remote compaction returns.  The two requests of a
    split turn are made one after the other, the first failure being the one that counts.  Of the agent
    loop: the telemetry, the choice of credentials, the conversion of messages for the provider, the
    ownership of resources around a request and the caller of the loop (AgentSession, which is mostly
    files, settings and events); callbacks that write to the context while a response streams.  The goal
    mode controller, the workflow's state graph, the receipts of the harness and the texts that a model
    is sent (AG/compaction/messages.ts) are left out too; none of the above depends on them. *)
From stdpp Require Export base tactics list numbers strings gmap sorting.
From Stdlib Require Export ZArith Lia.
#[local] Open Scope Z_scope.

(** * Strings and arrays of the JavaScript runtime

    A JavaScript string is a sequence of UTF-16 code units; it is modelled as
    the list of those units.  Lengths and indices are JavaScript numbers holding
    integers; they are modelled in [Z], because the code computes indices that
    may be negative or past the end. *)

Abbreviation jchar := Z (only parsing).
Abbreviation jstr := (list Z) (only parsing).

(** String literals of the source that are pure ASCII. *)
Definition u (s : string) : jstr :=
  map (fun a => Z.of_N (Ascii.N_of_ascii a)) (String.list_ascii_of_string s).
Arguments u s%_string.

Declare Scope js_scope.
Delimit Scope js_scope with js.
Notation "s '==s' lit" := (bool_decide (s = u lit)) (at level 70, lit at level 0) : js_scope.
Notation "s '===' t" := (bool_decide (s = t)) (at level 70) : js_scope.
#[local] Open Scope js_scope.

(** The length of an array or a string, as a JavaScript number. *)
Definition zlen {A} (l : list A) : Z := Z.of_nat (length l).

(** [Math.min(Math.max(x, lo), hi)]. *)
Definition clamp (x lo hi : Z) : Z := Z.min (Z.max x lo) hi.

(** [l[i]]: [undefined] outside the bounds. *)
Definition at_ {A} (l : list A) (i : Z) : option A :=
  if i <? 0 then None else l !! Z.to_nat i.

(** [s[i] ?? ""]. *)
Definition char_str (s : jstr) (i : Z) : jstr :=
  match at_ s i with Some c => [c] | None => [] end.

(** The relative index of [slice]/[splice]: negative counts from the end. *)
Definition rel_index (len i : Z) : Z :=
  if i <? 0 then Z.max (len + i) 0 else Z.min i len.

Definition slice {A} (l : list A) (a b : Z) : list A :=
  let i := rel_index (zlen l) a in
  let j := rel_index (zlen l) b in
  take (Z.to_nat (j - i)) (drop (Z.to_nat i) l).

Definition slice_from {A} (l : list A) (a : Z) : list A := slice l a (zlen l).

(** [l.splice(start, count, ...items)]: the removed elements and the array. *)
Definition splice {A} (l : list A) (start count : Z) (items : list A) : list A * list A :=
  let i := rel_index (zlen l) start in
  let n := Z.min (Z.max count 0) (zlen l - i) in
  (take (Z.to_nat n) (drop (Z.to_nat i) l),
   take (Z.to_nat i) l ++ items ++ drop (Z.to_nat (i + n)) l).

(** [l[i] = x] for an index inside the array. *)
Definition set_at {A} (l : list A) (i : Z) (x : A) : list A :=
  if i <? 0 then l else <[Z.to_nat i := x]> l.

(** [s.startsWith(p)], [s.endsWith(p)]. *)
Fixpoint starts_with (s p : jstr) : bool :=
  match p, s with
  | [], _ => true
  | _ :: _, [] => false
  | c :: p', d :: s' => (c =? d) && starts_with s' p'
  end.

Definition ends_with (s p : jstr) : bool := starts_with (rev s) (rev p).

Fixpoint find_from (s p : jstr) (i : Z) : Z :=
  if starts_with s p then i
  else match s with [] => -1 | _ :: s' => find_from s' p (i + 1) end.

(** [s.indexOf(p, from)] and [s.includes(p)]. *)
Definition index_of (s p : jstr) (from : Z) : Z :=
  let i := clamp from 0 (zlen s) in find_from (drop (Z.to_nat i) s) p i.

Definition includes (s p : jstr) : bool := negb (index_of s p 0 =? -1).

(** [s.lastIndexOf(p, from)]: the greatest match start that is at most [from]. *)
Fixpoint last_from (s p : jstr) (n : nat) : Z :=
  if starts_with (drop n s) p then Z.of_nat n
  else match n with O => -1 | S m => last_from s p m end.

Definition last_index_of (s p : jstr) (from : Z) : Z :=
  last_from s p (Z.to_nat (clamp from 0 (zlen s))).

(** [s.split(c)] for a separator of one code unit, and [lines.join(sep)]. *)
Fixpoint split_on (c : jchar) (s : jstr) : list jstr :=
  match s with
  | [] => [[]]
  | d :: s' =>
      if d =? c then [] :: split_on c s'
      else match split_on c s' with
           | [] => [[d]]
           | l :: ls => (d :: l) :: ls
           end
  end.

Fixpoint join_with (sep : jstr) (ls : list jstr) : jstr :=
  match ls with
  | [] => []
  | [l] => l
  | l :: ls' => l ++ sep ++ join_with sep ls'
  end.

Definition NL : jchar := 10.
Definition split_lines : jstr -> list jstr := split_on NL.
Definition join_lines : list jstr -> jstr := join_with [NL].

(** The class [\s]: JavaScript's WhiteSpace and LineTerminator code units. *)
Definition is_ws (c : jchar) : bool :=
  ((9 <=? c) && (c <=? 13)) || (c =? 32) || (c =? 160) || (c =? 5760)
  || ((8192 <=? c) && (c <=? 8202)) || (c =? 8232) || (c =? 8233)
  || (c =? 8239) || (c =? 8287) || (c =? 12288) || (c =? 65279).

(** The classes [\d], [\w] and [[a-z]]. *)
Definition is_digit (c : jchar) : bool := (48 <=? c) && (c <=? 57).
Definition is_lower (c : jchar) : bool := (97 <=? c) && (c <=? 122).
Definition is_upper (c : jchar) : bool := (65 <=? c) && (c <=? 90).
Definition is_word (c : jchar) : bool :=
  is_digit c || is_lower c || is_upper c || (c =? 95).

Fixpoint drop_while {A} (p : A -> bool) (l : list A) : list A :=
  match l with [] => [] | x :: l' => if p x then drop_while p l' else l end.
Fixpoint take_while {A} (p : A -> bool) (l : list A) : list A :=
  match l with [] => [] | x :: l' => if p x then x :: take_while p l' else [] end.

Definition trim_start (s : jstr) : jstr := drop_while is_ws s.
Definition trim_end (s : jstr) : jstr := rev (drop_while is_ws (rev s)).
Definition trim (s : jstr) : jstr := trim_end (trim_start s).

(** [String(n)] for an integer below 10^21, and [Number.parseInt(d, 10)] for a
    non-empty string of decimal digits. *)
Fixpoint dec_digits (fuel : nat) (n : Z) (acc : jstr) : jstr :=
  match fuel with
  | O => acc
  | S f => let acc' := (48 + n mod 10) :: acc in
           if n <? 10 then acc' else dec_digits f (n / 10) acc'
  end.
Definition nat_to_str (n : Z) : jstr := dec_digits (S (Z.to_nat (Z.log2 n))) n [].
Definition num_to_str (n : Z) : jstr :=
  if n <? 0 then 45 :: nat_to_str (- n) else nat_to_str n.

Definition parse_dec (s : jstr) : Z := fold_left (fun acc c => 10 * acc + (c - 48)) s 0.

(** [s.repeat(n)] and [Array.prototype.flat] of equal blocks. *)
Definition repeat_str {A} (l : list A) (n : Z) : list A :=
  concat (replicate (Z.to_nat n) l).

(** [for (const c of s)]: the code points of [s], each as the string of its units. *)
Definition is_high (c : jchar) : bool := (55296 <=? c) && (c <=? 56319).
Definition is_low (c : jchar) : bool := (56320 <=? c) && (c <=? 57343).
Fixpoint code_points (s : jstr) : list jstr :=
  match s with
  | [] => []
  | c :: s' =>
      match s' with
      | d :: s'' => if is_high c && is_low d then [c; d] :: code_points s''
                    else [c] :: code_points s'
      | [] => [[c]]
      end
  end.

(** [Buffer.byteLength(s, "utf-8")]. *)
Definition utf8_size (cp : jstr) : Z :=
  match cp with
  | [c] => if c <? 128 then 1 else if c <? 2048 then 2 else 3
  | _ => 4
  end.
Definition byte_length (s : jstr) : Z := fold_left (fun n cp => n + utf8_size cp) (code_points s) 0.

(** [l.sort((a, b) => key(a) - key(b))]: JavaScript's sort is stable. *)
Section sort_by.
Context {A : Type} (key : A -> Z).
Fixpoint insert_by (x : A) (l : list A) : list A :=
  match l with
  | [] => [x]
  | y :: l' => if key x <=? key y then x :: l else y :: insert_by x l'
  end.
Fixpoint sort_by (l : list A) : list A :=
  match l with [] => [] | x :: l' => insert_by x (sort_by l') end.
End sort_by.

(** [a < b] on strings: by code units. *)
Fixpoint str_lt (a b : jstr) : bool :=
  match a, b with
  | _, [] => false
  | [], _ :: _ => true
  | c :: a', d :: b' => (c <? d) || ((c =? d) && str_lt a' b')
  end.

(** A stable sort by strings: [Array.prototype.sort] is stable, so any stable sort is the same
    function. *)
Section sort_strings.
Context {A : Type} (key : A -> jstr).
Fixpoint sort_insert (x : A) (ls : list A) : list A :=
  match ls with
  | [] => [x]
  | y :: ls' => if str_lt (key y) (key x) then y :: sort_insert x ls' else x :: ls
  end.
Definition sort_lines (ls : list A) : list A := foldr sort_insert [] ls.
End sort_strings.

(** * Results and the state-and-exception monad

    A throwing function returns a [result]; a method that mutates an object and
    may throw is an [SM]: mutations made before the throw stay. *)

Inductive result (E A : Type) : Type :=
| Ok (a : A)
| Err (e : E).
Arguments Ok {E A} a.
Arguments Err {E A} e.

#[export] Instance Ok_inj E A : Inj (=) (=) (@Ok E A).
Proof. by intros a b [= ->]. Qed.
#[export] Instance result_ret E : MRet (result E) := fun A a => Ok a.
#[export] Instance result_bind E : MBind (result E) := fun A B k m =>
  match m with Ok a => k a | Err e => Err e end.

Definition SM (S E A : Type) : Type := S -> S * result E A.

#[export] Instance sm_ret S E : MRet (SM S E) := fun A a s => (s, Ok a).
#[export] Instance sm_bind S E : MBind (SM S E) := fun A B k m s =>
  match m s with
  | (s', Ok a) => k a s'
  | (s', Err e) => (s', Err e)
  end.

Section SM_ops.
Context {S E : Type}.
Definition get_state : SM S E S := fun s => (s, Ok s).
Definition modify (f : S -> S) : SM S E unit := fun s => (f s, Ok tt).
Definition throw {A} (e : E) : SM S E A := fun s => (s, Err e).
Definition lift_result {A} (r : result E A) : SM S E A := fun s => (s, r).
(** [for (let i = 0; i < n; i += 1) body()]. *)
Fixpoint repeat_m (n : nat) (body : SM S E unit) : SM S E unit :=
  match n with O => mret tt | Datatypes.S m => body ≫= fun _ => repeat_m m body end.
End SM_ops.

(** A computation keeps the state predicate [P], also when it throws. *)
Definition keeps {S E A} (P : S -> Prop) (m : SM S E A) : Prop :=
  forall s, P s -> P (fst (m s)).

Create HintDb keeps.

Section keeps_rules.
Context {S E : Type} (P : S -> Prop).

Lemma keeps_ret {A} (a : A) : keeps P (mret a : SM S E A).
Proof. by intros s Hs. Qed.

Lemma keeps_throw {A} (e : E) : keeps P (throw e : SM S E A).
Proof. by intros s Hs. Qed.

Lemma keeps_get : keeps P (get_state : SM S E S).
Proof. by intros s Hs. Qed.

Lemma keeps_lift {A} (r : result E A) : keeps P (lift_result r : SM S E A).
Proof. by intros s Hs. Qed.

Lemma keeps_modify (f : S -> S) :
  (forall s, P s -> P (f s)) -> keeps P (modify f : SM S E unit).
Proof. intros H s Hs. by apply H. Qed.

Lemma keeps_bind {A B} (m : SM S E A) (k : A -> SM S E B) :
  keeps P m -> (forall a, keeps P (k a)) -> keeps P (mbind k m).
Proof.
  intros Hm Hk s Hs. unfold mbind, sm_bind.
  specialize (Hm s Hs). destruct (m s) as [s' [a|e]]; [by apply Hk|done].
Qed.

Lemma keeps_repeat n (body : SM S E unit) : keeps P body -> keeps P (repeat_m n body).
Proof.
  intros Hb. induction n as [|n IH]; simpl; [apply keeps_ret|].
  apply keeps_bind; [done|]. intros _. exact IH.
Qed.

(** A continuation may use what is known of the state it reads. *)
Lemma keeps_get_bind {B} (k : S -> SM S E B) :
  (forall s, P s -> P (fst (k s s))) -> keeps P (mbind k get_state).
Proof. intros H s Hs. by apply H. Qed.
End keeps_rules.

#[export] Hint Resolve keeps_ret keeps_throw keeps_get keeps_lift keeps_repeat : keeps.

(** Decompose a monadic computation along its binds, tests and matches. *)
Ltac keeps_step :=
  match goal with
  | |- keeps _ (mbind _ _) => apply keeps_bind; [|intros ?]
  | |- keeps _ (if ?b then _ else _) => destruct b eqn:?
  | |- keeps _ (match ?x with _ => _ end) => destruct x eqn:?
  | |- keeps _ (let _ := _ in _) => cbv zeta
  | |- keeps _ _ => solve [eauto with keeps]
  end.
Ltac solve_keeps := repeat keeps_step.

(** * Shared lemmas *)

Create Rewrite HintDb js.

Lemma zlen_nonneg {A} (l : list A) : 0 <= zlen l.
Proof. unfold zlen. lia. Qed.
Lemma zlen_nil {A} : zlen (@nil A) = 0.
Proof. done. Qed.
Lemma zlen_cons {A} (x : A) l : zlen (x :: l) = 1 + zlen l.
Proof. unfold zlen. simpl. lia. Qed.
Lemma zlen_app {A} (l1 l2 : list A) : zlen (l1 ++ l2) = zlen l1 + zlen l2.
Proof. unfold zlen. rewrite length_app. lia. Qed.
Lemma zlen_snoc {A} (l : list A) x : zlen (l ++ [x]) = zlen l + 1.
Proof. unfold zlen. rewrite length_app. simpl. lia. Qed.
Lemma zlen_map {A B} (f : A -> B) l : zlen (map f l) = zlen l.
Proof. unfold zlen. by rewrite length_map. Qed.
Lemma zlen_rev {A} (l : list A) : zlen (rev l) = zlen l.
Proof. unfold zlen. by rewrite length_rev. Qed.
Lemma zlen_0_nil {A} (l : list A) : zlen l = 0 -> l = [].
Proof. destruct l; [done|]. rewrite zlen_cons. pose proof (zlen_nonneg l). lia. Qed.
Lemma zlen_take {A} (l : list A) n : 0 <= n <= zlen l -> zlen (take (Z.to_nat n) l) = n.
Proof. unfold zlen. intros. rewrite length_take. lia. Qed.
Lemma zlen_drop {A} (l : list A) n : 0 <= n <= zlen l -> zlen (drop (Z.to_nat n) l) = zlen l - n.
Proof. unfold zlen. intros. rewrite length_drop. lia. Qed.

#[export] Hint Rewrite @zlen_nil @zlen_cons @zlen_app @zlen_map @zlen_rev : js.

Lemma in_take {A} (l : list A) n x : x ∈ take n l -> x ∈ l.
Proof. intros H. rewrite <- (take_drop n l). apply elem_of_app. by left. Qed.
Lemma in_drop {A} (l : list A) n x : x ∈ drop n l -> x ∈ l.
Proof. intros H. rewrite <- (take_drop n l). apply elem_of_app. by right. Qed.

Lemma Forall_flat_map_impl {A B} (P : A -> Prop) (Q : B -> Prop) (f : A -> list B) l :
  (forall x, P x -> Forall Q (f x)) -> Forall P l -> Forall Q (flat_map f l).
Proof.
  intros H. induction 1 as [|x l Hx _ IH]; cbn; [constructor|]. apply Forall_app. auto.
Qed.

Lemma Forall_imap_all {A B} (P : B -> Prop) (f : nat -> A -> B) l :
  (forall i x, P (f i x)) -> Forall P (imap f l).
Proof.
  intros H. revert f H. induction l as [|x l IH]; intros f H; cbn; constructor; [apply H|].
  apply IH. intros i y. apply H.
Qed.

Lemma clamp_bounds x lo hi : lo <= hi -> lo <= clamp x lo hi <= hi.
Proof. unfold clamp. lia. Qed.
Lemma clamp_id x lo hi : lo <= x <= hi -> clamp x lo hi = x.
Proof. unfold clamp. lia. Qed.

Lemma slice_spec {A} (l : list A) a b :
  0 <= a <= b -> b <= zlen l ->
  slice l a b = take (Z.to_nat (b - a)) (drop (Z.to_nat a) l).
Proof.
  intros. unfold slice, rel_index.
  destruct (Z.ltb_spec a 0), (Z.ltb_spec b 0); try lia.
  by rewrite !Z.min_l by lia.
Qed.

Lemma slice_prefix {A} (l : list A) b :
  0 <= b <= zlen l -> slice l 0 b = take (Z.to_nat b) l.
Proof. intros. rewrite slice_spec by lia. by rewrite Z.sub_0_r. Qed.

Lemma slice_suffix {A} (l : list A) a :
  0 <= a <= zlen l -> slice_from l a = drop (Z.to_nat a) l.
Proof.
  intros. unfold slice_from. rewrite slice_spec by lia.
  apply take_ge. rewrite length_drop. unfold zlen in *. lia.
Qed.

Lemma zlen_slice {A} (l : list A) a b :
  0 <= a <= b -> b <= zlen l -> zlen (slice l a b) = b - a.
Proof.
  intros. rewrite slice_spec by lia. rewrite zlen_take; [done|].
  rewrite zlen_drop by lia. lia.
Qed.

(** Cutting a list at two points and gluing the pieces gives it back. *)
Lemma slice_glue {A} (l : list A) a b :
  0 <= a <= b -> b <= zlen l -> slice l 0 a ++ slice l a b ++ slice_from l b = l.
Proof.
  intros. rewrite slice_prefix, slice_suffix, slice_spec by lia.
  replace (drop (Z.to_nat b) l) with (drop (Z.to_nat (b - a)) (drop (Z.to_nat a) l)).
  - by rewrite !take_drop.
  - rewrite drop_drop. f_equal. lia.
Qed.

Lemma splice_eq {A} (l : list A) i n items :
  0 <= i <= zlen l -> 0 <= n -> i + n <= zlen l ->
  splice l i n items =
  (take (Z.to_nat n) (drop (Z.to_nat i) l),
   take (Z.to_nat i) l ++ items ++ drop (Z.to_nat (i + n)) l).
Proof.
  intros. unfold splice, rel_index. destruct (Z.ltb_spec i 0); [lia|].
  rewrite (Z.min_l i) by lia. by rewrite Z.max_l, Z.min_l by lia.
Qed.

(** ** Splitting and joining *)

Lemma split_on_nonempty c s : split_on c s <> [].
Proof.
  destruct s as [|d s]; simpl; [done|]. destruct (d =? c); [done|].
  by destruct (split_on c s).
Qed.

Lemma join_cons sep l ls : ls <> [] -> join_with sep (l :: ls) = l ++ sep ++ join_with sep ls.
Proof. by destruct ls. Qed.

Lemma join_split c s : join_with [c] (split_on c s) = s.
Proof.
  induction s as [|d s IH]; [done|]. simpl.
  destruct (Z.eqb_spec d c) as [->|].
  - rewrite join_cons by apply split_on_nonempty. by rewrite IH.
  - pose proof (split_on_nonempty c s) as Hne.
    destruct (split_on c s) as [|l ls]; [done|]. rewrite <- IH. by destruct ls.
Qed.

Definition no_char (c : jchar) (s : jstr) : Prop := Forall (fun d => d <> c) s.

(** A search passes over text without the first unit of what is searched for. *)
Lemma find_from_skip c p l rest i :
  no_char c l -> find_from (l ++ rest) (c :: p) i = find_from rest (c :: p) (i + zlen l).
Proof.
  intros H. revert i. induction H as [|d l Hd _ IH]; intros i; [by rewrite zlen_nil, Z.add_0_r|].
  cbn [app find_from starts_with]. rewrite (proj2 (Z.eqb_neq c d)) by congruence. cbn [andb].
  rewrite IH, zlen_cons. f_equal. lia.
Qed.

Lemma split_app_sep c l s : no_char c l -> split_on c (l ++ c :: s) = l :: split_on c s.
Proof.
  induction 1 as [|d l Hd _ IH]; simpl.
  - by rewrite Z.eqb_refl.
  - rewrite IH. by destruct (Z.eqb_spec d c).
Qed.

Lemma split_no_sep c l : no_char c l -> split_on c l = [l].
Proof.
  induction 1 as [|d l Hd _ IH]; [done|]. simpl. rewrite IH. by destruct (Z.eqb_spec d c).
Qed.

Lemma split_join c ls :
  ls <> [] -> Forall (no_char c) ls -> split_on c (join_with [c] ls) = ls.
Proof.
  intros Hne Hall. induction Hall as [|l ls Hl Hls IH]; [done|].
  destruct ls as [|l2 ls]; [by apply split_no_sep|].
  rewrite join_cons by done. change (l ++ [c] ++ join_with [c] (l2 :: ls)) with (l ++ c :: join_with [c] (l2 :: ls)).
  rewrite split_app_sep by done. f_equal. by apply IH.
Qed.

Lemma split_on_no_char c s : Forall (no_char c) (split_on c s).
Proof.
  induction s as [|d s IH]; simpl; [by repeat constructor|].
  destruct (Z.eqb_spec d c); [by constructor; [constructor|]|].
  destruct (split_on c s) as [|l ls]; [by repeat constructor|].
  inversion IH; subst. constructor; [by constructor|done].
Qed.

Lemma join_app c ls1 ls2 :
  ls1 <> [] -> ls2 <> [] ->
  join_with [c] (ls1 ++ ls2) = join_with [c] ls1 ++ [c] ++ join_with [c] ls2.
Proof.
  intros H1 H2. induction ls1 as [|l ls1 IH]; [done|].
  destruct ls1 as [|l1 ls1].
  - simpl app. by rewrite join_cons.
  - change ((l :: l1 :: ls1) ++ ls2) with (l :: ((l1 :: ls1) ++ ls2)).
    rewrite join_cons by done. rewrite IH by done.
    rewrite (join_cons _ l) by done. by rewrite <- !app_assoc.
Qed.

(** ** Decimal numerals *)

Lemma dec_digits_spec fuel n acc :
  0 <= n < 10 ^ Z.of_nat fuel ->
  exists ds, dec_digits fuel n acc = ds ++ acc /\ parse_dec ds = n /\
             Forall (fun c => is_digit c = true) ds /\ (fuel <> O -> ds <> []).
Proof.
  revert n acc. induction fuel as [|f IH]; intros n acc Hn.
  - exists []. split_and!; [done| |constructor|done]. unfold parse_dec. simpl in *. lia.
  - cbn [dec_digits]. pose proof (Z.mod_pos_bound n 10 ltac:(lia)).
    assert (Hd : is_digit (48 + n mod 10) = true) by (unfold is_digit; lia).
    destruct (Z.ltb_spec n 10).
    + exists [48 + n mod 10]. split_and!; [done| |by repeat constructor|done].
      unfold parse_dec. cbn [fold_left]. rewrite Z.mod_small by lia. lia.
    + destruct (IH (n / 10) ((48 + n mod 10) :: acc)) as (ds & -> & Hp & Hall & _).
      { rewrite Nat2Z.inj_succ, Z.pow_succ_r in Hn by lia.
        split; [apply Z.div_pos; lia|apply Z.div_lt_upper_bound; lia]. }
      exists (ds ++ [48 + n mod 10]). split_and!.
      * by rewrite <- app_assoc.
      * unfold parse_dec in *. rewrite fold_left_app, Hp. cbn [fold_left].
        pose proof (Z.div_mod n 10). lia.
      * apply Forall_app. by repeat constructor.
      * intros _. by destruct ds.
Qed.

Lemma log2_fuel n : 0 <= n -> n < 10 ^ Z.of_nat (S (Z.to_nat (Z.log2 n))).
Proof.
  intros. destruct (Z.eq_dec n 0) as [->|]; [done|].
  pose proof (Z.log2_spec n ltac:(lia)) as [_ Hlt].
  pose proof (Z.log2_nonneg n). rewrite Nat2Z.inj_succ, Z2Nat.id by lia.
  eapply Z.lt_le_trans; [exact Hlt|]. apply Z.pow_le_mono_l. lia.
Qed.

(** Reading a printed number gives it back; the print is a non-empty run of digits. *)
Lemma nat_to_str_spec n :
  0 <= n -> parse_dec (nat_to_str n) = n /\ nat_to_str n <> [] /\
            Forall (fun c => is_digit c = true) (nat_to_str n).
Proof.
  intros. destruct (dec_digits_spec (S (Z.to_nat (Z.log2 n))) n []) as (ds & He & Hp & Ha & Hn).
  { split; [done|by apply log2_fuel]. }
  unfold nat_to_str. rewrite He, app_nil_r. auto.
Qed.

Lemma nat_to_str_inj a b : 0 <= a -> 0 <= b -> nat_to_str a = nat_to_str b -> a = b.
Proof.
  intros Ha Hb He. destruct (nat_to_str_spec a Ha) as [<- _], (nat_to_str_spec b Hb) as [<- _].
  by rewrite He.
Qed.

Lemma digit_not_ws c : is_digit c = true -> is_ws c = false.
Proof. unfold is_digit, is_ws. lia. Qed.

(** ** Prefix scans *)

Lemma take_drop_while {A} (p : A -> bool) l : take_while p l ++ drop_while p l = l.
Proof. induction l as [|x l IH]; simpl; [done|]. destruct (p x); simpl; by rewrite ?IH. Qed.

Lemma take_while_all {A} (p : A -> bool) l : Forall (fun x => p x = true) (take_while p l).
Proof. induction l as [|x l IH]; simpl; [done|]. destruct (p x) eqn:?; by constructor. Qed.

Lemma drop_while_head {A} (p : A -> bool) l x l' : drop_while p l = x :: l' -> p x = false.
Proof.
  induction l as [|y l IH]; simpl; [done|]. destruct (p y) eqn:E; [done|]. by intros [= -> _].
Qed.

Lemma drop_while_none {A} (p : A -> bool) l :
  Forall (fun x => p x = false) l -> drop_while p l = l.
Proof. destruct 1 as [|x l Hx _]; simpl; [done|]. by rewrite Hx. Qed.

Lemma take_while_app {A} (p : A -> bool) l x r :
  Forall (fun y => p y = true) l -> p x = false -> take_while p (l ++ x :: r) = l.
Proof. intros Hl Hx. induction Hl as [|y l Hy _ IH]; simpl; [by rewrite Hx|]. by rewrite Hy, IH. Qed.

Lemma drop_while_app {A} (p : A -> bool) l x r :
  Forall (fun y => p y = true) l -> p x = false -> drop_while p (l ++ x :: r) = x :: r.
Proof. intros Hl Hx. induction Hl as [|y l Hy _ IH]; simpl; [by rewrite Hx|]. by rewrite Hy, IH. Qed.

Lemma take_while_full {A} (p : A -> bool) l :
  Forall (fun y => p y = true) l -> take_while p l = l.
Proof. induction 1 as [|y l Hy _ IH]; simpl; [done|]. by rewrite Hy, IH. Qed.

Lemma drop_while_full {A} (p : A -> bool) l :
  Forall (fun y => p y = true) l -> drop_while p l = [].
Proof. induction 1 as [|y l Hy _ IH]; simpl; [done|]. by rewrite Hy. Qed.

Lemma trim_no_ws s : Forall (fun c => is_ws c = false) s -> trim s = s.
Proof.
  intros H. unfold trim, trim_start, trim_end. rewrite (drop_while_none _ s) by done.
  rewrite drop_while_none; [apply rev_involutive|]. by apply Forall_rev.
Qed.

Lemma starts_with_spec s p : starts_with s p = true <-> exists r, s = p ++ r.
Proof.
  revert s. induction p as [|c p IH]; intros s; cbn [starts_with].
  - split; [by exists s|by destruct s].
  - destruct s as [|d s]; [split; [done|by intros [r Hr]]|].
    cbn [starts_with]. rewrite andb_true_iff, IH, Z.eqb_eq. split.
    + intros [-> [r ->]]. by exists r.
    + intros [r Hr]. injection Hr as -> ->. eauto.
Qed.

(** ** Sorting *)

Section sort_by_lemmas.
Context {A : Type} (key : A -> Z).
Implicit Types l : list A.

Lemma insert_by_perm x l : insert_by key x l ≡ₚ x :: l.
Proof.
  induction l as [|y l IH]; simpl; [done|]. destruct (key x <=? key y); [done|].
  rewrite IH. apply Permutation_swap.
Qed.

Lemma sort_by_perm l : sort_by key l ≡ₚ l.
Proof. induction l as [|x l IH]; simpl; [done|]. by rewrite insert_by_perm, IH. Qed.

Lemma insert_by_sorted x l :
  StronglySorted (fun a b => key a <= key b) l ->
  StronglySorted (fun a b => key a <= key b) (insert_by key x l).
Proof.
  induction 1 as [|y l Hs IH Hy]; simpl; [by repeat constructor|].
  destruct (Z.leb_spec (key x) (key y)).
  - constructor; [by constructor|]. constructor; [done|].
    eapply Forall_impl; [exact Hy|]. simpl. lia.
  - constructor; [done|]. rewrite insert_by_perm. constructor; [lia|done].
Qed.

Lemma sort_by_sorted l : StronglySorted (fun a b => key a <= key b) (sort_by key l).
Proof. induction l as [|x l IH]; simpl; [constructor|]. by apply insert_by_sorted. Qed.

(** Distinct keys come out in strictly increasing order. *)
Lemma sort_by_strict l :
  (forall a b, key a = key b -> a = b) -> NoDup l ->
  StronglySorted (fun a b => key a < key b) (sort_by key l).
Proof.
  intros Hinj Hnd. assert (Hnd' : NoDup (sort_by key l)) by by rewrite sort_by_perm.
  pose proof (sort_by_sorted l) as Hs. induction Hs as [|x l' Hs IH Hx]; [constructor|].
  apply NoDup_cons in Hnd' as [Hni Hnd']. constructor; [by apply IH|].
  rewrite Forall_forall in Hx |- *. intros y Hy. specialize (Hx y Hy).
  destruct (Z.eq_dec (key x) (key y)) as [E|]; [|lia]. apply Hinj in E. by subst.
Qed.

(** A sorted list is not reordered. *)
Lemma sort_by_id l : StronglySorted (fun a b => key a <= key b) l -> sort_by key l = l.
Proof.
  induction 1 as [|x l Hs IH Hx]; simpl; [done|]. rewrite IH.
  destruct Hx as [|y l Hy]; simpl; [done|]. destruct (Z.leb_spec (key x) (key y)); [done|lia].
Qed.
End sort_by_lemmas.

(** *** Sorting by strings *)

(** [x] may stand before [y]. *)
Definition sort_le {A} (key : A -> jstr) (x y : A) : Prop := str_lt (key y) (key x) = false.

Lemma str_lt_total a b : str_lt a b = true -> str_lt b a = false.
Proof.
  revert b. induction a as [|c a IH]; intros [|d b]; simpl; try done.
  rewrite orb_true_iff, andb_true_iff, Z.ltb_lt, Z.eqb_eq, orb_false_iff, andb_false_iff, Z.ltb_ge, Z.eqb_neq.
  intros [H|[-> H]]; split; [lia|left; lia|lia|right; by apply IH].
Qed.
Lemma str_le_trans a b c : str_lt b a = false -> str_lt c b = false -> str_lt c a = false.
Proof.
  revert b c. induction a as [|x a IH]; intros [|y b] [|z c]; simpl; try done.
  rewrite !orb_false_iff, !andb_false_iff, !Z.ltb_ge, !Z.eqb_neq.
  intros [H1 H2] [H3 H4]. split; [lia|]. destruct (Z.eq_dec z x) as [->|]; [right|left; lia].
  assert (x = y) as -> by lia. destruct H2, H4; try lia. by eapply IH.
Qed.

Lemma sort_insert_perm {A} (key : A -> jstr) x ls : Permutation (sort_insert key x ls) (x :: ls).
Proof.
  induction ls as [|y ls IH]; simpl; [done|]. case_match; [|done].
  rewrite IH. constructor.
Qed.
Lemma sort_lines_perm {A} (key : A -> jstr) ls : Permutation (sort_lines key ls) ls.
Proof. induction ls as [|x ls IH]; simpl; [done|]. by rewrite sort_insert_perm, IH. Qed.

Lemma sort_insert_sorted {A} (key : A -> jstr) x ls :
  StronglySorted (sort_le key) ls -> StronglySorted (sort_le key) (sort_insert key x ls).
Proof.
  induction 1 as [|y ls Hls IH Hy]; simpl; [by repeat constructor|].
  case_match eqn:E; constructor; try done.
  - rewrite sort_insert_perm. constructor; [by apply str_lt_total|done].
  - by constructor.
  - constructor; [done|]. eapply Forall_impl; [exact Hy|]. intros z Hz. by eapply str_le_trans.
Qed.
Lemma sort_lines_sorted {A} (key : A -> jstr) ls : StronglySorted (sort_le key) (sort_lines key ls).
Proof. induction ls; simpl; [constructor|]. by apply sort_insert_sorted. Qed.

Lemma sort_insert_filter {A} (key : A -> jstr) (p : A -> bool) x ls :
  (forall y, p y = true -> p x = true -> str_lt (key y) (key x) = false) ->
  List.filter p (sort_insert key x ls) = List.filter p (x :: ls).
Proof.
  intros Hp. induction ls as [|y ls IH]; [done|]. cbn [sort_insert]. case_match eqn:E; [|done].
  cbn [List.filter] in *. rewrite IH. destruct (p x) eqn:Ex, (p y) eqn:Ey; try done.
  rewrite Hp in E by done. done.
Qed.

(** Lines with equal keys keep their order. *)
Lemma sort_lines_stable {A} (key : A -> jstr) k ls :
  List.filter (fun l => key l === k) (sort_lines key ls) = List.filter (fun l => key l === k) ls.
Proof.
  induction ls as [|x ls IH]; [done|]. cbn [sort_lines foldr]. rewrite sort_insert_filter.
  - cbn [List.filter]. fold (sort_lines key ls). by rewrite IH.
  - intros y Hy Hx. apply bool_decide_eq_true in Hy, Hx. rewrite Hy, Hx.
    destruct (str_lt k k) eqn:E; [|done]. by rewrite (str_lt_total _ _ E) in E.
Qed.

(** ** Number of steps: star closure of a step function over a list of operations *)

Section runs.
Context {S Op : Type} (step : Op -> S -> S).
Definition run (ops : list Op) (s : S) : S := fold_left (fun s op => step op s) ops s.
Lemma run_invariant (P : S -> Prop) :
  (forall op s, P s -> P (step op s)) -> forall ops s, P s -> P (run ops s).
Proof. intros Hstep ops. induction ops as [|op ops IH]; simpl; auto. Qed.
End runs.
