(* ===== verification/ToolChoiceQueue.v ===== *)
(** The tool-choice queue of an agent session
    (src/gajae-code/packages/coding-agent/src/session/tool-choice-queue.ts).

    A directive owns an iterator; iterators are shared mutable objects, so they live
    in a store indexed by references and a directive holds the reference.  A
    directive has an identity, because [degradeInFlight] compares directives with
    [===].  Callbacks are values of the directive: [onRejected] is the function the
    code calls, [onResolved] produces the event that the call delivers, and
    [onInvoked] is carried along opaquely, as the code does.  Iterators are finite
    lists of remaining values.  Callbacks do not re-enter the queue. *)
From S2P Require Import Prelude.
#[local] Open Scope Z_scope.

Section ToolChoiceQueue.
Context {ToolChoice Ev Invoker : Type}.

Inductive RejectReason := aborted | error | cleared | removed.
Inductive RejectOutcome := requeue | drop_.
#[global] Instance RejectOutcome_eq_dec : EqDecision RejectOutcome.
Proof. solve_decision. Defined.

Record DirectiveCallbacks := {
  onResolved : option (ToolChoice -> Ev);
  onRejected : option (ToolChoice -> RejectReason -> option RejectOutcome);
  onInvoked : option Invoker }.

Record ToolChoiceDirective := {
  ident : nat;
  generator : nat;
  label : jstr;
  callbacks : DirectiveCallbacks }.

Record InFlight := { directive : ToolChoiceDirective; yielded : ToolChoice }.

Record PushOptions := {
  now : bool;
  opt_label : option jstr;
  opt_callbacks : DirectiveCallbacks }.

Definition no_callbacks : DirectiveCallbacks :=
  {| onResolved := None; onRejected := None; onInvoked := None |}.
Definition no_options : PushOptions :=
  {| now := false; opt_label := None; opt_callbacks := no_callbacks |}.

(** [store] and [fresh] are the heap of iterators and directives; [events] the
    calls of [onResolved] so far; the other fields are the class's. *)
Record Queue := mkQueue {
  store : gmap nat (list ToolChoice);
  fresh : nat;
  events : list Ev;
  queue : list ToolChoiceDirective;
  inFlight : option InFlight;
  lastResolvedLabel : option jstr }.

Definition empty_queue : Queue := mkQueue ∅ 0 [] [] None None.

Definition set_queue (q : list ToolChoiceDirective) (s : Queue) : Queue :=
  mkQueue (store s) (fresh s) (events s) q (inFlight s) (lastResolvedLabel s).
Definition set_inFlight (f : option InFlight) (s : Queue) : Queue :=
  mkQueue (store s) (fresh s) (events s) (queue s) f (lastResolvedLabel s).
Definition set_lastLabel (l : option jstr) (s : Queue) : Queue :=
  mkQueue (store s) (fresh s) (events s) (queue s) (inFlight s) l.
Definition emit (e : option Ev) (s : Queue) : Queue :=
  mkQueue (store s) (fresh s) (events s ++ option_list e) (queue s) (inFlight s)
    (lastResolvedLabel s).
(** A new iterator over [choices] ([onceGen], [choices[Symbol.iterator]()]). *)
Definition new_iterator (choices : list ToolChoice) (s : Queue) : nat * Queue :=
  (fresh s, mkQueue (<[fresh s := choices]> (store s)) (S (fresh s)) (events s) (queue s)
              (inFlight s) (lastResolvedLabel s)).
Definition new_ident (s : Queue) : nat * Queue :=
  (fresh s, mkQueue (store s) (S (fresh s)) (events s) (queue s) (inFlight s)
              (lastResolvedLabel s)).

(** ** Operations *)

Definition push (gen : nat) (options : PushOptions) (s : Queue) : Queue :=
  let (id, s) := new_ident s in
  let d := {| ident := id; generator := gen;
              label := default (u "anonymous") (opt_label options);
              callbacks := opt_callbacks options |} in
  if now options then set_queue (d :: queue s) s else set_queue (queue s ++ [d]) s.

Definition pushOnce (choice : ToolChoice) (options : PushOptions) (s : Queue) : Queue :=
  let (g, s) := new_iterator [choice] s in push g options s.

Definition pushSequence (choices : list ToolChoice) (options : PushOptions) (s : Queue) : Queue :=
  let (g, s) := new_iterator choices s in push g options s.

(** The [while] loop: the store after [generator.next()], the queue after the
    exhausted heads were shifted, and the yield. *)
Fixpoint next_loop (q : list ToolChoiceDirective) (st : gmap nat (list ToolChoice)) :
    list ToolChoiceDirective * option (gmap nat (list ToolChoice) * InFlight) :=
  match q with
  | [] => ([], None)
  | head :: rest =>
      match st !! generator head with
      | Some (v :: vs) =>
          (q, Some (<[generator head := vs]> st, {| directive := head; yielded := v |}))
      | _ => next_loop rest st
      end
  end.

Definition nextToolChoice (s : Queue) : option ToolChoice * Queue :=
  match next_loop (queue s) (store s) with
  | (q, Some (st, f)) =>
      (Some (yielded f),
       mkQueue st (fresh s) (events s) q (Some f) (lastResolvedLabel s))
  | (q, None) => (None, set_queue q s)
  end.

Definition resolve (s : Queue) : Queue :=
  match inFlight s with
  | None => s
  | Some f =>
      let s := set_lastLabel (Some (label (directive f))) (set_inFlight None s) in
      emit (option_map (fun k => k (yielded f)) (onResolved (callbacks (directive f)))) s
  end.

Definition reject_outcome (f : InFlight) (reason : RejectReason) : option RejectOutcome :=
  match onRejected (callbacks (directive f)) with
  | Some k => k (yielded f) reason
  | None => None
  end.

Definition reject (reason : RejectReason) (s : Queue) : Queue :=
  match inFlight s with
  | None => s
  | Some f =>
      let s := set_inFlight None s in
      if bool_decide (reject_outcome f reason = Some requeue) then
        let (g, s) := new_iterator [yielded f] s in
        let (id, s) := new_ident s in
        set_queue ({| ident := id; generator := g;
                      label := label (directive f) ++ u "-requeued";
                      callbacks := {| onResolved := None;
                                      onRejected := onRejected (callbacks (directive f));
                                      onInvoked := onInvoked (callbacks (directive f)) |} |}
                   :: queue s) s
      else s
  end.

Definition degradeInFlight (s : Queue) : option jstr * Queue :=
  match inFlight s with
  | None => (None, s)
  | Some f =>
      let s := set_inFlight None s in
      let s := match queue s with
               | d :: rest => if bool_decide (ident d = ident (directive f))
                              then set_queue rest s else s
               | [] => s
               end in
      (Some (label (directive f)), s)
  end.

Definition hasInFlight (s : Queue) : bool :=
  match inFlight s with Some _ => true | None => false end.

Definition peekInFlightInvoker (s : Queue) : option Invoker :=
  match inFlight s with Some f => onInvoked (callbacks (directive f)) | None => None end.

Definition removeByLabel (l : jstr) (s : Queue) : Queue :=
  let s := match inFlight s with
           | Some f => if bool_decide (label (directive f) = l) then reject removed s else s
           | None => s
           end in
  set_queue (filter (fun d => label d <> l) (queue s)) s.

Definition clear (s : Queue) : Queue :=
  let s := if hasInFlight s then reject cleared s else s in
  set_lastLabel None (set_queue [] s).

Definition consumeLastServedLabel (s : Queue) : option jstr * Queue :=
  (lastResolvedLabel s, set_lastLabel None s).

Definition inspect (s : Queue) : list jstr := map label (queue s).

(** ** Operations as steps *)

Inductive Op :=
| OPushOnce (c : ToolChoice) (o : PushOptions)
| OPushSequence (cs : list ToolChoice) (o : PushOptions)
| ONext | OResolve | OReject (r : RejectReason) | ODegrade
| ORemove (l : jstr) | OClear | OConsume.

Definition step (op : Op) (s : Queue) : Queue :=
  match op with
  | OPushOnce c o => pushOnce c o s
  | OPushSequence cs o => pushSequence cs o s
  | ONext => snd (nextToolChoice s)
  | OResolve => resolve s
  | OReject r => reject r s
  | ODegrade => snd (degradeInFlight s)
  | ORemove l => removeByLabel l s
  | OClear => clear s
  | OConsume => snd (consumeLastServedLabel s)
  end.

(** ** Specification: the values still to be served, in order *)

Definition remaining (st : gmap nat (list ToolChoice)) (d : ToolChoiceDirective) : list ToolChoice :=
  default [] (st !! generator d).
Definition pending (s : Queue) : list ToolChoice :=
  concat (map (remaining (store s)) (queue s)).

(** No two queued directives share an iterator or an identity, and references
    are below the allocation counter. *)
Record wf (s : Queue) : Prop := {
  wf_generators : NoDup (map generator (queue s));
  wf_idents : NoDup (map ident (queue s));
  wf_bounds : Forall (fun d => generator d < fresh s /\ ident d < fresh s)%nat (queue s);
  wf_inflight : forall f, inFlight s = Some f -> (ident (directive f) < fresh s)%nat }.

Lemma remaining_insert st g vs q :
  g ∉ map generator q -> map (remaining (<[g:=vs]> st)) q = map (remaining st) q.
Proof.
  intros Hg. apply map_ext_in. intros d Hd. unfold remaining.
  rewrite lookup_insert_ne; [done|]. intros ->. apply Hg.
  apply list_elem_of_In, in_map_iff. eauto.
Qed.

Lemma fresh_not_generator s n :
  wf s -> (fresh s <= n)%nat -> n ∉ map generator (queue s).
Proof.
  intros [_ _ Hb _] Hn Hin. apply list_elem_of_In, in_map_iff in Hin as (d & <- & Hd).
  rewrite Forall_forall in Hb. apply list_elem_of_In, Hb in Hd. lia.
Qed.

Lemma fresh_not_ident s n : wf s -> (fresh s <= n)%nat -> n ∉ map ident (queue s).
Proof.
  intros [_ _ Hb _] Hn Hin. apply list_elem_of_In, in_map_iff in Hin as (d & <- & Hd).
  rewrite Forall_forall in Hb. apply list_elem_of_In, Hb in Hd. lia.
Qed.

Lemma bounds_mono s k :
  wf s -> (fresh s <= k)%nat ->
  Forall (fun d => generator d < k /\ ident d < k)%nat (queue s).
Proof.
  intros [_ _ Hb _] Hk. eapply Forall_impl; [exact Hb|]. simpl. lia.
Qed.

(** A step that leaves the counter alone and shortens the queue keeps [wf]. *)
Lemma wf_sublist s q f l ev st :
  wf s -> sublist q (queue s) ->
  (forall g, f = Some g -> (ident (directive g) < fresh s)%nat) ->
  wf (mkQueue st (fresh s) ev q f l).
Proof.
  intros [Hg Hi Hb _] Hsub Hf. split; simpl; [..|done].
  - eapply sublist_NoDup; [exact Hg|by apply (fmap_sublist generator)].
  - eapply sublist_NoDup; [exact Hi|by apply (fmap_sublist ident)].
  - rewrite Forall_forall in *. intros d Hd. apply Hb. by eapply elem_of_sublist.
Qed.

Lemma next_loop_spec q st :
  NoDup (map generator q) ->
  match next_loop q st with
  | (q', None) => q' = [] /\ concat (map (remaining st) q) = []
  | (q', Some (st', f)) =>
      sublist q' q /\ directive f ∈ q /\
      concat (map (remaining st) q) = yielded f :: concat (map (remaining st') q')
  end.
Proof.
  induction q as [|d q IH]; simpl; [done|]. intros [Hd Hnd]%NoDup_cons.
  assert (Hskip : remaining st d = [] ->
    match next_loop q st with
    | (q', None) => q' = [] /\ remaining st d ++ concat (map (remaining st) q) = []
    | (q', Some (st', f)) => sublist q' (d :: q) /\ directive f ∈ d :: q /\
        remaining st d ++ concat (map (remaining st) q)
        = yielded f :: concat (map (remaining st') q')
    end).
  { intros ->. specialize (IH Hnd). destruct (next_loop q st) as [q' [[st' f]|]]; [|done].
    destruct IH as (Hs & Hin & Hc). split_and!; [by constructor| |done].
    by apply list_elem_of_further. }
  unfold remaining in Hskip at 1.
  destruct (st !! generator d) as [[|v vs]|] eqn:Hst; [by apply Hskip| |by apply Hskip].
  simpl. split_and!; [done|by apply list_elem_of_here|].
  unfold remaining at 1. rewrite Hst. simpl. f_equal.
  unfold remaining at 2. rewrite lookup_insert_eq. simpl. by rewrite remaining_insert.
Qed.

Lemma next_spec s :
  wf s ->
  match nextToolChoice s with
  | (Some v, s') => pending s = v :: pending s' /\ option_map yielded (inFlight s') = Some v
  | (None, s') => pending s = [] /\ queue s' = [] /\ inFlight s' = inFlight s
  end.
Proof.
  intros Hwf. unfold nextToolChoice, pending.
  pose proof (next_loop_spec (queue s) (store s) (wf_generators _ Hwf)) as H.
  destruct (next_loop (queue s) (store s)) as [q [[st f]|]]; simpl.
  - by destruct H as (_ & _ & ->).
  - by destruct H as [-> ->].
Qed.

Lemma next_wf s : wf s -> wf (snd (nextToolChoice s)).
Proof.
  intros Hwf. unfold nextToolChoice.
  pose proof (next_loop_spec (queue s) (store s) (wf_generators _ Hwf)) as H.
  destruct (next_loop (queue s) (store s)) as [q [[st f]|]]; simpl.
  - destruct H as (Hs & Hin & _). apply wf_sublist; [done..|]. intros ? [= <-].
    destruct Hwf as [_ _ Hb _]. rewrite Forall_forall in Hb. by apply Hb in Hin as [_ ?].
  - destruct H as [-> _]. apply wf_sublist; [done|apply sublist_nil_l|apply Hwf].
Qed.

(** Queueing a directive whose references are new, at either end. *)
Lemma wf_add s st ev d (front : bool) f l :
  wf s -> (fresh s <= generator d < ident d)%nat ->
  (forall g, f = Some g -> (ident (directive g) < fresh s)%nat) ->
  wf (mkQueue st (S (ident d)) ev (if front then d :: queue s else queue s ++ [d]) f l).
Proof.
  intros Hwf [Hg Hi] Hf.
  assert (Hng : generator d ∉ map generator (queue s)) by by apply fresh_not_generator.
  assert (Hni : ident d ∉ map ident (queue s)) by (apply fresh_not_ident; [done|lia]).
  pose proof (bounds_mono s (S (ident d)) Hwf ltac:(lia)) as Hb.
  destruct Hwf as [Hg' Hi' _ _]. split; simpl.
  - destruct front; [by constructor|]. rewrite map_app. apply NoDup_app.
    split_and!; [done| |apply NoDup_singleton]. by intros x Hx ->%list_elem_of_singleton.
  - destruct front; [by constructor|]. rewrite map_app. apply NoDup_app.
    split_and!; [done| |apply NoDup_singleton]. by intros x Hx ->%list_elem_of_singleton.
  - destruct front; [constructor|apply Forall_app; split]; auto with lia.
  - intros g Hin. apply Hf in Hin. lia.
Qed.

Lemma push_sequence_wf cs o s : wf s -> wf (pushSequence cs o s).
Proof.
  intros Hwf. unfold pushSequence, push. simpl.
  destruct (now o); unfold set_queue; simpl;
    match goal with |- context [Build_ToolChoiceDirective ?i ?g ?l ?c] =>
      first [apply (wf_add s _ _ (Build_ToolChoiceDirective i g l c) true)
            |apply (wf_add s _ _ (Build_ToolChoiceDirective i g l c) false)]
    end; simpl; auto with lia; apply Hwf.
Qed.

Lemma reject_wf r s : wf s -> wf (reject r s).
Proof.
  intros Hwf. unfold reject. destruct (inFlight s) as [f|]; [|done].
  case_bool_decide; simpl.
  - unfold set_queue; simpl.
    match goal with |- context [Build_ToolChoiceDirective ?i ?g ?l ?c] =>
      apply (wf_add s _ _ (Build_ToolChoiceDirective i g l c) true)
    end; simpl; auto with lia. by intros ? [=].
  - by apply wf_sublist.
Qed.

Lemma remove_wf l s : wf s -> wf (removeByLabel l s).
Proof.
  intros Hwf. unfold removeByLabel.
  assert (H : forall s', wf s' -> wf (set_queue (filter (fun d => label d <> l) (queue s')) s')).
  { intros s' Hs'. apply (wf_sublist s'); [done|apply sublist_filter|apply Hs']. }
  apply H. destruct (inFlight s); [|done]. case_bool_decide; [by apply reject_wf|done].
Qed.

(** Every operation keeps the bookkeeping invariant. *)
Lemma step_wf op s : wf s -> wf (step op s).
Proof.
  intros Hwf. destruct op; simpl.
  - by apply (push_sequence_wf [c]).
  - by apply push_sequence_wf.
  - by apply next_wf.
  - unfold resolve. destruct (inFlight s); [|done]. by apply (wf_sublist s).
  - by apply reject_wf.
  - unfold degradeInFlight. destruct (inFlight s) as [f|]; [|done]. simpl.
    destruct (queue s) as [|d q] eqn:Hq; [apply (wf_sublist s); by rewrite ?Hq|].
    case_bool_decide; apply (wf_sublist s); rewrite ?Hq; try done. by apply sublist_cons.
  - by apply remove_wf.
  - unfold clear.
    assert (H : forall s', wf s' -> wf (set_lastLabel None (set_queue [] s'))).
    { intros s' Hs'. apply (wf_sublist s'); [done|apply sublist_nil_l|apply Hs']. }
    apply H. destruct (hasInFlight s); [by apply reject_wf|done].
  - apply (wf_sublist s); [done..|apply Hwf].
Qed.

Lemma wf_empty : wf empty_queue.
Proof. by split; [constructor..|]. Qed.

Lemma wf_run ops : wf (run step ops empty_queue).
Proof. apply run_invariant; [by intros; apply step_wf|apply wf_empty]. Qed.

(** In every state that a sequence of operations reaches from the empty queue,
    queued directives have distinct identities and distinct iterators, and an in-flight
    yield never refers to an identity that was not allocated. *)
Theorem reachable_wf ops :
  let s := run step ops empty_queue in
  NoDup (map ident (queue s)) /\ NoDup (map generator (queue s)) /\
  (forall f, inFlight s = Some f -> (ident (directive f) < fresh s)%nat).
Proof. destruct (wf_run ops). by split_and!. Qed.

Lemma pending_resolve s : pending (resolve s) = pending s.
Proof. unfold resolve. by destruct (inFlight s). Qed.

Lemma pending_new s g cs :
  wf s -> (fresh s <= g)%nat ->
  map (remaining (<[g := cs]> (store s))) (queue s) = map (remaining (store s)) (queue s).
Proof. intros. apply remaining_insert. by apply fresh_not_generator. Qed.

Lemma pending_push cs o s :
  wf s ->
  pending (pushSequence cs o s) = if now o then cs ++ pending s else pending s ++ cs.
Proof.
  intros Hwf. unfold pushSequence, push. simpl. unfold pending.
  destruct (now o); simpl; rewrite ?map_app, ?concat_app; simpl;
    rewrite pending_new by (done || lia); unfold remaining at 1 + unfold remaining at 2;
    simpl; rewrite lookup_insert_eq; by rewrite ?app_nil_r.
Qed.

(** Turns that all complete: serve the next choice and resolve it, until there is none. *)
Fixpoint serve (n : nat) (s : Queue) : list ToolChoice * Queue :=
  match n with
  | O => ([], s)
  | S m => match nextToolChoice s with
           | (None, s') => ([], s')
           | (Some v, s') => let (vs, s'') := serve m (resolve s') in (v :: vs, s'')
           end
  end.

(** C22. Served turns come out in queue order: the choices handed to the model while
    every turn completes are exactly the pending values, in order, each once; as many
    turns as there are pending values are enough, and then nothing is left. *)
Theorem serve_in_order n s :
  wf s -> (length (pending s) < n)%nat ->
  fst (serve n s) = pending s /\ pending (snd (serve n s)) = [] /\ queue (snd (serve n s)) = [].
Proof.
  revert s. induction n as [|n IH]; intros s Hwf Hn; [lia|]. simpl.
  pose proof (next_spec s Hwf) as Hs. pose proof (next_wf s Hwf) as Hw.
  destruct (nextToolChoice s) as [[v|] s']; simpl in *.
  - destruct Hs as [Hp _]. rewrite Hp in Hn. simpl in Hn.
    specialize (IH (resolve s')). rewrite pending_resolve in IH.
    pose proof (step_wf OResolve s' Hw) as Hr. simpl in Hr.
    destruct (serve n (resolve s')) as [vs s''] eqn:E. simpl in *.
    destruct IH as (-> & ? & ?); [done|lia|]. by rewrite Hp.
  - destruct Hs as (-> & Hq & _). split_and!; [done| |done]. unfold pending. by rewrite Hq.
Qed.

(** A lost turn is replayed: when the rejection handler asks for a requeue, the very
    next choice served is the lost value, with the handlers that execute and reject it,
    under the label the code derives, and the rest of the queue is unchanged behind it. *)
Theorem requeue_replays s f r :
  wf s -> inFlight s = Some f -> reject_outcome f r = Some requeue ->
  exists s' g, nextToolChoice (reject r s) = (Some (yielded f), s') /\
    pending s' = pending s /\ inFlight s' = Some g /\ yielded g = yielded f /\
    label (directive g) = label (directive f) ++ u "-requeued" /\
    callbacks (directive g) =
      {| onResolved := None; onRejected := onRejected (callbacks (directive f));
         onInvoked := onInvoked (callbacks (directive f)) |}.
Proof.
  intros Hwf Hf Hr. unfold reject. rewrite Hf. rewrite bool_decide_eq_true_2 by done.
  cbn. unfold nextToolChoice. cbn. rewrite lookup_insert_eq. cbn.
  eexists _, _. split; [done|]. split_and!; try done.
  unfold pending. cbn. unfold remaining at 1. cbn. rewrite lookup_insert_eq. cbn.
  rewrite insert_insert_eq. by rewrite pending_new.
Qed.

(** Degrading a forced choice never brings it back: the directive that was just served
    is dropped with everything it had left, no handler runs, nothing stays in flight, and
    the other directives keep their order and their values. *)
Theorem degrade_drops s s' v :
  wf s -> nextToolChoice s = (Some v, s') ->
  exists d rest, queue s' = d :: rest /\ option_map directive (inFlight s') = Some d /\
    let (l, s'') := degradeInFlight s' in
    l = Some (label d) /\ queue s'' = rest /\ store s'' = store s' /\
    inFlight s'' = None /\ events s'' = events s.
Proof.
  intros Hwf Hn. unfold nextToolChoice in Hn.
  assert (Hhead : forall q st q' st' f, next_loop q st = (q', Some (st', f)) ->
    exists rest, q' = directive f :: rest).
  { induction q as [|d q IH]; simpl; [done|]. intros st q' st' f.
    destruct (st !! generator d) as [[|w ws]|]; eauto. intros [= <- _ <-]. eauto. }
  destruct (next_loop (queue s) (store s)) as [q [[st f]|]] eqn:E; [|done].
  injection Hn as <- <-. destruct (Hhead _ _ _ _ _ E) as [rest ->].
  exists (directive f), rest. split_and!; [done..|]. cbn.
  by rewrite bool_decide_eq_true_2.
Qed.

(** After [removeByLabel] no queued directive and no in-flight yield carries the
    label, and directives with other labels stay; after [clear] nothing is queued or in
    flight, even when a handler asked for a requeue. *)
Theorem removal_complete l s :
  (forall d, d ∈ queue (removeByLabel l s) -> label d <> l) /\
  (forall f, inFlight (removeByLabel l s) = Some f -> label (directive f) <> l) /\
  (forall d, d ∈ queue s -> label d <> l -> d ∈ queue (removeByLabel l s)) /\
  queue (clear s) = [] /\ inFlight (clear s) = None /\ lastResolvedLabel (clear s) = None.
Proof.
  assert (Hq : forall r d, d ∈ queue s -> d ∈ queue (reject r s)).
  { intros r d Hd. unfold reject. destruct (inFlight s); [|done].
    case_bool_decide; cbn; [by apply list_elem_of_further|done]. }
  assert (Hrej : forall r, inFlight (reject r s) = None).
  { intros r. unfold reject. destruct (inFlight s) eqn:E; [by case_bool_decide|done]. }
  unfold removeByLabel, clear, hasInFlight. split_and!; cbn.
  - by intros d [? _]%list_elem_of_filter.
  - intros f. destruct (inFlight s) as [g|] eqn:E; [|by rewrite E].
    case_bool_decide as Hl; [by rewrite Hrej|]. by rewrite E; intros [= <-].
  - intros d Hd Hl. apply list_elem_of_filter. split; [done|].
    destruct (inFlight s); [case_bool_decide|]; auto.
  - done.
  - destruct (inFlight s) eqn:E; [apply Hrej|done].
  - done.
Qed.
End ToolChoiceQueue.

(** ** The theorems at concrete queues *)

Definition requeueing : @DirectiveCallbacks nat nat unit :=
  {| onResolved := Some (fun c => c);
     onRejected := Some (fun _ r => match r with aborted => Some requeue | _ => None end);
     onInvoked := Some tt |}.
Definition demo : @Queue nat nat unit :=
  run step [OPushSequence [1; 2] no_options;
            OPushOnce 3 {| now := true; opt_label := Some (u "user-force");
                           opt_callbacks := requeueing |}]%nat empty_queue.
Definition demo_served : @Queue nat nat unit := snd (nextToolChoice demo).

Lemma serve_in_order_witness : fst (serve 4 demo) = [3; 1; 2]%nat.
Proof. destruct (serve_in_order 4 demo (wf_run _)) as [H _]; [vm_compute; lia|exact H]. Defined.

Lemma requeue_replays_witness :
  exists s', nextToolChoice (reject aborted demo_served) = (Some 3%nat, s').
Proof.
  destruct (requeue_replays demo_served
              {| directive := {| ident := 3%nat; generator := 2%nat; label := u "user-force";
                                 callbacks := requeueing |}; yielded := 3%nat |} aborted)
    as (s' & g & H & _); [|reflexivity|reflexivity|exists s'; exact H].
  exact (step_wf ONext demo (wf_run _)).
Defined.

Lemma degrade_drops_witness : exists d rest, queue demo_served = d :: rest.
Proof.
  destruct (degrade_drops demo demo_served 3%nat (wf_run _)) as (d & rest & H & _);
    [reflexivity|by exists d, rest].
Defined.
