(* ===== verification/FallbackChain.v ===== *)
(** The fallback-chain controller and the retry delays
    (src/gajae-code/packages/coding-agent/src/session/fallback-chain-controller.ts).

    The controller walks a configured list of model selectors, charges attempts
    against a budget and stops when the chain or the budget is exhausted.  Counters are
    integers.  [restoredEntryIndices] is a JavaScript [Set]: a list without
    duplicates in insertion order. *)
From S2P Require Import Prelude.
From Stdlib Require Import QArith Qround Qminmax.
#[local] Open Scope Z_scope.

Section FallbackChain.
Context {TriggerClass : Type}.

Record ConfiguredFallbackChain := {
  role : jstr;
  entries : list jstr;
  origin : jstr;
  identity : option jstr;
  explicitHead : bool }.

Record FallbackFailure := {
  selector : jstr;
  triggerClass : TriggerClass;
  reason : jstr }.

Inductive FallbackFailureResult := retry | advance_ | exhausted_.

Record Skip := { skip_selector : jstr; skip_reason : jstr }.

Record FallbackChainRuntimeState := {
  rs_activeIndex : Z;
  rs_attemptsUsed : Z;
  rs_totalAttemptsUsed : Z;
  rs_attemptStarted : bool;
  rs_restoredEntryIndices : list Z;
  rs_tried : list FallbackFailure;
  rs_skips : list Skip;
  rs_exhaustedForTurn : bool }.

Record Controller := mkController {
  chain : ConfiguredFallbackChain;
  maxAttempts : Z;
  activeIndex : Z;
  attemptsUsed : Z;
  tried : list FallbackFailure;
  attemptStarted : bool;
  totalAttemptsUsed : Z;
  restoredEntryIndices : list Z;
  skips : list Skip;
  exhaustedForTurn : bool }.

Definition n_entries (c : Controller) : Z := zlen (entries (chain c)).

(** [constructor]: [maxAttempts] is a positive integer or the construction throws. *)
Definition construct (ch : ConfiguredFallbackChain) (maxA : Z) : result jstr Controller :=
  if maxA <? 1 then Err (u "fallback.maxAttempts must be a positive integer")
  else Ok (mkController ch maxA 0 0 [] false 0 [] [] (zlen (entries ch) =? 0)).

Definition snapshotRuntimeState (c : Controller) : FallbackChainRuntimeState :=
  {| rs_activeIndex := activeIndex c; rs_attemptsUsed := attemptsUsed c;
     rs_totalAttemptsUsed := totalAttemptsUsed c; rs_attemptStarted := attemptStarted c;
     rs_restoredEntryIndices := restoredEntryIndices c; rs_tried := tried c;
     rs_skips := skips c; rs_exhaustedForTurn := exhaustedForTurn c |}.

(** [new Set(xs)]. *)
Definition set_add (x : Z) (xs : list Z) : list Z := if decide (x ∈ xs) then xs else xs ++ [x].
Definition to_set (xs : list Z) : list Z := fold_left (fun acc x => set_add x acc) xs [].

Definition restoreRuntimeState (r : FallbackChainRuntimeState) (c : Controller) : Controller :=
  mkController (chain c) (maxAttempts c) (rs_activeIndex r) (rs_attemptsUsed r) (rs_tried r)
    (rs_attemptStarted r) (rs_totalAttemptsUsed r) (to_set (rs_restoredEntryIndices r))
    (rs_skips r) (rs_exhaustedForTurn r).

Definition maxTotalAttempts (c : Controller) : Z :=
  maxAttempts c * n_entries c + zlen (restoredEntryIndices c).

Definition currentSelector (c : Controller) : option jstr := at_ (entries (chain c)) (activeIndex c).

(** A selector counts as present when it is defined and not the empty string. *)
Definition presentSelector (c : Controller) : option jstr :=
  match currentSelector c with Some (x :: s) => Some (x :: s) | _ => None end.

Definition advance (c : Controller) : bool * Controller :=
  if exhaustedForTurn c then (false, c)
  else
    let i := activeIndex c + 1 in
    let done := n_entries c <=? i in
    (negb done,
     mkController (chain c) (maxAttempts c) i 0 (tried c) false (totalAttemptsUsed c)
       (restoredEntryIndices c) (skips c) done).

Definition onResolutionSkip (why : jstr) (c : Controller) : bool * Controller :=
  let skips' := match presentSelector c with
                | Some s => skips c ++ [{| skip_selector := s; skip_reason := why |}]
                | None => skips c
                end in
  advance (mkController (chain c) (maxAttempts c) (activeIndex c) (attemptsUsed c) (tried c)
             (attemptStarted c) (totalAttemptsUsed c) (restoredEntryIndices c) skips'
             (exhaustedForTurn c)).

(** The chain is left behind: [activeIndex = entries.length], [exhaustedForTurn = true]. *)
Definition exhaust (c : Controller) : Controller :=
  mkController (chain c) (maxAttempts c) (n_entries c) (attemptsUsed c) (tried c)
    (attemptStarted c) (totalAttemptsUsed c) (restoredEntryIndices c) (skips c) true.

Definition charge (started : bool) (c : Controller) : Controller :=
  mkController (chain c) (maxAttempts c) (activeIndex c) (attemptsUsed c + 1) (tried c)
    started (totalAttemptsUsed c + 1) (restoredEntryIndices c) (skips c) (exhaustedForTurn c).

Definition onAttemptStarted (c : Controller) : Controller :=
  match presentSelector c with
  | None => c
  | Some _ =>
      if exhaustedForTurn c then c
      else if maxTotalAttempts c <=? totalAttemptsUsed c then exhaust c
      else charge true c
  end.

Definition discardStartedAttempt (c : Controller) : Controller :=
  if attemptStarted c then
    mkController (chain c) (maxAttempts c) (activeIndex c) (Z.max 0 (attemptsUsed c - 1)) (tried c)
      false (Z.max 0 (totalAttemptsUsed c - 1)) (restoredEntryIndices c) (skips c)
      (exhaustedForTurn c)
  else c.

Definition resetAttemptBudget (c : Controller) : Controller :=
  mkController (chain c) (maxAttempts c) (activeIndex c) 0 [] false 0 [] (skips c)
    (exhaustedForTurn c).

Definition seedResolution (i : Z) (sk : list Skip) (c : Controller) : Controller :=
  let i := Z.min (Z.max 0 i) (n_entries c) in
  mkController (chain c) (maxAttempts c) i 0 (tried c) false 0 [] sk (n_entries c <=? i).

Definition record_failure (f : FallbackFailure) (c : Controller) : Controller :=
  mkController (chain c) (maxAttempts c) (activeIndex c) (attemptsUsed c) (tried c ++ [f])
    false (totalAttemptsUsed c) (restoredEntryIndices c) (skips c) (exhaustedForTurn c).

Definition onAttemptFailure (t : TriggerClass) (why : jstr) (c : Controller) :
    FallbackFailureResult * Controller :=
  match presentSelector c with
  | None => (exhausted_, c)
  | Some s =>
      if exhaustedForTurn c then (exhausted_, c)
      else
        let c := if attemptStarted c then c else charge false c in
        let c := record_failure {| selector := s; triggerClass := t; reason := why |} c in
        if maxTotalAttempts c <=? totalAttemptsUsed c then (exhausted_, exhaust c)
        else if attemptsUsed c <? maxAttempts c then (retry, c)
        else let (ok, c) := advance c in (if ok then advance_ else exhausted_, c)
  end.

Definition restorePreviousEntryForRetry (c : Controller) : bool * Controller :=
  let prev := activeIndex c - 1 in
  if (prev <? 0) || exhaustedForTurn c || bool_decide (prev ∈ restoredEntryIndices c)
     || (maxTotalAttempts c <=? totalAttemptsUsed c)
  then (false, c)
  else (true,
        mkController (chain c) (maxAttempts c) prev (maxAttempts c - 1) (tried c) false
          (totalAttemptsUsed c) (set_add prev (restoredEntryIndices c)) (skips c) false).

Definition isExhausted (c : Controller) : bool := exhaustedForTurn c.

Definition resetSticky (c : Controller) : Controller :=
  mkController (chain c) (maxAttempts c) 0 0 [] false 0 [] [] (n_entries c =? 0).
Definition resetForNewTurn (c : Controller) : Controller := resetSticky c.

(** ** Operations as steps *)

Inductive FOp :=
| FSkip (why : jstr) | FStarted | FDiscard | FResetBudget
| FSeed (i : Z) (sk : list Skip) | FFailure (t : TriggerClass) (why : jstr)
| FAdvance | FRestorePrevious | FNewTurn.

Definition fstep (op : FOp) (c : Controller) : Controller :=
  match op with
  | FSkip why => snd (onResolutionSkip why c)
  | FStarted => onAttemptStarted c
  | FDiscard => discardStartedAttempt c
  | FResetBudget => resetAttemptBudget c
  | FSeed i sk => seedResolution i sk c
  | FFailure t why => snd (onAttemptFailure t why c)
  | FAdvance => snd (advance c)
  | FRestorePrevious => snd (restorePreviousEntryForRetry c)
  | FNewTurn => resetForNewTurn c
  end.

(** ** The budget invariant *)

Record budget_ok (c : Controller) : Prop := {
  bo_max : 1 <= maxAttempts c;
  bo_index : 0 <= activeIndex c <= n_entries c;
  bo_end : exhaustedForTurn c = false -> activeIndex c < n_entries c;
  bo_total : 0 <= totalAttemptsUsed c <= maxTotalAttempts c + 1;
  bo_over : maxTotalAttempts c < totalAttemptsUsed c -> exhaustedForTurn c = true;
  bo_nodup : NoDup (restoredEntryIndices c);
  bo_restored : Forall (fun i => 0 <= i < n_entries c) (restoredEntryIndices c) }.
Ltac unfold_ctl :=
  unfold maxTotalAttempts, n_entries in *; simpl in *; unfold n_entries in *; simpl in *;
  change (zlen (@nil Z)) with 0 in *.

Lemma budget_advance c : budget_ok c -> budget_ok (snd (advance c)).
Proof.
  intros Hb. unfold advance. destruct (exhaustedForTurn c) eqn:E; [done|].
  destruct Hb as [? ? He ? Ho ? ?]. specialize (He E). split; unfold_ctl; try done; try lia.
  intros H'. apply Ho in H'. congruence.
Qed.

Lemma budget_exhaust c :
  1 <= maxAttempts c -> 0 <= totalAttemptsUsed c <= maxTotalAttempts c + 1 ->
  NoDup (restoredEntryIndices c) -> Forall (fun i => 0 <= i < n_entries c) (restoredEntryIndices c) ->
  budget_ok (exhaust c).
Proof. intros. pose proof (zlen_nonneg (entries (chain c))). split; unfold_ctl; try done; lia. Qed.

Lemma budget_started c : budget_ok c -> budget_ok (onAttemptStarted c).
Proof.
  intros Hb. unfold onAttemptStarted. destruct (presentSelector c); [|done].
  destruct (exhaustedForTurn c) eqn:E; [done|]. destruct Hb as [? ? He ? Ho ? ?].
  destruct (Z.leb_spec (maxTotalAttempts c) (totalAttemptsUsed c)).
  - by apply budget_exhaust.
  - split; unfold_ctl; try done; try lia. 
Qed.

Lemma budget_failure t why c : budget_ok c -> budget_ok (snd (onAttemptFailure t why c)).
Proof.
  intros Hb. unfold onAttemptFailure. destruct (presentSelector c) as [s|]; [|done].
  destruct (exhaustedForTurn c) eqn:E; [done|]. destruct Hb as [? ? He ? Ho ? ?].
  assert (Hle : totalAttemptsUsed c <= maxTotalAttempts c).
  { destruct (Z.le_gt_cases (totalAttemptsUsed c) (maxTotalAttempts c)); [done|].
    by rewrite Ho in E by lia. }
  set (c1 := record_failure _ _).
  assert (Hc1 : 1 <= maxAttempts c1 /\ 0 <= activeIndex c1 < n_entries c1 /\
    exhaustedForTurn c1 = false /\ 0 <= totalAttemptsUsed c1 <= maxTotalAttempts c1 + 1 /\
    NoDup (restoredEntryIndices c1) /\
    Forall (fun i => 0 <= i < n_entries c1) (restoredEntryIndices c1)).
  { specialize (He E). subst c1. destruct (attemptStarted c); unfold_ctl; split_and!; try done; lia. }
  clearbody c1. destruct Hc1 as (? & ? & He1 & ? & ? & ?).
  destruct (Z.leb_spec (maxTotalAttempts c1) (totalAttemptsUsed c1)); [by apply budget_exhaust|].
  assert (budget_ok c1) by (split; try done; try lia; by intros).
  destruct (attemptsUsed c1 <? maxAttempts c1); [done|].
  pose proof (budget_advance c1) as Ha. destruct (advance c1). by apply Ha.
Qed.

Lemma budget_restore c : budget_ok c -> budget_ok (snd (restorePreviousEntryForRetry c)).
Proof.
  intros Hb. unfold restorePreviousEntryForRetry. destruct (_ || _) eqn:E; [done|].
  apply orb_false_iff in E as [[[H1 H2]%orb_false_iff H3]%orb_false_iff H4].
  destruct Hb as [? ? He ? Ho Hnd Hr]. apply bool_decide_eq_false in H3.
  unfold set_add. simpl. rewrite decide_False by done.
  split; unfold_ctl; rewrite ?zlen_app; change (zlen [activeIndex c - 1]) with 1;
    try done; try lia.
  - apply NoDup_app. split_and!; [done| |apply NoDup_singleton].
    by intros x Hx ->%list_elem_of_singleton.
  - apply Forall_app. split; [done|]. constructor; [lia|done].
Qed.

(** Every operation keeps the budget invariant. *)
Lemma fstep_budget op c : budget_ok c -> budget_ok (fstep op c).
Proof.
  intros Hb. pose proof (zlen_nonneg (entries (chain c))). destruct op; simpl.
  - apply budget_advance. destruct Hb. by split.
  - by apply budget_started.
  - destruct Hb. unfold discardStartedAttempt. destruct (attemptStarted c); [|by split].
    split; unfold_ctl; try done; try lia. intros; apply bo_over0; lia.
  - destruct Hb. split; unfold_ctl; try done; try lia; try nia; constructor.
  - destruct Hb. split; unfold_ctl; try done; try lia; try nia; constructor.
  - by apply budget_failure.
  - by apply budget_advance.
  - by apply budget_restore.
  - destruct Hb. split; unfold_ctl; try done; try lia; try nia; constructor.
Qed.

Lemma construct_budget ch maxA c : construct ch maxA = Ok c -> budget_ok c.
Proof.
  unfold construct. destruct (Z.ltb_spec maxA 1); [done|]. intros [= <-].
  pose proof (zlen_nonneg (entries ch)). split; unfold_ctl; try lia; try nia; constructor.
Qed.

(** The attempt budget is bounded for every history: whatever the interleaving of
    starts, failures, skips, advances, discards, credential restores and reseeds, the
    controller never charges more than [maxAttempts] per entry, one per restored entry
    and at most one attempt beyond that, an overrun always has stopped the chain, and the
    position stays inside the chain until the chain is exhausted. *)
Theorem budget_bounded ch maxA c ops :
  construct ch maxA = Ok c ->
  let c' := run fstep ops c in
  0 <= totalAttemptsUsed c' <= maxTotalAttempts c' + 1 /\
  (maxTotalAttempts c' < totalAttemptsUsed c' -> exhaustedForTurn c' = true) /\
  (exhaustedForTurn c' = false -> 0 <= activeIndex c' < n_entries c') /\
  maxTotalAttempts c' <= (maxAttempts c' + 1) * n_entries c'.
Proof.
  intros Hc. assert (Hb : budget_ok (run fstep ops c)).
  { apply run_invariant; [intros; by apply fstep_budget|by eapply construct_budget]. }
  destruct Hb as [? ? He ? Ho Hnd Hr]. split_and!; [lia|lia|done| |].
  - intros E. specialize (He E). lia.
  - unfold maxTotalAttempts.
    assert (zlen (restoredEntryIndices (run fstep ops c)) <= n_entries (run fstep ops c)); [|lia].
    set (c' := run fstep ops c) in *. clearbody c'.
    assert (Hincl : restoredEntryIndices c' ⊆ map Z.of_nat (seq 0 (length (entries (chain c'))))).
    { intros i Hi. rewrite Forall_forall in Hr. apply Hr in Hi.
      apply list_elem_of_In, in_map_iff. exists (Z.to_nat i). split; [lia|].
      apply in_seq. unfold n_entries, zlen in *. lia. }
    pose proof (submseteq_length _ _ (NoDup_submseteq _ _ Hnd Hincl)) as Hlen.
    rewrite length_map, length_seq in Hlen. unfold n_entries, zlen. lia.
Qed.
(** ** Walking the chain *)

(** One request that starts and fails. *)
Definition attempt (t : TriggerClass) (why : jstr) (c : Controller) : Controller :=
  snd (onAttemptFailure t why (onAttemptStarted c)).

Fixpoint attempts (t : TriggerClass) (why : jstr) (k : nat) (c : Controller) : Controller :=
  match k with O => c | S k' => attempt t why (attempts t why k' c) end.

(** Position [(i, j)] of the walk: entry [i] has used [j] of its attempts. *)
Definition at_pos (c0 c : Controller) (i j : nat) : Prop :=
  chain c = chain c0 /\ maxAttempts c = maxAttempts c0 /\ activeIndex c = Z.of_nat i /\
  attemptsUsed c = Z.of_nat j /\ totalAttemptsUsed c = Z.of_nat i * maxAttempts c0 + Z.of_nat j /\
  restoredEntryIndices c = [] /\ exhaustedForTurn c = false.

Lemma present_at c i s :
  activeIndex c = Z.of_nat i -> entries (chain c) !! i = Some s -> s <> [] ->
  presentSelector c = Some s.
Proof.
  intros Hi He Hs. unfold presentSelector, currentSelector, at_. rewrite Hi.
  destruct (Z.ltb_spec (Z.of_nat i) 0); [lia|]. rewrite Nat2Z.id, He. by destruct s.
Qed.

Lemma attempt_step c0 c t why i j s :
  at_pos c0 c i j -> 1 <= maxAttempts c0 -> Z.of_nat j < maxAttempts c0 ->
  entries (chain c0) !! i = Some s -> s <> [] ->
  tried (attempt t why c) = tried c ++ [{| selector := s; triggerClass := t; reason := why |}] /\
  (if Z.of_nat j + 1 <? maxAttempts c0 then at_pos c0 (attempt t why c) i (S j)
   else if Z.of_nat i + 1 <? n_entries c0 then at_pos c0 (attempt t why c) (S i) 0
   else exhaustedForTurn (attempt t why c) = true /\ chain (attempt t why c) = chain c0 /\
        activeIndex (attempt t why c) = n_entries c0).
Proof.
  intros (Hch & Hm & Hi & Hj & Ht & Hr & He) Hmax Hjm Hs Hne.
  assert (Hin : Z.of_nat i < n_entries c0).
  { apply lookup_lt_Some in Hs. unfold n_entries, zlen. lia. }
  assert (Hp : presentSelector c = Some s) by (apply (present_at c i); by rewrite ?Hch).
  assert (Hmt : maxTotalAttempts c = maxAttempts c0 * n_entries c0).
  { unfold maxTotalAttempts, n_entries. rewrite Hm, Hch, Hr, zlen_nil. lia. }
  unfold attempt, onAttemptStarted. rewrite Hp, He, Hmt, Ht.
  destruct (Z.leb_spec (maxAttempts c0 * n_entries c0) (Z.of_nat i * maxAttempts c0 + Z.of_nat j));
    [nia|].
  unfold onAttemptFailure. change (presentSelector (charge true c)) with (presentSelector c).
  rewrite Hp. cbn. rewrite He.
  set (c1 := record_failure _ _).
  change (maxTotalAttempts c1) with (maxTotalAttempts c). rewrite Hmt. subst c1. cbn.
  rewrite Ht, Hj, Hm. destruct (Z.ltb_spec (Z.of_nat j + 1) (maxAttempts c0)).
  - destruct (Z.leb_spec (maxAttempts c0 * n_entries c0)
                (Z.of_nat i * maxAttempts c0 + Z.of_nat j + 1)); [nia|].
    split; [done|]. unfold at_pos. cbn. rewrite Hch, Hm, Hi, Ht, Hr, He. split_and!; try done; lia.
  - destruct (Z.ltb_spec (Z.of_nat i + 1) (n_entries c0)).
    + destruct (Z.leb_spec (maxAttempts c0 * n_entries c0)
                  (Z.of_nat i * maxAttempts c0 + Z.of_nat j + 1)); [nia|].
      unfold advance. cbn. rewrite He. unfold n_entries in *. cbn. rewrite Hch, Hi.
      destruct (Z.leb_spec (zlen (entries (chain c0))) (Z.of_nat i + 1)); [lia|].
      split; [done|]. unfold at_pos. cbn. rewrite Hm, Ht, Hr. split_and!; try done; lia.
    + destruct (Z.leb_spec (maxAttempts c0 * n_entries c0)
                  (Z.of_nat i * maxAttempts c0 + Z.of_nat j + 1)); [|nia].
      split; [done|]. cbn. unfold n_entries. cbn. split_and!; by rewrite ?Hch.
Qed.

(** The selectors the walk has tried at position [(i, j)]. *)
Definition walk_prefix (c0 : Controller) (i j : nat) : list jstr :=
  concat (map (replicate (Z.to_nat (maxAttempts c0))) (take i (entries (chain c0))))
  ++ replicate j (default [] (entries (chain c0) !! i)).

Lemma walk_prefix_row c0 i s :
  entries (chain c0) !! i = Some s ->
  walk_prefix c0 i (Z.to_nat (maxAttempts c0)) = walk_prefix c0 (S i) 0.
Proof.
  intros Hs. unfold walk_prefix. rewrite Hs. simpl. rewrite app_nil_r.
  rewrite (take_S_r _ _ s) by done. rewrite map_app, concat_app. simpl. by rewrite app_nil_r.
Qed.

Lemma walk_positions c0 t why i j :
  at_pos c0 c0 0 0 -> tried c0 = [] -> 1 <= maxAttempts c0 ->
  Forall (fun s => s <> []) (entries (chain c0)) ->
  Z.of_nat i < n_entries c0 -> Z.of_nat j < maxAttempts c0 ->
  let c := attempts t why (i * Z.to_nat (maxAttempts c0) + j) c0 in
  at_pos c0 c i j /\ map selector (tried c) = walk_prefix c0 i j.
Proof.
  intros H0 Htr Hm Hne. revert j. induction i as [|i IHi].
  - induction j as [|j IHj]; intros Hi Hj.
    + split; [done|]. simpl. by rewrite Htr.
    + destruct (IHj Hi ltac:(lia)) as [Hp Ht]. simpl in *.
      destruct (lookup_lt_is_Some_2 (entries (chain c0)) 0) as [s Hs].
      { unfold n_entries, zlen in Hi. lia. }
      destruct (attempt_step _ _ t why _ _ s Hp Hm ltac:(lia) Hs) as [Ht' Hn].
      { by eapply Forall_lookup_1 in Hne. }
      destruct (Z.ltb_spec (Z.of_nat j + 1) (maxAttempts c0)); [|lia]. split; [done|].
      rewrite Ht', map_app, Ht. unfold walk_prefix. rewrite Hs. simpl.
      by rewrite <- replicate_S_end.
  - induction j as [|j IHj]; intros Hi Hj.
    + destruct (IHi (Z.to_nat (maxAttempts c0) - 1)%nat ltac:(lia) ltac:(lia)) as [Hp Ht].
      destruct (lookup_lt_is_Some_2 (entries (chain c0)) i) as [s Hs].
      { unfold n_entries, zlen in Hi. lia. }
      destruct (attempt_step _ _ t why _ _ s Hp Hm ltac:(lia) Hs) as [Ht' Hn].
      { by eapply Forall_lookup_1 in Hne. }
      replace (S i * Z.to_nat (maxAttempts c0) + 0)%nat
        with (S (i * Z.to_nat (maxAttempts c0) + (Z.to_nat (maxAttempts c0) - 1))) by lia.
      cbn [attempts].
      destruct (Z.ltb_spec (Z.of_nat (Z.to_nat (maxAttempts c0) - 1) + 1) (maxAttempts c0)); [lia|].
      destruct (Z.ltb_spec (Z.of_nat i + 1) (n_entries c0)); [|lia]. split; [done|].
      rewrite Ht', map_app, Ht, <- (walk_prefix_row c0 i s Hs). unfold walk_prefix. rewrite Hs.
      simpl. rewrite <- app_assoc, <- replicate_S_end. f_equal. f_equal. lia.
    + destruct (IHj Hi ltac:(lia)) as [Hp Ht]. rewrite Nat.add_succ_r. cbn [attempts].
      destruct (lookup_lt_is_Some_2 (entries (chain c0)) (S i)) as [s Hs].
      { unfold n_entries, zlen in Hi. lia. }
      destruct (attempt_step _ _ t why _ _ s Hp Hm ltac:(lia) Hs) as [Ht' Hn].
      { by eapply Forall_lookup_1 in Hne. }
      destruct (Z.ltb_spec (Z.of_nat j + 1) (maxAttempts c0)); [|lia]. split; [done|].
      rewrite Ht', map_app, Ht. unfold walk_prefix. rewrite Hs. simpl.
      by rewrite <- app_assoc, <- replicate_S_end.
Qed.

(** C30. When every request fails, a new controller tries the entries in order, each exactly
    [maxAttempts] times, and then is exhausted; before the last of these attempts it never
    is.  So the chain always terminates, after [maxAttempts * entries.length] failures. *)
Theorem full_walk ch maxA c t why :
  construct ch maxA = Ok c -> entries ch <> [] -> Forall (fun s => s <> []) (entries ch) ->
  let n := (length (entries ch) * Z.to_nat maxA)%nat in
  map selector (tried (attempts t why n c)) = concat (map (replicate (Z.to_nat maxA)) (entries ch)) /\
  exhaustedForTurn (attempts t why n c) = true /\
  (forall k, (k < n)%nat -> exhaustedForTurn (attempts t why k c) = false).
Proof.
  unfold construct. destruct (Z.ltb_spec maxA 1); [done|]. intros [= <-] Hne Hall.
  set (c0 := mkController _ _ _ _ _ _ _ _ _ _).
  assert (Hpos : 0 < zlen (entries ch)).
  { clear -Hne. destruct (entries ch) as [|e es]; [done|].
    rewrite zlen_cons. pose proof (zlen_nonneg es). lia. }
  assert (H0 : at_pos c0 c0 0 0).
  { unfold at_pos. cbn. split_and!; try done. by destruct (Z.eqb_spec (zlen (entries ch)) 0); [lia|]. }
  assert (Hwalk : forall i j, (i < length (entries ch))%nat -> (j < Z.to_nat maxA)%nat ->
    let c := attempts t why (i * Z.to_nat maxA + j) c0 in
    at_pos c0 c i j /\ map selector (tried c) = walk_prefix c0 i j).
  { intros i j Hi Hj. apply (walk_positions c0 t why i j H0); try done; unfold c0, n_entries, zlen; simpl; lia. }
  set (m := Z.to_nat maxA) in *. set (l := length (entries ch)) in *.
  assert (Hl : (0 < l)%nat) by (unfold zlen in Hpos; lia).
  destruct (Hwalk (l - 1)%nat (m - 1)%nat ltac:(lia) ltac:(lia)) as [Hp Ht].
  destruct (lookup_lt_is_Some_2 (entries ch) (l - 1)) as [s Hs]; [lia|].
  destruct (attempt_step c0 _ t why _ _ s Hp ltac:(done) ltac:(cbn; lia) Hs) as [Ht' Hn].
  { by eapply Forall_lookup_1 in Hall. }
  cbn in Hn. destruct (Z.ltb_spec (Z.of_nat (m - 1) + 1) maxA); [lia|].
  unfold n_entries, zlen in Hn; cbn in Hn. fold l in Hn.
  destruct (Z.ltb_spec (Z.of_nat (l - 1) + 1) (Z.of_nat l)); [lia|].
  assert (Hlast : attempts t why (l * m) c0
                  = attempt t why (attempts t why ((l - 1) * m + (m - 1)) c0)).
  { replace (l * m)%nat with (S ((l - 1) * m + (m - 1))) by nia. done. }
  rewrite Hlast. split_and!.
  - rewrite Ht', map_app, Ht. pose proof (walk_prefix_row c0 _ _ Hs) as Hrow.
    unfold walk_prefix in *. cbn in Hrow |- *. rewrite Hs in Hrow |- *. cbn in Hrow |- *.
    rewrite <- app_assoc, <- replicate_S_end. fold m in Hrow.
    replace (S (m - 1)) with m by lia. fold m. rewrite Hrow, app_nil_r.
    rewrite take_ge by lia. done.
  - apply Hn.
  - intros k Hk. destruct (Hwalk (k / m)%nat (k mod m)%nat) as [Hp' _].
    + apply Nat.Div0.div_lt_upper_bound. lia.
    + apply Nat.mod_upper_bound. lia.
    + rewrite (Nat.mul_comm (k / m)), <- Nat.div_mod_eq in Hp'. apply Hp'.
Qed.

(** Once the chain is exhausted for the turn, starts, failures, skips, advances and
    credential restores change neither the position nor any counter, and every failure
    reports [exhausted], until a reset or a reseed. *)
Theorem exhausted_sticky c t why :
  exhaustedForTurn c = true ->
  onAttemptStarted c = c /\ onAttemptFailure t why c = (exhausted_, c) /\
  advance c = (false, c) /\ restorePreviousEntryForRetry c = (false, c) /\
  activeIndex (snd (onResolutionSkip why c)) = activeIndex c /\
  totalAttemptsUsed (snd (onResolutionSkip why c)) = totalAttemptsUsed c.
Proof.
  intros H. unfold onAttemptStarted, onAttemptFailure, onResolutionSkip, advance,
    restorePreviousEntryForRetry.
  cbn. rewrite H, orb_true_r. by destruct (presentSelector c).
Qed.
End FallbackChain.

(** ** Delays

    Milliseconds are integers; [random] is the rational that the injected generator
    returned.  [2 ** k] is exact for the values the caps allow. *)

Definition exponential (base k : Z) : Z := base * 2 ^ Z.max 0 k.

Definition cappedExponentialWithFullJitter (base maxDelay k : Z) (random : Q) : Z :=
  let e := exponential base (k - 1) in
  let cap := if 0 <? maxDelay then Z.min e maxDelay else e in
  Qfloor (inject_Z (Z.max 0 cap) * Qmax 0 (Qmin 1 random)).

Definition compactionRetryDelay (base maxDelay attempt : Z) (retryAfter : option Z) : Z :=
  let e := exponential base attempt in
  let hint := match retryAfter with Some h => Z.max 0 h | None => 0 end in
  let hinted := Z.max e hint in
  let bounded := if 0 <? maxDelay then Z.min hinted maxDelay else hinted in
  Z.max 0 bounded.

Definition effectiveFallbackDelay (base maxDelay k : Z) (retryAfter : option Z) (random : Q) : Z :=
  Z.max (cappedExponentialWithFullJitter base maxDelay k random)
    (match retryAfter with Some h => h | None => 0 end).

Lemma exponential_nonneg base k : 0 <= base -> 0 <= exponential base k.
Proof. intros. unfold exponential. pose proof (Z.pow_nonneg 2 (Z.max 0 k)). nia. Qed.

Lemma unit_interval (r : Q) : (0 <= Qmax 0 (Qmin 1 r) <= 1)%Q.
Proof.
  split; [apply Q.le_max_l|]. apply Q.max_lub; [discriminate|apply Q.le_min_l].
Qed.

(** A jittered delay is never negative and never above the configured cap, whatever the
    generator returns, and never above the exponential backoff; the fallback delay is at
    least the server's [Retry-After]; the compaction delay never exceeds a positive cap,
    not even for a larger [Retry-After]. *)
Theorem delays_bounded base maxDelay k hint (r : Q) :
  0 <= base ->
  0 <= cappedExponentialWithFullJitter base maxDelay k r <= exponential base (k - 1) /\
  (0 < maxDelay -> cappedExponentialWithFullJitter base maxDelay k r <= maxDelay) /\
  hint <= effectiveFallbackDelay base maxDelay k (Some hint) r /\
  0 <= compactionRetryDelay base maxDelay k (Some hint) /\
  (0 < maxDelay -> compactionRetryDelay base maxDelay k (Some hint) <= maxDelay).
Proof.
  intros Hb. pose proof (exponential_nonneg base (k - 1) Hb) as He.
  assert (Hj : forall cap, 0 <= cap ->
    0 <= Qfloor (inject_Z cap * Qmax 0 (Qmin 1 r)) <= cap).
  { intros cap Hcap. destruct (unit_interval r) as [H0 H1]. split.
    - change 0 with (Qfloor 0). apply Qfloor_resp_le. apply Qmult_le_0_compat; [|done].
      change 0%Q with (inject_Z 0). by rewrite <- Zle_Qle.
    - rewrite <- (Qfloor_Z cap) at 2. apply Qfloor_resp_le.
      rewrite <- (Qmult_1_r (inject_Z cap)) at 2. rewrite !(Qmult_comm (inject_Z cap)).
      apply Qmult_le_compat_r; [done|]. change 0%Q with (inject_Z 0). by rewrite <- Zle_Qle. }
  unfold effectiveFallbackDelay, compactionRetryDelay, cappedExponentialWithFullJitter.
  cbv zeta. destruct (Z.ltb_spec 0 maxDelay); cbv beta iota.
  - specialize (Hj (Z.max 0 (Z.min (exponential base (k - 1)) maxDelay)) ltac:(lia)).
    split_and!; try lia.
  - specialize (Hj (Z.max 0 (exponential base (k - 1))) ltac:(lia)). split_and!; try lia.
Qed.

(** ** Witnesses *)

Definition demo_chain : ConfiguredFallbackChain :=
  {| role := u "main"; entries := [u "a"; u "b"]; origin := u "settings"; identity := None;
     explicitHead := true |}.
Definition demo_controller : @Controller unit :=
  mkController demo_chain 2 0 0 [] false 0 [] [] false.

Lemma budget_bounded_witness :
  0 <= totalAttemptsUsed (run fstep [FStarted; FFailure tt []; FFailure tt []; FRestorePrevious]
                            demo_controller).
Proof.
  destruct (budget_bounded demo_chain 2 demo_controller
              [FStarted; FFailure tt []; FFailure tt []; FRestorePrevious]) as [H _];
    [reflexivity|apply H].
Defined.

Lemma full_walk_witness :
  map selector (tried (attempts tt [] 4 demo_controller)) = [u "a"; u "a"; u "b"; u "b"].
Proof.
  destruct (full_walk demo_chain 2 demo_controller tt []) as [H _];
    [reflexivity|discriminate|repeat constructor; discriminate|exact H].
Defined.

Lemma exhausted_sticky_witness :
  onAttemptStarted (attempts tt [] 4 demo_controller) = attempts tt [] 4 demo_controller.
Proof. apply (exhausted_sticky _ tt []). vm_compute. reflexivity. Defined.

Lemma delays_bounded_witness : cappedExponentialWithFullJitter 500 8000 7 (1 # 2) <= 8000.
Proof. destruct (delays_bounded 500 8000 7 0 (1 # 2)) as (_ & H & _); [lia|apply H; lia]. Defined.
