(* ===== verification/YieldQueue.v ===== *)
(** The yield queue of an agent session
    (src/gajae-code/packages/coding-agent/src/session/yield-queue.ts).

    Both maps of the class are JavaScript [Map]s, which iterate in insertion order:
    association lists.  A registration has an identity, because the closure that
    [register] returns compares the stored dispatcher with [!==].  Calls that leave the
    class (building a message, injecting it, scheduling a flush, warning) are recorded in
    a trace; whether an injected host function throws is part of the environment of the
    operation.  Callbacks do not re-enter the queue. *)
From S2P Require Import Prelude.
#[local] Open Scope Z_scope.

(** * Insertion-ordered maps *)

Abbreviation omap_t V := (list (jstr * V)) (only parsing).

Section OrderedMap.
Context {V : Type}.

Fixpoint oget (k : jstr) (m : omap_t V) : option V :=
  match m with [] => None | (k', v) :: m' => if decide (k = k') then Some v else oget k m' end.

(** [Map.set]: an existing key keeps its place. *)
Fixpoint oset (k : jstr) (v : V) (m : omap_t V) : omap_t V :=
  match m with
  | [] => [(k, v)]
  | (k', v') :: m' => if decide (k = k') then (k, v) :: m' else (k', v') :: oset k v m'
  end.

Definition odelete (k : jstr) (m : omap_t V) : omap_t V := filter (fun p => p.1 <> k) m.

Lemma oget_oset_eq k v m : oget k (oset k v m) = Some v.
Proof.
  induction m as [|[k' v'] m IH]; simpl; [by rewrite decide_True|].
  destruct (decide (k = k')) as [<-|Hne]; simpl; [by rewrite decide_True|by rewrite decide_False].
Qed.

Lemma oget_oset_ne k k' v m : k <> k' -> oget k (oset k' v m) = oget k m.
Proof.
  intros Hne. induction m as [|[k2 v2] m IH]; simpl; [by rewrite decide_False|].
  destruct (decide (k' = k2)) as [<-|]; simpl; [by rewrite !decide_False|]. by rewrite IH.
Qed.

Lemma oget_odelete_eq k m : oget k (odelete k m) = None.
Proof.
  unfold odelete. induction m as [|[k' v'] m IH]; [done|]. rewrite filter_cons. simpl.
  case_decide as Hd; [|done]. simpl. by rewrite decide_False by congruence.
Qed.

Lemma oget_odelete_ne k k' m : k <> k' -> oget k (odelete k' m) = oget k m.
Proof.
  intros Hne. unfold odelete. induction m as [|[k2 v2] m IH]; [done|]. rewrite filter_cons. simpl.
  destruct (decide (k2 <> k')) as [Hd|Hd]; simpl.
  - by rewrite IH.
  - apply dec_stable in Hd. subst. by rewrite IH, decide_False.
Qed.

Lemma odelete_none k m : oget k m = None -> odelete k m = m.
Proof.
  unfold odelete. induction m as [|[k' v'] m IH]; [done|]. simpl. case_decide; [done|]. intros Hn.
  rewrite filter_cons, decide_True by (simpl; congruence). by rewrite IH.
Qed.
End OrderedMap.

Section YieldQueue.
Context {Entry Msg : Type}.

Record StoredDispatcher := {
  isStale : option (Entry -> result unit bool);
  groupKey : option (Entry -> jstr);
  build : list Entry -> result unit (option Msg) }.

Inductive YieldFlushMode := streaming | idle.

(** The calls that leave the class. *)
Inductive Call :=
| Built (kind : jstr) (group : list Entry)
| InjectStreaming (m : Msg)
| InjectIdle (ms : list Msg)
| ScheduleIdleFlush
| Warn (kind : jstr).

(** The host: [YieldQueueOptions] at the time of the call. *)
Record Host := {
  isStreaming : bool;
  injectStreamingThrows : Msg -> bool;
  injectIdleThrows : list Msg -> bool;
  scheduleThrows : bool }.

Record YQueue := mkYQueue {
  dispatchers : omap_t (nat * StoredDispatcher);
  entries_ : omap_t (list Entry);
  idleFlushPending : bool;
  nextId : nat;
  trace : list Call }.

Definition new_YieldQueue : YQueue := mkYQueue [] [] false 0 [].

Definition log (c : list Call) (q : YQueue) : YQueue :=
  mkYQueue (dispatchers q) (entries_ q) (idleFlushPending q) (nextId q) (trace q ++ c).
Definition set_entries (e : omap_t (list Entry)) (q : YQueue) : YQueue :=
  mkYQueue (dispatchers q) e (idleFlushPending q) (nextId q) (trace q).
Definition set_pending (b : bool) (q : YQueue) : YQueue :=
  mkYQueue (dispatchers q) (entries_ q) b (nextId q) (trace q).

(** ** Operations *)

(** [register]: the identity stands for the [stored] object of the closure. *)
Definition register (kind : jstr) (d : StoredDispatcher) (q : YQueue) : nat * YQueue :=
  (nextId q, mkYQueue (oset kind (nextId q, d) (dispatchers q)) (entries_ q)
               (idleFlushPending q) (S (nextId q)) (trace q)).

Definition unregister (kind : jstr) (id : nat) (q : YQueue) : YQueue :=
  match oget kind (dispatchers q) with
  | Some (id', _) =>
      if bool_decide (id' = id) then
        mkYQueue (odelete kind (dispatchers q)) (odelete kind (entries_ q))
          (idleFlushPending q) (nextId q) (trace q)
      else q
  | None => q
  end.

Definition scheduleIdleFlush (h : Host) (q : YQueue) : YQueue :=
  if idleFlushPending q then q
  else if scheduleThrows h then log [ScheduleIdleFlush; Warn []] (set_pending false q)
  else log [ScheduleIdleFlush] (set_pending true q).

Definition enqueue (h : Host) (kind : jstr) (e : Entry) (q : YQueue) : YQueue :=
  match oget kind (dispatchers q) with
  | None => log [Warn kind] q
  | Some _ =>
      let q := set_entries (oset kind (default [] (oget kind (entries_ q)) ++ [e]) (entries_ q)) q in
      if isStreaming h then q else scheduleIdleFlush h q
  end.

Definition nonempty (es : list Entry) : bool := negb (bool_decide (length es = O)).

Definition has (kind : option jstr) (q : YQueue) : bool :=
  match kind with
  | Some k => nonempty (default [] (oget k (entries_ q)))
  | None => existsb (fun p => nonempty p.2) (entries_ q)
  end.

Definition clear_ (q : YQueue) : YQueue := set_pending false (set_entries [] q).
Definition clearKind (kind : jstr) (q : YQueue) : YQueue :=
  set_entries (odelete kind (entries_ q)) q.

Definition drain (kind : jstr) (q : YQueue) : list Entry * YQueue :=
  match oget kind (entries_ q) with
  | None | Some [] => ([], q)
  | Some es => (es, set_entries (odelete kind (entries_ q)) q)
  end.

(** The survivors, and the warnings of stale checks that threw. *)
Fixpoint survivors (kind : jstr) (d : StoredDispatcher) (es : list Entry) : list Entry * list Call :=
  match es with
  | [] => ([], [])
  | e :: es' =>
      let (ss, ws) := survivors kind d es' in
      match isStale d with
      | None => (e :: ss, ws)
      | Some f => match f e with
                  | Ok true => (ss, ws)
                  | Ok false => (e :: ss, ws)
                  | Err _ => (ss, Warn kind :: ws)
                  end
      end
  end.

Definition key_of (d : StoredDispatcher) (e : Entry) : jstr :=
  match groupKey d with Some f => f e | None => u "default" end.

(** Contiguous runs: [groups] is built in order, [last.push(entry)] extends the last one. *)
Fixpoint group_loop (d : StoredDispatcher) (es : list Entry)
    (groups : list (list Entry)) (cur : option jstr) : list (list Entry) :=
  match es with
  | [] => groups
  | e :: es' =>
      let key := key_of d e in
      match last groups with
      | Some g =>
          if bool_decide (cur = Some key)
          then group_loop d es' (removelast groups ++ [g ++ [e]]) cur
          else group_loop d es' (groups ++ [[e]]) (Some key)
      | None => group_loop d es' (groups ++ [[e]]) (Some key)
      end
  end.
Definition group_runs (d : StoredDispatcher) (es : list Entry) : list (list Entry) :=
  group_loop d es [] None.

Fixpoint build_groups (kind : jstr) (d : StoredDispatcher) (gs : list (list Entry)) :
    list Msg * list Call :=
  match gs with
  | [] => ([], [])
  | g :: gs' =>
      let (ms, cs) := build_groups kind d gs' in
      match build d g with
      | Ok (Some m) => (m :: ms, Built kind g :: cs)
      | Ok None => (ms, Built kind g :: cs)
      | Err _ => (ms, Built kind g :: Warn kind :: cs)
      end
  end.

(** [#build]: [null] when nothing survives or nothing was built. *)
Definition build_messages (kind : jstr) (d : StoredDispatcher) (es : list Entry) :
    option (list Msg) * list Call :=
  let (ss, ws) := survivors kind d es in
  match ss with
  | [] => (None, ws)
  | _ => let (ms, cs) := build_groups kind d (group_runs d ss) in
         (match ms with [] => None | _ => Some ms end, ws ++ cs)
  end.

Definition inject_all (h : Host) (kind : jstr) (ms : list Msg) : list Call :=
  concat (map (fun m => InjectStreaming m ::
                 (if injectStreamingThrows h m then [Warn kind] else [])) ms).

(** The loop over the dispatchers; the idle messages are collected in order. *)
Fixpoint flush_loop (h : Host) (mode : YieldFlushMode)
    (ds : omap_t (nat * StoredDispatcher)) (q : YQueue) : list Msg * YQueue :=
  match ds with
  | [] => ([], q)
  | (kind, (_, d)) :: ds' =>
      let (es, q) := drain kind q in
      match es with
      | [] => flush_loop h mode ds' q
      | _ =>
          let (mms, cs) := build_messages kind d es in
          let ms := default [] mms in
          let q := log cs q in
          match mode with
          | streaming => flush_loop h mode ds' (log (inject_all h kind ms) q)
          | idle => let (rest, q) := flush_loop h mode ds' q in (ms ++ rest, q)
          end
      end
  end.

Definition flush (h : Host) (mode : YieldFlushMode) (q : YQueue) : YQueue :=
  let q := match mode with idle => set_pending false q | streaming => q end in
  let (ms, q) := flush_loop h mode (dispatchers q) q in
  match mode, ms with
  | idle, _ :: _ => log (InjectIdle ms :: (if injectIdleThrows h ms then [Warn []] else [])) q
  | _, _ => q
  end.

(** The closure that [scheduleIdleFlush] hands to the host. *)
Definition runIdleFlush (h : Host) (q : YQueue) : YQueue :=
  let q := set_pending false q in
  if isStreaming h then q else flush h idle q.

Definition rearmIdle (h : Host) (q : YQueue) : YQueue :=
  if isStreaming h then q
  else if existsb (fun p => nonempty p.2) (entries_ q) then scheduleIdleFlush h q else q.

(** ** Contiguous grouping *)

(** Reference grouping: an entry joins the following run when the keys agree. *)
Fixpoint runs (d : StoredDispatcher) (es : list Entry) : list (list Entry) :=
  match es with
  | [] => []
  | e :: es' =>
      match runs d es' with
      | (e' :: g) :: gs => if bool_decide (key_of d e = key_of d e')
                           then (e :: e' :: g) :: gs else [e] :: (e' :: g) :: gs
      | gs => [e] :: gs
      end
  end.

Definition attach (d : StoredDispatcher) (k : jstr) (g : list Entry) (gs : list (list Entry)) :=
  match gs with
  | (e :: r) :: rs => if bool_decide (k = key_of d e) then (g ++ e :: r) :: rs else g :: gs
  | _ => g :: gs
  end.

Lemma runs_head d e es : exists g gs, runs d (e :: es) = (e :: g) :: gs.
Proof.
  simpl. destruct (runs d es) as [|[|e' g] gs]; eauto. case_bool_decide; eauto.
Qed.

Lemma group_loop_runs d es gs g k :
  group_loop d es (gs ++ [g]) (Some k) = gs ++ attach d k g (runs d es).
Proof.
  revert gs g k. induction es as [|e es IH]; intros gs g k; [done|].
  cbn [group_loop]. rewrite last_snoc, removelast_last.
  destruct (runs_head d e es) as (r & rs & Hr).
  case_bool_decide as Hk.
  - injection Hk as ->. rewrite IH. f_equal. rewrite Hr. unfold attach at 2.
    rewrite bool_decide_eq_true_2 by done.
    simpl in Hr. destruct (runs d es) as [|[|e' g'] gs']; simplify_eq/=; [done..|].
    case_bool_decide; simplify_eq/=; [by rewrite <- app_assoc|done].
  - rewrite IH, <- app_assoc. f_equal. rewrite Hr. unfold attach at 2.
    rewrite bool_decide_eq_false_2 by congruence. cbn [app]. f_equal.
    simpl in Hr. destruct (runs d es) as [|[|e' g'] gs']; simplify_eq/=; [done..|].
    case_bool_decide; simplify_eq/=; done.
Qed.

Lemma group_runs_eq d es : group_runs d es = runs d es.
Proof.
  unfold group_runs. destruct es as [|e es]; [done|]. simpl.
  pose proof (group_loop_runs d es [] [e] (key_of d e)) as H. simpl in H. rewrite H.
  destruct (runs d es) as [|[|e' g] gs]; [done..|]. simpl. by case_bool_decide.
Qed.

Lemma runs_concat d es : concat (runs d es) = es.
Proof.
  induction es as [|e es IH]; [done|]. simpl.
  destruct (runs d es) as [|[|e' g] gs]; simpl in *; [by rewrite IH..|].
  case_bool_decide; simpl; by rewrite IH.
Qed.

Lemma runs_uniform d es :
  Forall (fun g => g <> [] /\ forall e e', e ∈ g -> e' ∈ g -> key_of d e = key_of d e') (runs d es).
Proof.
  assert (Hone : forall e : Entry, [e] <> [] /\
    forall x y, x ∈ [e] -> y ∈ [e] -> key_of d x = key_of d y).
  { intros e. split; [done|]. by intros x y ->%list_elem_of_singleton ->%list_elem_of_singleton. }
  induction es as [|e es IH]; simpl; [constructor|].
  destruct (runs d es) as [|[|e' g] gs]; [by constructor..|].
  case_bool_decide as Hk; [|by constructor]. apply Forall_cons in IH as [[_ Hg] Hgs].
  constructor; [split; [done|]|done].
  assert (H : forall x, x ∈ e :: e' :: g -> key_of d x = key_of d e').
  { intros x [->|Hx]%elem_of_cons; [done|]. apply Hg; [done|apply list_elem_of_here]. }
  intros x y Hx Hy. by rewrite (H x), (H y).
Qed.

Lemma runs_maximal d es i g1 g2 e1 e2 :
  runs d es !! i = Some g1 -> runs d es !! S i = Some g2 -> e1 ∈ g1 -> e2 ∈ g2 ->
  key_of d e1 <> key_of d e2.
Proof.
  revert i g1 e1. induction es as [|e es IH]; intros i g1 e1; [by destruct i|]. simpl.
  pose proof (runs_uniform d es) as Hu.
  destruct (runs d es) as [|[|e' g] gs].
  - by destruct i.
  - apply Forall_cons in Hu as [[[] _] _]. done.
  - apply Forall_cons in Hu as [[_ Hu] _]. case_bool_decide as Hk.
    + destruct i as [|i]; simpl.
      * intros [= <-] H2 H1 He2.
        assert (key_of d e1 = key_of d e') as ->.
        { apply elem_of_cons in H1 as [->|H1]; [done|]. apply Hu; [done|apply list_elem_of_here]. }
        eapply (IH O); [reflexivity|exact H2|apply list_elem_of_here|done].
      * by apply (IH (S i)).
    + destruct i as [|i]; simpl; [|by apply IH].
      intros [= <-] [= <-] ->%list_elem_of_singleton He2.
      by rewrite (Hu e2 e') by (done || apply list_elem_of_here).
Qed.

(** One message per origin run: grouping cuts the surviving entries into contiguous runs,
    in the queued order and without losing or moving an entry; the entries of a run share
    their origin key and neighbouring runs have different keys. *)
Theorem group_runs_spec d es :
  concat (group_runs d es) = es /\
  Forall (fun g => g <> [] /\ forall e e', e ∈ g -> e' ∈ g -> key_of d e = key_of d e')
    (group_runs d es) /\
  (forall i g1 g2 e1 e2, group_runs d es !! i = Some g1 -> group_runs d es !! S i = Some g2 ->
     e1 ∈ g1 -> e2 ∈ g2 -> key_of d e1 <> key_of d e2).
Proof.
  rewrite group_runs_eq. split_and!; [apply runs_concat|apply runs_uniform|].
  intros *. apply runs_maximal.
Qed.

(** ** Delivery *)

(** The entries handed to the dispatcher of [kind] by the builds of a trace. *)
Definition built_of (kind : jstr) (c : Call) : list Entry :=
  match c with Built k g => if bool_decide (k = kind) then g else [] | _ => [] end.
Definition built (kind : jstr) (t : list Call) : list Entry := concat (map (built_of kind) t).

Lemma built_app k t1 t2 : built k (t1 ++ t2) = built k t1 ++ built k t2.
Proof. unfold built. by rewrite map_app, concat_app. Qed.

Lemma built_warns kind k d es : built k (snd (survivors kind d es)) = [].
Proof.
  induction es as [|e es IH]; [done|]. simpl. destruct (survivors kind d es).
  destruct (isStale d) as [f|]; [|done]. by destruct (f e) as [[]|].
Qed.

Lemma built_injects h kind k ms : built k (inject_all h kind ms) = [].
Proof.
  unfold inject_all. induction ms as [|m ms IH]; [done|]. cbn [map concat].
  rewrite built_app, IH. by destruct (injectStreamingThrows h m).
Qed.

Lemma built_groups kind k d gs :
  built k (snd (build_groups kind d gs)) = if bool_decide (kind = k) then concat gs else [].
Proof.
  induction gs as [|g gs IH]; simpl; [by case_bool_decide|].
  destruct (build_groups kind d gs) as [ms cs]. simpl in IH.
  destruct (build d g) as [[m|]|]; unfold built in *; simpl; rewrite IH; by case_bool_decide.
Qed.

Lemma built_messages kind k d es :
  built k (snd (build_messages kind d es))
  = if bool_decide (kind = k) then fst (survivors kind d es) else [].
Proof.
  unfold build_messages. pose proof (built_warns kind k d es) as Hw.
  destruct (survivors kind d es) as [[|s ss] ws]; simpl in *.
  { rewrite Hw. by case_bool_decide. }
  pose proof (built_groups kind k d (group_runs d (s :: ss))) as Hg.
  destruct (build_groups kind d (group_runs d (s :: ss))) as [ms cs]. simpl in *.
  rewrite built_app, Hw, Hg. case_bool_decide; [|done]. by rewrite group_runs_eq, runs_concat.
Qed.

Definition queued (k : jstr) (q : YQueue) : list Entry := default [] (oget k (entries_ q)).

Lemma drain_spec kind q :
  fst (drain kind q) = queued kind q /\
  queued kind (snd (drain kind q)) = [] /\
  (forall k, k <> kind -> queued k (snd (drain kind q)) = queued k q) /\
  trace (snd (drain kind q)) = trace q /\
  dispatchers (snd (drain kind q)) = dispatchers q /\
  idleFlushPending (snd (drain kind q)) = idleFlushPending q /\
  (forall k, oget k (entries_ (snd (drain kind q))) <> None -> oget k (entries_ q) <> None).
Proof.
  unfold drain, queued.
  destruct (oget kind (entries_ q)) as [[|e es]|] eqn:E; simpl; rewrite ?E; split_and!; try done.
  - by rewrite oget_odelete_eq.
  - intros k Hk. by rewrite oget_odelete_ne.
  - intros k. destruct (decide (k = kind)) as [->|]; [by rewrite oget_odelete_eq|].
    by rewrite oget_odelete_ne.
Qed.

Lemma flush_loop_spec h mode ds q :
  NoDup (map fst ds) ->
  let q' := snd (flush_loop h mode ds q) in
  (forall k, k ∉ map fst ds -> queued k q' = queued k q /\ built k (trace q') = built k (trace q)) /\
  (forall k id d, oget k ds = Some (id, d) ->
     queued k q' = [] /\ built k (trace q') = built k (trace q) ++ fst (survivors k d (queued k q))) /\
  dispatchers q' = dispatchers q /\ idleFlushPending q' = idleFlushPending q /\
  (forall k, oget k (entries_ q') <> None -> oget k (entries_ q) <> None).
Proof.
  revert q. induction ds as [|[kind [id0 d0]] ds IH]; intros q Hnd; simpl; [by split_and!|].
  apply NoDup_cons in Hnd as [Hni Hnd].
  destruct (drain_spec kind q) as (He & Hq0 & Hqk & Ht & Hd & Hp & Hs).
  destruct (drain kind q) as [es q1]; simpl in *.
  (* what the iteration does before the rest of the loop *)
  assert (Hstep : exists q2, snd (match es with
      | [] => flush_loop h mode ds q1
      | _ => let (mms, cs) := build_messages kind d0 es in
             match mode with
             | streaming => flush_loop h mode ds
                 (log (inject_all h kind (default [] mms)) (log cs q1))
             | idle => let (rest, q) := flush_loop h mode ds (log cs q1) in
                       (default [] mms ++ rest, q)
             end
      end) = snd (flush_loop h mode ds q2) /\
      entries_ q2 = entries_ q1 /\ dispatchers q2 = dispatchers q1 /\
      idleFlushPending q2 = idleFlushPending q1 /\
      forall k, built k (trace q2) = built k (trace q1)
        ++ if bool_decide (kind = k) then fst (survivors kind d0 es) else []).
  { destruct es as [|e es].
    - exists q1. split_and!; try done. intros k. simpl. by case_bool_decide; rewrite app_nil_r.
    - pose proof (fun k => built_messages kind k d0 (e :: es)) as Hb.
      destruct (build_messages kind d0 (e :: es)) as [mms cs]. cbn [snd] in Hb. destruct mode.
      + eexists. split; [done|]. split_and!; try done. intros k. simpl.
        by rewrite !built_app, built_injects, app_nil_r, Hb.
      + exists (log cs q1). destruct (flush_loop h idle ds (log cs q1)). split_and!; try done.
        intros k. simpl. by rewrite built_app, Hb. }
  destruct Hstep as (q2 & -> & Hen & Hdi & Hpe & Hb).
  destruct (IH q2 Hnd) as (Hout & Hin & Hd2 & Hp2 & Hs2).
  unfold queued in *. rewrite Hen in *. split_and!; try congruence.
  - intros k [Hne Hk]%not_elem_of_cons. destruct (Hout k Hk) as [-> ->].
    rewrite Hqk, Hb, Ht by done. by rewrite bool_decide_eq_false_2, app_nil_r by done.
  - intros k id d. destruct (decide (k = kind)) as [->|Hne].
    + intros [= -> ->]. destruct (Hout kind Hni) as [-> ->]. split; [done|].
      by rewrite Hb, Ht, bool_decide_eq_true_2, He.
    + intros Hk. destruct (Hin k id d Hk) as [-> ->]. split; [done|].
      rewrite Hb, Ht, Hqk by done. by rewrite bool_decide_eq_false_2, app_nil_r by done.
  - intros k Hk. by apply Hs, Hs2.
Qed.

Lemma flush_after h mode q :
  exists q0 q1, q1 = snd (flush_loop h mode (dispatchers q) q0) /\
    entries_ q0 = entries_ q /\ trace q0 = trace q /\ dispatchers q0 = dispatchers q /\
    idleFlushPending q0 = (match mode with idle => false | streaming => idleFlushPending q end) /\
    entries_ (flush h mode q) = entries_ q1 /\ dispatchers (flush h mode q) = dispatchers q1 /\
    idleFlushPending (flush h mode q) = idleFlushPending q1 /\
    forall k, built k (trace (flush h mode q)) = built k (trace q1).
Proof.
  unfold flush. eexists (match mode with idle => set_pending false q | streaming => q end), _.
  split; [reflexivity|].
  assert (Hd : dispatchers (match mode with idle => set_pending false q | streaming => q end)
               = dispatchers q) by by destruct mode.
  rewrite Hd. destruct (flush_loop _ _ _ _) as [ms q1] eqn:E. simpl.
  destruct mode, ms; split_and!; try done.
  intros k. simpl. rewrite built_app. destruct (injectIdleThrows h _); by rewrite app_nil_r.
Qed.

(** A flush, in either mode and whatever the host throws, hands every queued entry of a
    registered kind that is not stale to the kind's builder exactly once and in the queued
    order, and leaves nothing queued for a registered kind. *)
Theorem flush_delivers h mode q k id d :
  NoDup (map fst (dispatchers q)) -> oget k (dispatchers q) = Some (id, d) ->
  queued k (flush h mode q) = [] /\
  built k (trace (flush h mode q)) = built k (trace q) ++ fst (survivors k d (queued k q)).
Proof.
  intros Hnd Hk. destruct (flush_after h mode q) as (q0 & q1 & -> & He & Ht & Hd & _ & He' & _ & _ & Hb).
  destruct (flush_loop_spec h mode (dispatchers q) q0 Hnd) as (_ & Hin & _).
  destruct (Hin k id d Hk) as [Hq Hbb]. unfold queued in *. rewrite He', Hb, Hbb, He, Ht. done.
Qed.

(** ** Registered kinds and armed flushes *)

Inductive YOp :=
| YRegister (k : jstr) (d : StoredDispatcher) | YUnregister (k : jstr) (id : nat)
| YEnqueue (k : jstr) (e : Entry) | YFlush (m : YieldFlushMode) | YRunIdle
| YClear | YClearKind (k : jstr) | YRearm.

Definition ystep (h : Host) (op : YOp) (q : YQueue) : YQueue :=
  match op with
  | YRegister k d => snd (register k d q)
  | YUnregister k id => unregister k id q
  | YEnqueue k e => enqueue h k e q
  | YFlush m => flush h m q
  | YRunIdle => runIdleFlush h q
  | YClear => clear_ q
  | YClearKind k => clearKind k q
  | YRearm => rearmIdle h q
  end.

Record yq_ok (q : YQueue) : Prop := {
  yq_nodup : NoDup (map fst (dispatchers q));
  yq_registered : forall k, oget k (entries_ q) <> None -> oget k (dispatchers q) <> None;
  yq_armed : (forall k, queued k q = []) \/ idleFlushPending q = true }.

Lemma nodup_oset {V} k (v : V) m : NoDup (map fst m) -> NoDup (map fst (oset k v m)).
Proof.
  assert (Hin : forall k' (m0 : omap_t V), k' ∈ map fst (oset k v m0) -> k' = k \/ k' ∈ map fst m0).
  { intros k' m0. induction m0 as [|[k2 v2] m0 IH]; simpl.
    - intros [->|[]%not_elem_of_nil]%elem_of_cons. by left.
    - destruct (decide (k = k2)) as [<-|]; [by right|].
      intros [->|H]%elem_of_cons; [right; apply list_elem_of_here|].
      destruct (IH H); [by left|right; by apply list_elem_of_further]. }
  induction m as [|[k2 v2] m IH]; simpl.
  - intros _. apply NoDup_singleton.
  - intros [Hni Hnd]%NoDup_cons. destruct (decide (k = k2)) as [<-|]; simpl; [by constructor|].
    constructor; [|by apply IH]. intros [->|H]%Hin; [done|by apply Hni].
Qed.

Lemma nodup_odelete {V} k (m : omap_t V) : NoDup (map fst m) -> NoDup (map fst (odelete k m)).
Proof.
  intros H. eapply sublist_NoDup; [exact H|].
  apply (fmap_sublist fst), sublist_filter.
Qed.

Lemma schedule_ok h q :
  scheduleThrows h = false ->
  dispatchers (scheduleIdleFlush h q) = dispatchers q /\
  entries_ (scheduleIdleFlush h q) = entries_ q /\ idleFlushPending (scheduleIdleFlush h q) = true.
Proof. intros Hs. unfold scheduleIdleFlush. rewrite Hs. by destruct (idleFlushPending q) eqn:E. Qed.

Lemma flush_ok h m q : yq_ok q -> yq_ok (flush h m q).
Proof.
  intros [Hnd Hreg Harm].
  destruct (flush_after h m q) as (q0 & q1 & -> & He & _ & Hd & _ & He' & Hd' & _ & _).
  destruct (flush_loop_spec h m (dispatchers q) q0 Hnd) as (Hout & Hin & Hd2 & _ & Hs).
  split.
  - by rewrite Hd', Hd2, Hd.
  - intros k. rewrite He', Hd', Hd2, Hd. intros Hk. apply Hreg. rewrite <- He. by apply Hs.
  - left. intros k. unfold queued in *. rewrite He'.
    destruct (oget k (dispatchers q)) as [[id d]|] eqn:Ek; [by eapply Hin|].
    match goal with |- default [] ?o = [] => destruct o as [es|] eqn:E end; [exfalso|done].
    apply (Hreg k); [|done]. rewrite <- He. apply Hs. by rewrite E.
Qed.

Lemma ystep_ok h op q :
  isStreaming h = false -> scheduleThrows h = false -> yq_ok q -> yq_ok (ystep h op q).
Proof.
  intros Hst Hsc Hok. pose proof Hok as [Hnd Hreg Harm].
  assert (Hsched : forall e, (forall k, oget k e <> None -> oget k (dispatchers q) <> None) ->
    yq_ok (scheduleIdleFlush h (set_entries e q))).
  { intros e He. destruct (schedule_ok h (set_entries e q) Hsc) as (Hd & Hen & Hp).
    split; rewrite ?Hd, ?Hen; [done|done|by right]. }
  assert (Hdel : forall k ds b, (forall k', k' <> k -> oget k' ds = oget k' (dispatchers q)) ->
    NoDup (map fst ds) -> b = idleFlushPending q ->
    yq_ok (mkYQueue ds (odelete k (entries_ q)) b (nextId q) (trace q))).
  { intros k ds b Hds Hn ->. split; simpl; [done| |].
    - intros k'. destruct (decide (k' = k)) as [->|]; [by rewrite oget_odelete_eq|].
      rewrite oget_odelete_ne, Hds by done. apply Hreg.
    - destruct Harm as [Ha|]; [left|by right]. intros k'. unfold queued. simpl.
      destruct (decide (k' = k)) as [->|]; [by rewrite oget_odelete_eq|].
      rewrite oget_odelete_ne by done. apply Ha. }
  destruct op; simpl.
  - split; simpl; [by apply nodup_oset| |done]. intros k' Hk'. apply Hreg in Hk'.
    destruct (decide (k' = k)) as [->|]; [by rewrite oget_oset_eq|by rewrite oget_oset_ne].
  - unfold unregister. destruct (oget k (dispatchers q)) as [[id' d]|]; [|done].
    case_bool_decide; [|done]. apply Hdel; [|by apply nodup_odelete|done].
    intros k' Hk'. by apply oget_odelete_ne.
  - unfold enqueue. destruct (oget k (dispatchers q)) eqn:Ek; [|by split].
    rewrite Hst. apply Hsched. intros k'. destruct (decide (k' = k)) as [->|]; [by rewrite Ek|].
    rewrite oget_oset_ne by done. apply Hreg.
  - by apply flush_ok.
  - unfold runIdleFlush. rewrite Hst.
    change (flush h idle (set_pending false q)) with (flush h idle q). by apply flush_ok.
  - split; simpl; [done|done|by left].
  - by apply Hdel.
  - unfold rearmIdle. rewrite Hst. destruct (existsb _ (entries_ q)); [|done].
    pose proof (Hsched (entries_ q) Hreg) as Hs. by destruct q.
Qed.

(** No entry is stranded: along any history of operations of an idle session whose host
    accepts the flushes it is asked to schedule, queued entries belong to registered kinds,
    and whenever something is queued an idle flush is pending. *)
Theorem never_stranded h ops :
  isStreaming h = false -> scheduleThrows h = false ->
  let q := run (ystep h) ops new_YieldQueue in
  (forall k, queued k q <> [] -> oget k (dispatchers q) <> None) /\
  (forall k, has (Some k) q = true -> idleFlushPending q = true).
Proof.
  intros Hst Hsc q. assert (Hok : yq_ok q).
  { apply run_invariant; [intros; by apply ystep_ok|]. split; simpl; [constructor|done|by left]. }
  destruct Hok as [_ Hreg Harm]. split.
  - intros k Hk. apply Hreg. unfold queued in Hk. by destruct (oget k (entries_ q)).
  - intros k Hhas. destruct Harm as [Ha|]; [|done]. specialize (Ha k).
    unfold has in Hhas. unfold queued in Ha. by rewrite Ha in Hhas.
Qed.
End YieldQueue.

(** ** Witnesses *)

Definition demo_dispatcher : @StoredDispatcher Z Z :=
  {| isStale := Some (fun e => if e <? 0 then Ok true else Ok false);
     groupKey := Some (fun e => [e / 10]);
     build := fun es => Ok (Some (fold_left Z.add es 0)) |}.
Definition demo_host : @Host Z :=
  {| isStreaming := false; injectStreamingThrows := fun _ => false;
     injectIdleThrows := fun _ => false; scheduleThrows := false |}.
Definition demo_ops : list (@YOp Z Z) :=
  [YRegister (u "async") demo_dispatcher; YEnqueue (u "async") 11; YEnqueue (u "async") (-1);
   YEnqueue (u "async") 12; YEnqueue (u "async") 25].
Definition demo_yqueue : @YQueue Z Z := run (ystep demo_host) demo_ops new_YieldQueue.

Lemma flush_delivers_witness :
  built (u "async") (trace (flush demo_host idle demo_yqueue)) = [11; 12; 25].
Proof.
  destruct (flush_delivers demo_host idle demo_yqueue (u "async") 0 demo_dispatcher) as [_ H];
    [apply NoDup_singleton|reflexivity|rewrite H; reflexivity].
Defined.

Lemma never_stranded_witness : idleFlushPending demo_yqueue = true.
Proof.
  destruct (never_stranded demo_host demo_ops eq_refl eq_refl) as [_ H].
  apply (H (u "async")). vm_compute. reflexivity.
Defined.
