(* ===== verification/Harness.v ===== *)
(** The decisions of the harness control plane
    (src/gajae-code/packages/coding-agent/src/harness-control-plane/): the lifecycle
    state machine and the permitted actions (state-machine.ts), the recovery classifier
    (classifier.ts), the reconciliation of a session whose owner died
    (lifecycle-reconciliation.ts) and the review verdict reader (types.ts).

    String unions become inductive types; the strings the code builds (reasons, blockers)
    are kept as strings.  [persist] is a callback of the caller: the states it was given are
    recorded, and whether it throws is part of the environment. *)
From S2P Require Import Prelude.
#[local] Open Scope Z_scope.
#[local] Open Scope js_scope.

(** * Vocabulary (types.ts) *)

Inductive HarnessLifecycle :=
| L_new | L_started | L_submitted | L_observing | L_recovering | L_validating | L_finalizing
| L_completed | L_blocked | L_retired.
#[export] Instance lifecycle_eq_dec : EqDecision HarnessLifecycle.
Proof. solve_decision. Defined.

Definition all_lifecycles : list HarnessLifecycle :=
  [L_new; L_started; L_submitted; L_observing; L_recovering; L_validating; L_finalizing;
   L_completed; L_blocked; L_retired].

Definition lifecycle_str (l : HarnessLifecycle) : jstr :=
  match l with
  | L_new => u "new" | L_started => u "started" | L_submitted => u "submitted"
  | L_observing => u "observing" | L_recovering => u "recovering"
  | L_validating => u "validating" | L_finalizing => u "finalizing"
  | L_completed => u "completed" | L_blocked => u "blocked" | L_retired => u "retired"
  end.

Inductive Severity := S_info | S_warn | S_critical.
Inductive GitDelta := G_clean | G_dirty | G_zero_delta | G_unknown.
Inductive RiskKind := R_normal | R_prompt_not_accepted | R_deleted_worktree | R_vanished_dirty.
Inductive RecoveryClassification :=
| C_continue | C_send_enter | C_reinject_prompt | C_restart_clean | C_restart_preserve_delta
| C_fallback_codex_exec | C_human_check.
Inductive ReceiptFamily :=
| F_vanish | F_prompt_acceptance | F_validation | F_completion | F_review_verdict
| F_review_failure | F_phase_rollup.
Inductive HarnessVerb :=
| V_start | V_submit | V_observe | V_classify | V_recover | V_validate | V_finalize | V_retire
| V_events | V_monitor | V_operate.
#[export] Instance verb_eq_dec : EqDecision HarnessVerb.
Proof. solve_decision. Defined.
Inductive Harness := H_gajae_code | H_codex | H_omx.

Definition delta_str (d : GitDelta) : jstr :=
  match d with
  | G_clean => u "clean" | G_dirty => u "dirty" | G_zero_delta => u "zero-delta"
  | G_unknown => u "unknown"
  end.

Record NextAllowedAction := mkAction { verb : HarnessVerb; available : bool; reason : option jstr }.

Record SessionStateView := {
  view_sessionId : jstr;
  view_lifecycle : HarnessLifecycle;
  view_harness : Harness;
  view_ownerLive : bool;
  view_blockers : list jstr }.

(** The handle of the session record is carried, never read, by this component. *)
Record SessionState {Handle : Type} := mkSessionState {
  schemaVersion : Z;
  sessionId : jstr;
  lifecycle : HarnessLifecycle;
  harness : Harness;
  handle : Handle;
  retries : list (jstr * Z);
  blockers : list jstr;
  createdAt : jstr;
  updatedAt : jstr }.
Arguments SessionState : clear implicits.

Record Observation := {
  obs_lifecycle : HarnessLifecycle;
  ownerLive : bool;
  cwd : jstr;
  branch : option jstr;
  gitDelta : GitDelta;
  lastActivityAt : option jstr;
  observedSignals : list jstr;
  risk : RiskKind;
  rpcLive : option bool;
  rpcLastFrameAt : option jstr;
  readyForSubmit : option bool;
  obs_submitUnavailableReason : option jstr }.

Record RetryBudget := {
  reinjectPrompt : Z;
  zeroDeltaVanish : Z;
  dirtyVanishPreserve : Z;
  validationRepair : Z }.
Definition DEFAULT_RETRY_BUDGET : RetryBudget := Build_RetryBudget 2 1 1 2.

Record RecoveryDecision := mkDecision {
  classification : RecoveryClassification;
  why : jstr;
  severity : Severity;
  ownerRequired : bool;
  requiredReceiptFamily : option ReceiptFamily }.

(** [Array.prototype.includes] on an array of strings. *)
Definition has_str (x : jstr) (l : list jstr) : bool := bool_decide (x ∈ l).

(** * The lifecycle state machine *)

Definition isTerminal (l : HarnessLifecycle) : bool :=
  bool_decide (l ∈ [L_completed; L_retired]).
Definition SUBMIT_READY_LIFECYCLES : list HarnessLifecycle := [L_started; L_observing].

Definition TRANSITIONS (l : HarnessLifecycle) : list HarnessLifecycle :=
  match l with
  | L_new => [L_started; L_blocked; L_retired]
  | L_started => [L_submitted; L_observing; L_recovering; L_blocked; L_retired]
  | L_submitted => [L_observing; L_recovering; L_validating; L_blocked; L_retired]
  | L_observing => [L_submitted; L_recovering; L_validating; L_finalizing; L_blocked; L_retired]
  | L_recovering => [L_started; L_submitted; L_observing; L_blocked; L_retired]
  | L_validating => [L_finalizing; L_observing; L_blocked; L_retired]
  | L_finalizing => [L_completed; L_blocked; L_retired]
  | L_completed => [L_retired]
  | L_blocked => [L_started; L_submitted; L_observing; L_recovering; L_validating; L_retired]
  | L_retired => []
  end.

Definition canTransition (from to : HarnessLifecycle) : bool :=
  bool_decide (to ∈ TRANSITIONS from).

Definition assertTransition (from to : HarnessLifecycle) : result jstr unit :=
  if bool_decide (from = to) then Ok tt
  else if canTransition from to then Ok tt
  else Err (u "invalid_transition:" ++ lifecycle_str from ++ u "->" ++ lifecycle_str to).

Definition submitUnavailableReason (l : HarnessLifecycle) (live : bool) (gateReason : option jstr) :
    option jstr :=
  if isTerminal l then Some (u "lifecycle-terminal:" ++ lifecycle_str l)
  else if bool_decide (l = L_blocked) then Some (u "lifecycle-blocked")
  else if negb (bool_decide (l ∈ SUBMIT_READY_LIFECYCLES))
       then Some (u "lifecycle-not-idle:" ++ lifecycle_str l)
  else if negb live then Some (u "owner-not-live")
  else gateReason.

Definition add_action (v : HarnessVerb) (av : bool) (r : option jstr) : NextAllowedAction :=
  if av then mkAction v true None else mkAction v false (Some (default (u "unavailable") r)).

Definition nextAllowedActions (l : HarnessLifecycle) (live : bool) (gate : option jstr) :
    list NextAllowedAction :=
  let terminal := isTerminal l in
  let terminal_reason :=
    if terminal then Some (u "lifecycle-terminal:" ++ lifecycle_str l) else None in
  let submitReason := submitUnavailableReason l live gate in
  [ add_action V_observe true None;
    add_action V_classify true None;
    add_action V_events true None;
    add_action V_monitor true None;
    add_action V_start false (Some (u "session-already-exists"));
    add_action V_submit (bool_decide (submitReason = None)) submitReason;
    add_action V_recover (negb terminal) terminal_reason;
    add_action V_validate (negb terminal) terminal_reason;
    add_action V_finalize (negb terminal) terminal_reason;
    add_action V_retire (negb (bool_decide (l = L_retired)))
      (if bool_decide (l = L_retired) then Some (u "already-retired") else None) ].

Section Sessions.
Context {Handle : Type}.
#[local] Abbreviation SState := (SessionState Handle).

Definition buildStateView (s : SState) (live : bool) : SessionStateView :=
  {| view_sessionId := sessionId s; view_lifecycle := lifecycle s; view_harness := harness s;
     view_ownerLive := live; view_blockers := blockers s |}.

(** [buildResponse]: the universal response; the evidence is the caller's. *)
Record PrimitiveResponse {E : Type} := mkResponse {
  ok : bool;
  state : SessionStateView;
  evidence : E;
  resp_actions : list NextAllowedAction }.
Arguments PrimitiveResponse : clear implicits.

Definition buildResponse {E} (s : SState) (live : bool) (ev : E) (ok : bool) : PrimitiveResponse E :=
  {| ok := ok; state := buildStateView s live; evidence := ev;
     resp_actions := nextAllowedActions (lifecycle s) live None |}.

(** * Recovery *)

Definition classifyRecovery (o : Observation) (budget : RetryBudget) : RecoveryDecision :=
  match risk o with
  | R_deleted_worktree =>
      mkDecision C_human_check (u "deleted-worktree-or-path-mismatch") S_critical false (Some F_vanish)
  | rk =>
      if ownerLive o then
        if match rk with R_prompt_not_accepted => true | _ => false end then
          if 0 <? reinjectPrompt budget then
            mkDecision C_reinject_prompt (u "prompt-ack-without-agent-start") S_warn true
              (Some F_prompt_acceptance)
          else
            mkDecision C_human_check (u "prompt-not-accepted-budget-exhausted") S_critical false None
        else if has_str (u "validation-failed") (observedSignals o) then
          if 0 <? validationRepair budget then
            mkDecision C_continue (u "validation-failed-repair-budget-remains") S_warn true
              (Some F_validation)
          else
            mkDecision C_human_check (u "validation-failed-budget-exhausted") S_critical false
              (Some F_validation)
        else mkDecision C_continue (u "owner-live-active") S_info true None
      else
        match gitDelta o with
        | G_dirty =>
            if 0 <? dirtyVanishPreserve budget then
              mkDecision C_restart_preserve_delta (u "owner-vanished-dirty-delta") S_critical true
                (Some F_vanish)
            else
              mkDecision C_fallback_codex_exec (u "dirty-vanish-preserve-budget-exhausted")
                S_critical true (Some F_vanish)
        | G_zero_delta =>
            if 0 <? zeroDeltaVanish budget then
              mkDecision C_restart_clean (u "owner-vanished-zero-delta") S_warn true (Some F_vanish)
            else
              mkDecision C_fallback_codex_exec (u "zero-delta-vanish-budget-exhausted") S_critical
                true (Some F_vanish)
        | G_clean =>
            mkDecision C_restart_clean (u "owner-vanished-clean") S_warn true (Some F_vanish)
        | G_unknown =>
            mkDecision C_human_check (u "owner-vanished-unknown-delta") S_critical false
              (Some F_vanish)
        end
  end.

(** * Reconciliation of a session whose owner died *)

Definition OWNER_STARTUP_BLOCKER : jstr := u "owner-died-before-first-prompt".

Record CompletedTerminalEvent := { cursor : Z; event_createdAt : jstr; kind : jstr }.

Definition isOwnerLivenessBlocker (b : jstr) : bool :=
  (b ==s "detached-owner-not-live") || starts_with b (u "owner-vanished:").

Definition needsVanishedOwnerBlock (s : SState) (o : Observation)
    (completedTerminal : option CompletedTerminalEvent) : bool :=
  if ownerLive o || negb (bool_decide (lifecycle s = L_observing)) then false
  else if bool_decide (is_Some completedTerminal) || has_str (u "completed") (observedSignals o)
  then false
  else existsb (fun signal => (signal ==s "prompt-accepted") || (signal ==s "tool-call")
                              || (signal ==s "streaming")) (observedSignals o).

(** The mutable session object and the states handed to [persist]. *)
Record RState := mkRState { current : SState; persisted : list SState }.

Definition with_lifecycle (l : HarnessLifecycle) (bs : list jstr) (at_ : jstr) (s : SState) : SState :=
  mkSessionState Handle (schemaVersion s) (sessionId s) l (harness s) (handle s) (retries s) bs
    (createdAt s) at_.

Definition add_blocker (b : jstr) (bs : list jstr) : list jstr :=
  if has_str b bs then bs else bs ++ [b].

Section Reconcile.
Context {PErr : Type}.
Context (persistFails : SState -> option PErr) (nowIso : nat -> jstr).

(** [state.lifecycle = l; state.blockers = bs; state.updatedAt = nowIso(); await persist(state)] *)
Definition settle (l : HarnessLifecycle) (f : list jstr -> list jstr) : SM RState PErr unit :=
  r ← get_state;
  let s := with_lifecycle l (f (blockers (current r))) (nowIso (length (persisted r))) (current r) in
  modify (fun r => mkRState s (persisted r ++ [s])) ;;
  match persistFails s with Some e => throw e | None => mret tt end.

Definition not_terminal (s : SState) : bool :=
  negb (bool_decide (lifecycle s = L_completed)) && negb (bool_decide (lifecycle s = L_retired)).

Definition reconcileOwnerLifecycle (o : Observation)
    (completedTerminal : option CompletedTerminalEvent) (startupBlocked : bool) :
    SM RState PErr SState :=
  r ← get_state;
  (if bool_decide (is_Some completedTerminal) && negb (ownerLive o)
      && match gitDelta o with G_clean => true | _ => false end
      && not_terminal (current r)
   then settle L_completed (List.filter (fun b => negb (isOwnerLivenessBlocker b)))
   else mret tt) ;;
  r ← get_state;
  (if needsVanishedOwnerBlock (current r) o completedTerminal
   then settle L_blocked (add_blocker (u "owner-vanished:" ++ delta_str (gitDelta o)))
   else mret tt) ;;
  r ← get_state;
  (if startupBlocked && not_terminal (current r)
   then settle L_blocked (add_blocker OWNER_STARTUP_BLOCKER)
   else mret tt) ;;
  r ← get_state;
  mret (current r).
End Reconcile.
End Sessions.

(** * Review verdicts (types.ts) *)

Inductive ReviewVerdict := APPROVE_MERGE_READY | REQUEST_CHANGES | OWNER_CONFIRMATION_REQUIRED.

Definition REVIEW_VERDICTS : list (jstr * ReviewVerdict) :=
  [(u "APPROVE_MERGE_READY", APPROVE_MERGE_READY); (u "REQUEST_CHANGES", REQUEST_CHANGES);
   (u "OWNER_CONFIRMATION_REQUIRED", OWNER_CONFIRMATION_REQUIRED)].
Definition VERDICT_ALIASES : list (jstr * ReviewVerdict) :=
  [(u "MERGE_READY", APPROVE_MERGE_READY)].
Definition verdict_tokens : list (jstr * ReviewVerdict) := REVIEW_VERDICTS ++ VERDICT_ALIASES.

Definition word_opt (c : option jchar) : bool := match c with Some c => is_word c | None => false end.

(** The pattern [\b(t1|...|tn)\b] at the head of [s]; [prev]: a word character precedes. *)
Fixpoint match_token (prev : bool) (s : jstr) (ts : list (jstr * ReviewVerdict)) :
    option (jstr * ReviewVerdict) :=
  match ts with
  | [] => None
  | (t, v) :: ts' =>
      if xorb prev (word_opt (head s)) && starts_with s t
         && xorb (word_opt (last t)) (word_opt (head (drop (length t) s)))
      then Some (t, v) else match_token prev s ts'
  end.

(** [matchAll]: leftmost matches that do not overlap; [skip] units belong to the last one. *)
Fixpoint scan_verdict (s : jstr) (prev : bool) (skip : nat) (found : option ReviewVerdict) :
    option ReviewVerdict :=
  match s with
  | [] => found
  | c :: s' =>
      match skip with
      | S k => scan_verdict s' (is_word c) k found
      | O => match match_token prev s verdict_tokens with
             | Some (t, v) => scan_verdict s' (is_word c) (length t - 1) (Some v)
             | None => scan_verdict s' (is_word c) O found
             end
      end
  end.

Definition extractReviewVerdict (text : option jstr) : option ReviewVerdict :=
  match text with None => None | Some s => scan_verdict s false 0 None end.

(** * Lemmas and properties *)

(** ** Lifecycles *)

(** A run of the machine: consecutive states pass [assertTransition]. *)
Inductive lifecycle_run : HarnessLifecycle -> list HarnessLifecycle -> HarnessLifecycle -> Prop :=
| run_here l : lifecycle_run l [] l
| run_step l l' ls l'' : assertTransition l l' = Ok tt -> lifecycle_run l' ls l'' ->
    lifecycle_run l (l' :: ls) l''.

Lemma assertTransition_ok from to :
  assertTransition from to = Ok tt <-> from = to \/ canTransition from to = true.
Proof.
  unfold assertTransition. case_bool_decide; [naive_solver|].
  destruct (canTransition from to); naive_solver.
Qed.

Lemma completed_via_finalizing l ls l' :
  lifecycle_run l ls l' -> l' = L_completed -> l <> L_completed -> l <> L_finalizing ->
  L_finalizing ∈ ls.
Proof.
  induction 1 as [l|l l1 ls l2 Ha _ IH]; intros He Hc Hf; [done|].
  apply assertTransition_ok in Ha. destruct (decide (l1 = L_finalizing)) as [->|Hn].
  { apply list_elem_of_here. }
  apply list_elem_of_further. destruct Ha as [<-|Ha]; [by apply IH|]. apply IH; [done| |done].
  intros ->. by destruct l.
Qed.

Lemma retired_absorbing l ls l' : lifecycle_run l ls l' -> l = L_retired -> l' = L_retired.
Proof.
  induction 1 as [|l l1 ls l2 Ha _ IH]; [done|]. intros ->. apply IH.
  apply assertTransition_ok in Ha as [<-|Ha]; [done|]. vm_compute in Ha. done.
Qed.

Lemma completed_only_retires l ls l' :
  lifecycle_run l ls l' -> l = L_completed -> l' = L_completed \/ l' = L_retired.
Proof.
  induction 1 as [|l l1 ls l2 Ha Hr IH]; [auto|]. intros ->.
  apply assertTransition_ok in Ha as [<-|Ha]; [by apply IH|]. right.
  eapply retired_absorbing; [exact Hr|]. by destruct l1.
Qed.

(** The lifecycle machine: a run of accepted transitions never leaves [retired], leaves
    [completed] only to [retired], enters [completed] only through [finalizing], and every
    session that is not retired may be retired at once. *)
Theorem lifecycle_machine l ls l' :
  lifecycle_run l ls l' ->
  (l = L_retired -> l' = L_retired) /\
  (l = L_completed -> l' = L_completed \/ l' = L_retired) /\
  (l' = L_completed -> l <> L_completed -> l <> L_finalizing -> L_finalizing ∈ ls) /\
  (l' <> L_retired -> canTransition l' L_retired = true).
Proof.
  intros H. split_and!.
  - by eapply retired_absorbing.
  - by eapply completed_only_retires.
  - by eapply completed_via_finalizing.
  - by destruct l'.
Qed.

(** ** Permitted actions *)

Definition allowed (v : HarnessVerb) (acts : list NextAllowedAction) : Prop :=
  exists a, a ∈ acts /\ verb a = v /\ available a = true.

Lemma add_action_verb v av r : verb (add_action v av r) = v.
Proof. by destruct av. Qed.

Lemma add_action_available v av r : available (add_action v av r) = av.
Proof. by destruct av. Qed.

Lemma allowed_cons v a acts :
  allowed v (a :: acts) <-> (verb a = v /\ available a = true) \/ allowed v acts.
Proof. unfold allowed. setoid_rewrite elem_of_cons. naive_solver. Qed.

Lemma allowed_nil v : ~ allowed v [].
Proof. by intros (a & Ha%not_elem_of_nil & _). Qed.

Lemma submit_reason_none l live gate :
  submitUnavailableReason l live gate = None <->
  live = true /\ (l = L_started \/ l = L_observing) /\ gate = None.
Proof.
  destruct l, live; unfold submitUnavailableReason; simpl;
    (split; [intros H|intros (H1 & [H2|H2] & H3)]); simplify_eq; auto.
Qed.

(** The permitted actions are honest: each verb is listed once, a refused verb has a
    reason and a permitted one has none; [submit] is permitted exactly for a live owner, a
    started or observing session and an open gate, where the machine accepts the move to
    [submitted]; [retire] exactly where the machine accepts it; [recover], [validate] and
    [finalize] exactly on sessions that are not terminal. *)
Theorem allowed_actions_honest l live gate :
  let acts := nextAllowedActions l live gate in
  NoDup (map verb acts) /\
  Forall (fun a => available a = true <-> reason a = None) acts /\
  (allowed V_submit acts <->
     live = true /\ (l = L_started \/ l = L_observing) /\ gate = None) /\
  (allowed V_submit acts -> canTransition l L_submitted = true) /\
  (allowed V_retire acts <-> canTransition l L_retired = true) /\
  (forall v, v ∈ [V_recover; V_validate; V_finalize] ->
     (allowed v acts <-> isTerminal l = false)).
Proof.
  intros acts.
  assert (Hsub : allowed V_submit acts <-> submitUnavailableReason l live gate = None).
  { unfold acts, nextAllowedActions. rewrite !allowed_cons, !add_action_verb, !add_action_available.
    pose proof (allowed_nil V_submit). rewrite bool_decide_eq_true. naive_solver. }
  split_and!.
  - unfold acts, nextAllowedActions. cbn [map]. rewrite !add_action_verb.
    refine (bool_decide_unpack (NoDup _) _). by vm_compute.
  - unfold acts, nextAllowedActions, add_action.
    repeat constructor; simpl; repeat case_match; simpl; naive_solver.
  - by rewrite Hsub, submit_reason_none.
  - rewrite Hsub, submit_reason_none. by intros (_ & [-> | ->] & _).
  - unfold acts, nextAllowedActions. rewrite !allowed_cons, !add_action_verb, !add_action_available.
    replace (canTransition l L_retired) with (negb (bool_decide (l = L_retired)))
      by by destruct l.
    pose proof (allowed_nil V_retire). naive_solver.
  - intros v Hv. unfold acts, nextAllowedActions.
    rewrite !allowed_cons, !add_action_verb, !add_action_available.
    pose proof (allowed_nil v). rewrite !elem_of_cons in Hv.
    destruct Hv as [->|[->|[->|[]%not_elem_of_nil]]]; destruct (isTerminal l); naive_solver.
Qed.

(** ** Recovery *)

(** The recovery classifier never loses data: a clean restart is decided only for a
    vanished owner with a clean or zero delta; a dirty delta of a vanished owner is preserved
    or handed to the fallback, an unknown one and a deleted worktree go to a human; no key is
    ever injected; every decision on a vanished owner needs a vanish receipt; a decision that
    spends a retry budget is taken only while that budget is positive. *)
Theorem classify_no_data_loss o b :
  let d := classifyRecovery o b in
  (classification d = C_restart_clean ->
     ownerLive o = false /\ (gitDelta o = G_clean \/ gitDelta o = G_zero_delta)) /\
  (ownerLive o = false -> gitDelta o = G_dirty -> risk o <> R_deleted_worktree ->
     classification d = C_restart_preserve_delta \/ classification d = C_fallback_codex_exec) /\
  (ownerLive o = false -> gitDelta o = G_unknown -> classification d = C_human_check) /\
  (risk o = R_deleted_worktree -> classification d = C_human_check) /\
  classification d <> C_send_enter /\
  (ownerLive o = false -> requiredReceiptFamily d = Some F_vanish) /\
  (classification d = C_human_check -> ownerRequired d = false) /\
  (classification d = C_reinject_prompt -> 0 < reinjectPrompt b) /\
  (classification d = C_restart_preserve_delta -> 0 < dirtyVanishPreserve b) /\
  (classification d = C_restart_clean -> gitDelta o = G_zero_delta -> 0 < zeroDeltaVanish b).
Proof.
  intros d. unfold d, classifyRecovery.
  destruct (risk o), (ownerLive o), (gitDelta o); simpl;
    repeat (case_match; simpl); split_and!; intros; simplify_eq; auto; lia.
Qed.

(** ** Reconciliation *)

Section ReconcileProofs.
Context {Handle PErr : Type}.
#[local] Abbreviation SState := (SessionState Handle).
Context (persistFails : SState -> option PErr) (nowIso : nat -> jstr).
#[local] Abbreviation reconcile := (reconcileOwnerLifecycle persistFails nowIso).

(** The evidence that the owner of an observing session vanished at work. *)
Definition vanished (o : Observation) (ct : option CompletedTerminalEvent) : bool :=
  negb (ownerLive o) && negb (bool_decide (is_Some ct) || has_str (u "completed") (observedSignals o))
  && existsb (fun signal => (signal ==s "prompt-accepted") || (signal ==s "tool-call")
                            || (signal ==s "streaming")) (observedSignals o).

Definition completes (o : Observation) (ct : option CompletedTerminalEvent) : bool :=
  bool_decide (is_Some ct) && negb (ownerLive o)
  && match gitDelta o with G_clean => true | _ => false end.

(** The lifecycle and the blockers a reconciliation settles on. *)
Definition settled (o : Observation) (ct : option CompletedTerminalEvent) (startup : bool)
    (v : HarnessLifecycle * list jstr) : HarnessLifecycle * list jstr :=
  let (l, bs) := v in
  if completes o ct && negb (isTerminal l)
  then (L_completed, List.filter (fun b => negb (isOwnerLivenessBlocker b)) bs)
  else
    let (l, bs) :=
      if bool_decide (l = L_observing) && vanished o ct
      then (L_blocked, add_blocker (u "owner-vanished:" ++ delta_str (gitDelta o)) bs)
      else (l, bs) in
    if startup && negb (isTerminal l) then (L_blocked, add_blocker OWNER_STARTUP_BLOCKER bs)
    else (l, bs).

Definition view (s : SState) : HarnessLifecycle * list jstr := (lifecycle s, blockers s).

(** What was persisted is what the session object holds. *)
Definition in_sync (s0 : SState) (r : RState) : Prop :=
  (persisted r = [] /\ current r = s0) \/ last (persisted r) = Some (current r).

Lemma settle_in_sync s0 l f : keeps (in_sync s0) (settle persistFails nowIso l f).
Proof.
  intros r _. unfold settle, mbind, sm_bind, get_state, modify. simpl. case_match; right; simpl; by rewrite last_snoc.
Qed.
#[local] Hint Resolve settle_in_sync : keeps.

Lemma reconcile_in_sync s0 o ct b : keeps (in_sync s0) (reconcile o ct b).
Proof. unfold reconcileOwnerLifecycle. solve_keeps. Qed.

Lemma settle_runs l f r :
  (forall s, persistFails s = None) ->
  exists r', settle persistFails nowIso l f r = (r', Ok tt) /\
    view (current r') = (l, f (blockers (current r))).
Proof. intros Hp. unfold settle, mbind, sm_bind, get_state, modify. rewrite Hp. by eexists. Qed.

Lemma not_terminal_view (s : SState) : not_terminal s = negb (isTerminal (lifecycle s)).
Proof. by destruct s as [? ? [] ? ? ? ? ? ?]. Qed.

Lemma needs_vanished (s : SState) o ct :
  needsVanishedOwnerBlock s o ct = bool_decide (lifecycle s = L_observing) && vanished o ct.
Proof.
  unfold needsVanishedOwnerBlock, vanished.
  destruct (ownerLive o), (bool_decide (lifecycle s = L_observing)),
    (bool_decide (is_Some ct) || has_str (u "completed") (observedSignals o)); done.
Qed.

Lemma reconcile_settled o ct b r :
  (forall s, persistFails s = None) ->
  exists r', reconcile o ct b r = (r', Ok (current r')) /\
    view (current r') = settled o ct b (view (current r)).
Proof.
  intros Hp. unfold reconcileOwnerLifecycle, settled, view, mbind, sm_bind, get_state, mret, sm_ret.
  rewrite not_terminal_view. fold (completes o ct). destruct (completes o ct && _).
  - destruct (settle_runs L_completed (List.filter (fun b => negb (isOwnerLivenessBlocker b))) r Hp)
      as (r1 & -> & [= Hl Hb]).
    rewrite needs_vanished, Hl. rewrite bool_decide_eq_false_2 by done. cbn [andb].
    rewrite not_terminal_view, Hl, andb_false_r.
    eexists. split; [done|]. by rewrite Hl, Hb.
  - rewrite needs_vanished. destruct (bool_decide (lifecycle (current r) = L_observing) && _).
    + destruct (settle_runs L_blocked
        (add_blocker (u "owner-vanished:" ++ delta_str (gitDelta o))) r Hp) as (r1 & -> & [= Hl Hb]).
      rewrite not_terminal_view, Hl. destruct b; simpl.
      * destruct (settle_runs L_blocked (add_blocker OWNER_STARTUP_BLOCKER) r1 Hp)
          as (r2 & -> & [= Hl2 Hb2]).
        eexists. split; [done|]. by rewrite Hl2, Hb2, Hb.
      * eexists. split; [done|]. by rewrite Hl, Hb.
    + rewrite not_terminal_view. destruct (b && _).
      * destruct (settle_runs L_blocked (add_blocker OWNER_STARTUP_BLOCKER) r Hp)
          as (r2 & -> & [= Hl2 Hb2]).
        eexists. split; [done|]. by rewrite Hl2, Hb2.
      * by eexists.
Qed.

Lemma has_added b bs : has_str b (add_blocker b bs) = true.
Proof.
  apply bool_decide_eq_true_2. unfold add_blocker, has_str.
  destruct (bool_decide_reflect (b ∈ bs)); set_solver.
Qed.

Lemma add_blocker_idem b bs : add_blocker b (add_blocker b bs) = add_blocker b bs.
Proof. unfold add_blocker at 1. by rewrite has_added. Qed.

(** Settling a settled session changes nothing. *)
Lemma settled_idem o ct b v : settled o ct b (settled o ct b v) = settled o ct b v.
Proof.
  destruct v as [l bs]. unfold settled.
  destruct l, (completes o ct), (vanished o ct), b; simpl; by rewrite ?add_blocker_idem.
Qed.

(** Reconciling a session whose owner died: when persisting succeeds it returns the session
    object with the settled lifecycle and blockers (completed on a clean terminal event, blocked
    by a vanished owner or a failed start), reconciling again changes neither, and a completed or
    retired session is left alone; whether or not persisting throws, the last state persisted is
    the session object, which is untouched when nothing was persisted. *)
Theorem reconcile_spec o ct b s0 :
  in_sync s0 (fst (reconcile o ct b (mkRState s0 []))) /\
    ((forall s, persistFails s = None) ->
   exists r, reconcile o ct b (mkRState s0 []) = (r, Ok (current r)) /\
     view (current r) = settled o ct b (view s0) /\
    (exists r2, reconcile o ct b r = (r2, Ok (current r2)) /\ view (current r2) = view (current r)) /\
    (isTerminal (lifecycle s0) = true -> view (current r) = view s0)).
Proof.
  split.
  - apply reconcile_in_sync. by left.
  - intros Hp. destruct (reconcile_settled o ct b (mkRState s0 []) Hp) as (r & Hr & Hv).
    exists r. split_and!; [done|done| |].
    + destruct (reconcile_settled o ct b r Hp) as (r2 & H2 & Hv2). exists r2.
      split; [done|]. by rewrite Hv2, Hv, settled_idem.
    + intros Ht. rewrite Hv. simpl. unfold settled, view.
      destruct (lifecycle s0); try done; simpl; by rewrite !andb_false_r.
Qed.
End ReconcileProofs.

(** ** Verdicts *)

(** The words of a text: the maximal runs of word characters; [prev] as above. *)
Fixpoint words (prev : bool) (s : jstr) : list jstr :=
  match s with
  | [] => []
  | c :: s' => if is_word c && negb prev then take_while is_word s :: words true s'
               else words (is_word c) s'
  end.

Fixpoint token_verdict (w : jstr) (ts : list (jstr * ReviewVerdict)) : option (jstr * ReviewVerdict) :=
  match ts with
  | [] => None
  | (t, v) :: ts' => if bool_decide (w = t) then Some (t, v) else token_verdict w ts'
  end.

Definition verdict_of (w : jstr) : option ReviewVerdict := snd <$> token_verdict w verdict_tokens.
Definition or_last (found : option ReviewVerdict) (vs : list ReviewVerdict) :=
  match last vs with Some v => Some v | None => found end.

Definition word_token (tv : jstr * ReviewVerdict) : Prop :=
  tv.1 <> [] /\ Forall (fun c => is_word c = true) tv.1.

Lemma tokens_are_words : Forall word_token verdict_tokens.
Proof. repeat constructor; vm_compute; done. Qed.

Lemma last_word_char t : t <> [] -> Forall (fun c => is_word c = true) t -> word_opt (last t) = true.
Proof.
  intros Hne Ha. destruct t as [|c t _] using rev_ind; [done|]. rewrite last_snoc.
  by apply Forall_app in Ha as [_ [Hc _]%Forall_cons].
Qed.

(** A token with boundaries on both sides is the maximal word at that place. *)
Lemma token_at_word s t :
  t <> [] -> Forall (fun c => is_word c = true) t ->
  starts_with s t && xorb (word_opt (last t)) (word_opt (head (drop (length t) s)))
  = bool_decide (take_while is_word s = t).
Proof.
  intros Hne Ha. rewrite last_word_char by done. apply eq_bool_prop_intro.
  rewrite bool_decide_spec, andb_True. split.
  - intros [Hs Hb]. apply Is_true_true, starts_with_spec in Hs as [r ->].
    rewrite drop_app_length in Hb. destruct r as [|c r]; simpl in Hb.
    + rewrite app_nil_r. by apply take_while_full.
    + apply take_while_app; [done|]. by destruct (is_word c).
  - intros <-. rewrite <- (take_drop_while is_word s) at 1 4. split.
    + apply Is_true_true, starts_with_spec. eauto.
    + rewrite drop_app_length. destruct (drop_while is_word s) as [|c r] eqn:E; [done|].
      apply drop_while_head in E. simpl. by rewrite E.
Qed.

Lemma match_token_word c s prev ts :
  Forall word_token ts ->
  match_token prev (c :: s) ts
  = if is_word c && negb prev then token_verdict (take_while is_word (c :: s)) ts else None.
Proof.
  induction 1 as [|[t v] ts [Hne Ha] _ IH]; [by destruct (is_word c && negb prev)|].
  cbn [match_token token_verdict]. rewrite IH, <- token_at_word by done. simpl in *.
  destruct t as [|d t]; [done|]. apply Forall_cons in Ha as [Hd _].
  destruct (is_word c) eqn:Ec, prev; simpl; try done.
  cbn [starts_with]. destruct (Z.eqb_spec d c) as [->|]; [congruence|done].
Qed.

Lemma or_last_cons found v vs : or_last found (v :: vs) = or_last (Some v) vs.
Proof. unfold or_last. destruct vs as [|v' vs]; [done|]. by rewrite (last_cons_cons v v' vs); destruct (last _) eqn:E; [|by apply last_None in E]. Qed.

Lemma token_verdict_self w ts tv : token_verdict w ts = Some tv -> tv.1 = w.
Proof.
  induction ts as [|[t v] ts IH]; [done|]. simpl. case_bool_decide; [|done]. by intros [= <-].
Qed.

Lemma words_inside s k :
  (k <= length (take_while is_word s))%nat -> words true s = words true (drop k s).
Proof.
  revert s. induction k as [|k IH]; intros s Hk; [done|].
  destruct s as [|c s]; [done|]. simpl in *. destruct (is_word c) eqn:Ec; simpl in *; [|lia].
  apply IH. lia.
Qed.

Lemma scan_verdict_spec s prev skip found :
  (skip <= length (take_while is_word s))%nat -> (skip <> O -> prev = true) ->
  scan_verdict s prev skip found = or_last found (omap verdict_of (words prev s)).
Proof.
  revert prev skip found. induction s as [|c s IH]; intros prev skip found Hk Hp; [done|].
  cbn [scan_verdict]. destruct skip as [|k].
  - rewrite match_token_word by apply tokens_are_words. cbn [words].
    destruct (is_word c && negb prev) eqn:Ew.
    + apply andb_true_iff in Ew as [Ec _]. cbn [omap list_omap].
      unfold verdict_of at 1. destruct (token_verdict _ _) as [[t v]|] eqn:Et; simpl.
      * rewrite or_last_cons, Ec. apply IH; [|done].
        apply token_verdict_self in Et. simpl in Et. subst t. simpl. rewrite Ec. simpl. lia.
      * rewrite Ec. apply IH; [lia|done].
    + apply IH; [lia|done].
  - rewrite Hp by done. simpl in Hk. destruct (is_word c) eqn:Ec; simpl in Hk; [|lia].
    cbn [words]. rewrite Ec. simpl. apply IH; [lia|done].
Qed.

(** The review verdict of a text is the one of its last word that is a verdict token or an
    alias; without such a word (or without text) there is none.  A token inside a longer word
    does not count. *)
Theorem verdict_is_last_word text :
  extractReviewVerdict text
  = match text with None => None | Some s => last (omap verdict_of (words false s)) end.
Proof.
  destruct text as [s|]; [|done]. unfold extractReviewVerdict.
  rewrite scan_verdict_spec by (done || lia). unfold or_last. by destruct (last _).
Qed.

(** * Witnesses *)

Lemma lifecycle_machine_witness :
  L_finalizing ∈ [L_submitted; L_validating; L_finalizing; L_completed].
Proof.
  destruct (lifecycle_machine L_started [L_submitted; L_validating; L_finalizing; L_completed]
              L_completed) as (_ & _ & H & _).
  - do 4 (eapply run_step; [vm_compute; reflexivity|]). apply run_here.
  - apply H; discriminate || reflexivity.
Defined.

Definition demo_session : SessionState unit :=
  mkSessionState unit 1 (u "h-1") L_observing H_gajae_code tt [] [] (u "t0") (u "t0").
Definition demo_observation : Observation :=
  {| obs_lifecycle := L_observing; ownerLive := false; cwd := u "/w"; branch := None;
     gitDelta := G_dirty; lastActivityAt := None; observedSignals := [u "tool-call"];
     risk := R_vanished_dirty; rpcLive := None; rpcLastFrameAt := None; readyForSubmit := None;
     obs_submitUnavailableReason := None |}.

Lemma reconcile_spec_witness :
  exists r, reconcileOwnerLifecycle (PErr := unit) (fun _ => None) (fun _ => u "t1")
      demo_observation None false (mkRState demo_session []) = (r, Ok (current r)) /\
    view (current r) = (L_blocked, [u "owner-vanished:dirty"]).
Proof.
  destruct (reconcile_spec (PErr := unit) (fun _ => None) (fun _ => u "t1") demo_observation None
              false demo_session) as [_ H].
  destruct (H (fun _ => eq_refl)) as (r & Hr & Hv & _). exists r. split; [exact Hr|].
  rewrite Hv. vm_compute. reflexivity.
Defined.
