(* ===== verification/Lease.v ===== *)
(** The session lease of the harness control plane
    (src/gajae-code/packages/coding-agent/src/harness-control-plane/session-lease.ts).

    The lease of one session is a file; the store holds its parsed record and the set of the
    session's socket files.  Every mutation runs under the file lock of config/file-lock.ts, so
    an operation is one step of the store; but [acquireLease] reads the file twice, and the
    model lets an arbitrary change happen between the two reads, as a lost lock would.  The
    process table ([process.kill(pid, 0)]) and the clock are parameters of an operation;
    timestamps are milliseconds (the code stores them as ISO strings and parses them back).
    The token hash (node:crypto), [path.resolve] and the control socket path are parameters.
    Failures of the file system itself are not modelled. *)
From S2P Require Import Prelude.
#[local] Open Scope Z_scope.

Inductive EndpointKind := unix_socket | fifo.
#[export] Instance endpoint_kind_eq_dec : EqDecision EndpointKind.
Proof. solve_decision. Defined.

Record SessionLease := mkLease {
  ownerId : jstr;
  sessionId : jstr;
  pid : Z;
  leaseTokenHash : jstr;
  endpoint : option (EndpointKind * jstr);
  eventsPath : jstr;
  heartbeatAt : Z;
  expiresAt : Z;
  leaseEpoch : Z;
  writer : jstr * Z }.

(** The codes of [LeaseError]. *)
Inductive LeaseError := lease_held | no_lease | not_lease_holder.

Inductive LeaseStatus := missing | live | expiredAlive | dead | epermAlive.
#[export] Instance status_eq_dec : EqDecision LeaseStatus.
Proof. solve_decision. Defined.
Inductive PidStatus := P_alive | P_dead | P_eperm.

(** What [process.kill(pid, 0)] answers. *)
Inductive KillAnswer := K_ok | K_ESRCH | K_EPERM | K_other.

Definition defaultPidStatusProbe (kill : Z -> KillAnswer) (p : Z) : PidStatus :=
  match kill p with K_ok => P_alive | K_ESRCH => P_dead | K_EPERM => P_eperm | K_other => P_dead end.

(** [probe?] is the injected probe, if any. *)
Definition isOwnerAlive (kill : Z -> KillAnswer) (p : Z) (probe : option (Z -> bool)) : bool :=
  match probe with
  | Some f => f p
  | None => match kill p with K_ok => true | K_EPERM => true | _ => false end
  end.

Definition isExpired (l : SessionLease) (now : Z) : bool := expiresAt l <=? now.

Definition isStale (kill : Z -> KillAnswer) (l : SessionLease) (now : Z)
    (probe : option (Z -> bool)) : bool :=
  isExpired l now || negb (isOwnerAlive kill (pid l) probe).

Definition classifyLeaseStatus (kill : Z -> KillAnswer) (l : option SessionLease) (now : Z)
    (probe : option (Z -> PidStatus)) : LeaseStatus :=
  match l with
  | None => missing
  | Some l =>
      match default (defaultPidStatusProbe kill) probe (pid l) with
      | P_dead => dead
      | P_eperm => epermAlive
      | P_alive => if isExpired l now then expiredAlive else live
      end
  end.

(** A probe that may answer with a boolean. *)
Definition classifyProbeFromBoolean (probe : option (Z -> bool + PidStatus)) :
    option (Z -> PidStatus) :=
  match probe with
  | None => None
  | Some f => Some (fun p =>
      match f p with inl true => P_alive | inl false => P_dead | inr st => st end)
  end.

Definition canWriteEvents (l : SessionLease) (o : jstr) (now : Z) : bool :=
  bool_decide (ownerId l = o) && negb (isExpired l now).

Section Lease.
(** The session, its paths and the library functions. *)
Context (session root controlSock : jstr).
Context (hashToken : jstr -> jstr) (resolve : jstr -> jstr).
(** [controlSocketPath(root, sessionId)]: [None] when it throws. *)
Context (controlSocketPath : option jstr).

Record Store := mkStore { lease_file : option SessionLease; sockets : gset jstr }.
#[local] Abbreviation M := (SM Store LeaseError).

Record AcquireOptions := {
  opt_ownerId : jstr;
  opt_pid : Z;
  opt_endpoint : option (EndpointKind * jstr);
  opt_eventsPath : jstr;
  ttlMs : Z;
  clock : Z;
  probe : option (Z -> bool + PidStatus) }.

Definition readLease : M (option SessionLease) := st ← get_state; mret (lease_file st).
Definition writeLeaseAtomic (l : SessionLease) : M unit :=
  modify (fun st => mkStore (Some l) (sockets st)).
Definition rm_lease : M unit := modify (fun st => mkStore None (sockets st)).
Definition rm_socket (p : jstr) : M unit :=
  modify (fun st => mkStore (lease_file st) (sockets st ∖ {[p]})).

(** The takeover guard: refuse unless the owner is dead and the record is unchanged. *)
Definition takeover_guard (kill : Z -> KillAnswer) (interfere : Store -> Store)
    (o : AcquireOptions) (existing : SessionLease) : M unit :=
  if bool_decide (classifyLeaseStatus kill (Some existing) (clock o)
                    (classifyProbeFromBoolean (probe o)) = dead) then
    modify interfere ;;
    reread ← readLease;
    match reread with
    | Some r => if bool_decide (ownerId r = ownerId existing)
                   && (leaseEpoch r =? leaseEpoch existing)
                then mret tt else throw lease_held
    | None => throw lease_held
    end
  else throw lease_held.

Definition acquireLease (kill : Z -> KillAnswer) (interfere : Store -> Store) (token : jstr)
    (o : AcquireOptions) : M (SessionLease * jstr) :=
  existing ← readLease;
  (match existing with
   | Some e => if bool_decide (ownerId e = opt_ownerId o) then mret tt
               else takeover_guard kill interfere o e
   | None => mret tt
   end) ;;
  let priorEpoch := match existing with Some e => leaseEpoch e | None => 0 end in
  let epoch := match existing with
               | Some e => if bool_decide (ownerId e = opt_ownerId o) then priorEpoch
                           else priorEpoch + 1
               | None => priorEpoch + 1
               end in
  let l := mkLease (opt_ownerId o) session (opt_pid o) (hashToken token) (opt_endpoint o)
             (opt_eventsPath o) (clock o) (clock o + ttlMs o) epoch (opt_ownerId o, epoch) in
  writeLeaseAtomic l ;;
  mret (l, token).

Definition heartbeat (o : jstr) (ttl now : Z) : M SessionLease :=
  existing ← readLease;
  match existing with
  | None => throw no_lease
  | Some l =>
      if bool_decide (ownerId l = o) then
        let next := mkLease (ownerId l) (sessionId l) (pid l) (leaseTokenHash l) (endpoint l)
                      (eventsPath l) now (now + ttl) (leaseEpoch l) (writer l) in
        writeLeaseAtomic next ;; mret next
      else throw not_lease_holder
  end.

Definition releaseLease (o : jstr) : M unit :=
  existing ← readLease;
  match existing with
  | None => mret tt
  | Some l => if bool_decide (ownerId l = o) then rm_lease else throw not_lease_holder
  end.

Definition isOwnedUnixEndpointPath (p : jstr) : bool :=
  if bool_decide (resolve p = resolve controlSock) then true
  else match controlSocketPath with
       | Some c => bool_decide (resolve p = resolve c)
       | None => false
       end.

Definition reapDeadOwnerArtifacts (kill : Z -> KillAnswer) (expectedOwner : jstr)
    (expectedEpoch : Z) (now : Z) (pr : option (Z -> PidStatus)) : M bool :=
  existing ← readLease;
  match existing with
  | None => mret false
  | Some l =>
      if bool_decide (ownerId l = expectedOwner) && (leaseEpoch l =? expectedEpoch) then
        if bool_decide (classifyLeaseStatus kill (Some l) now pr = dead) then
          let endpointPath :=
            match endpoint l with
            | Some (unix_socket, p) => if isOwnedUnixEndpointPath p then Some p else None
            | _ => None
            end in
          rm_socket controlSock ;;
          (match endpointPath with Some p => rm_socket p | None => mret tt end) ;;
          rm_lease ;;
          mret true
        else mret false
      else mret false
  end.

(** ** Histories *)

Inductive LeaseOp :=
| OpAcquire (kill : Z -> KillAnswer) (token : jstr) (o : AcquireOptions)
| OpHeartbeat (o : jstr) (ttl now : Z)
| OpRelease (o : jstr)
| OpReap (kill : Z -> KillAnswer) (o : jstr) (epoch now : Z) (pr : option (Z -> PidStatus)).

(** One operation under the lock: nothing interferes. *)
Definition lease_step (op : LeaseOp) (st : Store) : Store :=
  match op with
  | OpAcquire k t o => fst (acquireLease k id t o st)
  | OpHeartbeat o ttl now => fst (heartbeat o ttl now st)
  | OpRelease o => fst (releaseLease o st)
  | OpReap k o e now pr => fst (reapDeadOwnerArtifacts k o e now pr st)
  end.

(** The operation's probes say that process [p] is dead. *)
Definition probed_dead (op : LeaseOp) (p : Z) : Prop :=
  match op with
  | OpAcquire k _ o =>
      default (defaultPidStatusProbe k) (classifyProbeFromBoolean (probe o)) p = P_dead
  | OpReap k _ _ _ pr => default (defaultPidStatusProbe k) pr p = P_dead
  | _ => False
  end.

(** The owner on whose behalf the operation runs. *)
Definition acts_for (op : LeaseOp) : option jstr :=
  match op with
  | OpAcquire _ _ o => Some (opt_ownerId o)
  | OpHeartbeat o _ _ => Some o
  | OpRelease o => Some o
  | OpReap _ _ _ _ _ => None
  end.

Lemma status_dead kill l now pr :
  classifyLeaseStatus kill (Some l) now pr = dead
  <-> default (defaultPidStatusProbe kill) pr (pid l) = P_dead.
Proof.
  unfold classifyLeaseStatus. destruct (default _ pr (pid l)); [|done..].
  by destruct (isExpired l now).
Qed.

(** The record an acquire writes. *)
Definition acquired (token : jstr) (o : AcquireOptions) (epoch : Z) : SessionLease :=
  mkLease (opt_ownerId o) session (opt_pid o) (hashToken token) (opt_endpoint o)
    (opt_eventsPath o) (clock o) (clock o + ttlMs o) epoch (opt_ownerId o, epoch).

Lemma acquire_free kill f t o st :
  (forall e, lease_file st = Some e -> ownerId e = opt_ownerId o) ->
  let epoch := match lease_file st with Some e => leaseEpoch e | None => 1 end in
  acquireLease kill f t o st
  = (mkStore (Some (acquired t o epoch)) (sockets st), Ok (acquired t o epoch, t)).
Proof.
  intros H. unfold acquireLease, readLease, mbind, sm_bind, get_state, mret, sm_ret.
  destruct (lease_file st) as [e|]; [|done].
  by rewrite bool_decide_eq_true_2 by (by apply H).
Qed.

Lemma acquire_other kill f t o st e :
  lease_file st = Some e -> ownerId e <> opt_ownerId o ->
  acquireLease kill f t o st
  = if bool_decide (classifyLeaseStatus kill (Some e) (clock o)
                      (classifyProbeFromBoolean (probe o)) = dead)
    then match lease_file (f st) with
         | Some r => if bool_decide (ownerId r = ownerId e) && (leaseEpoch r =? leaseEpoch e)
                     then (mkStore (Some (acquired t o (leaseEpoch e + 1))) (sockets (f st)),
                           Ok (acquired t o (leaseEpoch e + 1), t))
                     else (f st, Err lease_held)
         | None => (f st, Err lease_held)
         end
    else (st, Err lease_held).
Proof.
  intros He Hne.
  unfold acquireLease, takeover_guard, readLease, mbind, sm_bind, get_state, modify, mret, sm_ret,
    throw.
  rewrite He. rewrite bool_decide_eq_false_2 by done. case_bool_decide; [|done].
  destruct (lease_file (f st)) as [r|]; [|done]. by destruct (_ && _).
Qed.

(** Acquiring a lease, whatever happens to the file between its two reads: a free lease or
    one's own is granted, with epoch 1 or the old epoch; a lease of another owner is granted
    with the next epoch exactly when its owner is dead and the second read still shows the same
    owner and epoch, and otherwise refused with [lease_held] without writing; in particular an
    expired lease of a living owner is refused. *)
Theorem acquire_spec kill f t o st :
  match lease_file st with
  | None => snd (acquireLease kill f t o st) = Ok (acquired t o 1, t)
  | Some e =>
      if bool_decide (ownerId e = opt_ownerId o)
      then snd (acquireLease kill f t o st) = Ok (acquired t o (leaseEpoch e), t)
      else
        let grant := classifyLeaseStatus kill (Some e) (clock o)
                       (classifyProbeFromBoolean (probe o)) = dead /\
                     exists r, lease_file (f st) = Some r /\ ownerId r = ownerId e /\
                               leaseEpoch r = leaseEpoch e in
        (grant -> snd (acquireLease kill f t o st) = Ok (acquired t o (leaseEpoch e + 1), t)) /\
        (~ grant -> snd (acquireLease kill f t o st) = Err lease_held /\
                    (fst (acquireLease kill f t o st) = st \/
                     fst (acquireLease kill f t o st) = f st))
  end /\
  (forall l t', snd (acquireLease kill f t o st) = Ok (l, t') ->
     lease_file (fst (acquireLease kill f t o st)) = Some l /\ writer l = (ownerId l, leaseEpoch l)).
Proof using.
  clear resolve.
  destruct (lease_file st) as [e|] eqn:He; [case_bool_decide as Ho|].
  - rewrite acquire_free by naive_solver. rewrite He. simpl. split; [done|]. by intros ?? [= <- <-].
  - rewrite (acquire_other _ _ _ _ _ e) by done.
    case_bool_decide as Hd; [|naive_solver].
    destruct (lease_file (f st)) as [r|] eqn:Hr; [|naive_solver].
    destruct (bool_decide_reflect (ownerId r = ownerId e)), (Z.eqb_spec (leaseEpoch r) (leaseEpoch e));
      naive_solver.
  - rewrite acquire_free by naive_solver. rewrite He. simpl. split; [done|]. by intros ?? [= <- <-].
Qed.

Definition refreshed (l : SessionLease) (ttl now : Z) : SessionLease :=
  mkLease (ownerId l) (sessionId l) (pid l) (leaseTokenHash l) (endpoint l) (eventsPath l)
    now (now + ttl) (leaseEpoch l) (writer l).

(** What one operation may do to the lease file. *)
Inductive lease_change : LeaseOp -> option SessionLease -> option SessionLease -> Prop :=
| change_none op l : lease_change op l l
| change_create k t o : lease_change (OpAcquire k t o) None (Some (acquired t o 1))
| change_reacquire l k t o : ownerId l = opt_ownerId o ->
    lease_change (OpAcquire k t o) (Some l) (Some (acquired t o (leaseEpoch l)))
| change_takeover l k t o : ownerId l <> opt_ownerId o -> probed_dead (OpAcquire k t o) (pid l) ->
    lease_change (OpAcquire k t o) (Some l) (Some (acquired t o (leaseEpoch l + 1)))
| change_heartbeat l ttl now :
    lease_change (OpHeartbeat (ownerId l) ttl now) (Some l) (Some (refreshed l ttl now))
| change_release l : lease_change (OpRelease (ownerId l)) (Some l) None
| change_reap l k now pr : probed_dead (OpReap k (ownerId l) (leaseEpoch l) now pr) (pid l) ->
    lease_change (OpReap k (ownerId l) (leaseEpoch l) now pr) (Some l) None.

Lemma step_change op st : lease_change op (lease_file st) (lease_file (lease_step op st)).
Proof using.
  destruct op as [k t o|o ttl now|o|k o ep now pr]; simpl.
  - destruct (lease_file st) as [e|] eqn:He; [destruct (decide (ownerId e = opt_ownerId o)) as [Ho|Ho]|].
    + rewrite acquire_free by naive_solver. rewrite He. by constructor.
    + rewrite (acquire_other _ _ _ _ _ e) by done. unfold id. rewrite He.
      case_bool_decide as Hd; [|simpl; rewrite He; constructor].
      rewrite bool_decide_eq_true_2, Z.eqb_refl by done. simpl.
      constructor; [done|]. by apply status_dead in Hd.
    + rewrite acquire_free by naive_solver. rewrite He. by constructor.
  - unfold heartbeat, readLease, mbind, sm_bind, get_state, mret, sm_ret.
    destruct (lease_file st) as [l|] eqn:He; [|simpl; rewrite He; constructor].
    case_bool_decide as Ho; simpl; [subst; constructor|rewrite He; constructor].
  - unfold releaseLease, readLease, mbind, sm_bind, get_state, mret, sm_ret.
    destruct (lease_file st) as [l|] eqn:He; [|simpl; rewrite He; constructor].
    case_bool_decide as Ho; simpl; [subst; constructor|rewrite He; constructor].
  - unfold reapDeadOwnerArtifacts, readLease, mbind, sm_bind, get_state, mret, sm_ret.
    destruct (lease_file st) as [l|] eqn:He; [|simpl; rewrite He; constructor].
    destruct (bool_decide_reflect (ownerId l = o)) as [<-|Ho]; [|simpl; rewrite He; constructor].
    destruct (Z.eqb_spec (leaseEpoch l) ep) as [<-|Hep]; [|simpl; rewrite He; constructor].
    case_bool_decide as Hd; [|simpl; rewrite He; constructor].
    apply status_dead in Hd. cbv zeta.
    destruct (match endpoint l with Some _ => _ | None => _ end); simpl; by apply change_reap.
Qed.

(** C23. Single writer: over any history in which no probe reports the holder's process dead and
    the holder neither releases nor acquires again, the holder keeps its lease: the same owner,
    process, token, epoch and writer; only the expiry may move, by its own heartbeats. *)
Theorem holder_keeps_lease ops st l :
  lease_file st = Some l ->
  Forall (fun op => ~ probed_dead op (pid l) /\
    match op with
    | OpAcquire _ _ o => opt_ownerId o <> ownerId l
    | OpRelease o => o <> ownerId l
    | _ => True
    end) ops ->
  exists hb ex, lease_file (run lease_step ops st)
    = Some (mkLease (ownerId l) (sessionId l) (pid l) (leaseTokenHash l) (endpoint l)
              (eventsPath l) hb ex (leaseEpoch l) (writer l)).
Proof.
  intros Hl Hops. revert st l Hl Hops. induction ops as [|op ops IH]; intros st l Hl Hops.
  { exists (heartbeatAt l), (expiresAt l). simpl. rewrite Hl. by destruct l. }
  apply Forall_cons in Hops as [[Hnd Hact] Hops]. simpl.
  pose proof (step_change op st) as Hc. rewrite Hl in Hc.
  assert (Hnext : exists l', lease_file (lease_step op st) = Some l' /\
    exists hb ex, l' = mkLease (ownerId l) (sessionId l) (pid l) (leaseTokenHash l) (endpoint l)
              (eventsPath l) hb ex (leaseEpoch l) (writer l)).
  { remember (lease_file (lease_step op st)) as af eqn:Haf. clear Haf.
    inversion Hc; subst; try done.
    - exists l. split; [done|]. exists (heartbeatAt l), (expiresAt l). by destruct l.
    - eexists. split; [reflexivity|]. by exists now, (now + ttl). }
  destruct Hnext as (l' & Hl' & hb & ex & ->).
  destruct (IH _ _ Hl' Hops) as (hb' & ex' & H). exists hb', ex'. by rewrite H.
Qed.

(** A lease record as the module writes it. *)
Record lease_ok (l : SessionLease) : Prop := {
  ok_writer : writer l = (ownerId l, leaseEpoch l);
  ok_session : sessionId l = session;
  ok_epoch : 1 <= leaseEpoch l }.

Lemma change_ok op a b :
  lease_change op a b -> (forall l, a = Some l -> lease_ok l) -> forall l, b = Some l -> lease_ok l.
Proof.
  intros Hc Ha. destruct Hc; intros l' Hl'; [by apply Ha|injection Hl' as <-..|done|done]; [done|..].
  - destruct (Ha l eq_refl). by split.
  - destruct (Ha l eq_refl). split; simpl; [done|done|lia].
  - destruct (Ha l eq_refl). by split.
Qed.

(** Epochs fence takeovers: along any history from an empty store the lease always names its
    own owner and epoch as the writer, and one operation changes the owner of a lease only by
    raising the epoch by one after the previous owner's process was probed dead; it keeps the
    epoch when the owner stays, and it removes a lease only for its owner or after a probe
    reported the owner dead. *)
Theorem epochs_fence_takeovers ops op socks :
  let st := run lease_step ops (mkStore None socks) in
  (forall l, lease_file st = Some l -> lease_ok l) /\
  match lease_file st, lease_file (lease_step op st) with
  | Some l, Some l' =>
      (ownerId l' = ownerId l /\ leaseEpoch l' = leaseEpoch l) \/
      (ownerId l' <> ownerId l /\ leaseEpoch l' = leaseEpoch l + 1 /\ probed_dead op (pid l))
  | Some l, None => acts_for op = Some (ownerId l) \/ probed_dead op (pid l)
  | None, Some l' => acts_for op = Some (ownerId l') /\ leaseEpoch l' = 1
  | None, None => True
  end.
Proof.
  intros st. split.
  - apply run_invariant; [|done]. intros op' st' Hok. eapply change_ok; [apply step_change|done].
  - destruct (step_change op st) as [op [l|]|k t o|l k t o Ho|l k t o Ho Hp|l ttl now|l|l k now pr Hp];
      simpl; auto.
Qed.

(** Reaping removes the lease, the control socket and the recorded endpoint when that is a
    socket the session owns, only for the expected owner and epoch and a dead process; otherwise
    it reports [false] and touches nothing.  No other socket is ever removed. *)
Theorem reap_spec kill o epoch now pr st :
  let reaps := exists l, lease_file st = Some l /\ ownerId l = o /\ leaseEpoch l = epoch /\
                         default (defaultPidStatusProbe kill) pr (pid l) = P_dead in
  (~ reaps -> reapDeadOwnerArtifacts kill o epoch now pr st = (st, Ok false)) /\
  (reaps -> exists st', reapDeadOwnerArtifacts kill o epoch now pr st = (st', Ok true) /\
     lease_file st' = None /\ (controlSock ∉ sockets st') /\
     (forall p, p ∈ sockets st ->
       (p ∉ sockets st' <-> (p = controlSock \/
          (exists l, lease_file st = Some l /\ endpoint l = Some (unix_socket, p) /\
                     isOwnedUnixEndpointPath p = true))))).
Proof using.
  clear hashToken.
  unfold reapDeadOwnerArtifacts, readLease, mbind, sm_bind, get_state, mret, sm_ret.
  destruct (lease_file st) as [l|] eqn:He; [|split; [done|]; by intros (? & ? & _)].
  destruct (bool_decide_reflect (ownerId l = o)) as [Ho|Ho]; [|naive_solver].
  destruct (Z.eqb_spec (leaseEpoch l) epoch) as [Hep|Hep]; [|naive_solver].
  case_bool_decide as Hd; rewrite status_dead in Hd; [|naive_solver]. simpl.
  split; [intros []; by exists l|]. intros _.
  destruct (endpoint l) as [[[] q]|] eqn:Ee; simpl;
    [destruct (isOwnedUnixEndpointPath q) eqn:Eq; simpl|..];
    (eexists; split; [reflexivity|]; simpl; split_and!; [done|set_solver|]; intros p Hp).
  - rewrite !not_elem_of_difference, !elem_of_singleton. split.
    + intros [[|]| ->]; [done|by left|right; eauto].
    + intros [->|(l' & ? & ? & _)]; simplify_eq/=; [by left; right|by right].
  - rewrite not_elem_of_difference, elem_of_singleton. split; [naive_solver|].
    intros [->|(l' & ? & ? & ?)]; simplify_eq/=; [by right|congruence].
  - rewrite not_elem_of_difference, elem_of_singleton. naive_solver.
  - rewrite not_elem_of_difference, elem_of_singleton. naive_solver.
Qed.
End Lease.

(** * Witnesses *)

Definition demo_kill (p : Z) : KillAnswer := if p =? 7 then K_ESRCH else K_ok.
Definition demo_opts (o : jstr) (p now : Z) : AcquireOptions :=
  Build_AcquireOptions o p (Some (unix_socket, u "/s/c.sock")) (u "/s/events") 100 now None.
Definition demo_acquire (o : jstr) (p now : Z) : Store -> Store :=
  lease_step (u "h-1") (u "/s/c.sock") (fun t => t) (fun p => p) None
    (OpAcquire demo_kill (u "tok") (demo_opts o p now)).
(** Owner [a] runs as process 7, which is dead; owner [b] as process 8. *)
Definition demo_store (o : jstr) (p : Z) : Store :=
  demo_acquire o p 0 (mkStore None {[u "/s/c.sock"; u "/s/other"]}).

(** The expired lease of a living owner is refused. *)
Lemma acquire_spec_witness :
  snd (acquireLease (u "h-1") (fun t => t) demo_kill id (u "tok") (demo_opts (u "c") 9 5000)
         (demo_store (u "b") 8)) = Err lease_held.
Proof.
  destruct (acquire_spec (u "h-1") (fun t => t) demo_kill id (u "tok") (demo_opts (u "c") 9 5000)
              (demo_store (u "b") 8)) as [H _].
  destruct H as [_ H]. apply H. intros [Hd _]. vm_compute in Hd. discriminate.
Defined.

Lemma holder_keeps_lease_witness :
  exists hb ex, lease_file (run (lease_step (u "h-1") (u "/s/c.sock") (fun t => t) (fun p => p) None)
    [OpAcquire demo_kill (u "t2") (demo_opts (u "c") 9 5000);
     OpReap demo_kill (u "b") 1 5000 None; OpHeartbeat (u "b") 100 6000]
    (demo_store (u "b") 8))
  = Some (mkLease (u "b") (u "h-1") 8 (u "tok") (Some (unix_socket, u "/s/c.sock")) (u "/s/events")
            hb ex 1 (u "b", 1)).
Proof.
  refine (holder_keeps_lease (u "h-1") (u "/s/c.sock") (fun t => t) (fun p => p) None _ _
    (mkLease (u "b") (u "h-1") 8 (u "tok") (Some (unix_socket, u "/s/c.sock")) (u "/s/events")
            0 100 1 (u "b", 1)) _ _).
  - vm_compute. reflexivity.
  - repeat apply Forall_cons_2; [..|apply Forall_nil_2]; split; try exact I;
      vm_compute; intros H; discriminate H || exact H.
Defined.

Lemma reap_spec_witness :
  exists st', reapDeadOwnerArtifacts (u "/s/c.sock") (fun p => p) None demo_kill (u "a") 1 0 None
                (demo_store (u "a") 7) = (st', Ok true) /\ lease_file st' = None.
Proof.
  destruct (reap_spec (u "/s/c.sock") (fun p => p) None demo_kill (u "a") 1 0 None
              (demo_store (u "a") 7)) as [_ H].
  destruct H as (st' & H1 & H2 & _); [|exists st'; split; [exact H1|exact H2]].
  eexists. split; [vm_compute; reflexivity|]. split; [reflexivity|]. split; reflexivity.
Defined.
