(* ===== verification/VimBuffer.v ===== *)
(** The text buffer of the vim tool
    (src/gajae-code/packages/coding-agent/src/vim/buffer.ts and types.ts).

    A buffer is a value: the class's methods become functions from buffer to buffer.
    Positions and offsets are integers counting UTF-16 units, as in the code; a snapshot is a
    copy of the buffer.  The code never leaves [lines] empty: [vb_ok] states it and the
    theorems of the file show that every operation keeps it. *)
From S2P Require Import Prelude.
#[local] Open Scope Z_scope.
#[local] Open Scope js_scope.

Record Position := mkPos { line : Z; col : Z }.
#[export] Instance position_eq_dec : EqDecision Position.
Proof. solve_decision. Defined.

Record VimFingerprint := { exists_ : bool; size : Z; mtimeMs : Z; hash : jstr }.
#[export] Instance fingerprint_eq_dec : EqDecision VimFingerprint.
Proof. solve_decision. Defined.

Record VimLoadedFile := mkLoaded {
  absolutePath : jstr;
  loaded_displayPath : jstr;
  loaded_lines : list jstr;
  loaded_trailingNewline : bool;
  fingerprint : option VimFingerprint }.

Record VimBuffer := mkBuffer {
  displayPath : jstr;
  filePath : jstr;
  lines : list jstr;
  cursor : Position;
  modified : bool;
  trailingNewline : bool;
  baseFingerprint : option VimFingerprint;
  editabilityChecked : bool }.

(** [VimBufferSnapshot]: the same fields. *)
Abbreviation VimBufferSnapshot := VimBuffer.

(** [comparePositions], [minPosition], [maxPosition]. *)
Definition comparePositions (l r : Position) : Z :=
  if negb (line l =? line r) then line l - line r else col l - col r.
Definition minPosition (l r : Position) : Position := if comparePositions l r <=? 0 then l else r.
Definition maxPosition (l r : Position) : Position := if 0 <=? comparePositions l r then l else r.

Definition splitText (text : jstr) : list jstr := if zlen text =? 0 then [[]] else split_lines text.

Fixpoint lines_equal (l r : list jstr) : bool :=
  match l, r with
  | [], [] => true
  | x :: l', y :: r' => (x === y) && lines_equal l' r'
  | _, _ => false
  end.

Definition fingerprint_equal (l r : option VimFingerprint) : bool :=
  match l, r with
  | None, None => true
  | Some f, Some g =>
      Bool.eqb (exists_ f) (exists_ g) && (size f =? size g) && (mtimeMs f =? mtimeMs g)
      && (hash f === hash g)
  | _, _ => false
  end.

Definition snapshotEqual (l r : VimBufferSnapshot) : bool :=
  (displayPath l === displayPath r) && (filePath l === filePath r)
  && Bool.eqb (modified l) (modified r) && Bool.eqb (trailingNewline l) (trailingNewline r)
  && (line (cursor l) =? line (cursor r)) && (col (cursor l) =? col (cursor r))
  && Bool.eqb (editabilityChecked l) (editabilityChecked r)
  && fingerprint_equal (baseFingerprint l) (baseFingerprint r)
  && (zlen (lines l) =? zlen (lines r)) && lines_equal (lines l) (lines r).

(** ** Field updates *)

Definition with_lines (ls : list jstr) (b : VimBuffer) : VimBuffer :=
  mkBuffer (displayPath b) (filePath b) ls (cursor b) (modified b) (trailingNewline b)
    (baseFingerprint b) (editabilityChecked b).
Definition with_cursor (p : Position) (b : VimBuffer) : VimBuffer :=
  mkBuffer (displayPath b) (filePath b) (lines b) p (modified b) (trailingNewline b)
    (baseFingerprint b) (editabilityChecked b).
Definition with_modified (m : bool) (b : VimBuffer) : VimBuffer :=
  mkBuffer (displayPath b) (filePath b) (lines b) (cursor b) m (trailingNewline b)
    (baseFingerprint b) (editabilityChecked b).
Definition with_trailing (t : bool) (b : VimBuffer) : VimBuffer :=
  mkBuffer (displayPath b) (filePath b) (lines b) (cursor b) (modified b) t
    (baseFingerprint b) (editabilityChecked b).
Definition with_editable (e : bool) (b : VimBuffer) : VimBuffer :=
  mkBuffer (displayPath b) (filePath b) (lines b) (cursor b) (modified b) (trailingNewline b)
    (baseFingerprint b) e.

(** [lines.length > 0 ? [...lines] : [""]] *)
Definition some_lines (ls : list jstr) : list jstr := match ls with [] => [[]] | _ => ls end.

(** ** Construction and snapshots *)

Definition new_VimBuffer (f : VimLoadedFile) : VimBuffer :=
  mkBuffer (loaded_displayPath f) (absolutePath f) (some_lines (loaded_lines f)) (mkPos 0 0) false
    (loaded_trailingNewline f) (fingerprint f) false.

Definition clone (b : VimBuffer) : VimBuffer :=
  let c := new_VimBuffer (mkLoaded (filePath b) (displayPath b) (lines b) (trailingNewline b)
                            (baseFingerprint b)) in
  with_editable (editabilityChecked b) (with_modified (modified b) (with_cursor (cursor b) c)).

Definition createSnapshot (b : VimBuffer) : VimBufferSnapshot :=
  mkBuffer (displayPath b) (filePath b) (lines b) (cursor b) (modified b) (trailingNewline b)
    (baseFingerprint b) (editabilityChecked b).

(** ** Lines and cursor *)

Definition lineCount (b : VimBuffer) : Z := zlen (lines b).
Definition lastLineIndex (b : VimBuffer) : Z := Z.max 0 (zlen (lines b) - 1).
Definition clampLine (b : VimBuffer) (l : Z) : Z := clamp l 0 (lastLineIndex b).
Definition getLine (b : VimBuffer) (l : Z) : jstr := default [] (at_ (lines b) (clampLine b l)).
Definition clampCol (b : VimBuffer) (l c : Z) : Z := clamp c 0 (zlen (getLine b l)).
Definition setCursor (p : Position) (b : VimBuffer) : VimBuffer :=
  with_cursor (mkPos (clampLine b (line p)) (clampCol b (line p) (col p))) b.
Definition clampCursor (b : VimBuffer) : VimBuffer := setCursor (cursor b) b.

(** [content.search(/\S/)]. *)
Fixpoint search_nonblank (s : jstr) (i : Z) : Z :=
  match s with [] => -1 | c :: s' => if is_ws c then search_nonblank s' (i + 1) else i end.
Definition firstNonBlank (b : VimBuffer) (l : Z) : Z :=
  let index := search_nonblank (getLine b l) 0 in if index =? -1 then 0 else index.

Definition restore (s : VimBufferSnapshot) (b : VimBuffer) : VimBuffer :=
  clampCursor (mkBuffer (displayPath s) (filePath s) (some_lines (lines s)) (cursor s) (modified s)
                 (trailingNewline s) (baseFingerprint s) (editabilityChecked s)).

Definition replaceLoadedFile (f : VimLoadedFile) (b : VimBuffer) : VimBuffer :=
  mkBuffer (loaded_displayPath f) (absolutePath f) (some_lines (loaded_lines f)) (mkPos 0 0) false
    (loaded_trailingNewline f) (fingerprint f) false.

Definition markSaved (f : VimLoadedFile) (b : VimBuffer) : VimBuffer :=
  clampCursor (mkBuffer (displayPath b) (filePath b) (some_lines (loaded_lines f)) (cursor b) false
                 (loaded_trailingNewline f) (fingerprint f) (editabilityChecked b)).

(** ** Text and offsets *)

Definition getText (b : VimBuffer) : jstr := join_lines (lines b).

Definition setText (text : jstr) (tn : bool) (b : VimBuffer) : VimBuffer :=
  let normalizedText := if tn && ends_with text [NL] then slice text 0 (-1) else text in
  clampCursor (with_trailing tn (with_lines (splitText normalizedText) b)).

Definition lines_size (ls : list jstr) : Z := fold_left (fun o l => o + (zlen l + 1)) ls 0.
Definition positionToOffset (b : VimBuffer) (p : Position) : Z :=
  let l := clampLine b (line p) in
  let c := clampCol b l (col p) in
  lines_size (take (Z.to_nat l) (lines b)) + c.
Definition currentOffset (b : VimBuffer) : Z := positionToOffset b (cursor b).

Fixpoint offset_loop (ls : list jstr) (l remaining : Z) : option Position :=
  match ls with
  | [] => None
  | current :: rest =>
      if remaining <=? zlen current then Some (mkPos l remaining)
      else
        let remaining := remaining - zlen current in
        match rest with
        | [] => None
        | _ :: _ => if remaining =? 0 then Some (mkPos (l + 1) 0)
                    else offset_loop rest (l + 1) (remaining - 1)
        end
  end.
Definition offsetToPosition (b : VimBuffer) (offset : Z) : Position :=
  let clamped := clamp offset 0 (zlen (getText b)) in
  match offset_loop (lines b) 0 clamped with
  | Some p => p
  | None => mkPos (lastLineIndex b) (zlen (getLine b (lastLineIndex b)))
  end.
Definition setCursorFromOffset (offset : Z) (b : VimBuffer) : VimBuffer :=
  with_cursor (offsetToPosition b offset) b.

Definition replaceOffsets (start end_ : Z) (replacement : jstr) (cursorOffset : Z) (b : VimBuffer) :
    VimBuffer :=
  let text := getText b in
  let normalizedStart := clamp start 0 (zlen text) in
  let normalizedEnd := clamp end_ normalizedStart (zlen text) in
  let nextText := slice text 0 normalizedStart ++ replacement ++ slice_from text normalizedEnd in
  setCursorFromOffset cursorOffset (clampCursor (with_lines (splitText nextText) b)).

Definition deleteOffsets (start end_ : Z) (b : VimBuffer) : jstr * VimBuffer :=
  let text := getText b in
  let normalizedStart := clamp start 0 (zlen text) in
  let normalizedEnd := clamp end_ normalizedStart (zlen text) in
  let removed := slice text normalizedStart normalizedEnd in
  (removed, replaceOffsets normalizedStart normalizedEnd [] normalizedStart b).

(** ** Whole lines *)

Definition deleteLines (startLine endLine : Z) (b : VimBuffer) : list jstr * VimBuffer :=
  let start := clampLine b (Z.min startLine endLine) in
  let end_ := clampLine b (Z.max startLine endLine) in
  let removed := slice (lines b) start (end_ + 1) in
  let b := with_lines (some_lines (snd (splice (lines b) start (end_ - start + 1) []))) b in
  let b := setCursor (mkPos (Z.min start (lastLineIndex b)) 0) b in
  (removed,
   if (1 <? zlen (lines b)) || (1 <? zlen removed) then with_trailing true b else b).

Definition insertLines (index : Z) (newLines : list jstr) (b : VimBuffer) : VimBuffer :=
  let at_ := clamp index 0 (zlen (lines b)) in
  let normalized := some_lines newLines in
  let b := with_lines (snd (splice (lines b) at_ 0 normalized)) b in
  with_trailing true (setCursor (mkPos at_ 0) b).

Definition replaceLine (l : Z) (content : jstr) (b : VimBuffer) : VimBuffer :=
  let target := clampLine b l in
  clampCursor (with_lines (set_at (lines b) target content) b).

(** Replace lines [start..end] by one line, the cursor on its last character. *)
Definition merge_lines (start end_ : Z) (joined : jstr) (b : VimBuffer) : VimBuffer :=
  setCursor (mkPos start (Z.max 0 (zlen joined - 1)))
    (with_lines (snd (splice (lines b) start (end_ - start + 1) [joined])) b).

Definition joinLines (startLine count : Z) (b : VimBuffer) : VimBuffer :=
  let start := clampLine b startLine in
  let end_ := clampLine b (start + Z.max count 1) in
  if end_ <=? start then b
  else merge_lines start end_ (join_with [32] (map trim (slice (lines b) start (end_ + 1)))) b.

Fixpoint leading_spaces (s : jstr) : Z :=
  match s with c :: s' => if c =? 32 then 1 + leading_spaces s' else 0 | [] => 0 end.

Definition indent_line (indentUnit : jstr) (direction : Z) (content : jstr) : jstr :=
  if 0 <? direction then indentUnit ++ content
  else if starts_with content indentUnit then slice_from content (zlen indentUnit)
  else slice_from content (Z.min (leading_spaces content) (zlen indentUnit)).

Definition indentLines (startLine endLine : Z) (indentUnit : jstr) (direction : Z) (b : VimBuffer) :
    VimBuffer :=
  let start := clampLine b (Z.min startLine endLine) in
  let end_ := clampLine b (Z.max startLine endLine) in
  clampCursor (with_lines
    (slice (lines b) 0 start ++ map (indent_line indentUnit direction) (slice (lines b) start (end_ + 1))
     ++ slice_from (lines b) (end_ + 1)) b).

Definition getCharacterAtOffset (b : VimBuffer) (offset : Z) : jstr :=
  let text := getText b in
  if (offset <? 0) || (zlen text <=? offset) then [] else char_str text offset.
Definition getCharacter (b : VimBuffer) (p : Position) : jstr :=
  getCharacterAtOffset b (positionToOffset b p).

(** * The invariant *)

Record vb_ok (b : VimBuffer) : Prop := {
  vb_lines : lines b <> [];
  vb_line : 0 <= line (cursor b) < zlen (lines b);
  vb_col : 0 <= col (cursor b) }.

(** A position inside the text: the column may be one past the last character. *)
Definition valid_pos (b : VimBuffer) (p : Position) : Prop :=
  0 <= line p < zlen (lines b) /\ 0 <= col p <= zlen (getLine b (line p)).

Create HintDb vim discriminated.
#[export] Hint Constants Opaque : vim.

Lemma zlen_pos {A} (l : list A) : l <> [] -> 0 < zlen l.
Proof. destruct l; [done|]. intros _. rewrite zlen_cons. pose proof (zlen_nonneg l). lia. Qed.

Lemma some_lines_ne ls : some_lines ls <> [].
Proof. by destruct ls. Qed.

Lemma some_lines_id ls : ls <> [] -> some_lines ls = ls.
Proof. by destruct ls. Qed.

Lemma splitText_eq t : splitText t = split_lines t.
Proof. unfold splitText. destruct (Z.eqb_spec (zlen t) 0) as [H|]; [|done]. by rewrite (zlen_0_nil t H). Qed.

Lemma splitText_ne t : splitText t <> [].
Proof. rewrite splitText_eq. apply split_on_nonempty. Qed.

Lemma clampLine_bounds b l : lines b <> [] -> 0 <= clampLine b l < zlen (lines b).
Proof. intros H%zlen_pos. unfold clampLine, clamp, lastLineIndex. lia. Qed.

Lemma clampLine_id b l : 0 <= l < zlen (lines b) -> clampLine b l = l.
Proof. intros. unfold clampLine, clamp, lastLineIndex. lia. Qed.

Lemma clampLine_idem b l : clampLine b (clampLine b l) = clampLine b l.
Proof. unfold clampLine, clamp, lastLineIndex. lia. Qed.

Lemma getLine_clamp b l : getLine b (clampLine b l) = getLine b l.
Proof. unfold getLine. by rewrite clampLine_idem. Qed.

Lemma getLine_lookup b l x : lines b !! Z.to_nat l = Some x -> 0 <= l -> getLine b l = x.
Proof.
  intros Hl H0. apply lookup_lt_Some in Hl as Hn. unfold getLine.
  rewrite clampLine_id by (unfold zlen; lia). unfold at_. destruct (Z.ltb_spec l 0); [lia|]. by rewrite Hl.
Qed.

Lemma clampCol_bounds b l c : 0 <= clampCol b l c <= zlen (getLine b l).
Proof. unfold clampCol, clamp. pose proof (zlen_nonneg (getLine b l)). lia. Qed.

Lemma clampCol_id b l c : 0 <= c <= zlen (getLine b l) -> clampCol b l c = c.
Proof. intros. unfold clampCol, clamp. lia. Qed.

Lemma setCursor_valid p b : lines b <> [] -> valid_pos (setCursor p b) (cursor (setCursor p b)).
Proof.
  intros H. pose proof (clampLine_bounds b (line p) H). pose proof (clampCol_bounds b (line p) (col p)).
  unfold valid_pos, setCursor. simpl. split; [done|].
  change (getLine (with_cursor _ b)) with (getLine b). by rewrite getLine_clamp.
Qed.

Lemma valid_ok b : lines b <> [] -> valid_pos b (cursor b) -> vb_ok b.
Proof. intros Hl [H1 [H2 _]]. by split. Qed.

Lemma setCursor_ok p b : lines b <> [] -> vb_ok (setCursor p b).
Proof. intros H. apply valid_ok; [done|]. by apply setCursor_valid. Qed.

Lemma with_modified_ok m b : vb_ok b -> vb_ok (with_modified m b).
Proof. by intros []. Qed.
Lemma with_trailing_ok t b : vb_ok b -> vb_ok (with_trailing t b).
Proof. by intros []. Qed.
Lemma with_editable_ok e b : vb_ok b -> vb_ok (with_editable e b).
Proof. by intros []. Qed.
#[export] Hint Resolve vb_lines setCursor_ok with_modified_ok with_trailing_ok with_editable_ok
  some_lines_ne splitText_ne : vim.

(** ** Offsets and positions *)

Lemma lines_size_acc ls o : fold_left (fun o (l : jstr) => o + (zlen l + 1)) ls o = o + lines_size ls.
Proof.
  unfold lines_size. revert o. induction ls as [|l ls IH]; intros o; cbn [fold_left]; [lia|].
  rewrite IH, (IH (0 + _)). lia.
Qed.

Lemma lines_size_cons l ls : lines_size (l :: ls) = zlen l + 1 + lines_size ls.
Proof. unfold lines_size at 1. cbn [fold_left]. rewrite lines_size_acc. lia. Qed.

Lemma lines_size_app l1 l2 : lines_size (l1 ++ l2) = lines_size l1 + lines_size l2.
Proof.
  induction l1 as [|l l1 IH]; [done|]. rewrite <- app_comm_cons, !lines_size_cons, IH. lia.
Qed.

Lemma lines_size_nonneg ls : 0 <= lines_size ls.
Proof.
  induction ls as [|l ls IH]; [done|]. rewrite lines_size_cons. pose proof (zlen_nonneg l). lia.
Qed.

Lemma zlen_join ls : ls <> [] -> zlen (join_lines ls) = lines_size ls - 1.
Proof.
  induction ls as [|l ls IH]; [done|]. intros _. destruct ls as [|l2 ls].
  - rewrite lines_size_cons. unfold join_lines. simpl. change (lines_size []) with 0. lia.
  - unfold join_lines in *. rewrite join_cons by done. rewrite !zlen_app, IH by done.
    rewrite (lines_size_cons l). change (zlen [NL]) with 1. lia.
Qed.

Lemma zlen_getText b : lines b <> [] -> zlen (getText b) = lines_size (lines b) - 1.
Proof. apply zlen_join. Qed.

Lemma offset_loop_found ls k rem :
  ls <> [] -> 0 <= rem <= lines_size ls - 1 ->
  exists i c l, offset_loop ls k rem = Some (mkPos (k + Z.of_nat i) c) /\ ls !! i = Some l /\
    0 <= c <= zlen l /\ lines_size (take i ls) + c = rem.
Proof.
  revert k rem. induction ls as [|l ls IH]; intros k rem; [done|]. intros _.
  rewrite lines_size_cons. intros Hr. cbn [offset_loop].
  destruct (Z.leb_spec rem (zlen l)).
  - exists O, rem, l. rewrite Z.add_0_r. split_and!; try done; lia.
  - destruct ls as [|l2 ls]; [change (lines_size []) with 0 in Hr; lia|].
    destruct (Z.eqb_spec (rem - zlen l) 0); [lia|].
    destruct (IH (k + 1) (rem - zlen l - 1)) as (i & c & l' & -> & Hl & Hc & Hs); [done|lia|].
    exists (S i), c, l'. split_and!; [do 2 f_equal; lia|done|lia|lia|].
    cbn [take]. rewrite lines_size_cons. lia.
Qed.

Lemma offset_loop_at ls k i c l :
  ls !! i = Some l -> 0 <= c <= zlen l ->
  offset_loop ls k (lines_size (take i ls) + c) = Some (mkPos (k + Z.of_nat i) c).
Proof.
  revert k i. induction ls as [|l0 ls IH]; intros k i; [done|]. cbn [offset_loop].
  destruct i as [|i]; cbn [lookup list_lookup take].
  - intros [= ->] Hc. change (lines_size []) with 0. rewrite Z.add_0_l, Z.add_0_r.
    by destruct (Z.leb_spec c (zlen l)); [|lia].
  - intros Hl Hc. rewrite lines_size_cons. pose proof (lines_size_nonneg (take i ls)).
    destruct (Z.leb_spec (zlen l0 + 1 + lines_size (take i ls) + c) (zlen l0)); [lia|].
    destruct ls as [|l2 ls]; [done|].
    replace (zlen l0 + 1 + lines_size (take i (l2 :: ls)) + c - zlen l0)
      with (lines_size (take i (l2 :: ls)) + c + 1) by lia.
    destruct (Z.eqb_spec (lines_size (take i (l2 :: ls)) + c + 1) 0); [lia|].
    rewrite Z.add_simpl_r, IH by done. do 2 f_equal. lia.
Qed.

Lemma valid_lookup b p :
  valid_pos b p -> exists l, lines b !! Z.to_nat (line p) = Some l /\ getLine b (line p) = l /\
                            0 <= col p <= zlen l.
Proof.
  intros [Hl Hc]. destruct (lookup_lt_is_Some_2 (lines b) (Z.to_nat (line p))) as [l Hx].
  { unfold zlen in Hl. lia. }
  exists l. rewrite (getLine_lookup b _ l) in * by (done || lia). done.
Qed.

Lemma positionToOffset_valid b p :
  valid_pos b p -> positionToOffset b p = lines_size (take (Z.to_nat (line p)) (lines b)) + col p.
Proof.
  intros [Hl Hc]. unfold positionToOffset.
  rewrite clampLine_id, clampCol_id by done. done.
Qed.

Lemma take_size_bound ls i (l : jstr) :
  ls !! i = Some l -> lines_size (take i ls) + zlen l + 1 <= lines_size ls.
Proof.
  intros Hl. rewrite <- (take_drop_middle ls i l Hl) at 2.
  rewrite lines_size_app, lines_size_cons. pose proof (lines_size_nonneg (drop (S i) ls)). lia.
Qed.

Lemma valid_nonempty b p : valid_pos b p -> lines b <> [].
Proof. intros [Hl _] E. rewrite E in Hl. change (zlen []) with 0 in Hl. lia. Qed.

Lemma positionToOffset_bounds b p :
  lines b <> [] -> 0 <= positionToOffset b p <= zlen (getText b).
Proof.
  intros Hne. rewrite zlen_getText by done. unfold positionToOffset.
  pose proof (clampLine_bounds b (line p) Hne) as Hl.
  destruct (lookup_lt_is_Some_2 (lines b) (Z.to_nat (clampLine b (line p)))) as [l Hx].
  { unfold zlen in Hl. lia. }
  pose proof (clampCol_bounds b (clampLine b (line p)) (col p)) as Hc.
  rewrite (getLine_lookup b _ l) in Hc by (done || lia).
  pose proof (take_size_bound _ _ _ Hx). pose proof (lines_size_nonneg (take (Z.to_nat (clampLine b (line p))) (lines b))).
  lia.
Qed.

Lemma offset_of_position b p : valid_pos b p -> offsetToPosition b (positionToOffset b p) = p.
Proof.
  intros Hp. destruct (valid_lookup b p Hp) as (l & Hx & _ & Hc).
  unfold offsetToPosition. rewrite clamp_id by (apply positionToOffset_bounds; by eapply valid_nonempty).
  rewrite positionToOffset_valid by done. rewrite (offset_loop_at _ _ _ _ l) by done.
  destruct Hp as [? _]. destruct p as [ln c]. simpl in *. f_equal. lia.
Qed.

Lemma offsetToPosition_spec b o :
  lines b <> [] ->
  valid_pos b (offsetToPosition b o) /\
  positionToOffset b (offsetToPosition b o) = clamp o 0 (zlen (getText b)).
Proof.
  intros Hne. unfold offsetToPosition.
  pose proof (zlen_nonneg (getText b)) as H0.
  pose proof (clamp_bounds o 0 (zlen (getText b)) H0) as Hb.
  pose proof (zlen_getText b Hne) as Ht.
  destruct (offset_loop_found (lines b) 0 (clamp o 0 (zlen (getText b))) Hne) as (i & c & l & -> & Hl & Hc & Hs);
    [lia|].
  assert (Hv : valid_pos b (mkPos (0 + Z.of_nat i) c)).
  { apply lookup_lt_Some in Hl as Hi. split; simpl; [unfold zlen; lia|].
    rewrite (getLine_lookup b _ l); [done| |lia]. cbn [line]. by replace (Z.to_nat (0 + Z.of_nat i)) with i by lia. }
  split; [done|]. rewrite positionToOffset_valid by done. cbn [line col]. by replace (Z.to_nat (0 + Z.of_nat i)) with i by lia.
Qed.

(** Offsets and positions are two coordinates of the same buffer: a position inside the text
    survives the trip through its offset, an offset survives the trip through its position, both
    stay in range, and an offset outside the text is clamped to it. *)
Theorem offset_round_trip b :
  lines b <> [] ->
  (forall p, valid_pos b p -> offsetToPosition b (positionToOffset b p) = p) /\
  (forall o, valid_pos b (offsetToPosition b o) /\
             positionToOffset b (offsetToPosition b o) = clamp o 0 (zlen (getText b))) /\
  (forall p, 0 <= positionToOffset b p <= zlen (getText b)).
Proof.
  intros Hne. split_and!.
  - apply offset_of_position.
  - intros o. by apply offsetToPosition_spec.
  - intros p. by apply positionToOffset_bounds.
Qed.

(** ** Edits of the text *)

Lemma getText_splitText t b : getText (with_lines (splitText t) b) = t.
Proof. unfold getText. simpl. rewrite splitText_eq. apply join_split. Qed.

Lemma offsetToPosition_eq b b' o : lines b = lines b' -> offsetToPosition b o = offsetToPosition b' o.
Proof. intros H. unfold offsetToPosition, getText, getLine, clampLine, lastLineIndex. by rewrite H. Qed.

Lemma positionToOffset_eq b b' p : lines b = lines b' -> positionToOffset b p = positionToOffset b' p.
Proof.
  intros H. unfold positionToOffset, clampCol, getLine, clampLine, lastLineIndex. by rewrite H.
Qed.

Lemma valid_pos_eq b b' p : lines b = lines b' -> valid_pos b p -> valid_pos b' p.
Proof. intros H. unfold valid_pos, getLine, clampLine, lastLineIndex. by rewrite H. Qed.

Lemma setCursorFromOffset_ok o b : lines b <> [] -> vb_ok (setCursorFromOffset o b).
Proof.
  intros H. apply valid_ok; [done|]. unfold setCursorFromOffset. simpl.
  eapply valid_pos_eq; [|by apply offsetToPosition_spec]. done.
Qed.

Lemma replaceOffsets_ok s e r c b : vb_ok (replaceOffsets s e r c b).
Proof. unfold replaceOffsets. apply setCursorFromOffset_ok. simpl. auto with vim. Qed.

Lemma replaceOffsets_text s e r c b :
  let t := getText b in
  let s' := clamp s 0 (zlen t) in
  let e' := clamp e s' (zlen t) in
  getText (replaceOffsets s e r c b) = take (Z.to_nat s') t ++ r ++ drop (Z.to_nat e') t /\
  currentOffset (replaceOffsets s e r c b) = clamp c 0 (zlen (getText (replaceOffsets s e r c b))).
Proof.
  intros t s' e'. pose proof (zlen_nonneg t).
  assert (Hs : 0 <= s' <= zlen t) by (apply clamp_bounds; lia).
  assert (He : s' <= e' <= zlen t) by (apply clamp_bounds; lia).
  unfold replaceOffsets. fold t. fold s'. fold e'. cbv zeta.
  rewrite slice_prefix, slice_suffix by lia.
  set (nt := take _ t ++ r ++ drop _ t).
  assert (Ht : getText (with_lines (splitText nt) b) = nt) by apply getText_splitText.
  set (b1 := clampCursor (with_lines (splitText nt) b)).
  assert (Hb1 : lines b1 = splitText nt) by done.
  split; [exact Ht|]. unfold currentOffset, setCursorFromOffset. simpl.
  rewrite (positionToOffset_eq _ b1) by done.
  destruct (offsetToPosition_spec b1 c) as [_ ->]; [rewrite Hb1; auto with vim|].
  by unfold getText; rewrite Hb1.
Qed.

(** The edit every command is built from: replacing a range of offsets gives the text with
    that range (clamped to the text, its end not before its start) replaced and nothing else
    moved, the cursor on the requested offset (clamped to the new text), and only lines and
    cursor change. *)
Theorem replaceOffsets_spec s e r c b :
  let t := getText b in
  let s' := clamp s 0 (zlen t) in
  let e' := clamp e s' (zlen t) in
  let b' := replaceOffsets s e r c b in
  getText b' = take (Z.to_nat s') t ++ r ++ drop (Z.to_nat e') t /\
  currentOffset b' = clamp c 0 (zlen (getText b')) /\ vb_ok b' /\
  Forall (no_char NL) (lines b') /\
  b' = with_cursor (cursor b') (with_lines (lines b') b).
Proof.
  intros t s' e' b'. destruct (replaceOffsets_text s e r c b) as [Ht Hc]. split_and!.
  - exact Ht.
  - exact Hc.
  - apply replaceOffsets_ok.
  - unfold b', replaceOffsets. simpl. rewrite splitText_eq. apply split_on_no_char.
  - done.
Qed.

(** Deleting a range returns exactly the text it removes: putting that text back where it
    was restores the old text, and the cursor stands where the range started. *)
Theorem deleteOffsets_reinsert s e b :
  let s' := clamp s 0 (zlen (getText b)) in
  let '(removed, b') := deleteOffsets s e b in
  getText (replaceOffsets s' s' removed s' b') = getText b /\
  zlen (getText b') = zlen (getText b) - zlen removed /\ currentOffset b' = s'.
Proof.
  intros s'. unfold deleteOffsets. fold s'.
  set (t := getText b). set (e' := clamp e s' (zlen t)). pose proof (zlen_nonneg t).
  assert (Hs : 0 <= s' <= zlen t) by (apply clamp_bounds; lia).
  assert (He : s' <= e' <= zlen t) by (apply clamp_bounds; lia).
  destruct (replaceOffsets_text s' e' [] s' b) as [Ht Hc].
  fold t in Ht. rewrite (clamp_id s'), (clamp_id e') in Ht by lia.
  set (b' := replaceOffsets s' e' [] s' b) in *.
  assert (Hlen : zlen (getText b') = zlen t - (e' - s')).
  { rewrite Ht, !zlen_app, zlen_take, zlen_drop by lia. change (zlen []) with 0. lia. }
  split_and!.
  - destruct (replaceOffsets_text s' s' (slice t s' e') s' b') as [-> _].
    rewrite !(clamp_id s') by (rewrite ?Hlen; lia). rewrite Ht, slice_spec by lia. cbn [app].
    assert (Hl : length (take (Z.to_nat s') t) = Z.to_nat s').
    { rewrite length_take. unfold zlen in *. lia. }
    rewrite take_app_length', drop_app_length' by done.
    replace (drop (Z.to_nat e') t) with (drop (Z.to_nat (e' - s')) (drop (Z.to_nat s') t)).
    + by rewrite !take_drop.
    + rewrite drop_drop. f_equal. lia.
  - rewrite Hlen, zlen_slice by lia. lia.
  - rewrite Hc. apply clamp_id. lia.
Qed.

(** ** Whole lines *)

Lemma splice_snd {A} (l : list A) i n items :
  0 <= i <= zlen l -> 0 <= n -> i + n <= zlen l ->
  snd (splice l i n items) = take (Z.to_nat i) l ++ items ++ drop (Z.to_nat (i + n)) l.
Proof. intros. by rewrite splice_eq. Qed.

Lemma deleteLines_ok s e b : vb_ok (snd (deleteLines s e b)).
Proof. unfold deleteLines. simpl. case_match; [apply with_trailing_ok|]; apply setCursor_ok, some_lines_ne. Qed.

Lemma splice_ne {A} (l : list A) i n items : items <> [] -> snd (splice l i n items) <> [].
Proof. intros H E. unfold splice in E. simpl in E. apply app_eq_nil in E as [_ [E _]%app_eq_nil]. done. Qed.

Lemma insertLines_ok i ls b : vb_ok (insertLines i ls b).
Proof.
  unfold insertLines. apply with_trailing_ok, setCursor_ok, splice_ne, some_lines_ne.
Qed.

Lemma merge_lines_ok s e j b : vb_ok (merge_lines s e j b).
Proof. unfold merge_lines. apply setCursor_ok. by apply splice_ne. Qed.

Lemma joinLines_ok s c b : vb_ok b -> vb_ok (joinLines s c b).
Proof. intros H. unfold joinLines. case_match; [done|]. apply merge_lines_ok. Qed.

Lemma set_at_ne {A} (l : list A) i x : l <> [] -> set_at l i x <> [].
Proof. unfold set_at. case_match; [done|]. destruct l; [done|]. by destruct (Z.to_nat i). Qed.

Lemma replaceLine_ok l c b : lines b <> [] -> vb_ok (replaceLine l c b).
Proof. intros H. unfold replaceLine. apply setCursor_ok. by apply set_at_ne. Qed.

Lemma indent_lines_eq s e unit_ d b :
  lines b <> [] ->
  let s' := clampLine b (Z.min s e) in
  let e' := clampLine b (Z.max s e) in
  lines (indentLines s e unit_ d b)
  = take (Z.to_nat s') (lines b) ++ map (indent_line unit_ d) (slice (lines b) s' (e' + 1))
    ++ drop (Z.to_nat (e' + 1)) (lines b).
Proof.
  intros Hne s' e'. unfold indentLines. simpl. fold s' e'.
  pose proof (clampLine_bounds b (Z.min s e) Hne) as H1. fold s' in H1.
  pose proof (clampLine_bounds b (Z.max s e) Hne) as H2. fold e' in H2.
  by rewrite slice_prefix, slice_suffix by lia.
Qed.

Lemma clampLine_mono b i j : i <= j -> clampLine b i <= clampLine b j.
Proof. intros. unfold clampLine, clamp. lia. Qed.

Lemma indentLines_ok s e u_ d b : lines b <> [] -> vb_ok (indentLines s e u_ d b).
Proof.
  intros H. unfold indentLines. apply setCursor_ok. intros E.
  assert (E' : lines (indentLines s e u_ d b) = []) by exact E.
  rewrite indent_lines_eq in E' by done.
  apply (f_equal zlen) in E'. rewrite !zlen_app, zlen_map in E'. change (zlen (@nil jstr)) with 0 in E'.
  pose proof (clampLine_bounds b (Z.min s e) H). pose proof (clampLine_bounds b (Z.max s e) H).
  pose proof (clampLine_mono b (Z.min s e) (Z.max s e) ltac:(lia)).
  rewrite zlen_take, zlen_slice, zlen_drop in E' by lia. apply zlen_pos in H. lia.
Qed.

Lemma restore_ok s b : vb_ok (restore s b).
Proof. apply setCursor_ok, some_lines_ne. Qed.
Lemma markSaved_ok f b : vb_ok (markSaved f b).
Proof. apply setCursor_ok, some_lines_ne. Qed.
Lemma some_lines_start d f ls m t p e : vb_ok (mkBuffer d f (some_lines ls) (mkPos 0 0) m t p e).
Proof. split; simpl; [auto with vim| |lia]. pose proof (zlen_pos _ (some_lines_ne ls)). lia. Qed.
Lemma replaceLoadedFile_ok f b : vb_ok (replaceLoadedFile f b).
Proof. apply some_lines_start. Qed.
Lemma new_VimBuffer_ok f : vb_ok (new_VimBuffer f).
Proof. apply some_lines_start. Qed.
Lemma clampCursor_ok b : lines b <> [] -> vb_ok (clampCursor b).
Proof. apply setCursor_ok. Qed.
Lemma deleteOffsets_ok s e b : vb_ok (snd (deleteOffsets s e b)).
Proof. apply replaceOffsets_ok. Qed.
#[export] Hint Resolve replaceOffsets_ok deleteOffsets_ok deleteLines_ok insertLines_ok merge_lines_ok
  joinLines_ok replaceLine_ok indentLines_ok restore_ok markSaved_ok replaceLoadedFile_ok
  new_VimBuffer_ok clampCursor_ok setCursorFromOffset_ok splice_ne : vim.

Lemma deleteLines_lines s e b :
  lines b <> [] ->
  let s' := clampLine b (Z.min s e) in
  let e' := clampLine b (Z.max s e) in
  0 <= s' <= e' /\ e' < zlen (lines b) /\
  fst (deleteLines s e b) = slice (lines b) s' (e' + 1) /\
  lines (snd (deleteLines s e b))
  = some_lines (take (Z.to_nat s') (lines b) ++ drop (Z.to_nat (e' + 1)) (lines b)).
Proof.
  intros Hne s' e'.
  pose proof (clampLine_bounds b (Z.min s e) Hne) as H1. fold s' in H1.
  pose proof (clampLine_bounds b (Z.max s e) Hne) as H2. fold e' in H2.
  pose proof (clampLine_mono b (Z.min s e) (Z.max s e) ltac:(lia)) as H3. fold s' e' in H3.
  split_and!; [lia..|done|]. unfold deleteLines. fold s' e'. cbv zeta. cbn [snd].
  match goal with |- lines (if ?c then _ else _) = _ => destruct c end;
    cbn [lines with_trailing setCursor with_cursor with_lines]; rewrite splice_snd by lia; by replace (s' + (e' - s' + 1)) with (e' + 1) by lia.
Qed.

(** Lines deleted can be put back: deleting a range of lines removes exactly the lines of the
    (clamped) range, keeps one empty line when nothing is left, and inserting the removed lines at
    the start of the range restores the buffer's lines. *)
Theorem deleteLines_reinsert s e b :
  lines b <> [] ->
  let s' := clampLine b (Z.min s e) in
  let e' := clampLine b (Z.max s e) in
  let '(removed, b') := deleteLines s e b in
  removed = slice (lines b) s' (e' + 1) /\
  lines b' = some_lines (take (Z.to_nat s') (lines b) ++ drop (Z.to_nat (e' + 1)) (lines b)) /\
  (zlen removed < zlen (lines b) -> lines (insertLines s' removed b') = lines b) /\
  (zlen removed = zlen (lines b) -> lines b' = [[]] /\ removed = lines b).
Proof.
  intros Hne s' e'. destruct (deleteLines_lines s e b Hne) as (H1 & H2 & Hr & Hb').
  fold s' e' in H1, H2, Hr, Hb'. destruct (deleteLines s e b) as [removed b']. simpl in Hr, Hb'. subst removed.
  pose proof (zlen_slice (lines b) s' (e' + 1) ltac:(lia) ltac:(lia)) as Hlen.
  split_and!; [done|exact Hb'| |].
  - intros Hlt. unfold insertLines.
    cbn [lines with_trailing setCursor with_cursor with_lines]. rewrite Hb'. rewrite some_lines_id.
    2:{ intros E. apply (f_equal zlen) in E. rewrite zlen_app, zlen_take, zlen_drop in E by lia.
        change (zlen (@nil jstr)) with 0 in E. lia. }
    rewrite clamp_id by (rewrite zlen_app, zlen_take, zlen_drop by lia; lia).
    rewrite some_lines_id by (intros E; rewrite E in Hlen; change (zlen (@nil jstr)) with 0 in Hlen; lia).
    rewrite splice_snd by (rewrite ?zlen_app, ?zlen_take, ?zlen_drop by lia; lia).
    assert (Htl : length (take (Z.to_nat s') (lines b)) = Z.to_nat s').
    { rewrite length_take. unfold zlen in *. lia. }
    rewrite Z.add_0_r, take_app_length', drop_app_length' by done.
    rewrite <- slice_prefix, <- slice_suffix by lia. apply slice_glue; lia.
  - intros He. assert (s' = 0 /\ e' + 1 = zlen (lines b)) as [-> Hend] by lia.
    rewrite Hb', Hend. split.
    + change (Z.to_nat 0) with O. rewrite take_0, drop_ge by (unfold zlen; lia). done.
    + rewrite slice_prefix by lia. apply take_ge. unfold zlen. lia.
Qed.

Lemma restore_valid b b' :
  lines b <> [] -> valid_pos b (cursor b) -> restore (createSnapshot b) b' = b.
Proof.
  intros Hne [Hl Hc].
  unfold restore, createSnapshot. simpl. rewrite some_lines_id by done.
  unfold clampCursor, setCursor, with_cursor. cbn [lines cursor displayPath filePath modified
    trailingNewline baseFingerprint editabilityChecked line col].
  change (clampLine (mkBuffer _ _ (lines b) _ _ _ _ _)) with (clampLine b).
  change (clampCol (mkBuffer _ _ (lines b) _ _ _ _ _)) with (clampCol b).
  rewrite clampLine_id, clampCol_id by done. by destruct b as [? ? ? []].
Qed.

Lemma lines_equal_eq l r : lines_equal l r = true <-> r = l.
Proof.
  revert r. induction l as [|x l IH]; intros [|y r]; simpl; try done.
  rewrite andb_true_iff, bool_decide_eq_true, IH. naive_solver.
Qed.
Lemma snapshotEqual_lines l r : snapshotEqual l r = true -> lines r = lines l.
Proof. unfold snapshotEqual. rewrite !andb_true_iff. intros [_ H]. by apply lines_equal_eq. Qed.

(** Saved states come back: restoring a snapshot of a well-formed buffer whose cursor is
    inside its text gives that buffer whatever happened since, [clone] copies it, and
    [snapshotEqual] holds exactly for equal states. *)
Theorem snapshot_restores b b' :
  lines b <> [] -> valid_pos b (cursor b) ->
  restore (createSnapshot b) b' = b /\ clone b = b /\
  forall s, snapshotEqual b s = true <-> s = b.
Proof.
  intros Hne Hv. split_and!.
  - by apply restore_valid.
  - unfold clone, new_VimBuffer. simpl. rewrite some_lines_id by done. by destruct b.
  - assert (Hfp : forall l r, fingerprint_equal l r = true <-> r = l).
    { intros [[? ? ? ?]|] [[? ? ? ?]|]; simpl; try done.
      rewrite !andb_true_iff, !Z.eqb_eq, bool_decide_eq_true, eqb_true_iff. naive_solver. }
    intros s. unfold snapshotEqual.
    rewrite !andb_true_iff, !Z.eqb_eq, !bool_decide_eq_true, !eqb_true_iff, lines_equal_eq, Hfp.
    destruct b as [? ? ? [] ? ? ? ?], s as [? ? ? [] ? ? ? ?]; simpl. split.
    + intros ?. destruct_and!. by subst.
    + intros [=]. subst. by split_and!.
Qed.

(** * Witnesses *)

Definition demo_buffer : VimBuffer :=
  mkBuffer (u "a.txt") (u "/a.txt") [u "one"; []; u "three four"] (mkPos 2 3) false true None false.

Lemma offset_round_trip_witness :
  offsetToPosition demo_buffer (positionToOffset demo_buffer (mkPos 2 3)) = mkPos 2 3.
Proof.
  destruct (offset_round_trip demo_buffer) as [H _]; [discriminate|].
  apply H. split; vm_compute; split; discriminate || reflexivity.
Defined.

Lemma deleteLines_reinsert_witness :
  let '(removed, b') := deleteLines 1 2 demo_buffer in
  lines (insertLines 1 removed b') = lines demo_buffer.
Proof.
  pose proof (deleteLines_reinsert 1 2 demo_buffer ltac:(discriminate)) as H. cbv zeta in H.
  destruct (deleteLines 1 2 demo_buffer) as [removed b'] eqn:E.
  destruct H as (Hr & _ & H & _). apply H. rewrite Hr. vm_compute. reflexivity.
Defined.

Lemma snapshot_restores_witness :
  restore (createSnapshot demo_buffer) (snd (deleteLines 0 9 demo_buffer)) = demo_buffer.
Proof.
  destruct (snapshot_restores demo_buffer (snd (deleteLines 0 9 demo_buffer))) as [H _];
    [discriminate| |exact H].
  split; vm_compute; split; discriminate || reflexivity.
Defined.
