(* ===== verification/VimKeys.v ===== *)
(** The key-sequence reader of the vim tool
    (src/gajae-code/packages/coding-agent/src/vim/parser.ts).

    [parseKeySequences] walks every sequence by code-unit index; the model keeps the rest of the
    sequence and its offset.  [toLowerCase] is used on the name of a special key only; it is a
    parameter, and [ascii_lower] is what it does on ASCII. *)
From S2P Require Import Prelude.
#[local] Open Scope Z_scope.
#[local] Open Scope js_scope.

Record VimKeyToken := mkToken {
  value : jstr;
  display : jstr;
  sequenceIndex : Z;
  offset : Z }.

(** [VimInputError]: a message and, when it was given a token, its location. *)
Record VimInputError := mkVimError { message : jstr; location : option (Z * Z) }.
Definition VimError (msg : jstr) (token : VimKeyToken) : VimInputError :=
  mkVimError msg (Some (sequenceIndex token, offset token)).

Definition SPECIAL_KEYS : list (jstr * jstr) :=
  [(u "esc", u "Esc"); (u "escape", u "Esc"); (u "cr", u "CR"); (u "enter", u "CR");
   (u "return", u "CR"); (u "bs", u "BS"); (u "backspace", u "BS"); (u "tab", u "Tab");
   (u "c-d", u "C-d"); (u "c-u", u "C-u"); (u "c-r", u "C-r"); (u "c-w", u "C-w");
   (u "c-o", u "C-o")].

Fixpoint map_get (k : jstr) (m : list (jstr * jstr)) : option jstr :=
  match m with [] => None | (k', v) :: m' => if k === k' then Some v else map_get k m' end.

Definition ascii_lower (s : jstr) : jstr := map (fun c => if is_upper c then c + 32 else c) s.

Section Parser.
Context (toLowerCase : jstr -> jstr).

Definition normalizeSpecialKey (raw : jstr) : option jstr :=
  map_get (toLowerCase (trim raw)) SPECIAL_KEYS.

Definition toDisplayToken (v : jstr) : jstr :=
  if v ==s " " then u "<Space>"
  else if zlen v =? 1 then v else u "<" ++ v ++ u ">".

Definition ESC : jchar := 27.
Definition CR : jchar := 13.
Definition BACKSLASH : jchar := 92.

(** The four escapes [\r \e \n \t]. *)
Definition escape_key (c : jchar) : option (jstr * jstr) :=
  if c =? 114 then Some (u "CR", u "\r")
  else if c =? 101 then Some (u "Esc", u "\e")
  else if c =? 110 then Some ([NL], u "\n")
  else if c =? 116 then Some (u "Tab", u "\t")
  else None.

(** What stands between [<] and the next [>], and the rest after it. *)
Fixpoint special_name (s : jstr) : option (jstr * jstr) :=
  match s with
  | [] => None
  | c :: s' => if c =? 62 then Some ([], s')
               else match special_name s' with
                    | Some (raw, rest) => Some (c :: raw, rest)
                    | None => None
                    end
  end.

(** One token at the head of the sequence, and the rest after it. *)
Definition parse_key (si off : Z) (c : jchar) (s : jstr) :
    result VimInputError (VimKeyToken * jstr) :=
  if c =? ESC then Ok (mkToken (u "Esc") (u "<Esc>") si off, s)
  else if c =? CR then Ok (mkToken (u "CR") (u "<CR>") si off, s)
  else
    match (if c =? BACKSLASH then match s with d :: s' => (fun e => (e, s')) <$> escape_key d | [] => None end
           else None) with
    | Some ((v, d), s') => Ok (mkToken v d si off, s')
    | None =>
        if negb (c =? 60) then Ok (mkToken [c] (toDisplayToken [c]) si off, s)
        else match special_name s with
             | None =>
                 Err (VimError (u "Unterminated special key in sequence " ++ num_to_str (si + 1))
                        (mkToken [c] [c] si off))
             | Some (rawSpecial, rest) =>
                 match normalizeSpecialKey rawSpecial with
                 | None =>
                     Err (VimError (u "Unknown special key <" ++ rawSpecial ++ u "> in sequence "
                                      ++ num_to_str (si + 1))
                            (mkToken rawSpecial (u "<" ++ rawSpecial ++ u ">") si off))
                 | Some special =>
                     Ok (mkToken special (u "<" ++ rawSpecial ++ u ">") si off, rest)
                 end
             end
    end.

Fixpoint parse_sequence (fuel : nat) (si off : Z) (s : jstr) :
    result VimInputError (list VimKeyToken) :=
  match s with
  | [] => Ok []
  | c :: s' =>
      match fuel with
      | O => Ok []
      | S fuel =>
          match parse_key si off c s' with
          | Err e => Err e
          | Ok (token, rest) =>
              match parse_sequence fuel si (off + (1 + zlen s' - zlen rest)) rest with
              | Err e => Err e
              | Ok tokens => Ok (token :: tokens)
              end
          end
      end
  end.

Fixpoint parse_sequences (si : Z) (sequences : list jstr) : result VimInputError (list VimKeyToken) :=
  match sequences with
  | [] => Ok []
  | s :: rest =>
      match parse_sequence (length s) si 0 s with
      | Err e => Err e
      | Ok tokens =>
          match parse_sequences (si + 1) rest with
          | Err e => Err e
          | Ok tokens' => Ok (tokens ++ tokens')
          end
      end
  end.
Definition parseKeySequences (sequences : list jstr) : result VimInputError (list VimKeyToken) :=
  parse_sequences 0 sequences.

Fixpoint replay_from (i : Z) (values : list jstr) : list VimKeyToken :=
  match values with
  | [] => []
  | v :: vs => mkToken v (toDisplayToken v) 0 i :: replay_from (i + 1) vs
  end.
Definition replayTokens (values : list jstr) : list VimKeyToken := replay_from 0 values.
End Parser.

(** * Properties *)

Section ParserProofs.
Context (toLowerCase : jstr -> jstr).
#[local] Abbreviation parse_key := (parse_key toLowerCase).
#[local] Abbreviation parse_sequence := (parse_sequence toLowerCase).

Lemma special_name_length s raw rest : special_name s = Some (raw, rest) -> (length rest < length s)%nat.
Proof.
  revert raw. induction s as [|c s IH]; intros raw; simpl; [done|].
  destruct (c =? 62); [intros [= <- <-]; lia|].
  destruct (special_name s) as [[raw' rest']|]; [|done]. intros [= <- <-].
  specialize (IH raw' eq_refl). lia.
Qed.

Lemma map_get_in k m v : map_get k m = Some v -> v ∈ map snd m.
Proof.
  induction m as [|[k' v'] m IH]; [done|]. simpl. case_bool_decide; intros Hm.
  - injection Hm as ->. apply list_elem_of_here.
  - apply list_elem_of_further. auto.
Qed.

(** What a step consumes, and where its token stands. *)
Lemma parse_key_ok si off c s t rest :
  parse_key si off c s = Ok (t, rest) ->
  (length rest <= length s)%nat /\ sequenceIndex t = si /\ offset t = off /\ value t <> [60] /\
  value t <> [].
Proof.
  unfold VimKeys.parse_key.
  destruct (c =? ESC); [intros [= <- <-]; by vm_compute; split_and!; try done; lia|].
  destruct (c =? CR); [intros [= <- <-]; by split_and!|].
  destruct (if c =? BACKSLASH then _ else _) as [[[v d] s']|] eqn:E.
  - intros [= <- <-]. simpl. destruct (c =? BACKSLASH); [|done]. destruct s as [|x s]; [done|].
    unfold escape_key in E. repeat (case_match; simplify_eq/=); split_and!; try done; simpl; lia.
  - destruct (Z.eqb_spec c 60) as [->|Hc]; simpl.
    + destruct (special_name s) as [[raw r]|] eqn:Es; [|done].
      destruct (normalizeSpecialKey toLowerCase raw) as [sp|] eqn:Ek; [|done].
      intros [= <- <-]. apply special_name_length in Es. split_and!; try done; [lia|..];
        apply map_get_in in Ek; simpl; intros ->; by vm_compute in Ek; set_solver.
    + intros [= <- <-]. split_and!; try done; simpl; congruence.
Qed.

Lemma parse_sequence_fuel n m si off s :
  (length s <= n)%nat -> (length s <= m)%nat ->
  parse_sequence n si off s = parse_sequence m si off s.
Proof.
  revert m si off s. induction n as [|n IH]; intros m si off s Hn Hm.
  { destruct s; [by destruct m|simpl in *; lia]. }
  destruct s as [|c s]; [by destruct m|]. destruct m as [|m]; [simpl in *; lia|]. simpl in *.
  destruct (parse_key si off c s) as [[t rest]|e] eqn:E; [|done].
  apply parse_key_ok in E as [E _]. rewrite (IH m) by lia. done.
Qed.

Definition in_sequence (si : Z) (s : jstr) (off : Z) (t : VimKeyToken) : Prop :=
  sequenceIndex t = si /\ off <= offset t < off + zlen s /\ value t <> [60] /\ value t <> [].

Lemma parse_sequence_tokens n si off s ts :
  (length s <= n)%nat -> parse_sequence n si off s = Ok ts ->
  Forall (in_sequence si s off) ts /\ StronglySorted Z.lt (map offset ts).
Proof.
  revert off s ts. induction n as [|n IH]; intros off s ts Hn.
  { destruct s; [|simpl in *; lia]. simpl. intros [= <-]. by repeat constructor. }
  destruct s as [|c s]; simpl; [intros [= <-]; by repeat constructor|]. simpl in Hn.
  destruct (parse_key si off c s) as [[t rest]|e] eqn:E; [|done].
  apply parse_key_ok in E as (Hlen & Hsi & Hoff & Hv & Hv').
  destruct (parse_sequence n si _ rest) as [ts'|e] eqn:Er; [|done]. intros [= <-].
  apply IH in Er as [Hin Hs]; [|lia].
  assert (Hz : zlen rest <= zlen s) by (unfold zlen; lia). pose proof (zlen_nonneg s).
  split.
  - pose proof (zlen_cons c s). constructor; [unfold in_sequence; split_and!; try done; lia|].
    eapply Forall_impl; [exact Hin|]. intros x (? & ? & ? & ?). unfold in_sequence.
    split_and!; try done; lia.
  - simpl. constructor; [exact Hs|]. apply Forall_map.
    eapply Forall_impl; [exact Hin|]. intros x (? & ? & ? & ?). lia.
Qed.

Lemma parse_sequences_tokens si seqs ts :
  parse_sequences toLowerCase si seqs = Ok ts ->
  Forall (fun t => exists s, seqs !! Z.to_nat (sequenceIndex t - si) = Some s /\
                   si <= sequenceIndex t /\ 0 <= offset t < zlen s /\ value t <> [60] /\ value t <> []) ts.
Proof.
  revert si ts. induction seqs as [|s seqs IH]; intros si ts; simpl; [intros [= <-]; constructor|].
  destruct (parse_sequence (length s) si 0 s) as [ts1|] eqn:E1; [|done].
  destruct (parse_sequences toLowerCase (si + 1) seqs) as [ts2|] eqn:E2; [|done]. intros [= <-].
  apply parse_sequence_tokens in E1 as [E1 _]; [|lia]. apply IH in E2. apply Forall_app. split.
  - eapply Forall_impl; [exact E1|]. intros t (-> & ? & ?). exists s. rewrite Z.sub_diag.
    split_and!; try done; tauto || lia.
  - eapply Forall_impl; [exact E2|]. intros t (s' & Hs & Hle & ?). exists s'. split_and!; try tauto; try lia.
    replace (Z.to_nat (sequenceIndex t - si)) with (S (Z.to_nat (sequenceIndex t - (si + 1)))) by lia. done.
Qed.

(** The reader consumes every sequence whatever it holds (more fuel than the length of the
    sequence changes nothing), every token it returns points into the sequence it came from, and
    no token is empty or the plain key [<]: the operator [<<] and the text objects of [<] cannot
    be typed. *)
Theorem tokens_point_into_sequences seqs :
  (forall s si extra, parse_sequence (length s + extra) si 0 s = parse_sequence (length s) si 0 s) /\
  match parseKeySequences toLowerCase seqs with
  | Ok ts => Forall (fun t => exists s, seqs !! Z.to_nat (sequenceIndex t) = Some s /\
               0 <= sequenceIndex t /\ 0 <= offset t < zlen s /\ value t <> [60] /\ value t <> []) ts
  | Err e => location e <> None
  end.
Proof.
  split; [intros; apply parse_sequence_fuel; lia|]. unfold parseKeySequences.
  destruct (parse_sequences toLowerCase 0 seqs) as [ts|e] eqn:E.
  - apply parse_sequences_tokens in E. eapply Forall_impl; [exact E|].
    intros t (s & Hs & ?). exists s. rewrite Z.sub_0_r in Hs. tauto.
  - revert E. generalize 0. induction seqs as [|s seqs IH]; intros si; simpl; [done|].
    destruct (parse_sequence (length s) si 0 s) as [ts1|e1] eqn:E1.
    + destruct (parse_sequences toLowerCase (si + 1) seqs) eqn:E2; [done|]. intros [= <-]. by apply (IH (si + 1)).
    + intros [= <-]. clear IH. revert E1. generalize (length s) 0. clear. intros n off.
      revert off s. induction n as [|n IH]; intros off [|c s]; simpl; try done.
      destruct (parse_key si off c s) as [[t rest]|e2] eqn:E.
      * destruct (parse_sequence n si _ rest) eqn:Er; [done|]. intros [= <-]. by eapply IH.
      * intros [= <-]. revert E. unfold VimKeys.parse_key.
        repeat (case_match; simplify_eq/=; try done); by intros [= <-].
Qed.

(** ** Typing keys *)

Definition special_values : list jstr :=
  [u "Esc"; u "CR"; u "BS"; u "Tab"; u "C-d"; u "C-u"; u "C-r"; u "C-w"; u "C-o"].

(** A single character the reader does not interpret. *)
Definition literal_char (c : jchar) : Prop := c <> ESC /\ c <> CR /\ c <> BACKSLASH /\ c <> 60.
Definition typeable (v : jstr) : Prop := (exists c, v = [c] /\ literal_char c) \/ v ∈ special_values.
Definition print_key (v : jstr) : jstr :=
  match v with [c] => [c] | _ => u "<" ++ v ++ u ">" end.

Definition is_ascii (s : jstr) : Prop := Forall (fun c => 0 <= c < 128) s.
Context (lower_ascii : forall s, is_ascii s -> toLowerCase s = ascii_lower s).

Lemma special_name_app name rest :
  Forall (fun c => c <> 62) name -> special_name (name ++ 62 :: rest) = Some (name, rest).
Proof.
  induction 1 as [|c name Hc _ IH]; simpl; [done|]. rewrite IH. by destruct (Z.eqb_spec c 62).
Qed.

Lemma special_values_spec v :
  v ∈ special_values ->
  normalizeSpecialKey toLowerCase v = Some v /\ Forall (fun c => c <> 62) v /\
  print_key v = 60 :: v ++ [62].
Proof.
  unfold special_values. rewrite !elem_of_cons. unfold normalizeSpecialKey.
  intros Hv. destruct_or! Hv; try (by apply not_elem_of_nil in Hv); subst v;
    (rewrite lower_ascii by (repeat constructor; vm_compute; intuition discriminate);
     split_and!; [reflexivity|repeat constructor; discriminate|reflexivity]).
Qed.

Lemma parse_printed v si off rest :
  typeable v -> exists c s t, print_key v ++ rest = c :: s /\
    parse_key si off c s = Ok (t, rest) /\ value t = v /\ zlen (print_key v) = 1 + zlen s - zlen rest.
Proof.
  intros [(c & -> & H1 & H2 & H3 & H4)|Hv].
  - exists c, rest, (mkToken [c] (toDisplayToken [c]) si off). split; [done|].
    unfold VimKeys.parse_key.
    rewrite !(proj2 (Z.eqb_neq _ _)) by done. simpl. split_and!; [done|done|]. change (zlen [c]) with 1. lia.
  - destruct (special_values_spec v Hv) as (Hn & Hf & ->).
    exists 60, (v ++ 62 :: rest), (mkToken v (u "<" ++ v ++ u ">") si off).
    split; [simpl; by rewrite <- app_assoc|]. unfold VimKeys.parse_key.
    change (60 =? ESC) with false. change (60 =? CR) with false. change (60 =? BACKSLASH) with false.
    change (negb (60 =? 60)) with false. cbv iota. rewrite special_name_app, Hn by done.
    split_and!; [done|done|]. autorewrite with js. lia.
Qed.

Lemma parse_printed_all vs n si off :
  Forall typeable vs -> (length (concat (map print_key vs)) <= n)%nat ->
  exists ts, parse_sequence n si off (concat (map print_key vs)) = Ok ts /\ map value ts = vs.
Proof.
  intros Hvs. revert n off. induction Hvs as [|v vs Hv _ IH]; intros n off Hn; simpl in *.
  { exists []. by destruct n. }
  destruct (parse_printed v si off (concat (map print_key vs)) Hv) as (c & s & t & E & Hk & Ht & Hz).
  pose proof (parse_key_ok _ _ _ _ _ _ Hk) as [Hlen _].
  rewrite E in *. destruct n as [|n]; [simpl in Hn; lia|]. simpl in Hn. simpl. rewrite Hk.
  destruct (IH n (off + (1 + zlen s - zlen (concat (map print_key vs))))) as (ts & -> & Hm); [lia|].
  exists (t :: ts). split; [done|]. simpl. by rewrite Ht, Hm.
Qed.

(** What is typed is what is read: writing keys down (a plain character as itself, a special
    key as its name between angle brackets) and reading the sequence back gives the same keys, and
    so does the replay of the recorded values. *)
Theorem typed_keys_round_trip vs :
  Forall typeable vs ->
  map value (replayTokens vs) = vs /\
  exists ts, parseKeySequences toLowerCase [concat (map print_key vs)] = Ok ts /\ map value ts = vs.
Proof.
  intros Hvs. split.
  - unfold replayTokens. generalize 0. clear Hvs. induction vs as [|v vs IH]; intros i; [done|].
    simpl. by rewrite IH.
  - unfold parseKeySequences. simpl.
    destruct (parse_printed_all vs (length (concat (map print_key vs))) 0 0 Hvs) as (ts & -> & Hm); [lia|].
    exists ts. by rewrite app_nil_r.
Qed.
End ParserProofs.

(** * Witnesses *)

Lemma typed_keys_round_trip_witness :
  exists ts, parseKeySequences ascii_lower [concat (map print_key [[100]; u "Esc"; [32]; u "C-r"])] = Ok ts
    /\ map value ts = [[100]; u "Esc"; [32]; u "C-r"].
Proof.
  apply (typed_keys_round_trip ascii_lower (fun s _ => eq_refl)).
  repeat apply Forall_cons_2; [left|right|left|right|apply Forall_nil_2].
  - exists 100. split; [reflexivity|]. repeat split; discriminate.
  - apply list_elem_of_here.
  - exists 32. split; [reflexivity|]. repeat split; discriminate.
  - do 6 apply list_elem_of_further. apply list_elem_of_here.
Defined.
