(* ===== verification/VimEx.v ===== *)
(** The reader of ex commands
    (src/gajae-code/packages/coding-agent/src/vim/commands.ts).

    The code walks the raw string by index; the model keeps the rest of the string.  The three
    regular expressions of the file are written out as the scans they perform. *)
From S2P Require Import Prelude VimKeys.
#[local] Open Scope Z_scope.
#[local] Open Scope js_scope.

Record VimLineRange := mkRange { start : Z; end_ : Z }.
Inductive ExRange := RAll | RLines (r : VimLineRange).

Inductive VimExCommand :=
| ExWrite (force : bool)
| ExUpdate (force : bool)
| ExQuit (force : bool)
| ExWriteQuit (force : bool)
| ExEdit (force : bool) (path : option jstr)
| ExGotoLine (l : Z)
| ExSubstitute (range : option ExRange) (pattern replacement flags : jstr)
| ExDelete (range : option ExRange)
| ExYank (range : option ExRange)
| ExPut (range : option ExRange) (before : bool)
| ExCopy (range : option ExRange) (destination : Z)
| ExMove (range : option ExRange) (destination : Z)
| ExSort (range : option ExRange) (flags : jstr)
| ExJoin (range : option ExRange) (trimWhitespace : bool)
| ExGlobal (range : option ExRange) (pattern command : jstr) (invert : bool)
| ExAppend (range : option VimLineRange) (text : jstr)
| ExInsertBefore (range : option VimLineRange) (text : jstr).

Record VimExParseContext := { currentLine : Z; lastLine : Z }.

(** [new VimInputError(message)] without a token. *)
Definition ex_error (msg : jstr) : VimInputError := mkVimError msg None.

Definition clampLine (l : Z) (context : VimExParseContext) : Z :=
  clamp l 1 (Z.max 1 (lastLine context)).

Definition readDigits (raw : jstr) : jstr * jstr := (take_while is_digit raw, drop_while is_digit raw).

(** The offsets [+n], [-n] that follow an address. *)
Fixpoint read_offsets (fuel : nat) (raw : jstr) (l : Z) : Z * jstr :=
  match fuel, raw with
  | S fuel, sign :: raw' =>
      if (sign =? 43) || (sign =? 45) then
        let (digits, rest) := readDigits raw' in
        let offset := match digits with [] => 1 | _ => parse_dec digits end in
        read_offsets fuel rest (if sign =? 43 then l + offset else l - offset)
      else (l, raw)
  | _, _ => (l, raw)
  end.

(** The line and what follows the address. *)
Definition parseLineAddress (raw : jstr) (context : VimExParseContext) (relativeBase : Z) :
    option (Z * jstr) :=
  let first :=
    match raw with
    | [] => None
    | c :: raw' =>
        if is_digit c then Some (parse_dec (fst (readDigits raw)), snd (readDigits raw))
        else if c =? 46 then Some (currentLine context, raw')
        else if c =? 36 then Some (lastLine context, raw')
        else if (c =? 43) || (c =? 45) then Some (relativeBase, raw)
        else None
    end in
  match first with
  | None => None
  | Some (l, rest) =>
      let (l, rest) := read_offsets (length rest) rest l in
      Some (clampLine l context, rest)
  end.

Definition skip_spaces (s : jstr) : jstr := drop_while (fun c => c =? 32) s.

(** [/^(\d+)(?:\s*,\s*(\d+))?/], used when there is no context. *)
Definition match_plain_range (raw : jstr) : option (VimLineRange * jstr) :=
  let (d1, rest) := readDigits raw in
  match d1 with
  | [] => None
  | _ =>
      let first := parse_dec d1 in
      match drop_while is_ws rest with
      | 44 :: rest2 =>
          let (d2, rest3) := readDigits (drop_while is_ws rest2) in
          match d2 with
          | [] => Some (mkRange first first, rest)
          | _ => Some (mkRange first (parse_dec d2), rest3)
          end
      | _ => Some (mkRange first first, rest)
      end
  end.

Definition parseLineRange (raw : jstr) (context : option VimExParseContext) :
    result VimInputError (option ExRange * jstr) :=
  if starts_with raw (u "%") then Ok (Some RAll, trim_start (slice_from raw 1))
  else
    match context with
    | None =>
        match match_plain_range raw with
        | None => Ok (None, raw)
        | Some (r, rest) => Ok (Some (RLines r), trim_start rest)
        end
    | Some context =>
        match parseLineAddress raw context (currentLine context) with
        | None => Ok (None, raw)
        | Some (first, rest) =>
            match skip_spaces rest with
            | separator :: rest2 =>
                if (separator =? 44) || (separator =? 59) then
                  match parseLineAddress (skip_spaces rest2) context
                          (if separator =? 59 then first else currentLine context) with
                  | None => Err (ex_error (u "Missing line address after " ++ [separator]))
                  | Some (second, rest3) => Ok (Some (RLines (mkRange first second)), trim_start rest3)
                  end
                else Ok (Some (RLines (mkRange first first)), trim_start (separator :: rest2))
            | [] => Ok (Some (RLines (mkRange first first)), [])
            end
        end
    end.

(** The scan of [s/pattern/replacement/flags]: finished segments, the current one, escape flag. *)
Fixpoint segment_loop (delimiter : jchar) (raw : jstr) (segments : list jstr) (current : jstr)
    (escaped : bool) : list jstr * jstr :=
  match raw with
  | [] => (segments, current)
  | c :: raw' =>
      if escaped then segment_loop delimiter raw' segments (current ++ [c]) false
      else if c =? BACKSLASH then segment_loop delimiter raw' segments (current ++ [c]) true
      else if (c =? delimiter) && (zlen segments <? 2)
           then segment_loop delimiter raw' (segments ++ [current]) [] false
      else segment_loop delimiter raw' segments (current ++ [c]) false
  end.

Definition parseDelimitedSegments (raw : jstr) : result VimInputError (jstr * jstr * jstr) :=
  match raw with
  | [] => Err (ex_error (u "Missing substitute delimiter"))
  | delimiter :: raw' =>
      match segment_loop delimiter raw' [] [] false with
      | ([pattern; replacement], current) => Ok (pattern, replacement, trim current)
      | _ => Err (ex_error (u "Substitute command must look like :s/pattern/replacement/flags"))
      end
  end.

Definition all_digits (s : jstr) : bool := match s with [] => false | _ => forallb is_digit s end.

(** [Number.parseInt(s, 10)] of a trimmed string; [None] is NaN. *)
Definition parse_int (s : jstr) : option Z :=
  let (neg, body) := match s with
                     | 45 :: s' => (true, s')
                     | 43 :: s' => (false, s')
                     | _ => (false, s)
                     end in
  match take_while is_digit body with
  | [] => None
  | ds => Some (if neg then - parse_dec ds else parse_dec ds)
  end.

Definition parseDestination (raw : jstr) (context : option VimExParseContext) :
    result VimInputError Z :=
  let trimmed := trim raw in
  match trimmed with
  | [] => Err (ex_error (u "Missing destination"))
  | _ =>
      if all_digits trimmed then Ok (parse_dec trimmed)
      else
        let fallback := match parse_int trimmed with
                        | Some d => Ok d
                        | None => Err (ex_error (u "Invalid destination"))
                        end in
        match context with
        | None => fallback
        | Some context =>
            match parseLineAddress trimmed context (currentLine context) with
            | Some (l, rest) => match trim rest with [] => Ok l | _ => fallback end
            | None => fallback
            end
        end
  end.

(** A line terminator, which [.] does not match. *)
Definition is_line_end (c : jchar) : bool := (c =? 10) || (c =? 13) || (c =? 8232) || (c =? 8233).

(** [(.+?)\2]: at least one character, up to the next delimiter. *)
Definition lazy_until (delimiter : jchar) (s : jstr) : option (jstr * jstr) :=
  match s with
  | [] => None
  | c :: s' =>
      match drop_while (fun d => negb (d =? delimiter)) s' with
      | [] => None
      | _ :: rest => Some (c :: take_while (fun d => negb (d =? delimiter)) s', rest)
      end
  end.

Definition GLOBAL_NAMES : list (jstr * bool) :=
  [(u "g", false); (u "v", true); (u "g!", true); (u "global", false); (u "global!", true);
   (u "vglobal", true)].

Fixpoint match_global_names (names : list (jstr * bool)) (rest : jstr) :
    option (jstr * jstr * bool) :=
  match names with
  | [] => None
  | (name, invert) :: names' =>
      let found :=
        if starts_with rest name then
          match drop_while is_ws (slice_from rest (zlen name)) with
          | d :: body =>
              if ((d =? 47) || (d =? 124) || (d =? 35)) && negb (existsb is_line_end body) then
                match lazy_until d body with
                | Some (pattern, command) =>
                    let command := trim command in
                    Some (pattern, match command with [] => u "d" | _ => command end, invert)
                | None => None
                end
              else None
          | [] => None
          end
        else None in
      match found with Some g => Some g | None => match_global_names names' rest end
  end.
Definition matchGlobalCommand (rest : jstr) : option (jstr * jstr * bool) :=
  match_global_names GLOBAL_NAMES rest.

(** The characters of [/^[\d.$+-]/]. *)
Definition address_char (c : jchar) : bool :=
  is_digit c || (c =? 46) || (c =? 36) || (c =? 43) || (c =? 45).

Fixpoint matchDestinationCommand (rest : jstr) (prefixes : list jstr) : option jstr :=
  match prefixes with
  | [] => None
  | prefix :: prefixes' =>
      if starts_with rest prefix then
        match slice_from rest (zlen prefix) with
        | [] => Some []
        | (c :: _) as suffix => if is_ws c || address_char c then Some (trim suffix)
                              else matchDestinationCommand rest prefixes'
        end
      else matchDestinationCommand rest prefixes'
  end.

(** [rest === names[i]] for one of the names. *)
Definition one_of (names : list jstr) (rest : jstr) : bool := existsb (fun n => rest === n) names.
Definition one_starts (names : list jstr) (rest : jstr) : bool :=
  existsb (fun n => starts_with rest n) names.

Definition lines_only (r : option ExRange) : option VimLineRange :=
  match r with Some (RLines r) => Some r | _ => None end.

(** The commands that stand alone. *)
Definition parse_file_command (normalized : jstr) : option VimExCommand :=
  if one_of [u "w"; u "write"] normalized then Some (ExWrite false)
  else if one_of [u "w!"; u "write!"] normalized then Some (ExWrite true)
  else if one_of [u "update"; u "up"] normalized then Some (ExUpdate false)
  else if one_of [u "update!"; u "up!"] normalized then Some (ExUpdate true)
  else if one_of [u "wq"; u "x"; u "xit"; u "exit"] normalized then Some (ExWriteQuit false)
  else if one_of [u "wq!"; u "x!"; u "xit!"; u "exit!"] normalized then Some (ExWriteQuit true)
  else if one_of [u "q"; u "quit"] normalized then Some (ExQuit false)
  else if one_of [u "q!"; u "quit!"] normalized then Some (ExQuit true)
  else if one_of [u "e"; u "edit"] normalized then Some (ExEdit false None)
  else if one_of [u "e!"; u "edit!"] normalized then Some (ExEdit true None)
  else if one_starts [u "e "; u "edit "] normalized then
    Some (ExEdit false (Some (trim (slice_from normalized
            (if starts_with normalized (u "edit ") then 5 else 2)))))
  else if one_starts [u "e! "; u "edit! "] normalized then
    Some (ExEdit true (Some (trim (slice_from normalized
            (if starts_with normalized (u "edit! ") then 6 else 3)))))
  else None.

(** [/^s(?:\W|$)/] *)
Definition is_substitute (rest : jstr) : bool :=
  match rest with
  | 115 :: [] => true
  | 115 :: c :: _ => negb (is_word c)
  | _ => false
  end.

Definition substitute_command (range : option ExRange) (raw : jstr) :
    result VimInputError VimExCommand :=
  match parseDelimitedSegments raw with
  | Ok (p, r, f) => Ok (ExSubstitute range p r f)
  | Err e => Err e
  end.

(** The text argument of [append] and [insert]. *)
Definition text_argument (name rest : jstr) : jstr :=
  if starts_with rest name then trim_start (slice_from rest 6) else trim_start (slice_from rest 1).

(** The commands that take a range. *)
Definition parse_ranged_command (input : jstr) (range : option ExRange) (rest : jstr)
    (context : option VimExParseContext) : result VimInputError VimExCommand :=
  match matchGlobalCommand rest with
  | Some (p, c, inv) => Ok (ExGlobal range p c inv)
  | None =>
    if (rest ==s "sort") || one_starts [u "sort "; u "sort!"] rest then
      Ok (ExSort range (trim (slice_from rest 4)))
    else if one_of [u "j"; u "join"; u "j!"; u "join!"] rest then
      Ok (ExJoin range (negb (ends_with rest (u "!"))))
    else if starts_with rest (u "substitute") then
      substitute_command range (slice_from rest (zlen (u "substitute")))
    else if is_substitute rest then substitute_command range (slice_from rest 1)
    else if one_of [u "d"; u "del"; u "delete"] rest || one_starts [u "d "; u "del "; u "delete "] rest
    then Ok (ExDelete range)
    else if one_of [u "y"; u "ya"; u "yank"] rest || one_starts [u "y "; u "ya "; u "yank "] rest
    then Ok (ExYank range)
    else if one_of [u "pu"; u "put"; u "pu!"; u "put!"] rest then
      Ok (ExPut range (ends_with rest (u "!")))
    else
      match matchDestinationCommand rest [u "copy"; u "co"; u "t"] with
      | Some d => d ← parseDestination d context; mret (ExCopy range d)
      | None =>
        match matchDestinationCommand rest [u "move"; u "mo"; u "m"] with
        | Some d => d ← parseDestination d context; mret (ExMove range d)
        | None =>
            if one_of [u "a"; u "append"] rest || one_starts [u "a "; u "append "] rest then
              Ok (ExAppend (lines_only range) (text_argument (u "append") rest))
            else if one_of [u "i"; u "insert"] rest || one_starts [u "i "; u "insert "] rest then
              Ok (ExInsertBefore (lines_only range) (text_argument (u "insert") rest))
            else Err (ex_error (u "Unsupported ex command: " ++ input ++ u "."))
        end
      end
  end.

Definition parseExCommand (input : jstr) (context : option VimExParseContext) :
    result VimInputError VimExCommand :=
  let trimmed := trim input in
  let normalized := if starts_with trimmed (u ":") then trim_start (slice_from trimmed 1) else trimmed in
  match normalized with
  | [] => Err (ex_error (u "Empty ex command"))
  | _ =>
    if all_digits normalized then Ok (ExGotoLine (parse_dec normalized))
    else match parse_file_command normalized with
    | Some c => Ok c
    | None =>
      match matchGlobalCommand normalized with
      | Some (p, c, inv) => Ok (ExGlobal None p c inv)
      | None =>
        '(range, rest) ← parseLineRange normalized context;
        match range, rest with
        | Some RAll, [] => Err (ex_error (u ":% requires a following command"))
        | Some (RLines r), [] => Ok (ExGotoLine (start r))
        | _, _ => parse_ranged_command input range rest context
        end
      end
    end
  end.

(** * Properties *)

(** ** Ranges stay inside the buffer *)

Definition in_file (context : VimExParseContext) (r : option ExRange) : Prop :=
  match r with
  | Some (RLines r) => 1 <= start r <= Z.max 1 (lastLine context) /\
                       1 <= end_ r <= Z.max 1 (lastLine context)
  | _ => True
  end.

(** The range a command works on. *)
Definition range_of (c : VimExCommand) : option ExRange :=
  match c with
  | ExSubstitute r _ _ _ | ExDelete r | ExYank r | ExPut r _ | ExCopy r _ | ExMove r _
  | ExSort r _ | ExJoin r _ | ExGlobal r _ _ _ => r
  | ExAppend r _ | ExInsertBefore r _ => RLines <$> r
  | _ => None
  end.

Lemma address_in_file raw context base l rest :
  parseLineAddress raw context base = Some (l, rest) -> 1 <= l <= Z.max 1 (lastLine context).
Proof.
  unfold parseLineAddress.
  match goal with |- match ?f with _ => _ end = _ -> _ => destruct f as [[l0 r0]|]; [|done] end.
  destruct (read_offsets (length r0) r0 l0) as [l' r']. intros [= <- <-]. apply clamp_bounds. lia.
Qed.

Lemma range_in_file raw context r rest :
  parseLineRange raw (Some context) = Ok (r, rest) -> in_file context r.
Proof.
  unfold parseLineRange. destruct (starts_with raw (u "%")); [by intros [= <- _]|].
  destruct (parseLineAddress raw context _) as [[l1 r1]|] eqn:E1; [|by intros [= <- _]].
  apply address_in_file in E1. destruct (skip_spaces r1) as [|c r2]; [by intros [= <- _]|].
  destruct ((c =? 44) || (c =? 59)); [|by intros [= <- _]].
  destruct (parseLineAddress (skip_spaces r2) context _) as [[l2 r3]|] eqn:E2; [|done].
  apply address_in_file in E2. by intros [= <- _].
Qed.

Lemma substitute_range range raw c : substitute_command range raw = Ok c -> range_of c = range.
Proof.
  unfold substitute_command. destruct (parseDelimitedSegments raw) as [[[p r] f]|]; [|done].
  by intros [= <-].
Qed.

Lemma ranged_command_in_file input range rest context c :
  in_file context range -> parse_ranged_command input range rest (Some context) = Ok c ->
  in_file context (range_of c).
Proof.
  intros Hr. unfold parse_ranged_command.
  assert (Hl : in_file context (RLines <$> lines_only range)) by (by destruct range as [[|]|]).
  destruct (matchGlobalCommand rest) as [[[? ?] ?]|]; [by intros [= <-]|].
  case_match; [by intros [= <-]|]. case_match; [by intros [= <-]|].
  case_match; [intros Hs%substitute_range; by rewrite Hs|].
  case_match; [intros Hs%substitute_range; by rewrite Hs|].
  case_match; [by intros [= <-]|]. case_match; [by intros [= <-]|]. case_match; [by intros [= <-]|].
  case_match.
  { unfold mbind, result_bind. case_match; [by intros [= <-]|done]. }
  case_match.
  { unfold mbind, result_bind. case_match; [by intros [= <-]|done]. }
  case_match; [by intros [= <-]|]. case_match; [by intros [= <-]|done].
Qed.

(** Whatever the user types, the line range of an accepted ex command lies inside the file:
    each address ([n], [.], [$], offsets, [;] bases) is clamped to the lines there are. *)
Theorem ex_ranges_in_file input context c :
  parseExCommand input (Some context) = Ok c -> in_file context (range_of c).
Proof.
  unfold parseExCommand. set (n := if starts_with _ _ then _ else _). cbv zeta.
  destruct n as [|n0 n']; [done|]. destruct (all_digits (n0 :: n')); [by intros [= <-]|].
  destruct (parse_file_command _) as [c'|] eqn:Ef.
  { intros [= <-]. unfold parse_file_command in Ef.
    repeat (case_match; [by injection Ef as <-|]). done. }
  destruct (matchGlobalCommand _) as [[[? ?] ?]|]; [by intros [= <-]|].
  unfold mbind, result_bind. destruct (parseLineRange _ _) as [[range rest]|] eqn:Er; [|done].
  apply range_in_file in Er.
  destruct range as [[|r]|], rest as [|ch rest]; try (by apply ranged_command_in_file).
  - done.
  - by intros [= <-].
Qed.

(** ** Written ranges are read back *)

Lemma num_digits a rest c :
  0 <= a -> is_digit c = false ->
  readDigits (nat_to_str a ++ c :: rest) = (nat_to_str a, c :: rest) /\ parse_dec (nat_to_str a) = a.
Proof.
  intros Ha Hc. destruct (nat_to_str_spec a Ha) as (Hp & _ & Hall). unfold readDigits.
  by rewrite take_while_app, drop_while_app.
Qed.

Lemma num_head a : 0 <= a -> exists d ds, nat_to_str a = d :: ds /\ is_digit d = true.
Proof.
  intros Ha. destruct (nat_to_str_spec a Ha) as (_ & Hne & Hall).
  destruct (nat_to_str a) as [|d ds]; [done|]. apply Forall_cons in Hall as [Hd _]. eauto.
Qed.

Lemma address_of_number a c rest context base :
  1 <= a <= lastLine context -> is_digit c = false -> c <> 43 -> c <> 45 ->
  parseLineAddress (nat_to_str a ++ c :: rest) context base = Some (a, c :: rest).
Proof.
  intros Ha Hc H1 H2. destruct (num_digits a rest c ltac:(lia) Hc) as [Hd Hp].
  destruct (num_head a ltac:(lia)) as (d & ds & He & Hdig). unfold parseLineAddress.
  rewrite Hd. rewrite He at 1. cbn [app]. rewrite Hdig. cbn [fst snd length read_offsets].
  rewrite !(proj2 (Z.eqb_neq c _)) by done. cbn [orb].
  rewrite Hp. unfold clampLine. by rewrite clamp_id by lia.
Qed.

Lemma digit_neq d k : is_digit d = true -> is_digit k = false -> (k =? d) = false.
Proof. intros Hd Hk. apply Z.eqb_neq. intros ->. congruence. Qed.

(** A command that starts with a digit is none of the named ones. *)
Lemma digit_starts d s p : is_digit d = true ->
  match p with k :: _ => is_digit k = false | [] => False end -> starts_with (d :: s) p = false.
Proof. intros Hd. destruct p as [|k p]; [done|]. intros Hk. cbn [starts_with]. by rewrite digit_neq. Qed.

Lemma digit_not_named d s p : is_digit d = true ->
  match p with k :: _ => is_digit k = false | [] => False end -> ((d :: s) === p) = false.
Proof.
  intros Hd. destruct p as [|k p]; [done|]. intros Hk. apply bool_decide_eq_false_2.
  intros [= -> _]. congruence.
Qed.

Lemma digit_file_command d s : is_digit d = true -> parse_file_command (d :: s) = None.
Proof.
  intros Hd. unfold parse_file_command, one_of, one_starts. cbn [existsb].
  by rewrite !digit_not_named, !digit_starts by done.
Qed.

Lemma digit_global d s : is_digit d = true -> matchGlobalCommand (d :: s) = None.
Proof.
  intros Hd. unfold matchGlobalCommand, GLOBAL_NAMES. cbn [match_global_names].
  by rewrite !digit_starts by done.
Qed.

Definition range_commands : list (jstr * (option ExRange -> VimExCommand)) :=
  [(u "d", ExDelete); (u "delete", ExDelete); (u "y", ExYank); (u "yank", ExYank);
   (u "sort", fun r => ExSort r []); (u "j", fun r => ExJoin r true);
   (u "join!", fun r => ExJoin r false); (u "put", fun r => ExPut r false);
   (u "pu!", fun r => ExPut r true); (u "a", fun r => ExAppend (lines_only r) []);
   (u "i", fun r => ExInsertBefore (lines_only r) [])].

(** Each of the names is a plain word that is read as its command. *)
Lemma range_command_name name mk r context :
  (name, mk) ∈ range_commands ->
  exists c name', name = c :: name' /\ is_digit c = false /\ c <> 43 /\ c <> 45 /\
    Forall (fun c => is_ws c = false) name /\ forall input,
    parse_ranged_command input (Some (RLines r)) name (Some context) = Ok (mk (Some (RLines r))).
Proof.
  intros Hin. unfold range_commands in Hin. rewrite !elem_of_cons in Hin.
  destruct_or! Hin; try (by apply not_elem_of_nil in Hin); injection Hin as -> ->;
    (eexists _, _; split; [reflexivity|]; split_and!; try done; repeat constructor).
Qed.

Lemma read_range a b c rest context :
  1 <= a <= lastLine context -> 1 <= b <= lastLine context ->
  is_digit c = false -> c <> 43 -> c <> 45 -> Forall (fun c => is_ws c = false) (c :: rest) ->
  parseLineRange (nat_to_str a ++ u "," ++ nat_to_str b ++ c :: rest) (Some context)
  = Ok (Some (RLines (mkRange a b)), c :: rest).
Proof.
  intros Ha Hb Hc H43 H45 Hws. destruct (num_head a ltac:(lia)) as (d & ds & He & Hd).
  unfold parseLineRange. rewrite He at 1. cbn [app]. rewrite digit_starts by done.
  change (u "," ++ nat_to_str b ++ c :: rest) with (44 :: nat_to_str b ++ c :: rest).
  rewrite address_of_number by done.
  change (skip_spaces (44 :: nat_to_str b ++ c :: rest)) with (44 :: nat_to_str b ++ c :: rest).
  cbv iota beta. change ((44 =? 44) || (44 =? 59)) with true. cbv iota.
  assert (Hs : skip_spaces (nat_to_str b ++ c :: rest) = nat_to_str b ++ c :: rest).
  { destruct (num_head b ltac:(lia)) as (e & es & Heb & Hed). rewrite Heb. cbn [app].
    unfold skip_spaces. cbn [drop_while]. rewrite Z.eqb_sym, digit_neq by done. done. }
  rewrite Hs, address_of_number by done. unfold trim_start. inversion Hws. by rewrite drop_while_none.
Qed.

Lemma colon_dropped body : slice_from (u ":" ++ body) 1 = body.
Proof.
  change (slice_from (u ":" ++ body) 1) with (slice_from ([58] ++ body) 1).
  rewrite slice_suffix; [done|]. rewrite zlen_app. pose proof (zlen_nonneg body).
  change (zlen [58]) with 1. lia.
Qed.

(** A range that is written is the range that runs: [:a,b] followed by a command name is read
    as that command on lines [a] to [b], for every two lines of the file in either order. *)
Theorem written_range_is_read a b name mk context :
  (name, mk) ∈ range_commands ->
  1 <= a <= lastLine context -> 1 <= b <= lastLine context ->
  parseExCommand (u ":" ++ nat_to_str a ++ u "," ++ nat_to_str b ++ name) (Some context)
  = Ok (mk (Some (RLines (mkRange a b)))).
Proof.
  intros Hin Ha Hb.
  destruct (range_command_name name mk (mkRange a b) context Hin) as (c & name' & -> & Hc & H43 & H45 & Hws & Hcmd).
  destruct (nat_to_str_spec a ltac:(lia)) as (_ & _ & Hda), (nat_to_str_spec b ltac:(lia)) as (_ & _ & Hdb).
  destruct (num_head a ltac:(lia)) as (d & ds & He & Hd).
  pose proof (read_range a b c name' context Ha Hb Hc H43 H45 Hws) as Hrange.
  set (body := nat_to_str a ++ u "," ++ nat_to_str b ++ c :: name') in *.
  assert (Hnows : Forall (fun c => is_ws c = false) body).
  { unfold body. repeat (apply Forall_app; split); try (by repeat constructor); try done;
      (eapply Forall_impl; [eassumption|]; intros; by apply digit_not_ws). }
  unfold parseExCommand. rewrite (trim_no_ws (u ":" ++ body)) by (by constructor).
  replace (starts_with (u ":" ++ body) (u ":")) with true
    by (symmetry; apply starts_with_spec; by exists body). cbv iota.
  rewrite colon_dropped. unfold trim_start. rewrite drop_while_none by done.
  assert (Hbody : body = d :: (ds ++ u "," ++ nat_to_str b ++ c :: name')) by (unfold body; by rewrite He).
  rewrite Hbody at 1. cbv iota beta.
  assert (Hnd : all_digits body = false).
  { rewrite Hbody. unfold all_digits. rewrite <- Hbody. apply not_true_iff_false.
    intros Hf. rewrite forallb_forall in Hf.
    assert (is_digit 44 = true); [|done]. apply Hf. unfold body. apply in_or_app. right. by left. }
  rewrite Hnd, Hbody, digit_file_command, digit_global by done. rewrite <- Hbody.
  rewrite Hrange. unfold mbind, result_bind. cbv iota beta. apply Hcmd.
Qed.

(** ** Substitute segments *)

(** No delimiter outside an escape, and no escape left open. *)
Fixpoint seg_closed (delimiter : jchar) (escaped : bool) (s : jstr) : bool :=
  match s with
  | [] => negb escaped
  | c :: s' => if escaped then seg_closed delimiter false s'
               else if c =? BACKSLASH then seg_closed delimiter true s'
               else negb (c =? delimiter) && seg_closed delimiter false s'
  end.

Lemma segment_loop_closed d p rest segs cur esc :
  d <> BACKSLASH -> zlen segs < 2 -> seg_closed d esc p = true ->
  segment_loop d (p ++ d :: rest) segs cur esc = segment_loop d rest (segs ++ [cur ++ p]) [] false.
Proof.
  intros Hd Hlen. revert cur esc. induction p as [|c p IH]; intros cur esc; cbn [seg_closed app segment_loop].
  - destruct esc; [done|]. intros _. rewrite (proj2 (Z.eqb_neq d BACKSLASH) Hd), Z.eqb_refl.
    rewrite (proj2 (Z.ltb_lt (zlen segs) 2) Hlen). simpl. by rewrite app_nil_r.
  - destruct esc.
    + intros H. rewrite IH by done. by rewrite <- app_assoc.
    + destruct (c =? BACKSLASH).
      * intros H. rewrite IH by done. by rewrite <- app_assoc.
      * rewrite andb_true_iff, negb_true_iff. intros [-> H]. simpl. rewrite IH by done.
        by rewrite <- app_assoc.
Qed.

Lemma segment_loop_tail d s segs cur esc :
  zlen segs = 2 -> segment_loop d s segs cur esc = (segs, cur ++ s).
Proof.
  intros Hl. revert cur esc. induction s as [|c s IH]; intros cur esc; cbn [segment_loop].
  - by rewrite app_nil_r.
  - rewrite Hl. change (2 <? 2) with false. rewrite andb_false_r.
    destruct esc; [|destruct (c =? BACKSLASH)]; rewrite IH; by rewrite <- app_assoc.
Qed.

(** The three parts of a substitution are what stands between the delimiters: pattern and
    replacement come back unchanged (escaped delimiters included), the flags trimmed, for any
    delimiter but the backslash. *)
Theorem substitute_segments d p r f :
  d <> BACKSLASH -> seg_closed d false p = true -> seg_closed d false r = true ->
  parseDelimitedSegments (d :: p ++ d :: r ++ d :: f) = Ok (p, r, trim f).
Proof.
  intros Hd Hp Hr. unfold parseDelimitedSegments.
  rewrite segment_loop_closed by (done || (change (zlen (@nil jstr)) with 0; lia)).
  rewrite segment_loop_closed by (done || (unfold zlen; simpl; lia)).
  by rewrite segment_loop_tail.
Qed.

(** * Witnesses *)

Definition demo_context : VimExParseContext := {| currentLine := 5; lastLine := 20 |}.

Lemma ex_ranges_in_file_witness :
  in_file demo_context (range_of (ExDelete (Some (RLines (mkRange 6 20))))).
Proof. apply (ex_ranges_in_file (u ":.+1,$+9d") demo_context). vm_compute. reflexivity. Defined.

Lemma written_range_is_read_witness :
  parseExCommand (u ":12,7delete") (Some demo_context) = Ok (ExDelete (Some (RLines (mkRange 12 7)))).
Proof.
  refine (written_range_is_read 12 7 (u "delete") ExDelete demo_context _ _ _).
  - apply list_elem_of_further, list_elem_of_here.
  - simpl. lia.
  - simpl. lia.
Defined.

Lemma substitute_segments_witness :
  parseDelimitedSegments (u "/a\/b/c/ g") = Ok (u "a\/b", u "c", u "g").
Proof.
  apply (substitute_segments 47 (u "a\/b") (u "c") (u " g")); [discriminate|reflexivity|reflexivity].
Defined.
