(* ===== verification/VimText.v ===== *)
(** The text functions of the vim engine: words, paragraphs, brackets, patterns, case
    (src/gajae-code/packages/coding-agent/src/vim/engine.ts, lines 46 to 312 and the text
    objects).

    A loop [while (index < limit && p(index)) index += 1] is [while_up p index limit]; it makes
    at most [limit - index] steps, so the recursion on that number is the loop. *)
From S2P Require Import Prelude VimBuffer.
#[local] Open Scope Z_scope.
#[local] Open Scope js_scope.

Fixpoint scan_up (n : nat) (p : Z -> bool) (i : Z) : Z :=
  match n with O => i | S n => if p i then scan_up n p (i + 1) else i end.
Definition while_up (p : Z -> bool) (i limit : Z) : Z := scan_up (Z.to_nat (limit - i)) p i.

Fixpoint scan_down (n : nat) (p : Z -> bool) (i : Z) : Z :=
  match n with O => i | S n => if p i then scan_down n p (i - 1) else i end.
Definition while_down (p : Z -> bool) (i limit : Z) : Z := scan_down (Z.to_nat (i - limit)) p i.

Definition DEFAULT_VIEWPORT_HEIGHT : Z := 10.
Definition BRACKET_PAIRS : list (jchar * jchar) := [(40, 41); (91, 93); (123, 125); (60, 62)].
Fixpoint assoc_char (c : jchar) (m : list (jchar * jchar)) : option jchar :=
  match m with [] => None | (k, v) :: m' => if c =? k then Some v else assoc_char c m' end.
Definition open_to_close (c : jchar) : option jchar := assoc_char c BRACKET_PAIRS.
Definition close_to_open (c : jchar) : option jchar :=
  assoc_char c (map (fun p => (p.2, p.1)) BRACKET_PAIRS).
Definition NOOP_Z_COMMANDS : list jstr :=
  [u "a"; u "A"; u "c"; u "C"; u "m"; u "M"; u "o"; u "O"; u "r"; u "R"; u "v"; u "x"; u "X"].

(** ** Patterns *)

(** The characters of [/[.*+?^${}()|[\]\\]/]. *)
Definition is_regex_special (c : jchar) : bool :=
  existsb (Z.eqb c) [46; 42; 43; 63; 94; 36; 123; 125; 40; 41; 124; 91; 93; 92].
Definition escapeRegex (value : jstr) : jstr :=
  concat (map (fun c => if is_regex_special c then [92; c] else [c]) value).

(** The characters whose escaping vim and JavaScript swap. *)
Definition is_magic (c : jchar) : bool := existsb (Z.eqb c) [40; 41; 123; 125; 124; 43].
Fixpoint vimPatternToJsRegex (pattern : jstr) : jstr :=
  match pattern with
  | [] => []
  | c :: p' =>
      match p' with
      | d :: p'' => if (c =? 92) && is_magic d then d :: vimPatternToJsRegex p''
                    else if is_magic c then 92 :: c :: vimPatternToJsRegex p'
                    else c :: vimPatternToJsRegex p'
      | [] => if is_magic c then [92; c] else [c]
      end
  end.

(** [s.replace(/ab/g, out)] for two characters. *)
Fixpoint replace_pair (a b : jchar) (out s : jstr) : jstr :=
  match s with
  | [] => []
  | c :: s' =>
      match s' with
      | d :: s'' => if (c =? a) && (d =? b) then out ++ replace_pair a b out s''
                    else c :: replace_pair a b out s'
      | [] => [c]
      end
  end.
Definition decodeReplacement (replacement : jstr) : jstr :=
  replace_pair 92 92 [92] (replace_pair 92 47 [47] replacement).

(** [literalTextToReplayTokens]: by code points. *)
Definition literalTextToReplayTokens (text : jstr) : list jstr :=
  map (fun c => if c === [10] then u "CR" else if c === [9] then u "Tab" else c) (code_points text).

Fixpoint detectIndentUnit (ls : list jstr) : jstr :=
  match ls with
  | [] => [9]
  | l :: ls' => if starts_with l [9] then [9]
                else if starts_with l (u "  ") then u "  " else detectIndentUnit ls'
  end.

(** ** Words *)

Inductive Category := space | word | punct.
#[export] Instance category_eq_dec : EqDecision Category.
Proof. solve_decision. Defined.

(** [char] is a string of at most one unit. *)
Definition wordCategory (char : jstr) (bigWord : bool) : Category :=
  if (zlen char =? 0) || existsb is_ws char then space
  else if bigWord then word
  else if existsb is_word char then word else punct.
Definition cat_at (text : jstr) (i : Z) (bigWord : bool) : Category :=
  wordCategory (char_str text i) bigWord.
Definition cat_is (text : jstr) (bigWord : bool) (c : Category) (i : Z) : bool :=
  bool_decide (cat_at text i bigWord = c).

Definition nextWordStart (text : jstr) (offset : Z) (bigWord : bool) : Z :=
  let index := clamp offset 0 (zlen text) in
  if zlen text <=? index then zlen text
  else
    let currentCategory := cat_at text index bigWord in
    if bool_decide (currentCategory = space) then
      while_up (cat_is text bigWord space) index (zlen text)
    else
      let index := while_up (cat_is text bigWord currentCategory) index (zlen text) in
      while_up (cat_is text bigWord space) index (zlen text).

Definition previousWordStart (text : jstr) (offset : Z) (bigWord : bool) : Z :=
  let index := clamp (offset - 1) 0 (zlen text) in
  let index := while_down (cat_is text bigWord space) index 0 in
  let category := cat_at text index bigWord in
  while_down (fun i => cat_is text bigWord category (i - 1)) index 0.

Definition endOfWord (text : jstr) (offset : Z) (bigWord : bool) : Z :=
  let index := clamp offset 0 (zlen text) in
  let index := while_up (cat_is text bigWord space) index (zlen text) in
  let category := cat_at text index bigWord in
  let index := while_up (cat_is text bigWord category) index (zlen text) in
  Z.max 0 (index - 1).

Definition endOfPreviousWord (text : jstr) (offset : Z) (bigWord : bool) : Z :=
  if zlen text =? 0 then 0
  else
    let index := clamp (offset - 1) 0 (zlen text - 1) in
    let index := while_down (cat_is text bigWord space) index (-1) in
    if index <? 0 then 0
    else
      let currentCategory := cat_at text index bigWord in
      let index := while_down (cat_is text bigWord currentCategory) index (-1) in
      let index := while_down (cat_is text bigWord space) index (-1) in
      Z.max 0 index.

(** The maximal run around [offset] of the category of its character. *)
Definition word_around (text : jstr) (offset : Z) : Z * Z :=
  let cat := cat_at text offset false in
  (while_down (fun i => cat_is text false cat (i - 1)) offset 0,
   while_up (cat_is text false cat) offset (zlen text)).

Definition toggle_char (c : jchar) : jchar :=
  if is_lower c then c - 32 else if is_upper c then c + 32 else c.
Definition toggleCase (text : jstr) : jstr := map toggle_char text.

Definition ws_at (l : jstr) (i : Z) : bool := existsb is_ws (char_str l i).
Definition lastNonBlankColumn (l : jstr) : Z :=
  let index := while_down (ws_at l) (zlen l - 1) (-1) in
  if index <? 0 then 0 else index.

(** ** Paragraphs *)

Definition blank_at (ls : list jstr) (i : Z) : bool := zlen (trim (default [] (at_ ls i))) =? 0.

Definition findParagraphStart (ls : list jstr) (l : Z) : Z :=
  let index := Z.max 0 (l - 1) in
  let index := while_down (fun i => negb (blank_at ls i)) index 0 in
  while_down (fun i => blank_at ls (i - 1)) index 0.

Definition findParagraphEnd (ls : list jstr) (l : Z) : Z :=
  let last := zlen ls - 1 in
  let index := Z.min last (l + 1) in
  let index := while_up (fun i => negb (blank_at ls i)) index last in
  while_up (fun i => blank_at ls (i + 1)) index last.

Definition normalizeRange (s e : Z) : Z * Z := (Z.min s e, Z.max s e).

(** A range of offsets, and whether it is made of whole lines. *)
Record TextRange := mkTextRange { tr_start : Z; tr_end : Z; tr_linewise : bool }.

(** The offsets of lines [startLine] to [endLine] with their line ends. *)
Definition line_offsets (b : VimBuffer) (startLine endLine : Z) : TextRange :=
  mkTextRange (positionToOffset b (mkPos startLine 0))
    (if lastLineIndex b <=? endLine then zlen (getText b)
     else positionToOffset b (mkPos (endLine + 1) 0)) true.

Definition expandVisualOffsets (b : VimBuffer) (anchor : Position) (linewise : bool) : TextRange :=
  if linewise then
    line_offsets b (Z.min (line anchor) (line (cursor b))) (Z.max (line anchor) (line (cursor b)))
  else
    let (s, e) := normalizeRange (positionToOffset b anchor) (positionToOffset b (cursor b)) in
    mkTextRange s (e + 1) false.

Record VimSelection := mkSelection { sel_line : bool; sel_start : Position; sel_end : Position }.
Definition selectionFromAnchor (b : VimBuffer) (anchor : Position) (linewise : bool) : VimSelection :=
  if linewise then
    let startLine := Z.min (line anchor) (line (cursor b)) in
    let endLine := Z.max (line anchor) (line (cursor b)) in
    mkSelection true (mkPos (startLine + 1) 1) (mkPos (endLine + 1) (zlen (getLine b endLine) + 1))
  else
    let s := minPosition anchor (cursor b) in
    let e := maxPosition anchor (cursor b) in
    mkSelection false (mkPos (line s + 1) (col s + 1)) (mkPos (line e + 1) (col e + 1)).

(** ** Text objects *)

Definition resolveWordTextObject (b : VimBuffer) (inner bigWord : bool) : TextRange :=
  let text := getText b in
  let cursor := currentOffset b in
  let s := if cat_is text bigWord space cursor then nextWordStart text cursor bigWord else cursor in
  let category := cat_at text s bigWord in
  let s := while_down (fun i => cat_is text bigWord category (i - 1)) s 0 in
  let e := while_up (cat_is text bigWord category) s (zlen text) in
  if inner then mkTextRange s e false
  else mkTextRange (while_down (fun i => cat_is text bigWord space (i - 1)) s 0)
         (while_up (cat_is text bigWord space) e (zlen text)) false.

Definition resolveParagraphTextObject (b : VimBuffer) (inner : bool) : TextRange :=
  let ls := lines b in
  let cursorLine := line (cursor b) in
  let last := zlen ls - 1 in
  let up (blank : bool) i := while_down (fun i => Bool.eqb (blank_at ls (i - 1)) blank) i 0 in
  let down (blank : bool) i := while_up (fun i => Bool.eqb (blank_at ls (i + 1)) blank) i last in
  let blank := blank_at ls cursorLine in
  let s := up blank cursorLine in
  let e := down blank cursorLine in
  let e := if inner then e else down (negb blank) e in
  line_offsets b s e.

(** Scan left for the unmatched [open]. *)
Fixpoint find_open (n : nat) (text : jstr) (open close : jchar) (i depth : Z) : option Z :=
  match n with
  | O => None
  | S n =>
      let c := char_str text i in
      if c === [close] then find_open n text open close (i - 1) (depth + 1)
      else if c === [open] then
        if depth =? 0 then Some i else find_open n text open close (i - 1) (depth - 1)
      else find_open n text open close (i - 1) depth
  end.

(** Scan right for the [close] that brings the depth back to zero. *)
Fixpoint find_close (n : nat) (text : jstr) (open close : jchar) (i depth : Z) : option Z :=
  match n with
  | O => None
  | S n =>
      let c := char_str text i in
      if c === [open] then find_close n text open close (i + 1) (depth + 1)
      else if c === [close] then
        if depth - 1 =? 0 then Some i else find_close n text open close (i + 1) (depth - 1)
      else find_close n text open close (i + 1) depth
  end.

Definition resolveBracketTextObject (b : VimBuffer) (inner : bool) (open close : jchar) :
    option TextRange :=
  let text := getText b in
  let cursor := currentOffset b in
  match find_open (Z.to_nat (cursor + 1)) text open close cursor 0 with
  | None => None
  | Some s =>
      match find_close (Z.to_nat (zlen text - s)) text open close s 0 with
      | None => None
      | Some e => Some (if inner then mkTextRange (s + 1) e false else mkTextRange s (e + 1) false)
      end
  end.

Definition resolveQuoteTextObject (b : VimBuffer) (inner : bool) (quote : jstr) : option TextRange :=
  let l := getLine b (line (cursor b)) in
  let c := col (cursor b) in
  let before := last_index_of l quote c in
  let after := index_of l quote (c + (if char_str l c === quote then 1 else 0)) in
  if (before =? -1) || (after =? -1) || (before =? after) then None
  else
    let startCol := if inner then before + 1 else before in
    let endCol := if inner then after else after + 1 in
    Some (mkTextRange (positionToOffset b (mkPos (line (cursor b)) startCol))
            (positionToOffset b (mkPos (line (cursor b)) endCol)) false).

(** The scan left of [%], which counts the closing bracket it starts on. *)
Fixpoint find_open_from (n : nat) (text : jstr) (open close : jchar) (i depth : Z) : option Z :=
  match n with
  | O => None
  | S n =>
      let c := char_str text i in
      if c === [close] then find_open_from n text open close (i - 1) (depth + 1)
      else if c === [open] then
        if depth - 1 =? 0 then Some i else find_open_from n text open close (i - 1) (depth - 1)
      else find_open_from n text open close (i - 1) depth
  end.

Definition bracket_of (s : jstr) (f : jchar -> option jchar) : option (jchar * jchar) :=
  match s with [c] => (fun d => (c, d)) <$> f c | _ => None end.

Definition findMatchingBracket (b : VimBuffer) : option Position :=
  let text := getText b in
  let cursor := currentOffset b in
  let is_bracket s := bool_decide (is_Some (bracket_of s open_to_close))
                      || bool_decide (is_Some (bracket_of s close_to_open)) in
  let offset := if is_bracket (char_str text cursor) then cursor else cursor + 1 in
  let char := char_str text offset in
  offsetToPosition b <$>
    match bracket_of char open_to_close with
    | Some (c, close) => find_close (Z.to_nat (zlen text - offset)) text c close offset 0
    | None =>
        match bracket_of char close_to_open with
        | Some (c, open) => find_open_from (Z.to_nat (offset + 1)) text open c offset 0
        | None => None
        end
    end.
