(* ===== verification/VimEngine.v ===== *)
(** The vim engine: its state and the commands that edit the buffer
    (src/gajae-code/packages/coding-agent/src/vim/engine.ts).

    A method of the class is a computation in [SM]: it may change the engine and throw, and what
    it changed before throwing stays.  What the engine calls outside its file is the class
    [VimHost]: the three callbacks, the progress callback, JavaScript's case conversion and its
    regular expressions.  The callback [beforeMutate] may set the buffer's [editabilityChecked]
    flag and may throw (so tools/vim.ts implements it).  The undo and redo stacks are lists with
    the top first.  Counts are exact integers: a count above 2^53 is rounded by the code. *)
From S2P Require Import Prelude VimBuffer VimKeys VimEx VimText.
#[local] Open Scope Z_scope.
#[local] Open Scope js_scope.

(** What a failing command throws: the engine's own errors, an error of a callback, a
    [SyntaxError] of [new RegExp], or the repeat of a change from within a repeat deeper than the
    bound of the run. *)
Inductive VErr :=
| VimErr (e : VimInputError)
| HostErr (e : jstr)
| RegexSyntax
| RepeatTooDeep.

(** The host of the engine. *)
Class VimHost (W Diag : Type) := {
  beforeMutate : VimBuffer -> W -> W * bool * option jstr;
  loadBuffer : jstr -> W -> W * result jstr VimLoadedFile;
  saveBuffer : VimBuffer -> bool -> W -> W * result jstr (VimLoadedFile * option Diag);
  onStep : W -> W * option jstr;
  diag_summary : Diag -> jstr;
  toUpperCase : jstr -> jstr;
  toLowerCase : jstr -> jstr;
  Regex : Type;
  newRegExp : jstr -> jstr -> option Regex;
  regex_exec : Regex -> jstr -> Z -> option (Z * Z);
  (** A match starts at or after [lastIndex] and lies inside the text. *)
  regex_exec_bounds : forall r text i a b, regex_exec r text i = Some (a, b) ->
    i <= a <= b /\ b <= zlen text }.

Inductive VimInputMode :=
| M_normal | M_insert | M_visual | M_visual_line | M_command | M_search_forward | M_search_backward.
#[export] Instance mode_eq_dec : EqDecision VimInputMode.
Proof. solve_decision. Defined.
Inductive VimMode := NORMAL | INSERT | VISUAL | VISUAL_LINE | COMMAND.

Definition toPublicMode (m : VimInputMode) : VimMode :=
  match m with
  | M_insert => INSERT | M_visual => VISUAL | M_visual_line => VISUAL_LINE
  | M_command | M_search_forward | M_search_backward => COMMAND
  | M_normal => NORMAL
  end.

Record VimRegister := mkRegister { reg_linewise : bool; reg_text : jstr }.
Record VimSearchState := mkSearch { search_pattern : jstr; direction : Z }.
Inductive FindMode := find_f | find_F | find_t | find_T.
Record CharFind := mkFind { find_char : jstr; find_mode : FindMode }.
Record LastVisual := mkVisual { v_anchor : Position; v_cursor : Position; v_mode : VimInputMode }.
Record VimUndoEntry := mkUndo { before : VimBufferSnapshot; after : VimBufferSnapshot }.
Record PendingChange := mkPending {
  p_before : VimBufferSnapshot;
  p_tokens : list jstr;
  moveCursorLeftOnEscape : bool;
  inserted : bool }.
Record VimPendingInput := mkPendingInput { pi_mode : VimInputMode; pi_text : jstr }.

(** [MotionResult]: [inclusive] is false only when the code sets it so. *)
Record MotionResult := mkMotion {
  nextIndex : Z;
  target : Position;
  inclusive : bool;
  m_linewise : bool;
  m_range : option TextRange }.
Definition motion_to (i : Z) (p : Position) : MotionResult := mkMotion i p true false None.
Definition motion_lines (i : Z) (p : Position) : MotionResult := mkMotion i p true true None.

Section Engine.
Context {W Diag : Type} `{!VimHost W Diag}.

Record Engine := mkEngine {
  buffer : VimBuffer;
  inputMode : VimInputMode;
  selectionAnchor : option Position;
  register : VimRegister;
  lastSearch : option VimSearchState;
  lastCharFind : option CharFind;
  lastVisual : option LastVisual;
  lastCommand : option jstr;
  statusMessage : option jstr;
  diagnostics : option Diag;
  viewportStart : Z;
  closed : bool;
  undoStack : list VimUndoEntry;
  redoStack : list VimUndoEntry;
  pendingInput : jstr;
  lastChangeTokens : option (list jstr);
  pendingChange : option PendingChange;
  world : W }.

Definition set_buffer (x : VimBuffer) (s : Engine) : Engine :=
  mkEngine x (inputMode s) (selectionAnchor s) (register s) (lastSearch s) (lastCharFind s)
    (lastVisual s) (lastCommand s) (statusMessage s) (diagnostics s) (viewportStart s) (closed
    s) (undoStack s) (redoStack s) (pendingInput s) (lastChangeTokens s) (pendingChange s)
    (world s).
Definition set_inputMode (x : VimInputMode) (s : Engine) : Engine :=
  mkEngine (buffer s) x (selectionAnchor s) (register s) (lastSearch s) (lastCharFind s)
    (lastVisual s) (lastCommand s) (statusMessage s) (diagnostics s) (viewportStart s) (closed
    s) (undoStack s) (redoStack s) (pendingInput s) (lastChangeTokens s) (pendingChange s)
    (world s).
Definition set_selectionAnchor (x : option Position) (s : Engine) : Engine :=
  mkEngine (buffer s) (inputMode s) x (register s) (lastSearch s) (lastCharFind s) (lastVisual
    s) (lastCommand s) (statusMessage s) (diagnostics s) (viewportStart s) (closed s) (undoStack
    s) (redoStack s) (pendingInput s) (lastChangeTokens s) (pendingChange s) (world s).
Definition set_register (x : VimRegister) (s : Engine) : Engine :=
  mkEngine (buffer s) (inputMode s) (selectionAnchor s) x (lastSearch s) (lastCharFind s)
    (lastVisual s) (lastCommand s) (statusMessage s) (diagnostics s) (viewportStart s) (closed
    s) (undoStack s) (redoStack s) (pendingInput s) (lastChangeTokens s) (pendingChange s)
    (world s).
Definition set_lastSearch (x : option VimSearchState) (s : Engine) : Engine :=
  mkEngine (buffer s) (inputMode s) (selectionAnchor s) (register s) x (lastCharFind s)
    (lastVisual s) (lastCommand s) (statusMessage s) (diagnostics s) (viewportStart s) (closed
    s) (undoStack s) (redoStack s) (pendingInput s) (lastChangeTokens s) (pendingChange s)
    (world s).
Definition set_lastCharFind (x : option CharFind) (s : Engine) : Engine :=
  mkEngine (buffer s) (inputMode s) (selectionAnchor s) (register s) (lastSearch s) x
    (lastVisual s) (lastCommand s) (statusMessage s) (diagnostics s) (viewportStart s) (closed
    s) (undoStack s) (redoStack s) (pendingInput s) (lastChangeTokens s) (pendingChange s)
    (world s).
Definition set_lastVisual (x : option LastVisual) (s : Engine) : Engine :=
  mkEngine (buffer s) (inputMode s) (selectionAnchor s) (register s) (lastSearch s)
    (lastCharFind s) x (lastCommand s) (statusMessage s) (diagnostics s) (viewportStart s)
    (closed s) (undoStack s) (redoStack s) (pendingInput s) (lastChangeTokens s) (pendingChange
    s) (world s).
Definition set_lastCommand (x : option jstr) (s : Engine) : Engine :=
  mkEngine (buffer s) (inputMode s) (selectionAnchor s) (register s) (lastSearch s)
    (lastCharFind s) (lastVisual s) x (statusMessage s) (diagnostics s) (viewportStart s)
    (closed s) (undoStack s) (redoStack s) (pendingInput s) (lastChangeTokens s) (pendingChange
    s) (world s).
Definition set_statusMessage (x : option jstr) (s : Engine) : Engine :=
  mkEngine (buffer s) (inputMode s) (selectionAnchor s) (register s) (lastSearch s)
    (lastCharFind s) (lastVisual s) (lastCommand s) x (diagnostics s) (viewportStart s) (closed
    s) (undoStack s) (redoStack s) (pendingInput s) (lastChangeTokens s) (pendingChange s)
    (world s).
Definition set_diagnostics (x : option Diag) (s : Engine) : Engine :=
  mkEngine (buffer s) (inputMode s) (selectionAnchor s) (register s) (lastSearch s)
    (lastCharFind s) (lastVisual s) (lastCommand s) (statusMessage s) x (viewportStart s)
    (closed s) (undoStack s) (redoStack s) (pendingInput s) (lastChangeTokens s) (pendingChange
    s) (world s).
Definition set_viewportStart (x : Z) (s : Engine) : Engine :=
  mkEngine (buffer s) (inputMode s) (selectionAnchor s) (register s) (lastSearch s)
    (lastCharFind s) (lastVisual s) (lastCommand s) (statusMessage s) (diagnostics s) x (closed
    s) (undoStack s) (redoStack s) (pendingInput s) (lastChangeTokens s) (pendingChange s)
    (world s).
Definition set_closed (x : bool) (s : Engine) : Engine :=
  mkEngine (buffer s) (inputMode s) (selectionAnchor s) (register s) (lastSearch s)
    (lastCharFind s) (lastVisual s) (lastCommand s) (statusMessage s) (diagnostics s)
    (viewportStart s) x (undoStack s) (redoStack s) (pendingInput s) (lastChangeTokens s)
    (pendingChange s) (world s).
Definition set_undoStack (x : list VimUndoEntry) (s : Engine) : Engine :=
  mkEngine (buffer s) (inputMode s) (selectionAnchor s) (register s) (lastSearch s)
    (lastCharFind s) (lastVisual s) (lastCommand s) (statusMessage s) (diagnostics s)
    (viewportStart s) (closed s) x (redoStack s) (pendingInput s) (lastChangeTokens s)
    (pendingChange s) (world s).
Definition set_redoStack (x : list VimUndoEntry) (s : Engine) : Engine :=
  mkEngine (buffer s) (inputMode s) (selectionAnchor s) (register s) (lastSearch s)
    (lastCharFind s) (lastVisual s) (lastCommand s) (statusMessage s) (diagnostics s)
    (viewportStart s) (closed s) (undoStack s) x (pendingInput s) (lastChangeTokens s)
    (pendingChange s) (world s).
Definition set_pendingInput (x : jstr) (s : Engine) : Engine :=
  mkEngine (buffer s) (inputMode s) (selectionAnchor s) (register s) (lastSearch s)
    (lastCharFind s) (lastVisual s) (lastCommand s) (statusMessage s) (diagnostics s)
    (viewportStart s) (closed s) (undoStack s) (redoStack s) x (lastChangeTokens s)
    (pendingChange s) (world s).
Definition set_lastChangeTokens (x : option (list jstr)) (s : Engine) : Engine :=
  mkEngine (buffer s) (inputMode s) (selectionAnchor s) (register s) (lastSearch s)
    (lastCharFind s) (lastVisual s) (lastCommand s) (statusMessage s) (diagnostics s)
    (viewportStart s) (closed s) (undoStack s) (redoStack s) (pendingInput s) x (pendingChange
    s) (world s).
Definition set_pendingChange (x : option PendingChange) (s : Engine) : Engine :=
  mkEngine (buffer s) (inputMode s) (selectionAnchor s) (register s) (lastSearch s)
    (lastCharFind s) (lastVisual s) (lastCommand s) (statusMessage s) (diagnostics s)
    (viewportStart s) (closed s) (undoStack s) (redoStack s) (pendingInput s) (lastChangeTokens
    s) x (world s).
Definition set_world (x : W) (s : Engine) : Engine :=
  mkEngine (buffer s) (inputMode s) (selectionAnchor s) (register s) (lastSearch s)
    (lastCharFind s) (lastVisual s) (lastCommand s) (statusMessage s) (diagnostics s)
    (viewportStart s) (closed s) (undoStack s) (redoStack s) (pendingInput s) (lastChangeTokens
    s) (pendingChange s) x.

#[local] Abbreviation M := (SM Engine VErr).

Definition vim_throw {A} (msg : jstr) : M A := throw (VimErr (ex_error msg)).
Definition vim_throw_at {A} (msg : jstr) (t : VimKeyToken) : M A := throw (VimErr (VimError msg t)).
Definition on_buffer (f : VimBuffer -> VimBuffer) : M unit := modify (fun s => set_buffer (f (buffer s)) s).
Definition set_status (m : jstr) : M unit := modify (set_statusMessage (Some m)).
Definition get_buffer : M VimBuffer := s ← get_state; mret (buffer s).
Definition move_to (p : Position) : M unit := on_buffer (setCursor p).
Definition set_cursor_col (c : Z) : M unit :=
  b ← get_buffer; move_to (mkPos (line (cursor b)) c).

(** The register takes what a deletion removed. *)
Definition delete_into_register (s e : Z) : M unit :=
  b ← get_buffer;
  let (removed, b') := deleteOffsets s e b in
  modify (set_buffer b') ;;
  modify (set_register (mkRegister false removed)).

Definition plural (n : Z) : jstr := if n =? 1 then [] else u "s".

Definition createSearchRegex (pattern flags : jstr) : result VErr Regex :=
  match newRegExp (vimPatternToJsRegex pattern) flags with
  | Some r => Ok r
  | None => match newRegExp (escapeRegex pattern) flags with
            | Some r => Ok r
            | None => Err RegexSyntax
            end
  end.

(** [exec] with [lastIndex = i]. *)
Definition exec_at (r : Regex) (text : jstr) (i : Z) : option (Z * Z) :=
  if zlen text <? i then None else regex_exec r text i.

(** The matches of a global regular expression from [i] on; an empty match advances by one. *)
Fixpoint match_all (fuel : nat) (r : Regex) (text : jstr) (i : Z) : list (Z * Z) :=
  match fuel with
  | O => []
  | S fuel =>
      match exec_at r text i with
      | None => []
      | Some (a, b) => (a, b) :: match_all fuel r text (if b =? a then b + 1 else b)
      end
  end.
Definition matchAll (r : Regex) (text : jstr) : list (Z * Z) :=
  match_all (S (S (length text))) r text 0.

(** The initial state ([constructor]). *)
Definition new_VimEngine (b : VimBuffer) (w : W) : Engine :=
  mkEngine b M_normal None (mkRegister false []) None None None None None None 1 false [] [] [] None
    None w.

(** [clone]: another engine with a copy of everything. *)
Definition clone_snapshot (b : VimBufferSnapshot) : VimBufferSnapshot := createSnapshot b.
Definition cloneUndoStack (stack : list VimUndoEntry) : list VimUndoEntry :=
  map (fun e => mkUndo (clone_snapshot (before e)) (clone_snapshot (after e))) stack.
Definition clone_pending (p : PendingChange) : PendingChange :=
  mkPending (clone_snapshot (p_before p)) (p_tokens p) (moveCursorLeftOnEscape p) (inserted p).
Definition engine_clone (s : Engine) (w : W) : Engine :=
  mkEngine (clone (buffer s)) (inputMode s) (selectionAnchor s) (register s) (lastSearch s)
    (lastCharFind s) (lastVisual s) (lastCommand s) (statusMessage s) (diagnostics s)
    (viewportStart s) (closed s) (cloneUndoStack (undoStack s)) (cloneUndoStack (redoStack s))
    (pendingInput s) (lastChangeTokens s) (clone_pending <$> pendingChange s) w.

Definition getPublicMode (s : Engine) : VimMode := toPublicMode (inputMode s).

Definition getSelection (s : Engine) : option VimSelection :=
  match selectionAnchor s with
  | None => None
  | Some a => Some (selectionFromAnchor (buffer s) a (bool_decide (inputMode s = M_visual_line)))
  end.

Definition getPendingInput (s : Engine) : option VimPendingInput :=
  match inputMode s with
  | M_insert => Some (mkPendingInput M_insert [])
  | M_command | M_search_forward | M_search_backward =>
      Some (mkPendingInput (inputMode s) (pendingInput s))
  | _ => None
  end.

Definition rollbackPendingInsert : M unit :=
  modify (fun s =>
    let s := match pendingChange s with
             | Some p => set_pendingChange None (set_buffer (restore (p_before p) (buffer s)) s)
             | None => s
             end in
    set_pendingInput [] (set_selectionAnchor None (set_inputMode M_normal s))).

Definition engine_setCursor (l c : Z) : M unit := move_to (mkPos l c).

Definition close (force : bool) : M unit :=
  s ← get_state;
  if modified (buffer s) && negb force then vim_throw (u "Unsaved changes; use force to discard")
  else
    modify (set_closed true) ;;
    set_status (u "Closed " ++ displayPath (buffer s)).

Definition ensureCursorVisible (s : Engine) : Engine :=
  let l := line (cursor (buffer s)) + 1 in
  if l <? viewportStart s then set_viewportStart l s
  else
    let viewportEnd := viewportStart s + DEFAULT_VIEWPORT_HEIGHT - 1 in
    if viewportEnd <? l then set_viewportStart (Z.max 1 (l - DEFAULT_VIEWPORT_HEIGHT + 1)) s else s.

Definition centerViewportOnCursor (size : Z) (s : Engine) : Engine :=
  let lc := Z.max (lineCount (buffer s)) 1 in
  let clampedSize := Z.max 1 (Z.min size lc) in
  let maxStart := Z.max 1 (lc - clampedSize + 1) in
  set_viewportStart (Z.max 1 (Z.min (line (cursor (buffer s)) + 1 - clampedSize / 2) maxStart)) s.

Definition is_visual (m : VimInputMode) : bool :=
  match m with M_visual | M_visual_line => true | _ => false end.

Definition clear_selection (s : Engine) : Engine :=
  let s := match selectionAnchor s with
           | Some a => if is_visual (inputMode s)
                       then set_lastVisual (Some (mkVisual a (cursor (buffer s)) (inputMode s))) s
                       else s
           | None => s
           end in
  let s := set_selectionAnchor None s in
  if is_visual (inputMode s) then set_inputMode M_normal s else s.
Definition clearSelection : M unit := modify clear_selection.

(** ** Changes and undo *)

Definition ensureEditable : M unit :=
  s ← get_state;
  let '(w, checked, err) := beforeMutate (buffer s) (world s) in
  modify (fun s => set_world w (set_buffer (with_editable checked (buffer s)) s)) ;;
  match err with
  | Some e => throw (HostErr e)
  | None => modify (fun s => set_statusMessage None (set_diagnostics None s))
  end.

Definition pushUndo (entry : VimUndoEntry) (changeTokens : list jstr) (s : Engine) : Engine :=
  if snapshotEqual (before entry) (after entry) then s
  else
    let s := set_redoStack [] (set_undoStack (entry :: undoStack s) s) in
    match changeTokens with [] => s | _ => set_lastChangeTokens (Some changeTokens) s end.

Definition beginPendingChange (prefixTokens : list jstr) (left_ : bool) (s : Engine) : Engine :=
  set_pendingChange (Some (mkPending (createSnapshot (buffer s)) prefixTokens left_ false)) s.

Definition markPendingInserted (s : Engine) : Engine :=
  match pendingChange s with
  | Some p => set_pendingChange (Some (mkPending (p_before p) (p_tokens p)
                                         (moveCursorLeftOnEscape p) true)) s
  | None => s
  end.

(** [this.#pendingChange?.tokens.push(...values)] *)
Definition push_pending_tokens (values : list jstr) (s : Engine) : Engine :=
  match pendingChange s with
  | Some p => set_pendingChange (Some (mkPending (p_before p) (p_tokens p ++ values)
                                         (moveCursorLeftOnEscape p) (inserted p))) s
  | None => s
  end.

Definition commitPendingChange (s : Engine) : Engine :=
  match pendingChange s with
  | None => s
  | Some p => set_pendingChange None
                (pushUndo (mkUndo (p_before p) (createSnapshot (buffer s))) (p_tokens p) s)
  end.

Definition mark_modified : M unit := on_buffer (with_modified true).

Definition applyAtomicChange (tokens : list jstr) (mutator : M unit) : M unit :=
  ensureEditable ;;
  b ← get_buffer;
  mutator ;;
  mark_modified ;;
  modify (fun s => pushUndo (mkUndo (createSnapshot b) (createSnapshot (buffer s))) tokens s).

Definition startInsertChange (tokens : list jstr) (mutator : M unit) (left_ : bool) : M unit :=
  ensureEditable ;;
  modify (beginPendingChange tokens left_) ;;
  mutator ;;
  mark_modified ;;
  modify (set_inputMode M_insert).

Definition exitInsertMode : M unit :=
  s ← get_state;
  match pendingChange s with
  | Some p =>
      modify (push_pending_tokens [u "Esc"]) ;;
      if moveCursorLeftOnEscape p && inserted p && (0 <? col (cursor (buffer s)))
      then move_to (mkPos (line (cursor (buffer s))) (col (cursor (buffer s)) - 1))
      else mret tt
  | None => mret tt
  end ;;
  modify (set_inputMode M_normal) ;;
  modify commitPendingChange.

(** Insert [text] at the cursor and record [tokens]. *)
Definition insert_at_cursor (text : jstr) : M unit :=
  on_buffer (fun b => with_modified true
    (replaceOffsets (currentOffset b) (currentOffset b) text (currentOffset b + zlen text) b)).
Definition record_insert (tokens : list jstr) : M unit :=
  modify (fun s => markPendingInserted (push_pending_tokens tokens s)).

Definition applyLiteralInsert (text : jstr) (exit : bool) : M unit :=
  s ← get_state;
  if negb (bool_decide (inputMode s = M_insert)) || bool_decide (pendingChange s = None) then
    vim_throw (u "Insert payload requires INSERT mode.")
  else
    (if 0 <? zlen text then
       insert_at_cursor text ;;
       (if includes text [NL] then
          on_buffer (fun b => with_trailing (trailingNewline b || ends_with text [NL]) b)
        else mret tt) ;;
       record_insert (literalTextToReplayTokens text)
     else mret tt) ;;
    if exit then exitInsertMode else mret tt.

Definition yankAndDeleteRange (r : TextRange) : M unit :=
  b ← get_buffer;
  modify (set_register (mkRegister (tr_linewise r) (slice (getText b) (tr_start r) (tr_end r)))) ;;
  modify (set_buffer (snd (deleteOffsets (tr_start r) (tr_end r) b))).

Definition deleteCharsForward (count : Z) : M unit :=
  b ← get_buffer;
  let s := currentOffset b in
  delete_into_register s (Z.min (zlen (getText b)) (s + count)).

Definition changeWholeLines (count : Z) (tokens : list jstr) : M unit :=
  startInsertChange tokens (
    b ← get_buffer;
    let s := line (cursor b) in
    let e := VimBuffer.clampLine b (s + count - 1) in
    modify (set_register (mkRegister true (join_lines (slice (lines b) s (e + 1))))) ;;
    on_buffer (fun b =>
      let b := with_lines (some_lines (snd (splice (lines b) s (e - s + 1) [[]]))) b in
      setCursor (mkPos (Z.min s (lastLineIndex b)) 0) b)) true.

Definition paste (after_ : bool) (count : Z) : M unit :=
  s ← get_state;
  let reg := register s in
  match reg_text reg with
  | [] => mret tt
  | _ =>
      if reg_linewise reg then
        let ls := split_lines (reg_text reg) in
        let insertAt := line (cursor (buffer s)) + (if after_ then 1 else 0) in
        on_buffer (fun b => fold_left (fun b i => insertLines (insertAt + Z.of_nat i * zlen ls) ls b)
                              (seq 0 (Z.to_nat count)) b)
      else
        let text := repeat_str (reg_text reg) count in
        on_buffer (fun b =>
          let o := currentOffset b + (if after_ then 1 else 0) in
          replaceOffsets o o text (o + zlen text) b)
  end.

(** Pop up to [n] entries; the number of entries popped. *)
Fixpoint undo_loop (n : nat) (applied : Z) (s : Engine) : Z * Engine :=
  match n with
  | O => (applied, s)
  | S n =>
      match undoStack s with
      | [] => (applied, s)
      | entry :: rest =>
          undo_loop n (applied + 1)
            (set_buffer (restore (before entry) (buffer s))
               (set_redoStack (entry :: redoStack s) (set_undoStack rest s)))
      end
  end.
Fixpoint redo_loop (n : nat) (applied : Z) (s : Engine) : Z * Engine :=
  match n with
  | O => (applied, s)
  | S n =>
      match redoStack s with
      | [] => (applied, s)
      | entry :: rest =>
          redo_loop n (applied + 1)
            (set_buffer (restore (after entry) (buffer s))
               (set_undoStack (entry :: undoStack s) (set_redoStack rest s)))
      end
  end.
Definition after_undo (verb : jstr) (applied : Z) (s : Engine) : Engine :=
  set_statusMessage (Some (verb ++ num_to_str applied ++ u " change" ++ plural applied))
    (set_pendingChange None (set_selectionAnchor None (set_inputMode M_normal s))).

Definition undo (count : Z) : M unit :=
  ensureEditable ;;
  modify (fun s => let (applied, s) := undo_loop (Z.to_nat count) 0 s in
                   after_undo (u "Undid ") applied s).
Definition redo (count : Z) : M unit :=
  ensureEditable ;;
  modify (fun s => let (applied, s) := redo_loop (Z.to_nat count) 0 s in
                   after_undo (u "Redid ") applied s).
End Engine.
