(* ===== verification/VimCommands.v ===== *)
(** The vim engine: searches, motions, operators and ex commands
    (src/gajae-code/packages/coding-agent/src/vim/engine.ts).

    Key tokens are addressed by index, as in the code: a handler gets the whole token list and
    the index it starts at, and returns the index after what it consumed. *)
From S2P Require Import Prelude VimBuffer VimKeys VimEx VimText VimEngine.
#[local] Open Scope Z_scope.
#[local] Open Scope js_scope.

Definition tok (tokens : list VimKeyToken) (i : Z) : option VimKeyToken := at_ tokens i.
Definition tokens_between (tokens : list VimKeyToken) (i j : Z) : list jstr :=
  map value (slice tokens i j).
Definition is_digit_key (v : jstr) : bool := match v with [c] => is_digit c | _ => false end.

(** [#readCount]: the digits that prefix a command; a leading [0] is a motion. *)
Fixpoint count_loop (tokens : list VimKeyToken) (digits : jstr) (cursor : Z) : jstr * Z :=
  match tokens with
  | [] => (digits, cursor)
  | t :: ts =>
      if negb (is_digit_key (value t)) then (digits, cursor)
      else if (zlen digits =? 0) && (value t ==s "0") then (digits, cursor)
      else count_loop ts (digits ++ value t) (cursor + 1)
  end.
Record Count := mkCount { count : Z; hasCount : bool; c_next : Z }.
Definition readCount (tokens : list VimKeyToken) (index : Z) : Count :=
  let (digits, cursor) := count_loop (drop (Z.to_nat index) tokens) [] index in
  mkCount (if 0 <? zlen digits then parse_dec digits else 1) (0 <? zlen digits) cursor.

Section Commands.
Context {W Diag : Type} `{!VimHost W Diag}.
#[local] Abbreviation Engine := (@Engine W Diag).
#[local] Abbreviation M := (SM Engine VErr).

(** ** Search *)

Definition runSearch (pattern : jstr) (dir : Z) (updateState : bool) : M unit :=
  b ← get_buffer;
  let text := getText b in
  regex ← lift_result (createSearchRegex pattern (u "g"));
  let cursor := currentOffset b in
  let matchOffset :=
    if 0 <? dir then
      match exec_at regex text (Z.min (zlen text) (cursor + 1)) with
      | Some (a, _) => Some a
      | None => fst <$> exec_at regex text 0
      end
    else
      let matches := map fst (matchAll regex text) in
      match last (List.filter (fun a => a <? cursor) matches) with
      | Some a => Some a
      | None => last matches
      end in
  match matchOffset with
  | None => vim_throw (u "Pattern not found: " ++ pattern)
  | Some o =>
      move_to (offsetToPosition b o) ;;
      set_status ((if 0 <? dir then u "/" else u "?") ++ pattern) ;;
      if updateState then modify (set_lastSearch (Some (mkSearch pattern dir))) else mret tt
  end.

Definition repeatSearch (dir count : Z) : M unit :=
  s ← get_state;
  match lastSearch s with
  | None => vim_throw (u "No previous search")
  | Some ls =>
      repeat_m (Z.to_nat count) (runSearch (search_pattern ls) dir false) ;;
      modify (set_lastSearch (Some (mkSearch (search_pattern ls) dir)))
  end.

(** [*], [#], [g*] and [g#]: search the word under the cursor. *)
Definition search_word (token : VimKeyToken) (boundaries : bool) (dir count : Z) : M unit :=
  b ← get_buffer;
  let text := getText b in
  let offset := currentOffset b in
  if cat_is text false space offset then vim_throw_at (u "No word under cursor") token
  else
    let (s, e) := word_around text offset in
    let word := escapeRegex (slice text s e) in
    let pattern := if boundaries then u "\b" ++ word ++ u "\b" else word in
    repeat_m (Z.to_nat count) (runSearch pattern dir true).

(** ** Motions *)

(** [for (let step = 0; step < n; step += 1) x = f(step, x)] *)
Fixpoint iterate (n : nat) (first : bool) (f : bool -> Z -> Z) (x : Z) : Z :=
  match n with O => x | S n => iterate n false f (f first x) end.

(** The [count]-th match to the right of [start], or to its left. *)
Fixpoint find_right (n : nat) (l c : jstr) (start found : Z) : Z :=
  match n with
  | O => found
  | S n => let i := index_of l c start in
           if i =? -1 then -1 else find_right n l c (i + 1) i
  end.
Fixpoint find_left (n : nat) (l c : jstr) (start found : Z) : Z :=
  match n with
  | O => found
  | S n => let i := last_index_of l c start in
           if i =? -1 then -1 else find_left n l c (i - 1) i
  end.

(** The column a character search ends on; [None] when there is no match. *)
Definition find_column (mode : FindMode) (l c : jstr) (cursorCol count : Z) : option Z :=
  let i := match mode with
           | find_f | find_t => find_right (Z.to_nat count) l c (cursorCol + 1) (-1)
           | find_F | find_T => find_left (Z.to_nat count) l c (Z.max 0 (cursorCol - 1)) (-1)
           end in
  if i =? -1 then None
  else Some (match mode with find_t => i - 1 | find_T => i + 1 | _ => i end).

Definition find_mode_of (v : jstr) : FindMode :=
  if v ==s "f" then find_f else if v ==s "F" then find_F else if v ==s "t" then find_t else find_T.
Definition reverse_mode (m : FindMode) : FindMode :=
  match m with find_f => find_F | find_F => find_f | find_t => find_T | find_T => find_t end.

Definition motion_find (tokens : list VimKeyToken) (index : Z) (token : VimKeyToken) (count : Z) :
    M MotionResult :=
  match tok tokens (index + 1) with
  | Some searchToken =>
      if zlen (value searchToken) =? 1 then
        let mode := find_mode_of (value token) in
        modify (set_lastCharFind (Some (mkFind (value searchToken) mode))) ;;
        b ← get_buffer;
        match find_column mode (getLine b (line (cursor b))) (value searchToken) (col (cursor b)) count with
        | None => vim_throw_at (u "Character not found: " ++ value searchToken) searchToken
        | Some i => mret (motion_to (index + 2) (mkPos (line (cursor b)) (Z.max 0 i)))
        end
      else vim_throw_at (value token ++ u " requires a literal character") token
  | None => vim_throw_at (value token ++ u " requires a literal character") token
  end.

Definition motion_refind (index : Z) (token : VimKeyToken) (count : Z) : M MotionResult :=
  s ← get_state;
  match lastCharFind s with
  | None => vim_throw_at (u "No previous character search. If you meant an ex-command range like `:4,5d`, add the `:` prefix and `<CR>` suffix.") token
  | Some f =>
      let mode := if value token ==s "," then reverse_mode (find_mode f) else find_mode f in
      let b := buffer s in
      match find_column mode (getLine b (line (cursor b))) (find_char f) (col (cursor b)) count with
      | None => vim_throw_at (u "Character not found: " ++ find_char f) token
      | Some (-1) => vim_throw_at (u "Character not found: " ++ find_char f) token
      | Some i => mret (motion_to (index + 1) (mkPos (line (cursor b)) (Z.max 0 i)))
      end
  end.

Definition motion_g (tokens : list VimKeyToken) (index : Z) (token : VimKeyToken) (count : Z)
    (hasCount : bool) (b : VimBuffer) : M MotionResult :=
  match tok tokens (index + 1) with
  | None => vim_throw_at (u "Unsupported g motion") token
  | Some next =>
      if value next ==s "g" then
        mret (motion_lines (index + 2) (mkPos (if hasCount then Z.max 0 (count - 1) else 0) 0))
      else if (value next ==s "e") || (value next ==s "E") then
        let o := iterate (Z.to_nat count) true
                   (fun _ o => endOfPreviousWord (getText b) o (value next ==s "E")) (currentOffset b) in
        mret (motion_to (index + 2) (offsetToPosition b o))
      else if value next ==s "_" then
        let l := VimBuffer.clampLine b (line (cursor b) + (count - 1)) in
        mret (motion_to (index + 2) (mkPos l (lastNonBlankColumn (getLine b l))))
      else vim_throw_at (u "Unsupported g motion") token
  end.

(** A line motion to the first non-blank of line [l]. *)
Definition motion_nonblank (i : Z) (b : VimBuffer) (l : Z) : MotionResult :=
  let l := VimBuffer.clampLine b l in motion_lines i (mkPos l (firstNonBlank b l)).

(** The motions that read only the buffer; [None]: another key. *)
Definition motion_plain (v : jstr) (next : Z) (count : Z) (hasCount : bool) (viewportStart : Z)
    (b : VimBuffer) : option MotionResult :=
  let text := getText b in
  let l := line (cursor b) in
  let c := col (cursor b) in
  if v ==s "h" then Some (motion_to next (mkPos l (c - count)))
  else if v ==s "j" then Some (motion_lines next (mkPos (l + count) c))
  else if v ==s "k" then Some (motion_lines next (mkPos (l - count) c))
  else if (v ==s "l") || (v ==s " ") then Some (motion_to next (mkPos l (c + count)))
  else if (v ==s "w") || (v ==s "W") then
    let o := iterate (Z.to_nat count) true
               (fun first o => nextWordStart text (if first then o + 1 else o) (v ==s "W"))
               (currentOffset b) in
    Some (mkMotion next (offsetToPosition b o) false false None)
  else if (v ==s "b") || (v ==s "B") then
    let o := iterate (Z.to_nat count) true
               (fun _ o => previousWordStart text o (v ==s "B")) (currentOffset b) in
    Some (motion_to next (offsetToPosition b o))
  else if (v ==s "e") || (v ==s "E") then
    let o := iterate (Z.to_nat count) true
               (fun first o => endOfWord text (if first then o else o + 1) (v ==s "E"))
               (currentOffset b) in
    Some (motion_to next (offsetToPosition b o))
  else if v ==s "0" then Some (motion_to next (mkPos l 0))
  else if v ==s "^" then Some (motion_to next (mkPos l (firstNonBlank b l)))
  else if v ==s "|" then Some (motion_to next (mkPos l (Z.max 0 (count - 1))))
  else if v ==s "$" then Some (motion_to next (mkPos l (Z.max 0 (zlen (getLine b l) - 1))))
  else if v ==s "+" then Some (motion_nonblank next b (l + count))
  else if v ==s "-" then Some (motion_nonblank next b (l - count))
  else if v ==s "_" then Some (motion_nonblank next b (l + (count - 1)))
  else if v ==s "G" then
    Some (motion_lines next (mkPos (if hasCount then count - 1 else lastLineIndex b) 0))
  else if v ==s "{" then Some (motion_lines next (mkPos (findParagraphStart (lines b) l) 0))
  else if v ==s "}" then Some (motion_lines next (mkPos (findParagraphEnd (lines b) l) 0))
  else if v ==s "H" then Some (motion_lines next (mkPos (Z.max 0 (viewportStart - 1)) 0))
  else if v ==s "M" then Some (motion_lines next (mkPos (Z.max 0 (viewportStart - 1 + 20)) 0))
  else if v ==s "L" then Some (motion_lines next (mkPos (Z.max 0 (viewportStart - 1 + 39)) 0))
  else None.

Definition resolveMotion (tokens : list VimKeyToken) (index count : Z) (hasCount : bool) :
    M MotionResult :=
  match tok tokens index with
  | None => vim_throw (u "Missing motion")
  | Some token =>
      s ← get_state;
      let v := value token in
      match motion_plain v (index + 1) count hasCount (viewportStart s) (buffer s) with
      | Some m => mret m
      | None =>
          if v ==s "g" then motion_g tokens index token count hasCount (buffer s)
          else if one_of [u "f"; u "F"; u "t"; u "T"] v then motion_find tokens index token count
          else if v ==s "%" then
            match findMatchingBracket (buffer s) with
            | Some p => mret (motion_to (index + 1) p)
            | None => vim_throw (u "Matching bracket not found")
            end
          else if (v ==s ";") || (v ==s ",") then motion_refind index token count
          else vim_throw_at (u "Unsupported motion: " ++ display token) token
      end
  end.

Definition resolveMotionRange (b : VimBuffer) (m : MotionResult) : TextRange :=
  match m_range m with
  | Some r => r
  | None =>
      if m_linewise m then
        line_offsets b (Z.min (line (cursor b)) (line (target m)))
          (Z.max (line (cursor b)) (line (target m)))
      else
        let (s, e) := normalizeRange (positionToOffset b (cursor b)) (positionToOffset b (target m)) in
        mkTextRange s (e + (if inclusive m then 1 else 0)) false
  end.

(** ** Text objects *)

Definition closing_object (o : jstr) : jstr :=
  if o ==s ")" then u "(" else if o ==s "}" then u "{" else if o ==s "]" then u "["
  else if o ==s ">" then u "<" else o.

Definition resolveTextObject (b : VimBuffer) (inner : bool) (objectToken : jstr)
    (sourceToken : VimKeyToken) : M TextRange :=
  if (objectToken ==s "w") || (objectToken ==s "W") then
    mret (resolveWordTextObject b inner (objectToken ==s "W"))
  else if (objectToken === [34]) || (objectToken ==s "'") || (objectToken ==s "`") then
    match resolveQuoteTextObject b inner objectToken with
    | Some r => mret r
    | None => vim_throw_at (u "Quote text object not found for " ++ objectToken) sourceToken
    end
  else if objectToken ==s "p" then mret (resolveParagraphTextObject b inner)
  else
    match bracket_of (closing_object objectToken) open_to_close with
    | None => vim_throw_at (u "Unsupported text object: " ++ objectToken) sourceToken
    | Some (open, close) =>
        match resolveBracketTextObject b inner open close with
        | Some r => mret r
        | None => vim_throw_at (u "Text object " ++ [open; close] ++ u " not found") sourceToken
        end
    end.

(** ** Operators *)

(** The lines that a range of offsets touches. *)
Definition range_lines (b : VimBuffer) (r : TextRange) : Z * Z :=
  (line (offsetToPosition b (tr_start r)),
   line (offsetToPosition b (Z.max (tr_start r) (tr_end r - 1)))).

Definition indent_change (tokens : list jstr) (startLine endLine : Z) (right : bool) : M unit :=
  applyAtomicChange tokens (on_buffer (fun b =>
    indentLines startLine endLine (detectIndentUnit (lines b)) (if right then 1 else -1) b)).

Definition applyOperatorToMotion (operator : jstr) (m : MotionResult) (tokens : list jstr) : M unit :=
  b ← get_buffer;
  let range := resolveMotionRange b m in
  if operator ==s "y" then
    modify (set_register (mkRegister (tr_linewise range)
              (slice (getText b) (tr_start range) (tr_end range)))) ;;
    set_status (u "Yanked " ++ (if tr_linewise range then u "line" else u "selection"))
  else if (operator ==s ">") || (operator ==s "<") then
    let (s, e) := range_lines b range in indent_change tokens s e (operator ==s ">")
  else if operator ==s "d" then applyAtomicChange tokens (yankAndDeleteRange range)
  else if operator ==s "c" then startInsertChange tokens (yankAndDeleteRange range) true
  else mret tt.

(** [Y], [yy]: yank whole lines. *)
Definition yank_lines (n : Z) : M unit :=
  b ← get_buffer;
  let s := line (cursor b) in
  let e := VimBuffer.clampLine b (s + n - 1) in
  modify (set_register (mkRegister true (join_lines (slice (lines b) s (e + 1))))) ;;
  set_status (u "Yanked " ++ num_to_str (e - s + 1) ++ u " line" ++ plural (e - s + 1)).

(** The doubled operators [dd], [yy], [cc], [>>], [<<]; [None]: not an operator. *)
Definition doubled_operator (operator : jstr) (n : Z) : option (M unit) :=
  let tokens := [operator; operator] in
  if operator ==s "d" then
    Some (applyAtomicChange tokens (
      b ← get_buffer;
      let s := line (cursor b) in
      let (removed, b') := deleteLines s (s + Z.max 1 n - 1) b in
      modify (set_buffer b') ;;
      modify (set_register (mkRegister true (join_lines removed)))))
  else if operator ==s "y" then Some (yank_lines (Z.max 1 n))
  else if operator ==s "c" then Some (changeWholeLines (Z.max 1 n) tokens)
  else if (operator ==s ">") || (operator ==s "<") then
    Some (applyAtomicChange tokens (on_buffer (fun b =>
      indentLines (line (cursor b)) (line (cursor b) + Z.max 1 n - 1) (detectIndentUnit (lines b))
        (if operator ==s ">" then 1 else -1) b)))
  else None.

(** [cw] and [cW] move like [ce] and [cE]. *)
Definition synthetic_tokens (tokens : list VimKeyToken) (i : Z) (t : VimKeyToken) :
    list VimKeyToken :=
  slice tokens 0 i
  ++ [mkToken (if value t ==s "w" then u "e" else u "E") (display t) (sequenceIndex t) (offset t)]
  ++ slice_from tokens (i + 1).

Definition executeOperator (tokens : list VimKeyToken) (operatorIndex operatorCount : Z)
    (hasOperatorCount : bool) (operator : jstr) (operatorToken : VimKeyToken) : M Z :=
  let c := readCount tokens (operatorIndex + 1) in
  let next := c_next c in
  match tok tokens next with
  | None => vim_throw_at (u "Operator " ++ operator ++ u " requires a motion") operatorToken
  | Some token =>
      let effectiveCount := if hasCount c then operatorCount * count c else operatorCount in
      match (if value token === operator then doubled_operator operator effectiveCount else None) with
      | Some act => act ;; mret (next + 1)
      | None =>
          if (value token ==s "i") || (value token ==s "a") then
            match tok tokens (next + 1) with
            | None => vim_throw_at (u "Missing text object after " ++ operator ++ value token) token
            | Some object =>
                b ← get_buffer;
                r ← resolveTextObject b (value token ==s "i") (value object) object;
                applyOperatorToMotion operator
                  (mkMotion (next + 2) (cursor b) true false (Some r))
                  [operator; value token; value object] ;;
                mret (next + 2)
            end
          else
            let ts := if (operator ==s "c") && ((value token ==s "w") || (value token ==s "W"))
                      then synthetic_tokens tokens next token else tokens in
            m ← resolveMotion ts next effectiveCount (hasOperatorCount || hasCount c);
            applyOperatorToMotion operator m (tokens_between tokens operatorIndex (nextIndex m)) ;;
            mret (nextIndex m)
      end
  end.

(** ** Ex commands *)

Definition resolveExRange (b : VimBuffer) (range : option ExRange) (defaultStart defaultEnd : Z) :
    VimLineRange :=
  let totalLines := Z.max 1 (lineCount b) in
  match range with
  | Some RAll => mkRange 1 totalLines
  | _ =>
      let next := match range with Some (RLines r) => r | _ => mkRange defaultStart defaultEnd end in
      let s := Z.max 1 (Z.min (start next) totalLines) in
      mkRange s (Z.max s (Z.min (end_ next) totalLines))
  end.
Definition current_range (b : VimBuffer) (range : option ExRange) : VimLineRange :=
  let l := line (cursor b) + 1 in resolveExRange b range l l.

Definition range_size (r : VimLineRange) : Z := end_ r - start r + 1.
Definition lines_status (verb : jstr) (n : Z) : M unit :=
  set_status (verb ++ num_to_str n ++ u " line" ++ plural n).

(** [":w"]; [lift_host]: an error of a callback is thrown on. *)
Definition ex_write (force : bool) : M unit :=
  s ← get_state;
  let (w, r) := saveBuffer (buffer s) force (world s) in
  modify (set_world w) ;;
  match r with
  | Err e => throw (HostErr e)
  | Ok (loaded, diag) =>
      on_buffer (markSaved loaded) ;;
      modify (set_diagnostics diag) ;;
      b ← get_buffer;
      set_status (u "Wrote " ++ displayPath b ++
        match diag with Some d => u " (" ++ diag_summary d ++ u ")" | None => [] end) ;;
      modify (fun s => set_redoStack [] (set_undoStack [] s))
  end.

Definition ex_edit (force : bool) (path : option jstr) : M unit :=
  s ← get_state;
  if modified (buffer s) && negb force then
    vim_throw (u "Unsaved changes; use :e! to reload or force open")
  else
    let (w, r) := loadBuffer (default (displayPath (buffer s)) path) (world s) in
    modify (set_world w) ;;
    match r with
    | Err e => throw (HostErr e)
    | Ok next =>
        on_buffer (replaceLoadedFile next) ;;
        modify (fun s =>
          set_redoStack [] (set_undoStack [] (set_pendingChange None (set_pendingInput []
            (set_selectionAnchor None (set_inputMode M_normal s)))))) ;;
        b ← get_buffer;
        set_status ((match path with Some (_ :: _) => u "Opened " | _ => u "Reloaded " end)
                    ++ displayPath b)
    end.

(** [GetSubstitution] without groups: the [$] escapes of a replacement text that is put for the
    [&] at [pos] of [str]. *)
Fixpoint expand_template (tmpl str : jstr) (pos : Z) : jstr :=
  match tmpl with
  | [] => []
  | c :: t' =>
      match t' with
      | d :: t'' =>
          if c =? 36 then
            if d =? 36 then 36 :: expand_template t'' str pos
            else if d =? 38 then 38 :: expand_template t'' str pos
            else if d =? 96 then slice str 0 pos ++ expand_template t'' str pos
            else if d =? 39 then slice_from str (pos + 1) ++ expand_template t'' str pos
            else c :: expand_template t' str pos
          else c :: expand_template t' str pos
      | [] => [c]
      end
  end.
(** [str.replace(/&/g, tmpl)] *)
Fixpoint replace_amp (tmpl str rest : jstr) (pos : Z) : jstr :=
  match rest with
  | [] => []
  | c :: rest' => (if c =? 38 then expand_template tmpl str pos else [c])
                  ++ replace_amp tmpl str rest' (pos + 1)
  end.
Definition substitute_text (replacement matched : jstr) : jstr :=
  let d := decodeReplacement replacement in replace_amp matched d d 0.

(** One line: the new line and the number of replacements. *)
Fixpoint substitute_matches (l replacement : jstr) (all : bool) (ms : list (Z * Z)) (pos n : Z) :
    jstr * Z :=
  match ms with
  | [] => (slice_from l pos, n)
  | (a, e) :: ms' =>
      let matched := slice l a e in
      let keep := negb all && (0 <? n) in
      let (rest, n') := substitute_matches l replacement all ms' e (if keep then n else n + 1) in
      (slice l pos a ++ (if keep then matched else substitute_text replacement matched) ++ rest, n')
  end.
Definition substitute_line (regex : Regex) (replacement : jstr) (all : bool) (l : jstr) : jstr * Z :=
  substitute_matches l replacement all (matchAll regex l) 0 0.

Fixpoint substitute_lines (regex : Regex) (replacement : jstr) (all : bool) (n : nat) (i : Z)
    (b : VimBuffer) (total : Z) : VimBuffer * Z :=
  match n with
  | O => (b, total)
  | S n =>
      let (l, k) := substitute_line regex replacement all (getLine b i) in
      substitute_lines regex replacement all n (i + 1) (replaceLine i l b) (total + k)
  end.

Definition ex_substitute (range : option ExRange) (pattern replacement flags : jstr) : M unit :=
  b0 ← get_buffer;
  let r := current_range b0 range in
  regex ← lift_result (createSearchRegex pattern (if includes flags (u "i") then u "gi" else u "g"));
  let all := includes flags (u "g") in
  let run b := substitute_lines regex replacement all (Z.to_nat (range_size r)) (start r - 1) b 0 in
  ensureEditable ;;
  b ← get_buffer;
  modify (set_buffer (fst (run b))) ;;
  mark_modified ;;
  modify (fun s => pushUndo (mkUndo (createSnapshot b) (createSnapshot (buffer s))) [u ":substitute"] s) ;;
  let replacements := snd (run b) in
  if replacements =? 0 then vim_throw (u "Pattern not found: " ++ pattern)
  else set_status (num_to_str replacements ++ u " substitution" ++ plural replacements).

Definition ex_delete (range : option ExRange) : M unit :=
  b0 ← get_buffer;
  let r := current_range b0 range in
  applyAtomicChange [u ":delete"] (
    b ← get_buffer;
    let (removed, b') := deleteLines (start r - 1) (end_ r - 1) b in
    modify (set_buffer b') ;;
    modify (set_register (mkRegister true (join_lines removed)))) ;;
  lines_status (u "Deleted ") (range_size r).

Definition ex_yank (range : option ExRange) : M unit :=
  b ← get_buffer;
  let r := current_range b range in
  modify (set_register (mkRegister true (join_lines (slice (lines b) (start r - 1) (end_ r))))) ;;
  lines_status (u "Yanked ") (range_size r).

Definition ex_put (range : option ExRange) (before_ : bool) : M unit :=
  s ← get_state;
  match reg_text (register s) with
  | [] => set_status (u "Register empty")
  | text =>
      let r := current_range (buffer s) range in
      let anchorLine := if before_ then start r else end_ r in
      let ls := split_lines text in
      applyAtomicChange [u ":put"] (on_buffer (fun b =>
        insertLines (if before_ then Z.max 0 (anchorLine - 1) else Z.min anchorLine (lineCount b)) ls b)) ;;
      lines_status (u "Put ") (zlen ls)
  end.

Definition ex_copy (range : option ExRange) (destination : Z) : M unit :=
  b0 ← get_buffer;
  let totalLines := lineCount b0 in
  let r := current_range b0 range in
  let dest := Z.max 0 (Z.min destination totalLines) in
  applyAtomicChange [u ":copy"] (on_buffer (fun b =>
    insertLines dest (slice (lines b) (start r - 1) (end_ r)) b)) ;;
  lines_status (u "Copied ") (range_size r).

Definition move_lines (r : VimLineRange) (dest : Z) (b : VimBuffer) : VimBuffer :=
  let (ls, kept) := splice (lines b) (start r - 1) (range_size r) [] in
  let adjustedDest := if end_ r - 1 <? dest then dest - zlen ls else dest in
  setCursor (mkPos adjustedDest 0)
    (with_lines (some_lines (snd (splice kept adjustedDest 0 ls))) b).

Definition ex_move (range : option ExRange) (destination : Z) : M unit :=
  b0 ← get_buffer;
  let totalLines := lineCount b0 in
  let r := current_range b0 range in
  let dest := Z.max 0 (Z.min destination totalLines) in
  applyAtomicChange [u ":move"] (on_buffer (move_lines r dest)) ;;
  lines_status (u "Moved ") (range_size r).

Definition ex_sort (range : option ExRange) (flags : jstr) : M unit :=
  b0 ← get_buffer;
  let r := resolveExRange b0 (Some (default RAll range)) 1 (lineCount b0) in
  let reverse := includes flags (u "!") in
  let key := if includes flags (u "i") then toLowerCase else id in
  applyAtomicChange [u ":sort"] (on_buffer (fun b =>
    let sorted := sort_lines key (slice (lines b) (start r - 1) (end_ r)) in
    let sorted := if reverse then rev sorted else sorted in
    with_lines (slice (lines b) 0 (start r - 1) ++ sorted ++ slice_from (lines b) (end_ r)) b)) ;;
  lines_status (u "Sorted ") (range_size r).

Definition ex_join (range : option ExRange) (trimWhitespace : bool) : M unit :=
  b0 ← get_buffer;
  let currentLine := line (cursor b0) + 1 in
  let baseRange := resolveExRange b0 range currentLine
    (match range with Some _ => currentLine | None => Z.min (lineCount b0) (currentLine + 1) end) in
  let startLine := start baseRange in
  let endLine := if start baseRange =? end_ baseRange
                 then Z.min (lineCount b0) (end_ baseRange + 1) else end_ baseRange in
  let n := endLine - startLine + 1 in
  if n <? 2 then set_status (u "Nothing to join")
  else
    applyAtomicChange [u ":join"] (on_buffer (fun b =>
      if trimWhitespace then joinLines (startLine - 1) (n - 1) b
      else merge_lines (startLine - 1) (endLine - 1)
             (concat (slice (lines b) (startLine - 1) endLine)) b)) ;;
    set_status (u "Joined " ++ num_to_str n ++ u " lines").

(** [command.text.length > 0 ? command.text.split("\n") : [""]] *)
Definition text_lines (text : jstr) : list jstr := match text with [] => [[]] | _ => split_lines text end.

Definition ex_append (range : option VimLineRange) (text : jstr) : M unit :=
  b0 ← get_buffer;
  let anchorLine := end_ (current_range b0 (RLines <$> range)) in
  let ls := text_lines text in
  applyAtomicChange [u ":append"] (on_buffer (fun b => insertLines (Z.min anchorLine (lineCount b)) ls b)) ;;
  lines_status (u "Appended ") (zlen ls).

Definition ex_insert_before (range : option VimLineRange) (text : jstr) : M unit :=
  b0 ← get_buffer;
  let anchorLine := start (current_range b0 (RLines <$> range)) in
  let ls := text_lines text in
  applyAtomicChange [u ":insert"] (on_buffer (insertLines (Z.max 0 (anchorLine - 1)) ls)) ;;
  lines_status (u "Inserted ") (zlen ls).

(** The lines [i], [i+1], ... that match, or that do not. *)
Fixpoint matching_lines (regex : Regex) (invert : bool) (n : nat) (i : Z) (b : VimBuffer) : list Z :=
  match n with
  | O => []
  | S n =>
      let matches := bool_decide (is_Some (exec_at regex (getLine b i) 0)) in
      let rest := matching_lines regex invert n (i + 1) b in
      if (if invert then negb matches else matches) then i :: rest else rest
  end.

Definition delete_indices (indices : list Z) (ls : list jstr) : list jstr :=
  foldr (fun i ls => snd (splice ls i 1 [])) ls indices.

Definition ex_global (range : option ExRange) (pattern command : jstr) (invert : bool) : M unit :=
  regex ← lift_result (createSearchRegex pattern (u "g"));
  b0 ← get_buffer;
  let r := resolveExRange b0 (Some (default RAll range)) 1 (lineCount b0) in
  applyAtomicChange [u ":global"] (
    b ← get_buffer;
    let indices := matching_lines regex invert (Z.to_nat (range_size r)) (start r - 1) b in
    if (command ==s "d") || (command ==s "delete") then
      on_buffer (fun b =>
        with_trailing true (clampCursor (with_lines (some_lines (delete_indices indices (lines b))) b)))
    else vim_throw (u "Unsupported :global sub-command: " ++ command)) ;;
  set_status (u "Global: processed " ++ pattern).

Definition ex_quit (force : bool) : M unit :=
  s ← get_state;
  if modified (buffer s) && negb force then vim_throw (u "Unsaved changes; use :q! to discard")
  else modify (set_closed true) ;; set_status (u "Closed " ++ displayPath (buffer s)).

(** [:update] and [:wq] run [:w] or [:w!], which the reader maps to [ex_write]. *)
Definition run_ex (c : VimExCommand) : M unit :=
  match c with
  | ExGotoLine l => move_to (mkPos (Z.max 0 (l - 1)) 0) ;; set_status (u "Line " ++ num_to_str l)
  | ExWrite force => ex_write force
  | ExUpdate force =>
      b ← get_buffer;
      if modified b then ex_write force else set_status (displayPath b ++ u " unchanged")
  | ExWriteQuit force =>
      ex_write force ;;
      modify (set_closed true) ;;
      b ← get_buffer;
      set_status (u "Wrote and closed " ++ displayPath b)
  | ExQuit force => ex_quit force
  | ExEdit force path => ex_edit force path
  | ExSubstitute range p r f => ex_substitute range p r f
  | ExDelete range => ex_delete range
  | ExYank range => ex_yank range
  | ExPut range before_ => ex_put range before_
  | ExCopy range d => ex_copy range d
  | ExMove range d => ex_move range d
  | ExSort range f => ex_sort range f
  | ExJoin range t => ex_join range t
  | ExGlobal range p c inv => ex_global range p c inv
  | ExAppend range t => ex_append range t
  | ExInsertBefore range t => ex_insert_before range t
  end.

Definition executeEx (input : jstr) : M unit :=
  b ← get_buffer;
  c ← lift_result
        (match parseExCommand input
                 (Some {| currentLine := line (cursor b) + 1; lastLine := lineCount b |}) with
         | Ok c => Ok c
         | Err e => Err (VimErr e)
         end);
  run_ex c.

Lemma ex_w_writes context (force : bool) :
  parseExCommand (if force then u "w!" else u "w") context = Ok (ExWrite force).
Proof. by destruct force. Qed.
End Commands.
