(* ===== verification/VimModes.v ===== *)
(** The vim engine: prompt, insert, visual and normal mode and the key loop
    (src/gajae-code/packages/coding-agent/src/vim/engine.ts).

    The code's recursion runs through [.], which executes the recorded keys with the same key
    loop: the handlers take that execution as [replay], and [executeTokens n] bounds the nesting
    of repeats by [n]. *)
From S2P Require Import Prelude VimBuffer VimKeys VimEx VimText VimEngine VimCommands.
#[local] Open Scope Z_scope.
#[local] Open Scope js_scope.

Section Modes.
Context {W Diag : Type} `{!VimHost W Diag}.
#[local] Abbreviation Engine := (@Engine W Diag).
#[local] Abbreviation M := (SM Engine VErr).

(** ** Prompt *)

Definition executePrompt (token : VimKeyToken) (index : Z) : M Z :=
  s ← get_state;
  let v := value token in
  (if v ==s "Esc" then modify (fun s => set_inputMode M_normal (set_pendingInput [] s))
   else if v ==s "BS" then modify (set_pendingInput (slice (pendingInput s) 0 (-1)))
   else if negb (v ==s "CR") then
     modify (set_pendingInput (pendingInput s ++ (if v ==s "Tab" then [9] else v)))
   else
     let input := pendingInput s in
     let mode := inputMode s in
     modify (fun s => set_inputMode M_normal (set_pendingInput [] s)) ;;
     if bool_decide (mode = M_command) then executeEx input
     else runSearch input (if bool_decide (mode = M_search_forward) then 1 else -1) true) ;;
  mret (index + 1).

(** ** Normal mode *)

(** [S], [x], [D] ...: an atomic change that needs no motion. *)
Definition to_line_end (b : VimBuffer) : Z * Z :=
  let s := currentOffset b in (s, s + (zlen (getLine b (line (cursor b))) - col (cursor b))).
Definition delete_to_line_end : M unit :=
  b ← get_buffer; let (s, e) := to_line_end b in delete_into_register s e.

(** Convert the case of lines [line .. line + n - 1]. *)
Fixpoint case_lines (f : jstr -> jstr) (n : nat) (i : Z) (b : VimBuffer) : VimBuffer :=
  match n with O => b | S n => case_lines f n (i + 1) (replaceLine i (f (getLine b i)) b) end.

Definition case_change (f : jstr -> jstr) (r : TextRange) : M unit :=
  on_buffer (fun b =>
    replaceOffsets (tr_start r) (tr_end r) (f (slice (getText b) (tr_start r) (tr_end r)))
      (tr_start r) b).

(** [gu], [gU] and [g~] with their motion. *)
Definition case_operator (tokens : list VimKeyToken) (nextIdx count0 : Z) (hasCount0 : bool)
    (gNext : VimKeyToken) (f : jstr -> jstr) : M Z :=
  let c := readCount tokens (nextIdx + 2) in
  let motionStart := c_next c in
  match tok tokens motionStart with
  | None => vim_throw_at (u "g" ++ value gNext ++ u " requires a motion") gNext
  | Some motionToken =>
      let effectiveCount := if hasCount c then count0 * count c else count0 in
      if value motionToken === value gNext then
        applyAtomicChange [u "g"; value gNext; value motionToken] (on_buffer (fun b =>
          let s := line (cursor b) in
          let e := VimBuffer.clampLine b (s + effectiveCount - 1) in
          case_lines f (Z.to_nat (e - s + 1)) s b)) ;;
        mret (motionStart + 1)
      else
        m ← resolveMotion tokens motionStart effectiveCount (hasCount0 || hasCount c);
        b ← get_buffer;
        let r := resolveMotionRange b m in
        applyAtomicChange (tokens_between tokens nextIdx (nextIndex m)) (case_change f r) ;;
        mret (nextIndex m)
  end.

(** [gJ]: join without spaces. *)
Definition join_plain (s e : Z) (b : VimBuffer) : VimBuffer :=
  if s <? e then merge_lines s e (concat (slice (lines b) s (e + 1))) b else b.

Definition normal_g (tokens : list VimKeyToken) (nextIdx count : Z) (hasCount : bool)
    (token : VimKeyToken) : M Z :=
  match tok tokens (nextIdx + 1) with
  | None => vim_throw_at (u "g requires a second key") token
  | Some gNext =>
      let v := value gNext in
      if v ==s "g" then
        move_to (mkPos (if hasCount then Z.max 0 (count - 1) else 0) 0) ;; mret (nextIdx + 2)
      else if v ==s "v" then
        s ← get_state;
        (match lastVisual s with
         | Some lv =>
             modify (set_selectionAnchor (Some (v_anchor lv))) ;;
             move_to (v_cursor lv) ;;
             modify (set_inputMode (v_mode lv))
         | None => mret tt
         end) ;;
        mret (nextIdx + 2)
      else if (v ==s "*") || (v ==s "#") then
        search_word gNext false (if v ==s "*" then 1 else -1) count ;; mret (nextIdx + 2)
      else if v ==s "U" then case_operator tokens nextIdx count hasCount gNext toUpperCase
      else if v ==s "u" then case_operator tokens nextIdx count hasCount gNext toLowerCase
      else if v ==s "~" then case_operator tokens nextIdx count hasCount gNext toggleCase
      else if v ==s "J" then
        applyAtomicChange [u "g"; u "J"] (on_buffer (fun b =>
          let s := VimBuffer.clampLine b (line (cursor b)) in
          join_plain s (VimBuffer.clampLine b (s + Z.max count 1)) b)) ;;
        mret (nextIdx + 2)
      else vim_throw_at (u "Unsupported g command: g" ++ display gNext) gNext
  end.

Definition to_first_nonblank : M unit :=
  on_buffer (fun b => setCursor (mkPos (line (cursor b)) (firstNonBlank b (line (cursor b)))) b).

Definition normal_z (tokens : list VimKeyToken) (nextIdx : Z) (token : VimKeyToken) : M Z :=
  match tok tokens (nextIdx + 1) with
  | None => vim_throw_at (u "z requires a second key") token
  | Some zTarget =>
      let v := value zTarget in
      (if v ==s "z" then modify (centerViewportOnCursor DEFAULT_VIEWPORT_HEIGHT)
       else if (v ==s "t") || (v ==s "CR") then
         modify (fun s => set_viewportStart (line (cursor (buffer s)) + 1) s) ;; to_first_nonblank
       else if (v ==s "b") || (v ==s "-") then
         modify (fun s => set_viewportStart
           (Z.max 1 (line (cursor (buffer s)) + 1 - (DEFAULT_VIEWPORT_HEIGHT - 1))) s) ;;
         to_first_nonblank
       else if v ==s "." then
         modify (centerViewportOnCursor DEFAULT_VIEWPORT_HEIGHT) ;; to_first_nonblank
       else if one_of NOOP_Z_COMMANDS v then
         set_status (u "Ignored z" ++ display zTarget ++ u " (folds unsupported)")
       else vim_throw_at (u "Unsupported z command: z" ++ display zTarget) zTarget) ;;
      mret (nextIdx + 2)
  end.

Definition normal_Z (tokens : list VimKeyToken) (nextIdx : Z) (token : VimKeyToken) : M Z :=
  match tok tokens (nextIdx + 1) with
  | None => vim_throw_at (u "Z requires a second key") token
  | Some zNext =>
      if value zNext ==s "Z" then executeEx (u "wq") ;; mret (nextIdx + 2)
      else if value zNext ==s "Q" then executeEx (u "q!") ;; mret (nextIdx + 2)
      else vim_throw_at (u "Unsupported Z command: Z" ++ display zNext) zNext
  end.

(** [r] with its character. *)
Definition normal_r (tokens : list VimKeyToken) (nextIdx count : Z) (token : VimKeyToken) : M Z :=
  match tok tokens (nextIdx + 1) with
  | Some replacement =>
      if zlen (value replacement) =? 1 then
        applyAtomicChange [u "r"; value replacement] (on_buffer (fun b =>
          let s := currentOffset b in
          replaceOffsets s (Z.min (zlen (getText b)) (s + count))
            (repeat_str (value replacement) count) s b)) ;;
        mret (nextIdx + 2)
      else vim_throw_at (u "r requires a replacement character") token
  | None => vim_throw_at (u "r requires a replacement character") token
  end.

(** [i], [o], [O] with a count go to that line first. *)
Definition goto_counted_line (count : Z) (hasCount : bool) : M unit :=
  if hasCount then
    on_buffer (fun b => setCursor (mkPos (Z.min count (lineCount b) - 1) 0) b)
  else mret tt.

(** The keys that change the text or start an insertion. *)
Definition normal_change (v : jstr) (count : Z) (hasCount : bool) : option (M unit) :=
  if v ==s "i" then
    Some (goto_counted_line count hasCount ;; startInsertChange [u "i"] (mret tt) true)
  else if v ==s "a" then
    Some (b ← get_buffer; set_cursor_col (col (cursor b) + 1) ;;
          startInsertChange [u "a"] (mret tt) true)
  else if v ==s "I" then Some (to_first_nonblank ;; startInsertChange [u "I"] (mret tt) true)
  else if v ==s "A" then
    Some (b ← get_buffer; set_cursor_col (zlen (getLine b (line (cursor b)))) ;;
          startInsertChange [u "A"] (mret tt) true)
  else if v ==s "o" then
    Some (goto_counted_line count hasCount ;;
          startInsertChange [u "o"] (on_buffer (fun b => insertLines (line (cursor b) + 1) [[]] b)) true)
  else if v ==s "O" then
    Some (goto_counted_line count hasCount ;;
          startInsertChange [u "O"] (on_buffer (fun b => insertLines (line (cursor b)) [[]] b)) true)
  else if v ==s "s" then Some (startInsertChange [u "s"] (deleteCharsForward count) true)
  else if v ==s "S" then Some (changeWholeLines count [u "S"])
  else if v ==s "x" then Some (applyAtomicChange [u "x"] (deleteCharsForward count))
  else if v ==s "X" then
    Some (applyAtomicChange [u "X"] (
      b ← get_buffer;
      let e := currentOffset b in delete_into_register (Z.max 0 (e - count)) e))
  else if v ==s "~" then
    Some (applyAtomicChange [u "~"] (on_buffer (fun b =>
      let s := currentOffset b in
      let e := Z.min (zlen (getText b)) (s + count) in
      replaceOffsets s e (toggleCase (slice (getText b) s e)) e b)))
  else if v ==s "J" then
    Some (applyAtomicChange [u "J"] (on_buffer (fun b => joinLines (line (cursor b)) count b)))
  else if (v ==s "p") || (v ==s "P") then Some (applyAtomicChange [v] (paste (v ==s "p") count))
  else if v ==s "u" then Some (undo count)
  else if v ==s "C-r" then Some (redo count)
  else if v ==s "D" then Some (applyAtomicChange [u "D"] delete_to_line_end)
  else if v ==s "C" then Some (startInsertChange [u "C"] delete_to_line_end true)
  else if v ==s "Y" then Some (yank_lines count)
  else if v ==s "R" then Some (startInsertChange [u "R"] (mret tt) false)
  else None.

Definition start_prompt (m : VimInputMode) : M unit :=
  modify (fun s => set_pendingInput [] (set_inputMode m s)).
Definition start_visual (m : VimInputMode) : M unit :=
  modify (fun s => set_selectionAnchor (Some (cursor (buffer s))) (set_inputMode m s)).
Definition scroll_by (n : Z) : M unit :=
  b ← get_buffer; move_to (mkPos (line (cursor b) + n) (col (cursor b))).

(** The keys that move, search, scroll or change mode. *)
Definition normal_move (v : jstr) (count : Z) (token : VimKeyToken) : option (M unit) :=
  let by_pos f := Some (b ← get_buffer; move_to (f (line (cursor b)) (col (cursor b)))) in
  if v ==s "h" then by_pos (fun l c => mkPos l (c - count))
  else if v ==s "j" then by_pos (fun l c => mkPos (l + count) c)
  else if v ==s "k" then by_pos (fun l c => mkPos (l - count) c)
  else if (v ==s "l") || (v ==s " ") then by_pos (fun l c => mkPos l (c + count))
  else if (v ==s "*") || (v ==s "#") then
    Some (search_word token true (if v ==s "*" then 1 else -1) count)
  else if v ==s "n" then
    Some (s ← get_state; repeatSearch (match lastSearch s with Some l => direction l | None => 1 end) count)
  else if v ==s "N" then
    Some (s ← get_state;
          repeatSearch ((match lastSearch s with Some l => direction l | None => 1 end) * -1) count)
  else if v ==s "/" then Some (start_prompt M_search_forward)
  else if v ==s "?" then Some (start_prompt M_search_backward)
  else if v ==s ":" then Some (start_prompt M_command)
  else if v ==s "v" then Some (start_visual M_visual)
  else if v ==s "V" then Some (start_visual M_visual_line)
  else if v ==s "C-f" then Some (scroll_by (Z.max 1 ((DEFAULT_VIEWPORT_HEIGHT - 2) * count)))
  else if v ==s "C-b" then Some (scroll_by (- Z.max 1 ((DEFAULT_VIEWPORT_HEIGHT - 2) * count)))
  else if v ==s "C-d" then Some (scroll_by (Z.max 1 (DEFAULT_VIEWPORT_HEIGHT / 2 * count)))
  else if v ==s "C-u" then Some (scroll_by (- Z.max 1 (DEFAULT_VIEWPORT_HEIGHT / 2 * count)))
  else if v ==s "Esc" then Some (mret tt)
  else None.

Definition MOTION_KEYS : list jstr :=
  [u "w"; u "W"; u "b"; u "B"; u "e"; u "E"; u "0"; u "$"; u "^"; u "|"; u ";"; u ","; u "G"; u "f";
   u "F"; u "t"; u "T"; u "{"; u "}"; u "%"; u "H"; u "M"; u "+"; u "-"; u "_"; u "L"].
Definition OPERATOR_KEYS : list jstr := [u "d"; u "c"; u "y"; u ">"; u "<"].

Section Replay.
(** Execute recorded keys. *)
Context (replay : list VimKeyToken -> M unit).

Definition repeatLastChange (count : Z) (token : VimKeyToken) : M unit :=
  s ← get_state;
  match lastChangeTokens s with
  | None | Some [] => vim_throw_at (u "No previous change to repeat") token
  | Some _ =>
      repeat_m (Z.to_nat count)
        (s ← get_state; replay (replayTokens (default [] (lastChangeTokens s))))
  end.

Definition executeNormal (tokens : list VimKeyToken) (index : Z) : M Z :=
  let c := readCount tokens index in
  let nextIdx := c_next c in
  match tok tokens nextIdx with
  | None => mret nextIdx
  | Some token =>
      let v := value token in
      match normal_move v (count c) token with
      | Some act => act ;; mret (nextIdx + 1)
      | None =>
      match normal_change v (count c) (hasCount c) with
      | Some act => act ;; mret (nextIdx + 1)
      | None =>
          if one_of MOTION_KEYS v then
            m ← resolveMotion tokens nextIdx (count c) (hasCount c);
            move_to (target m) ;; mret (nextIndex m)
          else if v ==s "r" then normal_r tokens nextIdx (count c) token
          else if v ==s "." then repeatLastChange (count c) token ;; mret (nextIdx + 1)
          else if one_of OPERATOR_KEYS v then
            executeOperator tokens nextIdx (count c) (hasCount c) v token
          else if v ==s "z" then normal_z tokens nextIdx token
          else if v ==s "g" then normal_g tokens nextIdx (count c) (hasCount c) token
          else if v ==s "Z" then normal_Z tokens nextIdx token
          else vim_throw_at (u "Unsupported command: " ++ display token) token
      end
      end
  end.

(** ** Insert mode *)

(** Delete [s..e] as part of the insertion. *)
Definition delete_in_insert (s e : Z) (token : VimKeyToken) : M unit :=
  on_buffer (fun b => with_modified true (snd (deleteOffsets s e b))) ;;
  record_insert [value token].

Definition executeInsert (tokens : list VimKeyToken) (index : Z) (token : VimKeyToken) : M Z :=
  b ← get_buffer;
  let v := value token in
  let o := currentOffset b in
  if v ==s "Esc" then exitInsertMode ;; mret (index + 1)
  else if v ==s "CR" then
    insert_at_cursor [NL] ;; on_buffer (with_trailing true) ;; record_insert [v] ;; mret (index + 1)
  else if v ==s "BS" then
    (if 0 <? o then delete_in_insert (o - 1) o token else mret tt) ;; mret (index + 1)
  else if v ==s "Tab" then insert_at_cursor [9] ;; record_insert [v] ;; mret (index + 1)
  else if v ==s "C-w" then
    let s := previousWordStart (getText b) o false in
    let s := if (s =? o) && (0 <? s) then s - 1 else s in
    delete_in_insert s o token ;; mret (index + 1)
  else if v ==s "C-u" then
    let lineStart := positionToOffset b (mkPos (line (cursor b)) 0) in
    (if lineStart <? o then delete_in_insert lineStart o token else mret tt) ;; mret (index + 1)
  else if v ==s "C-o" then
    match tok tokens (index + 1) with
    | None => mret (index + 1)
    | Some _ =>
        modify (set_inputMode M_normal) ;;
        nextIdx ← executeNormal tokens (index + 1);
        modify (set_inputMode M_insert) ;;
        mret nextIdx
    end
  else insert_at_cursor v ;; record_insert [v] ;; mret (index + 1).

(** ** Visual mode *)

Definition visual_range (s : Engine) : TextRange :=
  expandVisualOffsets (buffer s) (default (cursor (buffer s)) (selectionAnchor s))
    (bool_decide (inputMode s = M_visual_line)).

Definition applyVisualOperator (operator : jstr) (visual : TextRange) (count : Z)
    (tokens : list jstr) : M unit :=
  if operator ==s "y" then
    modify (fun s => set_register (mkRegister (tr_linewise visual)
              (slice (getText (buffer s)) (tr_start visual) (tr_end visual))) s) ;;
    clearSelection ;;
    set_status (u "Yanked " ++ num_to_str count ++ u " selection" ++ plural count)
  else if operator ==s "d" then
    applyAtomicChange tokens (yankAndDeleteRange visual) ;; clearSelection
  else if operator ==s "c" then
    startInsertChange tokens (yankAndDeleteRange visual) true ;; clearSelection
  else if (operator ==s ">") || (operator ==s "<") then
    b ← get_buffer;
    let (s, e) := range_lines b visual in
    indent_change tokens s e (operator ==s ">") ;; clearSelection
  else if operator ==s "~" then
    applyAtomicChange tokens (case_change toggleCase visual) ;; clearSelection
  else vim_throw (u "Unsupported visual operator: " ++ operator).

(** [d], [y], [c], ... and their visual aliases. *)
Definition VISUAL_OPERATORS : list jstr :=
  [u "d"; u "x"; u "X"; u "D"; u "y"; u "c"; u "s"; u "S"; u "C"; u ">"; u "<"; u "~"].
Definition operator_value (v : jstr) : jstr :=
  if one_of [u "x"; u "X"; u "D"] v then u "d"
  else if one_of [u "s"; u "S"; u "C"] v then u "c" else v.

(** The keys of visual mode that read no count. *)
Definition visual_key (v : jstr) : option (M unit) :=
  if v ==s "Esc" then Some clearSelection
  else if v ==s "v" then
    Some (s ← get_state; if bool_decide (inputMode s = M_visual) then clearSelection else mret tt)
  else if v ==s "V" then
    Some (modify (fun s => set_inputMode
            (if bool_decide (inputMode s = M_visual_line) then M_visual else M_visual_line) s))
  else if v ==s "o" then
    Some (modify (fun s => match selectionAnchor s with
                           | Some a => set_selectionAnchor (Some (cursor (buffer s)))
                                         (set_buffer (setCursor a (buffer s)) s)
                           | None => s
                           end))
  else if v ==s "J" then
    Some (s ← get_state;
          let (sl, el) := range_lines (buffer s) (visual_range s) in
          applyAtomicChange [u "J"] (on_buffer (joinLines sl (el - sl))) ;; clearSelection)
  else if (v ==s "u") || (v ==s "U") then
    Some (s ← get_state;
          applyAtomicChange [v]
            (case_change (if v ==s "U" then toUpperCase else toLowerCase) (visual_range s)) ;;
          clearSelection)
  else if (v ==s "p") || (v ==s "P") then
    Some (s ← get_state;
          let r := visual_range s in
          applyAtomicChange [v] (modify (fun s =>
            let removed := slice (getText (buffer s)) (tr_start r) (tr_end r) in
            let pasteText := reg_text (register s) in
            set_register (mkRegister (tr_linewise r) removed)
              (set_buffer (replaceOffsets (tr_start r) (tr_end r) pasteText
                             (tr_start r + zlen pasteText) (buffer s)) s))) ;;
          clearSelection)
  else None.

Definition visual_g (tokens : list VimKeyToken) (index : Z) (token : VimKeyToken) : M Z :=
  match tok tokens (index + 1) with
  | None => vim_throw_at (u "g requires a second key") token
  | Some next =>
      s ← get_state;
      let r := visual_range s in
      let v := value next in
      if v ==s "J" then
        let (sl, el) := range_lines (buffer s) r in
        applyAtomicChange [u "g"; u "J"] (on_buffer (fun b =>
          join_plain (VimBuffer.clampLine b sl) (VimBuffer.clampLine b el) b)) ;;
        clearSelection ;; mret (index + 2)
      else if one_of [u "u"; u "U"; u "~"] v then
        applyAtomicChange [u "g"; v]
          (case_change (if v ==s "u" then toLowerCase
                        else if v ==s "U" then toUpperCase else toggleCase) r) ;;
        clearSelection ;; mret (index + 2)
      else vim_throw_at (u "Unsupported g command: g" ++ display next) next
  end.

(** [for (const char of original) replaced += char === "\n" ? "\n" : c] *)
Definition replace_all_chars (c : jstr) (text : jstr) : jstr :=
  concat (map (fun cp => if cp === [NL] then [NL] else c) (code_points text)).

Definition visual_r (tokens : list VimKeyToken) (nextIdx : Z) (opToken : VimKeyToken) : M Z :=
  match tok tokens (nextIdx + 1) with
  | Some replacement =>
      if zlen (value replacement) =? 1 then
        s ← get_state;
        applyAtomicChange [u "r"; value replacement]
          (case_change (replace_all_chars (value replacement)) (visual_range s)) ;;
        clearSelection ;; mret (nextIdx + 2)
      else vim_throw_at (u "Visual replace requires a literal character") opToken
  | None => vim_throw_at (u "Visual replace requires a literal character") opToken
  end.

Definition executeVisual (tokens : list VimKeyToken) (index : Z) (token : VimKeyToken) : M Z :=
  match visual_key (value token) with
  | Some act => act ;; mret (index + 1)
  | None =>
      if value token ==s "g" then visual_g tokens index token
      else
        let c := readCount tokens index in
        let nextIdx := c_next c in
        match tok tokens nextIdx with
        | None => mret nextIdx
        | Some opToken =>
            let v := value opToken in
            if one_of VISUAL_OPERATORS v then
              s ← get_state;
              let consumeExtraIndent :=
                ((v ==s ">") || (v ==s "<"))
                && match tok tokens (nextIdx + 1) with Some t => value t === v | None => false end in
              let visualTokens := if consumeExtraIndent then [v; v] else [v] in
              applyVisualOperator (operator_value v) (visual_range s) (count c) visualTokens ;;
              mret (nextIdx + zlen visualTokens)
            else if v ==s "r" then visual_r tokens nextIdx opToken
            else
              m ← resolveMotion tokens nextIdx (count c) (hasCount c);
              move_to (target m) ;; mret (nextIndex m)
        end
  end.

(** ** The key loop *)

Definition execute_key (tokens : list VimKeyToken) (index : Z) (token : VimKeyToken) : M Z :=
  s ← get_state;
  match inputMode s with
  | M_insert => executeInsert tokens index token
  | M_command | M_search_forward | M_search_backward => executePrompt token index
  | M_visual | M_visual_line => executeVisual tokens index token
  | M_normal => executeNormal tokens index
  end.

Definition after_step : M unit :=
  modify ensureCursorVisible ;;
  s ← get_state;
  let (w, err) := onStep (world s) in
  modify (set_world w) ;;
  match err with Some e => throw (HostErr e) | None => mret tt end.

(** One call handles one key or more; every call consumes a key, so [length tokens] calls are
    enough (see [loop_fuel]). *)
Fixpoint token_loop (fuel : nat) (tokens : list VimKeyToken) (index : Z) : M unit :=
  match fuel with
  | O => mret tt
  | S fuel =>
      match tok tokens index with
      | None => mret tt
      | Some token =>
          next ← execute_key tokens index token;
          s ← get_state;
          if closed s then mret tt
          else after_step ;; token_loop fuel tokens next
      end
  end.
End Replay.

(** [executeTokens], with at most [depth] nested repeats. *)
Fixpoint executeTokens (depth : nat) (tokens : list VimKeyToken) (lastCommand_ : option jstr) : M unit :=
  let replay ts := match depth with
                   | O => throw RepeatTooDeep
                   | S d => executeTokens d ts (Some (u "."))
                   end in
  modify (fun s => set_diagnostics None (set_statusMessage None (set_lastCommand lastCommand_ s))) ;;
  token_loop replay (length tokens) tokens 0.
End Modes.
