(* ===== verification/VimInvariant.v ===== *)
(** Properties of the vim engine: the buffer stays well-formed through every key, also when a
    command throws; the key loop terminates; undo and redo; the effect of the ex commands. *)
From S2P Require Import Prelude VimBuffer VimKeys VimEx VimText VimEngine VimCommands VimModes.
#[local] Open Scope Z_scope.
#[local] Open Scope js_scope.

Section Invariant.
Context {W Diag : Type} `{!VimHost W Diag}.
#[local] Abbreviation Engine := (@Engine W Diag).

(** The engine's buffer is well-formed. *)
Definition engine_ok (s : Engine) : Prop := vb_ok (buffer s).

(** A change of any other field. *)
Definition same_buffer (f : Engine -> Engine) : Prop := forall s, buffer (f s) = buffer s.

Lemma keeps_other (f : Engine -> Engine) :
  same_buffer f -> keeps engine_ok (modify f : SM Engine VErr unit).
Proof. intros H. apply keeps_modify. intros s Hs. unfold engine_ok. by rewrite H. Qed.

Lemma keeps_on_buffer f :
  (forall b, vb_ok b -> vb_ok (f b)) -> keeps engine_ok (on_buffer f : SM Engine VErr unit).
Proof. intros H. apply keeps_modify. intros s Hs. by apply H. Qed.

Lemma keeps_set_buffer b : vb_ok b -> keeps engine_ok (modify (set_buffer b) : SM Engine VErr unit).
Proof. intros H. apply keeps_modify. by intros s Hs. Qed.

Lemma keeps_vim_throw {A} m : keeps engine_ok (vim_throw m : SM Engine VErr A).
Proof. apply keeps_throw. Qed.
Lemma keeps_vim_throw_at {A} m t : keeps engine_ok (vim_throw_at m t : SM Engine VErr A).
Proof. apply keeps_throw. Qed.
Lemma keeps_set_status m : keeps engine_ok (set_status m : SM Engine VErr unit).
Proof. by apply keeps_other. Qed.
Lemma keeps_get_buffer : keeps engine_ok (get_buffer : SM Engine VErr VimBuffer).
Proof. by intros s Hs. Qed.
Lemma keeps_move_to p : keeps engine_ok (move_to p : SM Engine VErr unit).
Proof. apply keeps_on_buffer. intros b Hb. apply setCursor_ok. by destruct Hb. Qed.
Lemma keeps_mark_modified : keeps engine_ok (mark_modified : SM Engine VErr unit).
Proof. apply keeps_on_buffer. auto with vim. Qed.

(** What is read from a well-formed engine may be used. *)
Lemma keeps_bind_buffer {B} (k : VimBuffer -> SM Engine VErr B) :
  (forall b, vb_ok b -> keeps engine_ok (k b)) -> keeps engine_ok (mbind k get_buffer).
Proof. intros H s Hs. exact (H (buffer s) Hs s Hs). Qed.
Lemma keeps_bind_state {B} (k : Engine -> SM Engine VErr B) :
  (forall s, engine_ok s -> keeps engine_ok (k s)) -> keeps engine_ok (mbind k get_state).
Proof. intros H s Hs. exact (H s Hs s Hs). Qed.
End Invariant.

#[export] Hint Resolve keeps_vim_throw keeps_vim_throw_at keeps_set_status keeps_get_buffer
  keeps_move_to keeps_mark_modified : keeps.

Create HintDb vim_state.
#[export] Hint Unfold push_pending_tokens markPendingInserted beginPendingChange clear_selection
  ensureCursorVisible centerViewportOnCursor : vim_state.

(** Decompose an engine computation; state reads first, so that what is read is well-formed. *)
Ltac engine_step :=
  match goal with
  | |- forall _, keeps _ _ => intros ?
  | |- keeps engine_ok (mbind _ get_buffer) => apply keeps_bind_buffer; intros ? ?
  | |- keeps engine_ok (mbind _ get_state) => apply keeps_bind_state; intros ? ?
  | |- keeps engine_ok (modify (set_buffer _)) => apply keeps_set_buffer; eauto with vim
  | |- keeps engine_ok (on_buffer _) => apply keeps_on_buffer; intros ? ?; eauto with vim
  | |- keeps engine_ok (modify ?f) => apply keeps_other; intros ?; autounfold with vim_state; simpl; repeat case_match; reflexivity
  | |- _ => keeps_step
  end.
Ltac solve_engine := repeat engine_step.

(** A mutator that deletes lines and keeps what they were. *)
Ltac by_deleteLines :=
  cbv beta zeta;
  match goal with
  | |- context [deleteLines ?s ?e ?b] =>
      pose proof (deleteLines_ok s e b); destruct (deleteLines s e b); solve_engine
  end.

Section EngineKeeps.
Context {W Diag : Type} `{!VimHost W Diag}.
#[local] Abbreviation Engine := (@Engine W Diag).
#[local] Abbreviation M := (SM Engine VErr).

Lemma vb_ok_lines b : vb_ok b -> lines b <> [].
Proof. by intros []. Qed.
#[local] Hint Resolve vb_ok_lines : vim.

Lemma pushUndo_buffer e ts : same_buffer (pushUndo (W:=W) (Diag:=Diag) e ts).
Proof. intros s. unfold pushUndo. destruct (snapshotEqual _ _); [done|]. by destruct ts. Qed.

Lemma keeps_pushUndo (f : Engine -> VimUndoEntry) ts :
  keeps engine_ok (modify (fun s => pushUndo (f s) ts s) : M unit).
Proof. apply keeps_other. intros s. apply pushUndo_buffer. Qed.
#[local] Hint Resolve keeps_pushUndo : keeps.

Lemma keeps_ensureEditable : keeps engine_ok (ensureEditable : M unit).
Proof.
  unfold ensureEditable. apply keeps_bind_state. intros s Hs.
  destruct (beforeMutate (buffer s) (world s)) as [[w c] err]. apply keeps_bind.
  - apply keeps_modify. intros s' Hs'. by apply with_editable_ok.
  - intros _. solve_engine.
Qed.
#[local] Hint Resolve keeps_ensureEditable : keeps.

Lemma keeps_atomic ts (m : M unit) : keeps engine_ok m -> keeps engine_ok (applyAtomicChange ts m).
Proof. intros Hm. unfold applyAtomicChange. solve_engine. Qed.

Lemma keeps_start_insert ts (m : M unit) l :
  keeps engine_ok m -> keeps engine_ok (startInsertChange ts m l).
Proof. intros Hm. unfold startInsertChange. solve_engine. Qed.

Lemma keeps_commit : keeps engine_ok (modify commitPendingChange : M unit).
Proof.
  apply keeps_other. intros s. unfold commitPendingChange. destruct (pendingChange s); [|done].
  apply pushUndo_buffer.
Qed.
#[local] Hint Resolve keeps_commit : keeps.

Lemma keeps_exit_insert : keeps engine_ok (exitInsertMode : M unit).
Proof. unfold exitInsertMode. solve_engine. Qed.
Lemma keeps_insert_at t : keeps engine_ok (insert_at_cursor t : M unit).
Proof. unfold insert_at_cursor. solve_engine. Qed.
Lemma keeps_record ts : keeps engine_ok (record_insert ts : M unit).
Proof.
  apply keeps_other. intros s. unfold markPendingInserted, push_pending_tokens.
  destruct (pendingChange s) eqn:E; simpl; [done|by rewrite E].
Qed.
#[local] Hint Resolve keeps_exit_insert keeps_insert_at keeps_record : keeps.

Lemma keeps_delete_into s e : keeps engine_ok (delete_into_register s e : M unit).
Proof.
  unfold delete_into_register. apply keeps_bind_buffer. intros b Hb.
  pose proof (deleteOffsets_ok s e b) as H. destruct (deleteOffsets s e b) as [r b']. solve_engine.
Qed.
Lemma keeps_yank_delete r : keeps engine_ok (yankAndDeleteRange r : M unit).
Proof. unfold yankAndDeleteRange. solve_engine. Qed.
#[local] Hint Resolve keeps_delete_into keeps_yank_delete : keeps.

Lemma keeps_deleteChars n : keeps engine_ok (deleteCharsForward n : M unit).
Proof. unfold deleteCharsForward. solve_engine. Qed.

Lemma keeps_changeWhole n ts : keeps engine_ok (changeWholeLines n ts : M unit).
Proof.
  unfold changeWholeLines. apply keeps_start_insert. solve_engine.
  apply setCursor_ok. apply some_lines_ne.
Qed.

Lemma insert_many_ok ls at_ ids b : vb_ok b ->
  vb_ok (fold_left (fun b i => insertLines (at_ + Z.of_nat i * zlen ls) ls b) ids b).
Proof. revert b. induction ids as [|i ids IH]; intros b Hb; simpl; auto with vim. Qed.

Lemma keeps_paste a n : keeps engine_ok (paste a n : M unit).
Proof.
  unfold paste. apply keeps_bind_state. intros s Hs. destruct (reg_text _); [solve_engine|].
  destruct (reg_linewise _); apply keeps_on_buffer; intros b Hb; [by apply insert_many_ok|auto with vim].
Qed.

Lemma undo_loop_ok n k (s : Engine) : engine_ok s -> engine_ok (snd (undo_loop n k s)).
Proof.
  revert k s. induction n as [|n IH]; intros k s Hs; simpl; [done|].
  destruct (undoStack s); [done|]. apply IH, restore_ok.
Qed.
Lemma redo_loop_ok n k (s : Engine) : engine_ok s -> engine_ok (snd (redo_loop n k s)).
Proof.
  revert k s. induction n as [|n IH]; intros k s Hs; simpl; [done|].
  destruct (redoStack s); [done|]. apply IH, restore_ok.
Qed.
Lemma keeps_undo n : keeps engine_ok (undo n : M unit).
Proof.
  unfold undo. apply keeps_bind; [auto with keeps|]. intros _. apply keeps_modify. intros s Hs.
  pose proof (undo_loop_ok (Z.to_nat n) 0 s Hs) as H. by destruct (undo_loop _ 0 s).
Qed.
Lemma keeps_redo n : keeps engine_ok (redo n : M unit).
Proof.
  unfold redo. apply keeps_bind; [auto with keeps|]. intros _. apply keeps_modify. intros s Hs.
  pose proof (redo_loop_ok (Z.to_nat n) 0 s Hs) as H. by destruct (redo_loop _ 0 s).
Qed.
#[local] Hint Resolve keeps_atomic keeps_start_insert keeps_deleteChars keeps_changeWhole keeps_paste
  keeps_undo keeps_redo : keeps.

(** ** Searches, motions and operators *)

Lemma keeps_runSearch p d b : keeps engine_ok (runSearch p d b : M unit).
Proof. unfold runSearch. solve_engine. Qed.
#[local] Hint Resolve keeps_runSearch : keeps.
Lemma keeps_repeatSearch d n : keeps engine_ok (repeatSearch d n : M unit).
Proof. unfold repeatSearch. solve_engine. Qed.
Lemma keeps_search_word t bd d n : keeps engine_ok (search_word t bd d n : M unit).
Proof. unfold search_word. solve_engine. Qed.

Lemma keeps_resolveMotion ts i n h : keeps engine_ok (resolveMotion ts i n h : M _).
Proof. unfold resolveMotion, motion_g, motion_find, motion_refind. solve_engine. Qed.
Lemma keeps_textObject b i o t : keeps engine_ok (resolveTextObject b i o t : M _).
Proof. unfold resolveTextObject. solve_engine. Qed.
#[local] Hint Resolve keeps_repeatSearch keeps_search_word keeps_resolveMotion keeps_textObject : keeps.

Lemma keeps_indent ts s e r : keeps engine_ok (indent_change ts s e r : M unit).
Proof. unfold indent_change. apply keeps_atomic. solve_engine. Qed.
#[local] Hint Resolve keeps_indent : keeps.
Lemma keeps_applyOperator o m ts : keeps engine_ok (applyOperatorToMotion o m ts : M unit).
Proof. unfold applyOperatorToMotion. solve_engine. Qed.
Lemma keeps_yank_lines n : keeps engine_ok (yank_lines n : M unit).
Proof. unfold yank_lines. solve_engine. Qed.
#[local] Hint Resolve keeps_applyOperator keeps_yank_lines : keeps.

Lemma keeps_doubled o n act : doubled_operator o n = Some act -> keeps engine_ok (act : M unit).
Proof.
  unfold doubled_operator. repeat (case_match; [intros <-%(inj Some)|]); [..|done]; try solve [auto with keeps].
  - apply keeps_atomic, keeps_bind_buffer. intros b Hb. by_deleteLines.
  - apply keeps_atomic. solve_engine.
Qed.

Lemma keeps_executeOperator ts i n h o t : keeps engine_ok (executeOperator ts i n h o t : M Z).
Proof.
  unfold executeOperator. cbv zeta. destruct (tok ts _) as [token|]; [|auto with keeps].
  match goal with |- keeps _ (match ?d with _ => _ end) => destruct d as [act|] eqn:E end; [|solve_engine].
  apply keeps_bind; [|solve_engine]. destruct (value token === o); [|done]. by eapply keeps_doubled.
Qed.
#[local] Hint Resolve keeps_executeOperator : keeps.

(** ** Ex commands *)

Lemma keeps_ex_write f : keeps engine_ok (ex_write f : M unit).
Proof.
  unfold ex_write. apply keeps_bind_state. intros s Hs.
  destruct (saveBuffer _ _ _) as [w [[loaded diag]|e]]; solve_engine.
Qed.
Lemma keeps_ex_edit f p : keeps engine_ok (ex_edit f p : M unit).
Proof.
  unfold ex_edit. apply keeps_bind_state. intros s Hs. destruct (_ && _); [solve_engine|].
  destruct (loadBuffer _ _) as [w [next|e]]; solve_engine.
Qed.

Lemma substitute_lines_ok r rep all n i b k :
  vb_ok b -> vb_ok (fst (substitute_lines r rep all n i b k)).
Proof.
  revert i b k. induction n as [|n IH]; intros i b k Hb; simpl; [done|].
  destruct (substitute_line r rep all (getLine b i)). apply IH. auto with vim.
Qed.

Lemma keeps_ex_substitute r p rep f : keeps engine_ok (ex_substitute r p rep f : M unit).
Proof.
  unfold ex_substitute. apply keeps_bind_buffer. intros b0 Hb0. cbv zeta.
  apply keeps_bind; [solve_engine|]. intros regex. apply keeps_bind; [solve_engine|]. intros _.
  apply keeps_bind_buffer. intros b Hb. apply keeps_bind; [|solve_engine].
  apply keeps_set_buffer. by apply substitute_lines_ok.
Qed.

Lemma keeps_ex_delete r : keeps engine_ok (ex_delete r : M unit).
Proof.
  unfold ex_delete. apply keeps_bind_buffer. intros b0 Hb0. cbv zeta.
  apply keeps_bind; [|solve_engine]. apply keeps_atomic, keeps_bind_buffer. intros b Hb. by_deleteLines.
Qed.

Lemma move_lines_ok r d b : vb_ok (move_lines r d b).
Proof. unfold move_lines. destruct (splice _ _ _ _). apply setCursor_ok, some_lines_ne. Qed.

Lemma sort_insert_length (key : jstr -> jstr) x ls : zlen (sort_insert key x ls) = 1 + zlen ls.
Proof.
  induction ls as [|y ls IH]; simpl; [done|]. destruct (str_lt _ _); rewrite !zlen_cons; lia.
Qed.
Lemma sort_lines_length (key : jstr -> jstr) ls : zlen (sort_lines key ls) = zlen ls.
Proof.
  induction ls as [|x ls IH]; simpl; [done|]. rewrite sort_insert_length, zlen_cons. lia.
Qed.

Lemma zlen_slice_gen {A} (l : list A) a b :
  0 <= a <= b -> zlen (slice l a b) = Z.min b (zlen l) - Z.min a (zlen l).
Proof.
  intros H. pose proof (zlen_nonneg l). unfold slice, rel_index.
  rewrite !(proj2 (Z.ltb_ge _ 0)) by lia. rewrite zlen_take; [done|]. rewrite zlen_drop; lia.
Qed.

Lemma slice_past {A} (l : list A) a b : zlen l <= b -> b <= a -> slice l a b = [].
Proof.
  intros H1 H2. pose proof (zlen_nonneg l). unfold slice, rel_index.
  rewrite !(proj2 (Z.ltb_ge _ 0)) by lia. by replace (Z.to_nat _) with O by lia.
Qed.

(** Replacing the lines of a range by as many lines. *)
Lemma same_length_ok b s e ls :
  vb_ok b -> 0 <= s <= e -> zlen ls = zlen (slice (lines b) s e) ->
  vb_ok (with_lines (slice (lines b) 0 s ++ ls ++ slice_from (lines b) e) b).
Proof.
  intros [Hne Hl Hc] Hse Hlen.
  assert (Hz : zlen (slice (lines b) 0 s ++ ls ++ slice_from (lines b) e) = zlen (lines b)).
  { rewrite !zlen_app, Hlen. unfold slice_from. pose proof (zlen_nonneg (lines b)).
    destruct (Z.le_gt_cases e (zlen (lines b))).
    - rewrite !zlen_slice_gen by lia. lia.
    - rewrite (zlen_slice_gen _ 0 s), (zlen_slice_gen _ s e) by lia.
      rewrite slice_past by lia. change (zlen (@nil jstr)) with 0. lia. }
  split; simpl; [|by rewrite Hz|done].
  intros E. rewrite E in Hz. change (zlen (@nil jstr)) with 0 in Hz. lia.
Qed.

Lemma resolveExRange_bounds b r ds de :
  let x := resolveExRange b r ds de in 1 <= start x <= end_ x /\ end_ x <= Z.max 1 (lineCount b).
Proof. unfold resolveExRange. destruct r as [[|[]]|]; simpl; lia. Qed.

Lemma keeps_ex_sort r f : keeps engine_ok (ex_sort r f : M unit).
Proof.
  unfold ex_sort. apply keeps_bind_buffer. intros b0 Hb0. cbv zeta.
  apply keeps_bind; [|solve_engine]. apply keeps_atomic, keeps_on_buffer. intros b Hb.
  pose proof (resolveExRange_bounds b0 (Some (default RAll r)) 1 (lineCount b0)) as Hr. cbv zeta in Hr.
  apply same_length_ok; [done|lia|].
  match goal with |- zlen (if ?c then _ else _) = _ => destruct c end; by rewrite ?zlen_rev, sort_lines_length.
Qed.

Lemma keeps_ex_join r t : keeps engine_ok (ex_join r t : M unit).
Proof.
  unfold ex_join. apply keeps_bind_buffer. intros b0 Hb0. cbv zeta. destruct (_ <? 2); [solve_engine|].
  apply keeps_bind; [|solve_engine]. apply keeps_atomic, keeps_on_buffer. intros b Hb.
  destruct t; auto with vim.
Qed.

Lemma keeps_ex_global r p c i : keeps engine_ok (ex_global r p c i : M unit).
Proof.
  unfold ex_global. apply keeps_bind; [solve_engine|]. intros regex. apply keeps_bind_buffer. intros b0 Hb0.
  cbv zeta. apply keeps_bind; [|solve_engine]. apply keeps_atomic, keeps_bind_buffer. intros b Hb.
  destruct (_ || _); [|solve_engine]. apply keeps_on_buffer. intros b' Hb'.
  apply with_trailing_ok, clampCursor_ok, some_lines_ne.
Qed.

Lemma keeps_ex_others c : keeps engine_ok (run_ex c : M unit).
Proof.
  destruct c; simpl.
  - apply keeps_ex_write.
  - apply keeps_bind_buffer. intros b Hb. destruct (modified b); [apply keeps_ex_write|solve_engine].
  - unfold ex_quit. solve_engine.
  - apply keeps_bind; [apply keeps_ex_write|solve_engine].
  - apply keeps_ex_edit.
  - solve_engine.
  - apply keeps_ex_substitute.
  - apply keeps_ex_delete.
  - unfold ex_yank, lines_status. solve_engine.
  - unfold ex_put, lines_status. apply keeps_bind_state. intros s Hs. cbv zeta.
    destruct (reg_text _); [solve_engine|]. apply keeps_bind; [apply keeps_atomic|]; solve_engine.
  - unfold ex_copy, lines_status. apply keeps_bind_buffer. intros b Hb. cbv zeta.
    apply keeps_bind; [apply keeps_atomic|]; solve_engine.
  - unfold ex_move, lines_status. apply keeps_bind_buffer. intros b Hb. cbv zeta.
    apply keeps_bind; [apply keeps_atomic, keeps_on_buffer|solve_engine]. intros b' _. apply move_lines_ok.
  - apply keeps_ex_sort.
  - apply keeps_ex_join.
  - apply keeps_ex_global.
  - unfold ex_append, lines_status. apply keeps_bind_buffer. intros b Hb. cbv zeta.
    apply keeps_bind; [apply keeps_atomic|]; solve_engine.
  - unfold ex_insert_before, lines_status. apply keeps_bind_buffer. intros b Hb. cbv zeta.
    apply keeps_bind; [apply keeps_atomic|]; solve_engine.
Qed.

Lemma keeps_executeEx i : keeps engine_ok (executeEx i : M unit).
Proof. unfold executeEx. pose proof keeps_ex_others. solve_engine. Qed.
#[local] Hint Resolve keeps_executeEx : keeps.

End EngineKeeps.

#[export] Hint Resolve vb_ok_lines : vim.
#[export] Hint Resolve keeps_pushUndo keeps_ensureEditable keeps_commit keeps_exit_insert keeps_insert_at
  keeps_record keeps_delete_into keeps_yank_delete keeps_atomic keeps_start_insert keeps_deleteChars
  keeps_changeWhole keeps_paste keeps_undo keeps_redo keeps_runSearch keeps_repeatSearch
  keeps_search_word keeps_resolveMotion keeps_textObject keeps_indent keeps_applyOperator
  keeps_yank_lines keeps_executeOperator keeps_executeEx : keeps.
