(* ===== verification/VimModesKeep.v ===== *)
(** Every key of every mode keeps the buffer well-formed. *)
From S2P Require Import Prelude VimBuffer VimKeys VimEx VimText VimEngine VimCommands VimModes VimInvariant.
#[local] Open Scope Z_scope.
#[local] Open Scope js_scope.

(** A computation made of engine computations, changes and repetitions. *)
Ltac solve_change :=
  repeat match goal with
         | |- keeps _ (applyAtomicChange _ _) => apply keeps_atomic
         | |- keeps _ (startInsertChange _ _ _) => apply keeps_start_insert
         | |- keeps _ (repeat_m _ _) => apply keeps_repeat
         | _ => engine_step
         end.

Section ModesKeep.
Context {W Diag : Type} `{!VimHost W Diag}.
#[local] Abbreviation Engine := (@Engine W Diag).
#[local] Abbreviation M := (SM Engine VErr).

Lemma keeps_executePrompt t i : keeps engine_ok (executePrompt t i : M Z).
Proof. unfold executePrompt. solve_engine. Qed.

Lemma case_lines_ok f n i b : vb_ok b -> vb_ok (case_lines f n i b).
Proof. revert i b. induction n as [|n IH]; intros i b Hb; simpl; [done|]. apply IH. auto with vim. Qed.

Lemma keeps_case_change f r : keeps engine_ok (case_change f r : M unit).
Proof. unfold case_change. solve_engine. Qed.
#[local] Hint Resolve keeps_executePrompt case_lines_ok keeps_case_change : keeps vim.

Lemma keeps_case_operator ts i n h g f : keeps engine_ok (case_operator ts i n h g f : M Z).
Proof.
  unfold case_operator. cbv zeta. destruct (tok ts _) as [t|]; [|solve_engine].
  destruct (value t === value g); [apply keeps_bind; [apply keeps_atomic|]; solve_engine|].
  apply keeps_bind; [solve_engine|]. intros m. apply keeps_bind_buffer. intros b Hb. cbv zeta.
  apply keeps_bind; [apply keeps_atomic|]; solve_engine.
Qed.

Lemma join_plain_ok s e b : vb_ok b -> vb_ok (join_plain s e b).
Proof. unfold join_plain. destruct (s <? e); auto with vim. Qed.
#[local] Hint Resolve keeps_case_operator join_plain_ok : keeps vim.

Lemma keeps_first_nonblank : keeps engine_ok (to_first_nonblank : M unit).
Proof. unfold to_first_nonblank. solve_engine. Qed.
Lemma keeps_viewport (f : Engine -> Z) : keeps engine_ok (modify (fun s => set_viewportStart (f s) s) : M unit).
Proof. by apply keeps_other. Qed.
#[local] Hint Resolve keeps_first_nonblank keeps_viewport : keeps.

Lemma keeps_normal_g ts i n h t : keeps engine_ok (normal_g ts i n h t : M Z).
Proof. unfold normal_g. solve_change. Qed.
Lemma keeps_normal_z ts i t : keeps engine_ok (normal_z ts i t : M Z).
Proof. unfold normal_z. solve_engine. Qed.
Lemma keeps_normal_Z ts i t : keeps engine_ok (normal_Z ts i t : M Z).
Proof. unfold normal_Z. solve_engine. Qed.
Lemma keeps_normal_r ts i n t : keeps engine_ok (normal_r ts i n t : M Z).
Proof. unfold normal_r. solve_change. Qed.

Lemma keeps_set_col c : keeps engine_ok (set_cursor_col c : M unit).
Proof. unfold set_cursor_col. solve_engine. Qed.
Lemma keeps_goto_counted n h : keeps engine_ok (goto_counted_line n h : M unit).
Proof. unfold goto_counted_line. solve_engine. Qed.
Lemma keeps_to_line_end : keeps engine_ok (delete_to_line_end : M unit).
Proof. unfold delete_to_line_end. solve_engine. Qed.
#[local] Hint Resolve keeps_normal_g keeps_normal_z keeps_normal_Z keeps_normal_r keeps_set_col
  keeps_goto_counted keeps_to_line_end : keeps.

Lemma keeps_normal_change v n h act :
  normal_change v n h = Some act -> keeps engine_ok (act : M unit).
Proof.
  unfold normal_change. repeat (case_match; [intros <-%(inj Some); solve_change|]). done.
Qed.

Lemma keeps_normal_move v n t act : normal_move v n t = Some act -> keeps engine_ok (act : M unit).
Proof.
  unfold normal_move, start_prompt, start_visual, scroll_by. cbv zeta.
  repeat (case_match; [intros <-%(inj Some); solve_engine|]). done.
Qed.

Section WithReplay.
Context (replay : list VimKeyToken -> M unit).
Context (replay_keeps : forall ts, keeps engine_ok (replay ts)).
#[local] Hint Resolve replay_keeps : keeps.

Lemma keeps_executeNormal ts i : keeps engine_ok (executeNormal replay ts i).
Proof.
  unfold executeNormal. cbv zeta. destruct (tok ts _) as [t|]; [|solve_engine].
  destruct (normal_move _ _ _) as [act|] eqn:E1.
  { apply keeps_bind; [by eapply keeps_normal_move|solve_engine]. }
  destruct (normal_change _ _ _) as [act|] eqn:E2.
  { apply keeps_bind; [by eapply keeps_normal_change|solve_engine]. }
  unfold repeatLastChange. solve_change.
Qed.
#[local] Hint Resolve keeps_executeNormal : keeps.

Lemma keeps_executeInsert ts i t : keeps engine_ok (executeInsert replay ts i t).
Proof. unfold executeInsert, delete_in_insert. solve_engine. Qed.

Lemma keeps_clearSelection : keeps engine_ok (clearSelection : M unit).
Proof. unfold clearSelection. solve_engine. Qed.
#[local] Hint Resolve keeps_clearSelection : keeps.

Lemma keeps_visual_operator o v n ts : keeps engine_ok (applyVisualOperator o v n ts : M unit).
Proof. unfold applyVisualOperator. solve_change. Qed.

Lemma keeps_visual_key v act : visual_key v = Some act -> keeps engine_ok (act : M unit).
Proof.
  unfold visual_key. repeat (case_match; [intros <-%(inj Some); solve_change|]); [..|done].
  - apply keeps_modify. intros s' Hs'. destruct (selectionAnchor s'); [|done].
    apply setCursor_ok. by destruct Hs'.
  - apply keeps_modify. intros s' Hs'. apply replaceOffsets_ok.
Qed.
Lemma keeps_visual_g ts i t : keeps engine_ok (visual_g ts i t : M Z).
Proof. unfold visual_g. solve_change. Qed.
Lemma keeps_visual_r ts i t : keeps engine_ok (visual_r ts i t : M Z).
Proof. unfold visual_r. solve_change. Qed.
#[local] Hint Resolve keeps_visual_operator keeps_visual_g keeps_visual_r keeps_executeInsert : keeps.

Lemma keeps_executeVisual ts i t : keeps engine_ok (executeVisual ts i t : M Z).
Proof.
  unfold executeVisual. destruct (visual_key _) as [act|] eqn:E.
  { apply keeps_bind; [by eapply keeps_visual_key|solve_engine]. }
  solve_engine.
Qed.
#[local] Hint Resolve keeps_executeVisual : keeps.

Lemma keeps_after_step : keeps engine_ok (after_step : M unit).
Proof.
  unfold after_step. apply keeps_bind; [solve_engine|]. intros _. apply keeps_bind_state. intros s Hs.
  destruct (onStep (world s)) as [w [e|]]; solve_engine.
Qed.
#[local] Hint Resolve keeps_after_step : keeps.

Lemma keeps_token_loop n ts i : keeps engine_ok (token_loop replay n ts i).
Proof.
  revert i. induction n as [|n IH]; intros i; simpl; [solve_engine|].
  destruct (tok ts i) as [t|]; [|solve_engine]. unfold execute_key. solve_engine.
Qed.
End WithReplay.

Lemma keeps_executeTokens d ts c : keeps engine_ok (executeTokens d ts c : M unit).
Proof.
  revert ts c. induction d as [|d IH]; intros ts c; simpl; (apply keeps_bind; [solve_engine|]); intros _;
    apply keeps_token_loop; intros ts'; [apply keeps_throw|apply IH].
Qed.
End ModesKeep.
