(* ===== verification/VimDemo.v ===== *)
(** A concrete host of the vim engine, on which the witnesses of the properties run: it accepts
    every change, saves in memory, and its regular expressions are literal texts. *)
From S2P Require Import Prelude VimBuffer VimKeys VimEx VimText VimEngine VimCommands VimModes.
#[local] Open Scope Z_scope.
#[local] Open Scope js_scope.

Lemma starts_with_length s p : starts_with s p = true -> zlen p <= zlen s.
Proof.
  revert p. induction s as [|c s IH]; intros [|d p] H; simpl in *; try done.
  rewrite !zlen_cons. apply andb_prop in H as [_ H]. specialize (IH _ H). lia.
Qed.

Lemma find_from_bounds s p i j : find_from s p i = j -> j = -1 \/ (i <= j /\ j + zlen p <= i + zlen s).
Proof.
  revert i. induction s as [|c s IH]; intros i; cbn [find_from].
  - destruct (starts_with [] p) eqn:E; intros <-; [right|by left]. apply starts_with_length in E. lia.
  - destruct (starts_with (c :: s) p) eqn:E; intros H; [right|].
    + apply starts_with_length in E. lia.
    + destruct (IH _ H) as [|H']; [by left|right]. rewrite zlen_cons. lia.
Qed.

(** The first occurrence of [p] at or after [i]. *)
Definition literal_exec (p text : jstr) (i : Z) : option (Z * Z) :=
  let j := index_of text p i in
  if (j <? i) || (j <? 0) then None else Some (j, j + zlen p).

Lemma literal_exec_bounds p text i a b :
  literal_exec p text i = Some (a, b) -> i <= a <= b /\ b <= zlen text.
Proof.
  unfold literal_exec. destruct (_ || _) eqn:E; [done|]. intros [= <- <-].
  apply orb_false_elim in E as [E1 E2]. apply Z.ltb_ge in E1, E2. pose proof (zlen_nonneg p). pose proof (zlen_nonneg text).
  unfold index_of in *. match goal with |- context [find_from ?s p ?k] =>
    destruct (find_from_bounds s p k _ eq_refl) as [H1|H1]; [lia|] end.
  rewrite zlen_drop in H1; unfold clamp in *; lia.
Qed.

Definition saved (b : VimBuffer) : VimLoadedFile :=
  mkLoaded (filePath b) (displayPath b) (lines b) (trailingNewline b) (baseFingerprint b).

#[export] Instance plain_host : VimHost unit unit := {
  beforeMutate b w := (w, true, None);
  loadBuffer p w := (w, Err (u "No such file"));
  saveBuffer b force w := (w, Ok (saved b, None));
  onStep w := (w, None);
  diag_summary _ := [];
  toUpperCase s := map (fun c => if is_lower c then c - 32 else c) s;
  toLowerCase s := map (fun c => if is_upper c then c + 32 else c) s;
  Regex := jstr;
  newRegExp p f := Some p;
  regex_exec := literal_exec;
  regex_exec_bounds := literal_exec_bounds }.

(** Three lines. *)
Definition demo_engine : @Engine unit unit := new_VimEngine demo_buffer tt.

(** The tokens of keys given as text. *)
Definition keys (ks : list jstr) : list VimKeyToken :=
  match parseKeySequences (toLowerCase (W:=unit) (Diag:=unit)) ks with Ok ts => ts | Err _ => [] end.

Definition run_keys (ks : list jstr) (s : @Engine unit unit) : @Engine unit unit :=
  fst (executeTokens 3 (keys ks) None s).
