(* ===== verification/VimMotions.v ===== *)
(** The motions of the vim engine: where the word motions land, and that [%] pairs brackets. *)
From S2P Require Import Prelude VimBuffer VimKeys VimEx VimText VimEngine VimCommands VimDemo.
#[local] Open Scope Z_scope.
#[local] Open Scope js_scope.

(** ** The scanning loops *)

Lemma scan_up_spec n p i :
  let j := scan_up n p i in
  i <= j <= i + Z.of_nat n /\ (forall k, i <= k < j -> p k = true) /\
  (j = i + Z.of_nat n \/ p j = false).
Proof.
  revert i. induction n as [|n IH]; intros i; simpl.
  - split_and!; [lia..|left; lia].
  - destruct (p i) eqn:E.
    + destruct (IH (i + 1)) as (H1 & H2 & H3). split_and!; [lia..| |destruct H3; [left; lia|by right]].
      intros k Hk. destruct (Z.eq_dec k i) as [->|]; [done|]. apply H2. lia.
    + split_and!; [lia..|by right].
Qed.

Lemma while_up_spec p i limit :
  i <= limit ->
  let j := while_up p i limit in
  i <= j <= limit /\ (forall k, i <= k < j -> p k = true) /\ (j = limit \/ p j = false).
Proof.
  intros H. unfold while_up. pose proof (scan_up_spec (Z.to_nat (limit - i)) p i) as Hs. cbv zeta in Hs.
  rewrite Z2Nat.id in Hs by lia. by replace (i + (limit - i)) with limit in Hs by lia.
Qed.

Lemma scan_down_spec n p i :
  let j := scan_down n p i in
  i - Z.of_nat n <= j <= i /\ (forall k, j < k <= i -> p k = true) /\
  (j = i - Z.of_nat n \/ p j = false).
Proof.
  revert i. induction n as [|n IH]; intros i; simpl.
  - split_and!; [lia..|left; lia].
  - destruct (p i) eqn:E.
    + destruct (IH (i - 1)) as (H1 & H2 & H3). split_and!; [lia..| |destruct H3; [left; lia|by right]].
      intros k Hk. destruct (Z.eq_dec k i) as [->|]; [done|]. apply H2. lia.
    + split_and!; [lia..|by right].
Qed.

Lemma while_down_spec p i limit :
  limit <= i ->
  let j := while_down p i limit in
  limit <= j <= i /\ (forall k, j < k <= i -> p k = true) /\ (j = limit \/ p j = false).
Proof.
  intros H. unfold while_down. pose proof (scan_down_spec (Z.to_nat (i - limit)) p i) as Hs. cbv zeta in Hs.
  rewrite Z2Nat.id in Hs by lia. by replace (i - (i - limit)) with limit in Hs by lia.
Qed.

Lemma while_up_at p i : while_up p i i = i.
Proof. unfold while_up. by rewrite Z.sub_diag. Qed.

(** ** Words *)

Section Words.
Context (text : jstr) (big : bool).

(** A word is a maximal run of characters of one category that is not [space]. *)
Definition word_start (j : Z) : Prop :=
  cat_at text j big <> space /\ (j = 0 \/ cat_at text (j - 1) big <> cat_at text j big).
Definition word_end (j : Z) : Prop :=
  cat_at text j big <> space /\ cat_at text (j + 1) big <> cat_at text j big.

(** [r] is the first index of [lo..hi] with [P], [hi] when there is none; and the last. *)
Definition first_in (P : Z -> Prop) (lo hi r : Z) : Prop :=
  lo <= r <= hi /\ (r = hi \/ P r) /\ forall k, lo <= k < r -> ~ P k.
Definition last_in (P : Z -> Prop) (lo hi r : Z) : Prop :=
  lo <= r <= hi /\ (r = lo \/ P r) /\ forall k, r < k <= hi -> ~ P k.

Lemma cat_is_true c i : cat_is text big c i = true <-> cat_at text i big = c.
Proof. unfold cat_is. by rewrite bool_decide_eq_true. Qed.
Lemma cat_is_false c i : cat_is text big c i = false <-> cat_at text i big <> c.
Proof. unfold cat_is. by rewrite bool_decide_eq_false. Qed.

Lemma cat_end : cat_at text (zlen text) big = space.
Proof.
  unfold cat_at, char_str, wordCategory. pose proof (zlen_nonneg text).
  assert (at_ text (zlen text) = None) as ->; [|done].
  unfold at_. rewrite (proj2 (Z.ltb_ge _ 0)) by lia. apply lookup_ge_None. unfold zlen. lia.
Qed.

Lemma clamp_text i : 0 <= i <= zlen text -> clamp i 0 (zlen text) = i.
Proof. unfold clamp. lia. Qed.

(** Scans over one category. *)
Lemma scan_right c i :
  0 <= i <= zlen text ->
  let j := while_up (cat_is text big c) i (zlen text) in
  i <= j <= zlen text /\ (forall k, i <= k < j -> cat_at text k big = c) /\
  (j = zlen text \/ cat_at text j big <> c).
Proof.
  intros Hi j. destruct (while_up_spec (cat_is text big c) i (zlen text) ltac:(lia)) as (H1 & H2 & H3).
  split_and!; [apply H1..|intros k Hk; by apply cat_is_true, H2|by rewrite <-cat_is_false].
Qed.

Lemma nextWordStart_spec o :
  0 <= o < zlen text -> first_in word_start (o + 1) (zlen text) (nextWordStart text o big).
Proof.
  intros Ho. unfold nextWordStart. rewrite clamp_text by lia. cbv zeta.
  rewrite (proj2 (Z.leb_gt _ _)) by lia. case_bool_decide as Hsp.
  - destruct (scan_right space o ltac:(lia)) as (H1 & H2 & H3).
    set (r := while_up _ _ _) in *. assert (r <> o).
    { intros E. rewrite E in H3. destruct H3; [lia|done]. }
    split_and!; [lia..| |intros k Hk [Hk' _]; apply Hk', H2; lia].
    destruct H3 as [?|H3]; [by left|right; split; [done|right]]. rewrite (H2 (r - 1)) by lia. congruence.
  - destruct (scan_right (cat_at text o big) o ltac:(lia)) as (H1 & H2 & H3).
    set (e := while_up _ _ _) in *.
    assert (e <> o) by (intros E; rewrite E in H3; destruct H3; [lia|done]).
    destruct (scan_right space e ltac:(lia)) as (H4 & H5 & H6).
    set (r := while_up (cat_is text big space) e _) in *.
    split_and!; [lia..| |].
    + destruct H6 as [?|H6]; [by left|right; split; [done|right]].
      destruct (Z.eq_dec r e) as [E|].
      * rewrite (H2 (r - 1)) by lia. rewrite E in *. destruct H3 as [H3|H3]; [|congruence].
        by rewrite H3, cat_end in H6.
      * rewrite (H5 (r - 1)) by lia. congruence.
    + intros k Hk [Hk1 [?|Hk2]]; [lia|]. destruct (Z.lt_ge_cases k e).
      * apply Hk2. by rewrite (H2 (k - 1)), (H2 k) by lia.
      * apply Hk1, H5. lia.
Qed.

Lemma endOfWord_spec o :
  0 <= o < zlen text -> first_in word_end o (zlen text - 1) (endOfWord text o big).
Proof.
  intros Ho. unfold endOfWord. rewrite clamp_text by lia. cbv zeta.
  destruct (scan_right space o ltac:(lia)) as (H1 & H2 & H3). set (i := while_up _ _ _) in *.
  destruct (Z.eq_dec i (zlen text)) as [Ei|Ei].
  { rewrite Ei, while_up_at, Z.max_r by lia. split_and!; [lia..|by left|]. intros k Hk [Hk' _]. apply Hk', H2. lia. }
  assert (cat_at text i big <> space) as Hi by (destruct H3; [lia|done]).
  destruct (scan_right (cat_at text i big) i ltac:(lia)) as (H4 & H5 & H6).
  set (e := while_up _ i _) in *.
  assert (e <> i) by (intros E; rewrite E in H6; destruct H6; [lia|done]).
  rewrite Z.max_r by lia. split_and!; [lia..| |].
  - destruct H6 as [?|H6]; [left; lia|right]. split; rewrite (H5 (e - 1)) by lia; [done|].
    by replace (e - 1 + 1) with e by lia.
  - intros k Hk [Hk1 Hk2]. destruct (Z.lt_ge_cases k i); [apply Hk1, H2; lia|].
    apply Hk2. by rewrite (H5 (k + 1)), (H5 k) by lia.
Qed.

Lemma previousWordStart_spec o :
  0 < o <= zlen text -> last_in word_start 0 (o - 1) (previousWordStart text o big).
Proof.
  intros Ho. unfold previousWordStart. rewrite clamp_text by lia. cbv zeta.
  destruct (while_down_spec (cat_is text big space) (o - 1) 0 ltac:(lia)) as (H1 & H2 & H3).
  set (i := while_down _ _ _) in *.
  destruct (while_down_spec (fun k => cat_is text big (cat_at text i big) (k - 1)) i 0 ltac:(lia))
    as (H4 & H5 & H6). set (r := while_down _ i 0) in *.
  assert (forall k, r <= k <= i -> cat_at text k big = cat_at text i big) as Hrun.
  { intros k Hk. destruct (Z.eq_dec k i) as [->|]; [done|].
    specialize (H5 (k + 1) ltac:(lia)). apply cat_is_true in H5. by replace (k + 1 - 1) with k in H5 by lia. }
  split_and!; [lia..| |].
  - destruct H3 as [H3|H3%cat_is_false]; [left; lia|].
    destruct H6 as [?|H6%cat_is_false]; [by left|right].
    split; [by rewrite Hrun by lia|right]. by rewrite (Hrun r) by lia.
  - intros k Hk [Hk1 [?|Hk2]]; [lia|]. destruct (Z.lt_ge_cases i k).
    + specialize (H2 k ltac:(lia)). by apply cat_is_true in H2.
    + apply Hk2. by rewrite (Hrun (k - 1)), (Hrun k) by lia.
Qed.
End Words.

(** The keys of the word motions. *)
Definition word_key (c : jstr) (C : jstr) (big : bool) : jstr := if big then C else c.

(** The word motions, from a cursor on a character of the text.  [w] and [W] go to the first
    start of a word that is at least two characters further (or to the end of the text): they step
    past a word that starts right after the cursor.  [b] and [B] go to the last start of a word
    before the cursor.  [e] and [E] go to the first end of a word that is not before the cursor, so
    they stay on the end of a word. *)
Theorem word_motions_spec b big next hasCount vp :
  let text := getText b in
  let o := currentOffset b in
  0 <= o < zlen text ->
  (exists r, motion_plain (word_key (u "w") (u "W") big) next 1 hasCount vp b
             = Some (mkMotion next (offsetToPosition b r) false false None) /\
     (o + 1 < zlen text -> first_in (word_start text big) (o + 2) (zlen text) r) /\
     (o + 1 = zlen text -> r = zlen text)) /\
  (0 < o -> exists r, motion_plain (word_key (u "b") (u "B") big) next 1 hasCount vp b
             = Some (motion_to next (offsetToPosition b r)) /\
     last_in (word_start text big) 0 (o - 1) r) /\
  (exists r, motion_plain (word_key (u "e") (u "E") big) next 1 hasCount vp b
             = Some (motion_to next (offsetToPosition b r)) /\
     first_in (word_end text big) o (zlen text - 1) r).
Proof.
  intros text o Ho. split_and!.
  - exists (nextWordStart text (o + 1) big). split; [by destruct big|]. split; intros H.
    + pose proof (nextWordStart_spec text big (o + 1) ltac:(lia)) as Hr.
      by replace (o + 1 + 1) with (o + 2) in Hr by lia.
    + unfold nextWordStart. rewrite clamp_text by lia. cbv zeta. by rewrite (proj2 (Z.leb_le _ _)) by lia.
  - intros H. exists (previousWordStart text o big). split; [by destruct big|].
    by apply previousWordStart_spec; lia.
  - exists (endOfWord text o big). split; [by destruct big|]. by apply endOfWord_spec.
Qed.

Definition words_buffer : VimBuffer :=
  mkBuffer (u "a") (u "/a") [u " foo bar"] (mkPos 0 0) false true None false.

(** From the space before a word, [w] does not go to that word but to the one after it. *)
Lemma w_skips_adjacent_word :
  target <$> motion_plain (u "w") 1 1 false 1 words_buffer = Some (mkPos 0 5).
Proof. reflexivity. Qed.

Lemma word_motions_spec_witness :
  exists r, motion_plain (u "w") 1 1 false 1 words_buffer
            = Some (mkMotion 1 (offsetToPosition words_buffer r) false false None) /\
    first_in (word_start (u " foo bar") false) 2 8 r.
Proof.
  destruct (word_motions_spec words_buffer false 1 false 1) as [(r & H1 & H2 & _) _].
  - vm_compute. split; discriminate || reflexivity.
  - exists r. split; [exact H1|]. apply H2. vm_compute. reflexivity.
Defined.

(** ** Brackets *)

Section Brackets.
Context (text : jstr) (open close : jchar) (open_close : open <> close).

(** [+1] for an opening bracket, [-1] for a closing one. *)
Definition weight (i : Z) : Z :=
  if char_str text i === [open] then 1 else if char_str text i === [close] then -1 else 0.

(** The brackets opened and not closed in [n] characters from [i]. *)
Fixpoint balance (n : nat) (i : Z) : Z :=
  match n with O => 0 | S n => weight i + balance n (i + 1) end.
Definition balance_of (i j : Z) : Z := balance (Z.to_nat (j - i)) i.

(** [i] opens a pair that [j] closes: between them no bracket closes the pair earlier. *)
Definition pair_at (i j : Z) : Prop :=
  i < j /\ char_str text i = [open] /\ char_str text j = [close] /\
  balance_of i (j + 1) = 0 /\ forall k, i < k <= j -> 0 < balance_of i k.

Lemma balance_step i j : i < j -> balance_of i j = weight i + balance_of (i + 1) j.
Proof.
  intros H. unfold balance_of. replace (Z.to_nat (j - i)) with (S (Z.to_nat (j - (i + 1)))) by lia. done.
Qed.
Lemma balance_nil i : balance_of i i = 0.
Proof. unfold balance_of. by rewrite Z.sub_diag. Qed.
Lemma balance_split i k j : i <= k <= j -> balance_of i j = balance_of i k + balance_of k j.
Proof.
  intros H. remember (Z.to_nat (k - i)) as n eqn:E. revert i H E. induction n as [|n IH]; intros i H E.
  - assert (i = k) as -> by lia. rewrite balance_nil. lia.
  - rewrite (balance_step i j), (balance_step i k), (IH (i + 1)) by lia. lia.
Qed.

Lemma weight_open i : char_str text i = [open] -> weight i = 1.
Proof. unfold weight. intros ->. by rewrite bool_decide_eq_true_2. Qed.
Lemma weight_close i : char_str text i = [close] -> weight i = -1.
Proof.
  unfold weight. intros ->. rewrite bool_decide_eq_false_2, bool_decide_eq_true_2; [done..|]. congruence.
Qed.

Lemma weight_other i : char_str text i <> [open] -> char_str text i <> [close] -> weight i = 0.
Proof. unfold weight. intros H1 H2. by rewrite !bool_decide_eq_false_2. Qed.

(** The scan right, at a depth [d], stops at the first index that brings the depth to zero. *)
Lemma find_close_iff n i d j :
  0 < d ->
  find_close n text open close i d = Some j <->
  i <= j < i + Z.of_nat n /\ char_str text j = [close] /\ d + balance_of i (j + 1) = 0 /\
  forall k, i < k <= j -> 0 < d + balance_of i k.
Proof.
  revert i d. induction n as [|n IH]; intros i d Hd; cbn [find_close].
  { split; [done|lia]. }
  assert (forall d', d' = d + weight i -> char_str text i <> [close] \/ d' <> 0 -> 0 < d' ->
    find_close n text open close (i + 1) d' = Some j <->
    i <= j < i + Z.of_nat (S n) /\ char_str text j = [close] /\ d + balance_of i (j + 1) = 0 /\
    forall k, i < k <= j -> 0 < d + balance_of i k) as Hnext.
  { intros d' -> Hc Hd'. rewrite IH by done. split.
    - intros (H1 & H2 & H3 & H4). rewrite (balance_step i (j + 1)) by lia. split_and!; [lia..|done|lia|].
      intros k Hk. rewrite (balance_step i k) by lia.
      destruct (Z.eq_dec k (i + 1)) as [->|]; [rewrite balance_nil; lia|]. specialize (H4 k ltac:(lia)). lia.
    - intros (H1 & H2 & H3 & H4). rewrite (balance_step i (j + 1)) in H3 by lia.
      destruct (Z.eq_dec j i) as [->|].
      { rewrite balance_nil in H3. destruct Hc; [done|lia]. }
      split_and!; [lia..|done|lia|]. intros k Hk. specialize (H4 k ltac:(lia)).
      rewrite (balance_step i k) in H4 by lia. lia. }
  case_bool_decide as Eo; [apply Hnext; rewrite ?weight_open by done; [lia|left; congruence|lia]|].
  case_bool_decide as Ec; [|apply Hnext; rewrite ?weight_other by done; [lia|by left|lia]].
  destruct (Z.eqb_spec (d - 1) 0).
  - pose proof (weight_close i Ec) as Hw. split.
    + intros [= <-]. rewrite (balance_step i (i + 1)), balance_nil by lia. split_and!; [lia..|done|lia|lia].
    + intros (H1 & H2 & H3 & H4). destruct (Z.eq_dec j i) as [->|]; [done|].
      specialize (H4 (i + 1) ltac:(lia)). rewrite (balance_step i (i + 1)), balance_nil in H4 by lia. lia.
  - apply Hnext; [rewrite weight_close by done; lia|right; lia|lia].
Qed.

(** The scan left. *)
Lemma balance_last i j : i <= j -> balance_of i (j + 1) = balance_of i j + weight j.
Proof.
  intros H. rewrite (balance_split i j (j + 1)) by lia. f_equal.
  rewrite balance_step, balance_nil by lia. lia.
Qed.

Lemma find_open_iff n i d j :
  0 < d ->
  find_open_from n text open close i d = Some j <->
  i - Z.of_nat n < j <= i /\ char_str text j = [open] /\ d = balance_of j (i + 1) /\
  forall k, j < k <= i -> balance_of k (i + 1) < d.
Proof.
  revert i d. induction n as [|n IH]; intros i d Hd; cbn [find_open_from].
  { split; [done|lia]. }
  assert (forall d', d' = d - weight i -> char_str text i <> [open] \/ d' <> 0 -> 0 < d' ->
    find_open_from n text open close (i - 1) d' = Some j <->
    i - Z.of_nat (S n) < j <= i /\ char_str text j = [open] /\ d = balance_of j (i + 1) /\
    forall k, j < k <= i -> balance_of k (i + 1) < d) as Hnext.
  { intros d' -> Hc Hd'. rewrite IH by done. replace (i - 1 + 1) with i by lia. split.
    - intros (H1 & H2 & H3 & H4). rewrite balance_last by lia. split_and!; [lia..|done|lia|].
      intros k Hk. rewrite balance_last by lia.
      destruct (Z.eq_dec k i) as [->|]; [rewrite balance_nil; lia|]. specialize (H4 k ltac:(lia)). lia.
    - intros (H1 & H2 & H3 & H4). rewrite balance_last in H3 by lia.
      destruct (Z.eq_dec j i) as [->|].
      { rewrite balance_nil in H3. destruct Hc; [done|lia]. }
      split_and!; [lia..|done|lia|]. intros k Hk. specialize (H4 k ltac:(lia)).
      rewrite balance_last in H4 by lia. lia. }
  case_bool_decide as Ec; [apply Hnext; rewrite ?weight_close by done; [lia|left; congruence|lia]|].
  case_bool_decide as Eo; [|apply Hnext; rewrite ?weight_other by done; [lia|by left|lia]].
  destruct (Z.eqb_spec (d - 1) 0).
  - pose proof (weight_open i Eo) as Hw. split.
    + intros [= <-]. rewrite balance_last, balance_nil by lia. split_and!; [lia..|done|lia|lia].
    + intros (H1 & H2 & H3 & H4). destruct (Z.eq_dec j i) as [->|]; [done|].
      specialize (H4 i ltac:(lia)). rewrite balance_last, balance_nil in H4 by lia. lia.
  - apply Hnext; [rewrite weight_open by done; lia|right; lia|lia].
Qed.

(** Both scans find exactly the pairs. *)
Lemma find_close_pair i j :
  char_str text i = [open] -> 0 <= i < zlen text ->
  find_close (Z.to_nat (zlen text - i)) text open close i 0 = Some j <-> pair_at i j /\ j < zlen text.
Proof.
  intros Ho Hi. replace (Z.to_nat (zlen text - i)) with (S (Z.to_nat (zlen text - (i + 1)))) by lia.
  cbn [find_close]. rewrite bool_decide_eq_true_2 by done. rewrite find_close_iff by lia.
  pose proof (weight_open i Ho) as Hw. unfold pair_at. split.
  - intros (H1 & H2 & H3 & H4). rewrite (balance_step i (j + 1)) by lia.
    split_and!; [lia|done|done|lia| |lia]. intros k Hk. rewrite (balance_step i k) by lia.
    destruct (Z.eq_dec k (i + 1)) as [->|]; [rewrite balance_nil; lia|]. specialize (H4 k ltac:(lia)). lia.
  - intros ((H1 & _ & H2 & H3 & H4) & H5). rewrite (balance_step i (j + 1)) in H3 by lia.
    split_and!; [lia..|done|lia|]. intros k Hk. specialize (H4 k ltac:(lia)).
    rewrite (balance_step i k) in H4 by lia. lia.
Qed.

Lemma find_open_pair i j :
  char_str text j = [close] -> 0 <= j ->
  find_open_from (Z.to_nat (j + 1)) text open close j 0 = Some i <-> pair_at i j /\ 0 <= i.
Proof.
  intros Hc Hj. replace (Z.to_nat (j + 1)) with (S (Z.to_nat j)) by lia.
  cbn [find_open_from]. rewrite bool_decide_eq_true_2 by done. rewrite find_open_iff by lia.
  pose proof (weight_close j Hc) as Hw. replace (j - 1 + 1) with j by lia. unfold pair_at. split.
  - intros (H1 & H2 & H3 & H4). rewrite (balance_last i j) by lia.
    split_and!; [lia|done|done|lia| |lia]. intros k Hk.
    destruct (Z.eq_dec k j) as [->|]; [lia|]. specialize (H4 k ltac:(lia)).
    rewrite (balance_split i k j) in H3 by lia. lia.
  - intros ((H1 & H2 & _ & H3 & H4) & H5). rewrite balance_last in H3 by lia.
    split_and!; [lia..|done|lia|]. intros k Hk. specialize (H4 k ltac:(lia)).
    rewrite (balance_split i k j) in H3 by lia. lia.
Qed.
End Brackets.

Lemma setCursor_to b p : valid_pos b p -> cursor (setCursor p b) = p.
Proof.
  intros [Hl Hc]. unfold setCursor. simpl. rewrite clampLine_id, clampCol_id by done. by destruct p.
Qed.

Lemma char_str_bound text i c : char_str text i = [c] -> 0 <= i < zlen text.
Proof.
  unfold char_str, at_, zlen. destruct (Z.ltb_spec i 0); [done|].
  destruct (text !! Z.to_nat i) eqn:E; [|done]. apply lookup_lt_Some in E. lia.
Qed.

Lemma bracket_of_some s f c d : bracket_of s f = Some (c, d) -> s = [c] /\ f c = Some d.
Proof.
  unfold bracket_of. destruct s as [|x [|]]; try done. destruct (f x) eqn:E; simpl; [|done].
  intros. by simplify_eq.
Qed.

(** The pairs of the table, read both ways. *)
Lemma bracket_table c d :
  open_to_close c = Some d ->
  c <> d /\ close_to_open c = None /\ open_to_close d = None /\ close_to_open d = Some c.
Proof.
  unfold open_to_close, BRACKET_PAIRS. cbn [assoc_char].
  repeat (match goal with |- context [c =? ?k] => destruct (Z.eqb_spec c k) as [->|] end; [intros [= <-]; split_and!; [lia|reflexivity..]|]). done.
Qed.
Lemma bracket_table' c d : close_to_open c = Some d -> open_to_close d = Some c.
Proof.
  unfold close_to_open, BRACKET_PAIRS. cbn [assoc_char map fst snd].
  repeat (match goal with |- context [c =? ?k] => destruct (Z.eqb_spec c k) as [->|] end; [intros [= <-]; reflexivity|]). done.
Qed.

Lemma bracket_of_one c f : bracket_of [c] f = (fun d => (c, d)) <$> f c.
Proof. done. Qed.

Lemma match_open b c d :
  char_str (getText b) (currentOffset b) = [c] -> open_to_close c = Some d ->
  findMatchingBracket b = offsetToPosition b <$>
    find_close (Z.to_nat (zlen (getText b) - currentOffset b)) (getText b) c d (currentOffset b) 0.
Proof.
  intros Hc Ho. unfold findMatchingBracket. cbv beta zeta. rewrite Hc, !bracket_of_one, Ho.
  cbn [fmap option_fmap option_map]. rewrite bool_decide_eq_true_2 by eauto.
  cbn [orb]. by rewrite Hc, !bracket_of_one, Ho.
Qed.
Lemma match_close b c d :
  char_str (getText b) (currentOffset b) = [c] -> close_to_open c = Some d ->
  findMatchingBracket b = offsetToPosition b <$>
    find_open_from (Z.to_nat (currentOffset b + 1)) (getText b) d c (currentOffset b) 0.
Proof.
  intros Hc Ho. destruct (bracket_table _ _ (bracket_table' _ _ Ho)) as (_ & _ & Hn & _).
  unfold findMatchingBracket. cbv beta zeta. rewrite Hc, !bracket_of_one, Ho, Hn.
  cbn [fmap option_fmap option_map]. rewrite (bool_decide_eq_true_2 (is_Some (Some _))) by eauto.
  rewrite orb_true_r. by rewrite Hc, !bracket_of_one, Hn, Ho.
Qed.

(** The buffer with its cursor on the character at [o]. *)
Lemma cursor_at b o :
  lines b <> [] -> 0 <= o < zlen (getText b) ->
  let b' := setCursor (offsetToPosition b o) b in
  valid_pos b (offsetToPosition b o) /\ positionToOffset b (offsetToPosition b o) = o /\
  currentOffset b' = o /\ getText b' = getText b.
Proof.
  intros Hne Ho b'. destruct (offsetToPosition_spec b o Hne) as [Hv Hp].
  rewrite clamp_text in Hp by lia. split_and!; [apply Hv..|done| |done].
  unfold currentOffset, b'. rewrite setCursor_to by done.
  by rewrite (positionToOffset_eq _ b).
Qed.

(** What [%] does from an opening bracket and from a closing one. *)
Section Percent.
Context (b : VimBuffer) (c d : jchar) (b_lines : lines b <> []) (b_cursor : valid_pos b (cursor b)).
Context (here : char_str (getText b) (currentOffset b) = [c]).

Definition percent_ok : Prop :=
  let text := getText b in
  let o := currentOffset b in
  match findMatchingBracket b with
  | Some p =>
      let q := positionToOffset b p in
      valid_pos b p /\
      (exists open close, open_to_close open = Some close /\
         pair_at text open close (Z.min o q) (Z.max o q)) /\
      findMatchingBracket (setCursor p b) = Some (cursor b)
  | None => forall d k, 0 <= k < zlen text ->
      (open_to_close c = Some d -> ~ pair_at text c d o k) /\
      (close_to_open c = Some d -> ~ pair_at text d c k o)
  end.

Lemma back_to_cursor o2 :
  offsetToPosition (setCursor (offsetToPosition b o2) b) (currentOffset b) = cursor b.
Proof. rewrite (offsetToPosition_eq _ b) by done. by apply offset_of_position. Qed.

Lemma match_from_open : open_to_close c = Some d -> percent_ok.
Proof.
  intros Hd. pose proof (char_str_bound _ _ _ here) as Ho. set (o := currentOffset b) in *.
  destruct (bracket_table _ _ Hd) as (Hcd & Hcn & _ & Hdc).
  unfold percent_ok. rewrite (match_open _ _ _ here Hd). fold o. cbv zeta.
  destruct (find_close _ _ _ _ o 0) as [o2|] eqn:E; cbn [fmap option_fmap option_map].
  - apply (find_close_pair _ _ _ Hcd) in E as [Hp Ho2]; [|done..].
    destruct (cursor_at b o2 b_lines ltac:(unfold pair_at in Hp; lia)) as (Hv2 & E2 & E3 & E4).
    rewrite E2, Z.min_l, Z.max_r by (unfold pair_at in Hp; lia).
    split_and!; [apply Hv2..|by exists c, d|]. destruct (Hp) as (_ & _ & Hc2 & _).
    rewrite (match_close _ d c) by (rewrite ?E3, ?E4; done). rewrite E3, E4.
    rewrite (proj2 (find_open_pair _ _ _ Hcd o o2 Hc2 ltac:(unfold pair_at in Hp; lia))) by (split; [done|lia]).
    simpl. by rewrite back_to_cursor.
  - intros d' k Hk. split; [|by rewrite Hcn]. rewrite Hd. intros [= <-] Hp.
    rewrite (proj2 (find_close_pair _ _ _ Hcd o k here Ho)) in E; [done|split; [done|lia]].
Qed.

Lemma match_from_close : close_to_open c = Some d -> percent_ok.
Proof.
  intros Hd. pose proof (char_str_bound _ _ _ here) as Ho. set (o := currentOffset b) in *.
  pose proof (bracket_table' _ _ Hd) as Hdc. destruct (bracket_table _ _ Hdc) as (Hcd & _ & Hcn & _).
  unfold percent_ok. rewrite (match_close _ _ _ here Hd). fold o. cbv zeta.
  destruct (find_open_from _ _ _ _ o 0) as [o2|] eqn:E; cbn [fmap option_fmap option_map].
  - apply (find_open_pair _ _ _ Hcd) in E as [Hp Ho2]; [|done|lia].
    destruct (cursor_at b o2 b_lines ltac:(unfold pair_at in Hp; lia)) as (Hv2 & E2 & E3 & E4).
    rewrite E2, Z.min_r, Z.max_l by (unfold pair_at in Hp; lia).
    split_and!; [apply Hv2..|by exists d, c|]. destruct (Hp) as (_ & Hc2 & _).
    rewrite (match_open _ d c) by (rewrite ?E3, ?E4; done). rewrite E3, E4.
    rewrite (proj2 (find_close_pair _ _ _ Hcd o2 o Hc2 ltac:(unfold pair_at in Hp; lia))) by (split; [done|lia]).
    simpl. by rewrite back_to_cursor.
  - intros d' k Hk. split; [by rewrite Hcn|]. rewrite Hd. intros [= <-] Hp.
    rewrite (proj2 (find_open_pair _ _ _ Hcd k o here ltac:(lia))) in E; [done|split; [done|lia]].
Qed.
End Percent.

(** [%] from a bracket goes to the bracket that pairs with it, and back: the two brackets are of
    one kind, between them every bracket of the kind is closed, and [%] from the second returns
    to the first.  It fails only when no bracket of the text pairs with the one it is on. *)
Theorem matching_bracket_involutive b c :
  let text := getText b in
  let o := currentOffset b in
  lines b <> [] -> valid_pos b (cursor b) -> char_str text o = [c] ->
  (is_Some (open_to_close c) \/ is_Some (close_to_open c)) ->
  match findMatchingBracket b with
  | Some p =>
      let q := positionToOffset b p in
      valid_pos b p /\
      (exists open close, open_to_close open = Some close /\
         pair_at text open close (Z.min o q) (Z.max o q)) /\
      findMatchingBracket (setCursor p b) = Some (cursor b)
  | None => forall d k, 0 <= k < zlen text ->
      (open_to_close c = Some d -> ~ pair_at text c d o k) /\
      (close_to_open c = Some d -> ~ pair_at text d c k o)
  end.
Proof.
  intros text o Hne Hv Hc [[d Hd]|[d Hd]].
  - apply match_from_open with d; done.
  - apply match_from_close with d; done.
Qed.

Definition bracket_buffer : VimBuffer :=
  mkBuffer (u "a") (u "/a") [u "f(a[0],"; u "  g(1))"] (mkPos 0 1) false true None false.

Lemma matching_bracket_involutive_witness :
  findMatchingBracket bracket_buffer = Some (mkPos 1 6) /\
  findMatchingBracket (setCursor (mkPos 1 6) bracket_buffer) = Some (mkPos 0 1).
Proof.
  assert (findMatchingBracket bracket_buffer = Some (mkPos 1 6)) as E by (vm_compute; reflexivity).
  pose proof (matching_bracket_involutive bracket_buffer 40) as H. rewrite E in H. cbv zeta in H.
  split; [exact E|]. refine (proj2 (proj2 (H _ _ _ _))).
  - discriminate.
  - vm_compute. repeat split; discriminate || reflexivity.
  - vm_compute. reflexivity.
  - left. exists 41. reflexivity.
Defined.
