(* ===== verification/VimSafety.v ===== *)
(** The key loop of the vim engine: no key breaks the buffer, every step consumes a key, and the
    bounds of the model (the loop's fuel, the nesting of [.]) do not change what is computed. *)
From S2P Require Import Prelude VimBuffer VimKeys VimEx VimText VimEngine VimCommands VimModes.
From S2P Require Import VimInvariant VimModesKeep VimDemo.
#[local] Open Scope Z_scope.
#[local] Open Scope js_scope.

(** What a computation may return. *)
Definition returns {S E A} (P : A -> Prop) (m : SM S E A) : Prop :=
  forall s s' a, m s = (s', Ok a) -> P a.

(** [m'] computes what [m] does, unless [m] stops at the bound on nested repeats. *)
Definition refines {S A} (m m' : SM S VErr A) : Prop :=
  forall s, snd (m s) = Err RepeatTooDeep \/ m' s = m s.

Section Rules.
Context {S E : Type}.

Lemma returns_bind {A B} (Q : B -> Prop) (m : SM S E A) (k : A -> SM S E B) P :
  returns P m -> (forall a, P a -> returns Q (k a)) -> returns Q (mbind k m).
Proof.
  intros Hm Hk s s' b. unfold mbind, sm_bind. destruct (m s) as [s1 [a|e]] eqn:H; [|done].
  apply Hk. by eapply Hm.
Qed.
Lemma returns_any {A} (m : SM S E A) : returns (fun _ => True) m.
Proof. done. Qed.
Lemma returns_seq {A B} (Q : B -> Prop) (m : SM S E A) (k : A -> SM S E B) :
  (forall a, returns Q (k a)) -> returns Q (mbind k m).
Proof. intros Hk. eapply returns_bind; [apply returns_any|]. by intros a _. Qed.
Lemma returns_ret {A} (Q : A -> Prop) a : Q a -> returns Q (mret a : SM S E A).
Proof. by intros H s s' a' [= _ <-]. Qed.
Lemma returns_throw {A} (Q : A -> Prop) e : returns Q (throw e : SM S E A).
Proof. by intros s s' a. Qed.

Lemma refines_refl {A} (m : SM S VErr A) : refines m m.
Proof. intros s. by right. Qed.
Lemma refines_bind {A B} (m m' : SM S VErr A) (k k' : A -> SM S VErr B) :
  refines m m' -> (forall a, refines (k a) (k' a)) -> refines (mbind k m) (mbind k' m').
Proof.
  intros Hm Hk s. unfold mbind, sm_bind. destruct (Hm s) as [H|H].
  - destruct (m s) as [s1 [a|e]]; simpl in *; [done|left; congruence].
  - rewrite H. destruct (m s) as [s1 [a|e]]; [apply Hk|by right].
Qed.
Lemma refines_repeat n (m m' : SM S VErr unit) :
  refines m m' -> refines (repeat_m n m) (repeat_m n m').
Proof.
  intros Hm. induction n; [apply refines_refl|]. simpl. by apply refines_bind.
Qed.
End Rules.

Ltac returns_step :=
  match goal with
  | |- returns _ (mret _) => apply returns_ret
  | |- returns _ (throw _) => apply returns_throw
  | |- returns _ (vim_throw _) => apply returns_throw
  | |- returns _ (vim_throw_at _ _) => apply returns_throw
  | |- returns _ (mbind _ (resolveMotion _ _ _ _)) => fail 1
  | |- returns _ (mbind _ (executeNormal _ _ _)) => fail 1
  | |- returns _ (mbind _ _) => apply returns_seq; intros ?
  | |- returns _ (if _ then _ else _) => case_match
  | |- returns _ (match _ with _ => _ end) => case_match
  | |- returns _ (let _ := _ in _) => cbv zeta
  end.
Ltac solve_returns := repeat returns_step.

Ltac refines_step :=
  match goal with
  | |- refines ?m ?m => apply refines_refl
  | |- refines (mbind _ _) (mbind _ _) => apply refines_bind; [|intros ?]
  | |- refines (repeat_m _ _) (repeat_m _ _) => apply refines_repeat
  | |- refines (if ?b then _ else _) _ => destruct b
  | |- refines (match ?x with _ => _ end) _ => destruct x
  end.

Lemma at_past {A} (l : list A) i : zlen l <= i -> at_ l i = None.
Proof.
  intros H. unfold at_. destruct (i <? 0); [done|]. apply lookup_ge_None. unfold zlen in H. lia.
Qed.

Section Progress.
Context {W Diag : Type} `{!VimHost W Diag}.
#[local] Abbreviation Engine := (@Engine W Diag).
#[local] Abbreviation M := (SM Engine VErr).

Lemma count_loop_next ts ds i : i <= snd (count_loop ts ds i).
Proof.
  revert ds i. induction ts as [|t ts IH]; intros ds i; simpl; [lia|].
  repeat case_match; simpl; [lia..|]. specialize (IH (ds ++ value t) (i + 1)). lia.
Qed.
Lemma readCount_next ts i : i <= c_next (readCount ts i).
Proof.
  unfold readCount. pose proof (count_loop_next (drop (Z.to_nat i) ts) [] i).
  by destruct (count_loop _ _ _).
Qed.

Lemma motion_plain_next v i n h vp b m : motion_plain v i n h vp b = Some m -> nextIndex m = i.
Proof. unfold motion_plain, motion_nonblank. cbv zeta. intros H. repeat case_match; by simplify_eq/=. Qed.

Lemma resolveMotion_next ts i n h :
  returns (fun m => i < nextIndex m) (resolveMotion ts i n h : M _).
Proof.
  unfold resolveMotion, motion_g, motion_find, motion_refind. solve_returns; simpl; try lia.
  match goal with H : motion_plain _ _ _ _ _ _ = _ |- _ => apply motion_plain_next in H end. lia.
Qed.

Lemma returns_motion {A} (Q : A -> Prop) ts i n h (k : MotionResult -> M A) :
  (forall m, i < nextIndex m -> returns Q (k m)) -> returns Q (mbind k (resolveMotion ts i n h)).
Proof. apply returns_bind, resolveMotion_next. Qed.

Lemma executeOperator_next ts i n h o t : returns (fun j => i < j) (executeOperator ts i n h o t : M Z).
Proof.
  unfold executeOperator. cbv zeta. pose proof (readCount_next ts (i + 1)).
  solve_returns; try lia; apply returns_motion; intros m Hm; solve_returns; lia.
Qed.

Lemma case_operator_next ts i n h g f : returns (fun j => i < j) (case_operator ts i n h g f : M Z).
Proof.
  unfold case_operator. cbv zeta. pose proof (readCount_next ts (i + 2)).
  solve_returns; try lia; apply returns_motion; intros m Hm; solve_returns; lia.
Qed.

Lemma normal_keys_next ts i n h t :
  returns (fun j => i < j) (normal_g ts i n h t : M Z) /\
  returns (fun j => i < j) (normal_z ts i t : M Z) /\
  returns (fun j => i < j) (normal_Z ts i t : M Z) /\
  returns (fun j => i < j) (normal_r ts i n t : M Z).
Proof.
  unfold normal_g, normal_z, normal_Z, normal_r.
  repeat split; solve_returns; try lia; apply case_operator_next.
Qed.

Lemma returns_weaken {A} (P Q : A -> Prop) (m : M A) :
  (forall a, P a -> Q a) -> returns P m -> returns Q m.
Proof. intros HPQ Hm s s' a H. by eapply HPQ, Hm. Qed.

Lemma executeNormal_next replay ts i t :
  tok ts i = Some t -> returns (fun j => i < j) (executeNormal replay ts i : M Z).
Proof.
  intros Ht. unfold executeNormal. cbv zeta. pose proof (readCount_next ts i) as Hc.
  destruct (tok ts (c_next _)) as [t'|] eqn:Ht'.
  2:{ apply returns_ret. assert (c_next (readCount ts i) <> i) by congruence. lia. }
  pose proof (normal_keys_next ts (c_next (readCount ts i)) (count (readCount ts i))
    (hasCount (readCount ts i)) t') as (Hg & Hz & HZ & Hr).
  solve_returns; try lia;
    first [apply returns_motion; intros m Hm; solve_returns; lia
          |eapply returns_weaken; [|first [eassumption|apply executeOperator_next]]; simpl; lia].
Qed.

Lemma executeInsert_next replay ts i t : returns (fun j => i < j) (executeInsert replay ts i t : M Z).
Proof.
  unfold executeInsert. solve_returns; try lia.
  eapply returns_bind; [eapply executeNormal_next; eassumption|]. simpl. intros j Hj. solve_returns. lia.
Qed.

Lemma executePrompt_next t i : returns (fun j => i < j) (executePrompt t i : M Z).
Proof. unfold executePrompt. solve_returns; lia. Qed.

Lemma executeVisual_next ts i t :
  tok ts i = Some t -> returns (fun j => i < j) (executeVisual ts i t : M Z).
Proof.
  intros Ht. unfold executeVisual, visual_g, visual_r. cbv zeta. pose proof (readCount_next ts i) as Hc.
  assert (forall j, tok ts j = None -> i <= j -> i < j) as Hend.
  { intros j Hj Hij. assert (i <> j) by congruence. lia. }
  solve_returns; try lia; try (by apply Hend);
    try (apply returns_motion; intros m Hm; solve_returns; lia).
  all: match goal with |- context [zlen ?l] => assert (0 < zlen l); [|lia] end; by case_match.
Qed.

(** Every key handler consumes the key it is given. *)
Lemma execute_key_next replay ts i t :
  tok ts i = Some t -> returns (fun j => i < j) (execute_key replay ts i t : M Z).
Proof.
  intros Ht. unfold execute_key. apply returns_seq. intros s. destruct (inputMode s).
  - by eapply executeNormal_next.
  - apply executeInsert_next.
  - by apply executeVisual_next.
  - by apply executeVisual_next.
  - apply executePrompt_next.
  - apply executePrompt_next.
  - apply executePrompt_next.
Qed.

Lemma bind_ext_returns {A B} (P : A -> Prop) (m : M A) (k k' : A -> M B) s :
  returns P m -> (forall a s, P a -> k a s = k' a s) -> mbind k m s = mbind k' m s.
Proof.
  intros Hm Hk. unfold mbind, sm_bind. destruct (m s) as [s' [a|e]] eqn:E; [|done].
  apply Hk. by eapply Hm.
Qed.

Lemma token_loop_fuel replay n n' ts i s :
  0 <= i -> zlen ts - i <= Z.of_nat n -> (n <= n')%nat ->
  token_loop replay n' ts i s = token_loop replay n ts i s.
Proof.
  revert n' i s. induction n as [|n IH]; intros n' i s Hi Hn Hle.
  - assert (tok ts i = None) as H by (apply at_past; lia). destruct n'; simpl; [done|]. by rewrite H.
  - destruct n' as [|n']; [lia|]. simpl. destruct (tok ts i) as [t|] eqn:Ht; [|done].
    eapply bind_ext_returns; [by apply execute_key_next|]. intros j s1 Hj. simpl in Hj.
    apply (bind_ext_returns (fun _ => True)); [apply returns_any|]. intros s2 s3 _.
    destruct (closed s2); [done|].
    apply (bind_ext_returns (fun _ => True)); [apply returns_any|]. intros [] s4 _.
    apply IH; lia.
Qed.
End Progress.

(** ** Nested repeats *)

Section Nesting.
Context {W Diag : Type} `{!VimHost W Diag}.
#[local] Abbreviation Engine := (@Engine W Diag).
#[local] Abbreviation M := (SM Engine VErr).
Context (r r' : list VimKeyToken -> M unit) (r_refines : forall ts, refines (r ts) (r' ts)).

Lemma executeNormal_refines ts i : refines (executeNormal r ts i) (executeNormal r' ts i).
Proof.
  unfold executeNormal, repeatLastChange. cbv zeta.
  repeat first [progress refines_step|apply r_refines].
Qed.

Lemma executeInsert_refines ts i t : refines (executeInsert r ts i t) (executeInsert r' ts i t).
Proof.
  unfold executeInsert. cbv zeta. repeat first [progress refines_step|apply executeNormal_refines].
Qed.

Lemma execute_key_refines ts i t : refines (execute_key r ts i t) (execute_key r' ts i t).
Proof.
  unfold execute_key.
  repeat first [progress refines_step|apply executeNormal_refines|apply executeInsert_refines].
Qed.

Lemma token_loop_refines n ts i : refines (token_loop r n ts i) (token_loop r' n ts i).
Proof.
  revert i. induction n as [|n IH]; intros i; simpl; [apply refines_refl|].
  repeat first [progress refines_step|apply execute_key_refines|apply IH].
Qed.
End Nesting.

Section Depth.
Context {W Diag : Type} `{!VimHost W Diag}.
#[local] Abbreviation Engine := (@Engine W Diag).
#[local] Abbreviation M := (SM Engine VErr).

Lemma executeTokens_refines d d' ts c :
  (d <= d')%nat -> refines (executeTokens d ts c : M unit) (executeTokens d' ts c).
Proof.
  revert d' ts c. induction d as [|d IH]; intros d' ts c Hd; destruct d' as [|d']; try lia; simpl;
    (apply refines_bind; [apply refines_refl|]); intros _; apply token_loop_refines; intros ts'.
  - apply refines_refl.
  - intros s. by left.
  - apply IH. lia.
Qed.
End Depth.

(** Keys without [.] repeat nothing: what [.] would do does not matter. *)
Section NoRepeat.
Context {W Diag : Type} `{!VimHost W Diag}.
#[local] Abbreviation Engine := (@Engine W Diag).
#[local] Abbreviation M := (SM Engine VErr).
Context (ts : list VimKeyToken) (no_dot : Forall (fun t => value t <> u ".") ts).
Context (r r' : list VimKeyToken -> M unit).

Lemma tok_no_dot i t : tok ts i = Some t -> (value t ==s ".") = false.
Proof.
  unfold tok, at_. destruct (i <? 0); [done|]. intros H. apply bool_decide_eq_false.
  exact (proj1 (Forall_lookup _ _) no_dot _ _ H).
Qed.

Lemma executeNormal_no_dot i : executeNormal r ts i = executeNormal r' ts i.
Proof.
  unfold executeNormal. cbv zeta. destruct (tok ts _) as [t|] eqn:Ht; [|done].
  by rewrite (tok_no_dot _ _ Ht).
Qed.

Lemma execute_key_no_dot i t : execute_key r ts i t = execute_key r' ts i t.
Proof. unfold execute_key, executeInsert. by rewrite !executeNormal_no_dot. Qed.

Lemma token_loop_no_dot n i s : token_loop r n ts i s = token_loop r' n ts i s.
Proof.
  revert i s. induction n as [|n IH]; intros i s; simpl; [done|].
  destruct (tok ts i) as [t|]; [|done]. rewrite execute_key_no_dot.
  apply (bind_ext_returns (fun _ => True)); [apply returns_any|]. intros j s1 _.
  apply (bind_ext_returns (fun _ => True)); [apply returns_any|]. intros s2 s3 _.
  destruct (closed s2); [done|].
  apply (bind_ext_returns (fun _ => True)); [apply returns_any|]. intros [] s4 _. apply IH.
Qed.
End NoRepeat.

Lemma no_dot_any_depth `{!VimHost W Diag} d d' ts c (s : @Engine W Diag) :
  Forall (fun t => value t <> u ".") ts -> executeTokens d ts c s = executeTokens d' ts c s.
Proof.
  intros H. destruct d, d'; simpl; unfold mbind, sm_bind, modify; by apply token_loop_no_dot.
Qed.

(** ** Properties *)

Section Claims.
Context {W Diag : Type} `{!VimHost W Diag}.
#[local] Abbreviation Engine := (@Engine W Diag).
#[local] Abbreviation M := (SM Engine VErr).

(** C3. Whatever keys are typed, in whatever mode, and also when a command or a callback throws in
    the middle, the buffer stays well-formed: it has a line, and its cursor is on a line. *)
Theorem executeTokens_safe depth tokens command (s : Engine) :
  vb_ok (buffer s) -> vb_ok (buffer (fst (executeTokens depth tokens command s))).
Proof. apply keeps_executeTokens. Qed.

(** The key loop terminates: every handler consumes at least the key it is given, so after as
    many steps as there are keys the loop is over, and a larger bound changes nothing. *)
Theorem token_loop_terminates replay tokens fuel (s : Engine) :
  (length tokens <= fuel)%nat ->
  token_loop replay fuel tokens 0 s = token_loop replay (length tokens) tokens 0 s.
Proof. intros H. apply token_loop_fuel; unfold zlen; lia. Qed.

(** The bound on nested [.] is only a bound: a run that does not stop at it has the same
    state and result under every larger bound. *)
Theorem repeat_depth_irrelevant depth depth' tokens command (s : Engine) :
  snd (executeTokens depth tokens command s) <> Err RepeatTooDeep -> (depth <= depth')%nat ->
  executeTokens depth' tokens command s = executeTokens depth tokens command s.
Proof.
  intros Hok Hd. by destruct (executeTokens_refines depth depth' tokens command Hd s).
Qed.
End Claims.

(** * Witnesses *)

Lemma executeTokens_safe_witness :
  vb_ok (buffer (fst (executeTokens 1 (keys [u "2dd.:9,3d<CR>"]) None demo_engine))).
Proof.
  apply executeTokens_safe. split; vm_compute; [discriminate|split; discriminate || reflexivity|discriminate].
Defined.

Lemma token_loop_terminates_witness :
  token_loop (fun ts => executeTokens 0 ts None) 9 (keys [u "dw."]) 0 demo_engine
  = token_loop (fun ts => executeTokens 0 ts None) 3 (keys [u "dw."]) 0 demo_engine.
Proof. apply (token_loop_terminates _ (keys [u "dw."]) 9). vm_compute. lia. Defined.
