(* ===== verification/VimEffects.v ===== *)
(** What the commands of the vim engine do to the text: changes are undone and redone, and the ex
    commands delete, move and sort exactly the lines of their range. *)
From S2P Require Import Prelude VimBuffer VimKeys VimEx VimText VimEngine VimCommands VimModes.
From S2P Require Import VimInvariant VimDemo.
From Stdlib Require Import Permutation Sorted.
#[local] Open Scope Z_scope.
#[local] Open Scope js_scope.

Section Changes.
Context {W Diag : Type} `{!VimHost W Diag}.
#[local] Abbreviation Engine := (@Engine W Diag).
#[local] Abbreviation M := (SM Engine VErr).

(** The host lets the buffer be changed. *)
Definition accepts : Prop := forall b w, exists w' c, beforeMutate b w = (w', c, None).

(** The engine after the host was asked. *)
Definition editable (w : W) (c : bool) (s : Engine) : Engine :=
  set_statusMessage None (set_diagnostics None
    (set_world w (set_buffer (with_editable c (buffer s)) s))).

Lemma bind_ok {A B} (m : M A) (k : A -> M B) s s' a : m s = (s', Ok a) -> mbind k m s = k a s'.
Proof. unfold mbind, sm_bind. by intros ->. Qed.
Lemma bind_err {A B} (m : M A) (k : A -> M B) s s' e : m s = (s', Err e) -> mbind k m s = (s', Err e).
Proof. unfold mbind, sm_bind. by intros ->. Qed.
Lemma bind_get_buffer {B} (k : VimBuffer -> M B) s : mbind k get_buffer s = k (buffer s) s.
Proof. done. Qed.
Lemma bind_get_state {B} (k : Engine -> M B) s : mbind k get_state s = k s s.
Proof. done. Qed.
Lemma bind_modify {B} (k : unit -> M B) f s : mbind k (modify f) s = k tt (f s).
Proof. done. Qed.

Lemma ensureEditable_accepts s w c :
  beforeMutate (buffer s) (world s) = (w, c, None) -> ensureEditable s = (editable w c s, Ok tt).
Proof.
  intros H. unfold ensureEditable, mbind, sm_bind, get_state. rewrite H. reflexivity.
Qed.

Definition changed (s : Engine) : Engine := set_buffer (with_modified true (buffer s)) s.

Lemma atomic_accepts ts (m : M unit) s w c s' :
  beforeMutate (buffer s) (world s) = (w, c, None) -> m (editable w c s) = (s', Ok tt) ->
  applyAtomicChange ts m s
  = (pushUndo (mkUndo (createSnapshot (with_editable c (buffer s)))
                      (createSnapshot (buffer (changed s')))) ts (changed s'), Ok tt).
Proof.
  intros H Hm. unfold applyAtomicChange. rewrite (bind_ok _ _ _ _ _ (ensureEditable_accepts _ _ _ H)).
  by rewrite bind_get_buffer, (bind_ok _ _ _ _ _ Hm).
Qed.

(** What a change that succeeds has run. *)
Lemma atomic_inv ts (m : M unit) s s1 :
  accepts -> applyAtomicChange ts m s = (s1, Ok tt) ->
  exists w c s', m (editable w c s) = (s', Ok tt) /\
    s1 = pushUndo (mkUndo (createSnapshot (with_editable c (buffer s)))
                          (createSnapshot (buffer (changed s')))) ts (changed s').
Proof.
  intros Ha H. destruct (Ha (buffer s) (world s)) as (w & c & Hw).
  destruct (m (editable w c s)) as [s' [[]|e]] eqn:Hm.
  - exists w, c, s'. split; [done|]. rewrite (atomic_accepts _ _ _ _ _ _ Hw Hm) in H. by simplify_eq.
  - exfalso. revert H. unfold applyAtomicChange.
    rewrite (bind_ok _ _ _ _ _ (ensureEditable_accepts _ _ _ Hw)).
    by rewrite bind_get_buffer, (bind_err _ _ _ _ _ Hm).
Qed.

(** A state in which the cursor is inside the text. *)
Definition settled (b : VimBuffer) : Prop := lines b <> [] /\ valid_pos b (cursor b).

Lemma restore_settled b b' : settled b -> restore (createSnapshot b) b' = b.
Proof.
  intros [Hne Hv]. by apply restore_valid.
Qed.

Lemma undo_accepts s w c e rest :
  beforeMutate (buffer s) (world s) = (w, c, None) -> undoStack s = e :: rest ->
  exists s', undo 1 s = (s', Ok tt) /\ undoStack s' = rest /\ redoStack s' = e :: redoStack s /\
    buffer s' = restore (before e) (with_editable c (buffer s)) /\ inputMode s' = M_normal.
Proof.
  intros Hw He. eexists. split.
  - unfold undo. rewrite (bind_ok _ _ _ _ _ (ensureEditable_accepts _ _ _ Hw)).
    unfold modify. change (Z.to_nat 1) with 1%nat. cbn [undo_loop].
    change (undoStack (editable w c s)) with (undoStack s). rewrite He. reflexivity.
  - done.
Qed.

Lemma redo_accepts s w c e rest :
  beforeMutate (buffer s) (world s) = (w, c, None) -> redoStack s = e :: rest ->
  exists s', redo 1 s = (s', Ok tt) /\ redoStack s' = rest /\ undoStack s' = e :: undoStack s /\
    buffer s' = restore (after e) (with_editable c (buffer s)) /\ inputMode s' = M_normal.
Proof.
  intros Hw He. eexists. split.
  - unfold redo. rewrite (bind_ok _ _ _ _ _ (ensureEditable_accepts _ _ _ Hw)).
    unfold modify. change (Z.to_nat 1) with 1%nat. cbn [redo_loop].
    change (redoStack (editable w c s)) with (redoStack s). rewrite He. reflexivity.
  - done.
Qed.

(** C4. A change is undone and redone exactly: when a change has altered the buffer, [u] brings
    back the buffer of before the change (its editability flag apart, which the host may have
    set), and [C-r] then brings back the buffer and the history of after it. *)
Theorem change_undo_redo ts (m : M unit) s s1 :
  accepts -> settled (buffer s) -> settled (buffer s1) ->
  applyAtomicChange ts m s = (s1, Ok tt) -> lines (buffer s1) <> lines (buffer s) ->
  exists s2 s3,
    undo 1 s1 = (s2, Ok tt) /\ redo 1 s2 = (s3, Ok tt) /\
    buffer s2 = with_editable (editabilityChecked (buffer s2)) (buffer s) /\
    buffer s3 = buffer s1 /\ undoStack s3 = undoStack s1 /\ redoStack s3 = [].
Proof.
  intros Ha Hs Hs1 Hrun Hne. destruct (atomic_inv _ _ _ _ Ha Hrun) as (w & c & s' & _ & ->).
  unfold pushUndo in *. destruct (snapshotEqual _ _) eqn:E; cbn [before after] in E.
  { exfalso. apply snapshotEqual_lines in E. by apply Hne. }
  set (s1 := match ts with [] => _ | _ => _ end) in *.
  assert (buffer s1 = buffer (changed s')) as Hb by (unfold s1; by destruct ts).
  set (entry := mkUndo _ _) in s1.
  assert (undoStack s1 = entry :: undoStack (changed s') /\ redoStack s1 = []) as [Hu Hr]
    by (unfold s1; by destruct ts).
  destruct (Ha (buffer s1) (world s1)) as (w1 & c1 & H1).
  destruct (undo_accepts s1 w1 c1 _ _ H1 Hu) as (s2 & E2 & Hu2 & Hr2 & Hb2 & _).
  destruct (Ha (buffer s2) (world s2)) as (w2 & c2 & H2).
  destruct (redo_accepts s2 w2 c2 _ _ H2 Hr2) as (s3 & E3 & Hr3 & Hu3 & Hb3 & _).
  exists s2, s3. split_and!; [done|done| | |by rewrite Hu3, Hu2, Hu|by rewrite Hr3].
  - rewrite Hb2. simpl. rewrite restore_settled by done. done.
  - rewrite Hb3. simpl. rewrite Hb in Hs1 |- *. by apply restore_settled.
Qed.

(** ** Ex commands on a range of lines *)

(** The lines [ls] split at a range: [l1], the lines [seg] of the range, [l2]. *)
Definition range_at (r : VimLineRange) (l1 seg : list jstr) : Prop :=
  seg <> [] /\ start r = zlen l1 + 1 /\ end_ r = zlen l1 + zlen seg.

Lemma drop_zlen {A} (l1 l2 : list A) : drop (Z.to_nat (zlen l1)) (l1 ++ l2) = l2.
Proof. unfold zlen. rewrite Nat2Z.id. apply drop_app_length. Qed.
Lemma take_zlen {A} (l1 l2 : list A) : take (Z.to_nat (zlen l1)) (l1 ++ l2) = l1.
Proof. unfold zlen. rewrite Nat2Z.id. apply take_app_length. Qed.
Lemma slice_mid {A} (l1 seg l2 : list A) :
  slice (l1 ++ seg ++ l2) (zlen l1) (zlen l1 + zlen seg) = seg.
Proof.
  pose proof (zlen_nonneg l1). pose proof (zlen_nonneg seg). pose proof (zlen_nonneg l2).
  rewrite slice_spec by (rewrite ?zlen_app; lia). rewrite drop_zlen.
  replace (_ + _ - _) with (zlen seg) by lia. apply take_zlen.
Qed.
Lemma drop_mid {A} (l1 seg l2 : list A) :
  drop (Z.to_nat (zlen l1 + zlen seg)) (l1 ++ seg ++ l2) = l2.
Proof. rewrite <-zlen_app, app_assoc. apply drop_zlen. Qed.

Lemma zlen_ne {A} (l : list A) : l <> [] -> 0 < zlen l.
Proof. destruct l; [done|]. intros _. rewrite zlen_cons. pose proof (zlen_nonneg l). lia. Qed.

Lemma current_range_at b r l1 seg l2 :
  lines b = l1 ++ seg ++ l2 -> range_at r l1 seg -> current_range b (Some (RLines r)) = r.
Proof.
  intros Hl (Hne & Hs & He). unfold current_range, resolveExRange, lineCount. rewrite Hl, !zlen_app.
  pose proof (zlen_nonneg l1). pose proof (zlen_ne _ Hne). pose proof (zlen_nonneg l2).
  destruct r as [a e]; simpl in *. f_equal; lia.
Qed.

Lemma changed_lines ts e (s : Engine) : lines (buffer (pushUndo e ts (changed s))) = lines (buffer s).
Proof. by rewrite pushUndo_buffer. Qed.
Lemma pushUndo_register ts e (s : Engine) : register (pushUndo e ts s) = register s.
Proof. unfold pushUndo. destruct (snapshotEqual _ _); [done|]. by destruct ts. Qed.

(** [:a,bd] removes exactly the lines of its range (one empty line stays when there was
    nothing else), puts them into the register as whole lines and says how many they were. *)
Theorem ex_delete_spec r l1 seg l2 s :
  accepts -> lines (buffer s) = l1 ++ seg ++ l2 -> range_at r l1 seg ->
  exists s', run_ex (ExDelete (Some (RLines r))) s = (s', Ok tt) /\
    lines (buffer s') = some_lines (l1 ++ l2) /\
    register s' = mkRegister true (join_lines seg) /\
    modified (buffer s') = true /\
    statusMessage s' = Some (u "Deleted " ++ num_to_str (zlen seg) ++ u " line" ++ plural (zlen seg)).
Proof.
  intros Ha Hl Hr. pose proof Hr as (Hne & Hs & He). pose proof (zlen_ne _ Hne). pose proof (zlen_nonneg l1).
  destruct (Ha (buffer s) (world s)) as (w & c & Hw). unfold run_ex, ex_delete.
  rewrite bind_get_buffer. rewrite (current_range_at _ _ _ _ _ Hl Hr). cbv zeta.
  assert (lines (buffer s) <> []) as Hb.
  { rewrite Hl. intros E. by apply app_eq_nil in E as [_ [E _]%app_eq_nil]. }
  set (b := with_editable c (buffer s)).
  pose proof (deleteLines_lines (start r - 1) (end_ r - 1) b Hb) as Hd. cbv zeta in Hd.
  assert (zlen (lines b) = zlen l1 + zlen seg + zlen l2) as Hz.
  { unfold b. simpl. rewrite Hl, !zlen_app. lia. }
  pose proof (zlen_nonneg l2). rewrite Z.min_l, Z.max_r, !clampLine_id in Hd by lia.
  destruct Hd as (_ & _ & Hrem & Hlines).
  replace (start r - 1) with (zlen l1) in Hrem, Hlines by lia.
  replace (end_ r - 1 + 1) with (zlen l1 + zlen seg) in Hrem, Hlines by lia.
  change (lines b) with (lines (buffer s)) in Hrem, Hlines.
  rewrite Hl, slice_mid in Hrem. rewrite Hl, take_zlen, drop_mid in Hlines.
  replace (start r - 1) with (zlen l1) by lia.
  destruct (deleteLines (zlen l1) (end_ r - 1) b) as [removed b'] eqn:E. simpl in Hrem, Hlines. subst removed.
  eexists. split.
  - erewrite bind_ok; [reflexivity|]. eapply atomic_accepts; [exact Hw|].
    rewrite bind_get_buffer. change (buffer (editable w c s)) with b. rewrite E. reflexivity.
  - unfold range_size.
    split_and!; simpl; rewrite ?pushUndo_buffer, ?pushUndo_register; simpl; try done.
    by replace (end_ r - start r + 1) with (zlen seg) by lia.
Qed.

Lemma range_lines_ne l1 seg l2 : seg <> [] -> l1 ++ seg ++ l2 <> ([] : list jstr).
Proof. intros H E. by apply app_eq_nil in E as [_ [E _]%app_eq_nil]. Qed.

Lemma insert_splice {A} (l : list A) i items :
  0 <= i -> snd (splice l i 0 items) = take (Z.to_nat i) l ++ items ++ drop (Z.to_nat i) l.
Proof.
  intros Hi. pose proof (zlen_nonneg l). unfold splice, rel_index. rewrite (proj2 (Z.ltb_ge i 0)) by lia.
  cbn [snd]. replace (_ + Z.min _ _) with (Z.min i (zlen l)) by lia.
  destruct (Z.le_gt_cases i (zlen l)); [by rewrite Z.min_l by lia|]. rewrite Z.min_r by lia.
  by rewrite !take_ge, !drop_ge by (unfold zlen in *; lia).
Qed.

Lemma move_lines_eq r d b l1 seg l2 :
  lines b = l1 ++ seg ++ l2 -> range_at r l1 seg -> 0 <= d ->
  let ad := Z.to_nat (if end_ r - 1 <? d then d - zlen seg else d) in
  lines (move_lines r d b) = take ad (l1 ++ l2) ++ seg ++ drop ad (l1 ++ l2).
Proof.
  intros Hl (Hne & Hs & He) Hd ad. unfold move_lines.
  pose proof (zlen_nonneg l1). pose proof (zlen_nonneg l2). pose proof (zlen_ne _ Hne).
  unfold range_size. replace (end_ r - start r + 1) with (zlen seg) by lia.
  replace (start r - 1) with (zlen l1) by lia.
  rewrite Hl, splice_eq by (rewrite ?zlen_app; lia). rewrite drop_zlen, take_zlen, take_zlen, drop_mid.
  cbn [app]. rewrite insert_splice by (case_match; lia). fold ad.
  cbn [lines setCursor with_cursor with_lines]. apply some_lines_id, range_lines_ne, Hne.
Qed.

(** [:a,bmd] moves the lines of its range: the text keeps its lines (as a multiset) wherever
    [d] is, and when [d] is outside the range they stand after line [d], in their order, the
    others keeping theirs. *)
Theorem ex_move_spec r d l1 seg l2 s :
  accepts -> lines (buffer s) = l1 ++ seg ++ l2 -> range_at r l1 seg ->
  exists s', run_ex (ExMove (Some (RLines r)) d) s = (s', Ok tt) /\
    Permutation (lines (buffer s')) (lines (buffer s)) /\
    (forall p q, l1 = p ++ q -> d = zlen p -> lines (buffer s') = p ++ seg ++ q ++ l2) /\
    (forall p q, l2 = p ++ q -> d = zlen l1 + zlen seg + zlen p ->
                 lines (buffer s') = l1 ++ p ++ seg ++ q).
Proof.
  intros Ha Hl Hr. pose proof Hr as (Hne & Hs & He). pose proof (zlen_ne _ Hne).
  pose proof (zlen_nonneg l1). pose proof (zlen_nonneg l2).
  destruct (Ha (buffer s) (world s)) as (w & c & Hw). unfold run_ex, ex_move.
  rewrite bind_get_buffer, (current_range_at _ _ _ _ _ Hl Hr). cbv zeta.
  set (dest := Z.max 0 (Z.min d (lineCount (buffer s)))).
  assert (lineCount (buffer s) = zlen l1 + zlen seg + zlen l2) as Hz
    by (unfold lineCount; rewrite Hl, !zlen_app; lia).
  pose proof (move_lines_eq r dest (with_editable c (buffer s)) l1 seg l2 Hl Hr ltac:(lia)) as Hm.
  cbv zeta in Hm. eexists. split.
  { erewrite bind_ok; [reflexivity|]. eapply atomic_accepts; [exact Hw|reflexivity]. }
  cbn [buffer set_statusMessage]. rewrite changed_lines. cbn [buffer set_buffer editable set_world
    set_diagnostics set_statusMessage]. rewrite Hm, Hl. split_and!.
  - rewrite Permutation_app_swap_app, take_drop. symmetry. apply Permutation_app_swap_app.
  - intros p q -> Hp. rewrite zlen_app in *. pose proof (zlen_nonneg p). pose proof (zlen_nonneg q).
    rewrite (proj2 (Z.ltb_ge _ _)) by lia. replace dest with (zlen p) by lia.
    by rewrite <-!app_assoc, take_zlen, drop_zlen.
  - intros p q -> Hp. rewrite zlen_app in *. pose proof (zlen_nonneg p). pose proof (zlen_nonneg q).
    rewrite (proj2 (Z.ltb_lt _ _)) by lia. replace (dest - zlen seg) with (zlen (l1 ++ p)) by (rewrite zlen_app; lia).
    by rewrite (app_assoc l1 p q), take_zlen, drop_zlen, <-app_assoc.
Qed.

(** *** Sorting *)

(** [:a,bsort] sorts the lines of its range and leaves the others alone: the lines of the
    range are the same lines, in the order of their code units ([i]: of their lower case), equal
    ones in their old order; with [!] they are in the reverse of that order. *)
Theorem ex_sort_spec r flags l1 seg l2 s :
  accepts -> lines (buffer s) = l1 ++ seg ++ l2 -> range_at r l1 seg ->
  let key := if includes flags (u "i") then toLowerCase else id in
  exists s' sorted, run_ex (ExSort (Some (RLines r)) flags) s = (s', Ok tt) /\
    lines (buffer s') = l1 ++ (if includes flags (u "!") then rev sorted else sorted) ++ l2 /\
    Permutation sorted seg /\ StronglySorted (sort_le key) sorted /\
    (forall k, List.filter (fun l => key l === k) sorted = List.filter (fun l => key l === k) seg).
Proof.
  intros Ha Hl Hr key. pose proof Hr as (Hne & Hs & He). pose proof (zlen_ne _ Hne).
  pose proof (zlen_nonneg l1). pose proof (zlen_nonneg l2).
  destruct (Ha (buffer s) (world s)) as (w & c & Hw). unfold run_ex, ex_sort.
  rewrite bind_get_buffer. change (default RAll (Some (RLines r))) with (RLines r).
  change (resolveExRange (buffer s) (Some (RLines r)) 1 (lineCount (buffer s)))
    with (current_range (buffer s) (Some (RLines r))).
  rewrite (current_range_at _ _ _ _ _ Hl Hr). cbv zeta. fold key.
  eexists _, (sort_lines key seg). split_and!.
  - erewrite bind_ok; [reflexivity|]. eapply atomic_accepts; [exact Hw|reflexivity].
  - cbn [buffer set_statusMessage]. rewrite changed_lines. cbn [buffer set_buffer editable set_world
      set_diagnostics set_statusMessage lines with_lines with_editable].
    replace (start r - 1) with (zlen l1) by lia. replace (end_ r) with (zlen l1 + zlen seg) by lia.
    rewrite Hl, slice_mid, slice_prefix, slice_suffix by (rewrite ?zlen_app; lia).
    by rewrite take_zlen, drop_mid.
  - apply sort_lines_perm.
  - apply sort_lines_sorted.
  - intros k. apply sort_lines_stable.
Qed.

(** *** Repeating an ex command *)

(** The tokens that the ex commands record for [.]. *)
Definition EX_CHANGES : list jstr :=
  [u ":substitute"; u ":delete"; u ":put"; u ":copy"; u ":move"; u ":sort"; u ":join"; u ":append";
   u ":insert"; u ":global"].

(** [.] cannot repeat an ex command: each of the commands that change lines records itself as
    the last change under a name that is not a key, so [.] in normal mode throws
    "Unsupported command" and changes no line. *)
Theorem dot_fails_after_ex t depth command s :
  In t EX_CHANGES -> inputMode s = M_normal -> lastChangeTokens s = Some [t] ->
  let '(s', r) := executeTokens (S depth) [mkToken (u ".") (u ".") 0 0] command s in
  r = Err (VimErr (VimError (u "Unsupported command: " ++ toDisplayToken t)
                     (mkToken t (toDisplayToken t) 0 0))) /\
  buffer s' = buffer s /\ undoStack s' = undoStack s.
Proof.
  destruct s as [b m sel reg ls lcf lv lc st dg vs cl us rs pi lct pc w].
  cbn [inputMode lastChangeTokens]. intros Ht -> ->.
  repeat (destruct Ht as [<-|Ht]; [destruct depth; vm_compute; auto|]). destruct Ht.
Qed.
End Changes.

(** * Witnesses *)

Lemma demo_accepts : accepts (W:=unit) (Diag:=unit).
Proof. intros b w. by exists w, true. Defined.

Definition demo_x : @Engine unit unit :=
  fst (applyAtomicChange [u "x"] (deleteCharsForward 1) demo_engine).

Lemma change_undo_redo_witness :
  exists s2 s3, undo 1 demo_x = (s2, Ok tt) /\ redo 1 s2 = (s3, Ok tt) /\
    lines (buffer s2) = lines demo_buffer /\ lines (buffer s3) = [u "one"; []; u "thre four"].
Proof.
  destruct (change_undo_redo [u "x"] (deleteCharsForward 1) demo_engine demo_x) as (s2 & s3 & H2 & H3 & Hb & Hb3 & _).
  - exact demo_accepts.
  - split; [discriminate|]. vm_compute. repeat split; discriminate || reflexivity.
  - split; [discriminate|]. vm_compute. repeat split; discriminate || reflexivity.
  - vm_compute. reflexivity.
  - vm_compute. discriminate.
  - exists s2, s3. rewrite Hb, Hb3. repeat split; assumption || reflexivity.
Defined.

Lemma ex_delete_spec_witness :
  exists s', run_ex (ExDelete (Some (RLines (mkRange 2 3)))) demo_engine = (s', Ok tt) /\
    lines (buffer s') = [u "one"] /\ reg_text (register s') = 10 :: u "three four".
Proof.
  destruct (ex_delete_spec (mkRange 2 3) [u "one"] [[]; u "three four"] [] demo_engine demo_accepts)
    as (s' & H1 & H2 & H3 & _).
  - reflexivity.
  - split; [discriminate|split; reflexivity].
  - exists s'. rewrite H2, H3. repeat split; assumption || reflexivity.
Defined.

Lemma ex_move_spec_witness :
  exists s', run_ex (ExMove (Some (RLines (mkRange 1 1))) 3) demo_engine = (s', Ok tt) /\
    lines (buffer s') = [[]; u "three four"; u "one"].
Proof.
  destruct (ex_move_spec (mkRange 1 1) 3 [] [u "one"] [[]; u "three four"] demo_engine demo_accepts)
    as (s' & H1 & _ & _ & H2).
  - reflexivity.
  - split; [discriminate|split; reflexivity].
  - exists s'. split; [assumption|]. rewrite (H2 [[]; u "three four"] []); reflexivity.
Defined.

Lemma ex_sort_spec_witness :
  exists s' sorted, run_ex (ExSort (Some (RLines (mkRange 1 3))) (u "!")) demo_engine = (s', Ok tt) /\
    lines (buffer s') = rev sorted /\ Permutation sorted [u "one"; []; u "three four"].
Proof.
  destruct (ex_sort_spec (mkRange 1 3) (u "!") [] [u "one"; []; u "three four"] [] demo_engine demo_accepts)
    as (s' & sorted & H1 & H2 & H3 & _).
  - reflexivity.
  - split; [discriminate|split; reflexivity].
  - exists s', sorted. split; [assumption|]. split; [|assumption].
    rewrite H2. simpl. apply app_nil_r.
Defined.

Lemma dot_fails_after_ex_witness :
  snd (executeTokens 1 [mkToken (u ".") (u ".") 0 0] None (run_keys [u ":2d<CR>"] demo_engine))
  = Err (VimErr (VimError (u "Unsupported command: <:delete>") (mkToken (u ":delete") (u "<:delete>") 0 0))).
Proof.
  pose proof (dot_fails_after_ex (u ":delete") 0 None (run_keys [u ":2d<CR>"] demo_engine)) as H.
  destruct (executeTokens 1 _ None _) as [s' r]. apply H.
  - right. left. reflexivity.
  - vm_compute. reflexivity.
  - vm_compute. reflexivity.
Defined.
