(* ===== verification/Json.v ===== *)
(** * JSON text: [JSON.stringify] of a string

    The error messages of the edit tools and the canonical form of the receipts quote strings with
    [JSON.stringify].  The quoted form escapes the quote, the backslash, the control units and
    the surrogates that are not part of a pair. *)
From S2P Require Import Prelude.
#[local] Open Scope Z_scope.

Definition hex_digit (d : Z) : jchar := if d <? 10 then 48 + d else 87 + d.

(** The four lower-case hexadecimal digits of a code unit. *)
Definition unit_escape (c : jchar) : jstr :=
  u "\u" ++ map (fun k => hex_digit (Z.shiftr c k mod 16)) [12; 8; 4; 0].

Definition quote_unit (c : jchar) : jstr :=
  if c =? 34 then [92; 34]
  else if c =? 92 then [92; 92]
  else if c =? 8 then u "\b"
  else if c =? 9 then u "\t"
  else if c =? 10 then u "\n"
  else if c =? 12 then u "\f"
  else if c =? 13 then u "\r"
  else if c <? 32 then unit_escape c
  else [c].

Fixpoint quote_body (s : jstr) : jstr :=
  match s with
  | [] => []
  | c :: s' =>
      if is_high c then
        match s' with
        | d :: s'' => if is_low d then c :: d :: quote_body s'' else unit_escape c ++ quote_body s'
        | [] => unit_escape c
        end
      else if is_low c then unit_escape c ++ quote_body s'
      else quote_unit c ++ quote_body s'
  end.

(** [JSON.stringify(s)] of a string. *)
Definition json_quote (s : jstr) : jstr := [34] ++ quote_body s ++ [34].

(** * Values

    The values that JSON and [undefined] make up; a number is an integer.  The fields of an object are
    listed in the order of its own properties. *)
Inductive json :=
| JUndefined
| JNull
| JBool (b : bool)
| JNum (n : Z)
| JStr (s : jstr)
| JArr (items : list json)
| JObj (fields : list (jstr * json)).

Fixpoint field_of (fields : list (jstr * json)) (k : jstr) : json :=
  match fields with
  | [] => JUndefined
  | (k', v) :: rest => if bool_decide (k' = k) then v else field_of rest k
  end.

(** [v[k]] for a name [k] that is not inherited. *)
Definition json_get (v : json) (k : jstr) : json :=
  match v with JObj fields => field_of fields k | _ => JUndefined end.

(** Induction over a value, its items and its fields. *)
Section json_induction.
Variable P : json -> Prop.
Hypothesis HU : P JUndefined.
Hypothesis HN : P JNull.
Hypothesis HB : forall b, P (JBool b).
Hypothesis HZ : forall n, P (JNum n).
Hypothesis HS : forall s, P (JStr s).
Hypothesis HA : forall items, Forall P items -> P (JArr items).
Hypothesis HO : forall fields, Forall (fun kv => P (snd kv)) fields -> P (JObj fields).
Fixpoint json_induction (v : json) : P v :=
  match v with
  | JUndefined => HU
  | JNull => HN
  | JBool b => HB b
  | JNum n => HZ n
  | JStr s => HS s
  | JArr items =>
      HA items ((fix go l : Forall P l :=
        match l with [] => Forall_nil_2 P | x :: l' => Forall_cons_2 P x l' (json_induction x) (go l') end) items)
  | JObj fields =>
      HO fields ((fix go l : Forall (fun kv => P (snd kv)) l :=
        match l with
        | [] => Forall_nil_2 _
        | kv :: l' => Forall_cons_2 _ kv l' (json_induction (snd kv)) (go l')
        end) fields)
  end.
End json_induction.

(** ** [JSON.stringify] *)

Definition is_undefined (v : json) : bool := match v with JUndefined => true | _ => false end.

(** [JSON.stringify(v)] of a value that is not [undefined]; an undefined item prints as [null], an
    undefined field not at all. *)
Fixpoint stringify (v : json) : jstr :=
  match v with
  | JUndefined | JNull => u "null"
  | JBool b => if b then u "true" else u "false"
  | JNum n => num_to_str n
  | JStr s => json_quote s
  | JArr items => [91] ++ join_with [44] (map stringify items) ++ [93]
  | JObj fields =>
      [123] ++ join_with [44]
        (flat_map (fun kv => if is_undefined (snd kv) then []
                             else [json_quote (fst kv) ++ [58] ++ stringify (snd kv)]) fields)
      ++ [125]
  end.

(** ** Reading a quoted string back *)

Definition hex_value (c : jchar) : Z := if is_digit c then c - 48 else c - 87.

Fixpoint unquote (s : jstr) : option (jstr * jstr) :=
  match s with
  | [] => None
  | c :: r =>
      if c =? 34 then Some ([], r)
      else if c =? 92 then
        match r with
        | e :: r' =>
            if e =? 117 then
              match r' with
              | h3 :: h2 :: h1 :: h0 :: r'' =>
                  '(t, rest) ← unquote r'';
                  Some (4096 * hex_value h3 + 256 * hex_value h2 + 16 * hex_value h1 + hex_value h0 :: t,
                        rest)
              | _ => None
              end
            else
              '(t, rest) ← unquote r';
              Some ((if e =? 98 then 8 else if e =? 116 then 9 else if e =? 110 then 10
                     else if e =? 102 then 12 else if e =? 114 then 13 else e) :: t, rest)
        | [] => None
        end
      else '(t, rest) ← unquote r; Some (c :: t, rest)
  end.

Definition is_unit (c : jchar) : bool := (0 <=? c) && (c <=? 65535).

Lemma hex_value_digit d : 0 <= d < 16 -> hex_value (hex_digit d) = d.
Proof.
  intros Hd. unfold hex_value, hex_digit, is_digit. destruct (Z.ltb_spec d 10).
  - rewrite (proj2 (Z.leb_le _ _)), (proj2 (Z.leb_le _ _)) by lia. cbn. lia.
  - rewrite (proj2 (Z.leb_le _ _)), (proj2 (Z.leb_gt _ _)) by lia. cbn. lia.
Qed.

Lemma unquote_escape c r :
  is_unit c = true -> unquote (unit_escape c ++ r) = ('(t, rest) ← unquote r; Some (c :: t, rest)).
Proof.
  intros [H0%Z.leb_le H1%Z.leb_le]%andb_true_iff. unfold unit_escape. cbn -[Z.shiftr hex_value hex_digit].
  rewrite !hex_value_digit by (apply Z.mod_pos_bound; lia).
  assert (4096 * (Z.shiftr c 12 mod 16) + 256 * (Z.shiftr c 8 mod 16) + 16 * (Z.shiftr c 4 mod 16)
          + Z.shiftr c 0 mod 16 = c) as ->; [|done].
  rewrite !Z.shiftr_div_pow2 by lia. change (2 ^ 12) with 4096. change (2 ^ 8) with 256.
  change (2 ^ 4) with 16. change (2 ^ 0) with 1.
  pose proof (Z.div_mod c 16 ltac:(lia)). pose proof (Z.div_mod (c / 16) 16 ltac:(lia)).
  pose proof (Z.div_mod (c / 256) 16 ltac:(lia)). pose proof (Z.div_mod (c / 4096) 16 ltac:(lia)).
  rewrite !Z.div_div in * by lia. cbn [Z.mul] in *.
  change (16 * 16) with 256 in *. change (256 * 16) with 4096 in *. change (4096 * 16) with 65536 in *.
  rewrite Z.div_1_r. rewrite (Z.div_small c 65536) in * by lia. lia.
Qed.

Lemma unquote_plain c r :
  c <> 34 -> c <> 92 -> unquote (c :: r) = ('(t, rest) ← unquote r; Some (c :: t, rest)).
Proof. intros H1 H2. cbn. by rewrite (proj2 (Z.eqb_neq _ _) H1), (proj2 (Z.eqb_neq _ _) H2). Qed.

Lemma unquote_unit c r :
  is_unit c = true -> unquote (quote_unit c ++ r) = ('(t, rest) ← unquote r; Some (c :: t, rest)).
Proof.
  intros Hc. unfold quote_unit.
  repeat (case_match; [match goal with E : (_ =? _) = true |- _ => apply Z.eqb_eq in E; subst c end;
                       reflexivity|]).
  case_match; [by apply unquote_escape|]. apply unquote_plain; lia.
Qed.

Lemma unquote_quoted s r :
  forallb is_unit s = true -> unquote (quote_body s ++ 34 :: r) = Some (s, r).
Proof.
  remember (length s) as n eqn:En. revert s En. induction (lt_wf n) as [n _ IH]. intros s -> Hs.
  destruct s as [|c s]; [done|]. cbn [forallb] in Hs. apply andb_true_iff in Hs as [Hc Hs].
  assert (unquote (quote_body s ++ 34 :: r) = Some (s, r)) as IHs
    by (apply (IH (length s)); [cbn; lia|done|done]).
  cbn [quote_body]. destruct (is_high c) eqn:Eh; [|destruct (is_low c)].
  - destruct s as [|d s]; [by rewrite unquote_escape|]. destruct (is_low d) eqn:El.
    + cbn [forallb] in Hs. apply andb_true_iff in Hs as [Hd Hs].
      unfold is_high in Eh. unfold is_low in El. cbn [app].
      rewrite !unquote_plain by lia.
      by rewrite (IH (length s)) by (done || (cbn; lia)).
    + rewrite <- app_assoc, unquote_escape by done. by rewrite IHs.
  - rewrite <- app_assoc, unquote_escape by done. by rewrite IHs.
  - rewrite <- app_assoc, unquote_unit by done. by rewrite IHs.
Qed.

Lemma json_quote_app s r : json_quote s ++ r = 34 :: quote_body s ++ 34 :: r.
Proof. unfold json_quote. by rewrite <- !app_assoc. Qed.

Lemma json_quote_inj s s' r r' :
  forallb is_unit s = true -> forallb is_unit s' = true ->
  json_quote s ++ r = json_quote s' ++ r' -> s = s' /\ r = r'.
Proof.
  intros Hs Hs' E. rewrite !json_quote_app in E. injection E as E.
  apply (f_equal unquote) in E. rewrite !unquote_quoted in E by done. by simplify_eq.
Qed.

(** ** A value can be told from its text

    [plain] values are those that are printed as they are: strings of units, no [undefined], fields with
    different names. *)

Fixpoint plain (v : json) : bool :=
  match v with
  | JUndefined => false
  | JNull | JBool _ | JNum _ => true
  | JStr s => forallb is_unit s
  | JArr items => forallb plain items
  | JObj fields => forallb (fun kv => forallb is_unit (fst kv) && plain (snd kv)) fields
  end.

(** What may follow a value. *)
Definition delimited (r : jstr) : Prop :=
  match r with [] => True | c :: _ => c = 44 \/ c = 93 \/ c = 125 end.

Lemma span_inj (p : jchar -> bool) a b r r' :
  Forall (fun c => p c = true) a -> Forall (fun c => p c = true) b ->
  match r with [] => True | c :: _ => p c = false end ->
  match r' with [] => True | c :: _ => p c = false end ->
  a ++ r = b ++ r' -> a = b /\ r = r'.
Proof.
  intros Ha. revert b. induction Ha as [|c a Hc _ IH]; intros b Hb Hr Hr' E.
  - destruct Hb as [|d b Hd Hb]; [done|]. cbn in E. subst r. cbn in Hr. congruence.
  - destruct Hb as [|d b Hd Hb]; cbn in E; [subst r'; cbn in Hr'; congruence|].
    injection E as -> E. destruct (IH b Hb Hr Hr' E) as [-> ->]. done.
Qed.

Definition num_char (c : jchar) : bool := is_digit c || (c =? 45).

Lemma num_to_str_chars n : Forall (fun c => num_char c = true) (num_to_str n) /\ num_to_str n <> [].
Proof.
  unfold num_to_str. destruct (Z.ltb_spec n 0).
  - destruct (nat_to_str_spec (- n)) as (_ & _ & Hd); [lia|]. split; [|done]. constructor; [done|].
    eapply Forall_impl; [exact Hd|]. intros c Hc. unfold num_char. by rewrite Hc.
  - destruct (nat_to_str_spec n) as (_ & Hne & Hd); [lia|]. split; [|done].
    eapply Forall_impl; [exact Hd|]. intros c Hc. unfold num_char. by rewrite Hc.
Qed.

Lemma num_to_str_head n : 0 <= n -> exists c t, nat_to_str n = c :: t /\ is_digit c = true.
Proof.
  intros Hn. destruct (nat_to_str_spec n Hn) as (_ & Hne & Hd).
  destruct (nat_to_str n) as [|c t]; [done|]. inversion_clear Hd. by exists c, t.
Qed.

Lemma num_to_str_inj a b : num_to_str a = num_to_str b -> a = b.
Proof.
  unfold num_to_str. destruct (Z.ltb_spec a 0), (Z.ltb_spec b 0); intros E.
  - injection E as E. apply nat_to_str_inj in E; lia.
  - destruct (num_to_str_head b) as (c & t & Eb & Hc); [lia|]. rewrite Eb in E.
    injection E as <- _. done.
  - destruct (num_to_str_head a) as (c & t & Ea & Hc); [lia|]. rewrite Ea in E.
    injection E as -> _. done.
  - apply nat_to_str_inj in E; lia.
Qed.

Lemma num_to_str_app_inj a b r r' :
  delimited r -> delimited r' -> num_to_str a ++ r = num_to_str b ++ r' -> a = b /\ r = r'.
Proof.
  intros Hr Hr' E.
  assert (forall s, delimited s -> match s with [] => True | c :: _ => num_char c = false end) as Hd
    by (intros [|c s] Hs; [done|]; by destruct Hs as [-> |[-> | ->] ]).
  destruct (span_inj num_char _ _ r r' (proj1 (num_to_str_chars a)) (proj1 (num_to_str_chars b)))
    as [En ->]; [by apply Hd|by apply Hd|done|]. split; [by apply num_to_str_inj|done].
Qed.

(** The first unit tells what kind of value follows. *)
Definition kind_of_unit (c : jchar) : Z :=
  if c =? 110 then 1 else if c =? 116 then 2 else if c =? 102 then 3 else if c =? 34 then 4
  else if c =? 91 then 5 else if c =? 123 then 6 else if num_char c then 7 else 0.

Definition kind_of (v : json) : Z :=
  match v with
  | JUndefined | JNull => 1
  | JBool b => if b then 2 else 3
  | JStr _ => 4
  | JArr _ => 5
  | JObj _ => 6
  | JNum _ => 7
  end.

Lemma stringify_head v : exists c t, stringify v = c :: t /\ kind_of_unit c = kind_of v.
Proof.
  destruct v as [| |[]|n|s|items|fields]; try by eexists _, _.
  destruct (num_to_str_chars n) as [Hc Hne]. cbn [stringify kind_of].
  destruct (num_to_str n) as [|c t]; [done|]. exists c, t. split; [done|].
  inversion_clear Hc as [|? ? Hn _]. unfold num_char, is_digit in Hn.
  unfold kind_of_unit, num_char, is_digit. repeat (case_match; [lia|]). lia.
Qed.

Lemma stringify_kind v v' r r' : stringify v ++ r = stringify v' ++ r' -> kind_of v = kind_of v'.
Proof.
  destruct (stringify_head v) as (c & t & E & <-), (stringify_head v') as (c' & t' & E' & <-).
  rewrite E, E'. intros [= -> _]. done.
Qed.

(** Comma-separated parts, each of which can be told from what follows it. *)
Definition separable {A} (ok : A -> Prop) (f : A -> jstr) (x : A) : Prop :=
  ok x /\ forall x' r r', ok x' -> delimited r -> delimited r' -> f x ++ r = f x' ++ r' -> x = x' /\ r = r'.

Lemma join_tail {A} (f : A -> jstr) x l close r :
  close = 93 \/ close = 125 ->
  exists r', join_with [44] (map f (x :: l)) ++ close :: r = f x ++ r' /\ delimited r'
    /\ r' = match l with [] => close :: r | _ => 44 :: join_with [44] (map f l) ++ close :: r end.
Proof.
  intros Hc. destruct l as [|y l].
  - exists (close :: r). split_and!; [done|cbn; lia|done].
  - exists (44 :: join_with [44] (map f (y :: l)) ++ close :: r). split_and!; [|cbn; lia|done].
    cbn [map join_with]. by rewrite <- !app_assoc.
Qed.

Lemma join_inj {A} (ok : A -> Prop) (f : A -> jstr) close l l' r r' :
  close = 93 \/ close = 125 ->
  (forall x, ok x -> exists c t, f x = c :: t /\ c <> 93 /\ c <> 125) ->
  Forall (separable ok f) l -> Forall ok l' ->
  join_with [44] (map f l) ++ close :: r = join_with [44] (map f l') ++ close :: r' ->
  l = l' /\ r = r'.
Proof.
  intros Hcl Hhd Hl. revert l'. induction Hl as [|x l [Hx Hsep] _ IH]; intros l' Hl' E.
  - destruct Hl' as [|y l' Hy _]; [by injection E|]. exfalso.
    destruct (join_tail f y l' close r' Hcl) as (r1 & E1 & _). rewrite E1 in E.
    destruct (Hhd y Hy) as (c & t & Ey & ? & ?). rewrite Ey in E. injection E as -> _. lia.
  - destruct (join_tail f x l close r Hcl) as (r1 & E1 & Hd1 & Er1). rewrite E1 in E.
    destruct Hl' as [|y l' Hy Hl'].
    { exfalso. destruct (Hhd x Hx) as (c & t & Ex & ? & ?). rewrite Ex in E. injection E as -> _. lia. }
    destruct (join_tail f y l' close r' Hcl) as (r2 & E2 & Hd2 & Er2). rewrite E2 in E.
    destruct (Hsep y r1 r2 Hy Hd1 Hd2 E) as [-> ->]. rewrite Er1 in Er2. clear E E1 E2.
    destruct l as [|x2 l], l' as [|y2 l'].
    + by injection Er2 as ->.
    + injection Er2 as ? _. lia.
    + injection Er2 as ? _. lia.
    + injection Er2 as Er2. by destruct (IH _ Hl' Er2) as [-> ->].
Qed.

Definition print_field (kv : jstr * json) : jstr := json_quote (fst kv) ++ [58] ++ stringify (snd kv).

Lemma stringify_fields fields :
  plain (JObj fields) = true ->
  stringify (JObj fields) = [123] ++ join_with [44] (map print_field fields) ++ [125].
Proof.
  intros Hp. cbn [stringify]. do 3 f_equal. cbn [plain] in Hp.
  induction fields as [|[k v] fields IH]; [done|]. cbn [forallb fst snd] in Hp.
  apply andb_true_iff in Hp as [[_ Hv]%andb_true_iff Hp]. cbn [flat_map map fst snd].
  rewrite <- IH by done. by destruct v.
Qed.

Lemma forallb_elem {A} (p : A -> bool) l x : forallb p l = true -> x ∈ l -> p x = true.
Proof. rewrite forallb_forall. intros H Hx. by apply H, list_elem_of_In. Qed.

Lemma forallb_Forall {A} (p : A -> bool) l : forallb p l = true <-> Forall (fun x => p x = true) l.
Proof. rewrite forallb_forall, Forall_forall. by setoid_rewrite list_elem_of_In. Qed.

(** Plain values are equal when their texts are, also inside a larger text. *)
Lemma stringify_inj v v' r r' :
  plain v = true -> plain v' = true -> delimited r -> delimited r' ->
  stringify v ++ r = stringify v' ++ r' -> v = v' /\ r = r'.
Proof.
  revert v' r r'. induction v as [| |b|n|s|items IH|fields IH] using json_induction;
    intros v' r r' Hv Hv' Hr Hr' E; pose proof (stringify_kind _ _ _ _ E) as Hk; try done;
    destruct v' as [| |b'|n'|s'|items'|fields']; try done; try (by destruct b); try (by destruct b').
  - by apply app_inv_head in E as ->.
  - destruct b, b'; try done; by apply app_inv_head in E as ->.
  - by destruct (num_to_str_app_inj n n' r r' Hr Hr' E) as [-> ->].
  - by destruct (json_quote_inj s s' r r' Hv Hv' E) as [-> ->].
  - cbn [stringify plain] in E, Hv, Hv'. rewrite <- !app_assoc in E. injection E as E.
    destruct (join_inj (fun v => plain v = true) stringify 93 items items' r r') as [-> ->]; try done; [by left|..].
    + intros x _. destruct (stringify_head x) as (c & t & Ex & Hc). exists c, t. split; [done|].
      split; intros ->; destruct x as [| |[]| | | |]; done.
    + rewrite Forall_forall in IH |- *. intros x Hx. pose proof (forallb_elem _ _ _ Hv Hx).
      split; [done|]. intros x' r1 r2 Hx'. by apply IH.
    + by apply forallb_Forall.
  - rewrite !stringify_fields, <- !app_assoc in E by done. injection E as E.
    destruct (join_inj (fun kv => forallb is_unit (fst kv) && plain (snd kv) = true) print_field 125
      fields fields' r r') as [-> ->]; try done; [by right|..].
    + intros [k x] _. unfold print_field, json_quote. cbn. by eexists _, _.
    + rewrite Forall_forall in IH |- *. intros [k x] Hx.
      pose proof (forallb_elem _ _ _ Hv Hx) as Hkx. split; [done|].
      intros [k' x'] r1 r2 Hx' Hr1 Hr2 Ef. cbn [fst snd] in *.
      apply andb_true_iff in Hkx as [Hk1 Hx1], Hx' as [Hk2 Hx2].
      unfold print_field in Ef. cbn [fst snd] in Ef. rewrite <- !app_assoc in Ef.
      destruct (json_quote_inj _ _ _ _ Hk1 Hk2 Ef) as [-> Ef']. injection Ef' as Ef'.
      specialize (IH (k', x) Hx x' r1 r2 Hx1 Hx2 Hr1 Hr2 Ef'). cbn in IH.
      by destruct IH as [-> ->].
    + by apply forallb_Forall.
Qed.
