(* ===== verification/Hashline.v ===== *)
(** * Hashline anchors: CA/hashline types.ts, constants.ts, hash.ts, parser.ts and anchors.ts

    Lines of a file are shown to the model with an anchor, the line number and a two-letter hash of
    the line, and edits name lines by anchor.  This file holds the data of the format, the hash, the
    printers, the parser of edit operations and the readers of anchors.

    The hash of the runtime (Bun's xxHash32) is the class [BunHash]: a function of the text whose
    values are not negative.  A method that throws returns a [result]; the two errors of the code
    are [PlainError] and [MismatchError].  [contentHint] and [oldAssertion] of types.ts are left out:
    nothing in the repository sets or reads them. *)
From S2P Require Import Prelude Json.
#[local] Open Scope Z_scope.
#[local] Open Scope js_scope.

(** ** types.ts *)

Record HashMismatch := {
  mm_line : Z;
  mm_expected : jstr;
  mm_actual : jstr;
}.

Record Anchor := { line : Z; hash : jstr }.

Inductive HashlineCursor :=
| Bof
| Eof
| BeforeAnchor (anchor : Anchor)
| AfterAnchor (anchor : Anchor).

Inductive HashlineEdit :=
| Insert (cursor : HashlineCursor) (text : jstr) (lineNum index : Z)
| Delete (anchor : Anchor) (lineNum index : Z).

#[export] Instance Anchor_eq_dec : EqDecision Anchor.
Proof. solve_decision. Defined.
#[export] Instance HashlineCursor_eq_dec : EqDecision HashlineCursor.
Proof. solve_decision. Defined.
#[export] Instance HashlineEdit_eq_dec : EqDecision HashlineEdit.
Proof. solve_decision. Defined.

Definition edit_lineNum (e : HashlineEdit) : Z :=
  match e with Insert _ _ n _ => n | Delete _ n _ => n end.
Definition edit_index (e : HashlineEdit) : Z :=
  match e with Insert _ _ _ i => i | Delete _ _ i => i end.

(** [new Error(msg)] and [new HashlineMismatchError(mismatches, fileLines)]. *)
Inductive HashlineError :=
| PlainError (msg : jstr)
| MismatchError (mismatches : list HashMismatch) (fileLines : list jstr).

(** ** constants.ts *)

Definition MISMATCH_CONTEXT : Z := 2.
Definition RANGE_INTERIOR_HASH : jstr := u "**".
Definition BEGIN_PATCH_MARKER : jstr := u "*** Begin Patch".
Definition END_PATCH_MARKER : jstr := u "*** End Patch".
Definition ABORT_MARKER : jstr := u "*** Abort".
Definition ABORT_WARNING : jstr :=
  u "Tool stream truncated mid-call due to detected output corruption. Applied ops above are valid. Re-issue any remaining edits.".

(** ** hash.ts *)

Definition HL_OP_INSERT_BEFORE : jchar := 171.
Definition HL_OP_INSERT_AFTER : jchar := 187.
Definition HL_OP_REPLACE : jchar := 8788.
Definition HL_OP_CHARS : jstr := [HL_OP_INSERT_BEFORE; HL_OP_INSERT_AFTER; HL_OP_REPLACE].
Definition HL_FILE_PREFIX : jchar := 167.
Definition HL_BODY_SEP : jchar := 124.

Fixpoint bigrams_of (s : jstr) : list jstr :=
  match s with a :: b :: s' => [a; b] :: bigrams_of s' | _ => [] end.

Definition HL_BIGRAMS : list jstr := Eval vm_compute in bigrams_of
  (   u "aaabacadaeafagahaiajakalamanaoapaqarasatauavawaxayaz" ++
   u "babbbcbdbebfbgbhbibjbkblbmbnbobpbrbsbtbubvbwbxbybz" ++
   u "cacbcccdcecfcgchcicjckclcmcncocpcqcrcsctcucvcwcxcycz" ++
   u "dadbdcdddedfdgdhdidjdkdldmdndodpdqdrdsdtdudvdwdxdydz" ++
   u "eaebecedeeefegeheiejekelemeneoepeqereseteuevewexeyez" ++
   u "fafbfcfdfefffgfhfifjfkflfmfnfofpfqfrfsftfufvfwfxfyfz" ++
   u "gagbgcgdgegfggghgigjglgmgngogpgrgsgtgugvgwgxgygz" ++
   u "hahbhchdhehfhghhhihjhkhlhmhnhohphqhrhshthuhvhwhxhyhz" ++
   u "iaibicidieifigihiiijikiliminioipiqirisitiuiviwixiyiz" ++
   u "jajbjcjdjejfjgjhjijjjkjljmjnjojpjqjrjsjtjujwjxjy" ++
   u "kakbkckdkekfkgkhkikjkkklkmknkokpkrksktkukvkwkxky" ++
   u "lalblcldlelflglhliljlklllmlnlolplrlsltlulvlwlxlylz" ++
   u "mambmcmdmemfmgmhmimjmkmlmmmnmompmqmrmsmtmumvmwmxmymz" ++
   u "nanbncndnenfngnhninjnknlnmnnnonpnrnsntnunvnwnxnynz" ++
   u "oaobocodoeofogohoiojokolomonooopoqorosotouovowoxoyoz" ++
   u "papbpcpdpepfpgphpipjpkplpmpnpopppqprpsptpupvpwpxpypz" ++
   u "qaqbqcqdqeqhqiqlqmqnqoqpqqqrqsqtquqwqxqy" ++
   u "rarbrcrdrerfrgrhrirkrlrmrnrorprqrrrsrtrurvrwrxryrz" ++
   u "sasbscsdsesfsgshsisjskslsmsnsospsqsrssstsusvswsxsysz" ++
   u "tatbtctdtetftgthtitjtktltmtntotptrtstttutvtwtxtytz" ++
   u "uaubucudueufuguhuiujukulumunuoupuqurusutuuuvuwuxuyuz" ++
   u "vavbvcvdvevfvgvhvivjvkvlvmvnvovpvqvrvsvtvuvvvwvxvyvz" ++
   u "wawbwcwdwewfwgwhwiwjwkwlwmwnwowpwrwswtwuwvwwwxwy" ++
   u "xaxbxcxdxexfxhxixlxmxnxoxpxrxsxtxuxxxyxz" ++
   u "yaybycydyeyfygyhyiyjykylymynyoypyrysytyuyvywyxyyyz" ++
   u "zazbzczdzezfzgzhzizkzlzmznzozpzrzsztzuzwzxzyzz").
Definition HL_BIGRAMS_COUNT : Z := Eval vm_compute in zlen HL_BIGRAMS.

(** [Bun.hash.xxHash32(text, 0)]. *)
Class BunHash := {
  xxHash32 : jstr -> Z;
  xxHash32_nonneg : forall s, 0 <= xxHash32 s;
}.

Definition HL_HASH_EXAMPLES : list jstr := [u "sr"; u "ab"; u "th"].

Definition describeAnchorExamples (linePrefix : jstr) : jstr :=
  join_with (u ", ") (map (fun e => [34] ++ linePrefix ++ e ++ [34]) HL_HASH_EXAMPLES).

(** [fileLines[n - 1] ?? ""]. *)
Definition file_line (fileLines : list jstr) (n : Z) : jstr := default [] (at_ fileLines (n - 1)).

Section hashing.
Context {bun : BunHash}.

Definition computeLineHash (idx : Z) (text : jstr) : jstr :=
  let text := trim_end (List.filter (fun c => negb (c =? 13)) text) in
  default [] (at_ HL_BIGRAMS (xxHash32 text mod HL_BIGRAMS_COUNT)).

Definition formatLineHash (n : Z) (text : jstr) : jstr := num_to_str n ++ computeLineHash n text.

Definition formatHashLine (n : Z) (text : jstr) : jstr :=
  num_to_str n ++ computeLineHash n text ++ [HL_BODY_SEP] ++ text.

Definition formatHashLines (text : jstr) (startLine : Z) : jstr :=
  join_lines (imap (fun i l => formatHashLine (startLine + Z.of_nat i) l) (split_lines text)).
End hashing.

(** ** parser.ts: anchors and ranges *)

(** The class [.] of a regular expression: anything but a line terminator. *)
Definition is_dot (c : jchar) : bool :=
  negb ((c =? 10) || (c =? 13) || (c =? 8232) || (c =? 8233)).
Definition all_ws (s : jstr) : bool := forallb is_ws s.
(** The class [[>+\-*]] of decorations. *)
Definition is_deco (c : jchar) : bool := (c =? 62) || (c =? 43) || (c =? 45) || (c =? 42).

(** The prefix [\s*[>+\-*]*\s*] of both anchor patterns. *)
Definition skip_decoration (s : jstr) : jstr :=
  drop_while is_ws (drop_while is_deco (drop_while is_ws s)).

(** [([a-z]{2})] at the start of [s]: the two letters and what follows. *)
Definition match_hash (s : jstr) : option (jstr * jstr) :=
  match s with
  | a :: b :: r => if is_lower a && is_lower b then Some ([a; b], r) else None
  | _ => None
  end.

(** [LID_CAPTURE_RE]: the captured digits and hash. *)
Definition lid_match (raw : jstr) : option (jstr * jstr) :=
  let r := skip_decoration raw in
  let digits := take_while is_digit r in
  match digits with
  | [] => None
  | d :: _ =>
      if d =? 48 then None
      else match match_hash (drop_while is_digit r) with
           | None => None
           | Some (h, tail) =>
               let ok := match tail with
                         | c :: t => if c =? HL_BODY_SEP then all_ws (drop_while is_dot t)
                                     else all_ws tail
                         | [] => true
                         end in
               if ok then Some (digits, h) else None
           end
  end.

Definition line_prefix (lineNum : Z) : jstr := u "line " ++ num_to_str lineNum ++ u ": ".

Definition parseLid (raw : jstr) (lineNum : Z) : result HashlineError Anchor :=
  match lid_match raw with
  | None =>
      Err (PlainError (line_prefix lineNum ++ u "expected a full anchor such as "
        ++ describeAnchorExamples (u "119") ++ u "; got " ++ json_quote raw ++ u "."))
  | Some (digits, h) => Ok {| line := parse_dec digits; hash := h |}
  end.

Record ParsedRange := { start : Anchor; end_ : Anchor }.

(** [raw.split("..")]. *)
Fixpoint split_dots (s : jstr) : list jstr :=
  match s with
  | [] => [[]]
  | c :: s' =>
      let skip := match split_dots s' with [] => [[c]] | l :: ls => (c :: l) :: ls end in
      match s' with
      | d :: s'' => if (c =? 46) && (d =? 46) then [] :: split_dots s'' else skip
      | [] => skip
      end
  end.

Definition parseRange (raw : jstr) (lineNum : Z) : result HashlineError ParsedRange :=
  if negb (includes raw (u "..")) then
    start ← parseLid raw lineNum;
    Ok {| start := start; end_ := start |}
  else
    let malformed :=
      Err (PlainError (line_prefix lineNum
        ++ u "range must include exactly two full anchors separated by " ++ json_quote (u "..")
        ++ u ". For a one-line edit, repeat the same anchor on both sides.")) in
    match split_dots raw with
    | [startRaw; endRaw] =>
        if (startRaw ==s "") || (endRaw ==s "") then malformed
        else
          start ← parseLid startRaw lineNum;
          end_ ← parseLid endRaw lineNum;
          let range := line_prefix lineNum ++ u "range " ++ startRaw ++ u ".." ++ endRaw in
          if line end_ <? line start then Err (PlainError (range ++ u " ends before it starts."))
          else if (line end_ =? line start) && negb (hash end_ === hash start) then
            Err (PlainError (range ++ u " uses two different hashes for the same line."))
          else Ok {| start := start; end_ := end_ |}
    | _ => malformed
    end.

Definition expandRange (range : ParsedRange) : list Anchor :=
  map (fun n => {| line := n;
                   hash := if n =? line (start range) then hash (start range)
                           else if n =? line (end_ range) then hash (end_ range)
                           else RANGE_INTERIOR_HASH |})
    (seqZ (line (start range)) (line (end_ range) - line (start range) + 1)).

Inductive InsertKind := KindBefore | KindAfter.

Definition parseInsertTarget (raw : jstr) (lineNum : Z) (kind : InsertKind)
    : result HashlineError HashlineCursor :=
  if raw ==s "BOF" then Ok Bof
  else if raw ==s "EOF" then Ok Eof
  else
    anchor ← parseLid raw lineNum;
    Ok (match kind with KindBefore => BeforeAnchor anchor | KindAfter => AfterAnchor anchor end).

Definition resolveInlineInsertBody {bun : BunHash} (cursor : HashlineCursor) (body : option jstr)
    : option jstr :=
  match body with
  | None => None
  | Some b =>
      match cursor with
      | BeforeAnchor a | AfterAnchor a =>
          if computeLineHash (line a) b === hash a then None else Some b
      | _ => Some b
      end
  end.

(** ** parser.ts: operation lines *)

(** [INSERT_BEFORE_OP_RE] and [INSERT_AFTER_OP_RE]: the target and the optional body. *)
Definition insert_op_match (op : jchar) (s : jstr) : option (jstr * option jstr) :=
  match s with
  | [] => None
  | c :: r =>
      if negb (c =? op) then None
      else
        let r := drop_while is_ws r in
        let in_target c := negb (c =? HL_BODY_SEP) && negb (is_ws c) in
        match take_while in_target r with
        | [] => None
        | target =>
            match drop_while in_target r with
            | c :: t =>
                if c =? HL_BODY_SEP then
                  if all_ws (drop_while is_dot t) then Some (target, Some (take_while is_dot t))
                  else None
                else if all_ws (c :: t) then Some (target, None) else None
            | [] => Some (target, None)
            end
        end
  end.

(** [REPLACE_OP_RE]. *)
Definition replace_op_match (s : jstr) : option jstr :=
  match s with
  | [] => None
  | c :: r =>
      if negb (c =? HL_OP_REPLACE) then None
      else
        match drop_while is_ws r with
        | [] => None
        | (d :: _) as r =>
            if (d =? 43) || (d =? 60) || (d =? 45) || (d =? 61) then None
            else
              let nonws c := negb (is_ws c) in
              if all_ws (drop_while nonws r) then Some (take_while nonws r) else None
        end
  end.

Definition isEnvelopeOrAbortMarkerLine (l : jstr) : bool :=
  let trimmed := trim_end l in
  (trimmed === BEGIN_PATCH_MARKER) || (trimmed === END_PATCH_MARKER) || (trimmed === ABORT_MARKER).

Definition is_op_char (c : jchar) : bool := existsb (fun d => c =? d) HL_OP_CHARS.

Definition isPayloadTerminatorLine (l : jstr) : bool :=
  match l with
  | [] => false
  | c :: _ => (c =? HL_FILE_PREFIX) || is_op_char c
  end || isEnvelopeOrAbortMarkerLine l.

(** [cloneCursor] copies an object; values are not shared here. *)
Definition cloneCursor (cursor : HashlineCursor) : HashlineCursor := cursor.

(** [collectPayload]: [rest] is [lines] from [startIndex]; [nextIndex - startIndex] is the length
    of the payload. *)
Fixpoint payload_run (rest : list jstr) : list jstr :=
  match rest with
  | [] => []
  | l :: rest' => if isPayloadTerminatorLine l then [] else l :: payload_run rest'
  end.

Definition collectPayload (rest : list jstr) (opLineNum : Z) (requirePayload : bool)
    : result HashlineError (list jstr) :=
  match payload_run rest, requirePayload with
  | [], true =>
      Err (PlainError (line_prefix opLineNum ++ [HL_OP_INSERT_BEFORE] ++ u " and "
        ++ [HL_OP_INSERT_AFTER] ++ u " operations require at least one verbatim payload line."))
  | payload, _ => Ok payload
  end.

(** ** parser.ts: the loop *)

(** [diff.split(/\r?\n/)]: every piece but the last loses one carriage return before its end. *)
Definition strip_cr (l : jstr) : jstr := if ends_with l [13] then slice l 0 (-1) else l.

Fixpoint strip_cr_init (ls : list jstr) : list jstr :=
  match ls with
  | [] => []
  | [l] => [l]
  | l :: ls' => strip_cr l :: strip_cr_init ls'
  end.

Definition split_crlf (s : jstr) : list jstr := strip_cr_init (split_lines s).

Record ParseState := {
  ps_edits : list HashlineEdit;
  ps_warnings : list jstr;
  ps_editIndex : Z;
}.

Definition pushInsert (cursor : HashlineCursor) (text : jstr) (lineNum : Z) (st : ParseState)
    : ParseState :=
  {| ps_edits := ps_edits st ++ [Insert (cloneCursor cursor) text lineNum (ps_editIndex st)];
     ps_warnings := ps_warnings st;
     ps_editIndex := ps_editIndex st + 1 |}.

Definition pushDelete (anchor : Anchor) (lineNum : Z) (st : ParseState) : ParseState :=
  {| ps_edits := ps_edits st ++ [Delete anchor lineNum (ps_editIndex st)];
     ps_warnings := ps_warnings st;
     ps_editIndex := ps_editIndex st + 1 |}.

Definition pushWarning (w : jstr) (st : ParseState) : ParseState :=
  {| ps_edits := ps_edits st; ps_warnings := ps_warnings st ++ [w]; ps_editIndex := ps_editIndex st |}.

Definition push_all {A} (push : A -> ParseState -> ParseState) (l : list A) (st : ParseState)
    : ParseState := fold_left (fun st x => push x st) l st.

Section parser.
Context {bun : BunHash}.

(** An insertion line, and the number of lines of its payload. *)
Definition parse_insert_op (kind : InsertKind) (target : jstr) (body : option jstr)
    (rest : list jstr) (lineNum : Z) (st : ParseState) : result HashlineError (ParseState * nat) :=
  cursor ← parseInsertTarget target lineNum kind;
  let inlineBody := resolveInlineInsertBody cursor body in
  payload ← collectPayload rest lineNum (match inlineBody with None => true | _ => false end);
  let st := match inlineBody with Some b => pushInsert cursor b lineNum st | None => st end in
  Ok (push_all (fun text => pushInsert cursor text lineNum) payload st, length payload).

(** A replacement line. *)
Definition parse_replace_op (raw : jstr) (rest : list jstr) (lineNum : Z) (st : ParseState)
    : result HashlineError (ParseState * nat) :=
  range ← parseRange raw lineNum;
  payload ← collectPayload rest lineNum false;
  let st := push_all (fun text => pushInsert (BeforeAnchor (start range)) text lineNum) payload st in
  Ok (push_all (fun anchor => pushDelete anchor lineNum) (expandRange range) st, length payload).


Definition unrecognized_op (l : jstr) (lineNum : Z) : HashlineError :=
  PlainError (line_prefix lineNum ++ u "unrecognized op. Use " ++ [HL_OP_INSERT_BEFORE]
    ++ u "ANCHOR (insert before), " ++ [HL_OP_INSERT_AFTER] ++ u "ANCHOR (insert after), or "
    ++ [HL_OP_REPLACE] ++ u "A..B (replace/delete). Got " ++ json_quote l ++ u ".").

Definition orphan_payload (l : jstr) (lineNum : Z) : HashlineError :=
  PlainError (line_prefix lineNum ++ u "payload line has no preceding " ++ [HL_OP_INSERT_BEFORE]
    ++ u ", " ++ [HL_OP_INSERT_AFTER] ++ u ", or " ++ [HL_OP_REPLACE] ++ u " operation. Got "
    ++ json_quote l ++ u ".").

(** The loop over [lines]: [skip] lines are payload of the operation before, so that the next
    line looked at is the code's [lines[nextIndex]]. *)
Fixpoint parse_lines (lines : list jstr) (skip : nat) (lineNum : Z) (st : ParseState)
    : result HashlineError ParseState :=
  match lines, skip with
  | [], _ => Ok st
  | _ :: rest, S k => parse_lines rest k (lineNum + 1) st
  | l :: rest, O =>
      let continue (r : result HashlineError (ParseState * nat)) :=
        match r with
        | Err e => Err e
        | Ok (st', n) => parse_lines rest n (lineNum + 1) st'
        end in
      if zlen (trim l) =? 0 then parse_lines rest 0 (lineNum + 1) st
      else if l === END_PATCH_MARKER then Ok st
      else if l === ABORT_MARKER then Ok (pushWarning ABORT_WARNING st)
      else if l === BEGIN_PATCH_MARKER then parse_lines rest 0 (lineNum + 1) st
      else match insert_op_match HL_OP_INSERT_BEFORE l with
      | Some (target, body) => continue (parse_insert_op KindBefore target body rest lineNum st)
      | None =>
          match insert_op_match HL_OP_INSERT_AFTER l with
          | Some (target, body) => continue (parse_insert_op KindAfter target body rest lineNum st)
          | None =>
              match replace_op_match l with
              | Some raw => continue (parse_replace_op raw rest lineNum st)
              | None =>
                  let bad := match l with c :: _ => (c =? 45) || (c =? 64) || (c =? 182) | [] => false end in
                  if isPayloadTerminatorLine l || bad then Err (unrecognized_op l lineNum)
                  else Err (orphan_payload l lineNum)
              end
          end
      end
  end.

Definition parse_input_lines (diff : jstr) : list jstr :=
  let lines := split_crlf diff in
  if ends_with diff [NL] && match last lines with Some l => l ==s "" | None => false end
  then removelast lines else lines.

Definition parseHashlineWithWarnings (diff : jstr)
    : result HashlineError (list HashlineEdit * list jstr) :=
  match parse_lines (parse_input_lines diff) 0 1
          {| ps_edits := []; ps_warnings := []; ps_editIndex := 0 |} with
  | Ok st => Ok (ps_edits st, ps_warnings st)
  | Err e => Err e
  end.

Definition parseHashline (diff : jstr) : result HashlineError (list HashlineEdit) :=
  match parseHashlineWithWarnings diff with Ok (edits, _) => Ok edits | Err e => Err e end.
End parser.

(** ** anchors.ts *)

(** [HL_HASH_HINT_RE]. *)
Definition is_hash_hint (s : jstr) : bool :=
  match s with
  | [a; b] => (is_lower a || is_upper a) && (is_lower b || is_upper b)
  | _ => false
  end.

Definition formatFullAnchorRequirement (raw : option jstr) : jstr :=
  let suffix := match raw with Some r => trim r | None => [] end in
  let hashOnlyHint :=
    if is_hash_hint suffix then
      u " It looks like you supplied only the hash suffix (" ++ json_quote suffix
      ++ u "). Copy the full anchor exactly as shown (for example, " ++ [34] ++ u "160" ++ suffix
      ++ [34] ++ u ")."
    else [] in
  let received := match raw with None => [] | Some r => u " Received " ++ json_quote r ++ u "." end in
  u "the full anchor exactly as shown by read/search output (line number + hash, for example "
  ++ describeAnchorExamples (u "160") ++ u ")" ++ received ++ hashOnlyHint.

Definition parseTag (ref : jstr) : result HashlineError Anchor :=
  let r := skip_decoration ref in
  match take_while is_digit r, match_hash (drop_while is_digit r) with
  | (_ :: _) as digits, Some (h, _) =>
      let n := parse_dec digits in
      if n <? 1 then
        Err (PlainError (u "Line number must be >= 1, got " ++ num_to_str n ++ u " in " ++ [34]
          ++ ref ++ [34] ++ u "."))
      else Ok {| line := n; hash := h |}
  | _, _ =>
      Err (PlainError (u "Invalid line reference. Expected " ++ formatFullAnchorRequirement (Some ref)
        ++ u "."))
  end.

(** The lines shown around the mismatches: a set, sorted. *)
Definition getMismatchDisplayLines (mismatches : list HashMismatch) (fileLines : list jstr)
    : list Z :=
  let around m :=
    let lo := Z.max 1 (mm_line m - MISMATCH_CONTEXT) in
    let hi := Z.min (zlen fileLines) (mm_line m + MISMATCH_CONTEXT) in
    seqZ lo (hi - lo + 1) in
  merge_sort Z.le (remove_dups (flat_map around mismatches)).

Definition rejectionHeader (mismatches : list HashMismatch) : list jstr :=
  let noun := if 1 <? zlen mismatches then u "anchors do" else u "anchor does" in
  [u "Edit rejected: " ++ num_to_str (zlen mismatches) ++ u " " ++ noun
     ++ u " not match the current file (marked *).";
   u "The edit was NOT applied, please use the updated file content shown below, and issue another edit tool-call."].

Definition marker_of (mismatches : list HashMismatch) (n : Z) : jstr :=
  if existsb (fun m => mm_line m =? n) mismatches then u "*" else u " ".

(** The loop of both messages: an ellipsis where numbers are skipped. *)
Fixpoint framed (render : Z -> jstr) (previous : Z) (ns : list Z) : list jstr :=
  match ns with
  | [] => []
  | n :: ns' =>
      (if negb (previous =? -1) && (previous + 1 <? n) then [u "..."] else [])
      ++ render n :: framed render n ns'
  end.

(** [formatCodeFrameLine] of tools/render-utils.ts. *)
Definition padStart (s : jstr) (width : Z) : jstr := repeat_str (u " ") (width - zlen s) ++ s.
Definition formatCodeFrameLine (marker : jstr) (lineNumber : Z) (content : jstr)
    (lineNumberWidth : Z) : jstr :=
  let markerText := trim marker in
  let lineNumberText := trim (num_to_str lineNumber) in
  let gutterText :=
    if negb (markerText ==s "") && negb (lineNumberText ==s "") then markerText ++ lineNumberText
    else if negb (lineNumberText ==s "") then lineNumberText else markerText in
  padStart gutterText (lineNumberWidth + 1) ++ [9474] ++ content.

Definition formatDisplayMessage (mismatches : list HashMismatch) (fileLines : list jstr) : jstr :=
  let displayLines := getMismatchDisplayLines mismatches fileLines in
  let width := fold_left (fun cur n => Z.max cur (zlen (num_to_str n))) displayLines 0 in
  join_lines (rejectionHeader mismatches ++ [[]]
    ++ framed (fun n => formatCodeFrameLine (marker_of mismatches n) n (file_line fileLines n) width)
         (-1) displayLines).

Section anchors.
Context {bun : BunHash}.

Definition formatMessage (mismatches : list HashMismatch) (fileLines : list jstr) : jstr :=
  join_lines (rejectionHeader mismatches
    ++ framed (fun n => marker_of mismatches n ++ num_to_str n
                        ++ computeLineHash n (file_line fileLines n) ++ [HL_BODY_SEP]
                        ++ file_line fileLines n)
         (-1) (getMismatchDisplayLines mismatches fileLines)).

(** The map [remaps] of a mismatch error. *)
Definition remaps (mismatches : list HashMismatch) (fileLines : list jstr) : gmap jstr jstr :=
  fold_left (fun m mm =>
    <[num_to_str (mm_line mm) ++ mm_expected mm :=
        num_to_str (mm_line mm) ++ computeLineHash (mm_line mm) (file_line fileLines (mm_line mm))]> m)
    mismatches ∅.

Definition missing_line (n : Z) (fileLines : list jstr) : HashlineError :=
  PlainError (u "Line " ++ num_to_str n ++ u " does not exist (file has "
    ++ num_to_str (zlen fileLines) ++ u " lines)").

Definition validateLineRef (ref : Anchor) (fileLines : list jstr) : result HashlineError unit :=
  if (line ref <? 1) || (zlen fileLines <? line ref) then Err (missing_line (line ref) fileLines)
  else
    let actualHash := computeLineHash (line ref) (file_line fileLines (line ref)) in
    if actualHash === hash ref then Ok tt
    else Err (MismatchError
           [{| mm_line := line ref; mm_expected := hash ref; mm_actual := actualHash |}] fileLines).
End anchors.

(** ** diff-preview.ts *)

Record PreviewState := { pv_added : Z; pv_removed : Z }.

(** [Number.parseInt(s, 10)] of the diff's padded line numbers: [None] is [NaN]. *)
Definition parse_int (s : jstr) : option Z :=
  match trim_start s with
  | [] => None
  | c :: r =>
      let signed := (c =? 45) || (c =? 43) in
      match take_while is_digit (if signed then r else c :: r) with
      | [] => None
      | ds => Some (if c =? 45 then - parse_dec ds else parse_dec ds)
      end
  end.

Definition opt_num_to_str (n : option Z) : jstr :=
  match n with Some n => num_to_str n | None => u "NaN" end.

Section preview.
Context {bun : BunHash}.

Definition preview_line (st : PreviewState) (l : jstr) : PreviewState * jstr :=
  match l with
  | kind :: body =>
      if negb ((kind =? 43) || (kind =? 45) || (kind =? 32)) then (st, l)
      else
        let sep := index_of body [HL_BODY_SEP] 0 in
        if sep =? -1 then (st, l)
        else
          let lineNumber := parse_int (slice body 0 sep) in
          let content := slice_from body (sep + 1) in
          if kind =? 43 then
            ({| pv_added := pv_added st + 1; pv_removed := pv_removed st |},
             u "+" ++ opt_num_to_str lineNumber ++ computeLineHash (default 0 lineNumber) content
               ++ [HL_BODY_SEP] ++ content)
          else if kind =? 45 then
            ({| pv_added := pv_added st; pv_removed := pv_removed st + 1 |},
             u "-" ++ opt_num_to_str lineNumber ++ u "--" ++ [HL_BODY_SEP] ++ content)
          else
            let newLineNumber := (fun n => n + pv_added st - pv_removed st) <$> lineNumber in
            (st, u " " ++ opt_num_to_str newLineNumber
                   ++ computeLineHash (default 0 newLineNumber) content ++ [HL_BODY_SEP] ++ content)
  | [] => (st, l)
  end.

Fixpoint preview_lines (st : PreviewState) (ls : list jstr) : PreviewState * list jstr :=
  match ls with
  | [] => (st, [])
  | l :: ls' =>
      let '(st, out) := preview_line st l in
      let '(st, outs) := preview_lines st ls' in
      (st, out :: outs)
  end.

Definition buildCompactHashlineDiffPreview (diff : jstr) : PreviewState * jstr :=
  let lines := if zlen diff =? 0 then [] else split_lines diff in
  let '(st, formatted) := preview_lines {| pv_added := 0; pv_removed := 0 |} lines in
  (st, join_lines formatted).
End preview.
