(* ===== verification/HashlineApply.v ===== *)
(** * Applying hashline edits: CA/hashline/apply.ts

    The whole of apply.ts: anchors are validated, boundary lines that a payload repeats are absorbed,
    the edits are put in one bucket per line and the buckets are applied bottom-up, and the lines
    for the start and the end of the file go in last.  A loop over [edits] by index is a recursion
    over the edits from that index on; [skip] edits of a group already taken are passed over.

    The code rewrites the cursors of [after_anchor] inserts in place.  Its callers parse the edits
    for one application and do not look at them afterwards (recovery reuses them only when
    validation has thrown, before any rewriting), so the rewritten edits are a new list here. *)
From S2P Require Import Prelude Json Hashline.
#[local] Open Scope Z_scope.
#[local] Open Scope js_scope.

Record HashlineApplyResult := {
  r_lines : jstr;
  r_firstChangedLine : option Z;
  r_warnings : list jstr;
}.

Inductive HashlineLineOrigin := OriginOriginal | OriginInsert | OriginReplacement.

Record IndexedEdit := { ie_edit : HashlineEdit; ie_idx : Z }.

(** A delete edit: [{kind: "delete", anchor, lineNum, index}]. *)
Record HashlineDeleteEdit := { d_anchor : Anchor; d_lineNum : Z; d_index : Z }.

(** [g_size] is [endIndex - startIndex + 1]. *)
Record HashlineReplacementGroup := {
  g_size : nat;
  g_sourceLineNum : Z;
  g_replacement : list jstr;
  g_deletes : list HashlineDeleteEdit;
}.

(** ** Validation *)

Definition getHashlineEditAnchors (edit : HashlineEdit) : list Anchor :=
  match edit with
  | Delete a _ _ => [a]
  | Insert (BeforeAnchor a) _ _ _ => [a]
  | Insert (AfterAnchor a) _ _ _ => [a]
  | _ => []
  end.

Section validate.
Context {bun : BunHash} (fileLines : list jstr).

(** The body of the loops: a missing line throws, a filler or matching hash is skipped. *)
Fixpoint validate_anchors (anchors : list Anchor) : result HashlineError (list HashMismatch) :=
  match anchors with
  | [] => Ok []
  | a :: anchors' =>
      if (line a <? 1) || (zlen fileLines <? line a) then Err (missing_line (line a) fileLines)
      else if hash a === RANGE_INTERIOR_HASH then validate_anchors anchors'
      else
        let actualHash := computeLineHash (line a) (file_line fileLines (line a)) in
        if actualHash === hash a then validate_anchors anchors'
        else
          mismatches ← validate_anchors anchors';
          Ok ({| mm_line := line a; mm_expected := hash a; mm_actual := actualHash |} :: mismatches)
  end.

Definition validateHashlineAnchors (edits : list HashlineEdit)
    : result HashlineError (list HashMismatch) :=
  validate_anchors (flat_map getHashlineEditAnchors edits).
End validate.

(** ** The two ends of the file; the state is [fileLines] and [lineOrigins] *)

Definition Lines : Type := list jstr * list HashlineLineOrigin.

Definition insertAtStart (st : Lines) (lines : list jstr) : Lines :=
  if zlen lines =? 0 then st
  else
    let origins := map (fun _ => OriginInsert) lines in
    let count := if fst st === [[]] then 1 else 0 in
    (snd (splice (fst st) 0 count lines), snd (splice (snd st) 0 count origins)).

Definition insertAtEnd (st : Lines) (lines : list jstr) : Lines * option Z :=
  if zlen lines =? 0 then (st, None)
  else
    let origins := map (fun _ => OriginInsert) lines in
    if fst st === [[]] then
      ((snd (splice (fst st) 0 1 lines), snd (splice (snd st) 0 1 origins)), Some 1)
    else
      let hasTrailingNewline := at_ (fst st) (zlen (fst st) - 1) === Some [] in
      let insertIndex := if hasTrailingNewline then zlen (fst st) - 1 else zlen (fst st) in
      ((snd (splice (fst st) insertIndex 0 lines), snd (splice (snd st) insertIndex 0 origins)),
       Some (insertIndex + 1)).

(** ** Targets and groups *)

Definition getAnchorTargetLine (edit : HashlineEdit) : option Z :=
  match edit with
  | Delete a _ _ => Some (line a)
  | Insert (BeforeAnchor a) _ _ _ | Insert (AfterAnchor a) _ _ _ => Some (line a)
  | _ => None
  end.

Definition collectAnchorTargetLines (edits : list HashlineEdit) : gset Z :=
  list_to_set (omap getAnchorTargetLine edits).

(** The run of [before_anchor] inserts of one source line: its texts and what follows. *)
Fixpoint replacement_run (sourceLineNum : Z) (rest : list HashlineEdit)
    : list jstr * list HashlineEdit :=
  match rest with
  | Insert (BeforeAnchor _) text n _ :: rest' =>
      if n =? sourceLineNum then
        let '(texts, rest'') := replacement_run sourceLineNum rest' in (text :: texts, rest'')
      else ([], rest)
  | _ => ([], rest)
  end.

Fixpoint delete_run (sourceLineNum : Z) (rest : list HashlineEdit) : list HashlineDeleteEdit :=
  match rest with
  | Delete a n i :: rest' =>
      if n =? sourceLineNum
      then {| d_anchor := a; d_lineNum := n; d_index := i |} :: delete_run sourceLineNum rest'
      else []
  | _ => []
  end.

(** The deletes run over consecutive lines from [startLine]. *)
Fixpoint consecutive (startLine : Z) (deletes : list HashlineDeleteEdit) : bool :=
  match deletes with
  | [] => true
  | d :: ds => (line (d_anchor d) =? startLine) && consecutive (startLine + 1) ds
  end.

Definition findReplacementGroup (rest : list HashlineEdit) : option HashlineReplacementGroup :=
  match rest with
  | Insert (BeforeAnchor cursor) _ sourceLineNum _ :: _ =>
      let '(replacement, rest') := replacement_run sourceLineNum rest in
      match delete_run sourceLineNum rest' with
      | [] => None
      | (d :: _) as deletes =>
          let startLine := line (d_anchor d) in
          if consecutive startLine deletes && (line cursor =? startLine) then
            Some {| g_size := length replacement + length deletes;
                    g_sourceLineNum := sourceLineNum;
                    g_replacement := replacement;
                    g_deletes := deletes |}
          else None
      end
  | _ => None
  end.

(** ** Boundary blocks *)

(** [for (let count = max; count >= 2; count--) if (matches) return count; return 0]. *)
Fixpoint greatest_block (matches : Z -> bool) (count : nat) : Z :=
  match count with
  | O => 0
  | S m => if (2 <=? Z.of_nat count) && matches (Z.of_nat count) then Z.of_nat count
           else greatest_block matches m
  end.

(** [count] entries of [xs] from [i] are those of [ys] from [j]. *)
Definition same_block (xs : list jstr) (i : Z) (ys : list jstr) (j count : Z) : bool :=
  forallb (fun offset => at_ xs (i + offset) === at_ ys (j + offset)) (seqZ 0 count).

Definition countMatchingPrefixBlock (fileLines : list jstr) (startLine : Z)
    (replacement : list jstr) : Z :=
  let max := Z.min (zlen replacement) (startLine - 1) in
  greatest_block (fun count => same_block fileLines (startLine - count - 1) replacement 0 count)
    (Z.to_nat max).

Definition countMatchingSuffixBlock (fileLines : list jstr) (endLine : Z)
    (replacement : list jstr) : Z :=
  let max := Z.min (zlen replacement) (zlen fileLines - endLine) in
  greatest_block
    (fun count => same_block fileLines endLine replacement (zlen replacement - count) count)
    (Z.to_nat max).

(** [STRUCTURAL_CLOSING_BOUNDARY_RE]. *)
Definition is_closer (c : jchar) : bool := (c =? 93) || (c =? 41) || (c =? 125).
Definition isStructuralClosingBoundaryLine (l : jstr) : bool :=
  let r := drop_while is_ws l in
  match take_while is_closer r with
  | [] => false
  | _ =>
      match drop_while is_closer r with
      | c :: t => if (c =? 59) || (c =? 44) then all_ws t else all_ws (c :: t)
      | [] => true
      end
  end.

Record DelimiterBalance := { paren : Z; bracket : Z; brace : Z }.
Definition ZERO_DELIMITER_BALANCE : DelimiterBalance := {| paren := 0; bracket := 0; brace := 0 |}.

Definition count_delimiter (b : DelimiterBalance) (c : jchar) : DelimiterBalance :=
  if c =? 40 then {| paren := paren b + 1; bracket := bracket b; brace := brace b |}
  else if c =? 41 then {| paren := paren b - 1; bracket := bracket b; brace := brace b |}
  else if c =? 91 then {| paren := paren b; bracket := bracket b + 1; brace := brace b |}
  else if c =? 93 then {| paren := paren b; bracket := bracket b - 1; brace := brace b |}
  else if c =? 123 then {| paren := paren b; bracket := bracket b; brace := brace b + 1 |}
  else if c =? 125 then {| paren := paren b; bracket := bracket b; brace := brace b - 1 |}
  else b.

(** The delimiters are single code units, so units stand for the code points of the loop. *)
Definition computeDelimiterBalance (lines : list jstr) : DelimiterBalance :=
  fold_left (fun balance l => fold_left count_delimiter l balance) lines ZERO_DELIMITER_BALANCE.

Definition delimiterBalancesEqual (a b : DelimiterBalance) : bool :=
  (paren a =? paren b) && (bracket a =? bracket b) && (brace a =? brace b).

Definition shouldDropSingleStructuralBoundary (fullPayload keptPayload : list jstr)
    (expectedBalance : DelimiterBalance) : bool :=
  delimiterBalancesEqual (computeDelimiterBalance keptPayload) expectedBalance
  && negb (delimiterBalancesEqual (computeDelimiterBalance fullPayload) expectedBalance).

Definition countMatchingSingleStructuralPrefixBoundary (fileLines : list jstr) (startLine : Z)
    (replacement : list jstr) (expectedBalance : DelimiterBalance) : Z :=
  match replacement with
  | [] => 0
  | l :: _ =>
      if startLine <=? 1 then 0
      else if negb (isStructuralClosingBoundaryLine l) then 0
      else if negb (at_ fileLines (startLine - 2) === Some l) then 0
      else if shouldDropSingleStructuralBoundary replacement (slice_from replacement 1) expectedBalance
      then 1 else 0
  end.

Definition countMatchingSingleStructuralSuffixBoundary (fileLines : list jstr) (endLine : Z)
    (replacement : list jstr) (expectedBalance : DelimiterBalance) : Z :=
  match last replacement with
  | None => 0
  | Some l =>
      if zlen fileLines <=? endLine then 0
      else if negb (isStructuralClosingBoundaryLine l) then 0
      else if negb (at_ fileLines endLine === Some l) then 0
      else if shouldDropSingleStructuralBoundary replacement (slice replacement 0 (-1)) expectedBalance
      then 1 else 0
  end.

Definition hasExternalTargets (lines : list Z) (externalTargetLines : gset Z) : bool :=
  existsb (fun n => bool_decide (n ∈ externalTargetLines)) lines.

Definition contiguousRange (start count : Z) : list Z := seqZ start count.

(** ** Pure inserts *)

Record HashlinePureInsertGroup := {
  p_size : nat;
  p_sourceLineNum : Z;
  p_cursor : HashlineCursor;
  p_payload : list jstr;
}.

Definition cursorMatches (a b : HashlineCursor) : bool :=
  match a, b with
  | Bof, Bof | Eof, Eof => true
  | BeforeAnchor x, BeforeAnchor y | AfterAnchor x, AfterAnchor y =>
      (line x =? line y) && (hash x === hash y)
  | _, _ => false
  end.

Fixpoint insert_run (sourceLineNum : Z) (cursor : HashlineCursor) (rest : list HashlineEdit)
    : list jstr * list HashlineEdit :=
  match rest with
  | Insert c text n _ :: rest' =>
      if (n =? sourceLineNum) && cursorMatches c cursor then
        let '(texts, rest'') := insert_run sourceLineNum cursor rest' in (text :: texts, rest'')
      else ([], rest)
  | _ => ([], rest)
  end.

Definition findPureInsertGroup (rest : list HashlineEdit) : option HashlinePureInsertGroup :=
  match rest with
  | Insert cursor _ sourceLineNum _ :: _ =>
      let '(payload, rest') := insert_run sourceLineNum cursor rest in
      match rest' with
      | Delete _ n _ :: _ =>
          if n =? sourceLineNum then None
          else Some {| p_size := length payload; p_sourceLineNum := sourceLineNum;
                       p_cursor := cursor; p_payload := payload |}
      | _ => Some {| p_size := length payload; p_sourceLineNum := sourceLineNum;
                     p_cursor := cursor; p_payload := payload |}
      end
  | _ => None
  end.

(** [aboveEndIdx] and [belowStartIdx]. *)
Definition pureInsertNeighborhood (cursor : HashlineCursor) (fileLines : list jstr) : Z * Z :=
  match cursor with
  | Bof => (-1, 0)
  | Eof => (zlen fileLines - 1, zlen fileLines)
  | BeforeAnchor a => (line a - 2, line a - 1)
  | AfterAnchor a => (line a - 1, line a)
  end.

Record PureInsertAbsorbResult := {
  keptPayload : list jstr;
  absorbedLeading : Z;
  absorbedTrailing : Z;
  leadingFileRange : option (Z * Z);
  trailingFileRange : option (Z * Z);
}.

Definition is_after (c : HashlineCursor) : bool := match c with AfterAnchor _ => true | _ => false end.
Definition is_before (c : HashlineCursor) : bool := match c with BeforeAnchor _ => true | _ => false end.

(** The three rules for the leading lines: a block of at least two, a plain single line after an
    anchor, a structural single line. *)
Definition absorb_leading (cursor : HashlineCursor) (payload fileLines : list jstr)
    (aboveEndIdx : Z) (allowGenericBoundaryAbsorb : bool) : Z :=
  let block :=
    if allowGenericBoundaryAbsorb then
      greatest_block (fun count => same_block payload 0 fileLines (aboveEndIdx - count + 1) count)
        (Z.to_nat (Z.min (zlen payload) (aboveEndIdx + 1)))
    else 0 in
  if negb (block =? 0) then block
  else match payload with
  | [] => 0
  | first :: _ =>
      let same := (0 <=? aboveEndIdx) && (Some first === at_ fileLines aboveEndIdx) in
      if allowGenericBoundaryAbsorb && is_after cursor && same
         && negb (isStructuralClosingBoundaryLine first) then 1
      else if same && isStructuralClosingBoundaryLine first
         && shouldDropSingleStructuralBoundary payload (slice_from payload 1) ZERO_DELIMITER_BALANCE
      then 1 else 0
  end.

Definition absorb_trailing (cursor : HashlineCursor) (payload remainingPayload fileLines : list jstr)
    (belowStartIdx : Z) (allowGenericBoundaryAbsorb : bool) : Z :=
  let remaining := zlen remainingPayload in
  let block :=
    if allowGenericBoundaryAbsorb then
      greatest_block
        (fun count => same_block payload (zlen payload - count) fileLines belowStartIdx count)
        (Z.to_nat (Z.min remaining (zlen fileLines - belowStartIdx)))
    else 0 in
  if negb (block =? 0) then block
  else match last remainingPayload with
  | None => 0
  | Some final =>
      let same := (belowStartIdx <? zlen fileLines) && (Some final === at_ fileLines belowStartIdx) in
      if is_before cursor && allowGenericBoundaryAbsorb && same
         && negb (isStructuralClosingBoundaryLine final) then 1
      else if same && isStructuralClosingBoundaryLine final
         && shouldDropSingleStructuralBoundary remainingPayload (slice remainingPayload 0 (-1))
              ZERO_DELIMITER_BALANCE
      then 1 else 0
  end.

Definition tryAbsorbPureInsertGroup (group : HashlinePureInsertGroup) (fileLines : list jstr)
    (allowGenericBoundaryAbsorb : bool) : PureInsertAbsorbResult :=
  let payload := p_payload group in
  let empty := {| keptPayload := payload; absorbedLeading := 0; absorbedTrailing := 0;
                  leadingFileRange := None; trailingFileRange := None |} in
  if zlen payload =? 0 then empty
  else
    let '(aboveEndIdx, belowStartIdx) := pureInsertNeighborhood (p_cursor group) fileLines in
    let leading := absorb_leading (p_cursor group) payload fileLines aboveEndIdx
                     allowGenericBoundaryAbsorb in
    let remainingPayload := slice_from payload leading in
    let trailing := absorb_trailing (p_cursor group) payload remainingPayload fileLines belowStartIdx
                      allowGenericBoundaryAbsorb in
    if (leading =? 0) && (trailing =? 0) then empty
    else
      {| keptPayload := slice payload leading (zlen payload - trailing);
         absorbedLeading := leading;
         absorbedTrailing := trailing;
         leadingFileRange :=
           if 0 <? leading then Some (aboveEndIdx - leading + 2, aboveEndIdx + 1) else None;
         trailingFileRange :=
           if 0 <? trailing then Some (belowStartIdx + 1, belowStartIdx + trailing) else None |}.

(** ** Absorption *)

Record AbsorbState := {
  ab_nextSyntheticIndex : Z;
  ab_absorbed : list HashlineEdit;
  ab_emittedKeys : gset jstr;
  ab_warnings : list jstr;
}.

(** A warning is given once per key. *)
Definition warn_once (key warning : jstr) (st : AbsorbState) : AbsorbState :=
  if bool_decide (key ∈ ab_emittedKeys st) then st
  else {| ab_nextSyntheticIndex := ab_nextSyntheticIndex st;
          ab_absorbed := ab_absorbed st;
          ab_emittedKeys := {[ key ]} ∪ ab_emittedKeys st;
          ab_warnings := ab_warnings st ++ [warning] |}.

Definition emit (e : HashlineEdit) (st : AbsorbState) : AbsorbState :=
  {| ab_nextSyntheticIndex := ab_nextSyntheticIndex st;
     ab_absorbed := ab_absorbed st ++ [e];
     ab_emittedKeys := ab_emittedKeys st;
     ab_warnings := ab_warnings st |}.

(** Push an edit made with [nextSyntheticIndex++]. *)
Definition emit_synthetic (make : Z -> HashlineEdit) (st : AbsorbState) : AbsorbState :=
  {| ab_nextSyntheticIndex := ab_nextSyntheticIndex st + 1;
     ab_absorbed := ab_absorbed st ++ [make (ab_nextSyntheticIndex st)];
     ab_emittedKeys := ab_emittedKeys st;
     ab_warnings := ab_warnings st |}.

Definition emit_all {A} (f : A -> AbsorbState -> AbsorbState) (l : list A) (st : AbsorbState)
    : AbsorbState := fold_left (fun st x => f x st) l st.

Definition range_text (a b : Z) : jstr := num_to_str a ++ u ".." ++ num_to_str b.

Section absorb.
Context {bun : BunHash} (fileLines : list jstr).

Definition deleteEditForAutoAbsorbedLine (n sourceLineNum index : Z) : HashlineEdit :=
  Delete {| line := n; hash := computeLineHash n (file_line fileLines n) |} sourceLineNum index.

Definition pure_insert_warning (side which : jstr) (count sourceLineNum : Z) (range : Z * Z) : jstr :=
  u "Auto-dropped " ++ num_to_str count ++ u " duplicate line(s) at the " ++ side
  ++ u " of insert at line " ++ num_to_str sourceLineNum ++ u " (file lines "
  ++ range_text (fst range) (snd range) ++ u " already match the payload's " ++ which ++ u " lines).".

(** The branch for a pure insert. *)
Definition absorb_pure_insert (rest : list HashlineEdit) (pureInsert : HashlinePureInsertGroup)
    (allowGenericBoundaryAbsorb : bool) (st : AbsorbState) : AbsorbState :=
  let result := tryAbsorbPureInsertGroup pureInsert fileLines allowGenericBoundaryAbsorb in
  if (0 <? absorbedLeading result) || (0 <? absorbedTrailing result) then
    let st := match leadingFileRange result with
      | Some r => warn_once (u "pure-insert-leading:" ++ range_text (fst r) (snd r))
          (pure_insert_warning (u "start") (u "leading") (absorbedLeading result)
             (p_sourceLineNum pureInsert) r) st
      | None => st
      end in
    let st := match trailingFileRange result with
      | Some r => warn_once (u "pure-insert-trailing:" ++ range_text (fst r) (snd r))
          (pure_insert_warning (u "end") (u "trailing") (absorbedTrailing result)
             (p_sourceLineNum pureInsert) r) st
      | None => st
      end in
    emit_all (fun text => emit_synthetic (fun i =>
        Insert (cloneCursor (p_cursor pureInsert)) text (p_sourceLineNum pureInsert) i))
      (keptPayload result) st
  else emit_all emit (take (p_size pureInsert) rest) st.

Definition replacement_warning (where_ which : jstr) (count sourceLineNum a b : Z) : jstr :=
  u "Auto-absorbed " ++ num_to_str count ++ u " duplicate line(s) " ++ where_
  ++ u " replacement at line " ++ num_to_str sourceLineNum ++ u " (file lines " ++ range_text a b
  ++ u " matched the payload's " ++ which ++ u " lines; widened the deletion to absorb them).".

(** [a || b] for counts. *)
Definition or_count (a b : Z) : Z := if a =? 0 then b else a.

Definition g_startLine (group : HashlineReplacementGroup) : Z :=
  match head (g_deletes group) with Some d => line (d_anchor d) | None => 0 end.
Definition g_endLine (group : HashlineReplacementGroup) : Z :=
  match last (g_deletes group) with Some d => line (d_anchor d) | None => 0 end.

(** [safePrefixCount] and [safeSuffixCount]. *)
Definition safe_counts (group : HashlineReplacementGroup) (allTargetLines : gset Z) : Z * Z :=
  let startLine := g_startLine group in
  let endLine := g_endLine group in
  let deletedBalance :=
    computeDelimiterBalance (map (fun d => file_line fileLines (line (d_anchor d))) (g_deletes group)) in
  let prefixCount :=
    or_count (countMatchingPrefixBlock fileLines startLine (g_replacement group))
      (countMatchingSingleStructuralPrefixBoundary fileLines startLine (g_replacement group)
         deletedBalance) in
  let suffixCount :=
    or_count (countMatchingSuffixBlock fileLines endLine (g_replacement group))
      (countMatchingSingleStructuralSuffixBoundary fileLines endLine (g_replacement group)
         deletedBalance) in
  let prefixLines := contiguousRange (startLine - prefixCount) prefixCount in
  let suffixLines := contiguousRange (endLine + 1) suffixCount in
  (if hasExternalTargets prefixLines allTargetLines then 0 else prefixCount,
   if hasExternalTargets suffixLines allTargetLines then 0 else suffixCount).

(** The branch for a replacement. *)
Definition absorb_replacement (rest : list HashlineEdit) (group : HashlineReplacementGroup)
    (allTargetLines : gset Z) (st : AbsorbState) : AbsorbState :=
  let startLine := g_startLine group in
  let endLine := g_endLine group in
  let source := g_sourceLineNum group in
  let '(safePrefixCount, safeSuffixCount) := safe_counts group allTargetLines in
  let absorbStart := startLine - safePrefixCount in
  let absorbEnd := endLine + safeSuffixCount in
  let st :=
    if 0 <? safePrefixCount then
      warn_once (u "prefix:" ++ range_text absorbStart (startLine - 1))
        (replacement_warning (u "above") (u "leading") safePrefixCount source absorbStart (startLine - 1))
        st
    else st in
  let st :=
    if 0 <? safeSuffixCount then
      warn_once (u "suffix:" ++ range_text (endLine + 1) absorbEnd)
        (replacement_warning (u "below") (u "trailing") safeSuffixCount source (endLine + 1) absorbEnd)
        st
    else st in
  let absorbed_delete n := emit_synthetic (deleteEditForAutoAbsorbedLine n source) in
  let st := emit_all absorbed_delete (contiguousRange absorbStart safePrefixCount) st in
  let st := emit_all emit (take (g_size group) rest) st in
  emit_all absorbed_delete (contiguousRange (endLine + 1) safeSuffixCount) st.

Fixpoint absorb_loop (rest : list HashlineEdit) (skip : nat) (allTargetLines : gset Z)
    (autoDrop : bool) (st : AbsorbState) : AbsorbState :=
  match rest, skip with
  | [], _ => st
  | _ :: rest', S k => absorb_loop rest' k allTargetLines autoDrop st
  | e :: rest', O =>
      match findReplacementGroup rest with
      | Some group =>
          absorb_loop rest' (g_size group - 1) allTargetLines autoDrop
            (absorb_replacement rest group allTargetLines st)
      | None =>
          match findPureInsertGroup rest with
          | Some pureInsert =>
              absorb_loop rest' (p_size pureInsert - 1) allTargetLines autoDrop
                (absorb_pure_insert rest pureInsert autoDrop st)
          | None => absorb_loop rest' 0 allTargetLines autoDrop (emit e st)
          end
      end
  end.

Definition absorbReplacementBoundaryDuplicates (edits : list HashlineEdit) (autoDrop : bool)
    : list HashlineEdit * list jstr :=
  let st := absorb_loop edits 0 (collectAnchorTargetLines edits) autoDrop
    {| ab_nextSyntheticIndex := zlen edits; ab_absorbed := []; ab_emittedKeys := ∅;
       ab_warnings := [] |} in
  (ab_absorbed st, ab_warnings st).

(** [after_anchor] becomes [before_anchor] of the next line, or the end of the file. *)
Definition normalize_edit (edit : HashlineEdit) : HashlineEdit :=
  match edit with
  | Insert (AfterAnchor a) text n i =>
      if zlen fileLines <=? line a then Insert Eof text n i
      else
        let nextLineNum := line a + 1 in
        Insert (BeforeAnchor {| line := nextLineNum;
                                hash := computeLineHash nextLineNum (file_line fileLines nextLineNum) |})
          text n i
  | _ => edit
  end.
End absorb.

(** ** Buckets and application *)

Record Partition := {
  bofLines : list jstr;
  eofLines : list jstr;
  anchorEdits : list IndexedEdit;
}.

Fixpoint partition_edits (edits : list HashlineEdit) (idx : Z) : Partition :=
  match edits with
  | [] => {| bofLines := []; eofLines := []; anchorEdits := [] |}
  | edit :: edits' =>
      let p := partition_edits edits' (idx + 1) in
      match edit with
      | Insert Bof text _ _ =>
          {| bofLines := text :: bofLines p; eofLines := eofLines p; anchorEdits := anchorEdits p |}
      | Insert Eof text _ _ =>
          {| bofLines := bofLines p; eofLines := text :: eofLines p; anchorEdits := anchorEdits p |}
      | _ =>
          {| bofLines := bofLines p; eofLines := eofLines p;
             anchorEdits := {| ie_edit := edit; ie_idx := idx |} :: anchorEdits p |}
      end
  end.

Definition bucket_line (entry : IndexedEdit) : Z :=
  match ie_edit entry with
  | Delete a _ _ => line a
  | Insert (BeforeAnchor a) _ _ _ => line a
  | _ => 0
  end.

Definition bucketAnchorEditsByLine (edits : list IndexedEdit) : gmap Z (list IndexedEdit) :=
  fold_left (fun byLine entry =>
    <[bucket_line entry := default [] (byLine !! bucket_line entry) ++ [entry]]> byLine) edits ∅.

Record ApplyState := {
  as_lines : Lines;
  as_firstChangedLine : option Z;
}.

Definition trackFirstChanged (n : Z) (first : option Z) : option Z :=
  match first with
  | None => Some n
  | Some f => if n <? f then Some n else Some f
  end.

Definition is_delete (e : HashlineEdit) : bool := match e with Delete _ _ _ => true | _ => false end.
Definition insert_text (e : HashlineEdit) : option jstr :=
  match e with Insert _ text _ _ => Some text | _ => None end.

(** One iteration of the loop over the lines, for the bucket of [n]. *)
Definition apply_bucket (n : Z) (bucket : list IndexedEdit) (st : ApplyState) : ApplyState :=
  let bucket := sort_by ie_idx bucket in
  let idx := n - 1 in
  let '(fileLines, lineOrigins) := as_lines st in
  let currentLine := default [] (at_ fileLines idx) in
  let beforeLines := omap (fun entry => insert_text (ie_edit entry)) bucket in
  let deleteLine := existsb (fun entry => is_delete (ie_edit entry)) bucket in
  if (zlen beforeLines =? 0) && negb deleteLine then st
  else
    let replacement := if deleteLine then beforeLines else beforeLines ++ [currentLine] in
    let origins :=
      if deleteLine then map (fun _ => OriginReplacement) beforeLines
      else map (fun _ => OriginInsert) beforeLines ++ [default OriginOriginal (at_ lineOrigins idx)] in
    {| as_lines := (snd (splice fileLines idx 1 replacement), snd (splice lineOrigins idx 1 origins));
       as_firstChangedLine := trackFirstChanged n (as_firstChangedLine st) |}.

Definition apply_buckets (byLine : gmap Z (list IndexedEdit)) (keys : list Z) (st : ApplyState)
    : ApplyState :=
  fold_left (fun st n => match byLine !! n with
                         | Some bucket => apply_bucket n bucket st
                         | None => st
                         end) keys st.

Definition apply_ends (p : Partition) (st : ApplyState) : ApplyState :=
  let st :=
    if 0 <? zlen (bofLines p) then
      {| as_lines := insertAtStart (as_lines st) (bofLines p);
         as_firstChangedLine := trackFirstChanged 1 (as_firstChangedLine st) |}
    else st in
  let '(lines, eofChangedLine) := insertAtEnd (as_lines st) (eofLines p) in
  {| as_lines := lines;
     as_firstChangedLine :=
       match eofChangedLine with
       | Some n => trackFirstChanged n (as_firstChangedLine st)
       | None => as_firstChangedLine st
       end |}.

(** What follows validation and absorption. *)
Definition apply_normalized (fileLines : list jstr) (normalizedEdits : list HashlineEdit) : ApplyState :=
  let p := partition_edits normalizedEdits 0 in
  let byLine := bucketAnchorEditsByLine (anchorEdits p) in
  let keys := sort_by Z.opp (elements (dom byLine)) in
  apply_ends p (apply_buckets byLine keys
    {| as_lines := (fileLines, map (fun _ => OriginOriginal) fileLines);
       as_firstChangedLine := None |}).

Definition applyHashlineEdits {bun : BunHash} (text : jstr) (edits : list HashlineEdit)
    (autoDropPureInsertDuplicates : bool) : result HashlineError HashlineApplyResult :=
  if zlen edits =? 0 then
    Ok {| r_lines := text; r_firstChangedLine := None; r_warnings := [] |}
  else
    let fileLines := split_lines text in
    mismatches ← validateHashlineAnchors fileLines edits;
    if 0 <? zlen mismatches then Err (MismatchError mismatches fileLines)
    else
      let '(absorbed, warnings) :=
        absorbReplacementBoundaryDuplicates fileLines edits autoDropPureInsertDuplicates in
      let st := apply_normalized fileLines (map (normalize_edit fileLines) absorbed) in
      Ok {| r_lines := join_lines (fst (as_lines st));
            r_firstChangedLine := as_firstChangedLine st;
            r_warnings := warnings |}.
