(* ===== verification/HashlineRefine.v ===== *)
(** * What an application of hashline edits does

    [spec_file] is the meaning of a batch of edits, written line by line and without any order of
    application: each line of the file becomes the inserts placed before it, followed by the line
    unless it is deleted, and the texts for the two ends go around that.  The file shows that the
    bucketed, bottom-up application of apply.ts computes it ([apply_normalized_spec]), what
    absorption may change ([absorbed_from]) and what a batch leaves alone. *)
From S2P Require Import Prelude Json Hashline HashlineApply.
#[local] Open Scope Z_scope.
#[local] Open Scope js_scope.

(** ** The specification *)

Section spec.
Context (fileLines : list jstr).

(** The text an edit places before line [n]: "after [n-1]" is "before [n]" when [n] exists. *)
Definition text_before (n : Z) (e : HashlineEdit) : option jstr :=
  match e with
  | Insert (BeforeAnchor a) t _ _ => if line a =? n then Some t else None
  | Insert (AfterAnchor a) t _ _ =>
      if (line a + 1 =? n) && (line a <? zlen fileLines) then Some t else None
  | _ => None
  end.

Definition text_bof (e : HashlineEdit) : option jstr :=
  match e with Insert Bof t _ _ => Some t | _ => None end.

Definition text_eof (e : HashlineEdit) : option jstr :=
  match e with
  | Insert Eof t _ _ => Some t
  | Insert (AfterAnchor a) t _ _ => if zlen fileLines <=? line a then Some t else None
  | _ => None
  end.

Definition deletes_line (n : Z) (e : HashlineEdit) : bool :=
  match e with Delete a _ _ => line a =? n | _ => false end.

(** What becomes of line [n]. *)
Definition spec_line (edits : list HashlineEdit) (n : Z) (l : jstr) : list jstr :=
  omap (text_before n) edits ++ if existsb (deletes_line n) edits then [] else [l].

(** The lines of [ls], numbered from [n], each replaced by [f]. *)
Fixpoint each_line (f : Z -> jstr -> list jstr) (n : Z) (ls : list jstr) : list jstr :=
  match ls with [] => [] | l :: ls' => f n l ++ each_line f (n + 1) ls' end.

(** An empty file is one empty line, which the first inserted lines replace; lines for the end go
    before the empty line that stands for a final newline. *)
Definition place_start (texts body : list jstr) : list jstr :=
  match texts with
  | [] => body
  | _ => if body === [[]] then texts else texts ++ body
  end.

Definition place_end (texts body : list jstr) : list jstr :=
  match texts with
  | [] => body
  | _ => if body === [[]] then texts
         else if last body === Some [] then removelast body ++ texts ++ [[]]
         else body ++ texts
  end.

Definition spec_file (edits : list HashlineEdit) : list jstr :=
  place_end (omap text_eof edits)
    (place_start (omap text_bof edits) (each_line (spec_line edits) 1 fileLines)).
End spec.

(** ** Lemmas on numbered lines *)

Lemma each_line_app f n l1 l2 :
  each_line f n (l1 ++ l2) = each_line f n l1 ++ each_line f (n + zlen l1) l2.
Proof.
  revert n. induction l1 as [|l l1 IH]; intros n; simpl; [by rewrite Z.add_0_r|].
  rewrite IH, <- app_assoc, zlen_cons. do 3 f_equal. lia.
Qed.

Lemma each_line_ext f g n ls :
  (forall k l, n <= k < n + zlen ls -> f k l = g k l) -> each_line f n ls = each_line g n ls.
Proof.
  revert n. induction ls as [|l ls IH]; intros n H; [done|]. cbn [each_line]. rewrite zlen_cons in H.
  pose proof (zlen_nonneg ls). f_equal; [apply H; lia|]. apply IH. intros. apply H. lia.
Qed.

Lemma each_line_id f n ls :
  (forall k l, n <= k < n + zlen ls -> f k l = [l]) -> each_line f n ls = ls.
Proof.
  revert n. induction ls as [|l ls IH]; intros n H; [done|]. cbn [each_line]. rewrite zlen_cons in H.
  pose proof (zlen_nonneg ls). rewrite H by lia. simpl. f_equal. apply IH. intros. apply H. lia.
Qed.

(** A list cut at its [k]-th entry, counted from one. *)
Lemma split_at {A} (l : list A) k :
  1 <= k <= zlen l -> exists pre x post, l = pre ++ x :: post /\ zlen pre = k - 1.
Proof.
  intros Hk. pose proof (take_drop (Z.to_nat (k - 1)) l) as Hl.
  assert (Hp : zlen (take (Z.to_nat (k - 1)) l) = k - 1) by (apply zlen_take; lia).
  destruct (drop (Z.to_nat (k - 1)) l) as [|x post] eqn:E; [|eauto].
  apply (f_equal zlen) in E. rewrite zlen_drop in E by lia. change (zlen (@nil A)) with 0 in E. lia.
Qed.

Lemma at_app_mid {A} (pre : list A) x post i : i = zlen pre -> at_ (pre ++ x :: post) i = Some x.
Proof.
  intros ->. unfold at_, zlen. destruct (Z.ltb_spec (Z.of_nat (length pre)) 0); [lia|].
  rewrite Nat2Z.id, lookup_app_r, Nat.sub_diag; done.
Qed.

Lemma splice_mid {A} (pre : list A) x post i items :
  i = zlen pre -> snd (splice (pre ++ x :: post) i 1 items) = pre ++ items ++ post.
Proof.
  intros ->. pose proof (zlen_nonneg pre). pose proof (zlen_nonneg post).
  rewrite splice_eq by (rewrite ?zlen_app, ?zlen_cons; lia). simpl.
  unfold zlen. rewrite Nat2Z.id, take_app_length.
  replace (Z.to_nat (Z.of_nat (length pre) + 1)) with (length pre + 1)%nat by lia.
  do 2 f_equal. rewrite drop_app, Nat.add_comm, drop_ge by lia.
  by replace (1 + length pre - length pre)%nat with 1%nat by lia.
Qed.

(** ** Buckets *)

(** What the bucket of [n] makes of the line. *)
Definition bucket_result (byLine : gmap Z (list IndexedEdit)) (n : Z) (l : jstr) : list jstr :=
  match byLine !! n with
  | None => [l]
  | Some bucket =>
      omap (fun en => insert_text (ie_edit en)) (sort_by ie_idx bucket)
      ++ if existsb (fun en => is_delete (ie_edit en)) (sort_by ie_idx bucket) then [] else [l]
  end.

Lemma apply_bucket_lines byLine n bucket st pre l post :
  byLine !! n = Some bucket -> fst (as_lines st) = pre ++ l :: post -> zlen pre = n - 1 ->
  fst (as_lines (apply_bucket n bucket st)) = pre ++ bucket_result byLine n l ++ post.
Proof.
  intros Hb Hl Hp. unfold apply_bucket, bucket_result. rewrite Hb.
  destruct (as_lines st) as [fl lo] eqn:Es. simpl in Hl. subst fl.
  rewrite (at_app_mid pre l post) by done. simpl default.
  set (texts := omap _ _). destruct (existsb _ _); cbn [negb].
  - rewrite andb_false_r. cbn [as_lines fst]. rewrite splice_mid by done. by rewrite app_nil_r.
  - rewrite andb_true_r. destruct (Z.eqb_spec (zlen texts) 0) as [E|E].
    + apply zlen_0_nil in E. by rewrite E, Es.
    + cbn [as_lines fst]. rewrite splice_mid by done. by rewrite <- !app_assoc.
Qed.

(** The loop over the lines, last line first. *)
Lemma apply_buckets_lines byLine keys orig tail st :
  StronglySorted (fun a b => b < a) keys ->
  Forall (fun k => 1 <= k <= zlen orig) keys ->
  (forall n, 1 <= n <= zlen orig -> is_Some (byLine !! n) -> n ∈ keys) ->
  fst (as_lines st) = orig ++ tail ->
  fst (as_lines (apply_buckets byLine keys st)) = each_line (bucket_result byLine) 1 orig ++ tail.
Proof.
  intros Hs. revert orig tail st.
  induction Hs as [|k keys Hs IH Hk]; intros orig tail st Hr Hin Hl; cbn [apply_buckets fold_left].
  - rewrite Hl, each_line_id; [done|]. intros n l Hn. unfold bucket_result.
    destruct (byLine !! n) eqn:E; [|done]. exfalso. apply (not_elem_of_nil n).
    apply Hin; [lia|by rewrite E].
  - apply Forall_cons in Hr as [Hk1 Hr].
    destruct (split_at orig k Hk1) as (pre & l & post & -> & Hp).
    rewrite zlen_app, zlen_cons in *. pose proof (zlen_nonneg post).
    set (st' := match byLine !! k with Some b => apply_bucket k b st | None => st end).
    assert (Hl' : fst (as_lines st') = pre ++ (bucket_result byLine k l ++ post ++ tail)).
    { unfold st'. destruct (byLine !! k) eqn:E.
      - rewrite (apply_bucket_lines byLine k _ st pre l (post ++ tail)); [done|done| |done].
        by rewrite Hl, <- app_assoc.
      - rewrite Hl, <- app_assoc. unfold bucket_result. by rewrite E. }
    fold (apply_buckets byLine keys st').
    rewrite (IH pre (bucket_result byLine k l ++ post ++ tail)); [| | |done].
    + rewrite each_line_app. cbn [each_line]. rewrite Hp.
      rewrite (each_line_id _ _ post).
      { replace (1 + (k - 1)) with k by lia. by rewrite <- !app_assoc. }
      intros n x Hn. unfold bucket_result. destruct (byLine !! n) eqn:E; [|done].
      exfalso. assert (n ∈ k :: keys) as Hn' by (apply Hin; [lia|by rewrite E]).
      apply elem_of_cons in Hn' as [->|Hn']; [lia|].
      rewrite Forall_forall in Hk. specialize (Hk n Hn'). lia.
    + rewrite Forall_forall in Hk, Hr |- *. intros x Hx. specialize (Hk x Hx). specialize (Hr x Hx). lia.
    + intros n Hn Hb. assert (n ∈ k :: keys) as Hn' by (apply Hin; [lia|done]).
      apply elem_of_cons in Hn' as [->|Hn']; [lia|done].
Qed.

Definition on_line (n : Z) (en : IndexedEdit) : bool := bucket_line en =? n.

Lemma buckets_lookup es n :
  bucketAnchorEditsByLine es !! n =
  match List.filter (on_line n) es with [] => None | b => Some b end.
Proof.
  unfold bucketAnchorEditsByLine.
  enough (forall m : gmap Z (list IndexedEdit),
    fold_left (fun byLine entry => <[bucket_line entry :=
        default [] (byLine !! bucket_line entry) ++ [entry]]> byLine) es m !! n =
    match List.filter (on_line n) es with
    | [] => m !! n
    | b => Some (default [] (m !! n) ++ b)
    end) as H.
  { rewrite H. by destruct (List.filter _ _). }
  induction es as [|e es IH]; intros m; [done|]. cbn [fold_left List.filter]. rewrite IH.
  unfold on_line at 2. destruct (Z.eqb_spec (bucket_line e) n) as [<-|Hne].
  - rewrite lookup_insert_eq. simpl. destruct (List.filter _ _); [done|]. by rewrite <- app_assoc.
  - rewrite lookup_insert_ne by done. done.
Qed.

Lemma partition_idx es idx :
  Forall (fun en => idx <= ie_idx en) (anchorEdits (partition_edits es idx)) /\
  StronglySorted (fun a b => ie_idx a <= ie_idx b) (anchorEdits (partition_edits es idx)).
Proof.
  revert idx. induction es as [|e es IH]; intros idx; [by repeat constructor|].
  destruct (IH (idx + 1)) as [Hf Hs]. cbn [partition_edits].
  assert (Hf' : Forall (fun en => idx <= ie_idx en) (anchorEdits (partition_edits es (idx + 1)))).
  { eapply Forall_impl; [exact Hf|]. simpl. lia. }
  destruct e as [[]|]; cbn [anchorEdits];
    (split; [done || (constructor; [simpl; lia|done])|done || constructor; done]).
Qed.

Lemma filter_sorted {A} (R : A -> A -> Prop) (p : A -> bool) l :
  StronglySorted R l -> StronglySorted R (List.filter p l).
Proof.
  induction 1 as [|x l Hs IH Hx]; simpl; [constructor|]. destruct (p x); [|done].
  constructor; [done|]. apply Forall_forall. intros y Hy. rewrite Forall_forall in Hx.
  apply Hx. apply list_elem_of_In, filter_In in Hy as [Hy _]. by apply list_elem_of_In.
Qed.

(** ** The ends of the file *)

Lemma insertAtStart_spec st texts : fst (insertAtStart st texts) = place_start texts (fst st).
Proof.
  unfold insertAtStart, place_start. destruct texts as [|t ts]; [done|].
  rewrite zlen_cons. pose proof (zlen_nonneg ts). rewrite (proj2 (Z.eqb_neq _ _)) by lia.
  case_bool_decide as E; cbn [fst].
  - rewrite E. apply app_nil_r.
  - rewrite splice_eq by (pose proof (zlen_nonneg (fst st)); lia). done.
Qed.

Lemma last_at {A} (l : list A) : at_ l (zlen l - 1) = last l.
Proof.
  rewrite last_lookup. unfold at_, zlen. destruct l as [|x l]; [done|].
  destruct (Z.ltb_spec (Z.of_nat (length (x :: l)) - 1) 0); simpl in *; [lia|]. f_equal. lia.
Qed.

Lemma last_split {A} (l : list A) x : last l = Some x -> l = removelast l ++ [x].
Proof.
  intros H. destruct (exists_last (l:=l)) as (l' & y & ->); [by intros ->|].
  rewrite last_snoc in H. injection H as ->. by rewrite removelast_last.
Qed.

Lemma insertAtEnd_spec st texts :
  fst (fst (insertAtEnd st texts)) = place_end texts (fst st) /\
  snd (insertAtEnd st texts) =
    match texts with
    | [] => None
    | _ => Some (if fst st === [[]] then 1
                 else if last (fst st) === Some [] then zlen (fst st) else zlen (fst st) + 1)
    end.
Proof.
  unfold insertAtEnd, place_end. destruct texts as [|t ts]; [done|].
  rewrite zlen_cons. pose proof (zlen_nonneg ts). rewrite (proj2 (Z.eqb_neq _ _)) by lia.
  case_bool_decide as E; cbn [fst snd].
  { rewrite E. unfold splice. cbn [snd]. by rewrite app_nil_r. }
  rewrite last_at. pose proof (zlen_nonneg (fst st)). case_bool_decide as Hl.
  - apply last_split in Hl. set (pre := removelast (fst st)) in *. clearbody pre.
    rewrite Hl. replace (zlen (pre ++ [[]]) - 1) with (zlen pre) by (rewrite zlen_snoc; lia).
    split; [|rewrite zlen_snoc; f_equal; lia]. pose proof (zlen_nonneg pre).
    rewrite splice_eq by (rewrite ?zlen_snoc; lia). rewrite Z.add_0_r. cbn [snd].
    replace (Z.to_nat (zlen pre)) with (length pre) by (unfold zlen; lia).
    by rewrite take_app_length, drop_app_length.
  - split; [|done]. rewrite splice_eq by lia. cbn [snd].
    replace (Z.to_nat (zlen (fst st))) with (length (fst st)) by (unfold zlen; lia).
    replace (Z.to_nat (zlen (fst st) + 0)) with (length (fst st)) by (unfold zlen; lia).
    by rewrite firstn_all, drop_all, app_nil_r.
Qed.
(** ** Normalised edits *)

Section normalized.
Context {bun : BunHash} (fileLines : list jstr) (edits : list HashlineEdit).
Let part idx := partition_edits (map (normalize_edit fileLines) edits) idx.

Lemma bof_lines idx : bofLines (part idx) = omap text_bof edits.
Proof.
  unfold part. revert idx. induction edits as [|e es IH]; intros idx; [done|].
  destruct e as [[]|]; cbn; try (destruct (_ <=? _)); cbn; by rewrite IH.
Qed.

Lemma eof_lines idx : eofLines (part idx) = omap (text_eof fileLines) edits.
Proof.
  unfold part. revert idx. induction edits as [|e es IH]; intros idx; [done|].
  destruct e as [[]|]; cbn; try (destruct (_ <=? _)); cbn; by rewrite IH.
Qed.

Let bucket n idx := List.filter (on_line n) (anchorEdits (part idx)).

Lemma bucket_texts n idx :
  1 <= n ->
  omap (fun en => insert_text (ie_edit en)) (bucket n idx) = omap (text_before fileLines n) edits.
Proof.
  intros Hn. unfold bucket, part. revert idx.
  induction edits as [|e es IH]; intros idx; [done|].
  destruct e as [[| |a|a]|a]; cbn; unfold on_line, bucket_line; cbn.
  - by rewrite IH.
  - by rewrite IH.
  - destruct (line a =? n); cbn; by rewrite IH.
  - destruct (Z.leb_spec (zlen fileLines) (line a)); cbn.
    + rewrite (proj2 (Z.ltb_ge _ _)) by lia. by rewrite andb_false_r, IH.
    + rewrite (proj2 (Z.ltb_lt _ _)) by lia. rewrite andb_true_r.
      destruct (line a + 1 =? n); cbn; by rewrite IH.
  - destruct (line a =? n); cbn; by rewrite IH.
Qed.

Lemma bucket_deletes n idx :
  existsb (fun en => is_delete (ie_edit en)) (bucket n idx) = existsb (deletes_line n) edits.
Proof.
  unfold bucket, part. revert idx. induction edits as [|e es IH]; intros idx; [done|].
  destruct e as [[| |a|a]|a]; cbn; unfold on_line, bucket_line; cbn; try by rewrite IH.
  - destruct (line a =? n); cbn; by rewrite IH.
  - destruct (zlen fileLines <=? line a); cbn; [by rewrite IH|].
    destruct (line a + 1 =? n); cbn; by rewrite IH.
  - destruct (line a =? n); cbn; by rewrite ?IH.
Qed.

Let byLine := bucketAnchorEditsByLine (anchorEdits (part 0)).

Lemma bucket_result_spec n l : 1 <= n -> bucket_result byLine n l = spec_line fileLines edits n l.
Proof.
  intros Hn. unfold bucket_result, spec_line, byLine. rewrite buckets_lookup.
  rewrite <- (bucket_texts n 0), <- (bucket_deletes n 0) by done. unfold bucket.
  destruct (List.filter (on_line n) (anchorEdits (part 0))) as [|en b] eqn:E; [done|].
  rewrite sort_by_id; [done|]. rewrite <- E. apply filter_sorted. apply partition_idx.
Qed.

(** Every edit names a line of the file. *)
Definition in_file (e : HashlineEdit) : Prop :=
  match getAnchorTargetLine e with Some n => 1 <= n <= zlen fileLines | None => True end.
Hypothesis targets_in_file : Forall in_file edits.

Lemma buckets_in_file idx :
  Forall (fun en => 1 <= bucket_line en <= zlen fileLines) (anchorEdits (part idx)).
Proof.
  unfold part. revert idx. pose proof targets_in_file as H. clear -H.
  induction H as [|e es He _ IH]; intros idx; [constructor|].
  specialize (IH (idx + 1)). unfold in_file in He.
  destruct e as [[| |a|a]|a]; cbn in *; try done; try by constructor.
  destruct (Z.leb_spec (zlen fileLines) (line a)); cbn; [done|]. constructor; [cbn; lia|done].
Qed.

Let keys := sort_by Z.opp (elements (dom byLine)).

Lemma keys_sorted : StronglySorted (fun a b => b < a) keys.
Proof.
  pose proof (sort_by_strict Z.opp (elements (dom byLine)) ltac:(intros; lia) (NoDup_elements _)) as H.
  fold keys in H. induction H as [|x l Hs IH Hx]; constructor; [done|].
  eapply Forall_impl; [exact Hx|]. simpl. lia.
Qed.

Lemma elem_keys n : n ∈ keys <-> is_Some (byLine !! n).
Proof. unfold keys. by rewrite (sort_by_perm Z.opp), elem_of_elements, elem_of_dom. Qed.

(** A bucket is not empty, and its entries are for its line. *)
Lemma byLine_entry n b :
  byLine !! n = Some b -> exists en b', b = en :: b' /\ 1 <= n <= zlen fileLines.
Proof.
  unfold byLine. rewrite buckets_lookup.
  destruct (List.filter (on_line n) (anchorEdits (part 0))) as [|en b'] eqn:E; [done|].
  intros <-%(inj Some). exists en, b'. split; [done|].
  assert (In en (anchorEdits (part 0)) /\ on_line n en = true) as [Hin Hon].
  { apply filter_In. rewrite E. by left. }
  pose proof (buckets_in_file 0) as Hr. rewrite Forall_forall in Hr.
  specialize (Hr en (proj2 (list_elem_of_In _ _) Hin)). unfold on_line in Hon. lia.
Qed.

Lemma keys_range : Forall (fun k => 1 <= k <= zlen fileLines) keys.
Proof.
  apply Forall_forall. intros n [b Hb]%elem_keys. destruct (byLine_entry n b Hb) as (? & ? & _ & H).
  exact H.
Qed.


Definition initial_state : ApplyState :=
  {| as_lines := (fileLines, map (fun _ => OriginOriginal) fileLines); as_firstChangedLine := None |}.

(** The lines after the loop over the buckets. *)
Lemma body_spec :
  fst (as_lines (apply_buckets byLine keys initial_state)) =
  each_line (spec_line fileLines edits) 1 fileLines.
Proof.
  rewrite (apply_buckets_lines byLine keys fileLines []).
  - rewrite app_nil_r. apply each_line_ext. intros. apply bucket_result_spec. lia.
  - apply keys_sorted.
  - apply keys_range.
  - intros n _. by rewrite elem_keys.
  - by rewrite app_nil_r.
Qed.

(** Bottom-up application computes the specification. *)
Lemma apply_normalized_spec :
  fst (as_lines (apply_normalized fileLines (map (normalize_edit fileLines) edits))) =
  spec_file fileLines edits.
Proof.
  unfold apply_normalized, apply_ends, spec_file. fold (part 0) byLine keys initial_state.
  rewrite (bof_lines 0), (eof_lines 0). rewrite <- body_spec.
  set (st := apply_buckets byLine keys initial_state).
  set (st' := if 0 <? zlen _ then _ else st).
  assert (Hst : fst (as_lines st') = place_start (omap text_bof edits) (fst (as_lines st))).
  { unfold st'. destruct (omap text_bof edits) as [|t ts]; [done|].
    rewrite zlen_cons. pose proof (zlen_nonneg ts). rewrite (proj2 (Z.ltb_lt _ _)) by lia.
    apply insertAtStart_spec. }
  destruct (insertAtEnd_spec (as_lines st') (omap (text_eof fileLines) edits)) as [He _].
  destruct (insertAtEnd (as_lines st') _) as [lines c]. cbn [as_lines fst snd] in *.
  by rewrite He, Hst.
Qed.

(** ** The first changed line *)

Lemma bucket_effective (b : list IndexedEdit) :
  b <> [] ->
  (zlen (omap (fun en => insert_text (ie_edit en)) b) =? 0)
    && negb (existsb (fun en => is_delete (ie_edit en)) b) = false.
Proof.
  destruct b as [|[[c t ln i|a ln i] ix] b]; [done| |]; intros _; cbn.
  - rewrite zlen_cons. pose proof (zlen_nonneg (omap (fun en => insert_text (ie_edit en)) b)).
    by rewrite (proj2 (Z.eqb_neq _ _)) by lia.
  - apply andb_false_r.
Qed.

Lemma apply_bucket_first n b st :
  b <> [] ->
  as_firstChangedLine (apply_bucket n b st) = trackFirstChanged n (as_firstChangedLine st).
Proof.
  intros Hb. unfold apply_bucket. destruct (as_lines st) as [fl lo].
  rewrite bucket_effective; [done|]. intros E. apply Hb.
  apply Permutation_nil_r. by rewrite <- E, sort_by_perm.
Qed.

Lemma apply_buckets_first ks st :
  StronglySorted (fun a b => b < a) ks ->
  Forall (fun k => exists b, byLine !! k = Some b /\ b <> []) ks ->
  (forall f, as_firstChangedLine st = Some f -> Forall (fun k => k < f) ks) ->
  as_firstChangedLine (apply_buckets byLine ks st) =
    match last ks with Some k => Some k | None => as_firstChangedLine st end.
Proof.
  intros Hs. revert st. induction Hs as [|k ks Hs IH Hk]; intros st Hb Hf; [done|].
  apply Forall_cons in Hb as [(b & Hb & Hne) Hbs]. cbn [apply_buckets fold_left]. rewrite Hb.
  fold (apply_buckets byLine ks (apply_bucket k b st)).
  assert (E : as_firstChangedLine (apply_bucket k b st) = Some k).
  { rewrite apply_bucket_first by done. destruct (as_firstChangedLine st) as [f|] eqn:Ef; [|done].
    specialize (Hf f eq_refl). apply Forall_cons in Hf as [Hf _]. cbn.
    by rewrite (proj2 (Z.ltb_lt _ _)). }
  rewrite IH; [|done|].
  - rewrite last_cons, E. by destruct (last ks).
  - rewrite E. by intros f <-%(inj Some).
Qed.

(** Nothing before the line is changed, and nothing at all when there is no such line. *)
Definition unchanged_before (first : option Z) (lines : list jstr) : Prop :=
  match first with
  | None => lines = fileLines
  | Some f => 1 <= f /\ take (Z.to_nat (f - 1)) lines = take (Z.to_nat (f - 1)) fileLines
  end.

Lemma body_first :
  let st := apply_buckets byLine keys initial_state in
  unchanged_before (as_firstChangedLine st) (fst (as_lines st)).
Proof.
  cbv zeta. rewrite body_spec.
  rewrite apply_buckets_first; [|apply keys_sorted| |done].
  2: { apply Forall_forall. intros k [b Hb]%elem_keys. exists b. split; [done|].
       by destruct (byLine_entry k b Hb) as (? & ? & -> & _). }
  assert (Hspec : forall n l, 1 <= n -> n ∉ keys -> spec_line fileLines edits n l = [l]).
  { intros n l Hn Hk. rewrite <- bucket_result_spec by done. unfold bucket_result.
    destruct (byLine !! n) eqn:E; [|done]. exfalso. apply Hk, elem_keys. by rewrite E. }
  destruct (last keys) as [k|] eqn:E; cbn.
  - assert (Hk : k ∈ keys) by by apply last_Some_elem_of.
    pose proof keys_range as Hr. rewrite Forall_forall in Hr. specialize (Hr k Hk).
    split; [lia|]. destruct (split_at fileLines k Hr) as (pre & x & post & Hf & Hp).
    rewrite Hf at 2 3. rewrite each_line_app, (each_line_id _ 1 pre).
    + replace (Z.to_nat (k - 1)) with (length pre) by (unfold zlen in Hp; lia).
      by rewrite !take_app_length.
    + intros n l Hn. apply Hspec; [lia|]. intros Hin.
      apply last_split in E. rewrite E in Hin. pose proof keys_sorted as Hs. rewrite E in Hs.
      apply elem_of_app in Hin as [Hin| ->%list_elem_of_singleton]; [|lia].
      assert (k < n) by (apply (StronglySorted_app_1_elem_of _ _ _ n k Hs); [done|by left]). lia.
  - apply last_None in E. rewrite each_line_id; [done|]. intros n l Hn. apply Hspec; [lia|].
    rewrite E. apply not_elem_of_nil.
Qed.

Lemma unchanged_weaken f g lines :
  unchanged_before (Some f) lines -> 1 <= g <= f -> unchanged_before (Some g) lines.
Proof.
  intros [Hf Ht] Hg. split; [lia|]. apply (f_equal (take (Z.to_nat (g - 1)))) in Ht.
  rewrite !take_take in Ht. by replace (Z.to_nat (g - 1) `min` Z.to_nat (f - 1))%nat
    with (Z.to_nat (g - 1)) in Ht by lia.
Qed.

Lemma unchanged_one lines : unchanged_before (Some 1) lines.
Proof. done. Qed.

Lemma track_le n first : exists g, trackFirstChanged n first = Some g /\ g <= n /\
  (g = n \/ first = Some g) /\ forall f, first = Some f -> g <= f.
Proof.
  destruct first as [f|]; cbn.
  - destruct (Z.ltb_spec n f); eexists; split_and!; eauto; try lia; intros ? [= <-]; lia.
  - eexists; split_and!; eauto; [lia|done].
Qed.

(** Lines that agree with [body] up to where the insertion is keep the property. *)
Lemma unchanged_insert first body body' c :
  unchanged_before first body -> 1 <= c ->
  (forall f, f <= c -> take (Z.to_nat (f - 1)) body' = take (Z.to_nat (f - 1)) body) ->
  (forall f, first = Some f -> 1 <= f) ->
  unchanged_before (trackFirstChanged c first) body'.
Proof.
  intros Hu Hc Ht Hf. destruct (track_le c first) as (g & -> & Hg & Hor & Hle).
  assert (1 <= g) by (destruct Hor as [->|E]; [lia|by apply Hf]).
  split; [done|]. rewrite Ht by done. destruct first as [f|].
  - apply (unchanged_weaken f g); [done|]. specialize (Hle f eq_refl). lia.
  - cbn in Hu. by rewrite Hu.
Qed.

Lemma unchanged_pos first body f : unchanged_before first body -> first = Some f -> 1 <= f.
Proof. intros H ->. apply H. Qed.

Lemma apply_normalized_first :
  let st := apply_normalized fileLines (map (normalize_edit fileLines) edits) in
  unchanged_before (as_firstChangedLine st) (fst (as_lines st)).
Proof.
  cbv zeta. unfold apply_normalized, apply_ends. fold (part 0) byLine keys initial_state.
  pose proof body_first as Hb. cbv zeta in Hb.
  set (st := apply_buckets byLine keys initial_state) in *.
  set (st' := if 0 <? zlen _ then _ else st).
  assert (Hb' : unchanged_before (as_firstChangedLine st') (fst (as_lines st'))).
  { unfold st'. destruct (0 <? _); [|done]. cbn [as_firstChangedLine as_lines].
    apply (unchanged_insert _ (fst (as_lines st))); [done|lia| |].
    - intros f Hf. by replace (Z.to_nat (f - 1)) with 0%nat by lia.
    - intros f. by apply unchanged_pos with (body := fst (as_lines st)). }
  clearbody st'. clear Hb st.
  destruct (insertAtEnd_spec (as_lines st') (eofLines (part 0))) as [He Hc].
  destruct (insertAtEnd (as_lines st') _) as [lines c]. cbn [as_lines as_firstChangedLine fst snd] in *.
  rewrite He, Hc. unfold place_end. destruct (eofLines (part 0)) as [|t ts]; [done|].
  set (body := fst (as_lines st')) in *. pose proof (zlen_nonneg body).
  case_bool_decide as E1; [|case_bool_decide as E2]; (apply (unchanged_insert _ body); [done| | |
    intros f; by apply unchanged_pos with (body := body)]).
  - lia.
  - intros f Hf. by replace (Z.to_nat (f - 1)) with 0%nat by lia.
  - apply last_split in E2. rewrite E2, zlen_snoc. pose proof (zlen_nonneg (removelast body)). lia.
  - intros f Hf. apply last_split in E2. rewrite E2 in Hf at 1. rewrite zlen_snoc in Hf.
    rewrite E2 at 2. rewrite !take_app_le by (unfold zlen in Hf; lia). done.
  - lia.
  - intros f Hf. rewrite take_app_le by (unfold zlen in Hf; lia). done.
Qed.
End normalized.
