(* ===== verification/HashlineAbsorb.v ===== *)
(** * What absorption may change

    Before the edits are applied, apply.ts looks for payload lines that repeat the lines next to the
    edit.  [absorbed_from] says what the list of edits may become: an edit of the batch, an insert of
    the batch again, or the deletion of a line that no edit names and whose text is a payload line of
    the same operation.  [absorb_spec] shows that nothing else happens, that no deletion is lost, and
    that a batch without warnings is not changed at all. *)
From S2P Require Import Prelude Json Hashline HashlineApply HashlineRefine.
#[local] Open Scope Z_scope.
#[local] Open Scope js_scope.

(** ** Counting matching boundaries *)

Lemma greatest_block_spec matches n :
  0 <= greatest_block matches n <= Z.of_nat n /\
  (greatest_block matches n <> 0 -> matches (greatest_block matches n) = true).
Proof.
  induction n as [|n IH]; cbn [greatest_block]; [lia|].
  destruct ((2 <=? Z.of_nat (S n)) && matches (Z.of_nat (S n))) eqn:E; [|split; [lia|apply IH]].
  apply andb_true_iff in E as [E1 E2]. split; [lia|done].
Qed.

Lemma same_block_at xs i ys j count o :
  same_block xs i ys j count = true -> 0 <= o < count -> at_ xs (i + o) = at_ ys (j + o).
Proof.
  unfold same_block. rewrite forallb_forall. intros H Ho.
  specialize (H o). rewrite bool_decide_eq_true in H. apply H.
  apply list_elem_of_In, elem_of_seqZ. lia.
Qed.

Lemma at_elem {A} (l : list A) i x : at_ l i = Some x -> x ∈ l.
Proof. unfold at_. destruct (i <? 0); [done|]. apply list_elem_of_lookup_2. Qed.

Lemma at_some {A} (l : list A) i : 0 <= i < zlen l -> exists x, at_ l i = Some x.
Proof.
  intros Hi. unfold at_, zlen in *. rewrite (proj2 (Z.ltb_ge _ _)) by lia.
  apply lookup_lt_is_Some. lia.
Qed.

(** Line [n] is in the file and its text is a line of [payload]. *)
Definition repeats (fileLines payload : list jstr) (n : Z) : Prop :=
  1 <= n <= zlen fileLines /\ file_line fileLines n ∈ payload.

Lemma repeats_at fileLines payload n j :
  1 <= n <= zlen fileLines -> at_ fileLines (n - 1) = at_ payload j -> repeats fileLines payload n.
Proof.
  intros Hn He. split; [done|]. unfold file_line.
  destruct (at_some fileLines (n - 1)) as [x Hx]; [lia|]. rewrite Hx in *. simpl.
  by apply (at_elem payload j).
Qed.

Lemma last_elem {A} (l : list A) x : last l = Some x -> x ∈ l.
Proof. intros H. apply last_split in H. rewrite H. apply elem_of_app. right. by left. Qed.

Section counts.
Context (fileLines replacement : list jstr).

Lemma prefix_block_spec startLine :
  1 <= startLine <= zlen fileLines ->
  let p := countMatchingPrefixBlock fileLines startLine replacement in
  0 <= p /\ forall n, startLine - p <= n < startLine -> repeats fileLines replacement n.
Proof.
  intros Hs p. unfold p, countMatchingPrefixBlock. pose proof (zlen_nonneg replacement).
  destruct (greatest_block_spec
    (fun count => same_block fileLines (startLine - count - 1) replacement 0 count)
    (Z.to_nat (Z.min (zlen replacement) (startLine - 1)))) as [Hb Hm].
  set (k := greatest_block _ _) in *. split; [lia|]. intros n Hn.
  apply (repeats_at _ _ n (n - (startLine - k))); [lia|].
  pose proof (same_block_at _ _ _ _ _ (n - (startLine - k)) (Hm ltac:(lia)) ltac:(lia)) as E.
  by replace (startLine - k - 1 + (n - (startLine - k))) with (n - 1) in E by lia.
Qed.

Lemma suffix_block_spec endLine :
  1 <= endLine <= zlen fileLines ->
  let s := countMatchingSuffixBlock fileLines endLine replacement in
  0 <= s /\ forall n, endLine < n <= endLine + s -> repeats fileLines replacement n.
Proof.
  intros He s. unfold s, countMatchingSuffixBlock. pose proof (zlen_nonneg replacement).
  destruct (greatest_block_spec
    (fun count => same_block fileLines endLine replacement (zlen replacement - count) count)
    (Z.to_nat (Z.min (zlen replacement) (zlen fileLines - endLine)))) as [Hb Hm].
  set (k := greatest_block _ _) in *. split; [lia|]. intros n Hn.
  apply (repeats_at _ _ n (zlen replacement - k + (n - 1 - endLine))); [lia|].
  pose proof (same_block_at _ _ _ _ _ (n - 1 - endLine) (Hm ltac:(lia)) ltac:(lia)) as E.
  by replace (endLine + (n - 1 - endLine)) with (n - 1) in E by lia.
Qed.

Lemma single_prefix_spec startLine b :
  1 <= startLine <= zlen fileLines ->
  let p := countMatchingSingleStructuralPrefixBoundary fileLines startLine replacement b in
  0 <= p /\ forall n, startLine - p <= n < startLine -> repeats fileLines replacement n.
Proof.
  intros Hs p. unfold p, countMatchingSingleStructuralPrefixBoundary.
  destruct replacement as [|l r] eqn:Er; [split; lia|].
  destruct (Z.leb_spec startLine 1); [split; lia|].
  destruct (isStructuralClosingBoundaryLine l); [|split; simpl; lia].
  case_bool_decide as E; [|split; simpl; lia]. simpl negb. cbv iota.
  destruct (shouldDropSingleStructuralBoundary _ _ _); [|split; lia].
  split; [lia|]. intros n Hn. apply (repeats_at _ _ n 0); [lia|].
  replace (n - 1) with (startLine - 2) by lia. by rewrite E.
Qed.

Lemma single_suffix_spec endLine b :
  1 <= endLine <= zlen fileLines ->
  let s := countMatchingSingleStructuralSuffixBoundary fileLines endLine replacement b in
  0 <= s /\ forall n, endLine < n <= endLine + s -> repeats fileLines replacement n.
Proof.
  intros He s. unfold s, countMatchingSingleStructuralSuffixBoundary.
  destruct (last replacement) as [l|] eqn:Er; [|split; lia].
  destruct (Z.leb_spec (zlen fileLines) endLine); [split; lia|].
  destruct (isStructuralClosingBoundaryLine l); [|split; simpl; lia].
  case_bool_decide as E; [|split; simpl; lia]. simpl negb. cbv iota.
  destruct (shouldDropSingleStructuralBoundary _ _ _); [|split; lia].
  split; [lia|]. intros n Hn. apply (repeats_at _ _ n (zlen replacement - 1)); [lia|].
  replace (n - 1) with endLine by lia. by rewrite E, last_at.
Qed.

Lemma or_count_ind (P : Z -> Prop) a b : P a -> P b -> P (or_count a b).
Proof. unfold or_count. by destruct (a =? 0). Qed.
End counts.

Lemma no_external lines targets n :
  hasExternalTargets lines targets = false -> n ∈ lines -> n ∉ targets.
Proof.
  unfold hasExternalTargets. intros H Hn Ht. apply not_true_iff_false in H. apply H.
  apply existsb_exists. exists n. split; [by apply list_elem_of_In|]. by apply bool_decide_eq_true.
Qed.

(** The counts that are used name lines of the file that no edit names. *)
Lemma safe_counts_spec fileLines group targets p s :
  safe_counts fileLines group targets = (p, s) ->
  1 <= g_startLine group <= zlen fileLines -> 1 <= g_endLine group <= zlen fileLines ->
  0 <= p /\ 0 <= s /\
  forall n, g_startLine group - p <= n < g_startLine group
            \/ g_endLine group < n <= g_endLine group + s ->
    (n ∉ targets) /\ repeats fileLines (g_replacement group) n.
Proof.
  unfold safe_counts. set (b := computeDelimiterBalance _). intros E Hs He.
  apply pair_equal_spec in E as [Ep Es].
  pose proof (prefix_block_spec fileLines (g_replacement group) _ Hs) as H1.
  pose proof (single_prefix_spec fileLines (g_replacement group) _ b Hs) as H2.
  pose proof (suffix_block_spec fileLines (g_replacement group) _ He) as H3.
  pose proof (single_suffix_spec fileLines (g_replacement group) _ b He) as H4.
  cbv zeta in H1, H2, H3, H4. unfold contiguousRange in *.
  pose proof (or_count_ind (fun k => 0 <= k /\ forall n, g_startLine group - k <= n <
    g_startLine group -> repeats fileLines (g_replacement group) n) _ _ H1 H2) as [Hk1 Hk2].
  pose proof (or_count_ind (fun k => 0 <= k /\ forall n, g_endLine group < n <= g_endLine group + k ->
    repeats fileLines (g_replacement group) n) _ _ H3 H4) as [Hk3 Hk4].
  set (kp := or_count _ _) in Ep, Hk1, Hk2. set (ks := or_count _ _) in Es, Hk3, Hk4.
  destruct (hasExternalTargets (seqZ (g_startLine group - kp) kp) targets) eqn:X1;
    destruct (hasExternalTargets (seqZ (g_endLine group + 1) ks) targets) eqn:X2;
    subst p s; (split; [lia|]); (split; [lia|]); intros n Hn; try lia.
  - assert (g_endLine group < n <= g_endLine group + ks) as Hr by lia.
    split; [|by apply Hk4]. apply (no_external _ _ _ X2), elem_of_seqZ. lia.
  - assert (g_startLine group - kp <= n < g_startLine group) as Hr by lia.
    split; [|by apply Hk2]. apply (no_external _ _ _ X1), elem_of_seqZ. lia.
  - destruct Hn as [Hn|Hn].
    + split; [|by apply Hk2]. apply (no_external _ _ _ X1), elem_of_seqZ. lia.
    + split; [|by apply Hk4]. apply (no_external _ _ _ X2), elem_of_seqZ. lia.
Qed.

(** ** Groups *)

Lemma replacement_run_spec src rest texts rest' :
  replacement_run src rest = (texts, rest') ->
  rest' ⊆ rest /\ Forall (fun t => exists c i, Insert c t src i ∈ rest) texts.
Proof.
  revert texts rest'. induction rest as [|e rest IH]; intros texts rest' H.
  { injection H as <- <-. split; [done|constructor]. }
  assert (Hsub : rest ⊆ e :: rest) by (intros x; by right).
  destruct e as [[| |a|a] t n i|a n i]; try by (injection H as <- <-; split; [done|constructor]).
  cbn in H. destruct (Z.eqb_spec n src) as [->|]; [|injection H as <- <-; split; [done|constructor]].
  destruct (replacement_run src rest) as [ts r] eqn:E. injection H as <- <-.
  destruct (IH ts r eq_refl) as [H1 H2]. split; [set_solver|]. constructor.
  - exists (BeforeAnchor a), i. by left.
  - eapply Forall_impl; [exact H2|]. intros x (c & j & Hx). exists c, j. by right.
Qed.

Lemma delete_run_spec src rest :
  Forall (fun d => exists i, Delete (d_anchor d) src i ∈ rest) (delete_run src rest).
Proof.
  induction rest as [|[c t n i|a n i] rest IH]; cbn; [constructor|constructor|].
  destruct (Z.eqb_spec n src) as [->|]; [|constructor]. constructor; [exists i; by left|].
  eapply Forall_impl; [exact IH|]. intros d (j & Hd). exists j. by right.
Qed.

Lemma replacement_group_spec rest g :
  findReplacementGroup rest = Some g ->
  (0 < g_size g)%nat /\
  Forall (fun t => exists c i, Insert c t (g_sourceLineNum g) i ∈ rest) (g_replacement g) /\
  (exists a n i, Delete a n i ∈ rest /\ g_startLine g = line a) /\
  (exists a n i, Delete a n i ∈ rest /\ g_endLine g = line a).
Proof.
  unfold findReplacementGroup. destruct rest as [|[[| |a|a] t src i|a n i] rest]; try done.
  set (whole := _ :: rest). destruct (replacement_run src whole) as [texts rest'] eqn:E.
  destruct (replacement_run_spec _ _ _ _ E) as [Hsub Ht].
  pose proof (delete_run_spec src rest') as Hd.
  destruct (delete_run src rest') as [|d ds] eqn:Ed; [done|].
  destruct (consecutive _ _ && _); [|done]. intros <-%(inj Some). cbn.
  split_and!; [lia|done| |].
  - apply Forall_cons in Hd as [(j & Hj) _]. exists (d_anchor d), src, j. split; [by apply Hsub|done].
  - unfold g_endLine. cbn [g_deletes]. destruct (last (d :: ds)) as [d'|] eqn:El; [|by rewrite last_cons in El; destruct (last ds)].
    apply last_elem in El. rewrite Forall_forall in Hd. destruct (Hd d' El) as (j & Hj).
    exists (d_anchor d'), src, j. split; [by apply Hsub|done].
Qed.

Lemma cursorMatches_eq a b : cursorMatches a b = true -> a = b.
Proof.
  destruct a as [| |[l h]|[l h]], b as [| |[l' h']|[l' h']]; cbn; try done;
    rewrite andb_true_iff, Z.eqb_eq, bool_decide_eq_true; by intros [-> ->].
Qed.

Lemma cursorMatches_refl a : cursorMatches a a = true.
Proof.
  destruct a as [| |[l h]|[l h]]; cbn; try done;
    by rewrite Z.eqb_refl, bool_decide_eq_true_2.
Qed.

Lemma insert_run_spec src c rest texts rest' :
  insert_run src c rest = (texts, rest') ->
  Forall (fun t => exists i, Insert c t src i ∈ rest) texts /\
  Forall (fun e => is_delete e = false) (take (length texts) rest).
Proof.
  revert texts rest'. induction rest as [|e rest IH]; intros texts rest' H.
  { injection H as <- <-. repeat constructor. }
  destruct e as [c' t n i|a n i]; [|injection H as <- <-; repeat constructor].
  cbn in H. destruct ((n =? src) && cursorMatches c' c) eqn:Em;
    [|injection H as <- <-; repeat constructor].
  apply andb_true_iff in Em as [->%Z.eqb_eq ->%cursorMatches_eq].
  destruct (insert_run src c rest) as [ts r] eqn:E. injection H as <- <-.
  destruct (IH ts r eq_refl) as [H1 H2]. split; constructor; [by exists i; left| |done|done].
  eapply Forall_impl; [exact H1|]. intros x (j & Hx). exists j. by right.
Qed.

Lemma pure_insert_group_spec rest p :
  findPureInsertGroup rest = Some p ->
  (0 < p_size p)%nat /\
  Forall (fun t => exists i, Insert (p_cursor p) t (p_sourceLineNum p) i ∈ rest) (p_payload p) /\
  Forall (fun e => is_delete e = false) (take (p_size p) rest).
Proof.
  unfold findPureInsertGroup. destruct rest as [|[c t src i|a n i] rest]; try done.
  destruct (insert_run src c (Insert c t src i :: rest)) as [texts rest'] eqn:E.
  destruct (insert_run_spec _ _ _ _ _ E) as [H1 H2].
  assert (Hlen : (0 < length texts)%nat).
  { cbn in E. rewrite Z.eqb_refl, cursorMatches_refl in E. cbn in E.
    destruct (insert_run src c rest). injection E as <- _. simpl. lia. }
  intros H. assert (p = {| p_size := length texts; p_sourceLineNum := src; p_cursor := c;
    p_payload := texts |}) as ->; [|done].
  destruct rest' as [|[? ? ? ?|? m ?] ?]; [| |destruct (m =? src)]; congruence.
Qed.

(** ** One step of the loop *)

Section absorb.
Context {bun : BunHash} (fileLines : list jstr) (edits : list HashlineEdit).
Let targets := collectAnchorTargetLines edits.
Hypothesis targets_in_file : Forall (in_file fileLines) edits.

(** What an edit handed on to the application may be. *)
Inductive absorbed_from : HashlineEdit -> Prop :=
| af_kept e : e ∈ edits -> absorbed_from e
| af_again c t n i i' : Insert c t n i ∈ edits -> absorbed_from (Insert c t n i')
| af_widened n src i c t j :
    n ∉ targets -> 1 <= n <= zlen fileLines -> Insert c t src j ∈ edits ->
    file_line fileLines n = t -> absorbed_from (deleteEditForAutoAbsorbedLine fileLines n src i).

(** A warning has been given whenever a key is remembered. *)
Definition keys_warned (st : AbsorbState) : Prop :=
  ab_emittedKeys st <> ∅ -> ab_warnings st <> [].

(** Taking in [es] from [st] led to [st']. *)
Definition absorbs (st st' : AbsorbState) (es : list HashlineEdit) : Prop :=
  exists new,
    ab_absorbed st' = ab_absorbed st ++ new /\
    Forall absorbed_from new /\
    (forall e, e ∈ es -> is_delete e = true -> e ∈ new) /\
    (new = es /\ ab_warnings st' = ab_warnings st \/ ab_warnings st' <> []) /\
    keys_warned st'.

Lemma absorbs_trans st1 st2 st3 es1 es2 :
  absorbs st1 st2 es1 -> absorbs st2 st3 es2 -> absorbs st1 st3 (es1 ++ es2).
Proof.
  intros (n1 & E1 & F1 & D1 & W1 & K1) (n2 & E2 & F2 & D2 & W2 & K2). exists (n1 ++ n2).
  split_and!; [by rewrite E2, E1, app_assoc|by apply Forall_app| | |done].
  - intros e [He|He]%elem_of_app Hd; apply elem_of_app; auto.
  - destruct W2 as [[-> E]|]; [|by right]. rewrite E.
    destruct W1 as [[-> ->]|]; [by left|by right].
Qed.

Lemma absorbs_emit_all es st :
  es ⊆ edits -> keys_warned st -> absorbs st (emit_all emit es st) es.
Proof.
  intros Hes Hk. assert (H : ab_absorbed (emit_all emit es st) = ab_absorbed st ++ es /\
    ab_warnings (emit_all emit es st) = ab_warnings st /\
    ab_emittedKeys (emit_all emit es st) = ab_emittedKeys st).
  { clear. unfold emit_all. revert st. induction es as [|e es IH]; intros st; cbn.
    - by rewrite app_nil_r.
    - destruct (IH (emit e st)) as (-> & -> & ->). cbn. by rewrite <- app_assoc. }
  destruct H as (E & Ew & Ek). exists es. split_and!; [done| |auto|by left|].
  - apply Forall_forall. intros e He. apply af_kept. by apply Hes.
  - unfold keys_warned. by rewrite Ew, Ek.
Qed.

(** Edits made up by the absorption come with a warning. *)
Lemma absorbs_synthetic {A} (f : A -> Z -> HashlineEdit) xs st :
  Forall (fun x => forall i, absorbed_from (f x i)) xs -> keys_warned st ->
  xs = [] \/ ab_warnings st <> [] ->
  absorbs st (emit_all (fun x => emit_synthetic (f x)) xs st) [].
Proof.
  intros Hf Hk Hw. assert (H : exists new,
    let st' := emit_all (fun x => emit_synthetic (f x)) xs st in
    ab_absorbed st' = ab_absorbed st ++ new /\ Forall absorbed_from new /\ (xs = [] -> new = []) /\
    ab_warnings st' = ab_warnings st /\ ab_emittedKeys st' = ab_emittedKeys st).
  { clear Hk Hw. unfold emit_all. revert st.
    induction Hf as [|x xs Hx _ IH]; intros st; cbn [fold_left]; cbv zeta.
    - exists []. by rewrite app_nil_r.
    - destruct (IH (emit_synthetic (f x) st)) as (new & E & F & _ & Ew & Ek).
      eexists (_ :: new). rewrite E, Ew, Ek. cbn. rewrite <- app_assoc. split_and!; [done|by constructor|done|done|done]. }
  destruct H as (new & E & F & Hn & Ew & Ek). exists new.
  split_and!; [done|done|intros e He; by apply elem_of_nil in He| |].
  - rewrite Ew. destruct Hw as [->|]; [left; auto|by right].
  - unfold keys_warned. by rewrite Ew, Ek.
Qed.

Lemma warn_once_spec key w st :
  keys_warned st ->
  ab_absorbed (warn_once key w st) = ab_absorbed st /\ ab_warnings (warn_once key w st) <> [] /\
  keys_warned (warn_once key w st).
Proof.
  intros Hk. unfold warn_once. case_bool_decide as Hin.
  - split_and!; [done|apply Hk; set_solver|done].
  - split_and!; [done|cbn; by destruct (ab_warnings st)|].
    intros _. cbn. by destruct (ab_warnings st).
Qed.

Lemma absorbs_after_warning st st2 st3 es :
  ab_absorbed st2 = ab_absorbed st -> ab_warnings st2 <> [] -> absorbs st2 st3 es -> absorbs st st3 es.
Proof.
  intros E Hw (new & E' & F & D & W & K). exists new. rewrite E', E. split_and!; try done.
  right. by destruct W as [[_ ->]|W].
Qed.

Lemma absorbs_no_delete st st' es :
  absorbs st st' [] -> ab_warnings st' <> [] -> Forall (fun e => is_delete e = false) es ->
  absorbs st st' es.
Proof.
  intros (new & E & F & _ & _ & K) Hw He. exists new. split_and!; try done; [|by right].
  intros e Hin Hd. rewrite Forall_forall in He. by rewrite (He e Hin) in Hd.
Qed.

Lemma absorbs_warnings st st' es : absorbs st st' es -> ab_warnings st <> [] -> ab_warnings st' <> [].
Proof. intros (new & _ & _ & _ & [[_ ->]|] & _); auto. Qed.

Lemma slice_subset {A} (l : list A) a b x : x ∈ slice l a b -> x ∈ l.
Proof. unfold slice. intros H. by apply in_take, in_drop in H. Qed.

Lemma try_absorb_spec p auto :
  let r := tryAbsorbPureInsertGroup p fileLines auto in
  keptPayload r ⊆ p_payload p /\
  (0 < absorbedLeading r -> is_Some (leadingFileRange r)) /\
  (0 < absorbedTrailing r -> is_Some (trailingFileRange r)).
Proof.
  unfold tryAbsorbPureInsertGroup. destruct (zlen (p_payload p) =? 0).
  { cbn. split_and!; [done|lia|lia]. }
  destruct (pureInsertNeighborhood _ _) as [above below]. cbv zeta.
  set (lead := absorb_leading _ _ _ _ _). set (trail := absorb_trailing _ _ _ _ _ _).
  destruct ((lead =? 0) && (trail =? 0)); cbn.
  - split_and!; [done|lia|lia].
  - split_and!; [intros x; apply slice_subset| |]; intros H;
      rewrite (proj2 (Z.ltb_lt _ _) H); by eexists.
Qed.

Lemma warn_once_case key w st (P : Prop) :
  keys_warned st ->
  ab_absorbed (warn_once key w st) = ab_absorbed st /\ keys_warned (warn_once key w st) /\
  (P -> ab_warnings (warn_once key w st) <> []).
Proof. intros Hk. destruct (warn_once_spec key w st Hk) as (A & W & K). auto. Qed.

Lemma absorbs_pure_insert rest p auto st :
  findPureInsertGroup rest = Some p -> rest ⊆ edits -> keys_warned st ->
  absorbs st (absorb_pure_insert fileLines rest p auto st) (take (p_size p) rest).
Proof.
  intros Hp Hr Hk. destruct (pure_insert_group_spec rest p Hp) as (Hsz & Ht & Hd).
  destruct (try_absorb_spec p auto) as (Hkept & Hl & Htr).
  unfold absorb_pure_insert. set (r := tryAbsorbPureInsertGroup p fileLines auto) in *.
  destruct ((0 <? absorbedLeading r) || (0 <? absorbedTrailing r)) eqn:E.
  2: { apply absorbs_emit_all; [|done]. intros e He. by apply Hr, (in_take _ _ _ He). }
  set (st1 := match leadingFileRange r with Some _ => _ | None => st end).
  assert (H1 : ab_absorbed st1 = ab_absorbed st /\ keys_warned st1 /\
               (0 < absorbedLeading r -> ab_warnings st1 <> [])).
  { unfold st1. destruct (leadingFileRange r) as [z|].
    - by apply warn_once_case.
    - split_and!; [done|done|]. intros H. by destruct (Hl H). }
  clearbody st1. destruct H1 as (A1 & K1 & W1).
  set (st2 := match trailingFileRange r with Some _ => _ | None => st1 end).
  assert (H2 : ab_absorbed st2 = ab_absorbed st /\ keys_warned st2 /\ ab_warnings st2 <> []).
  { unfold st2. destruct (trailingFileRange r) as [z|].
    - destruct (warn_once_case (u "pure-insert-trailing:" ++ range_text z.1 z.2)
        (pure_insert_warning (u "end") (u "trailing") (absorbedTrailing r) (p_sourceLineNum p) z)
        st1 True K1) as (A & K & W). rewrite A. auto.
    - split_and!; [done|done|]. apply orb_true_iff in E as [E%Z.ltb_lt|E%Z.ltb_lt]; [auto|].
      by destruct (Htr E). }
  clearbody st2. destruct H2 as (A2 & K2 & W2).
  apply (absorbs_after_warning _ st2); [done|done|].
  assert (H3 := absorbs_synthetic (fun text i =>
    Insert (cloneCursor (p_cursor p)) text (p_sourceLineNum p) i) (keptPayload r) st2).
  apply absorbs_no_delete; [|eapply absorbs_warnings|done]; [apply H3|apply H3|done]; auto;
    apply Forall_forall; intros t Hin i; rewrite Forall_forall in Ht;
    destruct (Ht t (Hkept t Hin)) as [j Hj]; by apply (af_again _ _ _ j), Hr.
Qed.

Lemma warn_if_spec (c : bool) key w st :
  keys_warned st ->
  let st' := if c then warn_once key w st else st in
  ab_absorbed st' = ab_absorbed st /\ keys_warned st' /\
  (c = true \/ ab_warnings st <> [] -> ab_warnings st' <> []) /\ (c = false -> st' = st).
Proof.
  intros Hk. destruct c; cbn.
  - destruct (warn_once_spec key w st Hk) as (A & W & K). by split_and!.
  - split_and!; [done|done| |done]. by intros [?|?].
Qed.

Lemma delete_in_file a n i : Delete a n i ∈ edits -> 1 <= line a <= zlen fileLines.
Proof.
  intros H. rewrite Forall_forall in targets_in_file. by specialize (targets_in_file _ H).
Qed.

Lemma absorbs_replacement rest g st :
  findReplacementGroup rest = Some g -> rest ⊆ edits -> keys_warned st ->
  absorbs st (absorb_replacement fileLines rest g targets st) (take (g_size g) rest).
Proof.
  intros Hg Hr Hk.
  destruct (replacement_group_spec rest g Hg) as (_ & Ht & (a & n & i & Ha & Es) & (b & m & j & Hb & Ee)).
  unfold absorb_replacement. destruct (safe_counts fileLines g targets) as [p s] eqn:Ec.
  destruct (safe_counts_spec _ _ _ _ _ Ec) as (Hp & Hs & Hsafe).
  { rewrite Es. by apply (delete_in_file a n i), Hr. }
  { rewrite Ee. by apply (delete_in_file b m j), Hr. }
  assert (Hwide : forall xs, (forall x, x ∈ xs -> g_startLine g - p <= x < g_startLine g \/
      g_endLine g < x <= g_endLine g + s) -> Forall (fun x => forall k, absorbed_from
      (deleteEditForAutoAbsorbedLine fileLines x (g_sourceLineNum g) k)) xs).
  { intros xs Hx. apply Forall_forall. intros x Hin k. destruct (Hsafe x (Hx x Hin)) as (Hn & Hf & Hm).
    rewrite Forall_forall in Ht. destruct (Ht _ Hm) as (c & l & Hl).
    eapply af_widened; [done|done|by apply Hr|done]. }
  match goal with |- context [if 0 <? p then warn_once ?k ?w st else st] =>
    destruct (warn_if_spec (0 <? p) k w st Hk) as (A1 & K1 & W1 & N1) end.
  set (st1 := if 0 <? p then _ else st) in *. clearbody st1.
  match goal with |- context [if 0 <? s then warn_once ?k ?w st1 else st1] =>
    destruct (warn_if_spec (0 <? s) k w st1 K1) as (A2 & K2 & W2 & N2) end.
  set (st2 := if 0 <? s then _ else st1) in *. clearbody st2.
  assert (Hzero : (p = 0 /\ s = 0 /\ st2 = st) \/ ab_warnings st2 <> []).
  { destruct (Z.ltb_spec 0 p); [right; apply W2; right; apply W1; by left|].
    destruct (Z.ltb_spec 0 s); [right; apply W2; by left|].
    left. rewrite N2, N1 by done. split_and!; [lia|lia|done]. }
  set (prefix := contiguousRange _ p). set (suffix := contiguousRange _ s).
  assert (H3 : absorbs st2 (emit_all (fun x => emit_synthetic
      (deleteEditForAutoAbsorbedLine fileLines x (g_sourceLineNum g))) prefix st2) []).
  { apply absorbs_synthetic; [|done|].
    - apply Hwide. intros x Hx%elem_of_seqZ. lia.
    - destruct Hzero as [(-> & _)|]; [left; done|by right]. }
  set (st3 := emit_all _ prefix st2) in *. clearbody st3.
  assert (K3 : keys_warned st3) by (destruct H3 as (? & _ & _ & _ & _ & K3); exact K3).
  pose proof (absorbs_emit_all (take (g_size g) rest) st3) as H4.
  specialize (H4 ltac:(intros e He; by apply Hr, (in_take _ _ _ He)) K3).
  set (st4 := emit_all emit _ st3) in *. clearbody st4.
  assert (K4 : keys_warned st4) by (destruct H4 as (? & _ & _ & _ & _ & K4); exact K4).
  assert (H5 : absorbs st4 (emit_all (fun x => emit_synthetic
      (deleteEditForAutoAbsorbedLine fileLines x (g_sourceLineNum g))) suffix st4) []).
  { apply absorbs_synthetic; [|done|].
    - apply Hwide. intros x Hx%elem_of_seqZ. lia.
    - destruct Hzero as [(_ & -> & _)|]; [left; done|right].
      by apply (absorbs_warnings _ _ _ H4), (absorbs_warnings _ _ _ H3). }
  pose proof (absorbs_trans _ _ _ _ _ H3 (absorbs_trans _ _ _ _ _ H4 H5)) as H.
  rewrite app_nil_r in H. destruct Hzero as [(_ & _ & ->)|Hw]; [done|].
  apply (absorbs_after_warning _ st2); [by rewrite A2, A1|done|done].
Qed.

Lemma absorbs_keys st st' es : absorbs st st' es -> keys_warned st'.
Proof. by intros (new & _ & _ & _ & _ & K). Qed.

Lemma take_group {A} (e : A) rest n :
  (0 < n)%nat -> take n (e :: rest) ++ drop (n - 1) rest = e :: rest.
Proof. destruct n as [|n]; [lia|]. intros _. simpl. by rewrite Nat.sub_0_r, take_drop. Qed.

(** ** The loop *)

Lemma absorbs_loop rest skip auto st :
  rest ⊆ edits -> keys_warned st ->
  absorbs st (absorb_loop fileLines rest skip targets auto st) (drop skip rest).
Proof.
  revert skip st. induction rest as [|e rest IH]; intros skip st Hr Hk.
  - cbn. rewrite drop_nil. exists []. rewrite app_nil_r. split_and!; try done. by left.
  - assert (Hr' : rest ⊆ edits) by (intros x Hx; apply Hr; by right).
    destruct skip as [|k]; cbn [absorb_loop drop]; [|by apply IH].
    destruct (findReplacementGroup (e :: rest)) as [g|] eqn:Eg.
    { destruct (replacement_group_spec _ _ Eg) as (Hsz & _).
      pose proof (absorbs_replacement _ _ st Eg Hr Hk) as H.
      rewrite <- (take_group e rest (g_size g)) at 2 by done.
      eapply absorbs_trans; [exact H|]. apply IH; [done|by apply absorbs_keys in H]. }
    destruct (findPureInsertGroup (e :: rest)) as [p|] eqn:Ep.
    { destruct (pure_insert_group_spec _ _ Ep) as (Hsz & _).
      pose proof (absorbs_pure_insert _ _ auto st Ep Hr Hk) as H.
      rewrite <- (take_group e rest (p_size p)) at 2 by done.
      eapply absorbs_trans; [exact H|]. apply IH; [done|by apply absorbs_keys in H]. }
    pose proof (absorbs_emit_all [e] st ltac:(set_solver) Hk) as H.
    apply (absorbs_trans _ _ _ [e] _ H). apply (IH 0%nat); [done|by apply absorbs_keys in H].
Qed.

Lemma absorb_spec auto absorbed warnings :
  absorbReplacementBoundaryDuplicates fileLines edits auto = (absorbed, warnings) ->
  Forall absorbed_from absorbed /\
  (forall e, e ∈ edits -> is_delete e = true -> e ∈ absorbed) /\
  (warnings = [] -> absorbed = edits).
Proof.
  unfold absorbReplacementBoundaryDuplicates. fold targets. intros E.
  set (st0 := Build_AbsorbState _ _ _ _) in E.
  destruct (absorbs_loop edits 0 auto st0) as (new & En & F & D & W & _); [done|by intros ?|].
  apply pair_equal_spec in E as [<- <-]. rewrite En. cbn [st0 ab_absorbed app].
  split_and!; [done|done|]. intros Hw. by destruct W as [[-> _]|W].
Qed.

Lemma absorbed_in_file absorbed : Forall absorbed_from absorbed -> Forall (in_file fileLines) absorbed.
Proof.
  intros H. eapply Forall_impl; [exact H|]. rewrite Forall_forall in targets_in_file.
  intros _ [e He|c t n i i' He|n src i c t j _ Hn _ _].
  - by apply targets_in_file.
  - exact (targets_in_file _ He).
  - exact Hn.
Qed.
End absorb.

(** ** Blocks that repeat *)

Lemma same_block_take xs i ys j k :
  0 <= i -> 0 <= j -> 0 <= k -> i + k <= zlen xs -> j + k <= zlen ys ->
  same_block xs i ys j k = true <->
  take (Z.to_nat k) (drop (Z.to_nat i) xs) = take (Z.to_nat k) (drop (Z.to_nat j) ys).
Proof.
  intros Hi Hj Hk Hx Hy.
  assert (Hat : forall (l : list jstr) m o, 0 <= m -> 0 <= o < k ->
    take (Z.to_nat k) (drop (Z.to_nat m) l) !! Z.to_nat o = at_ l (m + o)).
  { intros l m o Hm Ho. rewrite lookup_take_lt, lookup_drop by lia. unfold at_.
    rewrite (proj2 (Z.ltb_ge _ _)) by lia. f_equal. lia. }
  split; intros H.
  - apply list_eq. intros o. destruct (decide (o < Z.to_nat k)%nat) as [Ho|Ho].
    + rewrite <- (Nat2Z.id o). rewrite (Hat xs i), (Hat ys j) by lia. apply (same_block_at _ _ _ _ _ _ H). lia.
    + by rewrite !lookup_take_ge by lia.
  - unfold same_block. apply forallb_forall. intros o Ho%list_elem_of_In%elem_of_seqZ.
    apply bool_decide_eq_true. rewrite <- (Hat xs i), <- (Hat ys j) by lia. by rewrite H.
Qed.

Lemma greatest_block_max matches n k :
  2 <= k <= Z.of_nat n -> matches k = true -> k <= greatest_block matches n.
Proof.
  induction n as [|n IH]; intros Hk Hm; cbn [greatest_block]; [lia|].
  destruct ((2 <=? Z.of_nat (S n)) && matches (Z.of_nat (S n))) eqn:E; [lia|].
  destruct (Z.eq_dec k (Z.of_nat (S n))) as [->|]; [|apply IH; [lia|done]].
  rewrite Hm, andb_true_r in E. apply Z.leb_gt in E. lia.
Qed.

(** The first [k] lines of [texts] are the [k] lines of the file above the first [n]. *)
Definition block_above (fileLines texts : list jstr) (n k : Z) : Prop :=
  0 <= k <= zlen texts /\ k <= n /\ take (Z.to_nat k) texts = take (Z.to_nat k) (drop (Z.to_nat (n - k)) fileLines).
(** The last [k] lines of [texts] are the [k] lines of the file after the first [n]. *)
Definition block_below (fileLines texts : list jstr) (n k : Z) : Prop :=
  0 <= k <= zlen texts /\ k <= zlen fileLines - n /\
  drop (Z.to_nat (zlen texts - k)) texts = take (Z.to_nat k) (drop (Z.to_nat n) fileLines).

Lemma block_above_0 F l n : 0 <= n -> block_above F l n 0.
Proof. intros Hn. pose proof (zlen_nonneg l). split_and!; [lia|lia|lia|done]. Qed.
Lemma block_below_0 F l n : n <= zlen F -> block_below F l n 0.
Proof.
  intros Hn. pose proof (zlen_nonneg l). split_and!; [lia|lia|lia|]. rewrite Z.sub_0_r. cbn.
  apply drop_ge. unfold zlen. lia.
Qed.

Lemma block_above_1 F l n x : 1 <= n <= zlen F -> head l = Some x -> at_ F (n - 1) = Some x <-> block_above F l n 1.
Proof.
  intros Hn Hx. destruct l as [|y l]; [done|]. injection Hx as ->. unfold block_above, at_.
  rewrite zlen_cons. pose proof (zlen_nonneg l). rewrite (proj2 (Z.ltb_ge _ _)) by lia.
  change (Z.to_nat 1) with 1%nat. split.
  - intros E. split_and!; [lia|lia|lia|]. erewrite drop_S by exact E. done.
  - intros (_ & _ & E). destruct (lookup_lt_is_Some_2 F (Z.to_nat (n - 1))) as [z Ez]; [unfold zlen in Hn; lia|].
    erewrite drop_S in E by exact Ez. injection E as ->. by rewrite Ez.
Qed.
Lemma block_below_1 F l n x : 0 <= n < zlen F -> last l = Some x -> at_ F n = Some x <-> block_below F l n 1.
Proof.
  intros Hn Hx. apply last_split in Hx. unfold block_below, at_. rewrite Hx, zlen_snoc.
  pose proof (zlen_nonneg (removelast l)). rewrite (proj2 (Z.ltb_ge _ _)) by lia.
  replace (Z.to_nat (zlen (removelast l) + 1 - 1)) with (length (removelast l)) by (unfold zlen; lia).
  rewrite drop_app_length. change (Z.to_nat 1) with 1%nat. split.
  - intros E. split_and!; [lia|lia|lia|]. erewrite drop_S by exact E. done.
  - intros (_ & _ & E). destruct (lookup_lt_is_Some_2 F (Z.to_nat n)) as [z Ez]; [unfold zlen in Hn; lia|].
    erewrite drop_S in E by exact Ez. injection E as ->. by rewrite Ez.
Qed.

Lemma block_above_bool F l n k :
  0 <= k <= zlen l -> k <= n <= zlen F -> same_block F (n - k) l 0 k = true <-> block_above F l n k.
Proof.
  intros Hk Hn. rewrite same_block_take by lia. unfold block_above. cbn [Z.to_nat drop]. naive_solver lia.
Qed.
Lemma block_below_bool F l n k :
  0 <= k <= zlen l -> 0 <= n -> k <= zlen F - n -> same_block F n l (zlen l - k) k = true <-> block_below F l n k.
Proof.
  intros Hk Hn Hf. rewrite same_block_take by lia. unfold block_below.
  rewrite (take_ge (drop (Z.to_nat (zlen l - k)) l)) by (rewrite length_drop; unfold zlen in *; lia). naive_solver lia.
Qed.
Lemma same_block_sym xs i ys j k : same_block xs i ys j k = same_block ys j xs i k.
Proof.
  unfold same_block. apply eq_true_iff_eq. rewrite !forallb_forall.
  split; intros H x Hx; specialize (H x Hx); rewrite bool_decide_eq_true in *; done.
Qed.

Lemma greatest_block_two matches n : greatest_block matches n = 0 \/ 2 <= greatest_block matches n.
Proof.
  induction n as [|n IH]; cbn [greatest_block]; [by left|].
  destruct ((2 <=? Z.of_nat (S n)) && matches (Z.of_nat (S n))) eqn:E; [|done].
  apply andb_true_iff in E as [E _]. right. by apply Z.leb_le.
Qed.

(** A block count is the greatest from two on, or zero. *)
Definition greatest_from_two (P : Z -> Prop) (k : Z) : Prop :=
  P k /\ (k = 0 \/ 2 <= k) /\ forall j, 2 <= j -> P j -> j <= k.

Lemma greatest_block_from_two (P : Z -> Prop) matches n :
  (forall k, 0 <= k <= Z.of_nat n -> matches k = true <-> P k) -> (forall k, P k -> k <= Z.of_nat n) -> P 0 ->
  greatest_from_two P (greatest_block matches n).
Proof.
  intros Hm Hb H0. destruct (greatest_block_spec matches n) as [Hr Ht]. split_and!.
  - destruct (Z.eq_dec (greatest_block matches n) 0) as [->|]; [done|]. apply Hm; [lia|auto].
  - apply greatest_block_two.
  - intros j Hj HP. apply greatest_block_max; [split; [done|by apply Hb]|]. apply Hm; [|done].
    specialize (Hb j HP). lia.
Qed.

Lemma prefix_block_max F l a :
  1 <= a <= zlen F -> greatest_from_two (block_above F l (a - 1)) (countMatchingPrefixBlock F a l).
Proof.
  intros Ha. unfold countMatchingPrefixBlock. pose proof (zlen_nonneg l).
  apply greatest_block_from_two; [| |apply block_above_0; lia].
  - intros k Hk. replace (a - k - 1) with (a - 1 - k) by lia. apply block_above_bool; lia.
  - intros k (H1 & H2 & _). lia.
Qed.
Lemma suffix_block_max F l b :
  1 <= b <= zlen F -> greatest_from_two (block_below F l b) (countMatchingSuffixBlock F b l).
Proof.
  intros Hb. unfold countMatchingSuffixBlock. pose proof (zlen_nonneg l).
  apply greatest_block_from_two; [| |apply block_below_0; lia].
  - intros k Hk. apply block_below_bool; lia.
  - intros k (H1 & H2 & _). lia.
Qed.

(** A single line counts if it closes something and keeping it would upset the delimiters. *)
Definition single_above (F l : list jstr) (a : Z) (balance : DelimiterBalance) : Prop :=
  block_above F l (a - 1) 1 /\
  exists x, head l = Some x /\ isStructuralClosingBoundaryLine x = true /\
            shouldDropSingleStructuralBoundary l (drop 1 l) balance = true.
Definition single_below (F l : list jstr) (b : Z) (balance : DelimiterBalance) : Prop :=
  block_below F l b 1 /\
  exists x, last l = Some x /\ isStructuralClosingBoundaryLine x = true /\
            shouldDropSingleStructuralBoundary l (removelast l) balance = true.

Lemma slice_from_1 {A} (x : A) l : slice_from (x :: l) 1 = drop 1 (x :: l).
Proof. apply slice_suffix. rewrite zlen_cons. pose proof (zlen_nonneg l). lia. Qed.
Lemma slice_but_last {A} (l : list A) x : last l = Some x -> slice l 0 (-1) = removelast l.
Proof.
  intros H%last_split. assert (Hz : zlen l = zlen (removelast l) + 1) by (rewrite H at 1; apply zlen_snoc).
  pose proof (zlen_nonneg (removelast l)). unfold slice, rel_index. cbn [Z.ltb Z.compare]. rewrite Hz.
  rewrite Z.min_l, Z.max_l, Z.sub_0_r by lia. cbn [Z.to_nat drop].
  replace (Z.to_nat (zlen (removelast l) + 1 + -1)) with (length (removelast l)) by (unfold zlen; lia).
  rewrite H at 2. apply take_app_length.
Qed.

Lemma single_prefix_iff F l a bal :
  1 <= a <= zlen F ->
  let k := countMatchingSingleStructuralPrefixBoundary F a l bal in
  (k = 1 /\ single_above F l a bal) \/ (k = 0 /\ ~ single_above F l a bal).
Proof.
  intros Ha k. unfold k, countMatchingSingleStructuralPrefixBoundary, single_above.
  destruct l as [|x l]; [right; split; [done|by intros (_ & ? & ? & _)]|].
  destruct (Z.leb_spec a 1); [right; split; [done|intros ((_ & ? & _) & _); lia]|].
  pose proof (block_above_1 F (x :: l) (a - 1) x ltac:(lia) eq_refl) as Hb.
  replace (a - 1 - 1) with (a - 2) in Hb by lia. rewrite slice_from_1. cbn [head].
  destruct (isStructuralClosingBoundaryLine x) eqn:E1; cbn [negb].
  2: { right. split; [done|]. intros (_ & y & [= <-] & Hy & _). congruence. }
  case_bool_decide as E2; cbn [negb].
  2: { right. split; [done|]. intros [H1 _]. by apply E2, Hb. }
  destruct (shouldDropSingleStructuralBoundary _ _ _) eqn:E3.
  - left. split; [done|]. split; [by apply Hb|]. by exists x.
  - right. split; [done|]. intros (_ & y & _ & _ & Hy). congruence.
Qed.
Lemma single_suffix_iff F l b bal :
  1 <= b <= zlen F ->
  let k := countMatchingSingleStructuralSuffixBoundary F b l bal in
  (k = 1 /\ single_below F l b bal) \/ (k = 0 /\ ~ single_below F l b bal).
Proof.
  intros Hb k. unfold k, countMatchingSingleStructuralSuffixBoundary, single_below.
  destruct (last l) as [x|] eqn:El; [|right; split; [done|by intros (_ & ? & ? & _)]].
  destruct (Z.leb_spec (zlen F) b); [right; split; [done|intros ((_ & ? & _) & _); lia]|].
  pose proof (block_below_1 F l b x ltac:(lia) El) as Hx. rewrite (slice_but_last _ x) by done.
  destruct (isStructuralClosingBoundaryLine x) eqn:E1; cbn [negb].
  2: { right. split; [done|]. intros (_ & y & [= <-] & Hy & _). congruence. }
  case_bool_decide as E2; cbn [negb].
  2: { right. split; [done|]. intros [H1 _]. by apply E2, Hx. }
  destruct (shouldDropSingleStructuralBoundary _ _ _) eqn:E3.
  - left. split; [done|]. split; [by apply Hx|]. by exists x.
  - right. split; [done|]. intros (_ & y & _ & _ & Hy). congruence.
Qed.

Lemma above_count_block F l a bal :
  1 <= a <= zlen F ->
  block_above F l (a - 1) (or_count (countMatchingPrefixBlock F a l) (countMatchingSingleStructuralPrefixBoundary F a l bal)).
Proof.
  intros Ha. apply or_count_ind; [apply prefix_block_max; lia|].
  destruct (single_prefix_iff F l a bal Ha) as [[-> H]|[-> _]]; [apply H | apply block_above_0; lia].
Qed.
Lemma below_count_block F l b bal :
  1 <= b <= zlen F ->
  block_below F l b (or_count (countMatchingSuffixBlock F b l) (countMatchingSingleStructuralSuffixBoundary F b l bal)).
Proof.
  intros Hb. apply or_count_ind; [apply suffix_block_max; lia|].
  destruct (single_suffix_iff F l b bal Hb) as [[-> H]|[-> _]]; [apply H | apply block_below_0; lia].
Qed.

(** ** The neighbourhood of an insert *)

Lemma one_or_none (P : Z -> Prop) (b1 b2 : bool) :
  (b1 = true -> P 1) -> (b2 = true -> P 1) -> P 0 -> P (if b1 then 1 else if b2 then 1 else 0).
Proof. destruct b1; [auto|]. destruct b2; auto. Qed.

Lemma absorb_leading_block c l F n auto :
  0 <= n <= zlen F -> block_above F l n (absorb_leading c l F (n - 1) auto).
Proof.
  intros Hn. unfold absorb_leading. set (block := if auto then _ else 0).
  assert (Hb : block_above F l n block).
  { unfold block. destruct auto; [|apply block_above_0; lia].
    apply greatest_block_from_two; [| |apply block_above_0; lia]; pose proof (zlen_nonneg l).
    - intros k Hk. rewrite same_block_sym. replace (n - 1 - k + 1) with (n - k) by lia. apply block_above_bool; lia.
    - intros k (H1 & H2 & _). lia. }
  clearbody block. destruct (negb (block =? 0)); [done|].
  destruct l as [|x l]; [apply block_above_0; lia|].
  assert (H1 : (0 <=? n - 1) && (Some x === at_ F (n - 1)) = true -> block_above F (x :: l) n 1).
  { intros [E1%Z.leb_le E2%bool_decide_eq_true]%andb_true_iff. by apply (block_above_1 F (x :: l) n x ltac:(lia) eq_refl). }
  cbv zeta. apply (one_or_none (block_above F (x :: l) n)); [| |apply block_above_0; lia]; intros E.
  - apply H1. by apply andb_true_iff in E as [[_ E]%andb_true_iff _].
  - apply H1. by apply andb_true_iff in E as [[E _]%andb_true_iff _].
Qed.

Lemma absorb_trailing_block c l lead F n auto :
  0 <= n <= zlen F -> 0 <= lead <= zlen l ->
  let k := absorb_trailing c l (slice_from l lead) F n auto in block_below F l n k /\ k <= zlen l - lead.
Proof.
  intros Hn Hl. rewrite slice_suffix by done. set (r := drop (Z.to_nat lead) l).
  assert (Hr : zlen r = zlen l - lead) by (apply zlen_drop; lia). cbv zeta. unfold absorb_trailing.
  set (block := if auto then _ else 0).
  assert (Hb : block_below F l n block /\ block <= zlen l - lead).
  { unfold block. destruct auto; [|split; [apply block_below_0; lia | lia]].
    destruct (greatest_block_spec (fun k => same_block l (zlen l - k) F n k) (Z.to_nat (Z.min (zlen r) (zlen F - n)))) as [Hg Hm].
    set (g := greatest_block _ _) in *. split; [|lia]. destruct (Z.eq_dec g 0) as [->|Hne]; [apply block_below_0; lia|].
    specialize (Hm Hne). rewrite same_block_sym in Hm. apply block_below_bool in Hm; [done|lia..]. }
  clearbody block. destruct (negb (block =? 0)); [done|].
  destruct (last r) as [x|] eqn:Ex; [|split; [apply block_below_0; lia|lia]].
  assert (Hlast : last l = Some x).
  { rewrite <- (take_drop (Z.to_nat lead) l). fold r. apply last_split in Ex. rewrite Ex, app_assoc. apply last_snoc. }
  assert (1 <= zlen r) by (apply last_split in Ex; rewrite Ex, zlen_snoc; pose proof (zlen_nonneg (removelast r)); lia).
  assert (H1 : (n <? zlen F) && (Some x === at_ F n) = true -> block_below F l n 1 /\ 1 <= zlen l - lead).
  { intros [E1%Z.ltb_lt E2%bool_decide_eq_true]%andb_true_iff. split; [|lia].
    by apply (block_below_1 F l n x ltac:(lia) Hlast). }
  cbv zeta. apply (one_or_none (fun k => block_below F l n k /\ k <= zlen l - lead)); [| |split; [apply block_below_0; lia|lia]]; intros E.
  - apply H1. by apply andb_true_iff in E as [[_ E]%andb_true_iff _].
  - apply H1. by apply andb_true_iff in E as [[E _]%andb_true_iff _].
Qed.

(** ** Absorption, operation by operation *)

Definition del_line (e : HashlineEdit) : option Z :=
  match e with Delete a _ _ => Some (line a) | _ => None end.

(** [es] inserts [texts] at [c], for an operation of line [n] of the input. *)
Definition inserts (c : HashlineCursor) (n : Z) (texts : list jstr) (es : list HashlineEdit) : Prop :=
  Forall2 (fun t e => exists i, e = Insert c t n i) texts es.
(** [es] deletes the [k] lines from [a] on. *)
Definition deletes (a k : Z) (es : list HashlineEdit) : Prop :=
  Forall (fun e => is_delete e = true) es /\ omap del_line es = seqZ a k.

Section absorption.
Context (fileLines : list jstr) (targets : gset Z).

(** The number of lines above the place of an insert. *)
Definition lines_above (c : HashlineCursor) : Z :=
  match c with Bof => 0 | Eof => zlen fileLines | BeforeAnchor a => line a - 1 | AfterAnchor a => line a end.

(** What the batch becomes.  An insert loses lines at its start that are the lines of the file just above its place, and
    lines at its end that are the lines just below it.  A replacement of the lines [a] to [a + k - 1] keeps its lines and
    also deletes lines above and below the range that nothing else names and that its own lines repeat. *)
Inductive absorption : list HashlineEdit -> list HashlineEdit -> Prop :=
| abs_same es : absorption es es
| abs_app es1 ks1 es2 ks2 : absorption es1 ks1 -> absorption es2 ks2 -> absorption (es1 ++ es2) (ks1 ++ ks2)
| abs_insert c n above kept below es ks before after :
    inserts c n (above ++ kept ++ below) es -> inserts c n kept ks ->
    fileLines = before ++ above ++ below ++ after -> zlen (before ++ above) = lines_above c ->
    absorption es ks
| abs_replace es a k above below rest1 rest2 old before after pre suf :
    omap insert_text es = above ++ rest1 -> omap insert_text es = rest2 ++ below ->
    omap del_line es = seqZ a k -> zlen old = k -> zlen (before ++ above) = a - 1 ->
    fileLines = before ++ above ++ old ++ below ++ after ->
    deletes (a - zlen above) (zlen above) pre -> deletes (a + k) (zlen below) suf ->
    (forall n, n ∈ targets -> ~ (a - zlen above <= n < a \/ a + k <= n < a + k + zlen below)) ->
    absorption es (pre ++ es ++ suf).
End absorption.

Lemma emit_all_absorbed es st : ab_absorbed (emit_all emit es st) = ab_absorbed st ++ es.
Proof.
  unfold emit_all. revert st. induction es as [|e es IH]; intros st; cbn [fold_left].
  - by rewrite app_nil_r.
  - rewrite IH. cbn. by rewrite <- app_assoc.
Qed.

Lemma emit_deletes_absorbed {bun : BunHash} fileLines src ns st :
  exists es, ab_absorbed (emit_all (fun n => emit_synthetic
      (deleteEditForAutoAbsorbedLine fileLines n src)) ns st) = ab_absorbed st ++ es /\
    Forall (fun e => is_delete e = true) es /\ omap del_line es = ns.
Proof.
  unfold emit_all. revert st. induction ns as [|n ns IH]; intros st; cbn [fold_left].
  - exists []. by rewrite app_nil_r.
  - destruct (IH (emit_synthetic (deleteEditForAutoAbsorbedLine fileLines n src) st)) as (es & E & F & L).
    eexists (_ :: es). rewrite E. cbn. rewrite <- app_assoc. split; [done|].
    split; [by constructor|]. by f_equal.
Qed.

Lemma emit_inserts_absorbed c src texts st :
  exists es, ab_absorbed (emit_all (fun text => emit_synthetic (fun i => Insert c text src i)) texts st)
    = ab_absorbed st ++ es /\ inserts c src texts es.
Proof.
  unfold emit_all. revert st. induction texts as [|t texts IH]; intros st; cbn [fold_left].
  - exists []. rewrite app_nil_r. by split; [|constructor].
  - destruct (IH (emit_synthetic (fun i => Insert c t src i) st)) as (es & E & F).
    eexists (_ :: es). rewrite E. cbn. rewrite <- app_assoc. split; [done|]. constructor; [by eexists|done].
Qed.

Lemma warn_once_absorbed k w st : ab_absorbed (warn_once k w st) = ab_absorbed st.
Proof. unfold warn_once. by case_bool_decide. Qed.

(** The edits of a group are the ones that are handed on. *)
Lemma insert_run_take src c rest texts rest' :
  insert_run src c rest = (texts, rest') -> inserts c src texts (take (length texts) rest).
Proof.
  revert texts rest'. induction rest as [|e rest IH]; intros texts rest' H; [by injection H as <- <-; constructor|].
  destruct e as [c' t n i|a n i]; [|injection H as <- <-; constructor]. cbn in H.
  destruct ((n =? src) && cursorMatches c' c) eqn:Em; [|injection H as <- <-; constructor].
  apply andb_true_iff in Em as [->%Z.eqb_eq ->%cursorMatches_eq].
  destruct (insert_run src c rest) as [ts r] eqn:E. injection H as <- <-. constructor; [by eexists|]. by apply (IH ts r).
Qed.

Lemma pure_insert_take rest p :
  findPureInsertGroup rest = Some p -> inserts (p_cursor p) (p_sourceLineNum p) (p_payload p) (take (p_size p) rest).
Proof.
  unfold findPureInsertGroup. destruct rest as [|[c t src i|a n i] rest]; try done.
  destruct (insert_run src c (Insert c t src i :: rest)) as [texts rest'] eqn:E. apply insert_run_take in E.
  intros H. assert (p = {| p_size := length texts; p_sourceLineNum := src; p_cursor := c; p_payload := texts |}) as ->; [|done].
  destruct rest' as [|[? ? ? ?|? m ?] ?]; [| |destruct (m =? src)]; congruence.
Qed.

Lemma replacement_run_take src rest texts rest' :
  replacement_run src rest = (texts, rest') ->
  exists ins, rest = ins ++ rest' /\ length ins = length texts /\ omap insert_text ins = texts /\ omap del_line ins = [].
Proof.
  revert texts rest'. induction rest as [|e rest IH]; intros texts rest' H; [by injection H as <- <-; exists []|].
  destruct e as [[| |a|a] t n i|a n i]; try by (injection H as <- <-; exists []).
  cbn in H. destruct (n =? src); [|by injection H as <- <-; exists []].
  destruct (replacement_run src rest) as [ts r] eqn:E. injection H as <- <-.
  destruct (IH ts r eq_refl) as (ins & -> & H1 & H2 & H3). eexists (_ :: ins).
  split_and!; [done|cbn; by f_equal|cbn; by f_equal|done].
Qed.

Lemma delete_run_take src rest :
  exists del rest', rest = del ++ rest' /\ length del = length (delete_run src rest) /\ omap insert_text del = [] /\
    omap del_line del = map (fun d => line (d_anchor d)) (delete_run src rest).
Proof.
  induction rest as [|[c t n i|a n i] rest IH]; cbn [delete_run]; [by exists [], []|by exists []; eexists|].
  destruct (n =? src); [|by exists []; eexists]. destruct IH as (del & rest' & E & H1 & H2 & H3).
  eexists (_ :: del), rest'. split_and!; [by rewrite E at 1|cbn; by f_equal|done|cbn; by f_equal].
Qed.

Lemma consecutive_lines n ds : consecutive n ds = true -> map (fun d => line (d_anchor d)) ds = seqZ n (zlen ds).
Proof.
  revert n. induction ds as [|d ds IH]; intros n H; [done|]. cbn in H. apply andb_true_iff in H as [Hd%Z.eqb_eq H].
  rewrite zlen_cons. pose proof (zlen_nonneg ds). rewrite seqZ_cons by lia. cbn. rewrite Hd. f_equal.
  rewrite (IH _ H). f_equal; lia.
Qed.

Lemma replacement_take rest g :
  findReplacementGroup rest = Some g ->
  let es := take (g_size g) rest in
  omap insert_text es = g_replacement g /\ g_startLine g <= g_endLine g /\
  omap del_line es = seqZ (g_startLine g) (g_endLine g - g_startLine g + 1).
Proof.
  unfold findReplacementGroup. destruct rest as [|[[| |a|a] t src i|a n i] rest]; try done.
  set (whole := _ :: rest). destruct (replacement_run src whole) as [texts rest'] eqn:E.
  destruct (replacement_run_take _ _ _ _ E) as (ins & -> & H1 & H2 & H3).
  destruct (delete_run_take src rest') as (del & rest'' & E' & H4 & H5 & H6).
  destruct (delete_run src rest') as [|d ds] eqn:Ed; [done|].
  destruct (consecutive (line (d_anchor d)) (d :: ds)) eqn:Ec; [|done]. destruct (line a =? _); [|done].
  cbn [andb]. intros <-%(inj Some). cbv zeta. cbn [g_size g_replacement]. apply consecutive_lines in Ec.
  unfold g_startLine, g_endLine. cbn [g_deletes head].
  assert (Hend : match last (d :: ds) with Some d' => line (d_anchor d') | None => 0 end = line (d_anchor d) + zlen ds).
  { destruct (last (d :: ds)) as [d'|] eqn:El; [|by apply last_None in El].
    assert (Hl : last (map (fun d => line (d_anchor d)) (d :: ds)) = Some (line (d_anchor d'))) by (rewrite fmap_last; by rewrite El).
    rewrite Ec, zlen_cons, (Z.add_comm 1), seqZ_app in Hl by (pose proof (zlen_nonneg ds); lia).
    change (seqZ ?x 1) with [x] in Hl. rewrite last_snoc in Hl. by injection Hl as <-. }
  rewrite Hend. pose proof (zlen_nonneg ds).
  rewrite <- H1, <- H4, <- length_app, E', app_assoc, take_app_length, !omap_app, H2, H3, H5, H6, Ec, app_nil_r.
  split_and!; [done|lia|]. cbn [app]. rewrite zlen_cons. f_equal. lia.
Qed.

(** ** What absorption does *)

Lemma block_above_split F l n k :
  0 <= n <= zlen F -> block_above F l n k ->
  take (Z.to_nat n) F = take (Z.to_nat (n - k)) F ++ take (Z.to_nat k) l /\ zlen (take (Z.to_nat k) l) = k.
Proof.
  intros Hn (H1 & H2 & E). split; [|apply zlen_take; lia]. rewrite E.
  rewrite <- (take_drop (Z.to_nat (n - k)) (take (Z.to_nat n) F)), take_take, Nat.min_l by lia. f_equal.
  rewrite skipn_firstn_comm. f_equal. lia.
Qed.
Lemma block_below_split F l n k :
  0 <= n <= zlen F -> block_below F l n k ->
  drop (Z.to_nat n) F = drop (Z.to_nat (zlen l - k)) l ++ drop (Z.to_nat (n + k)) F /\ zlen (drop (Z.to_nat (zlen l - k)) l) = k.
Proof.
  intros Hn (H1 & H2 & E). split; [|rewrite zlen_drop; lia]. rewrite E.
  rewrite <- (take_drop (Z.to_nat k) (drop (Z.to_nat n) F)) at 1. f_equal. rewrite drop_drop. f_equal. lia.
Qed.

Section absorption_spec.
Context {bun : BunHash} (fileLines : list jstr) (targets : gset Z).

Lemma lines_above_bounds c t n i : in_file fileLines (Insert c t n i) -> 0 <= lines_above fileLines c <= zlen fileLines.
Proof. pose proof (zlen_nonneg fileLines). destruct c; unfold in_file, lines_above; cbn; lia. Qed.

Lemma neighborhood_lines c : pureInsertNeighborhood c fileLines = (lines_above fileLines c - 1, lines_above fileLines c).
Proof. destruct c; cbn; f_equal; lia. Qed.

Lemma absorption_insert rest p auto st :
  findPureInsertGroup rest = Some p -> Forall (in_file fileLines) rest ->
  exists new, ab_absorbed (absorb_pure_insert fileLines rest p auto st) = ab_absorbed st ++ new /\
    absorption fileLines targets (take (p_size p) rest) new.
Proof.
  intros Hp Hf. pose proof (pure_insert_take _ _ Hp) as Hes. destruct (pure_insert_group_spec rest p Hp) as (Hsz & _).
  unfold absorb_pure_insert, tryAbsorbPureInsertGroup. rewrite neighborhood_lines.
  set (l := p_payload p) in *. set (n := lines_above fileLines (p_cursor p)).
  set (lead := absorb_leading _ l fileLines (n - 1) auto). set (trail := absorb_trailing _ l _ fileLines n auto).
  destruct (zlen l =? 0); cbn [absorbedLeading absorbedTrailing Z.ltb Z.compare orb];
    [exists (take (p_size p) rest); split; [apply emit_all_absorbed | apply abs_same]|].
  assert (Hn : 0 <= n <= zlen fileLines).
  { destruct rest as [|e rest]; [done|]. apply Forall_cons in Hf as [He _]. destruct (p_size p) as [|k]; [lia|].
    unfold inserts in Hes. cbn [take] in Hes. inversion Hes as [|t ? ts ? [i ->]]; subst. by apply lines_above_bounds in He. }
  pose proof (absorb_leading_block (p_cursor p) l fileLines n auto Hn) as Ha. fold lead in Ha.
  assert (Hlead : 0 <= lead <= zlen l) by (destruct Ha as (? & _); lia).
  destruct (absorb_trailing_block (p_cursor p) l lead fileLines n auto Hn Hlead) as [Hb Hlt]. fold trail in Hb, Hlt.
  assert (Htr : 0 <= trail) by (destruct Hb as (? & _); lia).
  destruct ((lead =? 0) && (trail =? 0)); cbn [absorbedLeading absorbedTrailing Z.ltb Z.compare orb];
    [exists (take (p_size p) rest); split; [apply emit_all_absorbed | apply abs_same]|].
  destruct (_ || _); [|exists (take (p_size p) rest); split; [apply emit_all_absorbed | apply abs_same]].
  cbn [leadingFileRange trailingFileRange keptPayload]. set (st1 := match _ with Some _ => _ | None => st end).
  set (st2 := match _ with Some _ => _ | None => st1 end).
  destruct (emit_inserts_absorbed (p_cursor p) (p_sourceLineNum p) (slice l lead (zlen l - trail)) st2) as (ks & E & Hks).
  exists ks. unfold cloneCursor. rewrite E. split.
  { f_equal. unfold st2, st1. destruct (0 <? trail), (0 <? lead); by rewrite ?warn_once_absorbed. }
  destruct (block_above_split fileLines l n lead Hn Ha) as [Eu Lu]. destruct (block_below_split fileLines l n trail Hn Hb) as [Ed Ld].
  apply (abs_insert _ _ (p_cursor p) (p_sourceLineNum p) (take (Z.to_nat lead) l) (slice l lead (zlen l - trail))
    (drop (Z.to_nat (zlen l - trail)) l) _ _ (take (Z.to_nat (n - lead)) fileLines) (drop (Z.to_nat (n + trail)) fileLines)); [|done| |].
  - rewrite slice_spec by lia. replace (drop (Z.to_nat (zlen l - trail)) l)
      with (drop (Z.to_nat (zlen l - trail - lead)) (drop (Z.to_nat lead) l)) by (rewrite drop_drop; f_equal; lia).
    by rewrite !take_drop.
  - rewrite <- Ed, app_assoc, <- Eu. symmetry. apply take_drop.
  - rewrite zlen_app, Lu, zlen_take by (destruct Ha as (? & ? & _); lia). unfold n. lia.
Qed.

Lemma absorption_replacement rest g st :
  findReplacementGroup rest = Some g -> Forall (in_file fileLines) rest ->
  exists new, ab_absorbed (absorb_replacement fileLines rest g targets st) = ab_absorbed st ++ new /\
    absorption fileLines targets (take (g_size g) rest) new.
Proof.
  intros Hg Hf. destruct (replacement_take rest g Hg) as (Ht & Hle & Hd).
  destruct (replacement_group_spec rest g Hg) as (_ & _ & (x & n & i & Hx & Es) & (y & m & j & Hy & Ee)).
  rewrite Forall_forall in Hf. pose proof (Hf _ Hx) as Ha. pose proof (Hf _ Hy) as Hb. unfold in_file in Ha, Hb.
  cbn in Ha, Hb. rewrite <- Es in Ha. rewrite <- Ee in Hb.
  unfold absorb_replacement. destruct (safe_counts fileLines g targets) as [p s] eqn:Ec.
  set (a := g_startLine g) in *. set (b := g_endLine g) in *. set (l := g_replacement g) in *.
  destruct (safe_counts_spec _ _ _ _ _ Ec Ha Hb) as (Hp & Hs & Hsafe). fold a b in Hsafe.
  assert (Hblocks : block_above fileLines l (a - 1) p /\ block_below fileLines l b s).
  { unfold safe_counts in Ec. fold a b l in Ec. set (bal := computeDelimiterBalance _) in Ec.
    pose proof (above_count_block fileLines l a bal Ha). pose proof (below_count_block fileLines l b bal Hb).
    apply pair_equal_spec in Ec as [Ep' Es']. clear Hsafe Hp Hs.
    split; [rewrite <- Ep' | rewrite <- Es']; clear Ep' Es'; destruct (hasExternalTargets _ _); try done; [apply block_above_0; lia | apply block_below_0; lia]. }
  destruct Hblocks as [Hu Hw]. set (st1 := if 0 <? p then _ else st). set (st2 := if 0 <? s then _ else st1).
  destruct (emit_deletes_absorbed fileLines (g_sourceLineNum g) (contiguousRange (a - p) p) st2) as (pre & E3 & F3 & L3).
  set (st3 := emit_all _ _ st2) in *.
  destruct (emit_deletes_absorbed fileLines (g_sourceLineNum g) (contiguousRange (b + 1) s)
    (emit_all emit (take (g_size g) rest) st3)) as (suf & E5 & F5 & L5).
  exists (pre ++ take (g_size g) rest ++ suf). split.
  { rewrite E5, emit_all_absorbed, E3. unfold st2, st1.
    destruct (0 <? s), (0 <? p); rewrite ?warn_once_absorbed, <- !app_assoc; done. }
  destruct (block_above_split fileLines l (a - 1) p ltac:(lia) Hu) as [Eu Lu].
  destruct (block_below_split fileLines l b s ltac:(lia) Hw) as [Ed Ld].
  apply (abs_replace _ _ _ a (b - a + 1) (take (Z.to_nat p) l) (drop (Z.to_nat (zlen l - s)) l) (drop (Z.to_nat p) l)
    (take (Z.to_nat (zlen l - s)) l) (take (Z.to_nat (b - a + 1)) (drop (Z.to_nat (a - 1)) fileLines))
    (take (Z.to_nat (a - 1 - p)) fileLines) (drop (Z.to_nat (b + s)) fileLines)).
  - by rewrite take_drop.
  - by rewrite take_drop.
  - done.
  - rewrite zlen_take; [lia|]. rewrite zlen_drop by lia. lia.
  - rewrite zlen_app, Lu, zlen_take by (destruct Hu as (? & ? & _); lia). lia.
  - rewrite <- Ed, app_assoc, <- Eu.
    replace (drop (Z.to_nat b) fileLines) with (drop (Z.to_nat (b - a + 1)) (drop (Z.to_nat (a - 1)) fileLines))
      by (rewrite drop_drop; f_equal; lia). by rewrite !take_drop.
  - rewrite Lu. by split.
  - rewrite Ld. replace (a + (b - a + 1)) with (b + 1) by lia. by split.
  - rewrite Lu, Ld. intros k Hk Hr. destruct (Hsafe k) as [Hn _]; [|done]. lia.
Qed.

Lemma absorption_loop rest skip auto st :
  Forall (in_file fileLines) rest ->
  exists new, ab_absorbed (absorb_loop fileLines rest skip targets auto st) = ab_absorbed st ++ new /\
    absorption fileLines targets (drop skip rest) new.
Proof.
  revert skip st. induction rest as [|e rest IH]; intros skip st Hf.
  { exists []. cbn. rewrite app_nil_r, drop_nil. split; [done | apply abs_same]. }
  pose proof Hf as [_ Hf']%Forall_cons.
  destruct skip as [|k]; cbn [absorb_loop drop]; [|by apply IH].
  assert (Hstep : forall es k st', (exists new, ab_absorbed st' = ab_absorbed st ++ new /\ absorption fileLines targets es new) ->
    es ++ drop k rest = e :: rest -> exists new,
    ab_absorbed (absorb_loop fileLines rest k targets auto st') = ab_absorbed st ++ new /\
    absorption fileLines targets (e :: rest) new).
  { intros es k st' (new & E & H) Ees. destruct (IH k st' Hf') as (new' & E' & H').
    exists (new ++ new'). rewrite E', E, <- app_assoc. split; [done|]. rewrite <- Ees. by apply abs_app. }
  destruct (findReplacementGroup (e :: rest)) as [g|] eqn:Eg.
  { destruct (replacement_group_spec _ _ Eg) as (Hsz & _).
    apply (Hstep (take (g_size g) (e :: rest))); [by apply absorption_replacement | by apply take_group]. }
  destruct (findPureInsertGroup (e :: rest)) as [p|] eqn:Ep.
  { destruct (pure_insert_group_spec _ _ Ep) as (Hsz & _).
    apply (Hstep (take (p_size p) (e :: rest))); [by apply absorption_insert | by apply take_group]. }
  apply (Hstep [e]); [|done]. exists [e]. split; [done | apply abs_same].
Qed.
End absorption_spec.

Lemma absorption_all {bun : BunHash} fileLines edits auto :
  Forall (in_file fileLines) edits ->
  absorption fileLines (collectAnchorTargetLines edits) edits (fst (absorbReplacementBoundaryDuplicates fileLines edits auto)).
Proof.
  intros Hf. unfold absorbReplacementBoundaryDuplicates. set (st0 := Build_AbsorbState _ _ _ _).
  destruct (absorption_loop fileLines (collectAnchorTargetLines edits) edits 0 auto st0 Hf) as (new & E & H).
  cbn [fst]. by rewrite E.
Qed.
