(* ===== verification/HashlineParse.v ===== *)
(** * Reading what was printed: anchors and edit operations

    Anchors that the printers of hash.ts show are read back by parser.ts and anchors.ts, and the
    text of a list of operations parses to the edits it stands for.  [op_lines] is the reference
    printer of operations, the form that the prompt asks the model to write. *)
From S2P Require Import Prelude Json Hashline.
#[local] Open Scope Z_scope.
#[local] Open Scope js_scope.

(** ** The shape of hashes *)

Definition two_letters (h : jstr) : bool :=
  match h with [a; b] => is_lower a && is_lower b | _ => false end.

Lemma bigrams_two_letters : forallb two_letters HL_BIGRAMS = true.
Proof. vm_compute. reflexivity. Qed.

Section hash.
Context {bun : BunHash}.

(** The hash of a line is one of the bigrams: the index is in range. *)
Lemma computeLineHash_elem n l : computeLineHash n l ∈ HL_BIGRAMS.
Proof.
  unfold computeLineHash. set (h := xxHash32 _).
  pose proof (Z.mod_pos_bound h HL_BIGRAMS_COUNT ltac:(done)) as Hb.
  destruct (at_ HL_BIGRAMS (h mod HL_BIGRAMS_COUNT)) as [x|] eqn:E.
  - unfold at_ in E. destruct (_ <? 0); [done|]. by apply list_elem_of_lookup_2 in E.
  - exfalso. unfold at_ in E. rewrite (proj2 (Z.ltb_ge _ _)) in E by lia.
    apply lookup_ge_None in E. change HL_BIGRAMS_COUNT with (Z.of_nat (length HL_BIGRAMS)) in *. lia.
Qed.

Lemma computeLineHash_letters n l : two_letters (computeLineHash n l) = true.
Proof.
  pose proof bigrams_two_letters as H. rewrite forallb_forall in H.
  apply H, list_elem_of_In, computeLineHash_elem.
Qed.

(** Only the text counts, less its carriage returns and the white space at its end. *)
Lemma computeLineHash_shift n m l : computeLineHash n l = computeLineHash m l.
Proof. done. Qed.
End hash.

Lemma two_letters_inv h :
  two_letters h = true -> exists a b, h = [a; b] /\ is_lower a = true /\ is_lower b = true.
Proof. destruct h as [|a [|b [|]]]; try done. intros [H1 H2]%andb_true_iff. by exists a, b. Qed.

Lemma lower_not_digit c : is_lower c = true -> is_digit c = false.
Proof. unfold is_lower, is_digit. lia. Qed.
Lemma lower_not_ws c : is_lower c = true -> is_ws c = false.
Proof. unfold is_lower, is_ws. lia. Qed.
Lemma digit_not_deco c : is_digit c = true -> is_deco c = false.
Proof. unfold is_digit, is_deco. lia. Qed.

(** ** Anchors *)

Definition wf_anchor (a : Anchor) : Prop := 1 <= line a /\ two_letters (hash a) = true.
Definition anchor_text (a : Anchor) : jstr := num_to_str (line a) ++ hash a.

(** The first digit of a positive number is not zero. *)
Lemma dec_digits_head fuel n acc d ds :
  1 <= n < 10 ^ Z.of_nat fuel -> dec_digits fuel n acc = d :: ds -> d <> 48.
Proof.
  revert n acc. induction fuel as [|f IH]; intros n acc Hn.
  - rewrite Z.pow_0_r in Hn. lia.
  - cbn [dec_digits]. destruct (Z.ltb_spec n 10).
    + rewrite Z.mod_small by lia. intros [= <- _]. lia.
    + apply IH. rewrite Nat2Z.inj_succ, Z.pow_succ_r in Hn by lia.
      assert (1 <= n / 10) by (apply Z.div_le_lower_bound; lia). split; [lia|]. apply Z.div_lt_upper_bound; lia.
Qed.

Lemma num_to_str_pos n :
  1 <= n -> num_to_str n = nat_to_str n /\ exists d ds, nat_to_str n = d :: ds /\
    is_digit d = true /\ d <> 48 /\ Forall (fun c => is_digit c = true) ds.
Proof.
  intros Hn. unfold num_to_str. rewrite (proj2 (Z.ltb_ge _ _)) by lia. split; [done|].
  destruct (nat_to_str_spec n) as (_ & Hne & Hd); [lia|].
  destruct (nat_to_str n) as [|d ds] eqn:E; [done|]. apply Forall_cons in Hd as [? ?].
  exists d, ds. split_and!; try done. apply (dec_digits_head (S (Z.to_nat (Z.log2 n))) n [] d ds); [|exact E].
  split; [done|]. apply log2_fuel. lia.
Qed.

Lemma skip_decoration_digit d r : is_digit d = true -> skip_decoration (d :: r) = d :: r.
Proof.
  intros Hd. unfold skip_decoration. cbn.
  rewrite (digit_not_ws d Hd). cbn. rewrite (digit_not_deco d Hd). cbn. by rewrite (digit_not_ws d Hd).
Qed.

Lemma skip_mark c d r :
  is_digit d = true -> is_ws c = true \/ (is_ws c = false /\ is_deco c = true) ->
  skip_decoration (c :: d :: r) = d :: r.
Proof.
  intros Hd Hc. unfold skip_decoration. cbn [drop_while].
  pose proof (digit_not_ws d Hd) as Hw. pose proof (digit_not_deco d Hd) as Hk.
  destruct Hc as [->|[-> Hc]]; cbn [drop_while].
  - rewrite Hw. cbn [drop_while]. rewrite Hk. cbn [drop_while]. by rewrite Hw.
  - rewrite Hc. cbn [drop_while]. rewrite Hk. cbn [drop_while]. by rewrite Hw.
Qed.

Lemma match_hash_letters h tail : two_letters h = true -> match_hash (h ++ tail) = Some (h, tail).
Proof. intros (a & b & -> & Ha & Hb)%two_letters_inv. cbn. by rewrite Ha, Hb. Qed.

(** Cutting a printed anchor at its number. *)
Lemma anchor_text_scan a tail :
  wf_anchor a ->
  exists d ds, anchor_text a ++ tail = d :: ds /\ is_digit d = true /\ d <> 48 /\
    take_while is_digit (d :: ds) = nat_to_str (line a) /\
    drop_while is_digit (d :: ds) = hash a ++ tail.
Proof.
  intros [Hl Hh]. unfold anchor_text. destruct (num_to_str_pos _ Hl) as (-> & d & ds & E & Hd & Hd0 & Hds).
  apply two_letters_inv in Hh as (x & y & -> & Hx & Hy).
  exists d, (ds ++ x :: y :: tail). rewrite E.
  split_and!; [by rewrite <- app_assoc|done|done| |].
  - apply (take_while_app _ (d :: ds)); [by constructor|]. by apply lower_not_digit.
  - apply (drop_while_app _ (d :: ds)); [by constructor|]. by apply lower_not_digit.
Qed.

Definition lid_tail_ok (tail : jstr) : Prop :=
  tail = [] \/ exists t, tail = HL_BODY_SEP :: t /\ Forall (fun c => is_dot c = true) t.

Lemma lid_match_spec pre a tail :
  wf_anchor a -> lid_tail_ok tail ->
  skip_decoration (pre ++ anchor_text a ++ tail) = anchor_text a ++ tail ->
  lid_match (pre ++ anchor_text a ++ tail) = Some (nat_to_str (line a), hash a).
Proof.
  intros Ha Ht Hs. unfold lid_match. rewrite Hs.
  destruct (anchor_text_scan a tail Ha) as (d & ds & -> & Hd & Hd0 & -> & ->).
  destruct Ha as [Hl Hh]. rewrite match_hash_letters by done.
  destruct (num_to_str_pos _ Hl) as (_ & d' & ds' & E & _ & ? & _). rewrite E.
  rewrite (proj2 (Z.eqb_neq _ _)) by done.
  destruct Ht as [->|(t & -> & Hdots)]; [done|]. cbn. by rewrite drop_while_full.
Qed.

Lemma skip_plain a tail : wf_anchor a -> skip_decoration (anchor_text a ++ tail) = anchor_text a ++ tail.
Proof.
  intros Ha. destruct (anchor_text_scan a tail Ha) as (d & ds & -> & Hd & _).
  by apply skip_decoration_digit.
Qed.

Lemma parse_dec_line a : wf_anchor a -> parse_dec (nat_to_str (line a)) = line a.
Proof. intros [Hl _]. apply nat_to_str_spec. lia. Qed.

Lemma parseLid_spec a tail n :
  wf_anchor a -> lid_tail_ok tail -> parseLid (anchor_text a ++ tail) n = Ok a.
Proof.
  intros Ha Ht. pose proof (lid_match_spec [] a tail Ha Ht (skip_plain a tail Ha)) as E. simpl app in E.
  unfold parseLid. rewrite E.
  rewrite parse_dec_line by done. by destruct a.
Qed.

Lemma parseTag_spec pre a tail :
  wf_anchor a -> skip_decoration (pre ++ anchor_text a ++ tail) = anchor_text a ++ tail ->
  parseTag (pre ++ anchor_text a ++ tail) = Ok a.
Proof.
  intros Ha Hs. unfold parseTag. rewrite Hs.
  destruct (anchor_text_scan a tail Ha) as (d & ds & -> & Hd & Hd0 & -> & ->).
  rewrite match_hash_letters by apply Ha.
  destruct (num_to_str_pos _ (proj1 Ha)) as (_ & d' & ds' & E & _). rewrite E, <- E.
  rewrite parse_dec_line by done. rewrite (proj2 (Z.ltb_ge _ _)) by apply Ha. by destruct a.
Qed.

(** The marks that the displays put before an anchor. *)
Definition display_marks : list jstr := [[]; u " "; u "*"; u ">"; u "+"; u "-"].

Lemma skip_marks m a tail :
  wf_anchor a -> m ∈ display_marks ->
  skip_decoration (m ++ anchor_text a ++ tail) = anchor_text a ++ tail.
Proof.
  intros Ha Hm. destruct (anchor_text_scan a tail Ha) as (d & ds & -> & Hd & _).
  apply list_elem_of_In in Hm. repeat (destruct Hm as [<-|Hm]); [..|by destruct Hm];
    [by apply skip_decoration_digit|..]; apply (skip_mark _ d ds Hd); auto.
Qed.

Definition line_anchor {bun : BunHash} (n : Z) (text : jstr) : Anchor :=
  {| line := n; hash := computeLineHash n text |}.

Lemma line_anchor_wf {bun : BunHash} n text : 1 <= n -> wf_anchor (line_anchor n text).
Proof. split; [done|]. apply computeLineHash_letters. Qed.

Lemma formatHashLine_eq {bun : BunHash} n text :
  formatHashLine n text = anchor_text (line_anchor n text) ++ HL_BODY_SEP :: text.
Proof. unfold formatHashLine, anchor_text. by rewrite <- !app_assoc. Qed.

(** Every anchor that a display shows is read back as that line and hash: alone, before the text
    of its line and after a display mark; and the file it was shown for accepts it. *)
Theorem shown_anchors_are_read {bun : BunHash} n text m k :
  1 <= n -> m ∈ display_marks ->
  parseLid (formatLineHash n text) k = Ok (line_anchor n text) /\
  (Forall (fun c => is_dot c = true) text ->
   lid_match (m ++ formatHashLine n text) = Some (nat_to_str n, computeLineHash n text) /\
   parseLid (formatHashLine n text) k = Ok (line_anchor n text)) /\
  parseTag (m ++ formatHashLine n text) = Ok (line_anchor n text) /\
  (forall fileLines, n <= zlen fileLines -> file_line fileLines n = text ->
   validateLineRef (line_anchor n text) fileLines = Ok tt).
Proof.
  intros Hn Hm. pose proof (line_anchor_wf n text Hn) as Ha. split_and!.
  - pose proof (parseLid_spec _ [] k Ha) as H. rewrite app_nil_r in H. apply H. by left.
  - intros Hd. rewrite formatHashLine_eq.
    assert (Ht : lid_tail_ok (HL_BODY_SEP :: text)) by (right; eauto). split.
    + apply lid_match_spec; [done|done|]. by apply skip_marks.
    + by apply parseLid_spec.
  - rewrite formatHashLine_eq. apply parseTag_spec; [done|]. by apply skip_marks.
  - intros fileLines Hle Hf. unfold validateLineRef. cbn.
    rewrite (proj2 (Z.ltb_ge n 1)), (proj2 (Z.ltb_ge _ n)) by lia. cbn. rewrite Hf.
    by rewrite bool_decide_eq_true_2.
Qed.

(** ** The text of operations *)

Inductive Target := TBof | TEof | TAnchor (a : Anchor).

Inductive Op :=
| OpInsert (kind : InsertKind) (target : Target) (payload : list jstr)
| OpReplace (from to : Anchor) (payload : list jstr).

Definition target_text (t : Target) : jstr :=
  match t with TBof => u "BOF" | TEof => u "EOF" | TAnchor a => anchor_text a end.

Definition target_cursor (kind : InsertKind) (t : Target) : HashlineCursor :=
  match t, kind with
  | TBof, _ => Bof
  | TEof, _ => Eof
  | TAnchor a, KindBefore => BeforeAnchor a
  | TAnchor a, KindAfter => AfterAnchor a
  end.

Definition sigil (kind : InsertKind) : jchar :=
  match kind with KindBefore => HL_OP_INSERT_BEFORE | KindAfter => HL_OP_INSERT_AFTER end.

Definition range_lines (from to : Anchor) : jstr :=
  if decide (from = to) then anchor_text from else anchor_text from ++ u ".." ++ anchor_text to.

(** The lines of an operation: the operation line and its payload. *)
Definition op_lines (op : Op) : list jstr :=
  match op with
  | OpInsert kind t payload => (sigil kind :: target_text t) :: payload
  | OpReplace from to payload => (HL_OP_REPLACE :: range_lines from to) :: payload
  end.

Definition print_ops (ops : list Op) : jstr :=
  concat (map (fun l => l ++ [NL]) (flat_map op_lines ops)).

(** A payload line that is not taken for something else. *)
Definition payload_line (l : jstr) : Prop :=
  no_char NL l /\ strip_cr l = l /\ isPayloadTerminatorLine l = false.

Definition wf_op (op : Op) : Prop :=
  match op with
  | OpInsert _ t payload =>
      (forall a, t = TAnchor a -> wf_anchor a) /\ payload <> [] /\ Forall payload_line payload
  | OpReplace from to payload =>
      wf_anchor from /\ wf_anchor to /\ line from <= line to /\
      (line from = line to -> hash from = hash to) /\ Forall payload_line payload
  end.

(** What the operation asks for, pushed on the edits read so far. *)
Definition op_effect (op : Op) (lineNum : Z) (st : ParseState) : ParseState :=
  match op with
  | OpInsert kind t payload =>
      push_all (fun text => pushInsert (target_cursor kind t) text lineNum) payload st
  | OpReplace from to payload =>
      push_all (fun a => pushDelete a lineNum) (expandRange {| start := from; end_ := to |})
        (push_all (fun text => pushInsert (BeforeAnchor from) text lineNum) payload st)
  end.

Fixpoint ops_effect (ops : list Op) (lineNum : Z) (st : ParseState) : ParseState :=
  match ops with
  | [] => st
  | op :: ops' => ops_effect ops' (lineNum + zlen (op_lines op)) (op_effect op lineNum st)
  end.

(** ** Scanning an operation line *)

Lemma anchor_text_chars a :
  wf_anchor a -> Forall (fun c => is_digit c = true \/ is_lower c = true) (anchor_text a).
Proof.
  intros [Hl Hh]. unfold anchor_text. destruct (num_to_str_pos _ Hl) as (-> & _).
  apply Forall_app. split.
  - destruct (nat_to_str_spec (line a)) as (_ & _ & Hd); [lia|].
    eapply Forall_impl; [exact Hd|]. intros c Hc. by left.
  - apply two_letters_inv in Hh as (x & y & -> & Hx & Hy).
    constructor; [by right|]. constructor; [by right|constructor].
Qed.

Definition plain_char (c : jchar) : Prop :=
  is_ws c = false /\ c <> HL_BODY_SEP /\ c <> NL /\ c <> 13.

Lemma alnum_plain c : is_digit c = true \/ is_lower c = true -> plain_char c.
Proof. unfold plain_char, is_digit, is_lower, is_ws, HL_BODY_SEP, NL. lia. Qed.

Lemma anchor_text_plain a : wf_anchor a -> Forall plain_char (anchor_text a).
Proof. intros H. eapply Forall_impl; [by apply anchor_text_chars|]. apply alnum_plain. Qed.

Lemma target_text_plain t :
  (forall a, t = TAnchor a -> wf_anchor a) -> Forall plain_char (target_text t) /\ target_text t <> [].
Proof.
  intros Hw. destruct t as [| |a]; cbn.
  - split; [|done]. by repeat (apply Forall_cons; split; [by split_and!|]).
  - split; [|done]. by repeat (apply Forall_cons; split; [by split_and!|]).
  - split; [by apply anchor_text_plain, Hw|].
    destruct (anchor_text_scan a [] (Hw a eq_refl)) as (d & ds & E & _). rewrite app_nil_r in E.
    by rewrite E.
Qed.

Lemma range_lines_plain from to :
  wf_anchor from -> wf_anchor to ->
  Forall plain_char (range_lines from to) /\
  exists d r, range_lines from to = d :: r /\ is_digit d = true.
Proof.
  intros Hf Ht. unfold range_lines.
  assert (Hhd : forall r, exists d r', anchor_text from ++ r = d :: r' /\ is_digit d = true).
  { intros r. destruct (anchor_text_scan from r Hf) as (d & ds & E & Hd & _). eauto. }
  destruct (decide (from = to)).
  - split; [by apply anchor_text_plain|]. specialize (Hhd []). by rewrite app_nil_r in Hhd.
  - split; [|apply Hhd]. apply Forall_app. split; [by apply anchor_text_plain|].
    do 2 (apply Forall_cons; split; [by split_and!|]). by apply anchor_text_plain.
Qed.

Lemma insert_op_match_spec op t :
  Forall plain_char t -> t <> [] -> insert_op_match op (op :: t) = Some (t, None).
Proof.
  intros Ht Hne. unfold insert_op_match. rewrite Z.eqb_refl. cbn [negb].
  assert (Hw : Forall (fun c => is_ws c = false) t) by (eapply Forall_impl; [exact Ht|]; by intros c []).
  rewrite (drop_while_none is_ws t Hw).
  assert (Hin : Forall (fun c => negb (c =? HL_BODY_SEP) && negb (is_ws c) = true) t).
  { eapply Forall_impl; [exact Ht|]. intros c (H1 & H2 & _). rewrite H1, andb_true_r.
    by rewrite (proj2 (Z.eqb_neq _ _)). }
  rewrite (take_while_full _ t Hin), (drop_while_full _ t Hin). by destruct t.
Qed.

Lemma replace_op_match_spec t d r :
  Forall plain_char t -> t = d :: r -> is_digit d = true ->
  replace_op_match (HL_OP_REPLACE :: t) = Some t.
Proof.
  intros Ht E Hd. unfold replace_op_match. rewrite Z.eqb_refl. cbn [negb].
  assert (Hw : Forall (fun c => is_ws c = false) t) by (eapply Forall_impl; [exact Ht|]; by intros c []).
  rewrite (drop_while_none is_ws t Hw).
  assert (Hin : Forall (fun c => negb (is_ws c) = true) t).
  { eapply Forall_impl; [exact Hw|]. by intros c ->. }
  assert ((d =? 43) || (d =? 60) || (d =? 45) || (d =? 61) = false) as Hno.
  { unfold is_digit in Hd. lia. }
  subst t. rewrite Hno. by rewrite (take_while_full _ _ Hin), (drop_while_full _ _ Hin).
Qed.

Lemma not_blank c t : is_ws c = false -> (zlen (trim (c :: t)) =? 0) = false.
Proof.
  intros Hws. apply Z.eqb_neq. intros E. apply zlen_0_nil in E. unfold trim, trim_start, trim_end in E.
  cbn [drop_while] in E. rewrite Hws in E. apply (f_equal (@rev Z)) in E.
  rewrite rev_involutive in E. cbn [rev] in E.
  assert (Hin : forall l, In c (drop_while is_ws (l ++ [c]))).
  { clear -Hws. induction l as [|x l IH]; cbn; [rewrite Hws; by left|].
    destruct (is_ws x); [done|]. right. apply in_or_app. right. by left. }
  specialize (Hin (rev t)). by rewrite E in Hin.
Qed.

(** An operation line is not blank, not a marker and ends a payload. *)
Lemma sigil_line c t :
  is_op_char c = true -> is_ws c = false -> c <> 42 ->
  (zlen (trim (c :: t)) =? 0) = false /\ isPayloadTerminatorLine (c :: t) = true /\
  forall m, head m = Some 42 -> bool_decide (c :: t = m) = false.
Proof.
  intros Hop Hws H42. split_and!.
  - by apply not_blank.
  - unfold isPayloadTerminatorLine. by rewrite Hop, orb_true_r.
  - intros m Hm. apply bool_decide_eq_false_2. intros <-. by injection Hm.
Qed.

(** ** Ranges *)

Definition no_dots (s : jstr) : Prop := Forall (fun c => c <> 46) s.

Lemma anchor_no_dots a : wf_anchor a -> no_dots (anchor_text a).
Proof.
  intros H. eapply Forall_impl; [by apply anchor_text_chars|]. unfold is_digit, is_lower.
  simpl. lia.
Qed.

Lemma find_dots_none s i : no_dots s -> find_from s (u "..") i = -1.
Proof.
  intros H. change (u "..") with [46; 46]. revert i.
  induction H as [|c s Hc _ IH]; intros i; [done|]. cbn [find_from starts_with].
  rewrite (proj2 (Z.eqb_neq 46 c)) by congruence. apply IH.
Qed.

Lemma find_dots_some s t i : no_dots s -> 0 <= i -> 0 <= find_from (s ++ 46 :: 46 :: t) (u "..") i.
Proof.
  intros H. change (u "..") with [46; 46]. revert i.
  induction H as [|c s Hc _ IH]; intros i Hi; [by destruct t|]. cbn [app find_from starts_with].
  rewrite (proj2 (Z.eqb_neq 46 c)) by congruence. apply IH. lia.
Qed.

Lemma split_dots_none s : no_dots s -> split_dots s = [s].
Proof.
  induction 1 as [|c s Hc _ IH]; [done|]. cbn [split_dots]. rewrite IH.
  destruct s as [|d s]; [done|]. by rewrite (proj2 (Z.eqb_neq c 46)).
Qed.

Lemma split_dots_pair s t : no_dots s -> no_dots t -> split_dots (s ++ 46 :: 46 :: t) = [s; t].
Proof.
  intros Hs Ht. induction Hs as [|c s Hc _ IH].
  - cbn [app split_dots]. simpl. by rewrite (split_dots_none t Ht).
  - cbn [app split_dots]. rewrite IH. destruct (s ++ 46 :: 46 :: t) as [|d r]; [done|].
    by rewrite (proj2 (Z.eqb_neq c 46)).
Qed.

Lemma parseRange_spec from to n :
  wf_anchor from -> wf_anchor to -> line from <= line to ->
  (line from = line to -> hash from = hash to) ->
  parseRange (range_lines from to) n = Ok {| start := from; end_ := to |}.
Proof.
  intros Hf Ht Hle Hsame. unfold parseRange, range_lines.
  pose proof (parseLid_spec from [] n Hf (or_introl eq_refl)) as Ef.
  pose proof (parseLid_spec to [] n Ht (or_introl eq_refl)) as Et.
  rewrite app_nil_r in Ef, Et. destruct (decide (from = to)) as [<-|Hne].
  - unfold includes, index_of. rewrite clamp_id by (pose proof (zlen_nonneg (anchor_text from)); lia).
    cbn [Z.to_nat drop]. rewrite find_dots_none by by apply anchor_no_dots. cbn [negb Z.eqb].
    by rewrite Ef.
  - change (u ".." ++ anchor_text to) with (46 :: 46 :: anchor_text to).
    unfold includes, index_of. set (raw := anchor_text from ++ _).
    rewrite clamp_id by (pose proof (zlen_nonneg raw); lia).
    change (drop (Z.to_nat 0) raw) with raw. pose proof (find_dots_some (anchor_text from) (anchor_text to) 0 (anchor_no_dots _ Hf) ltac:(lia)).
    fold raw in H. rewrite (proj2 (Z.eqb_neq _ _)) by lia. cbn [negb].
    unfold raw. rewrite split_dots_pair by by apply anchor_no_dots.
    destruct (anchor_text_scan from [] Hf) as (x & xs & Ex & _), (anchor_text_scan to [] Ht) as (y & ys & Ey & _).
    rewrite app_nil_r in Ex, Ey. rewrite !bool_decide_eq_false_2 by (rewrite ?Ex, ?Ey; done).
    cbn [orb]. rewrite Ef, Et. cbn. rewrite (proj2 (Z.ltb_ge _ _)) by lia.
    destruct (Z.eqb_spec (line to) (line from)) as [E|]; [|done]. cbn.
    by rewrite bool_decide_eq_true_2 by (symmetry; by apply Hsame).
Qed.

(** ** The loop over printed operations *)

Lemma payload_run_app p rest :
  Forall (fun l => isPayloadTerminatorLine l = false) p ->
  match rest with [] => True | l :: _ => isPayloadTerminatorLine l = true end ->
  payload_run (p ++ rest) = p.
Proof.
  intros Hp Hr. induction Hp as [|l p Hl _ IH]; cbn [app payload_run].
  - destruct rest as [|l rest]; [done|]. cbn. by rewrite Hr.
  - by rewrite Hl, IH.
Qed.

Section loop.
Context {bun : BunHash}.

Lemma parse_skip p rest n st :
  parse_lines (p ++ rest) (length p) n st = parse_lines rest 0 (n + zlen p) st.
Proof.
  revert n. induction p as [|l p IH]; intros n; cbn [app length].
  - by rewrite zlen_nil, Z.add_0_r.
  - cbn [parse_lines]. rewrite IH, zlen_cons. f_equal. lia.
Qed.

Definition starts_op (rest : list jstr) : Prop :=
  match rest with [] => True | l :: _ => isPayloadTerminatorLine l = true end.

Lemma payload_not_terminator p :
  Forall payload_line p -> Forall (fun l => isPayloadTerminatorLine l = false) p.
Proof. intros H. eapply Forall_impl; [exact H|]. by intros l (_ & _ & ?). Qed.

Lemma parseInsertTarget_spec kind t n :
  (forall a, t = TAnchor a -> wf_anchor a) ->
  parseInsertTarget (target_text t) n kind = Ok (target_cursor kind t).
Proof.
  intros Hw. unfold parseInsertTarget. destruct t as [| |a]; [done|done|]. cbn [target_text].
  specialize (Hw a eq_refl). pose proof (parseLid_spec a [] n Hw (or_introl eq_refl)) as E.
  rewrite app_nil_r in E. destruct (anchor_text_scan a [] Hw) as (d & ds & Ea & Hd & _).
  rewrite app_nil_r in Ea.
  rewrite !bool_decide_eq_false_2 by (rewrite Ea; intros [= -> _]; done).
  rewrite E. by destruct kind.
Qed.

Lemma parse_op op rest n st :
  wf_op op -> starts_op rest ->
  parse_lines (op_lines op ++ rest) 0 n st =
  parse_lines rest 0 (n + zlen (op_lines op)) (op_effect op n st).
Proof.
  intros Hw Hr. destruct op as [kind t payload|from to payload]; cbn [op_lines app parse_lines].
  - destruct Hw as (Ht & Hne & Hp). destruct (target_text_plain t Ht) as [Hpl Htn].
    destruct (sigil_line (sigil kind) (target_text t)) as (-> & _ & Hm); [by destruct kind..|].
    rewrite (Hm END_PATCH_MARKER), (Hm ABORT_MARKER), (Hm BEGIN_PATCH_MARKER) by done.
    assert (Hop : parse_insert_op kind (target_text t) None (payload ++ rest) n st =
      Ok (op_effect (OpInsert kind t payload) n st, length payload)).
    { unfold parse_insert_op. rewrite parseInsertTarget_spec by done. cbn.
      unfold collectPayload. rewrite payload_run_app by (done || by apply payload_not_terminator).
      by destruct payload. }
    rewrite zlen_cons, Z.add_assoc. destruct kind; cbn [sigil] in *.
    + rewrite insert_op_match_spec, Hop by done. apply parse_skip.
    + rewrite (insert_op_match_spec HL_OP_INSERT_AFTER) by done.
      change (insert_op_match HL_OP_INSERT_BEFORE (HL_OP_INSERT_AFTER :: target_text t)) with
        (@None (jstr * option jstr)). rewrite Hop. apply parse_skip.
  - destruct Hw as (Hf & Ht & Hle & Hsame & Hp).
    destruct (range_lines_plain from to Hf Ht) as [Hpl (d & r & Er & Hd)].
    destruct (sigil_line HL_OP_REPLACE (range_lines from to)) as (-> & _ & Hm); [done..|].
    rewrite (Hm END_PATCH_MARKER), (Hm ABORT_MARKER), (Hm BEGIN_PATCH_MARKER) by done.
    rewrite (replace_op_match_spec _ d r) by done.
    change (insert_op_match HL_OP_INSERT_BEFORE (HL_OP_REPLACE :: range_lines from to)) with
      (@None (jstr * option jstr)).
    change (insert_op_match HL_OP_INSERT_AFTER (HL_OP_REPLACE :: range_lines from to)) with
      (@None (jstr * option jstr)).
    unfold parse_replace_op. rewrite parseRange_spec by done. cbn [mbind result_bind].
    unfold collectPayload. rewrite payload_run_app by (done || by apply payload_not_terminator).
    rewrite zlen_cons, Z.add_assoc. by destruct payload; cbn; rewrite <- parse_skip.
Qed.

Lemma op_starts op rest : starts_op (op_lines op ++ rest).
Proof. destruct op as [[] t p|from to p]; cbn [op_lines app starts_op]; by apply sigil_line. Qed.

Lemma parse_ops ops n st :
  Forall wf_op ops -> parse_lines (flat_map op_lines ops) 0 n st = Ok (ops_effect ops n st).
Proof.
  intros Hw. revert n st. induction Hw as [|op ops Hop _ IH]; intros n st; [done|].
  cbn [flat_map ops_effect]. rewrite parse_op; [apply IH|done|].
  destruct ops as [|op' ops]; [done|]. apply op_starts.
Qed.
End loop.

(** ** Lines of a printed text *)

Lemma split_lines_printed ls :
  Forall (no_char NL) ls -> split_lines (concat (map (fun l => l ++ [NL]) ls)) = ls ++ [[]].
Proof.
  induction 1 as [|l ls Hl _ IH]; [done|]. cbn [map concat]. unfold split_lines in *.
  rewrite <- app_assoc. cbn [app]. rewrite split_app_sep by done. by rewrite IH.
Qed.

Lemma strip_cr_init_snoc ls x : strip_cr_init (ls ++ [x]) = map strip_cr ls ++ [x].
Proof.
  induction ls as [|l ls IH]; [done|]. cbn [app map].
  change (strip_cr_init (l :: ls ++ [x])) with
    (match ls ++ [x] with [] => [l] | _ => strip_cr l :: strip_cr_init (ls ++ [x]) end).
  rewrite IH. by destruct ls.
Qed.

Lemma ends_with_snoc s c : ends_with (s ++ [c]) [c] = true.
Proof. unfold ends_with. rewrite rev_app_distr. cbn. by rewrite Z.eqb_refl; destruct (rev s). Qed.

Lemma parse_input_lines_printed ls :
  ls <> [] -> Forall (no_char NL) ls -> Forall (fun l => strip_cr l = l) ls ->
  parse_input_lines (concat (map (fun l => l ++ [NL]) ls)) = ls.
Proof.
  intros Hne Hnl Hcr. unfold parse_input_lines, split_crlf. rewrite split_lines_printed by done.
  rewrite strip_cr_init_snoc, last_snoc, removelast_last.
  assert (Hid : map strip_cr ls = ls).
  { clear -Hcr. induction Hcr as [|l ls Hl _ IH]; cbn; [done|]. by rewrite Hl, IH. }
  destruct (exists_last Hne) as (ls' & l & E). rewrite E at 1. rewrite map_app, concat_app.
  cbn [map concat]. rewrite app_nil_r, app_assoc, ends_with_snoc. cbn. exact Hid.
Qed.

Lemma strip_cr_id l : Forall (fun c => c <> 13) l -> strip_cr l = l.
Proof.
  intros H. unfold strip_cr, ends_with. apply Forall_rev in H. change (rev [13]) with [13].
  destruct (rev l) as [|c r]; [done|]. apply Forall_cons in H as [Hc _]. cbn [starts_with].
  by rewrite (proj2 (Z.eqb_neq 13 c)) by congruence.
Qed.

Lemma op_lines_clean op :
  wf_op op -> Forall (no_char NL) (op_lines op) /\ Forall (fun l => strip_cr l = l) (op_lines op).
Proof.
  intros Hw.
  assert (Hs : forall c t, c <> NL -> c <> 13 -> Forall plain_char t ->
    no_char NL (c :: t) /\ strip_cr (c :: t) = c :: t).
  { intros c t H1 H2 Ht. split; [|apply strip_cr_id]; (constructor; [done|]);
      (eapply Forall_impl; [exact Ht|]); by intros x (_ & _ & ? & ?). }
  assert (Hp : forall p, Forall payload_line p ->
    Forall (no_char NL) p /\ Forall (fun l => strip_cr l = l) p).
  { intros p H. split; (eapply Forall_impl; [exact H|]); by intros l (? & ? & _). }
  destruct op as [kind t p|from to p]; cbn [op_lines].
  - destruct Hw as (Ht & _ & H). destruct (target_text_plain t Ht) as [Hpl _].
    destruct (Hs (sigil kind) (target_text t)) as [? ?]; [by destruct kind..|done|].
    destruct (Hp p H). by split; constructor.
  - destruct Hw as (Hf & Ht & _ & _ & H). destruct (range_lines_plain from to Hf Ht) as [Hpl _].
    destruct (Hs HL_OP_REPLACE (range_lines from to)) as [? ?]; [done..|].
    destruct (Hp p H). by split; constructor.
Qed.

Definition empty_parse : ParseState := {| ps_edits := []; ps_warnings := []; ps_editIndex := 0 |}.

Lemma ops_effect_warnings ops n st : ps_warnings (ops_effect ops n st) = ps_warnings st.
Proof.
  assert (Hp : forall A (push : A -> ParseState -> ParseState) l s,
    (forall x s, ps_warnings (push x s) = ps_warnings s) ->
    ps_warnings (push_all push l s) = ps_warnings s).
  { intros A push l s H. unfold push_all. revert s. induction l as [|x l IH]; intros s; cbn; [done|].
    by rewrite IH, H. }
  revert n st. induction ops as [|op ops IH]; intros n st; [done|]. cbn [ops_effect]. rewrite IH.
  destruct op; cbn [op_effect]; by rewrite ?Hp.
Qed.

(** The anchors of a range: its ends as they are written, and a filler for each line between them. *)
Definition range_anchors (from to : Anchor) : list Anchor :=
  if line from =? line to then [from]
  else from :: map (fun n => {| line := n; hash := RANGE_INTERIOR_HASH |})
                   (seqZ (line from + 1) (line to - line from - 1)) ++ [to].

Lemma expandRange_spec from to :
  line from <= line to -> (line from = line to -> hash from = hash to) ->
  expandRange {| start := from; end_ := to |} = range_anchors from to.
Proof.
  intros Hle Hh. unfold expandRange, range_anchors. cbn [start end_].
  assert (Hf : forall k, {| line := line k; hash := hash k |} = k) by by intros [].
  rewrite seqZ_cons by lia. cbn [map]. rewrite Z.eqb_refl, Hf.
  destruct (Z.eqb_spec (line from) (line to)) as [E|E].
  - by rewrite seqZ_nil by lia.
  - f_equal. replace (Z.pred (line to - line from + 1)) with (line to - line from - 1 + 1) by lia.
    rewrite seqZ_app by lia. rewrite map_app. f_equal.
    + apply map_ext_in. intros n Hn%list_elem_of_In%elem_of_seqZ.
      by rewrite !(proj2 (Z.eqb_neq n _)) by lia.
    + rewrite (seqZ_cons _ 1), seqZ_nil by lia. cbn [map].
      replace (Z.succ (line from) + (line to - line from - 1)) with (line to) by lia.
      by rewrite Z.eqb_refl, (proj2 (Z.eqb_neq (line to) _)), Hf by lia.
Qed.

(** The edits of an operation, as functions of the index. *)
Definition op_makers (op : Op) (lineNum : Z) : list (Z -> HashlineEdit) :=
  match op with
  | OpInsert kind t payload =>
      map (fun text => Insert (target_cursor kind t) text lineNum) payload
  | OpReplace from to payload =>
      map (fun text => Insert (BeforeAnchor from) text lineNum) payload
      ++ map (fun a => Delete a lineNum) (range_anchors from to)
  end.

Fixpoint ops_makers (ops : list Op) (lineNum : Z) : list (Z -> HashlineEdit) :=
  match ops with
  | [] => []
  | op :: ops' => op_makers op lineNum ++ ops_makers ops' (lineNum + zlen (op_lines op))
  end.

Definition number_edits (k : Z) (ms : list (Z -> HashlineEdit)) : list HashlineEdit :=
  imap (fun i m => m (k + Z.of_nat i)) ms.

(** The edits that a list of operations stands for: numbered from zero, each with the number of its
    operation line. *)
Definition ops_edits (ops : list Op) : list HashlineEdit := number_edits 0 (ops_makers ops 1).

Lemma number_edits_app k ms1 ms2 :
  number_edits k (ms1 ++ ms2) = number_edits k ms1 ++ number_edits (k + zlen ms1) ms2.
Proof.
  unfold number_edits. rewrite imap_app. f_equal. apply imap_ext. intros i m _. simpl.
  f_equal. unfold zlen. lia.
Qed.

(** [st'] has the edits of [ms] on top of [st]. *)
Definition pushed (ms : list (Z -> HashlineEdit)) (st st' : ParseState) : Prop :=
  ps_edits st' = ps_edits st ++ number_edits (ps_editIndex st) ms /\
  ps_editIndex st' = ps_editIndex st + zlen ms.

Lemma pushed_trans ms1 ms2 st1 st2 st3 :
  pushed ms1 st1 st2 -> pushed ms2 st2 st3 -> pushed (ms1 ++ ms2) st1 st3.
Proof.
  intros [E1 I1] [E2 I2]. split.
  - by rewrite E2, E1, I1, number_edits_app, app_assoc.
  - rewrite I2, I1, zlen_app. lia.
Qed.

Lemma pushed_all {A} (push : A -> ParseState -> ParseState) (mk : A -> Z -> HashlineEdit) l st :
  (forall x s, pushed [mk x] s (push x s)) -> pushed (map mk l) st (push_all push l st).
Proof.
  intros H. unfold push_all. revert st. induction l as [|x l IH]; intros st; cbn.
  - split; [symmetry; apply app_nil_r|rewrite zlen_nil; lia].
  - apply (pushed_trans [mk x] (map mk l) _ (push x st)); auto.
Qed.

Lemma op_effect_pushed op n st : wf_op op -> pushed (op_makers op n) st (op_effect op n st).
Proof.
  intros Hw.
  assert (Hi : forall c t s, pushed [Insert c t n] s (pushInsert c t n s)).
  { intros c t s. split; [|done]. unfold pushInsert, number_edits, cloneCursor. cbn.
    by rewrite Z.add_0_r. }
  assert (Hd : forall a s, pushed [Delete a n] s (pushDelete a n s)).
  { intros a s. split; [|done]. unfold pushDelete, number_edits. cbn. by rewrite Z.add_0_r. }
  destruct op as [kind t p|from to p]; cbn [op_effect op_makers].
  - apply (pushed_all (fun text => pushInsert (target_cursor kind t) text n)
      (fun text => Insert (target_cursor kind t) text n)). auto.
  - destruct Hw as (_ & _ & Hle & Hh & _). rewrite (expandRange_spec from to Hle Hh).
    apply (pushed_trans _ _ _ (push_all (fun text => pushInsert (BeforeAnchor from) text n) p st)).
    + apply (pushed_all (fun text => pushInsert (BeforeAnchor from) text n)
        (fun text => Insert (BeforeAnchor from) text n)). auto.
    + apply (pushed_all (fun a => pushDelete a n) (fun a => Delete a n)). auto.
Qed.

Lemma ops_effect_pushed ops n st :
  Forall wf_op ops -> pushed (ops_makers ops n) st (ops_effect ops n st).
Proof.
  intros H. revert n st. induction H as [|op ops Hop _ IH]; intros n st; cbn [ops_effect ops_makers].
  - split; [symmetry; apply app_nil_r|rewrite zlen_nil; lia].
  - eapply pushed_trans; [by apply op_effect_pushed|apply IH].
Qed.

Lemma parse_printed_ops {bun : BunHash} ops :
  Forall wf_op ops -> parseHashlineWithWarnings (print_ops ops) = Ok (ops_edits ops, []).
Proof.
  intros Hw. unfold parseHashlineWithWarnings. fold empty_parse.
  assert (E : parse_lines (parse_input_lines (print_ops ops)) 0 1 empty_parse =
              parse_lines (flat_map op_lines ops) 0 1 empty_parse).
  { destruct ops as [|op ops]; [done|]. unfold print_ops. rewrite parse_input_lines_printed; [done| | |].
    - destruct op; done.
    - apply (Forall_flat_map_impl wf_op); [|done]. intros o Ho. by apply op_lines_clean.
    - apply (Forall_flat_map_impl wf_op); [|done]. intros o Ho. by apply op_lines_clean. }
  rewrite E, parse_ops by done. rewrite ops_effect_warnings.
  destruct (ops_effect_pushed ops 1 empty_parse Hw) as [-> _]. done.
Qed.

(** C39. The text of any list of well-formed operations parses, without warnings, to exactly the edits
    the operations ask for: a payload line is an insert, a replaced line a delete, each with the
    number of its operation line and with consecutive indices. *)
Theorem operations_round_trip {bun : BunHash} ops :
  Forall wf_op ops -> parseHashlineWithWarnings (print_ops ops) = Ok (ops_edits ops, []).
Proof. apply parse_printed_ops. Qed.
