(* ===== verification/HashlineTyped.v ===== *)
(** * The type of what the hashline parser returns

    The interface HashlineEdit says more than its TypeScript type: indices are unique and in order, an
    anchor has a line from 1 and a hash of two letters (or is the filler of a range), an inserted text
    is one line.  [parsed_edits_typed] shows that every input that parses gives edits of that kind;
    the application (HashlineApply.v) sorts and groups by these fields. *)
From S2P Require Import Prelude Json Hashline HashlineParse.
#[local] Open Scope Z_scope.
#[local] Open Scope js_scope.

(** A filler stands strictly inside a range, so its line is at least the second. *)
Definition filler (a : Anchor) : Prop := 2 <= line a /\ hash a = RANGE_INTERIOR_HASH.

Definition typed_cursor (c : HashlineCursor) : Prop :=
  match c with BeforeAnchor a | AfterAnchor a => wf_anchor a | _ => True end.

(** An edit that was read from one of the first [n] lines. *)
Definition typed_edit (n : Z) (e : HashlineEdit) : Prop :=
  1 <= edit_lineNum e <= n /\
  match e with
  | Insert c text _ _ => typed_cursor c /\ no_char NL text
  | Delete a _ _ => wf_anchor a \/ filler a
  end.

Definition typed_edits (n : Z) (edits : list HashlineEdit) : Prop :=
  Forall (typed_edit n) edits /\
  map edit_index edits = seqZ 0 (zlen edits) /\
  StronglySorted Z.le (map edit_lineNum edits).

Definition typed_state (n : Z) (st : ParseState) : Prop :=
  typed_edits n (ps_edits st) /\ ps_editIndex st = zlen (ps_edits st).

Lemma typed_edit_mono n m e : n <= m -> typed_edit n e -> typed_edit m e.
Proof. intros H [Hl Hk]. split; [lia|done]. Qed.

Lemma typed_state_mono n m st : n <= m -> typed_state n st -> typed_state m st.
Proof.
  intros H [(Hf & Hi & Hs) Hx]. split; [|done]. split_and!; [|done|done].
  eapply Forall_impl; [exact Hf|]. intros e. by apply typed_edit_mono.
Qed.

Lemma strongly_sorted_snoc l x :
  StronglySorted Z.le l -> Forall (fun y => y <= x) l -> StronglySorted Z.le (l ++ [x]).
Proof.
  induction 1 as [|y l Hs IH Hy]; intros Hx; cbn; [by repeat constructor|].
  apply Forall_cons in Hx as [Hyx Hx]. constructor; [by apply IH|].
  apply Forall_app_2; [done|]. by apply Forall_singleton.
Qed.

(** Pushing an edit of the current line keeps the state typed. *)
Lemma push_typed n e st :
  typed_state n st -> typed_edit n e -> edit_lineNum e = n -> edit_index e = ps_editIndex st ->
  typed_edits n (ps_edits st ++ [e]) /\ ps_editIndex st + 1 = zlen (ps_edits st ++ [e]).
Proof.
  intros [(Hf & Hi & Hs) Hx] He Hl Hk. split; [|rewrite zlen_snoc; lia]. split_and!.
  - apply Forall_app_2; [done|]. by apply Forall_singleton.
  - rewrite map_app, Hi. cbn [map]. rewrite Hk, Hx, zlen_snoc, seqZ_app by (pose proof (zlen_nonneg (ps_edits st)); lia).
    done.
  - rewrite map_app. cbn [map]. apply strongly_sorted_snoc; [done|]. rewrite Hl.
    apply Forall_map. eapply Forall_impl; [exact Hf|]. intros e' [H _]. cbn. lia.
Qed.

Lemma push_all_typed {A} n (push : A -> ParseState -> ParseState) (P : A -> Prop) l st :
  (forall x st, P x -> typed_state n st -> typed_state n (push x st)) ->
  Forall P l -> typed_state n st -> typed_state n (push_all push l st).
Proof.
  intros Hp Hl. unfold push_all. revert st. induction Hl as [|x l Hx _ IH]; intros st H; cbn; [done|].
  apply IH. by apply Hp.
Qed.

Lemma pushInsert_typed n c text st :
  1 <= n -> typed_cursor c -> no_char NL text -> typed_state n st -> typed_state n (pushInsert c text n st).
Proof. intros Hn Hc Ht H. apply push_typed; [done| |done|done]. split; [cbn; lia|done]. Qed.

Lemma pushDelete_typed n a st :
  1 <= n -> wf_anchor a \/ filler a -> typed_state n st -> typed_state n (pushDelete a n st).
Proof. intros Hn Ha H. apply push_typed; [done| |done|done]. split; [cbn; lia|done]. Qed.

(** ** Anchors *)

Lemma parse_dec_app acc ds : 0 <= acc -> Forall (fun c => is_digit c = true) ds ->
  acc <= fold_left (fun acc c => 10 * acc + (c - 48)) ds acc.
Proof.
  intros Ha H. revert acc Ha. induction H as [|d ds Hd _ IH]; intros acc Ha; cbn [fold_left]; [done|].
  assert (48 <= d) by (unfold is_digit in Hd; lia). etrans; [|apply IH; lia]. lia.
Qed.

Lemma parseLid_wf raw n a : parseLid raw n = Ok a -> wf_anchor a.
Proof.
  unfold parseLid. destruct (lid_match raw) as [[digits h]|] eqn:E; [|done]. intros <-%(inj Ok).
  unfold lid_match in E. set (r := skip_decoration raw) in *.
  pose proof (take_while_all is_digit r) as Hd.
  destruct (take_while is_digit r) as [|d ds]; [done|]. destruct (Z.eqb_spec d 48); [done|].
  destruct (match_hash _) as [[h' tail]|] eqn:Eh; [|done].
  set (ok := match tail with [] => _ | _ => _ end) in E. destruct ok; [|done].
  injection E as <- <-. split; cbn [line hash].
  - apply Forall_cons in Hd as [H1 H2]. unfold parse_dec. cbn [fold_left].
    assert (49 <= d) by (unfold is_digit in H1; lia).
    etrans; [|apply parse_dec_app; [lia|done]]. lia.
  - clear -Eh. unfold match_hash in Eh. destruct (drop_while _ _) as [|a [|b t]]; [done|done|].
    destruct (_ && _) eqn:E; [|done]. by injection Eh as <- _.
Qed.

Lemma parseInsertTarget_typed raw n kind c : parseInsertTarget raw n kind = Ok c -> typed_cursor c.
Proof.
  unfold parseInsertTarget. case_bool_decide; [by intros <-%(inj Ok)|].
  case_bool_decide; [by intros <-%(inj Ok)|].
  destruct (parseLid raw n) as [a|] eqn:E; [|done]. cbn [mbind result_bind]. intros <-%(inj Ok).
  apply parseLid_wf in E. by destruct kind.
Qed.

Lemma parseRange_wf raw n r : parseRange raw n = Ok r -> wf_anchor (start r) /\ wf_anchor (end_ r).
Proof.
  unfold parseRange. set (malformed := Err _). assert (Hm : malformed <> Ok r) by done. clearbody malformed.
  destruct (negb _).
  - destruct (parseLid raw n) as [a|] eqn:E; [|done].
    cbn [mbind result_bind]. intros <-%(inj Ok). by apply parseLid_wf in E.
  - destruct (split_dots raw) as [|s [|e [|]]]; [done|done| |done].
    destruct (_ || _); [done|]. destruct (parseLid s n) as [a|] eqn:Ea; [|done]. cbn [mbind result_bind].
    destruct (parseLid e n) as [b|] eqn:Eb; [|done]. cbn [mbind result_bind].
    destruct (_ <? _); [done|]. destruct (_ && _); [done|]. intros <-%(inj Ok).
    by apply parseLid_wf in Ea, Eb.
Qed.

Lemma expandRange_typed r :
  wf_anchor (start r) -> wf_anchor (end_ r) -> Forall (fun a => wf_anchor a \/ filler a) (expandRange r).
Proof.
  intros [Hs1 Hs2] [He1 He2]. apply Forall_map, Forall_forall. intros n Hn%elem_of_seqZ.
  destruct (Z.eqb_spec n (line (start r))); [left; split; cbn; [lia|done]|].
  destruct (Z.eqb_spec n (line (end_ r))); [left; split; cbn; [lia|done]|].
  right. split; cbn; [lia|done].
Qed.

(** ** Lines *)

Lemma drop_while_forall {A} (P : A -> Prop) p l : Forall P l -> Forall P (drop_while p l).
Proof. induction 1; cbn; [constructor|]. destruct (p x); [done|by constructor]. Qed.
Lemma take_while_forall {A} (P : A -> Prop) p l : Forall P l -> Forall P (take_while p l).
Proof. induction 1; cbn; [constructor|]. destruct (p x); [by constructor|constructor]. Qed.

Lemma insert_body_no_nl op l target b :
  no_char NL l -> insert_op_match op l = Some (target, Some b) -> no_char NL b.
Proof.
  unfold insert_op_match. intros H. destruct H as [|c r Hc Hr]; [done|]. destruct (negb _); [done|].
  set (p := fun c => _). destruct (take_while p _) as [|t ts]; [done|].
  pose proof (drop_while_forall _ p _ (drop_while_forall _ is_ws _ Hr)) as Hd.
  destruct Hd as [|d t' Hd Ht']; [done|].
  destruct (d =? HL_BODY_SEP); destruct (all_ws _); try done. intros [= _ <-]. by apply take_while_forall.
Qed.

Lemma payload_run_forall P rest : Forall P rest -> Forall P (payload_run rest).
Proof. induction 1; cbn; [constructor|]. destruct (isPayloadTerminatorLine x); by constructor. Qed.

Lemma collectPayload_run rest n b payload : collectPayload rest n b = Ok payload -> payload = payload_run rest.
Proof. unfold collectPayload. destruct (payload_run rest), b; by intros [= <-]. Qed.

Section typed.
Context {bun : BunHash}.

Lemma parse_insert_typed kind target body rest n st st' k :
  1 <= n -> Forall (no_char NL) rest -> match body with Some b => no_char NL b | None => True end ->
  typed_state n st -> parse_insert_op kind target body rest n st = Ok (st', k) -> typed_state n st'.
Proof.
  intros Hn Hrest Hb Hst. unfold parse_insert_op.
  destruct (parseInsertTarget target n kind) as [c|] eqn:Ec; [|done]. cbn [mbind result_bind].
  apply parseInsertTarget_typed in Ec.
  destruct (collectPayload _ _ _) as [payload|] eqn:Ep; [|done]. apply collectPayload_run in Ep as ->.
  cbn [mbind result_bind]. intros E%(inj Ok). injection E as <- _.
  apply (push_all_typed n _ (no_char NL)).
  - intros x s Hx. by apply pushInsert_typed.
  - by apply payload_run_forall.
  - destruct (resolveInlineInsertBody c body) as [b|] eqn:Er; [|done]. apply pushInsert_typed; try done.
    unfold resolveInlineInsertBody in Er. destruct body as [b'|]; [|done].
    destruct c as [| |a|a]; try (destruct (bool_decide _)); by simplify_eq.
Qed.

Lemma parse_replace_typed raw rest n st st' k :
  1 <= n -> Forall (no_char NL) rest -> typed_state n st ->
  parse_replace_op raw rest n st = Ok (st', k) -> typed_state n st'.
Proof.
  intros Hn Hrest Hst. unfold parse_replace_op.
  destruct (parseRange raw n) as [range|] eqn:Er; [|done]. cbn [mbind result_bind].
  apply parseRange_wf in Er as [Hs He].
  destruct (collectPayload _ _ _) as [payload|] eqn:Ep; [|done]. apply collectPayload_run in Ep as ->.
  cbn [mbind result_bind]. intros E%(inj Ok). injection E as <- _.
  apply (push_all_typed n _ (fun a => wf_anchor a \/ filler a)).
  - intros a s Ha. by apply pushDelete_typed.
  - by apply expandRange_typed.
  - apply (push_all_typed n _ (no_char NL)); [|by apply payload_run_forall|done].
    intros x s Hx. by apply pushInsert_typed.
Qed.

Lemma parse_lines_typed lines skip n m st st' :
  1 <= n -> n - 1 + zlen lines = m -> Forall (no_char NL) lines -> typed_state (n - 1) st ->
  parse_lines lines skip n st = Ok st' -> typed_edits m (ps_edits st').
Proof.
  intros Hn Hm H. revert skip n st Hn Hm.
  induction H as [|l rest Hl Hrest IH]; intros skip n st Hn Hm Hst; cbn [parse_lines].
  { rewrite zlen_nil in Hm. replace m with (n - 1) by lia. intros E%(inj Ok). subst. apply Hst. }
  rewrite zlen_cons in Hm. pose proof (zlen_nonneg rest) as Hz.
  assert (Hnext : forall skip st1, typed_state n st1 -> parse_lines rest skip (n + 1) st1 = Ok st' ->
    typed_edits m (ps_edits st')).
  { intros sk st1 H1 E. apply (IH sk (n + 1) st1); [lia|lia| |done].
    by replace (n + 1 - 1) with n by lia. }
  assert (Hstop : typed_edits m (ps_edits st)).
  { apply (typed_state_mono (n - 1) m st); [lia|done]. }
  apply (typed_state_mono _ n) in Hst; [|lia].
  destruct skip as [|k]; [|by apply Hnext]. cbv zeta.
  destruct (_ =? 0); [by apply Hnext|]. case_bool_decide; [by intros <-%(inj Ok)|].
  case_bool_decide; [by intros <-%(inj Ok)|]. case_bool_decide; [by apply Hnext|].
  destruct (insert_op_match HL_OP_INSERT_BEFORE l) as [[target body]|] eqn:E1;
    [|destruct (insert_op_match HL_OP_INSERT_AFTER l) as [[target body]|] eqn:E2;
      [|destruct (replace_op_match l) as [raw|]; [|by destruct (_ || _)]]].
  - destruct (parse_insert_op _ _ _ _ _ _) as [[st1 k]|] eqn:Ep; [|done]. apply Hnext.
    apply (parse_insert_typed KindBefore target body rest n st st1 k); try done.
    destruct body as [b|]; [|done]. by eapply insert_body_no_nl.
  - destruct (parse_insert_op _ _ _ _ _ _) as [[st1 k]|] eqn:Ep; [|done]. apply Hnext.
    apply (parse_insert_typed KindAfter target body rest n st st1 k); try done.
    destruct body as [b|]; [|done]. by eapply insert_body_no_nl.
  - destruct (parse_replace_op _ _ _ _) as [[st1 k]|] eqn:Ep; [|done]. apply Hnext.
    by apply (parse_replace_typed raw rest n st st1 k).
Qed.

Lemma strip_cr_no_nl l : no_char NL l -> no_char NL (strip_cr l).
Proof.
  intros H. unfold strip_cr. destruct (ends_with _ _); [|done]. unfold slice. by apply Forall_take, Forall_drop.
Qed.

Lemma input_lines_no_nl diff : Forall (no_char NL) (parse_input_lines diff).
Proof.
  assert (H : Forall (no_char NL) (split_crlf diff)).
  { unfold split_crlf. pose proof (split_on_no_char NL diff) as H. unfold split_lines.
    induction H as [|l ls Hl Hls IH]; cbn; [constructor|]. destruct ls; [by constructor|].
    constructor; [by apply strip_cr_no_nl|done]. }
  unfold parse_input_lines. destruct (_ && _); [|done].
  apply Forall_forall. intros x Hx. rewrite Forall_forall in H. apply H.
  clear H. revert Hx. induction (split_crlf diff) as [|y l IH]; cbn; [done|]. destruct l; [by intros ?%elem_of_nil|].
  intros [->|Hx]%elem_of_cons; apply elem_of_cons; auto.
Qed.

(** C40. Every input that parses gives well-typed edits: they are numbered in order from 0, they name
    lines of the input in order, an anchor has a line from 1 on and two letters as its hash (inside a
    range, the filler), and each inserted text is a single line. *)
Theorem parsed_edits_typed diff edits warnings :
  parseHashlineWithWarnings diff = Ok (edits, warnings) ->
  typed_edits (zlen (parse_input_lines diff)) edits.
Proof.
  unfold parseHashlineWithWarnings. destruct (parse_lines _ _ _ _) as [st|] eqn:E; [|done].
  intros H%(inj Ok). injection H as <- _. eapply parse_lines_typed; [| | | |exact E].
  - done.
  - lia.
  - apply input_lines_no_nl.
  - split; [|done]. split_and!; [constructor|done|constructor].
Qed.
End typed.
