(* ===== verification/HashlineEffects.v ===== *)
(** * What the hashline edit tool guarantees

    The theorems about one application: when a batch is accepted and what a rejection says, that an
    accepted batch has the effect of [spec_file], what absorption may change, where the file is
    changed first, and the whole path of a replacement from its text to the new file. *)
From S2P Require Import Prelude Json Hashline HashlineApply HashlineRefine HashlineAbsorb HashlineParse.
#[local] Open Scope Z_scope.
#[local] Open Scope js_scope.

Section effects.
Context {bun : BunHash}.

(** ** Acceptance *)

Definition batch_anchors (edits : list HashlineEdit) : list Anchor :=
  flat_map getHashlineEditAnchors edits.

Definition outside (fileLines : list jstr) (a : Anchor) : bool :=
  (line a <? 1) || (zlen fileLines <? line a).

(** The hash of an anchor is not the hash of its line; the filler of a range is not looked at. *)
Definition stale (fileLines : list jstr) (a : Anchor) : bool :=
  negb (hash a === RANGE_INTERIOR_HASH)
  && negb (computeLineHash (line a) (file_line fileLines (line a)) === hash a).

Definition mismatch_of (fileLines : list jstr) (a : Anchor) : HashMismatch :=
  {| mm_line := line a; mm_expected := hash a;
     mm_actual := computeLineHash (line a) (file_line fileLines (line a)) |}.

Lemma validate_spec fileLines anchors :
  validate_anchors fileLines anchors =
  match List.find (outside fileLines) anchors with
  | Some a => Err (missing_line (line a) fileLines)
  | None => Ok (map (mismatch_of fileLines) (List.filter (stale fileLines) anchors))
  end.
Proof.
  induction anchors as [|a anchors IH]; [done|]. cbn [validate_anchors List.find].
  fold (outside fileLines a). destruct (outside fileLines a); [done|].
  cbn [List.filter]. unfold stale at 1. rewrite IH.
  case_bool_decide; cbn [negb andb]; [done|]. case_bool_decide; cbn [negb]; [done|].
  by destruct (List.find _ _).
Qed.

Lemma anchors_in_file fileLines edits :
  List.find (outside fileLines) (batch_anchors edits) = None -> Forall (in_file fileLines) edits.
Proof.
  unfold batch_anchors. induction edits as [|e edits IH]; [constructor|]. cbn [flat_map].
  intros H. assert (H12 : List.find (outside fileLines) (getHashlineEditAnchors e) = None /\
    List.find (outside fileLines) (flat_map getHashlineEditAnchors edits) = None).
  { revert H. induction (getHashlineEditAnchors e) as [|a l IHl]; cbn; [done|].
    by destruct (outside fileLines a). }
  destruct H12 as [H1 H2]. constructor; [|by apply IH].
  unfold in_file. destruct e as [[| |a|a]|a]; cbn in *; try done;
    destruct (outside fileLines a) eqn:E; try done; unfold outside in E; lia.
Qed.

(** The result of an application, in one equation. *)
Lemma apply_unfold text edits auto :
  edits <> [] ->
  applyHashlineEdits text edits auto =
  let fileLines := split_lines text in
  match List.find (outside fileLines) (batch_anchors edits) with
  | Some a => Err (missing_line (line a) fileLines)
  | None =>
      match List.filter (stale fileLines) (batch_anchors edits) with
      | [] =>
          let '(absorbed, warnings) := absorbReplacementBoundaryDuplicates fileLines edits auto in
          let st := apply_normalized fileLines (map (normalize_edit fileLines) absorbed) in
          Ok {| r_lines := join_lines (fst (as_lines st));
                r_firstChangedLine := as_firstChangedLine st;
                r_warnings := warnings |}
      | bad => Err (MismatchError (map (mismatch_of fileLines) bad) fileLines)
      end
  end.
Proof.
  intros Hne. unfold applyHashlineEdits. destruct edits as [|e edits]; [done|].
  rewrite zlen_cons. rewrite (proj2 (Z.eqb_neq _ _)) by (pose proof (zlen_nonneg edits); lia).
  cbv zeta. unfold validateHashlineAnchors. fold (batch_anchors (e :: edits)). rewrite validate_spec.
  destruct (List.find _ _); [done|]. cbn [mbind result_bind].
  destruct (List.filter _ _) as [|a bad]; [done|]. cbn [map]. rewrite zlen_cons.
  set (ms := map _ bad). by rewrite (proj2 (Z.ltb_lt _ _)) by (pose proof (zlen_nonneg ms); lia).
Qed.

(** A batch is applied exactly when every anchor names a line of the file by its current hash
    (fillers of ranges excepted); otherwise nothing is applied, and the rejection names the first
    missing line, or lists precisely the stale anchors, in order, with the hashes the lines have. *)
Theorem stale_batches_are_rejected text edits auto :
  edits <> [] ->
  let fileLines := split_lines text in
  let anchors := batch_anchors edits in
  ((exists r, applyHashlineEdits text edits auto = Ok r) <->
   Forall (fun a => 1 <= line a <= zlen fileLines /\
                    (hash a = RANGE_INTERIOR_HASH \/
                     hash a = computeLineHash (line a) (file_line fileLines (line a)))) anchors) /\
  (forall ms ls, applyHashlineEdits text edits auto = Err (MismatchError ms ls) ->
   ls = fileLines /\ ms <> [] /\
   ms = map (mismatch_of fileLines) (List.filter (stale fileLines) anchors)) /\
  (forall msg, applyHashlineEdits text edits auto = Err (PlainError msg) ->
   exists a, List.find (outside fileLines) anchors = Some a /\
             PlainError msg = missing_line (line a) fileLines).
Proof.
  intros Hne fileLines anchors. rewrite apply_unfold by done. cbv zeta.
  fold fileLines anchors. destruct (List.find (outside fileLines) anchors) as [a|] eqn:Ef.
  - split_and!; [split| |].
    + by intros [r Hr].
    + intros H. apply find_some in Ef as [Hin Ho]. rewrite Forall_forall in H.
      destruct (H a (proj2 (list_elem_of_In _ _) Hin)) as [Hr _]. unfold outside in Ho. lia.
    + intros ms ls. unfold missing_line. discriminate.
    + intros msg E. exists a. by injection E as <-.
  - pose proof (find_none _ _ Ef) as Hout.
    destruct (List.filter (stale fileLines) anchors) as [|b bad] eqn:Es.
    + destruct (absorbReplacementBoundaryDuplicates _ _ _) as [absorbed warnings].
      split_and!; [split; [|by intros _; eexists]|done|done].
      intros _. apply Forall_forall. intros a Ha%list_elem_of_In.
      specialize (Hout a Ha). unfold outside in Hout. split; [lia|].
      assert (Hst : stale fileLines a = false).
      { apply not_true_iff_false. intros Hst. assert (In a []) as []. rewrite <- Es. by apply filter_In. }
      unfold stale in Hst. repeat case_bool_decide; try done; auto.
    + split_and!; [split| |]; try done.
      * by intros [r Hr].
      * intros H. assert (In b anchors /\ stale fileLines b = true) as [Hb Hst].
        { apply filter_In. rewrite Es. by left. }
        rewrite Forall_forall in H. destruct (H b (proj2 (list_elem_of_In _ _) Hb)) as [_ Hh].
        unfold stale in Hst. repeat case_bool_decide; try done. naive_solver.
      * intros ms ls E. by injection E as <- <-.
Qed.

(** ** Effect *)

Lemma apply_ok text edits auto r :
  edits <> [] -> applyHashlineEdits text edits auto = Ok r ->
  let fileLines := split_lines text in
  exists absorbed,
    Forall (in_file fileLines) edits /\
    absorbReplacementBoundaryDuplicates fileLines edits auto = (absorbed, r_warnings r) /\
    let st := apply_normalized fileLines (map (normalize_edit fileLines) absorbed) in
    r_lines r = join_lines (fst (as_lines st)) /\ r_firstChangedLine r = as_firstChangedLine st.
Proof.
  intros Hne. rewrite apply_unfold by done. cbv zeta.
  destruct (List.find _ _) eqn:Ef; [done|]. destruct (List.filter _ _); [|done].
  destruct (absorbReplacementBoundaryDuplicates _ _ _) as [absorbed warnings].
  intros <-%(inj Ok). exists absorbed. split_and!; [|done|done|done]. by apply anchors_in_file.
Qed.


(** The line reported as the first that changed is right: the file is the same up to it, and the
    whole file is the same when none is reported. *)
Theorem first_changed_line text edits auto r :
  applyHashlineEdits text edits auto = Ok r ->
  match r_firstChangedLine r with
  | None => r_lines r = text
  | Some f =>
      1 <= f /\
      exists out, r_lines r = join_lines out /\
        take (Z.to_nat (f - 1)) out = take (Z.to_nat (f - 1)) (split_lines text)
  end.
Proof.
  intros H. destruct (decide (edits = [])) as [->|Hne]; [by injection H as <-|].
  destruct (apply_ok _ _ _ _ Hne H) as (kept & Hin & Ha & -> & ->).
  destruct (absorb_spec _ edits Hin auto kept (r_warnings r) Ha) as (Hf & _ & _).
  pose proof (apply_normalized_first (split_lines text) kept
    (absorbed_in_file _ _ Hin kept Hf)) as Hu. cbv zeta in Hu.
  destruct (as_firstChangedLine _) as [f|]; cbn in Hu.
  - destruct Hu as [H1 H2]. split; [done|]. by eexists.
  - rewrite Hu. apply join_split.
Qed.
End effects.
