(* ===== verification/HashlineReplace.v ===== *)
(** * One replacement, from its text to the new file

    The path of a replacement operation that names lines [a] to [b] by the anchors that were shown for
    them: it parses, it validates, its boundary lines may be absorbed, and the lines it names become
    the payload.  [replace_lines] is the whole effect. *)
From S2P Require Import Prelude Json Hashline HashlineApply HashlineRefine HashlineAbsorb HashlineParse HashlineEffects.
#[local] Open Scope Z_scope.
#[local] Open Scope js_scope.

(** ** Lists of edits, seen as lines *)

Lemma existsb_deletes n es :
  existsb (deletes_line n) es = bool_decide (n ∈ omap del_line es).
Proof.
  induction es as [|[c t k i|a k i] es IH]; cbn [existsb omap list_omap deletes_line del_line]; [done|done|].
  cbn. rewrite IH. destruct (Z.eqb_spec (line a) n) as [<-|Hne]; cbn.
  - symmetry. apply bool_decide_eq_true_2. by left.
  - apply bool_decide_ext. rewrite elem_of_cons. naive_solver.
Qed.

Lemma omap_none {A B} (f : A -> option B) l : Forall (fun x => f x = None) l -> omap f l = [].
Proof. induction 1 as [|x l Hx _ IH]; [done|]. simpl. rewrite Hx. exact IH. Qed.

Lemma omap_imap {A B C} (f : nat -> A -> B) (g : B -> option C) (h : A -> C) l :
  (forall i x, g (f i x) = Some (h x)) -> omap g (imap f l) = map h l.
Proof.
  revert f. induction l as [|x l IH]; intros f H; [done|]. simpl. rewrite H.
  f_equal. apply IH. intros i y. apply H.
Qed.

(** Lines [lo] to [hi] go and [texts] stand where line [a] was. *)
Lemma each_line_hole f texts lo a hi ls :
  1 <= lo <= a -> a <= hi <= zlen ls ->
  (forall n l, f n l = (if n =? a then texts else []) ++ if (lo <=? n) && (n <=? hi) then [] else [l]) ->
  each_line f 1 ls = take (Z.to_nat (lo - 1)) ls ++ texts ++ drop (Z.to_nat hi) ls.
Proof.
  intros Hlo Hhi Hf. destruct (split_at ls a) as (pre & x & post & -> & Hp); [lia|].
  rewrite zlen_app, zlen_cons in Hhi. pose proof (zlen_nonneg post).
  rewrite each_line_app. cbn [each_line]. rewrite Hp. replace (1 + (a - 1)) with a by lia.
  rewrite (Hf a x), Z.eqb_refl, (proj2 (Z.leb_le lo a)), (proj2 (Z.leb_le a hi)) by lia.
  cbn [andb]. rewrite app_nil_r.
  rewrite take_app_le by (unfold zlen in *; lia).
  rewrite drop_app_ge by (unfold zlen in *; lia).
  replace (Z.to_nat hi - length pre)%nat with (S (Z.to_nat (hi - a))) by (unfold zlen in *; lia).
  cbn [drop]. rewrite <- (take_drop (Z.to_nat (lo - 1)) pre) at 1.
  rewrite <- (take_drop (Z.to_nat (hi - a)) post) at 1. rewrite !each_line_app.
  rewrite (zlen_take pre), (zlen_take post) by lia. rewrite (each_line_id f 1), (each_line_id f _ (drop _ post)).
  - assert (Hnil : forall m l, lo <= m -> m + zlen l <= hi + 1 ->
      (forall k, m <= k < m + zlen l -> k <> a) -> each_line f m l = []).
    { clear -Hf. intros m l. revert m. induction l as [|y l IH]; intros m Hm Hl Hne; [done|].
      cbn [each_line]. rewrite zlen_cons in *. pose proof (zlen_nonneg l).
      rewrite Hf, (proj2 (Z.eqb_neq m a)) by (apply Hne; lia).
      rewrite (proj2 (Z.leb_le lo m)), (proj2 (Z.leb_le m hi)) by lia. cbn.
      apply IH; [lia|lia|]. intros k Hk. apply Hne. lia. }
    rewrite !Hnil; rewrite ?zlen_take, ?zlen_drop by lia; [|lia..].
    by rewrite ?app_nil_r, <- ?app_assoc.
  - intros k l Hk. rewrite zlen_drop in Hk by lia. rewrite Hf, (proj2 (Z.eqb_neq k a)) by lia.
    rewrite (proj2 (Z.leb_gt k hi)) by lia. by rewrite andb_false_r.
  - intros k l Hk. rewrite zlen_take in Hk by lia. rewrite Hf, (proj2 (Z.eqb_neq k a)) by lia.
    by rewrite (proj2 (Z.leb_gt lo k)) by lia.
Qed.

(** ** Closing lines and delimiters *)

(** A line that only closes: brackets between blanks, with a comma or a semicolon. *)
Definition closing_line (l : jstr) : Prop :=
  exists s1 cs t s2, l = s1 ++ cs ++ t ++ s2 /\ all_ws s1 = true /\ cs <> [] /\ Forall (fun c => c ∈ u "])}") cs /\
    t ∈ [[]; u ";"; u ","] /\ all_ws s2 = true.

(** How much more often [open] occurs in the lines than [close]. *)
Definition surplus (open close : jchar) (ls : list jstr) : Z :=
  zlen (List.filter (Z.eqb open) (concat ls)) - zlen (List.filter (Z.eqb close) (concat ls)).
Definition same_delimiters (ls1 ls2 : list jstr) : Prop :=
  surplus 40 41 ls1 = surplus 40 41 ls2 /\ surplus 91 93 ls1 = surplus 91 93 ls2 /\ surplus 123 125 ls1 = surplus 123 125 ls2.

Lemma closer_elem c : is_closer c = true <-> c ∈ u "])}".
Proof.
  unfold is_closer. rewrite !orb_true_iff, !Z.eqb_eq. change (u "])}") with [93; 41; 125].
  rewrite !elem_of_cons, elem_of_nil. naive_solver.
Qed.
Lemma closer_not_ws c : is_closer c = true -> is_ws c = false.
Proof. unfold is_closer. rewrite !orb_true_iff, !Z.eqb_eq. by intros [[->| ->]| ->]. Qed.
Lemma all_ws_Forall l : all_ws l = true <-> Forall (fun c => is_ws c = true) l.
Proof. unfold all_ws. rewrite forallb_forall, Forall_forall. by setoid_rewrite list_elem_of_In. Qed.

Lemma closing_line_spec l : closing_line l <-> isStructuralClosingBoundaryLine l = true.
Proof.
  unfold isStructuralClosingBoundaryLine. split.
  - intros (s1 & cs & t & s2 & -> & H1 & Hne & Hc & Ht & H2). apply all_ws_Forall in H1.
    assert (Hc' : Forall (fun c => is_closer c = true) cs) by (eapply Forall_impl; [exact Hc|intros; by apply closer_elem]).
    destruct cs as [|c cs]; [done|]. cbn [app]. pose proof (closer_not_ws c ltac:(by inversion Hc')) as Hws.
    rewrite drop_while_app by done.
    assert (Hrest : forall r, match r with [] => True | y :: _ => is_closer y = false end ->
      take_while is_closer ((c :: cs) ++ r) = c :: cs /\ drop_while is_closer ((c :: cs) ++ r) = r).
    { intros [|y r] Hy; [rewrite app_nil_r; split; [by apply take_while_full|by apply drop_while_full]|].
      split; [by apply take_while_app|by apply drop_while_app]. }
    destruct (Hrest (t ++ s2)) as [E1 E2].
    { apply elem_of_cons in Ht as [->|Ht]; [|apply elem_of_cons in Ht as [->|Ht]; [|apply list_elem_of_singleton in Ht as ->]]; try done.
      destruct s2 as [|y s2]; [done|]. cbn. apply not_true_iff_false. intros Hy%closer_not_ws.
      cbn in H2. by rewrite Hy in H2. }
    cbn [app] in E1, E2. rewrite E1, E2.
    apply elem_of_cons in Ht as [->|Ht]; [|apply elem_of_cons in Ht as [->|Ht]; [|apply list_elem_of_singleton in Ht as ->]]; try done.
    cbn [app]. destruct s2 as [|y s2]; [done|]. destruct ((y =? 59) || (y =? 44)) eqn:Ey; [|done].
    cbn in H2. apply andb_true_iff in H2 as [_ H2]. done.
  - intros H. set (r := drop_while is_ws l) in H. set (cs := take_while is_closer r) in H. set (r' := drop_while is_closer r) in H.
    assert (Hl : l = take_while is_ws l ++ cs ++ r') by (unfold cs, r'; rewrite (take_drop_while is_closer r); symmetry; apply take_drop_while).
    assert (Hcs : Forall (fun c => c ∈ u "])}") cs).
    { eapply Forall_impl; [apply take_while_all|]. intros c Hc. by apply closer_elem. }
    assert (Hne : cs <> []) by (intros E; by rewrite E in H).
    assert (H' : match r' with c :: t => if (c =? 59) || (c =? 44) then all_ws t else all_ws (c :: t) | [] => true end = true)
      by (destruct cs; done).
    assert (Hs1 : all_ws (take_while is_ws l) = true) by (apply all_ws_Forall, take_while_all).
    destruct r' as [|c t]; [|destruct ((c =? 59) || (c =? 44)) eqn:Ec].
    + exists (take_while is_ws l), cs, [], []. rewrite app_nil_r in Hl. rewrite app_nil_r. split_and!; try done. by left.
    + exists (take_while is_ws l), cs, [c], t. split_and!; try done.
      apply orb_true_iff in Ec as [->%Z.eqb_eq| ->%Z.eqb_eq]; [by right; left|by right; right; left].
    + exists (take_while is_ws l), cs, [], (c :: t). split_and!; try done. by left.
Qed.

Lemma surplus_snoc o c l x :
  zlen (List.filter (Z.eqb o) (l ++ [x])) - zlen (List.filter (Z.eqb c) (l ++ [x])) =
  zlen (List.filter (Z.eqb o) l) - zlen (List.filter (Z.eqb c) l) + (if o =? x then 1 else 0) - (if c =? x then 1 else 0).
Proof.
  rewrite !List.filter_app, !zlen_app. cbn [List.filter]. destruct (o =? x), (c =? x); unfold zlen; cbn; lia.
Qed.

Lemma balance_fold ls :
  computeDelimiterBalance ls = fold_left count_delimiter (concat ls) ZERO_DELIMITER_BALANCE.
Proof.
  unfold computeDelimiterBalance. generalize ZERO_DELIMITER_BALANCE.
  induction ls as [|l ls IH]; intros b; [done|]. cbn [fold_left concat]. by rewrite IH, fold_left_app.
Qed.

Lemma balance_spec ls :
  computeDelimiterBalance ls = {| paren := surplus 40 41 ls; bracket := surplus 91 93 ls; brace := surplus 123 125 ls |}.
Proof.
  rewrite balance_fold. unfold surplus. generalize (concat ls). clear ls. intros l.
  induction l as [|x l IH] using rev_ind; [done|]. rewrite fold_left_app, IH, !surplus_snoc.
  cbn [fold_left]. unfold count_delimiter. rewrite !(Z.eqb_sym _ x).
  repeat match goal with |- context [x =? ?n] => destruct (Z.eqb_spec x n); [subst x; cbn; f_equal; lia|] end.
  f_equal; lia.
Qed.

Lemma delimiters_equal ls1 ls2 :
  delimiterBalancesEqual (computeDelimiterBalance ls1) (computeDelimiterBalance ls2) = true <-> same_delimiters ls1 ls2.
Proof.
  rewrite !balance_spec. unfold delimiterBalancesEqual, same_delimiters. cbn.
  rewrite !andb_true_iff, !Z.eqb_eq. tauto.
Qed.

(** ** The edits of a replacement *)

Section replacement.
Context {bun : BunHash} (fileLines payload : list jstr) (a b src : Z).
Hypothesis range_in_file : 1 <= a <= b /\ b <= zlen fileLines.
Let from := line_anchor a (file_line fileLines a).
Let to := line_anchor b (file_line fileLines b).
Let anchors := expandRange {| start := from; end_ := to |}.

Definition replace_inserts : list HashlineEdit :=
  imap (fun i text => Insert (BeforeAnchor from) text src (Z.of_nat i)) payload.
Definition replace_deletes : list HashlineEdit :=
  imap (fun i an => Delete an src (zlen payload + Z.of_nat i)) anchors.
Let edits := replace_inserts ++ replace_deletes.

Lemma anchors_lines : map line anchors = seqZ a (b - a + 1).
Proof.
  unfold anchors, expandRange. cbn [start end_ from to line line_anchor]. rewrite map_map. cbn [line].
  apply map_id.
Qed.

Lemma anchors_fresh : Forall (fun an => outside fileLines an = false /\ stale fileLines an = false) anchors.
Proof.
  unfold anchors, expandRange. cbn [start end_ from to line line_anchor hash].
  apply Forall_map, Forall_forall. intros n Hn%elem_of_seqZ. unfold outside, stale. cbn [line hash].
  split; [lia|]. destruct (Z.eqb_spec n a) as [->|]; [|destruct (Z.eqb_spec n b) as [->|]].
  - case_bool_decide; [done|]. by case_bool_decide.
  - case_bool_decide; [done|]. by case_bool_decide.
  - by case_bool_decide.
Qed.

Lemma deletes_lines : omap del_line replace_deletes = seqZ a (b - a + 1).
Proof. unfold replace_deletes. rewrite <- anchors_lines. apply omap_imap. intros i x. reflexivity. Qed.

Lemma batch_anchors_fresh :
  Forall (fun an => outside fileLines an = false /\ stale fileLines an = false) (batch_anchors edits).
Proof.
  pose proof anchors_fresh as H. unfold batch_anchors, edits. rewrite flat_map_app. apply Forall_app. split.
  - apply (Forall_flat_map_impl (fun e => getHashlineEditAnchors e = [from])).
    + intros e ->. constructor; [|constructor]. rewrite Forall_forall in H.
      apply H. unfold anchors, expandRange. apply list_elem_of_In, in_map_iff. exists a.
      cbn. rewrite Z.eqb_refl. split; [done|]. apply list_elem_of_In, elem_of_seqZ. lia.
    + by apply Forall_imap_all.
  - unfold replace_deletes. generalize (zlen payload). clear -H.
    induction H as [|an l Hn _ IH]; intros k; cbn; [constructor|]. constructor; [done|].
    specialize (IH (k + 1)). erewrite imap_ext in IH; [exact IH|]. intros i x _. cbn. f_equal. lia.
Qed.

(** ** Its group *)

Lemma replacement_run_inserts (f : nat -> jstr -> HashlineEdit) l rest :
  (forall i t, exists k, f i t = Insert (BeforeAnchor from) t src k) ->
  match rest with Insert _ _ _ _ :: _ => False | _ => True end ->
  replacement_run src (imap f l ++ rest) = (l, rest).
Proof.
  intros Hf Hr. revert f Hf. induction l as [|t l IH]; intros f Hf; cbn [imap app].
  - destruct rest as [|[] rest]; done.
  - destruct (Hf 0%nat t) as [k ->]. cbn [replacement_run]. rewrite Z.eqb_refl.
    by rewrite (IH (f ∘ S)) by (intros i t'; apply Hf).
Qed.

Lemma delete_run_deletes (f : nat -> Anchor -> HashlineEdit) l :
  (forall i an, exists k, f i an = Delete an src k) ->
  map d_anchor (delete_run src (imap f l)) = l.
Proof.
  intros Hf. revert f Hf. induction l as [|an l IH]; intros f Hf; cbn [imap]; [done|].
  destruct (Hf 0%nat an) as [k ->]. cbn [delete_run]. rewrite Z.eqb_refl. cbn [map d_anchor].
  f_equal. apply IH. intros i an'. apply Hf.
Qed.

Lemma consecutive_seqZ n k ds :
  map (fun d => line (d_anchor d)) ds = seqZ n k -> consecutive n ds = true.
Proof.
  revert n k. induction ds as [|d ds IH]; intros n k H; [done|].
  destruct (Z.leb_spec k 0); [by rewrite seqZ_nil in H by lia|].
  rewrite seqZ_cons in H by lia. injection H as H1 H2. cbn. rewrite H1, Z.eqb_refl.
  by apply (IH _ (Z.pred k)).
Qed.

Lemma anchors_head : exists l, anchors = from :: l.
Proof.
  unfold anchors, expandRange. cbn [start end_ from to line line_anchor].
  rewrite seqZ_cons by lia. cbn [map]. rewrite Z.eqb_refl. by eexists.
Qed.

Lemma anchors_last : option_map line (last anchors) = Some b.
Proof.
  assert (H : last (map line anchors) = Some b).
  { rewrite anchors_lines. rewrite seqZ_app by lia. rewrite (seqZ_cons _ 1), (seqZ_nil _ (Z.pred 1)) by lia.
    rewrite last_snoc. f_equal. lia. }
  revert H. generalize anchors. clear. intros l. induction l as [|x [|y l] IH]; done.
Qed.

Lemma replacement_group :
  payload <> [] ->
  exists g, findReplacementGroup edits = Some g /\ g_size g = length edits /\
    g_sourceLineNum g = src /\ g_replacement g = payload /\
    map d_anchor (g_deletes g) = anchors /\ g_startLine g = a /\ g_endLine g = b.
Proof.
  intros Hne. assert (Hrun : replacement_run src edits = (payload, replace_deletes)).
  { apply replacement_run_inserts; [by eexists|]. unfold replace_deletes.
    by destruct anchors_head as [l ->]. }
  assert (Hdel : map d_anchor (delete_run src replace_deletes) = anchors).
  { apply delete_run_deletes. by eexists. }
  assert (Hlen : length (delete_run src replace_deletes) = length replace_deletes).
  { rewrite <- (length_map d_anchor), Hdel. unfold replace_deletes. by rewrite length_imap. }
  destruct anchors_head as [l Hhd]. unfold findReplacementGroup.
  destruct edits as [|e rest] eqn:Ee; [by destruct payload|].
  assert (He : exists t k, e = Insert (BeforeAnchor from) t src k).
  { unfold edits, replace_inserts in Ee. destruct payload as [|t p]; [done|].
    injection Ee as <- _. by eexists _, _. }
  destruct He as (t & k & ->). rewrite Hrun.
  destruct (delete_run src replace_deletes) as [|d ds] eqn:Ed; [by rewrite Hhd in Hdel|].
  assert (Hd : d_anchor d = from) by (rewrite Hhd in Hdel; by injection Hdel).
  rewrite Hd. cbn [line from line_anchor].
  rewrite (consecutive_seqZ a (b - a + 1)), Z.eqb_refl.
  2: { rewrite <- anchors_lines, <- Hdel, map_map. done. }
  eexists. split; [done|]. cbn [g_size g_sourceLineNum g_replacement g_deletes g_startLine head].
  split_and!; try done.
  - rewrite <- Ee. unfold edits, replace_inserts. rewrite length_app, length_imap, Hlen. done.
  - unfold g_startLine. cbn [g_deletes head]. by rewrite Hd.
  - unfold g_endLine. cbn [g_deletes]. pose proof anchors_last as H. rewrite <- Hdel in H.
    revert H. generalize (d :: ds). clear. intros l H. rewrite fmap_last in H.
    destruct (last l) as [d'|]; [|done]. by injection H as ->.
Qed.

(** ** The lines that are absorbed *)

Let targets := collectAnchorTargetLines edits.

Lemma targets_range n : n ∈ targets -> a <= n <= b.
Proof.
  unfold targets, collectAnchorTargetLines. rewrite elem_of_list_to_set. unfold edits.
  rewrite omap_app, elem_of_app. intros [H|H].
  - unfold replace_inserts in H. rewrite (omap_imap _ _ (fun _ => a)) in H by done.
    apply list_elem_of_In, in_map_iff in H as (x & <- & _). lia.
  - unfold replace_deletes in H. rewrite (omap_imap _ _ line) in H by done.
    change (n ∈ map line anchors) in H. rewrite anchors_lines in H. apply elem_of_seqZ in H. lia.
Qed.

Definition deleted_balance : DelimiterBalance :=
  computeDelimiterBalance (map (file_line fileLines) (seqZ a (b - a + 1))).

(** The payload lines that repeat the lines above and below, as the code counts them. *)
Definition repeated_above : Z :=
  or_count (countMatchingPrefixBlock fileLines a payload)
    (countMatchingSingleStructuralPrefixBoundary fileLines a payload deleted_balance).
Definition repeated_below : Z :=
  or_count (countMatchingSuffixBlock fileLines b payload)
    (countMatchingSingleStructuralSuffixBoundary fileLines b payload deleted_balance).

Lemma no_targets lo k :
  (forall n, lo <= n < lo + k -> n < a \/ b < n) ->
  hasExternalTargets (contiguousRange lo k) targets = false.
Proof.
  intros H. apply not_true_iff_false. unfold hasExternalTargets. rewrite existsb_exists.
  intros (n & Hn & Ht). apply list_elem_of_In, elem_of_seqZ in Hn.
  apply bool_decide_eq_true, targets_range in Ht. specialize (H n Hn). lia.
Qed.

Lemma group_counts g :
  g_replacement g = payload -> map d_anchor (g_deletes g) = anchors -> g_startLine g = a ->
  g_endLine g = b -> safe_counts fileLines g targets = (repeated_above, repeated_below).
Proof.
  intros Hr Hd Hs He. unfold safe_counts. rewrite Hr, Hs, He.
  assert (map (fun d => file_line fileLines (line (d_anchor d))) (g_deletes g) =
          map (file_line fileLines) (seqZ a (b - a + 1))) as ->.
  { rewrite <- anchors_lines, <- Hd, !map_map. done. }
  fold deleted_balance repeated_above repeated_below.
  rewrite !no_targets; [done| |]; intros n Hn; lia.
Qed.

Lemma absorb_loop_skip rest skip tg auto st :
  (length rest <= skip)%nat -> absorb_loop fileLines rest skip tg auto st = st.
Proof.
  revert skip. induction rest as [|e rest IH]; intros [|k] H; cbn in *; try done; [lia|].
  apply IH. lia.
Qed.

Lemma absorb_loop_group es g tg auto st :
  findReplacementGroup es = Some g -> g_size g = length es ->
  absorb_loop fileLines es 0 tg auto st = absorb_replacement fileLines es g tg st.
Proof.
  intros Hg Hsz. destruct es as [|e rest]; [done|]. cbn [absorb_loop]. rewrite Hg, Hsz.
  apply absorb_loop_skip. simpl. lia.
Qed.

Lemma absorb_loop_deletes ds tg auto st :
  Forall (fun e => is_delete e = true) ds ->
  ab_absorbed (absorb_loop fileLines ds 0 tg auto st) = ab_absorbed st ++ ds.
Proof.
  intros H. revert st. induction H as [|e ds He _ IH]; intros st; cbn [absorb_loop].
  - by rewrite app_nil_r.
  - destruct e as [|an n i]; [done|]. cbn [findReplacementGroup findPureInsertGroup].
    rewrite IH. cbn. by rewrite <- app_assoc.
Qed.

(** What is applied: the edits, with deletions of the repeated lines around them. *)
Lemma absorbed_form auto :
  exists pre suf,
    fst (absorbReplacementBoundaryDuplicates fileLines edits auto) = pre ++ edits ++ suf /\
    Forall (fun e => is_delete e = true) (pre ++ suf) /\
    omap del_line pre = seqZ (a - repeated_above) repeated_above /\
    omap del_line suf = seqZ (b + 1) repeated_below.
Proof.
  unfold absorbReplacementBoundaryDuplicates. fold targets. cbn [fst].
  set (st0 := Build_AbsorbState _ _ _ _). destruct (decide (payload = [])) as [Hn|Hne].
  - exists [], []. unfold edits, replace_inserts. rewrite Hn. cbn [imap app].
    rewrite absorb_loop_deletes by by apply Forall_imap_all. cbn. rewrite app_nil_r.
    assert (Hz : forall k, 0 <= k -> Z.to_nat (Z.min (zlen (@nil jstr)) k) = 0%nat).
    { intros k Hk. unfold zlen. simpl. lia. }
    unfold repeated_above, repeated_below, countMatchingPrefixBlock, countMatchingSuffixBlock.
    rewrite Hn, !Hz by lia. split_and!; [done|constructor|done|done].
  - destruct (replacement_group Hne) as (g & Hg & Hsz & Hsrc & Hr & Hd & Hs & He).
    rewrite (absorb_loop_group _ g) by done. unfold absorb_replacement.
    rewrite (group_counts g Hr Hd Hs He), Hsrc, Hs, He.
    set (st1 := if 0 <? repeated_above then _ else st0).
    set (st2 := if 0 <? repeated_below then _ else st1).
    assert (H2 : ab_absorbed st2 = []).
    { unfold st2, st1. destruct (0 <? repeated_below), (0 <? repeated_above);
        by rewrite ?warn_once_absorbed. }
    destruct (emit_deletes_absorbed fileLines src (contiguousRange (a - repeated_above) repeated_above) st2)
      as (pre & E3 & F3 & L3).
    set (st3 := emit_all _ _ st2) in *. rewrite Hsz, firstn_all.
    destruct (emit_deletes_absorbed fileLines src (contiguousRange (b + 1) repeated_below) (emit_all emit edits st3))
      as (suf & E5 & F5 & L5).
    exists pre, suf. rewrite E5, emit_all_absorbed, E3, H2. cbn [app].
    split_and!; [by rewrite <- app_assoc|by apply Forall_app|done|done].
Qed.

Lemma repeated_blocks :
  block_above fileLines payload (a - 1) repeated_above /\ block_below fileLines payload b repeated_below.
Proof. split; [apply above_count_block; lia | apply below_count_block; lia]. Qed.

Lemma repeated_bounds :
  0 <= repeated_above <= a - 1 /\ 0 <= repeated_below <= zlen fileLines - b.
Proof. destruct repeated_blocks as [(H1 & H2 & _) (H3 & H4 & _)]. lia. Qed.

Lemma deletes_all : Forall (fun e => is_delete e = true) replace_deletes.
Proof. by apply Forall_imap_all. Qed.

Lemma deletes_omap {B} (f : HashlineEdit -> option B) es :
  Forall (fun e => is_delete e = true) es -> (forall an n i, f (Delete an n i) = None) ->
  omap f es = [].
Proof.
  intros H Hf. apply omap_none. eapply Forall_impl; [exact H|]. intros [|an n i]; [done|auto].
Qed.

Lemma kept_spec pre suf :
  Forall (fun e => is_delete e = true) (pre ++ suf) ->
  omap del_line pre = seqZ (a - repeated_above) repeated_above ->
  omap del_line suf = seqZ (b + 1) repeated_below ->
  spec_file fileLines (pre ++ edits ++ suf) =
  take (Z.to_nat (a - 1 - repeated_above)) fileLines ++ payload
    ++ drop (Z.to_nat (b + repeated_below)) fileLines.
Proof.
  intros [Hp Hs]%Forall_app Lp Ls. pose proof repeated_bounds as [Ha Hb].
  assert (Hins : forall B (f : HashlineEdit -> option B), (forall an n i, f (Delete an n i) = None) ->
    omap f (pre ++ edits ++ suf) = omap f replace_inserts).
  { intros B f Hf. unfold edits. rewrite !omap_app.
    by rewrite (deletes_omap f pre), (deletes_omap f suf), (deletes_omap f replace_deletes), !app_nil_r
      by (done || apply deletes_all). }
  unfold spec_file. rewrite !Hins by done.
  rewrite (omap_none (text_eof fileLines)), (omap_none text_bof) by by apply Forall_imap_all.
  cbn [place_start place_end].
  rewrite (each_line_hole _ payload (a - repeated_above) a (b + repeated_below)); [|lia|lia|].
  { by replace (a - repeated_above - 1) with (a - 1 - repeated_above) by lia. }
  intros n l. unfold spec_line. rewrite Hins by done. f_equal.
  - unfold replace_inserts. destruct (Z.eqb_spec n a) as [Hn|Hne].
    + rewrite (omap_imap _ _ id); [apply map_id|]. intros i x. cbn.
      by rewrite Hn, Z.eqb_refl.
    + apply omap_none, Forall_imap_all. intros i x. cbn.
      by rewrite (proj2 (Z.eqb_neq a n)) by congruence.
  - rewrite existsb_deletes. unfold edits. rewrite !omap_app, Lp, Ls, deletes_lines.
    rewrite (omap_none del_line replace_inserts) by by apply Forall_imap_all. cbn [app].
    assert (Hd : forall c : bool, (n ∈ seqZ (a - repeated_above) repeated_above
      ++ seqZ a (b - a + 1) ++ seqZ (b + 1) repeated_below <-> c = true) ->
      bool_decide (n ∈ seqZ (a - repeated_above) repeated_above ++ seqZ a (b - a + 1)
        ++ seqZ (b + 1) repeated_below) = c).
    { intros [] H; [apply bool_decide_eq_true_2|apply bool_decide_eq_false_2]; naive_solver. }
    rewrite (Hd ((a - repeated_above <=? n) && (n <=? b + repeated_below))); [done|].
    rewrite !elem_of_app, !elem_of_seqZ. lia.
Qed.

(** ** What counts as a repetition *)

(** The closing line [x] at an end of the payload is one too many: the payload without it, [rest], has the delimiters
    of the lines that are replaced, and the whole payload has not. *)
Definition superfluous (x : option jstr) (rest : list jstr) : Prop :=
  (exists l, x = Some l /\ closing_line l) /\
  same_delimiters rest (map (file_line fileLines) (seqZ a (b - a + 1))) /\
  ~ same_delimiters payload (map (file_line fileLines) (seqZ a (b - a + 1))).

(** The first [p] payload lines repeat the lines above the range: [p] is the greatest number from two on of which that is
    true; if there is none, [p] is one for a superfluous closing line and zero otherwise. *)
Definition repeats_above (p : Z) : Prop :=
  block_above fileLines payload (a - 1) p /\
  (forall k, 2 <= k -> block_above fileLines payload (a - 1) k -> k <= p) /\
  (p < 2 -> (p = 1 <-> block_above fileLines payload (a - 1) 1 /\ superfluous (head payload) (drop 1 payload))).
(** The same for the last payload lines and the lines below the range. *)
Definition repeats_below (s : Z) : Prop :=
  block_below fileLines payload b s /\
  (forall k, 2 <= k -> block_below fileLines payload b k -> k <= s) /\
  (s < 2 -> (s = 1 <-> block_below fileLines payload b 1 /\ superfluous (last payload) (removelast payload))).

Lemma superfluous_spec x rest :
  superfluous x rest <->
  exists l, x = Some l /\ isStructuralClosingBoundaryLine l = true /\
    shouldDropSingleStructuralBoundary payload rest deleted_balance = true.
Proof.
  unfold superfluous, shouldDropSingleStructuralBoundary, deleted_balance. rewrite <- !delimiters_equal.
  setoid_rewrite closing_line_spec. set (b1 := delimiterBalancesEqual _ _). set (b2 := delimiterBalancesEqual _ _).
  clearbody b1 b2. destruct b1, b2; naive_solver.
Qed.

Lemma repeated_above_spec : repeats_above repeated_above.
Proof.
  split; [apply repeated_blocks|]. unfold repeated_above, or_count.
  destruct (prefix_block_max fileLines payload a ltac:(lia)) as (_ & H2 & H3).
  destruct (single_prefix_iff fileLines payload a deleted_balance ltac:(lia)) as [[E H]|[E H]];
    unfold single_above in H; rewrite <- superfluous_spec in H; rewrite E;
    destruct (Z.eqb_spec (countMatchingPrefixBlock fileLines a payload) 0) as [E0|E0]; rewrite ?E0 in H3;
    (split; [intros k Hk Hb; specialize (H3 k Hk Hb); lia|intros Hs; try lia]).
  - by split.
  - by split.
Qed.
Lemma repeated_below_spec : repeats_below repeated_below.
Proof.
  split; [apply repeated_blocks|]. unfold repeated_below, or_count.
  destruct (suffix_block_max fileLines payload b ltac:(lia)) as (_ & H2 & H3).
  destruct (single_suffix_iff fileLines payload b deleted_balance ltac:(lia)) as [[E H]|[E H]];
    unfold single_below in H; rewrite <- superfluous_spec in H; rewrite E;
    destruct (Z.eqb_spec (countMatchingSuffixBlock fileLines b payload) 0) as [E0|E0]; rewrite ?E0 in H3;
    (split; [intros k Hk Hb; specialize (H3 k Hk Hb); lia|intros Hs; try lia]).
  - by split.
  - by split.
Qed.
End replacement.

Section pipeline.
Context {bun : BunHash}.

Lemma number_map {A} k (mk : A -> Z -> HashlineEdit) l :
  number_edits k (map mk l) = imap (fun i x => mk x (k + Z.of_nat i)) l.
Proof.
  unfold number_edits. revert k. induction l as [|x l IH]; intros k; [done|]. cbn. f_equal.
  specialize (IH (k + 1)). erewrite imap_ext in IH; [erewrite (imap_ext _ _ l) in IH; [exact IH|]|];
    intros i y _; cbn; f_equal; lia.
Qed.

(** The replacement of lines [a] to [b] by the anchors shown for them. *)
Definition replace_op (fileLines payload : list jstr) (a b : Z) : Op :=
  OpReplace (line_anchor a (file_line fileLines a)) (line_anchor b (file_line fileLines b)) payload.

Lemma replace_op_edits fileLines payload a b :
  a <= b ->
  ops_edits [replace_op fileLines payload a b] =
  replace_inserts fileLines payload a 1 ++ replace_deletes fileLines payload a b 1.
Proof.
  intros Hab. unfold ops_edits. cbn [ops_makers op_makers replace_op].
  rewrite <- expandRange_spec; [|done|by intros E; cbn in E; subst]. rewrite app_nil_r, number_edits_app, !number_map.
  rewrite zlen_map. unfold replace_inserts, replace_deletes. f_equal.
Qed.

Lemma replace_applies text payload a b auto :
  let fileLines := split_lines text in
  1 <= a <= b -> b <= zlen fileLines ->
  exists r, applyHashlineEdits text (ops_edits [replace_op fileLines payload a b]) auto = Ok r /\
    r_lines r = join_lines
      (take (Z.to_nat (a - 1 - repeated_above fileLines payload a b)) fileLines ++ payload
       ++ drop (Z.to_nat (b + repeated_below fileLines payload a b)) fileLines).
Proof.
  intros F Hab Hb. rewrite replace_op_edits by lia.
  pose proof (batch_anchors_fresh F payload a b 1 (conj Hab Hb)) as Hfresh.
  set (edits := replace_inserts F payload a 1 ++ replace_deletes F payload a b 1) in *.
  assert (Hne : edits <> []).
  { destruct (anchors_head F a b (conj Hab Hb)) as [l Hl]. unfold edits, replace_deletes. rewrite Hl.
    intros E. apply app_eq_nil in E as [_ E]. done. }
  rewrite apply_unfold by done. cbv zeta. fold F.
  rewrite Forall_forall in Hfresh.
  destruct (List.find (outside F) (batch_anchors edits)) as [an|] eqn:Ef.
  { apply find_some in Ef as [Hin Ho]. destruct (Hfresh an (proj2 (list_elem_of_In _ _) Hin)). congruence. }
  destruct (List.filter (stale F) (batch_anchors edits)) as [|an l] eqn:Es.
  2: { assert (In an (batch_anchors edits) /\ stale F an = true) as [Hin Hst].
       { apply filter_In. rewrite Es. by left. }
       destruct (Hfresh an (proj2 (list_elem_of_In _ _) Hin)). congruence. }
  pose proof (absorbed_form F payload a b 1 (conj Hab Hb) auto) as (pre & suf & Ea & Fd & Lp & Ls).
  fold edits in Ea. destruct (absorbReplacementBoundaryDuplicates F edits auto) as [absorbed w] eqn:Eab.
  cbn [fst] in Ea. eexists. split; [done|]. cbn [r_lines]. f_equal. subst absorbed.
  rewrite apply_normalized_spec; [by apply kept_spec|].
  apply (absorbed_in_file F edits); [by apply anchors_in_file|].
  apply (absorb_spec F edits (anchors_in_file _ _ Ef) auto _ w Eab).
Qed.

(** C35. A replacement written with the anchors that were shown does what it says: its text parses, the
    batch is accepted, and lines [a] to [b] become the payload.  Lines that the payload repeats at its ends stay single:
    two or more lines equal to those next to the range, or one closing line of which there would be one too many (the
    [p] of [repeats_above] and the [s] of [repeats_below]); the payload then stands for those lines as well, and unless a
    payload line is counted on both sides the rest of the payload is what takes the place of the range. *)
Theorem replace_lines text payload a b auto :
  let fileLines := split_lines text in
  1 <= a <= b -> b <= zlen fileLines -> Forall payload_line payload ->
  exists edits r out p s,
    parseHashline (print_ops [replace_op fileLines payload a b]) = Ok edits /\
    applyHashlineEdits text edits auto = Ok r /\ r_lines r = join_lines out /\
    repeats_above fileLines payload a b p /\ repeats_below fileLines payload a b s /\
    out = take (Z.to_nat (a - 1 - p)) fileLines ++ payload ++ drop (Z.to_nat (b + s)) fileLines /\
    (p + s <= zlen payload ->
     out = take (Z.to_nat (a - 1)) fileLines ++ slice payload p (zlen payload - s)
           ++ drop (Z.to_nat b) fileLines).
Proof.
  intros F Hab Hb Hp. assert (Hwf : Forall wf_op [replace_op F payload a b]).
  { constructor; [|constructor]. cbn. split_and!; try apply line_anchor_wf; try lia; [|done].
    intros E. cbn in E. by subst. }
  destruct (replace_applies text payload a b auto Hab Hb) as (r & Hr & Hl). fold F in Hr, Hl.
  set (p := repeated_above F payload a b) in *. set (s := repeated_below F payload a b) in *.
  exists (ops_edits [replace_op F payload a b]), r, (take (Z.to_nat (a - 1 - p)) F ++ payload
    ++ drop (Z.to_nat (b + s)) F), p, s. destruct (repeated_blocks F payload a b (conj Hab Hb)) as [Hu Hw].
  split_and!; [|done|done|by apply repeated_above_spec|by apply repeated_below_spec|done|].
  { unfold parseHashline. by rewrite parse_printed_ops. }
  intros Hps. fold p s in Hu, Hw.
  destruct (block_above_split F payload (a - 1) p ltac:(lia) Hu) as [E1 _].
  destruct (block_below_split F payload b s ltac:(lia) Hw) as [E2 _].
  rewrite E1, E2, <- app_assoc. f_equal. rewrite !app_assoc. f_equal.
  destruct Hu as (Hu & _). destruct Hw as (Hw & _).
  rewrite slice_spec by lia. rewrite <- (take_drop (Z.to_nat p) payload) at 1. rewrite <- app_assoc. f_equal.
  rewrite <- (take_drop (Z.to_nat (zlen payload - s - p)) (drop (Z.to_nat p) payload)) at 1.
  f_equal. rewrite drop_drop. f_equal. lia.
Qed.
End pipeline.

(** A hash for the witnesses: any function of the text with values that are not negative. *)
Definition sum_hash (s : jstr) : Z := fold_left (fun h c => (31 * h + c) mod 4294967296) s 7.

Lemma sum_hash_nonneg s : 0 <= sum_hash s.
Proof.
  unfold sum_hash. assert (H : 0 <= 7) by lia. revert H. generalize 7.
  induction s as [|c s IH]; intros h H; cbn [fold_left]; [done|]. apply IH.
  apply Z.mod_pos_bound. lia.
Qed.

Definition demo_hash : BunHash := {| xxHash32 := sum_hash; xxHash32_nonneg := sum_hash_nonneg |}.

(** Where a payload line is counted twice, text is lost: the file [a b x a b], with line 3 replaced by
    [a b], becomes [a b] instead of [a b a b a b]. *)
Lemma absorption_counts_lines_twice {bun : BunHash} auto :
  let text := join_lines [u "a"; u "b"; u "x"; u "a"; u "b"] in
  exists r,
    applyHashlineEdits text (ops_edits [replace_op (split_lines text) [u "a"; u "b"] 3 3]) auto = Ok r /\
    r_lines r = join_lines [u "a"; u "b"].
Proof.
  cbv zeta. destruct (replace_applies (join_lines [u "a"; u "b"; u "x"; u "a"; u "b"])
    [u "a"; u "b"] 3 3 auto) as (r & Hr & E); [lia|vm_compute; discriminate|].
  exists r. split; [done|]. rewrite E. vm_compute. reflexivity.
Qed.
