(* ===== verification/HashlineInput.v ===== *)
(** * The sections of a hashline input: CA/hashline/input.ts

    An input holds one section per file, each after a header line.  The path functions of the
    runtime (node:path) are the class [NodePath].  The merge of the sections of one path, from
    CA/hashline/execute.ts, is here too.  Theorems: sections are read back from their text, and no
    section ever holds the abort marker. *)
From S2P Require Import Prelude Json Hashline HashlineParse.
#[local] Open Scope Z_scope.
#[local] Open Scope js_scope.

(** [path.isAbsolute], [path.relative] and [path.resolve]. *)
Class NodePath := {
  path_isAbsolute : jstr -> bool;
  path_relative : jstr -> jstr -> jstr;
  path_resolve : jstr -> jstr;
}.

Record HashlineInputSection := { s_path : jstr; s_diff : jstr }.

Record SplitHashlineOptions := { o_cwd : option jstr; o_path : option jstr }.

Definition BOM : jchar := 65279.

Definition unquoteHashlinePath (pathText : jstr) : jstr :=
  if zlen pathText <? 2 then pathText
  else
    match head pathText, last pathText with
    | Some first, Some final =>
        if ((first =? 34) || (first =? 39)) && (first =? final) then slice pathText 1 (-1)
        else pathText
    | _, _ => pathText
    end.

Definition isPatchEnvelopeMarker (l : jstr) : bool :=
  let trimmed := trim_end l in
  (trimmed === BEGIN_PATCH_MARKER) || (trimmed === END_PATCH_MARKER).

(** The loop of [stripLeadingBlankLines]. *)
Fixpoint shift_blank (lines : list jstr) : list jstr :=
  match lines with
  | [] => []
  | l :: rest =>
      let hd := strip_cr l in
      if (zlen (trim hd) =? 0) || (trim_end hd === BEGIN_PATCH_MARKER) then shift_blank rest
      else lines
  end.

Definition strip_bom (input : jstr) : jstr :=
  if starts_with input [BOM] then slice_from input 1 else input.

Definition stripLeadingBlankLines (input : jstr) : jstr :=
  join_lines (shift_blank (split_lines (strip_bom input))).

(** [HASHLINE_OP_LINE_RE] on some line. *)
Definition containsRecognizableHashlineOperations (input : jstr) : bool :=
  existsb (fun l => match l with c :: _ => is_op_char c | [] => false end) (split_crlf input).

Definition empty_header : HashlineError :=
  PlainError (u "Input header " ++ [34; HL_FILE_PREFIX; 34] ++ u " is empty; provide a file path.").

(** A truthy string option. *)
Definition truthy (o : option jstr) : option jstr :=
  match o with Some (_ :: _) => o | _ => None end.

Section input.
Context {np : NodePath}.

Definition normalizeHashlinePath (rawPath : jstr) (cwd : option jstr) : jstr :=
  let unquoted := unquoteHashlinePath (trim rawPath) in
  match truthy cwd with
  | None => unquoted
  | Some cwd =>
      if negb (path_isAbsolute unquoted) then unquoted
      else
        let relative := path_relative (path_resolve cwd) (path_resolve unquoted) in
        let isWithinCwd :=
          (relative ==s "")
          || (negb (starts_with relative (u "..")) && negb (path_isAbsolute relative)) in
        if isWithinCwd then (if relative ==s "" then u "." else relative) else unquoted
  end.

(** [None] is [null]: the line is no header.  Only the path of the section is of use. *)
Definition parseHashlineHeaderLine (l : jstr) (cwd : option jstr)
    : result HashlineError (option jstr) :=
  let trimmed := trim_end l in
  if negb (starts_with trimmed [HL_FILE_PREFIX]) then Ok None
  else
    let rest := drop_while (fun c => c =? HL_FILE_PREFIX) trimmed in
    if zlen (trim rest) =? 0 then Err empty_header
    else
      let parsedPath := normalizeHashlinePath rest cwd in
      if zlen parsedPath =? 0 then Err empty_header else Ok (Some parsedPath).

(** [lines.some(l => parseHashlineHeaderLine(l, cwd) !== null)]. *)
Fixpoint some_header (lines : list jstr) (cwd : option jstr) : result HashlineError bool :=
  match lines with
  | [] => Ok false
  | l :: rest =>
      header ← parseHashlineHeaderLine l cwd;
      match header with Some _ => Ok true | None => some_header rest cwd end
  end.

Definition normalizeFallbackInput (input : jstr) (options : SplitHashlineOptions)
    : result HashlineError jstr :=
  hasExplicitHeader ← some_header (split_crlf (strip_bom input)) (o_cwd options);
  match hasExplicitHeader, truthy (o_path options) with
  | true, _ | _, None => Ok input
  | false, Some path =>
      if negb (containsRecognizableHashlineOperations input) then Ok input
      else
        let fallbackPath := normalizeHashlinePath path (o_cwd options) in
        if zlen fallbackPath =? 0 then Ok input
        else Ok ([HL_FILE_PREFIX] ++ fallbackPath ++ [NL] ++ input)
  end.

Record SplitState := {
  ss_sections : list HashlineInputSection;
  ss_currentPath : jstr;
  ss_currentLines : list jstr;
}.

Definition flush (st : SplitState) : SplitState :=
  if zlen (ss_currentPath st) =? 0 then st
  else
    let hasOps := existsb (fun l => 0 <? zlen (trim l)) (ss_currentLines st) in
    {| ss_sections := ss_sections st ++
         (if hasOps then [{| s_path := ss_currentPath st; s_diff := join_lines (ss_currentLines st) |}]
          else []);
       ss_currentPath := ss_currentPath st;
       ss_currentLines := [] |}.

Fixpoint split_loop (lines : list jstr) (cwd : option jstr) (st : SplitState)
    : result HashlineError SplitState :=
  match lines with
  | [] => Ok st
  | l :: rest =>
      if (trim_end l === END_PATCH_MARKER) || (trim_end l === ABORT_MARKER) then Ok st
      else if isPatchEnvelopeMarker l then split_loop rest cwd st
      else
        header ← parseHashlineHeaderLine l cwd;
        match header with
        | Some path =>
            split_loop rest cwd
              {| ss_sections := ss_sections (flush st); ss_currentPath := path; ss_currentLines := [] |}
        | None =>
            split_loop rest cwd
              {| ss_sections := ss_sections st; ss_currentPath := ss_currentPath st;
                 ss_currentLines := ss_currentLines st ++ [l] |}
        end
  end.

Definition splitHashlineInputs (input : jstr) (options : SplitHashlineOptions)
    : result HashlineError (list HashlineInputSection) :=
  normalized ← normalizeFallbackInput input options;
  let lines := split_crlf (stripLeadingBlankLines normalized) in
  let firstLine := match lines with l :: _ => l | [] => [] end in
  header ← parseHashlineHeaderLine firstLine (o_cwd options);
  match header with
  | None =>
      Err (PlainError (u "input must begin with " ++ [34; HL_FILE_PREFIX] ++ u "PATH" ++ [34]
        ++ u " on the first non-blank line; got: " ++ json_quote (slice firstLine 0 120)
        ++ u ". Example: " ++ [34; HL_FILE_PREFIX] ++ u "src/foo.ts" ++ [34] ++ u " then edit ops."))
  | Some _ =>
      st ← split_loop lines (o_cwd options)
             {| ss_sections := []; ss_currentPath := []; ss_currentLines := [] |};
      Ok (ss_sections (flush st))
  end.

(** [splitHashlineInput]: the first section, [undefined] when there is none. *)
Definition splitHashlineInput (input : jstr) (options : SplitHashlineOptions)
    : result HashlineError (option HashlineInputSection) :=
  sections ← splitHashlineInputs input options;
  Ok (head sections).
End input.

(** [mergeSamePathSections] of execute.ts: the map keeps the order in which paths first occur. *)
Fixpoint add_diff (byPath : list (jstr * list jstr)) (section : HashlineInputSection)
    : list (jstr * list jstr) :=
  match byPath with
  | [] => [(s_path section, [s_diff section])]
  | (path, diffs) :: rest =>
      if path === s_path section then (path, diffs ++ [s_diff section]) :: rest
      else (path, diffs) :: add_diff rest section
  end.

Definition mergeSamePathSections (sections : list HashlineInputSection)
    : list HashlineInputSection :=
  map (fun '(path, diffs) => {| s_path := path; s_diff := join_lines diffs |})
    (fold_left add_diff sections []).

(** ** The abort marker never reaches the parser *)

Definition abort_free (s : jstr) : Prop := Forall (fun l => trim_end l <> ABORT_MARKER) (split_lines s).

Lemma trim_end_snoc_ws l c : is_ws c = true -> trim_end (l ++ [c]) = trim_end l.
Proof. intros H. unfold trim_end. rewrite rev_app_distr. cbn [rev app drop_while]. by rewrite H. Qed.

Lemma strip_cr_cases l : strip_cr l = l \/ exists l', l = l' ++ [13] /\ strip_cr l = l'.
Proof.
  unfold strip_cr. destruct (ends_with l [13]) eqn:E; [|by left]. right.
  unfold ends_with in E. apply starts_with_spec in E as [r Hr]. exists (rev r).
  assert (El : l = rev r ++ [13]).
  { rewrite <- (rev_involutive l), Hr. change (rev [13]) with [13]. by rewrite rev_app_distr. }
  split; [done|]. rewrite El. unfold slice, rel_index. rewrite zlen_snoc.
  pose proof (zlen_nonneg (rev r)).
  replace (Z.to_nat (_ - _)) with (length (rev r)) by (unfold zlen in *; simpl; lia).
  change (Z.to_nat (Z.min 0 _)) with 0%nat. cbn [drop].
  rewrite (Z.min_l 0) by lia. cbn [Z.to_nat drop]. apply take_app_length.
Qed.

Lemma trim_end_strip_cr l : trim_end (strip_cr l) = trim_end l.
Proof. destruct (strip_cr_cases l) as [->|(l' & -> & ->)]; [done|]. by rewrite trim_end_snoc_ws. Qed.

Lemma strip_cr_init_elem l ls : l ∈ strip_cr_init ls -> exists l0, l0 ∈ ls /\ trim_end l0 = trim_end l.
Proof.
  induction ls as [|x ls IH]; cbn; [by intros ?%elem_of_nil|]. destruct ls as [|y ls].
  - intros ->%list_elem_of_singleton. exists x. split; [by left|done].
  - rewrite elem_of_cons. intros [->|H].
    + exists x. split; [by left|]. by rewrite trim_end_strip_cr.
    + destruct (IH H) as (l0 & H0 & E). exists l0. split; [by right|done].
Qed.

Lemma removelast_elem {A} (l : list A) x : x ∈ removelast l -> x ∈ l.
Proof.
  intros H. destruct l as [|y l _] using rev_ind; [done|]. rewrite removelast_last in H.
  apply elem_of_app. by left.
Qed.

Lemma abort_free_lines s l : abort_free s -> l ∈ parse_input_lines s -> l <> ABORT_MARKER.
Proof.
  intros Hs Hl ->. unfold abort_free in Hs. rewrite Forall_forall in Hs.
  assert (H : ABORT_MARKER ∈ split_crlf s).
  { unfold parse_input_lines in Hl. destruct (_ && _); [by apply removelast_elem|done]. }
  destruct (strip_cr_init_elem _ _ H) as (l0 & H0 & E). apply (Hs l0 H0). rewrite E. done.
Qed.

Lemma push_all_warnings {A} (push : A -> ParseState -> ParseState) l st :
  (forall x s, ps_warnings (push x s) = ps_warnings s) ->
  ps_warnings (push_all push l st) = ps_warnings st.
Proof.
  intros H. unfold push_all. revert st. induction l as [|x l IH]; intros st; cbn; [done|].
  by rewrite IH, H.
Qed.

Section parser.
Context {bun : BunHash}.

Lemma insert_op_warnings kind target body rest n st st' k :
  parse_insert_op kind target body rest n st = Ok (st', k) -> ps_warnings st' = ps_warnings st.
Proof.
  unfold parse_insert_op. destruct (parseInsertTarget target n kind) as [c|]; [|done]. cbn.
  destruct (collectPayload _ _ _) as [p|]; [|done]. cbn. intros [= <- _].
  rewrite push_all_warnings by done. by destruct (resolveInlineInsertBody c body).
Qed.

Lemma replace_op_warnings raw rest n st st' k :
  parse_replace_op raw rest n st = Ok (st', k) -> ps_warnings st' = ps_warnings st.
Proof.
  unfold parse_replace_op. destruct (parseRange raw n) as [r|]; [|done]. cbn.
  destruct (collectPayload _ _ _) as [p|]; [|done]. cbn. intros [= <- _].
  by rewrite !push_all_warnings.
Qed.

Lemma parse_lines_warnings lines skip n st st' :
  Forall (fun l => l <> ABORT_MARKER) lines ->
  parse_lines lines skip n st = Ok st' -> ps_warnings st' = ps_warnings st.
Proof.
  intros H. revert skip n st. induction H as [|l lines Hl _ IH]; intros skip n st.
  { by destruct skip; intros [= <-]. }
  destruct skip as [|k]; cbn [parse_lines]; [|apply IH].
  destruct (zlen (trim l) =? 0); [apply IH|].
  case_bool_decide; [by intros [= <-]|]. case_bool_decide; [done|].
  case_bool_decide; [apply IH|].
  destruct (insert_op_match HL_OP_INSERT_BEFORE l) as [[t body]|].
  { destruct (parse_insert_op _ _ _ _ _ _) as [[st1 k]|] eqn:E; [|done].
    intros H'. apply IH in H'. rewrite H'. by eapply insert_op_warnings. }
  destruct (insert_op_match HL_OP_INSERT_AFTER l) as [[t body]|].
  { destruct (parse_insert_op _ _ _ _ _ _) as [[st1 k]|] eqn:E; [|done].
    intros H'. apply IH in H'. rewrite H'. by eapply insert_op_warnings. }
  destruct (replace_op_match l) as [raw|]; [|by destruct (_ || _)].
  destruct (parse_replace_op _ _ _ _) as [[st1 k]|] eqn:E; [|done].
  intros H'. apply IH in H'. rewrite H'. by eapply replace_op_warnings.
Qed.

Lemma abort_free_no_warnings s edits w :
  abort_free s -> parseHashlineWithWarnings s = Ok (edits, w) -> w = [].
Proof.
  intros Hs. unfold parseHashlineWithWarnings.
  destruct (parse_lines _ _ _ _) as [st|] eqn:E; [|done]. intros [= _ <-].
  apply parse_lines_warnings in E; [done|]. apply Forall_forall. intros l Hl.
  by apply (abort_free_lines s).
Qed.
End parser.

Lemma split_lines_join ls : ls <> [] -> split_lines (join_lines ls) = flat_map split_lines ls.
Proof.
  intros Hne. unfold split_lines, join_lines.
  assert (Hone : forall s t, split_on NL (s ++ NL :: t) = split_on NL s ++ split_on NL t).
  { induction s as [|c s IH]; intros t; cbn [app split_on].
    - by rewrite Z.eqb_refl.
    - rewrite IH. destruct (c =? NL); [done|]. pose proof (split_on_nonempty NL s).
      by destruct (split_on NL s). }
  induction ls as [|l ls IH]; [done|]. destruct ls as [|l2 ls]; [cbn; by rewrite app_nil_r|].
  rewrite join_cons by done. cbn [app]. rewrite Hone, IH by done. done.
Qed.

Lemma abort_free_join ls : Forall abort_free ls -> ls <> [] -> abort_free (join_lines ls).
Proof.
  intros H Hne. unfold abort_free. rewrite split_lines_join by done.
  by apply (Forall_flat_map_impl abort_free).
Qed.

Lemma split_crlf_no_nl s : Forall (no_char NL) (split_crlf s).
Proof.
  unfold split_crlf. pose proof (split_on_no_char NL s) as H. fold (split_lines s) in H.
  induction H as [|l ls Hl Hls IH]; [constructor|]. cbn [strip_cr_init].
  destruct ls as [|l2 ls]; [by repeat constructor|]. constructor; [|done].
  destruct (strip_cr_cases l) as [->|(l' & -> & ->)]; [done|]. by apply Forall_app in Hl as [? _].
Qed.

Section sections.
Context {np : NodePath}.

Definition quiet (l : jstr) : Prop := no_char NL l /\ trim_end l <> ABORT_MARKER.

Lemma quiet_join ls : Forall quiet ls -> abort_free (join_lines ls).
Proof.
  intros H. destruct (decide (ls = [])) as [->|Hne]; [by repeat constructor|].
  unfold abort_free. rewrite split_lines_join by done.
  apply (Forall_flat_map_impl quiet); [|done]. intros l [Hn Hl].
  unfold split_lines. rewrite split_no_sep by done. by repeat constructor.
Qed.

Definition quiet_state (st : SplitState) : Prop :=
  Forall quiet (ss_currentLines st) /\ Forall (fun s => abort_free (s_diff s)) (ss_sections st).

Lemma flush_quiet st : quiet_state st -> quiet_state (flush st).
Proof.
  intros [H1 H2]. unfold flush. destruct (_ =? 0); [done|]. split; cbn; [constructor|].
  apply Forall_app. split; [done|]. destruct (existsb _ _); [|constructor].
  constructor; [by apply quiet_join|constructor].
Qed.

Lemma split_loop_quiet lines cwd st st' :
  Forall (no_char NL) lines -> quiet_state st -> split_loop lines cwd st = Ok st' -> quiet_state st'.
Proof.
  intros H. revert st. induction H as [|l lines Hl _ IH]; intros st Hq; cbn [split_loop].
  { by intros [= <-]. }
  destruct ((trim_end l === END_PATCH_MARKER) || (trim_end l === ABORT_MARKER)) eqn:Em;
    [by intros [= <-]|]. destruct (isPatchEnvelopeMarker l); [by apply IH|].
  destruct (parseHashlineHeaderLine l cwd) as [[path|]|]; cbn; [| |done].
  - apply IH. split; cbn; [constructor|]. by apply flush_quiet.
  - apply IH. destruct Hq as [H1 H2]. split; cbn; [|done]. apply Forall_app. split; [done|].
    constructor; [|constructor]. split; [done|]. intros E. by rewrite E, orb_true_r in Em.
Qed.

Lemma sections_quiet input options sections :
  splitHashlineInputs input options = Ok sections -> Forall (fun s => abort_free (s_diff s)) sections.
Proof.
  unfold splitHashlineInputs. destruct (normalizeFallbackInput input options) as [norm|]; [|done].
  cbn. set (lines := split_crlf _). destruct (parseHashlineHeaderLine _ _) as [[h|]|]; cbn; try done.
  destruct (split_loop lines _ _) as [st|] eqn:E; cbn; [|done]. intros [= <-].
  apply split_loop_quiet in E; [by apply flush_quiet|apply split_crlf_no_nl|by split; constructor].
Qed.

Lemma add_diff_forall (P : jstr -> Prop) m s :
  Forall (fun e => Forall P (snd e) /\ snd e <> []) m -> P (s_diff s) ->
  Forall (fun e => Forall P (snd e) /\ snd e <> []) (add_diff m s).
Proof.
  intros H Hs. induction H as [|[p ds] m [Hp Hne] Hm IH]; cbn.
  - constructor; [|constructor]. split; [by constructor|done].
  - case_bool_decide; constructor; try done. cbn in *. split; [|by destruct ds].
    apply Forall_app. by split; [|constructor].
Qed.

Lemma merged_quiet sections :
  Forall (fun s => abort_free (s_diff s)) sections ->
  Forall (fun s => abort_free (s_diff s)) (mergeSamePathSections sections).
Proof.
  intros H. unfold mergeSamePathSections.
  assert (Hm : Forall (fun e : jstr * list jstr => Forall abort_free (snd e) /\ snd e <> [])
                 (fold_left add_diff sections [])).
  { assert (H0 : Forall (fun e : jstr * list jstr => Forall abort_free (snd e) /\ snd e <> []) [])
      by constructor.
    revert H0. generalize (@nil (jstr * list jstr)).
    induction H as [|s l Hs _ IH]; intros m Hm; cbn [fold_left]; [done|].
    apply IH. by apply add_diff_forall. }
  apply Forall_map. eapply Forall_impl; [exact Hm|]. intros [p ds] [Hd Hne]. cbn.
  by apply abort_free_join.
Qed.

(** The abort warning is never given: whatever the input, the sections that are executed do not
    contain the abort marker any more, so that parsing them gives no warning.  (The marker is meant to
    tell the model that its input was cut short.) *)
Theorem abort_warning_is_lost {bun : BunHash} input options sections :
  splitHashlineInputs input options = Ok sections ->
  forall s edits warnings, s ∈ mergeSamePathSections sections ->
  parseHashlineWithWarnings (s_diff s) = Ok (edits, warnings) -> warnings = [].
Proof.
  intros H s edits w Hs. apply abort_free_no_warnings.
  pose proof (merged_quiet _ (sections_quiet _ _ _ H)) as Hq. rewrite Forall_forall in Hq. by apply Hq.
Qed.
End sections.

(** ** Sections are read back *)

Section round_trip.
Context {np : NodePath} (cwd : option jstr).

(** A line that belongs to the section it stands in. *)
Definition section_line (l : jstr) : Prop :=
  no_char NL l /\ strip_cr l = l /\ starts_with (trim_end l) [HL_FILE_PREFIX] = false /\
  trim_end l <> BEGIN_PATCH_MARKER /\ trim_end l <> END_PATCH_MARKER /\ trim_end l <> ABORT_MARKER.

(** A path that is written as it is meant. *)
Definition plain_path (p : jstr) : Prop :=
  no_char NL p /\ p <> [] /\ trim p = p /\ head p <> Some HL_FILE_PREFIX /\
  normalizeHashlinePath p cwd = p.

Definition wf_section (s : jstr * list jstr) : Prop :=
  plain_path (fst s) /\ Forall section_line (snd s) /\
  Exists (fun l => 0 < zlen (trim l)) (snd s).

Definition section_lines (s : jstr * list jstr) : list jstr :=
  (HL_FILE_PREFIX :: fst s) :: snd s.

Definition print_input (secs : list (jstr * list jstr)) : jstr :=
  join_lines (flat_map section_lines secs).

Definition section_of (s : jstr * list jstr) : HashlineInputSection :=
  {| s_path := fst s; s_diff := join_lines (snd s) |}.

Lemma trim_trim_end p : trim p = p -> trim_end p = p /\ trim_start p = p.
Proof.
  intros E. unfold trim in E.
  assert (Hs : forall s, zlen (trim_end s) <= zlen s).
  { intros s. unfold trim_end. rewrite zlen_rev. rewrite <- (zlen_rev s).
    generalize (rev s). clear. intros l. induction l as [|c l IH]; cbn; [done|].
    destruct (is_ws c); rewrite ?zlen_cons; lia. }
  assert (Hd : forall s : jstr, zlen (drop_while is_ws s) <= zlen s /\
      (zlen (drop_while is_ws s) = zlen s -> drop_while is_ws s = s)).
  { clear. induction s as [|c s [IH1 IH2]]; cbn; [done|]. destruct (is_ws c); [|done].
    rewrite zlen_cons. split; [lia|]. intros. lia. }
  assert (Hst : trim_start p = p).
  { apply Hd. destruct (Hd p) as [H1 _]. pose proof (Hs (trim_start p)) as H2. rewrite E in H2.
    unfold trim_start in *. lia. }
  split; [by rewrite Hst in E|done].
Qed.

Lemma trim_end_cons c p : p <> [] -> trim_end p = p -> trim_end (c :: p) = c :: p.
Proof.
  intros Hne E. unfold trim_end in *. cbn [rev].
  destruct (rev p) as [|d r] eqn:Er.
  { apply (f_equal (@rev Z)) in Er. rewrite rev_involutive in Er. by subst. }
  cbn [app drop_while] in *. destruct (is_ws d) eqn:Ed.
  - exfalso. apply (f_equal (@rev Z)) in E. rewrite rev_involutive, Er in E.
    assert (H : (length (drop_while is_ws r) <= length r)%nat).
    { clear. induction r as [|c r IH]; cbn; [done|]. destruct (is_ws c); cbn; lia. }
    rewrite E in H. simpl in H. lia.
  - cbn [rev]. rewrite rev_app_distr. cbn [rev app]. f_equal. exact E.
Qed.

Lemma header_line p : plain_path p -> parseHashlineHeaderLine (HL_FILE_PREFIX :: p) cwd = Ok (Some p).
Proof.
  intros (_ & Hne & Ht & Hh & Hn). destruct (trim_trim_end p Ht) as [He _].
  unfold parseHashlineHeaderLine. rewrite trim_end_cons by done.
  cbn [starts_with]. rewrite Z.eqb_refl. cbn [andb negb drop_while]. rewrite Z.eqb_refl.
  assert (drop_while (fun c => c =? HL_FILE_PREFIX) p = p) as ->.
  { destruct p as [|c p]; [done|]. cbn. destruct (Z.eqb_spec c HL_FILE_PREFIX) as [->|]; done. }
  rewrite Ht, Hn.
  assert ((zlen p =? 0) = false) as ->; [|by destruct p].
  apply Z.eqb_neq. intros E. by apply zlen_0_nil in E.
Qed.

Lemma section_line_none l : section_line l -> parseHashlineHeaderLine l cwd = Ok None.
Proof. intros (_ & _ & H & _). unfold parseHashlineHeaderLine. by rewrite H. Qed.

Lemma header_line_text p :
  plain_path p -> let l := HL_FILE_PREFIX :: p in
  trim_end l = l /\ no_char NL l /\ strip_cr l = l.
Proof.
  intros (Hnl & Hne & Ht & _). destruct (trim_trim_end p Ht) as [He _]. cbv zeta.
  pose proof (trim_end_cons HL_FILE_PREFIX p Hne He) as E. split_and!; [done|by constructor|].
  destruct (strip_cr_cases (HL_FILE_PREFIX :: p)) as [->|(l' & El & _)]; [done|].
  exfalso. rewrite El, trim_end_snoc_ws in E by done.
  apply (f_equal zlen) in E. rewrite zlen_snoc in E.
  assert (H : zlen (trim_end l') <= zlen l').
  { unfold trim_end. rewrite zlen_rev, <- (zlen_rev l'). generalize (rev l'). clear.
    intros l. induction l as [|c l IH]; cbn; [done|]. destruct (is_ws c); rewrite ?zlen_cons; lia. }
  lia.
Qed.

Lemma section_body path lines rest st :
  Forall section_line lines ->
  split_loop (lines ++ rest) cwd {| ss_sections := st; ss_currentPath := path; ss_currentLines := [] |} =
  split_loop rest cwd {| ss_sections := st; ss_currentPath := path; ss_currentLines := lines |}.
Proof.
  intros H. enough (forall acc, split_loop (lines ++ rest) cwd
    {| ss_sections := st; ss_currentPath := path; ss_currentLines := acc |} =
    split_loop rest cwd {| ss_sections := st; ss_currentPath := path; ss_currentLines := acc ++ lines |})
    as E by apply (E []).
  induction H as [|l lines Hl _ IH]; intros acc; [by rewrite app_nil_r|]. cbn [app split_loop].
  pose proof (section_line_none l Hl) as Hh. destruct Hl as (_ & _ & _ & Hb & He & Ha).
  unfold isPatchEnvelopeMarker. rewrite !bool_decide_eq_false_2 by done. cbn [orb].
  rewrite Hh. cbn. rewrite IH. by rewrite <- app_assoc.
Qed.

Lemma flush_section path lines secs :
  path <> [] -> Exists (fun l => 0 < zlen (trim l)) lines ->
  ss_sections (flush {| ss_sections := secs; ss_currentPath := path; ss_currentLines := lines |}) =
  secs ++ [{| s_path := path; s_diff := join_lines lines |}].
Proof.
  intros Hp Hl. unfold flush. cbn. rewrite (proj2 (Z.eqb_neq _ _)) by (intros E; by apply zlen_0_nil in E).
  cbn. assert (existsb (fun l => 0 <? zlen (trim l)) lines = true) as ->; [|done].
  apply existsb_exists. apply Exists_exists in Hl as (l & Hin & Hl). exists l.
  split; [by apply list_elem_of_In|]. by apply Z.ltb_lt.
Qed.

Lemma not_marker p m :
  plain_path p -> head m = Some 42 -> bool_decide (trim_end (HL_FILE_PREFIX :: p) = m) = false.
Proof.
  intros Hp Hm. destruct (header_line_text p Hp) as [-> _]. apply bool_decide_eq_false_2.
  intros <-. by injection Hm.
Qed.

Lemma split_loop_sections secs path lines st :
  Forall wf_section secs -> path <> [] -> Exists (fun l => 0 < zlen (trim l)) lines ->
  exists st', split_loop (flat_map section_lines secs) cwd
      {| ss_sections := st; ss_currentPath := path; ss_currentLines := lines |} = Ok st' /\
    ss_sections (flush st') =
    st ++ {| s_path := path; s_diff := join_lines lines |} :: map section_of secs.
Proof.
  intros H. revert path lines st. induction H as [|[p ls] secs (Hp & Hl & Hex) _ IH];
    intros path lines st Hne Hlines; cbn [flat_map].
  - eexists. split; [done|]. by rewrite flush_section.
  - unfold section_lines at 1. cbn [fst snd app] in *. cbn [split_loop].
    unfold isPatchEnvelopeMarker. rewrite !(not_marker p) by done. cbn [orb].
    rewrite header_line by done. cbn [mbind result_bind]. rewrite flush_section by done.
    rewrite section_body by done. destruct Hp as (_ & Hpne & _).
    destruct (IH p ls (st ++ [{| s_path := path; s_diff := join_lines lines |}]) Hpne Hex)
      as (st' & E & Es). exists st'. split; [done|]. rewrite Es, <- app_assoc. done.
Qed.

Lemma input_lines secs :
  Forall wf_section secs -> secs <> [] ->
  split_lines (print_input secs) = flat_map section_lines secs /\
  split_crlf (print_input secs) = flat_map section_lines secs.
Proof.
  intros H Hne. assert (Hall : Forall (fun l => no_char NL l /\ strip_cr l = l)
    (flat_map section_lines secs)).
  { apply (Forall_flat_map_impl wf_section); [|done]. intros [p ls] (Hp & Hl & _).
    unfold section_lines. cbn [fst snd] in *. constructor; [by apply header_line_text|].
    eapply Forall_impl; [exact Hl|]. by intros l (? & ? & _). }
  assert (E : split_lines (print_input secs) = flat_map section_lines secs).
  { apply split_join; [by destruct secs as [|[]]|]. eapply Forall_impl; [exact Hall|]. by intros l []. }
  split; [done|]. unfold split_crlf. rewrite E. clear -Hall.
  induction Hall as [|l ls [_ Hl] _ IH]; [done|]. cbn [strip_cr_init].
  destruct ls; [done|]. by rewrite Hl, IH.
Qed.

(** The text of several sections is read back as these sections, in order, when the paths are plain
    and no line of a section looks like a header or a marker. *)
Theorem sections_round_trip secs path :
  Forall wf_section secs -> secs <> [] ->
  splitHashlineInputs (print_input secs) {| o_cwd := cwd; o_path := path |} = Ok (map section_of secs).
Proof.
  intros H Hne. destruct (input_lines secs H Hne) as [El Ec].
  destruct secs as [|[p ls] secs]; [done|]. pose proof H as H'.
  apply Forall_cons in H' as [(Hp & Hl & Hex) Hs]. cbn [fst snd] in *.
  set (input := print_input ((p, ls) :: secs)) in *.
  assert (Hhead : exists r, input = HL_FILE_PREFIX :: r).
  { unfold input, print_input. cbn [flat_map section_lines app fst snd].
    set (rest := ls ++ _). destruct rest as [|x rest]; [by eexists|].
    unfold join_lines. rewrite join_cons by done. by eexists. }
  assert (Hbom : strip_bom input = input).
  { unfold strip_bom. by destruct Hhead as [r ->]. }
  assert (Hnorm : normalizeFallbackInput input {| o_cwd := cwd; o_path := path |} = Ok input).
  { unfold normalizeFallbackInput. rewrite Hbom, Ec. cbn [flat_map section_lines app fst snd some_header o_cwd].
    rewrite header_line by done. done. }
  assert (Hstrip : stripLeadingBlankLines input = input).
  { unfold stripLeadingBlankLines. rewrite Hbom, El. cbn [flat_map section_lines app fst snd shift_blank].
    destruct (header_line_text p Hp) as (Ht & _ & Hcr). rewrite Hcr, (not_marker p) by done.
    rewrite orb_false_r, (not_blank HL_FILE_PREFIX p) by done. unfold input, print_input. done. }
  unfold splitHashlineInputs. rewrite Hnorm. cbn [mbind result_bind o_cwd]. rewrite Hstrip, Ec.
  cbn [flat_map section_lines app fst snd]. rewrite header_line by done. cbn [mbind result_bind].
  cbn [split_loop]. unfold isPatchEnvelopeMarker. rewrite !(not_marker p) by done. cbn [orb].
  rewrite header_line by done. cbn [mbind result_bind]. rewrite section_body by done.
  destruct Hp as (_ & Hpne & _).
  destruct (split_loop_sections secs p ls (ss_sections (flush {| ss_sections := [];
    ss_currentPath := []; ss_currentLines := [] |})) Hs Hpne Hex) as (st & E & Es).
  rewrite E. cbn [mbind result_bind]. by rewrite Es.
Qed.
End round_trip.
