(* ===== verification/HashlineDiff.v ===== *)
(** * The diff shown after an edit: CA/edit/diff.ts and CA/hashline/diff-preview.ts

    [generateDiffString] numbers the lines of a diff; [buildCompactHashlineDiffPreview] turns the
    numbers into anchors for the next edit.  The line diff itself (the native [diffLines], or the one
    of the package diff) is the class [DiffLines], with its contract: the parts that are not added
    make up the old text, those that are not removed the new one.  [preview_anchors_are_current]
    composes the two with the anchor check. *)
From S2P Require Import Prelude Json Hashline HashlineRefine HashlineParse.
#[local] Open Scope Z_scope.
#[local] Open Scope js_scope.

Record DiffLinePart := { part_added : bool; part_removed : bool; part_value : jstr }.

(** [raw = value.split("\n")], without the empty string after a final newline. *)
Definition value_lines (value : jstr) : list jstr :=
  let raw := split_lines value in
  if last raw === Some [] then removelast raw else raw.

Definition part_lines (p : DiffLinePart) : list jstr := value_lines (part_value p).
Definition is_change (p : DiffLinePart) : bool := part_added p || part_removed p.

Class DiffLines := {
  diffLines : jstr -> jstr -> list DiffLinePart;
  diffLines_old : forall old new,
    flat_map part_lines (List.filter (fun p => negb (part_added p)) (diffLines old new)) = value_lines old;
  diffLines_new : forall old new,
    flat_map part_lines (List.filter (fun p => negb (part_removed p)) (diffLines old new)) = value_lines new;
  diffLines_one : forall old new p, p ∈ diffLines old new -> part_added p && part_removed p = false;
}.

Definition formatNumberedDiffLine (prefix : jstr) (lineNum : Z) (content : jstr) : jstr :=
  prefix ++ num_to_str lineNum ++ [HL_BODY_SEP] ++ content.

Record DiffState := {
  ds_output : list jstr;
  ds_old : Z;
  ds_new : Z;
  ds_lastWasChange : bool;
  ds_firstChangedLine : option Z;
}.

Definition push_line (prefix : jstr) (num : Z) (content : jstr) (old new : Z) (st : DiffState)
    : DiffState :=
  {| ds_output := ds_output st ++ [formatNumberedDiffLine prefix num content];
     ds_old := ds_old st + old; ds_new := ds_new st + new;
     ds_lastWasChange := ds_lastWasChange st; ds_firstChangedLine := ds_firstChangedLine st |}.

Definition push_change (added : bool) (st : DiffState) (content : jstr) : DiffState :=
  if added then push_line (u "+") (ds_new st) content 0 1 st
  else push_line (u "-") (ds_old st) content 1 0 st.

Definition push_context (st : DiffState) (content : jstr) : DiffState :=
  push_line (u " ") (ds_old st) content 1 1 st.

(** The mark for [skip] lines that are left out. *)
Definition push_skip (skip : Z) (st : DiffState) : DiffState :=
  if 0 <? skip then push_line (u " ") (ds_old st) (u "...") skip skip st else st.

Definition set_last (last : bool) (st : DiffState) : DiffState :=
  {| ds_output := ds_output st; ds_old := ds_old st; ds_new := ds_new st;
     ds_lastWasChange := last; ds_firstChangedLine := ds_firstChangedLine st |}.

Definition change_part (p : DiffLinePart) (st : DiffState) : DiffState :=
  let st := {| ds_output := ds_output st; ds_old := ds_old st; ds_new := ds_new st;
               ds_lastWasChange := ds_lastWasChange st;
               ds_firstChangedLine := match ds_firstChangedLine st with
                                      | None => Some (ds_new st) | Some f => Some f end |} in
  set_last true (fold_left (push_change (part_added p)) (part_lines p) st).

Definition context_part (raw : list jstr) (nextPartIsChange : bool) (contextLines : Z)
    (st : DiffState) : DiffState :=
  let st :=
    if ds_lastWasChange st || nextPartIsChange then
      let contextLimit := Z.max 0 contextLines in
      if ds_lastWasChange st && nextPartIsChange then
        if contextLimit * 2 <? zlen raw then
          let leadingContext := slice raw 0 contextLimit in
          let trailingContext := slice_from raw (zlen raw - contextLimit) in
          let middleSkip := zlen raw - zlen leadingContext - zlen trailingContext in
          fold_left push_context trailingContext
            (push_skip middleSkip (fold_left push_context leadingContext st))
        else fold_left push_context raw st
      else if nextPartIsChange then
        let leadingSkip := Z.max 0 (zlen raw - contextLimit) in
        fold_left push_context (slice_from raw leadingSkip) (push_skip leadingSkip st)
      else
        let trailingSkip := Z.max 0 (zlen raw - contextLimit) in
        push_skip trailingSkip (fold_left push_context (slice raw 0 contextLimit) st)
    else
      {| ds_output := ds_output st; ds_old := ds_old st + zlen raw; ds_new := ds_new st + zlen raw;
         ds_lastWasChange := ds_lastWasChange st; ds_firstChangedLine := ds_firstChangedLine st |} in
  set_last false st.

Fixpoint diff_loop (parts : list DiffLinePart) (contextLines : Z) (st : DiffState) : DiffState :=
  match parts with
  | [] => st
  | p :: rest =>
      let st :=
        if is_change p then change_part p st
        else
          let nextPartIsChange := match rest with q :: _ => is_change q | [] => false end in
          context_part (part_lines p) nextPartIsChange contextLines st in
      diff_loop rest contextLines st
  end.

Definition initial_diff : DiffState :=
  {| ds_output := []; ds_old := 1; ds_new := 1; ds_lastWasChange := false;
     ds_firstChangedLine := None |}.

(** The diff and the first changed line of the new text. *)
Definition generateDiffString {dl : DiffLines} (oldContent newContent : jstr) (contextLines : Z)
    : jstr * option Z :=
  let st := diff_loop (diffLines oldContent newContent) contextLines initial_diff in
  (join_lines (ds_output st), ds_firstChangedLine st).

(** ** What a line of the preview is *)

Section preview.
Context {bun : BunHash} (newLines : list jstr).

Inductive preview_ok : jstr -> Prop :=
| po_current mark n text :
    mark = u "+" \/ mark = u " " -> 1 <= n <= zlen newLines -> file_line newLines n = text ->
    preview_ok (mark ++ formatHashLine n text)
| po_removed n text : preview_ok (u "-" ++ num_to_str n ++ u "--" ++ [HL_BODY_SEP] ++ text)
| po_skipped n : preview_ok (u " " ++ formatHashLine n (u "...")).

Lemma index_of_sep ds text : Forall (fun c => is_digit c = true) ds ->
  index_of (ds ++ HL_BODY_SEP :: text) [HL_BODY_SEP] 0 = zlen ds.
Proof.
  intros H. unfold index_of. rewrite clamp_id by (pose proof (zlen_nonneg (ds ++ HL_BODY_SEP :: text)); lia).
  change (drop (Z.to_nat 0) ?l) with l.
  enough (forall i, find_from (ds ++ HL_BODY_SEP :: text) [HL_BODY_SEP] i = i + zlen ds) as E by apply E.
  induction H as [|d ds Hd _ IH]; intros i.
  - cbn [app find_from starts_with]. rewrite Z.eqb_refl, zlen_nil, Z.add_0_r. by destruct text.
  - cbn [app find_from starts_with]. rewrite (proj2 (Z.eqb_neq HL_BODY_SEP d)).
    + rewrite zlen_cons. cbn [andb]. rewrite IH. lia.
    + intros <-. done.
Qed.

Lemma parse_int_num n : 0 <= n -> parse_int (num_to_str n) = Some n.
Proof.
  intros Hn. unfold num_to_str. rewrite (proj2 (Z.ltb_ge _ _)) by lia.
  destruct (nat_to_str_spec n Hn) as (Hp & Hne & Hd). unfold parse_int.
  destruct (nat_to_str n) as [|c r] eqn:E; [done|]. pose proof Hd as Hd'.
  apply Forall_cons in Hd' as [Hc _]. unfold trim_start. cbn [drop_while].
  rewrite (digit_not_ws c Hc).
  assert ((c =? 45) = false /\ (c =? 43) = false) as [-> ->] by (unfold is_digit in Hc; lia).
  cbn [orb]. rewrite take_while_full by done. by rewrite Hp.
Qed.

Lemma number_digits n : 0 <= n -> Forall (fun c => is_digit c = true) (num_to_str n).
Proof.
  intros Hn. unfold num_to_str. rewrite (proj2 (Z.ltb_ge _ _)) by lia.
  by destruct (nat_to_str_spec n Hn) as (_ & _ & Hd).
Qed.

Lemma numbered_body n text :
  0 <= n ->
  let body := num_to_str n ++ HL_BODY_SEP :: text in
  index_of body [HL_BODY_SEP] 0 = zlen (num_to_str n) /\
  slice body 0 (zlen (num_to_str n)) = num_to_str n /\
  slice_from body (zlen (num_to_str n) + 1) = text.
Proof.
  intros Hn body. pose proof (number_digits n Hn) as Hd. unfold body.
  pose proof (zlen_nonneg (num_to_str n)). pose proof (zlen_nonneg text). split_and!.
  - by apply index_of_sep.
  - rewrite slice_prefix by (rewrite zlen_app, zlen_cons; lia).
    replace (Z.to_nat (zlen (num_to_str n))) with (length (num_to_str n)) by (unfold zlen; lia).
    apply take_app_length.
  - rewrite slice_suffix by (rewrite zlen_app, zlen_cons; lia).
    replace (Z.to_nat (zlen (num_to_str n) + 1)) with (length (num_to_str n) + 1)%nat by (unfold zlen; lia).
    rewrite drop_app_ge by lia. by replace (_ + 1 - _)%nat with 1%nat by lia.
Qed.

(** A numbered line in the preview: the number of a context line is moved by what was added and
    removed before it. *)
Lemma preview_numbered st kind n text :
  0 <= n ->
  preview_line st (formatNumberedDiffLine [kind] n text) =
  if kind =? 43 then ({| pv_added := pv_added st + 1; pv_removed := pv_removed st |},
                      u "+" ++ formatHashLine n text)
  else if kind =? 45 then ({| pv_added := pv_added st; pv_removed := pv_removed st + 1 |},
                           u "-" ++ num_to_str n ++ u "--" ++ [HL_BODY_SEP] ++ text)
  else if kind =? 32 then (st, u " " ++ formatHashLine (n + pv_added st - pv_removed st) text)
  else (st, formatNumberedDiffLine [kind] n text).
Proof.
  intros Hn. destruct (numbered_body n text Hn) as (Hi & Hs & Ht).
  unfold formatNumberedDiffLine, preview_line. cbn [app].
  destruct (Z.eqb_spec kind 43) as [->|H43]; [|destruct (Z.eqb_spec kind 45) as [->|H45];
    [|destruct (Z.eqb_spec kind 32) as [->|H32]; [|done]]]; cbn [orb negb]; rewrite Hi, Hs, Ht;
    rewrite (proj2 (Z.eqb_neq (zlen (num_to_str n)) (-1))) by (pose proof (zlen_nonneg (num_to_str n)); lia);
    rewrite parse_int_num by done; cbn; unfold formatHashLine; by rewrite <- ?app_assoc.
Qed.

(** ** The preview of a diff, line by line *)

Definition preview_zero : PreviewState := {| pv_added := 0; pv_removed := 0 |}.

Lemma preview_lines_snoc st ls l :
  preview_lines st (ls ++ [l]) =
  let '(st1, outs) := preview_lines st ls in
  let '(st2, out) := preview_line st1 l in (st2, outs ++ [out]).
Proof.
  revert st. induction ls as [|x ls IH]; intros st; cbn [app preview_lines].
  - by destruct (preview_line st l).
  - destruct (preview_line st x) as [st1 out]. rewrite IH.
    destruct (preview_lines st1 ls) as [st2 outs]. by destruct (preview_line st2 l).
Qed.

(** The lines that the diff is about, and how far it has come: [done] are the new lines passed. *)
Context (V : list jstr).
Hypothesis new_lines : forall n, 1 <= n <= zlen V ->
  n <= zlen newLines /\ at_ V (n - 1) = Some (file_line newLines n).

Definition diff_inv (st : DiffState) (passed : list jstr) : Prop :=
  let '(pv, outs) := preview_lines preview_zero (ds_output st) in
  Forall preview_ok outs /\ pv_added pv - pv_removed pv = ds_new st - ds_old st /\
  1 <= ds_old st /\ ds_new st = 1 + zlen passed /\ Forall (no_char NL) (ds_output st).

Lemma numbered_no_nl kind n text :
  kind <> NL -> 0 <= n -> no_char NL text -> no_char NL (formatNumberedDiffLine [kind] n text).
Proof.
  intros Hk Hn Ht. unfold formatNumberedDiffLine. constructor; [done|]. apply Forall_app. split.
  - eapply Forall_impl; [by apply number_digits|]. intros c Hc ->. done.
  - by constructor.
Qed.

Definition current (n : Z) (text : jstr) : Prop := 1 <= n <= zlen newLines /\ file_line newLines n = text.

(** Adding one line to the output. *)
Lemma diff_inv_push st passed passed' kind num text old new :
  diff_inv st passed -> 0 <= old -> zlen passed' = zlen passed + new -> no_char NL text ->
  (kind = 43 /\ num = ds_new st /\ new = old + 1 /\ current (ds_new st) text) \/
  (kind = 45 /\ num = ds_old st /\ new = old - 1) \/
  (kind = 32 /\ num = ds_old st /\ new = old /\ (current (ds_new st) text \/ text = u "...")) ->
  diff_inv (push_line [kind] num text old new st) passed'.
Proof.
  unfold diff_inv. destruct (preview_lines preview_zero (ds_output st)) as [pv outs] eqn:Ep.
  intros (Hf & Hd & Ho & Hn & Hnl) Hold Hp Hno Hk. cbn [push_line ds_output ds_old ds_new].
  rewrite preview_lines_snoc, Ep. pose proof (zlen_nonneg passed).
  assert (Hsnoc : forall l, preview_ok l -> Forall preview_ok (outs ++ [l])).
  { intros l Hl. apply Forall_app. by repeat constructor. }
  assert (0 <= num /\ kind <> NL) as [Hnum Hkind] by (unfold NL; lia).
  assert (Hnl' : Forall (no_char NL) (ds_output st ++ [formatNumberedDiffLine [kind] num text])).
  { apply Forall_app. split; [done|]. constructor; [|constructor]. by apply numbered_no_nl. }
  destruct Hk as [(-> & -> & -> & [Hr Hl])|[(-> & -> & ->)|(-> & -> & -> & Htext)]];
    rewrite preview_numbered by lia; cbn [Z.eqb Pos.eqb pv_added pv_removed];
    (split_and!; [apply Hsnoc|lia|lia|lia|done]).
  - apply (po_current (u "+")); auto.
  - apply po_removed.
  - replace (ds_old st + pv_added pv - pv_removed pv) with (ds_new st) by lia.
    destruct Htext as [[Hr Hl]| ->]; [|apply po_skipped]. apply (po_current (u " ")); auto.
Qed.

Lemma current_at passed l rest :
  V = passed ++ l :: rest -> current (1 + zlen passed) l.
Proof.
  intros E. pose proof (zlen_nonneg passed). pose proof (zlen_nonneg rest).
  destruct (new_lines (1 + zlen passed)) as [Hle Hat].
  { rewrite E, zlen_app, zlen_cons. lia. }
  rewrite E, (at_app_mid passed l rest) in Hat by lia. split; [lia|]. by injection Hat.
Qed.

Lemma diff_inv_new st passed : diff_inv st passed -> ds_new st = 1 + zlen passed.
Proof. unfold diff_inv. destruct (preview_lines _ _). by intros (_ & _ & _ & ? & _). Qed.

Lemma push_all_inv (push : DiffState -> jstr -> DiffState) ls st passed rest :
  (forall st passed l rest, V = passed ++ l :: rest -> no_char NL l -> diff_inv st passed ->
     diff_inv (push st l) (passed ++ [l])) ->
  V = passed ++ ls ++ rest -> Forall (no_char NL) ls -> diff_inv st passed ->
  diff_inv (fold_left push ls st) (passed ++ ls).
Proof.
  intros Hpush E Hnl. revert st passed E.
  induction Hnl as [|l ls Hl _ IH]; intros st passed E H; cbn [fold_left]; [by rewrite app_nil_r|].
  replace (passed ++ l :: ls) with ((passed ++ [l]) ++ ls) by by rewrite <- app_assoc.
  apply IH; [by rewrite <- app_assoc|]. apply (Hpush st passed l (ls ++ rest)); [exact E|done|done].
Qed.

Lemma push_context_inv st passed l rest :
  V = passed ++ l :: rest -> no_char NL l -> diff_inv st passed ->
  diff_inv (push_context st l) (passed ++ [l]).
Proof.
  intros E Hl H. apply (diff_inv_push st passed); [done|lia|by rewrite zlen_snoc|done|].
  right; right. rewrite (diff_inv_new st passed H). split_and!; try done. left. by eapply current_at.
Qed.

Lemma push_added_inv st passed l rest :
  V = passed ++ l :: rest -> no_char NL l -> diff_inv st passed ->
  diff_inv (push_change true st l) (passed ++ [l]).
Proof.
  intros E Hl H. apply (diff_inv_push st passed); [done|lia|by rewrite zlen_snoc|done|].
  left. rewrite (diff_inv_new st passed H). split_and!; try done; by eapply current_at.
Qed.

Lemma push_removed_inv ls st passed :
  Forall (no_char NL) ls -> diff_inv st passed -> diff_inv (fold_left (push_change false) ls st) passed.
Proof.
  intros Hnl. revert st. induction Hnl as [|l ls Hl _ IH]; intros st H; cbn [fold_left]; [done|].
  apply IH. apply (diff_inv_push st passed); [done|lia|lia|done|]. right; left. done.
Qed.

Lemma push_skip_inv st passed ls :
  diff_inv st passed -> diff_inv (push_skip (zlen ls) st) (passed ++ ls).
Proof.
  intros H. unfold push_skip. pose proof (zlen_nonneg ls). destruct (Z.ltb_spec 0 (zlen ls)).
  - apply (diff_inv_push st passed); [done|lia|by rewrite zlen_app|by repeat constructor|].
    right; right. split_and!; try done. by right.
  - rewrite (zlen_0_nil ls) by lia. by rewrite app_nil_r.
Qed.

Lemma set_last_inv b st passed : diff_inv st passed -> diff_inv (set_last b st) passed.
Proof. done. Qed.

Lemma slice_parts (raw : list jstr) i j :
  0 <= i <= j -> j <= zlen raw ->
  slice raw 0 i ++ slice raw i j ++ slice_from raw j = raw /\ zlen (slice raw i j) = j - i.
Proof. intros. split; [by apply slice_glue|by apply zlen_slice]. Qed.

Lemma no_nl_slice raw i j : Forall (no_char NL) raw -> Forall (no_char NL) (slice raw i j).
Proof.
  rewrite !Forall_forall. intros H l Hl. apply H. unfold slice in Hl. by apply in_take, in_drop in Hl.
Qed.

Lemma context_part_inv raw next ctx st passed rest :
  V = passed ++ raw ++ rest -> Forall (no_char NL) raw -> diff_inv st passed ->
  diff_inv (context_part raw next ctx st) (passed ++ raw).
Proof.
  intros E Hnl H. unfold context_part. apply set_last_inv. pose proof (zlen_nonneg raw).
  set (k := Z.max 0 ctx). destruct (ds_lastWasChange st || next) eqn:E1.
  2: { revert H. unfold diff_inv. cbn. destruct (preview_lines _ _). rewrite zlen_app.
       intros (? & ? & ? & ? & ?). split_and!; try done; lia. }
  destruct (ds_lastWasChange st && next).
  - destruct (Z.ltb_spec (k * 2) (zlen raw)); [|by apply (push_all_inv _ _ _ _ rest push_context_inv)].
    destruct (slice_parts raw k (zlen raw - k)) as [Hg Hz]; [lia|lia|].
    set (lead := slice raw 0 k) in *. set (mid := slice raw k _) in *. set (trail := slice_from raw _) in *.
    assert (Hm : zlen raw - zlen lead - zlen trail = zlen mid).
    { rewrite <- Hg at 1. rewrite !zlen_app. lia. }
    rewrite Hm. rewrite <- Hg, app_assoc, app_assoc.
    apply (push_all_inv _ _ _ _ rest push_context_inv); [|by apply no_nl_slice|].
    { rewrite E, <- Hg, <- !app_assoc. done. }
    apply push_skip_inv. apply (push_all_inv _ _ _ _ (mid ++ trail ++ rest) push_context_inv);
      [|by apply no_nl_slice|done]. by rewrite E, <- Hg, <- !app_assoc.
  - destruct next.
    + set (sk := Z.max 0 (zlen raw - k)).
      destruct (slice_parts raw sk (zlen raw)) as [Hg Hz]; [lia|lia|].
      assert (Hnil : slice_from raw (zlen raw) = []) by (rewrite slice_suffix by lia; apply drop_ge; unfold zlen; lia).
      rewrite Hnil, app_nil_r in Hg. fold (slice_from raw sk) in Hg.
      assert (Hz0 : zlen (slice raw 0 sk) = sk) by (rewrite zlen_slice; lia).
      rewrite <- Hz0 at 2. rewrite <- Hg at 3. rewrite app_assoc.
      apply (push_all_inv _ _ _ _ rest push_context_inv); [|by apply no_nl_slice|by apply push_skip_inv].
      rewrite E, <- Hg at 1. by rewrite <- !app_assoc.
    + set (sk := Z.max 0 (zlen raw - k)).
      assert (Hsl : slice raw 0 k = slice raw 0 (zlen raw - sk)).
      { unfold slice, rel_index. destruct (Z.ltb_spec k 0), (Z.ltb_spec (zlen raw - sk) 0); try lia.
        do 2 f_equal. lia. }
      rewrite Hsl. destruct (slice_parts raw 0 (zlen raw - sk)) as [Hg Hz]; [lia|lia|].
      assert (H00 : slice raw 0 0 = []) by (rewrite slice_prefix by lia; done).
      rewrite H00 in Hg. cbn [app] in Hg.
      assert (Hzs : zlen (slice_from raw (zlen raw - sk)) = sk).
      { rewrite slice_suffix by lia. rewrite zlen_drop by lia. lia. }
      rewrite <- Hzs at 1. rewrite <- Hg at 5. rewrite app_assoc. apply push_skip_inv.
      apply (push_all_inv _ _ _ _ (slice_from raw (zlen raw - sk) ++ rest) push_context_inv);
        [|by apply no_nl_slice|done]. rewrite E, <- Hg at 1. by rewrite <- !app_assoc.
Qed.

Lemma value_lines_no_nl v : Forall (no_char NL) (value_lines v).
Proof.
  unfold value_lines. pose proof (split_on_no_char NL v) as H. fold (split_lines v) in H.
  case_bool_decide; [|done]. rewrite Forall_forall in *. intros l Hl. apply H.
  destruct (split_lines v) as [|y ls _] using rev_ind; [done|]. rewrite removelast_last in Hl.
  apply elem_of_app. by left.
Qed.

Lemma change_part_inv p st passed rest :
  V = passed ++ (if part_removed p then [] else part_lines p) ++ rest ->
  part_added p && part_removed p = false -> is_change p = true -> diff_inv st passed ->
  diff_inv (change_part p st) (passed ++ if part_removed p then [] else part_lines p).
Proof.
  intros E H1 Hc H. unfold change_part. apply set_last_inv.
  set (st' := Build_DiffState _ _ _ _ _). assert (H' : diff_inv st' passed) by exact H.
  clearbody st'. unfold is_change in Hc. pose proof (value_lines_no_nl (part_value p)) as Hnl.
  destruct (part_added p), (part_removed p); try done.
  - by apply (push_all_inv _ _ _ _ rest push_added_inv).
  - rewrite app_nil_r. by apply push_removed_inv.
Qed.

Lemma diff_loop_inv parts ctx st passed :
  Forall (fun p => part_added p && part_removed p = false) parts ->
  V = passed ++ flat_map part_lines (List.filter (fun p => negb (part_removed p)) parts) ->
  diff_inv st passed -> diff_inv (diff_loop parts ctx st) V.
Proof.
  intros H1. revert st passed. induction H1 as [|p parts Hp _ IH]; intros st passed E H.
  - cbn in *. rewrite app_nil_r in E. by rewrite E.
  - cbn [diff_loop List.filter] in *. destruct (is_change p) eqn:Hc.
    + assert (E' : V = passed ++ (if part_removed p then [] else part_lines p)
        ++ flat_map part_lines (List.filter (fun p => negb (part_removed p)) parts)).
      { rewrite E. by destruct (part_removed p). }
      apply (IH _ (passed ++ if part_removed p then [] else part_lines p)); [by rewrite <- app_assoc|].
      eapply change_part_inv; [exact E'|done..].
    + unfold is_change in Hc. apply orb_false_iff in Hc as [_ Hr]. rewrite Hr in E. cbn [negb flat_map] in E.
      apply (IH _ (passed ++ part_lines p)); [by rewrite <- app_assoc|].
      eapply context_part_inv; [exact E|apply value_lines_no_nl|done].
Qed.
End preview.

Lemma preview_ok_not_nil {bun : BunHash} newLines l : preview_ok newLines l -> l <> [].
Proof. by intros [m n text [-> | ->] _ _|n text|n]. Qed.

Lemma value_lines_at v n :
  1 <= n <= zlen (value_lines v) ->
  n <= zlen (split_lines v) /\ at_ (value_lines v) (n - 1) = Some (file_line (split_lines v) n).
Proof.
  unfold value_lines, file_line. intros Hn. case_bool_decide as E.
  - apply last_split in E. set (r := removelast (split_lines v)) in *. clearbody r. rewrite E.
    rewrite zlen_snoc. split; [lia|]. unfold at_. destruct (Z.ltb_spec (n - 1) 0); [lia|].
    rewrite lookup_app_l by (unfold zlen in Hn; lia).
    destruct (r !! Z.to_nat (n - 1)) eqn:El; [done|]. apply lookup_ge_None in El. unfold zlen in Hn. lia.
  - split; [lia|]. unfold at_. destruct (Z.ltb_spec (n - 1) 0); [lia|].
    destruct (split_lines v !! Z.to_nat (n - 1)) eqn:El; [done|].
    apply lookup_ge_None in El. unfold zlen in Hn. lia.
Qed.

(** The preview shown after an edit can be edited from: each of its lines is a current line of the
    new text with its anchor, a removed line (which has no anchor), or the mark for skipped lines. *)
Theorem preview_anchors_are_current {bun : BunHash} {dl : DiffLines} old new contextLines :
  exists outs,
    snd (buildCompactHashlineDiffPreview (fst (generateDiffString old new contextLines)))
      = join_lines outs /\
    Forall (preview_ok (split_lines new)) outs.
Proof.
  unfold generateDiffString, buildCompactHashlineDiffPreview. cbn [fst].
  pose proof (diff_loop_inv (split_lines new) (value_lines new) (value_lines_at new)
    (diffLines old new) contextLines initial_diff []) as H.
  assert (Hone : Forall (fun p => part_added p && part_removed p = false) (diffLines old new)).
  { apply Forall_forall. intros p Hp. by apply (diffLines_one old new). }
  specialize (H Hone). rewrite diffLines_new in H. specialize (H eq_refl).
  unfold diff_inv in H at 1. cbn in H. specialize (H ltac:(split_and!; try done; constructor)).
  unfold diff_inv in H. set (out := ds_output _) in *.
  destruct (preview_lines preview_zero out) as [pv outs] eqn:Ep. destruct H as (Hf & _ & _ & _ & Hnl).
  exists outs. split; [|done]. destruct (decide (out = [])) as [Hn|Hne].
  - rewrite Hn in *. injection Ep as <- <-. done.
  - destruct (Z.eqb_spec (zlen (join_lines out)) 0) as [Ez|Ez].
    + exfalso. apply zlen_0_nil in Ez. pose proof (split_join NL out Hne Hnl) as Hs.
      unfold join_lines in Ez. rewrite Ez in Hs. rewrite <- Hs in Ep.
      cbn in Ep. injection Ep as <- <-. apply Forall_cons in Hf as [Hf _]. by apply preview_ok_not_nil in Hf.
    + unfold split_lines, join_lines at 1. rewrite split_join by done. fold preview_zero. by rewrite Ep.
Qed.
