(* ===== verification/HashlineTool.v ===== *)
(** * The hashline edit tool: CA/hashline/execute.ts and recovery.ts, CA/edit/normalize.ts (line
    endings), read-file.ts and file-read-cache.ts

    An edit reads files, writes files and remembers what the model has seen of them: the state is a
    [World], the text files by absolute path and the cache of read snapshots.  The sections of an input
    run in the monad [SM World HashlineError].  What the tool calls and this library does not model is
    the class [EditHost] (paths, guards, notebooks, the writer), the class [SnapshotStore] (the LRU
    cache of the package lru-cache) and the class [PatchLib] (the package diff). *)
From S2P Require Import Prelude Json Hashline HashlineApply HashlineRefine HashlineAbsorb HashlineParse.
From S2P Require Import HashlineEffects HashlineReplace HashlineInput HashlineDiff.
#[local] Open Scope Z_scope.
#[local] Open Scope js_scope.

(** ** normalize.ts *)

Inductive LineEnding := CRLF | LF.

Definition detectLineEnding (content : jstr) : LineEnding :=
  let crlfIdx := index_of content [13; 10] 0 in
  let lfIdx := index_of content [10] 0 in
  if lfIdx =? -1 then LF
  else if crlfIdx =? -1 then LF
  else if crlfIdx <? lfIdx then CRLF else LF.

(** [text.replace(/\r\n?/g, "\n")]. *)
Fixpoint normalizeToLF (text : jstr) : jstr :=
  match text with
  | [] => []
  | c :: rest =>
      if c =? 13 then
        match rest with
        | d :: rest' => if d =? 10 then 10 :: normalizeToLF rest' else 10 :: normalizeToLF rest
        | [] => [10]
        end
      else c :: normalizeToLF rest
  end.

Definition restoreLineEndings (text : jstr) (ending : LineEnding) : jstr :=
  match ending with
  | CRLF => flat_map (fun c => if c =? 10 then [13; 10] else [c]) text
  | LF => text
  end.

(** [stripBom]: the mark and the text without it. *)
Definition stripBom (content : jstr) : jstr * jstr :=
  if starts_with content [BOM] then ([BOM], slice_from content 1) else ([], content).

(** ** file-read-cache.ts *)

Record FileReadSnapshot := { snap_lines : gmap Z jstr; snap_recordedAt : Z }.

(** [LRUCache<string, FileReadSnapshot>]: a value that was set is found, and nothing else appears or
    changes; setting a key that is new may evict another.  Which one goes depends on the recency that
    [get] also refreshes; the laws leave the choice open, so [st_get] is a plain lookup here. *)
Class SnapshotStore := {
  store : Type;
  st_get : store -> jstr -> option FileReadSnapshot;
  st_set : store -> jstr -> FileReadSnapshot -> store;
  st_delete : store -> jstr -> store;
  st_clear : store -> store;
  st_get_set : forall s k v, st_get (st_set s k v) k = Some v;
  st_get_set_other : forall s k v k', k <> k' ->
    st_get (st_set s k v) k' = st_get s k' \/ st_get (st_set s k v) k' = None;
  st_set_present : forall s k v k', k <> k' -> st_get s k <> None ->
    st_get (st_set s k v) k' = st_get s k';
  st_get_delete : forall s k k', st_get (st_delete s k) k' = if decide (k = k') then None else st_get s k';
  st_get_clear : forall s k, st_get (st_clear s) k = None;
}.

Section cache.
Context {ss : SnapshotStore}.

Definition hasConflict (existing : gmap Z jstr) (incoming : list (Z * jstr)) : bool :=
  existsb (fun '(lineNum, content) =>
    match existing !! lineNum with
    | Some prior => negb (prior === content)
    | None => false
    end) incoming.

(** [for (const [lineNum, content] of entries) m.set(lineNum, content)]. *)
Definition set_entries (m : gmap Z jstr) (entries : list (Z * jstr)) : gmap Z jstr :=
  fold_left (fun m '(lineNum, content) => <[lineNum := content]> m) entries m.

Definition cache_record (s : store) (absPath : jstr) (entries : list (Z * jstr)) (now : Z) : store :=
  match st_get s absPath with
  | Some existing =>
      if hasConflict (snap_lines existing) entries then
        st_set s absPath {| snap_lines := set_entries ∅ entries; snap_recordedAt := now |}
      else
        st_set s absPath {| snap_lines := set_entries (snap_lines existing) entries;
                            snap_recordedAt := now |}
  | None => st_set s absPath {| snap_lines := set_entries ∅ entries; snap_recordedAt := now |}
  end.

Definition recordContiguous (s : store) (absPath : jstr) (startLine : Z) (lines : list jstr) (now : Z)
    : store :=
  if zlen lines =? 0 then s
  else cache_record s absPath (imap (fun idx l => (startLine + Z.of_nat idx, l)) lines) now.

Definition recordSparse (s : store) (absPath : jstr) (entries : list (Z * jstr)) (now : Z) : store :=
  if zlen entries =? 0 then s else cache_record s absPath entries now.

Definition cache_invalidate (s : store) (absPath : jstr) : store := st_delete s absPath.
Definition cache_clear (s : store) : store := st_clear s.
End cache.

(** ** recovery.ts *)

Definition HASHLINE_RECOVERY_FUZZ_FACTOR : Z := 0.
Definition HASHLINE_RECOVERY_WARNING : jstr :=
  u "Recovered from stale anchors using a previous read snapshot (file changed externally between read and edit).".

(** [Diff.structuredPatch(old, new)] with three lines of context, and [Diff.applyPatch]; [None] is the
    [false] of a patch that does not apply. *)
Class PatchLib := {
  patch : Type;
  structuredPatch : jstr -> jstr -> Z -> patch;
  applyPatch : jstr -> patch -> Z -> option jstr;
}.

Record HashlineRecoveryResult := {
  rc_lines : jstr;
  rc_firstChangedLine : option Z;
  rc_warnings : list jstr;
}.

Definition collectEditAnchors (edits : list HashlineEdit) : list Anchor :=
  flat_map (fun edit =>
    match edit with
    | Delete a _ _ => [a]
    | Insert (BeforeAnchor a) _ _ _ | Insert (AfterAnchor a) _ _ _ => [a]
    | _ => []
    end) edits.

Section recovery.
Context {bun : BunHash} {dl : DiffLines} {pl : PatchLib} {ss : SnapshotStore}.

(** Every anchor is a line of the snapshot with the anchor's hash. *)
Definition vouched (lines : gmap Z jstr) (a : Anchor) : bool :=
  match lines !! line a with
  | None => false
  | Some cachedLine => computeLineHash (line a) cachedLine === hash a
  end.

(** The current text with the lines of the snapshot written over it. *)
Definition overlay (currentText : jstr) (lines : gmap Z jstr) : jstr :=
  let overlaid := split_lines currentText in
  let maxCachedLine := fold_left (fun m '(lineNum, _) => Z.max m lineNum) (map_to_list lines) 0 in
  let overlaid := overlaid ++ replicate (Z.to_nat (maxCachedLine - zlen overlaid)) [] in
  join_lines (fold_left (fun o '(lineNum, content) => set_at o (lineNum - 1) content)
                (map_to_list lines) overlaid).

Definition tryRecoverHashlineWithCache (cache : store) (absolutePath currentText : jstr)
    (edits : list HashlineEdit) (autoDrop : bool)
    : result HashlineError (option HashlineRecoveryResult) :=
  match st_get cache absolutePath with
  | None => Ok None
  | Some snapshot =>
      if bool_decide (snap_lines snapshot = ∅) then Ok None
      else if negb (forallb (vouched (snap_lines snapshot)) (collectEditAnchors edits)) then Ok None
      else
        let previousText := overlay currentText (snap_lines snapshot) in
        if previousText === currentText then Ok None
        else
          match applyHashlineEdits previousText edits autoDrop with
          | Err (MismatchError _ _) => Ok None
          | Err e => Err e
          | Ok applied =>
              if r_lines applied === previousText then Ok None
              else
                let p := structuredPatch previousText (r_lines applied) 3 in
                match applyPatch currentText p HASHLINE_RECOVERY_FUZZ_FACTOR with
                | None => Ok None
                | Some merged =>
                    if merged === currentText then Ok None
                    else
                      let '(_, firstChangedLine) := generateDiffString currentText merged 4 in
                      Ok (Some {|
                        rc_lines := merged;
                        rc_firstChangedLine :=
                          match firstChangedLine with
                          | Some n => Some n | None => r_firstChangedLine applied end;
                        rc_warnings :=
                          match firstChangedLine with
                          | Some _ => [HASHLINE_RECOVERY_WARNING] | None => [] end
                          ++ r_warnings applied |})
                end
          end
  end.

(** [applyHashlineEditsWithRecovery] of execute.ts. *)
Definition applyHashlineEditsWithRecovery (cache : store) (absolutePath text : jstr)
    (edits : list HashlineEdit) (autoDrop : bool) : result HashlineError HashlineApplyResult :=
  match applyHashlineEdits text edits autoDrop with
  | Err (MismatchError ms ls) =>
      recovered ← tryRecoverHashlineWithCache cache absolutePath text edits autoDrop;
      match recovered with
      | None => Err (MismatchError ms ls)
      | Some r => Ok {| r_lines := rc_lines r; r_firstChangedLine := rc_firstChangedLine r;
                        r_warnings := rc_warnings r |}
      end
  | r => r
  end.
End recovery.

(** ** read-file.ts *)

Definition MAX_EDIT_FILE_BYTES : Z := 8 * 1024 * 1024.

(** What the tool calls elsewhere, for one session: plan mode, the guard against generated files, the
    notebook format, the setting, the clock, and the writer, which may format and may fail. *)
Class EditHost := {
  resolvePlanPath : jstr -> result HashlineError jstr;
  resolveToCwd : jstr -> jstr -> jstr;
  enforcePlanModeWrite : jstr -> result HashlineError unit;
  assertEditableFileContent : jstr -> jstr -> result HashlineError unit;
  isNotebookPath : jstr -> bool;
  readEditableNotebookText : jstr -> jstr -> result HashlineError jstr;
  serializeEditedNotebookText : jstr -> jstr -> jstr -> result HashlineError jstr;
  autoDropPureInsertDuplicates : bool;
  clock : Z;
  writethrough : jstr -> jstr -> result HashlineError jstr;
}.

#[global] Instance HashlineError_eq_dec : EqDecision HashlineError.
Proof. assert (EqDecision HashMismatch) by solve_decision. solve_decision. Defined.

Section tool.
Context {bun : BunHash} {dl : DiffLines} {pl : PatchLib} {ss : SnapshotStore} {host : EditHost}.

(** The file system holds the text of each file by absolute path. *)
Record World := { w_files : gmap jstr jstr; w_cache : store }.

Definition fileNotFound (path : jstr) : HashlineError := PlainError (u "File not found: " ++ path).

Definition readEditFileText (files : gmap jstr jstr) (absolutePath path : jstr)
    : result HashlineError jstr :=
  match files !! absolutePath with
  | None => Err (fileNotFound path)
  | Some text =>
      let size := byte_length text in
      if MAX_EDIT_FILE_BYTES <? size then
        Err (PlainError (u "File too large to edit safely: " ++ path ++ u " is " ++ num_to_str size
          ++ u " bytes (limit " ++ num_to_str MAX_EDIT_FILE_BYTES
          ++ u "). Editing loads and diffs the whole file on the main thread; make a more targeted change, split the file, or use a specialized tool."))
      else if isNotebookPath absolutePath then readEditableNotebookText text path
      else Ok text
  end.

Definition serializeEditFileText (absolutePath path content : jstr) : result HashlineError jstr :=
  if isNotebookPath absolutePath then serializeEditedNotebookText absolutePath path content
  else Ok content.

(** ** execute.ts *)

(** [exists] and [rawContent]. *)
Definition readHashlineFile (files : gmap jstr jstr) (absolutePath pathText : jstr)
    : result HashlineError (bool * jstr) :=
  match readEditFileText files absolutePath pathText with
  | Ok text => Ok (true, text)
  | Err (PlainError msg) =>
      if PlainError msg === fileNotFound pathText then Ok (false, []) else Err (PlainError msg)
  | Err e => Err e
  end.

Definition hasAnchorScopedEdit (edits : list HashlineEdit) : bool :=
  existsb (fun edit =>
    match edit with
    | Delete _ _ _ | Insert (BeforeAnchor _) _ _ _ | Insert (AfterAnchor _) _ _ _ => true
    | _ => false
    end) edits.

Definition formatNoChangeDiagnostic (pathText : jstr) : jstr :=
  u "Edits to " ++ pathText ++ u " resulted in no changes being made.".

(** What both passes compute of a section before anything is written. *)
Record SectionPlan := {
  pn_absolutePath : jstr;
  pn_exists : bool;
  pn_bom : jstr;
  pn_ending : LineEnding;
  pn_normalized : jstr;
  pn_parseWarnings : list jstr;
  pn_result : HashlineApplyResult;
}.

Definition plan_section (w : World) (section : HashlineInputSection) : result HashlineError SectionPlan :=
  let path := s_path section in
  absolutePath ← resolvePlanPath path;
  parsed ← parseHashlineWithWarnings (s_diff section);
  _ ← enforcePlanModeWrite path;
  source ← readHashlineFile (w_files w) absolutePath path;
  let '(edits, parseWarnings) := parsed in
  let '(exists_, rawContent) := source in
  if negb exists_ && hasAnchorScopedEdit edits then Err (fileNotFound path)
  else
    _ ← (if (exists_ : bool) then assertEditableFileContent rawContent path else Ok tt);
    let '(bom, text) := stripBom rawContent in
    let originalNormalized := normalizeToLF text in
    result ← applyHashlineEditsWithRecovery (w_cache w) absolutePath originalNormalized edits
               autoDropPureInsertDuplicates;
    Ok {| pn_absolutePath := absolutePath; pn_exists := exists_; pn_bom := bom;
          pn_ending := detectLineEnding text; pn_normalized := originalNormalized;
          pn_parseWarnings := parseWarnings; pn_result := result |}.

(** The text for the model and the first changed line. *)
Record SectionOutcome := { oc_text : jstr; oc_diff : jstr; oc_firstChangedLine : option Z }.

Definition preflightHashlineSection (section : HashlineInputSection) : SM World HashlineError unit :=
  w ← get_state;
  plan ← lift_result (plan_section w section);
  if pn_normalized plan === r_lines (pn_result plan)
  then throw (PlainError (formatNoChangeDiagnostic (s_path section))) else mret tt.

Definition outcome_of (section : HashlineInputSection) (plan : SectionPlan) : SectionOutcome :=
  let result := pn_result plan in
  let '(diff, firstChangedLine) := generateDiffString (pn_normalized plan) (r_lines result) 4 in
  let '(_, preview) := buildCompactHashlineDiffPreview diff in
  let warnings := pn_parseWarnings plan ++ r_warnings result in
  let warningsBlock :=
    if 0 <? zlen warnings then [NL; NL] ++ u "Warnings:" ++ [NL] ++ join_lines warnings else [] in
  let hasPreview := negb (preview ==s "") in
  let previewBlock := if hasPreview then [NL] ++ preview else [] in
  let headline :=
    if hasPreview then s_path section ++ u ":"
    else if pn_exists plan then u "Updated " ++ s_path section
    else u "Created " ++ s_path section in
  {| oc_text := headline ++ previewBlock ++ warningsBlock;
     oc_diff := diff;
     oc_firstChangedLine := match r_firstChangedLine result with
                            | Some n => Some n | None => firstChangedLine end |}.

(** What is written for a plan: the new text with the mark and the line ends of the file. *)
Definition final_content (section : HashlineInputSection) (plan : SectionPlan)
    : result HashlineError jstr :=
  serializeEditFileText (pn_absolutePath plan) (s_path section)
    (pn_bom plan ++ restoreLineEndings (r_lines (pn_result plan)) (pn_ending plan)).

Definition write_plan (plan : SectionPlan) (written : jstr) (w : World) : World :=
  {| w_files := <[pn_absolutePath plan := written]> (w_files w);
     w_cache := recordContiguous (w_cache w) (pn_absolutePath plan) 1
                  (split_lines (r_lines (pn_result plan))) clock |}.

Definition executeHashlineSection (section : HashlineInputSection)
    : SM World HashlineError SectionOutcome :=
  w ← get_state;
  plan ← lift_result (plan_section w section);
  if pn_normalized plan === r_lines (pn_result plan) then
    mret {| oc_text := formatNoChangeDiagnostic (s_path section); oc_diff := [];
            oc_firstChangedLine := None |}
  else
    finalContent ← lift_result (final_content section plan);
    written ← lift_result (writethrough (pn_absolutePath plan) finalContent);
    _ ← modify (write_plan plan written);
    mret (outcome_of section plan).

(** [for (const section of sections) await f(section)]. *)
Fixpoint for_sections {A} (f : HashlineInputSection -> SM World HashlineError A)
    (sections : list HashlineInputSection) : SM World HashlineError (list A) :=
  match sections with
  | [] => mret []
  | s :: rest => x ← f s; xs ← for_sections f rest; mret (x :: xs)
  end.

(** The sections of a call: one at once, several only after all have passed the preflight. *)
Definition run_sections (sections : list HashlineInputSection)
    : SM World HashlineError (list SectionOutcome) :=
  match sections with
  | [s] => outcome ← executeHashlineSection s; mret [outcome]
  | _ =>
      _ ← for_sections preflightHashlineSection sections;
      for_sections executeHashlineSection sections
  end.

Definition executeHashlineSingle {np : NodePath} (input : jstr) (options : SplitHashlineOptions)
    : SM World HashlineError jstr :=
  sections ← lift_result (splitHashlineInputs input options);
  results ← run_sections (mergeSamePathSections sections);
  mret (join_with [NL; NL] (map oc_text results)).

(** ** diff.ts: the preview of an edit that has not run yet *)

(** [message] of an error that the hashline code throws. *)
Definition error_message (e : HashlineError) : jstr :=
  match e with PlainError msg => msg | MismatchError ms ls => formatMessage ms ls end.

Definition readHashlineFileText (files : gmap jstr jstr) (absolutePath pathText : jstr)
    : result HashlineError jstr :=
  match readEditFileText files absolutePath pathText with
  | Ok text => Ok text
  | Err e =>
      let message := error_message e in
      Err (PlainError (if message ==s "" then u "Unable to read " ++ pathText else message))
  end.

(** The diff and the first changed line, or the error to show. *)
Definition computeHashlineSectionDiff (files : gmap jstr jstr) (section : HashlineInputSection)
    (cwd : jstr) (autoDrop : bool) : result jstr (jstr * option Z) :=
  let absolutePath := resolveToCwd (s_path section) cwd in
  match (rawContent ← readHashlineFileText files absolutePath (s_path section);
         edits ← parseHashline (s_diff section);
         let normalized := normalizeToLF (snd (stripBom rawContent)) in
         result ← applyHashlineEdits normalized edits autoDrop;
         Ok (normalized, result)) with
  | Err e => Err (error_message e)
  | Ok (normalized, result) =>
      if normalized === r_lines result
      then Err (u "No changes would be made to " ++ s_path section ++ u ".")
      else Ok (generateDiffString normalized (r_lines result) 4)
  end.

Definition computeHashlineDiff {np : NodePath} (files : gmap jstr jstr) (input : jstr)
    (path : option jstr) (cwd : jstr) (autoDrop : bool) : result jstr (jstr * option Z) :=
  match splitHashlineInputs input {| o_cwd := Some cwd; o_path := path |} with
  | Err e => Err (error_message e)
  | Ok [section] => computeHashlineSectionDiff files section cwd autoDrop
  | Ok _ => Err (u "Streaming diff preview supports exactly one hashline section.")
  end.
End tool.
