(* ===== verification/HashlineBatch.v ===== *)
(** * What a call of the hashline edit tool guarantees

    Theorems about HashlineTool.v: the format of a file survives an edit, a recovery is vouched for by
    what was read, and a batch of sections is applied as a whole or not at all. *)
From S2P Require Import Prelude Json Hashline HashlineApply HashlineRefine HashlineAbsorb HashlineParse.
From S2P Require Import HashlineEffects HashlineReplace HashlineInput HashlineDiff HashlineTool.
#[local] Open Scope Z_scope.
#[local] Open Scope js_scope.

(** ** Line ends *)

Definition eol_text (e : LineEnding) : jstr := match e with CRLF => [13; 10] | LF => [10] end.
Definition plain_line (l : jstr) : Prop := no_char 10 l /\ no_char 13 l.

Lemma find_from_none c p l i : no_char c l -> find_from l (c :: p) i = -1.
Proof.
  intros H. rewrite <- (app_nil_r l), find_from_skip by done. done.
Qed.

Lemma normalize_app l rest : no_char 13 l -> normalizeToLF (l ++ rest) = l ++ normalizeToLF rest.
Proof.
  induction 1 as [|c l Hc _ IH]; [done|]. cbn [app normalizeToLF].
  rewrite (proj2 (Z.eqb_neq c 13)) by done. by rewrite IH.
Qed.

Lemma normalize_plain l : no_char 13 l -> normalizeToLF l = l.
Proof. intros H. rewrite <- (app_nil_r l), normalize_app by done. done. Qed.

Lemma normalize_eol e rest : normalizeToLF (eol_text e ++ rest) = 10 :: normalizeToLF rest.
Proof. by destruct e. Qed.

Lemma normalize_join e ls :
  Forall plain_line ls -> normalizeToLF (join_with (eol_text e) ls) = join_lines ls.
Proof.
  induction 1 as [|l ls [Hn Hr] Hls IH]; [done|]. destruct ls as [|l2 ls].
  - by apply normalize_plain.
  - unfold join_lines in *. rewrite !join_cons by done. by rewrite normalize_app, normalize_eol, IH.
Qed.

Lemma restore_app e a b : restoreLineEndings (a ++ b) e = restoreLineEndings a e ++ restoreLineEndings b e.
Proof. destruct e; [|done]. apply flat_map_app. Qed.

Lemma restore_plain e l : no_char 10 l -> restoreLineEndings l e = l.
Proof.
  destruct e; [|done]. induction 1 as [|c l Hc _ IH]; [done|]. cbn in *.
  rewrite (proj2 (Z.eqb_neq c 10)) by done. by rewrite IH.
Qed.

Lemma restore_join e ls :
  Forall (no_char 10) ls -> restoreLineEndings (join_lines ls) e = join_with (eol_text e) ls.
Proof.
  unfold join_lines. induction 1 as [|l ls Hl Hls IH]; [by destruct e|]. destruct ls as [|l2 ls].
  - by apply restore_plain.
  - rewrite !join_cons by done. rewrite !restore_app, IH, restore_plain by done. by destruct e.
Qed.

Lemma detect_join e ls :
  Forall plain_line ls -> e = LF \/ 2 <= zlen ls -> detectLineEnding (join_with (eol_text e) ls) = e.
Proof.
  intros Hls He. destruct e.
  - destruct He as [|He]; [done|]. destruct Hls as [|l ls [Hn Hr] Hls]; [done|].
    destruct ls as [|l2 ls]; [done|]. rewrite join_cons by done. cbn [eol_text app].
    unfold detectLineEnding, index_of. rewrite !clamp_id by (pose proof (zlen_nonneg (l ++ 13 :: 10 :: join_with [13; 10] (l2 :: ls))); lia).
    change (drop (Z.to_nat 0) ?l) with l. rewrite !find_from_skip by done. cbn [find_from starts_with].
    rewrite !Z.eqb_refl. change (13 =? 10) with false. cbn [andb]. pose proof (zlen_nonneg l).
    replace (10 =? 13) with false by done.
    assert (Hs : forall s, starts_with s [] = true) by by intros []. rewrite !Hs. cbn [andb].
    rewrite !(proj2 (Z.eqb_neq _ _)) by lia. by rewrite (proj2 (Z.ltb_lt _ _)) by lia.
  - unfold detectLineEnding, index_of. pose proof (zlen_nonneg (join_with (eol_text LF) ls)).
    rewrite !clamp_id by lia. change (drop (Z.to_nat 0) ?l) with l.
    rewrite (find_from_none 13); [by destruct (_ =? -1)|].
    clear -Hls. cbn. induction Hls as [|l ls [Hn Hr] _ IH]; [constructor|].
    destruct ls as [|l2 ls]; [done|]. rewrite join_cons by done.
    apply Forall_app. split; [done|]. by constructor.
Qed.

Section batch.
Context {bun : BunHash} {dl : DiffLines} {pl : PatchLib} {ss : SnapshotStore} {host : EditHost}.

Lemma strip_bom_spec bom text :
  bom = [] \/ bom = [BOM] -> (bom = [] -> starts_with text [BOM] = false) ->
  stripBom (bom ++ text) = (bom, text).
Proof.
  intros [->| ->] H; unfold stripBom.
  - cbn [app]. by rewrite H.
  - cbn [app starts_with]. rewrite Z.eqb_refl. assert (starts_with text [] = true) as -> by by destruct text.
    cbn [andb]. rewrite slice_suffix by (rewrite zlen_cons; pose proof (zlen_nonneg text); lia). done.
Qed.

Lemma read_existing files path pathText text raw b :
  files !! path = Some text -> isNotebookPath path = false ->
  readHashlineFile files path pathText = Ok (b, raw) -> b = true /\ raw = text.
Proof.
  intros Hf Hn. unfold readHashlineFile, readEditFileText. rewrite Hf, Hn.
  destruct (_ <? _).
  - case_bool_decide as E; [|done]. exfalso. unfold fileNotFound in E. injection E as E. by vm_compute in E.
  - by intros [= <- <-].
Qed.

(** The two passes over a section, as one decision each. *)
Lemma preflight_eq section w :
  preflightHashlineSection section w =
  (w, match plan_section w section with
      | Err e => Err e
      | Ok plan =>
          if pn_normalized plan === r_lines (pn_result plan)
          then Err (PlainError (formatNoChangeDiagnostic (s_path section))) else Ok tt
      end).
Proof.
  unfold preflightHashlineSection, mbind, sm_bind, get_state, lift_result. cbv beta iota.
  destruct (plan_section w section) as [plan|]; [|done]. by case_bool_decide.
Qed.

Lemma execute_eq section w :
  executeHashlineSection section w =
  match plan_section w section with
  | Err e => (w, Err e)
  | Ok plan =>
      if pn_normalized plan === r_lines (pn_result plan) then
        (w, Ok {| oc_text := formatNoChangeDiagnostic (s_path section); oc_diff := [];
                  oc_firstChangedLine := None |})
      else
        match final_content section plan with
        | Err e => (w, Err e)
        | Ok content =>
            match writethrough (pn_absolutePath plan) content with
            | Err e => (w, Err e)
            | Ok written => (write_plan plan written w, Ok (outcome_of section plan))
            end
        end
  end.
Proof.
  unfold executeHashlineSection, mbind, sm_bind, get_state, lift_result. cbv beta iota.
  destruct (plan_section w section) as [plan|]; [|done]. case_bool_decide; [done|].
  destruct (final_content section plan) as [content|]; [|done].
  by destruct (writethrough (pn_absolutePath plan) content).
Qed.

(** An edit keeps the format of a file: when the file has one kind of line ends (and a byte order
    mark or none), the batch is applied to its lines without them, and the new file has the new lines
    with the same line ends and mark; no other file changes. *)
Theorem edit_keeps_format section w w' outcome path e bom ls :
  resolvePlanPath (s_path section) = Ok path -> isNotebookPath path = false ->
  (forall p c, writethrough p c = Ok c) ->
  bom = [] \/ bom = [BOM] -> ls <> [] -> Forall plain_line ls -> e = LF \/ 2 <= zlen ls ->
  (bom = [] -> starts_with (join_with (eol_text e) ls) [BOM] = false) ->
  w_files w !! path = Some (bom ++ join_with (eol_text e) ls) ->
  executeHashlineSection section w = (w', Ok outcome) ->
  exists edits warnings r,
    parseHashlineWithWarnings (s_diff section) = Ok (edits, warnings) /\
    applyHashlineEditsWithRecovery (w_cache w) path (join_lines ls) edits autoDropPureInsertDuplicates
      = Ok r /\
    w_files w' = <[path := bom ++ join_with (eol_text e) (split_lines (r_lines r))]> (w_files w).
Proof.
  intros Hp Hnb Hw Hbom Hne Hls He Hb Hf H. rewrite execute_eq in H. unfold plan_section in H.
  rewrite Hp in H. cbn [mbind result_bind] in H.
  destruct (parseHashlineWithWarnings _) as [[edits warnings]|]; [|done]. cbn [mbind result_bind] in H.
  destruct (enforcePlanModeWrite _); [|done]. cbn [mbind result_bind] in H.
  destruct (readHashlineFile _ _ _) as [[b raw]|] eqn:Er; [|done]. cbn [mbind result_bind] in H.
  destruct (read_existing _ _ _ _ _ _ Hf Hnb Er) as [-> ->]. cbn [negb andb] in H.
  destruct (assertEditableFileContent _ _); [|done]. cbn [mbind result_bind] in H.
  rewrite (strip_bom_spec bom _ Hbom Hb), (normalize_join e ls Hls), (detect_join e ls Hls He) in H.
  destruct (applyHashlineEditsWithRecovery _ _ _ _ _) as [r|] eqn:Ea; [|done].
  cbn [mbind result_bind pn_normalized pn_result] in H. exists edits, warnings, r. split_and!; [done..|].
  case_bool_decide as Es.
  - injection H as <- _. rewrite <- Es. unfold split_lines, join_lines. rewrite split_join.
    + symmetry. by apply insert_id.
    + done.
    + eapply Forall_impl; [exact Hls|]. by intros l [].
  - unfold final_content, serializeEditFileText in H. cbn [pn_absolutePath] in H. rewrite Hnb in H.
    rewrite Hw in H. injection H as <- _. cbn [w_files write_plan].
    cbn [pn_bom pn_ending pn_result pn_absolutePath]. do 2 f_equal.
    rewrite <- restore_join by apply split_on_no_char. f_equal. symmetry. apply join_split.
Qed.

(** The preview of an edit shows what the edit will do: when a section has a preview, running it in
    the same world gives the diff that was shown and writes the file, provided that both resolve the
    path to the same file. *)
Theorem preview_is_what_happens section w w' outcome cwd diff first :
  let path := resolveToCwd (s_path section) cwd in
  resolvePlanPath (s_path section) = Ok path ->
  computeHashlineSectionDiff (w_files w) section cwd autoDropPureInsertDuplicates = Ok (diff, first) ->
  executeHashlineSection section w = (w', Ok outcome) ->
  oc_diff outcome = diff /\ exists written, w_files w' = <[path := written]> (w_files w).
Proof.
  intros path Hp Hd He. unfold computeHashlineSectionDiff, readHashlineFileText in Hd. fold path in Hd.
  rewrite execute_eq in He. unfold plan_section, readHashlineFile in He. rewrite Hp in He.
  cbn [mbind result_bind] in He.
  destruct (readEditFileText (w_files w) path (s_path section)) as [raw|]; [|done].
  unfold parseHashline in Hd. cbn [mbind result_bind] in Hd, He.
  destruct (parseHashlineWithWarnings _) as [[edits warnings]|]; [|done].
  destruct (enforcePlanModeWrite _); [|done]. cbn [mbind result_bind negb andb] in Hd, He.
  destruct (assertEditableFileContent _ _); [|done]. cbn [mbind result_bind] in He.
  destruct (stripBom raw) as [bom text]. cbn [snd] in Hd. unfold applyHashlineEditsWithRecovery in He.
  destruct (applyHashlineEdits _ _ _) as [r|]; [|done]. cbn [mbind result_bind pn_normalized pn_result] in Hd, He.
  case_bool_decide; [done|]. apply (inj Ok) in Hd.
  destruct (final_content _ _) as [content|]; [|done].
  destruct (writethrough _ _) as [written|]; [|done]. injection He as <- <-. split; [|by eexists].
  unfold outcome_of. cbn [pn_normalized pn_result]. rewrite Hd.
  by destruct (buildCompactHashlineDiffPreview diff).
Qed.

(** ** A batch of sections *)

(** What a section writes when it runs in [w]: the file and its text. *)
Definition planned_write (w : World) (section : HashlineInputSection)
    : result HashlineError (jstr * jstr) :=
  plan ← plan_section w section;
  content ← final_content section plan;
  written ← writethrough (pn_absolutePath plan) content;
  Ok (pn_absolutePath plan, written).

(** The file of the section has a snapshot; the plan is made without the cache. *)
Definition cached (w : World) (section : HashlineInputSection) : Prop :=
  forall path, resolvePlanPath (s_path section) = Ok path -> st_get (w_cache w) path <> None.
Definition cache_free (w : World) (section : HashlineInputSection) : Prop :=
  forall cache, plan_section {| w_files := w_files w; w_cache := cache |} section = plan_section w section.

Lemma plan_path w section plan :
  plan_section w section = Ok plan -> resolvePlanPath (s_path section) = Ok (pn_absolutePath plan).
Proof.
  unfold plan_section. destruct (resolvePlanPath _) as [path|]; [|done]. cbn [mbind result_bind].
  destruct (parseHashlineWithWarnings _) as [[edits warnings]|]; [|done]. cbn [mbind result_bind].
  destruct (enforcePlanModeWrite _); [|done]. cbn [mbind result_bind].
  destruct (readHashlineFile _ _ _) as [[b raw]|]; [|done]. cbn [mbind result_bind].
  destruct (_ && _); [done|]. destruct (if b then _ else _); [|done]. cbn [mbind result_bind].
  destruct (stripBom raw). destruct (applyHashlineEditsWithRecovery _ _ _ _ _); [|done].
  by intros <-%(inj Ok).
Qed.

(** The plan of a section depends on its own file and snapshot only. *)
Lemma plan_section_local w w' section :
  (forall path, resolvePlanPath (s_path section) = Ok path ->
     w_files w' !! path = w_files w !! path /\ st_get (w_cache w') path = st_get (w_cache w) path) ->
  plan_section w' section = plan_section w section.
Proof.
  intros H. unfold plan_section. destruct (resolvePlanPath _) as [path|]; [|done].
  destruct (H path eq_refl) as [Hf Hc]. cbn [mbind result_bind].
  unfold readHashlineFile, readEditFileText, applyHashlineEditsWithRecovery, tryRecoverHashlineWithCache.
  by rewrite Hf, Hc.
Qed.

Lemma plan_section_files w w' section :
  cache_free w section ->
  (forall path, resolvePlanPath (s_path section) = Ok path -> w_files w' !! path = w_files w !! path) ->
  plan_section w' section = plan_section w section.
Proof.
  intros Hfree H. rewrite <- (Hfree (w_cache w')). apply plan_section_local. intros path Hp. cbn.
  split; [by apply H|done].
Qed.

Lemma preflight_keeps sections w : fst (for_sections preflightHashlineSection sections w) = w.
Proof.
  induction sections as [|s rest IH]; [done|]. cbn [for_sections]. unfold mbind at 1, sm_bind at 1.
  rewrite preflight_eq. destruct (plan_section w s); [case_bool_decide|]; try done.
  cbv beta iota. unfold mbind, sm_bind.
  destruct (for_sections _ rest w) as [w' [xs|]]; cbn in *; done.
Qed.

Definition changes (plan : SectionPlan) : Prop := pn_normalized plan <> r_lines (pn_result plan).

Lemma preflight_passes sections w w' xs :
  for_sections preflightHashlineSection sections w = (w', Ok xs) ->
  Forall (fun s => exists plan, plan_section w s = Ok plan /\ changes plan) sections.
Proof.
  revert w' xs. induction sections as [|s rest IH]; intros w' xs; [constructor|].
  cbn [for_sections]. unfold mbind at 1, sm_bind at 1. rewrite preflight_eq.
  destruct (plan_section w s) as [plan|] eqn:Ep; [case_bool_decide as Ec|]; try done.
  cbv beta iota. unfold mbind, sm_bind.
  destruct (for_sections _ rest w) as [w1 [ys|]] eqn:Er; [|done]. intros _.
  constructor; [by exists plan|]. by eapply IH.
Qed.

(** What of a world is still as in [w0] for the sections that have not run yet. *)
Definition untouched (w0 w : World) (sections : list HashlineInputSection) : Prop :=
  (forall s path, s ∈ sections -> resolvePlanPath (s_path s) = Ok path ->
     w_files w !! path = w_files w0 !! path) /\
  ((forall s, s ∈ sections -> cache_free w0 s) \/
   (forall s path, s ∈ sections -> resolvePlanPath (s_path s) = Ok path ->
      st_get (w_cache w) path = st_get (w_cache w0) path /\ st_get (w_cache w) path <> None)).

Lemma untouched_plan w0 w sections s :
  untouched w0 w sections -> s ∈ sections -> plan_section w s = plan_section w0 s.
Proof.
  intros [Hf [Hfree|Hc]] Hs.
  - apply plan_section_files; [by apply Hfree|]. intros path. by apply Hf.
  - apply plan_section_local. intros path Hp. split; [by eapply Hf|by eapply Hc].
Qed.

Lemma untouched_write w0 w s rest plan written :
  untouched w0 w (s :: rest) -> plan_section w0 s = Ok plan ->
  (forall s', s' ∈ rest -> resolvePlanPath (s_path s') <> Ok (pn_absolutePath plan)) ->
  untouched w0 (write_plan plan written w) rest.
Proof.
  intros [Hf Hc] Hp Hnew. pose proof (plan_path _ _ _ Hp) as Hpath. split.
  - intros s' path Hs' Hr. cbn. rewrite lookup_insert_ne; [by apply (Hf s'); [apply elem_of_cons; right|]|].
    intros <-. by apply (Hnew s').
  - destruct Hc as [Hfree|Hc]; [left|right].
    + intros s' Hs'. apply Hfree, elem_of_cons. by right.
    + intros s' path Hs' Hr. assert (Hne : pn_absolutePath plan <> path) by (intros <-; by apply (Hnew s')).
      assert (E : st_get (w_cache (write_plan plan written w)) path = st_get (w_cache w) path).
      { cbn. unfold recordContiguous. destruct (_ =? 0); [done|]. unfold cache_record.
        destruct (Hc s _ (proj2 (elem_of_cons _ _ _) (or_introl eq_refl)) Hpath) as [_ Hpres].
        destruct (st_get (w_cache w) (pn_absolutePath plan)) as [old|] eqn:Eo; [|done].
        assert (Hpres' : st_get (w_cache w) (pn_absolutePath plan) <> None) by by rewrite Eo.
        destruct (hasConflict _ _); by apply st_set_present. }
      rewrite E. apply (Hc s'); [apply elem_of_cons; by right|done].
Qed.

(** The files after all the writes. *)
Definition wrote (writes : list (jstr * jstr)) (before after : gmap jstr jstr) : Prop :=
  (forall p c, (p, c) ∈ writes -> after !! p = Some c) /\
  (forall p, p ∉ map fst writes -> after !! p = before !! p).

Lemma planned_write_inv w s p c :
  planned_write w s = Ok (p, c) ->
  exists plan content, plan_section w s = Ok plan /\ p = pn_absolutePath plan /\
    final_content s plan = Ok content /\ writethrough p content = Ok c.
Proof.
  unfold planned_write. destruct (plan_section w s) as [plan|]; [|done]. cbn [mbind result_bind].
  destruct (final_content s plan) as [content|] eqn:Ef; [|done]. cbn [mbind result_bind].
  destruct (writethrough (pn_absolutePath plan) content) as [written|] eqn:Ew; [|done].
  cbn [mbind result_bind]. intros H%(inj Ok). injection H as <- <-. by exists plan, content.
Qed.

Lemma for_sections_app {A} (f : HashlineInputSection -> SM World HashlineError A) l1 l2 w :
  for_sections f (l1 ++ l2) w =
  match for_sections f l1 w with
  | (w', Ok xs) => match for_sections f l2 w' with (w'', Ok ys) => (w'', Ok (xs ++ ys)) | (w'', Err e) => (w'', Err e) end
  | (w', Err e) => (w', Err e)
  end.
Proof.
  revert w. induction l1 as [|s l1 IH]; intros w; cbn [app for_sections].
  - cbn. by destruct (for_sections f l2 w) as [w' [xs|e]].
  - unfold mbind, sm_bind. destruct (f s w) as [w1 [x|e]]; [|done]. rewrite IH.
    destruct (for_sections f l1 w1) as [w2 [xs|e]]; [|reflexivity]. unfold mret, sm_ret. cbv beta iota. destruct (for_sections f l2 w2) as [w3 [ys|e]]; reflexivity.
Qed.

(** No section of [later] is for a file that was written. *)
Definition elsewhere (later : list HashlineInputSection) (writes : list (jstr * jstr)) : Prop :=
  forall s path, s ∈ later -> resolvePlanPath (s_path s) = Ok path -> path ∉ map fst writes.

Lemma execute_all w0 sections later writes w :
  Forall (fun s => exists plan, plan_section w0 s = Ok plan /\ changes plan) sections ->
  Forall2 (fun s pc => planned_write w0 s = Ok pc) sections writes ->
  NoDup (map fst writes) -> elsewhere later writes -> untouched w0 w (sections ++ later) ->
  exists w' outs, for_sections executeHashlineSection sections w = (w', Ok outs) /\
    wrote writes (w_files w) (w_files w') /\ untouched w0 w' later.
Proof.
  intros Hch Hw. revert w. induction Hw as [|s [p c] rest writes Hpw Hrest IH]; intros w Hnd Hl Hu.
  - exists w, []. split; [done|]. split; [|done]. split; [|done]. by intros p c ?%elem_of_nil.
  - apply Forall_cons in Hch as [(plan & Hp & Hc) Hch]. cbn in Hnd. apply NoDup_cons in Hnd as [Hni Hnd].
    assert (Hs : s ∈ (s :: rest) ++ later) by (apply elem_of_cons; by left).
    destruct (planned_write_inv _ _ _ _ Hpw) as (plan' & content & Hp' & -> & Ef & Ewt).
    rewrite Hp in Hp'. apply (inj Ok) in Hp' as <-.
    destruct (IH Hch (write_plan plan c w) Hnd) as (w' & outs & E & [Hin Hout] & Hu').
    { intros s' path Hs' Hr Hin. apply (Hl s' path Hs' Hr). cbn. by right. }
    { eapply untouched_write; [exact Hu|exact Hp|]. intros s' [Hs'|Hs']%elem_of_app Hr.
      - apply Hni. apply list_elem_of_lookup in Hs' as [i Hi].
        destruct (Forall2_lookup_l _ _ _ _ _ Hrest Hi) as ([p' c'] & Hi' & Hpw').
        apply list_elem_of_fmap. exists (p', c'). split; [|by eapply list_elem_of_lookup_2]. cbn.
        destruct (planned_write_inv _ _ _ _ Hpw') as (plan' & _ & Ep%plan_path & -> & _). congruence.
      - apply (Hl s' _ Hs' Hr). cbn. by left. }
    exists w', (outcome_of s plan :: outs). split; [|split; [|done]].
    + cbn [for_sections]. unfold mbind at 1, sm_bind at 1. rewrite execute_eq.
      rewrite (untouched_plan _ _ _ _ Hu Hs), Hp, bool_decide_eq_false_2 by done.
      rewrite Ef, Ewt. cbv beta iota. unfold mbind, sm_bind. by rewrite E.
    + split.
      * intros p c' [[= -> ->]|H]%elem_of_cons; [|by apply Hin].
        rewrite Hout by done. cbn. by rewrite lookup_insert_eq.
      * cbn. intros p [Hne H]%not_elem_of_cons. rewrite Hout by done. cbn. by apply lookup_insert_ne.
Qed.

(** A section that passed the preflight and whose write fails. *)
Lemma execute_fails w0 w s rest plan e :
  plan_section w0 s = Ok plan -> changes plan -> planned_write w0 s = Err e -> untouched w0 w (s :: rest) ->
  for_sections executeHashlineSection (s :: rest) w = (w, Err e).
Proof.
  intros Hp Hc Hw Hu. cbn [for_sections]. unfold mbind at 1, sm_bind at 1. rewrite execute_eq.
  rewrite (untouched_plan _ _ _ _ Hu) by (apply elem_of_cons; by left). rewrite Hp, bool_decide_eq_false_2 by done.
  unfold planned_write in Hw. rewrite Hp in Hw. cbn [mbind result_bind] in Hw.
  destruct (final_content s plan) as [content|e']; cbn [mbind result_bind] in Hw; [|by injection Hw as ->].
  destruct (writethrough _ content) as [c|e']; cbn [mbind result_bind] in Hw; [done|by injection Hw as ->].
Qed.

Lemma untouched_start w sections : Forall (cached w) sections \/ Forall (cache_free w) sections -> untouched w w sections.
Proof.
  intros Hc. split; [done|]. destruct Hc as [Hc|Hc]; rewrite Forall_forall in Hc; [right|left; auto].
  intros s path Hs Hr. split; [done|]. by apply (Hc s).
Qed.

Lemma run_several sections w :
  2 <= zlen sections ->
  run_sections sections w =
    match for_sections preflightHashlineSection sections w with
    | (_, Ok _) => for_sections executeHashlineSection sections w
    | (_, Err e) => (w, Err e)
    end.
Proof.
  intros Hlen. pose proof (preflight_keeps sections w) as Hk.
  destruct sections as [|s1 [|s2 rest]]; [done|done|]. unfold run_sections. unfold mbind at 1, sm_bind at 1.
  destruct (for_sections preflightHashlineSection _ w) as [w' [xs|e]]; cbn in Hk; by subst.
Qed.

(** C6. What a call with several sections does.  When one of them cannot be applied the call fails and nothing has
    changed.  When all can be, the sections are for different files and the snapshots they rely on stay (each file has
    one already, or none is used), the files are written in order, each with exactly the text that was planned for it
    before the first write, and no other file changes: all of them if every write goes through, and those before the
    first write that fails otherwise, which is the error of the call. *)
Theorem batch_is_atomic sections w :
  2 <= zlen sections ->
  (forall w' e, for_sections preflightHashlineSection sections w = (w', Err e) ->
     run_sections sections w = (w, Err e)) /\
  (forall w' xs written later writes, for_sections preflightHashlineSection sections w = (w', Ok xs) ->
     sections = written ++ later -> Forall2 (fun s pc => planned_write w s = Ok pc) written writes ->
     NoDup (map fst writes) -> elsewhere later writes ->
     Forall (cached w) sections \/ Forall (cache_free w) sections ->
     (later = [] -> exists w'' outs, run_sections sections w = (w'', Ok outs) /\ wrote writes (w_files w) (w_files w'')) /\
     (forall s rest e, later = s :: rest -> planned_write w s = Err e ->
        exists w'', run_sections sections w = (w'', Err e) /\ wrote writes (w_files w) (w_files w''))).
Proof.
  intros Hlen. rewrite run_several by done. split.
  - intros w' e E. by rewrite E.
  - intros w' xs written later writes E -> Hw Hnd Hl Hc. pose proof (preflight_passes _ _ _ _ E) as Hp. rewrite E.
    apply Forall_app in Hp as [Hp Hpl].
    destruct (execute_all w written later writes w Hp Hw Hnd Hl (untouched_start _ _ Hc)) as (w'' & outs & Ex & Hwr & Hu).
    split.
    + intros ->. rewrite app_nil_r. by exists w'', outs.
    + intros s rest e -> He. apply Forall_cons in Hpl as [(plan & Hs & Hch) _]. exists w''. split; [|done].
      rewrite for_sections_app, Ex. by rewrite (execute_fails w w'' s rest plan e).
Qed.
End batch.
