(* ===== verification/HashlineRecover.v ===== *)
(** * Recovery from stale anchors: theorems about CA/hashline/recovery.ts

    The definitions are in HashlineTool.v.  A recovery replays the batch on the lines that the model
    has read ([overlay]) and merges the result into the file; [recovery_is_vouched] says what it rests
    on, [wide_replacements_never_recover] which batches it always turns away. *)
From S2P Require Import Prelude Json Hashline HashlineApply HashlineRefine HashlineAbsorb HashlineParse.
From S2P Require Import HashlineEffects HashlineReplace HashlineInput HashlineDiff HashlineTool.
#[local] Open Scope Z_scope.
#[local] Open Scope js_scope.

(** ** The overlay *)

Definition put_line (o : list jstr) (e : Z * jstr) : list jstr := set_at o (fst e - 1) (snd e).

Lemma at_set {A} (l : list A) i j (x : A) :
  at_ (set_at l i x) j = if decide (i = j /\ 0 <= i < zlen l) then Some x else at_ l j.
Proof.
  unfold at_, set_at, zlen. destruct (Z.ltb_spec j 0), (Z.ltb_spec i 0); try (case_decide; [lia|done]).
  case_decide as H'.
  - destruct H' as [-> ?]. apply list_lookup_insert_eq. lia.
  - destruct (decide (i = j)) as [->|]; [|apply list_lookup_insert_ne; lia].
    rewrite list_insert_ge by lia. done.
Qed.

Lemma zlen_set {A} (l : list A) i x : zlen (set_at l i x) = zlen l.
Proof. unfold set_at, zlen. destruct (i <? 0); [done|]. by rewrite length_insert. Qed.

Lemma put_lines_spec kvs o :
  NoDup kvs.*1 -> (forall k v, (k, v) ∈ kvs -> k <= zlen o) ->
  zlen (fold_left put_line kvs o) = zlen o /\
  forall n, 1 <= n ->
    (forall v, (n, v) ∈ kvs -> at_ (fold_left put_line kvs o) (n - 1) = Some v) /\
    (n ∉ kvs.*1 -> at_ (fold_left put_line kvs o) (n - 1) = at_ o (n - 1)).
Proof.
  revert o. induction kvs as [|[k w] kvs IH]; intros o Hnd Hk; cbn [fold_left].
  { split; [done|]. intros n _. split; [|done]. by intros v ?%elem_of_nil. }
  cbn in Hnd. apply NoDup_cons in Hnd as [Hni Hnd].
  assert (Hz : zlen (put_line o (k, w)) = zlen o) by apply zlen_set.
  destruct (IH (put_line o (k, w)) Hnd) as [Hlen Hat].
  { intros k' v' H. rewrite Hz. apply (Hk k' v'), elem_of_cons. by right. }
  split; [by rewrite Hlen|]. intros n Hn. destruct (Hat n Hn) as [Hin Hout]. split.
  - intros v [[= -> ->]|H]%elem_of_cons; [|by apply Hin]. rewrite Hout by done.
    unfold put_line. cbn. rewrite at_set, decide_True; [done|]. split; [done|].
    pose proof (Hk k w (proj2 (elem_of_cons _ _ _) (or_introl eq_refl))). lia.
  - cbn. intros [Hne H]%not_elem_of_cons. rewrite Hout by done. unfold put_line. cbn.
    rewrite at_set, decide_False by lia. done.
Qed.

Lemma max_line_bound (kvs : list (Z * jstr)) m :
  m <= fold_left (fun m '(lineNum, _) => Z.max m lineNum) kvs m /\
  forall k v, (k, v) ∈ kvs -> k <= fold_left (fun m '(lineNum, _) => Z.max m lineNum) kvs m.
Proof.
  revert m. induction kvs as [|[k w] kvs IH]; intros m; cbn [fold_left].
  { split; [done|]. by intros k v ?%elem_of_nil. }
  destruct (IH (Z.max m k)) as [H1 H2]. split; [lia|].
  intros k' v [[= -> ->]|H]%elem_of_cons; [lia|by eapply H2].
Qed.

Lemma put_lines_forall (P : jstr -> Prop) kvs o :
  Forall P o -> Forall (fun e : Z * jstr => P (snd e)) kvs -> Forall P (fold_left put_line kvs o).
Proof.
  intros Ho Hk. revert o Ho. induction Hk as [|[k v] kvs Hv _ IH]; intros o Ho; cbn; [done|].
  apply IH. unfold put_line, set_at. cbn. destruct (_ <? 0); [done|]. by apply Forall_insert.
Qed.

Definition one_line_each (lines : gmap Z jstr) : Prop := map_Forall (fun _ l => no_char NL l) lines.

(** Over the overlay, a line of the snapshot is as it was read and any other line is the current one. *)
Lemma overlay_lines cur lines n :
  one_line_each lines -> 1 <= n ->
  (forall text, lines !! n = Some text -> at_ (split_lines (overlay cur lines)) (n - 1) = Some text) /\
  (lines !! n = None -> n <= zlen (split_lines cur) ->
   at_ (split_lines (overlay cur lines)) (n - 1) = at_ (split_lines cur) (n - 1)).
Proof.
  intros Hone Hn. unfold overlay.
  set (mx := fold_left _ (map_to_list lines) 0).
  set (base := split_lines cur ++ replicate (Z.to_nat (mx - zlen (split_lines cur))) []).
  assert (E : fold_left (fun o '(lineNum, content) => set_at o (lineNum - 1) content) (map_to_list lines) base
              = fold_left put_line (map_to_list lines) base).
  { generalize base. generalize (map_to_list lines). intros l. induction l as [|[k v] l IH]; intros b; [done|].
    cbn [fold_left]. by rewrite IH. }
  rewrite E. destruct (put_lines_spec (map_to_list lines) base) as [Hlen Hat].
  { apply NoDup_fst_map_to_list. }
  { intros k v H. destruct (max_line_bound (map_to_list lines) 0) as [_ Hm]. specialize (Hm k v H).
    fold mx in Hm. unfold base. rewrite zlen_app. unfold zlen at 2. rewrite length_replicate. lia. }
  assert (Hsp : split_lines (join_lines (fold_left put_line (map_to_list lines) base)) =
                fold_left put_line (map_to_list lines) base).
  { apply split_join.
    - intros H0. rewrite H0 in Hlen. unfold base in Hlen. rewrite zlen_app, zlen_nil in Hlen.
      pose proof (zlen_0_nil (split_lines cur)) as H1. pose proof (split_on_nonempty NL cur).
      unfold zlen in *. assert (H2 : split_lines cur = []) by (apply H1; lia). done.
    - apply put_lines_forall.
      + apply Forall_app. split; [apply split_on_no_char|]. apply Forall_replicate. constructor.
      + apply Forall_forall. intros [k v] H%elem_of_map_to_list. by apply (Hone k v). }
  rewrite Hsp. destruct (Hat n Hn) as [Hin Hout]. split.
  - intros text H. by apply Hin, elem_of_map_to_list.
  - intros H Hle. rewrite Hout.
    + unfold base, at_. destruct (n - 1 <? 0) eqn:?; [done|]. apply lookup_app_l. unfold zlen in Hle. lia.
    + intros Hin'. apply list_elem_of_fmap in Hin' as ([k v] & -> & Hv%elem_of_map_to_list). cbn in H. congruence.
Qed.

(** ** What a recovery rests on *)

Section recovery_spec.
Context {bun : BunHash} {dl : DiffLines} {pl : PatchLib} {ss : SnapshotStore}.

Lemma recovered cache path cur edits auto r :
  tryRecoverHashlineWithCache cache path cur edits auto = Ok (Some r) ->
  exists snap applied,
    st_get cache path = Some snap /\
    forallb (vouched (snap_lines snap)) (collectEditAnchors edits) = true /\
    applyHashlineEdits (overlay cur (snap_lines snap)) edits auto = Ok applied /\
    applyPatch cur (structuredPatch (overlay cur (snap_lines snap)) (r_lines applied) 3)
      HASHLINE_RECOVERY_FUZZ_FACTOR = Some (rc_lines r) /\
    rc_lines r <> cur.
Proof.
  unfold tryRecoverHashlineWithCache. destruct (st_get cache path) as [snap|]; [|done].
  destruct (bool_decide _); [done|]. destruct (forallb _ _) eqn:Ev; [|done]. cbn [negb].
  destruct (bool_decide _); [done|].
  destruct (applyHashlineEdits _ _ _) as [applied|[msg|ms ls]] eqn:Ea; [|done|done].
  destruct (bool_decide _); [done|]. destruct (applyPatch _ _ _) as [merged|] eqn:Ep; [|done].
  case_bool_decide as Em; [done|]. destruct (generateDiffString _ _ _) as [diff first].
  intros <-%(inj Ok)%(inj Some). exists snap, applied. cbn. split_and!; done.
Qed.

(** C38. What is written after a recovery rests on what was read: every anchor of the batch is the
    anchor of a line that the cache has for the file; the batch was accepted on a text in which these
    lines stand at these numbers (and the lines that were not read are the current ones); and the file
    written is the patch of that application on the current file. *)
Theorem recovery_is_vouched cache path cur edits auto r :
  tryRecoverHashlineWithCache cache path cur edits auto = Ok (Some r) ->
  exists snap applied,
    st_get cache path = Some snap /\
    let replayed := overlay cur (snap_lines snap) in
    (one_line_each (snap_lines snap) ->
     (forall a, a ∈ collectEditAnchors edits -> 1 <= line a ->
        exists text, snap_lines snap !! line a = Some text /\ a = line_anchor (line a) text /\
          at_ (split_lines replayed) (line a - 1) = Some text) /\
     (forall n, snap_lines snap !! n = None -> 1 <= n <= zlen (split_lines cur) ->
        at_ (split_lines replayed) (n - 1) = at_ (split_lines cur) (n - 1))) /\
    applyHashlineEdits replayed edits auto = Ok applied /\
    applyPatch cur (structuredPatch replayed (r_lines applied) 3) 0 = Some (rc_lines r) /\
    rc_lines r <> cur.
Proof.
  intros H. destruct (recovered _ _ _ _ _ _ H) as (snap & applied & Hs & Hv & Ha & Hp & Hne).
  exists snap, applied. cbv zeta. split_and!; [done| |done|done|done].
  intros Hone. rewrite forallb_forall in Hv. split.
  - intros a Hin Hl. specialize (Hv a (proj1 (list_elem_of_In _ _) Hin)). unfold vouched in Hv.
    destruct (snap_lines snap !! line a) as [text|] eqn:Et; [|done]. case_bool_decide as Eh; [|done].
    exists text. split_and!; [done| |].
    + destruct a as [n h]. unfold line_anchor. cbn in *. by rewrite Eh.
    + by apply overlay_lines.
  - intros n Hn Hr. apply overlay_lines; [done|lia|done|lia].
Qed.

(** ** Ranges of three lines and more *)

Lemma filler_not_vouched lines a : hash a = RANGE_INTERIOR_HASH -> vouched lines a = false.
Proof.
  intros Hh. unfold vouched. destruct (lines !! line a) as [text|]; [|done]. rewrite Hh.
  case_bool_decide as E; [|done].
  pose proof (computeLineHash_letters (line a) text) as Hc. rewrite E in Hc. by vm_compute in Hc.
Qed.

(** The filler of a wide range is among the anchors of its batch. *)
Lemma wide_range_filler from to payload ops :
  OpReplace from to payload ∈ ops -> line from + 2 <= line to ->
  exists a, a ∈ collectEditAnchors (ops_edits ops) /\ hash a = RANGE_INTERIOR_HASH.
Proof.
  intros Hin Hw.
  set (filler := {| line := line from + 1; hash := RANGE_INTERIOR_HASH |}). exists filler. split; [|done].
  assert (Hm : forall n, exists k, (fun i => Delete filler k i) ∈ ops_makers ops n).
  { apply list_elem_of_split in Hin as (pre & post & ->). clear -Hw. induction pre as [|op pre IH]; intros n.
    - exists n. cbn [app ops_makers op_makers]. apply elem_of_app. left. apply elem_of_app. right.
      apply list_elem_of_In, in_map_iff. exists filler. split; [done|]. unfold range_anchors.
      rewrite (proj2 (Z.eqb_neq _ _)) by lia. right. apply in_app_iff. left.
      apply in_map_iff. exists (line from + 1). split; [done|]. apply list_elem_of_In, elem_of_seqZ. lia.
    - destruct (IH (n + zlen (op_lines op))) as [k Hk]. exists k. cbn. apply elem_of_app. by right. }
  destruct (Hm 1) as [k Hk]. apply list_elem_of_lookup in Hk as [i Hi].
  apply list_elem_of_In, in_flat_map. exists (Delete filler k (0 + Z.of_nat i)). split; [|by left].
  apply list_elem_of_In, (list_elem_of_lookup_2 _ i). unfold ops_edits, number_edits.
  by rewrite list_lookup_imap, Hi.
Qed.

(** A batch that replaces a range of three lines or more is never recovered: the fillers of the
    range are checked like anchors, and no line has the filler as its hash.  For these batches the
    application with recovery is the plain application. *)
Theorem wide_replacements_never_recover cache path text ops auto from to payload :
  OpReplace from to payload ∈ ops -> line from + 2 <= line to ->
  match applyHashlineEdits text (ops_edits ops) auto with
  | Err (MismatchError ms ls) =>
      tryRecoverHashlineWithCache cache path text (ops_edits ops) auto = Ok None /\
      applyHashlineEditsWithRecovery cache path text (ops_edits ops) auto = Err (MismatchError ms ls)
  | r => applyHashlineEditsWithRecovery cache path text (ops_edits ops) auto = r
  end.
Proof.
  intros Hin Hw. destruct (wide_range_filler _ _ _ _ Hin Hw) as (a & Ha & Hh).
  unfold applyHashlineEditsWithRecovery.
  destruct (applyHashlineEdits text _ _) as [r|[msg|ms ls]]; [done|done|].
  assert (E : tryRecoverHashlineWithCache cache path text (ops_edits ops) auto = Ok None).
  { unfold tryRecoverHashlineWithCache. destruct (st_get cache path) as [snap|]; [|done].
    destruct (bool_decide _); [done|]. destruct (forallb _ _) eqn:Ev; [|done]. exfalso.
    rewrite forallb_forall in Ev. specialize (Ev a (proj1 (list_elem_of_In _ _) Ha)).
    by rewrite filler_not_vouched in Ev. }
  by rewrite E.
Qed.
End recovery_spec.
