(* ===== verification/HashlineStream.v ===== *)
(** * Anchored lines of a stream: CA/hashline/stream.ts

    The lines of a UTF-8 stream are numbered, given their anchors and sent in chunks of bounded size.
    The decoder (TextDecoder) is the host's: [pieces] are the strings it returns for the chunks it is
    given and [rest] is what its last call returns; the stream's own code starts there.  Theorems: what
    is sent is the same however the text was cut, and it is the numbered lines in bounded chunks. *)
From S2P Require Import Prelude Json Hashline HashlineApply HashlineParse HashlineInput HashlineDiff.
From S2P Require Import HashlineTool.
#[local] Open Scope Z_scope.
#[local] Open Scope js_scope.

Record HashlineStreamOptions := {
  so_startLine : option Z;
  so_maxChunkLines : option Z;
  so_maxChunkBytes : option Z;
}.

Record ResolvedHashlineStreamOptions := {
  startLine : Z;
  maxChunkLines : Z;
  maxChunkBytes : Z;
}.

Definition resolveHashlineStreamOptions (o : HashlineStreamOptions) : ResolvedHashlineStreamOptions :=
  {| startLine := default 1 (so_startLine o);
     maxChunkLines := default 200 (so_maxChunkLines o);
     maxChunkBytes := default (64 * 1024) (so_maxChunkBytes o) |}.

(** The variables that the emitter's closures share. *)
Record Emitter := { lineNumber : Z; outLines : list jstr; outBytes : Z }.

Section stream.
Context {bun : BunHash}.

(** [createHashlineChunkEmitter]. *)
Definition new_emitter (options : ResolvedHashlineStreamOptions) : Emitter :=
  {| lineNumber := startLine options; outLines := []; outBytes := 0 |}.

Definition em_flush (st : Emitter) : Emitter * option jstr :=
  if zlen (outLines st) =? 0 then (st, None)
  else ({| lineNumber := lineNumber st; outLines := []; outBytes := 0 |}, Some (join_lines (outLines st))).

(** [const flushed = flush(); if (flushed) chunks.push(flushed)]. *)
Definition flush_into (st : Emitter) (chunks : list jstr) : Emitter * list jstr :=
  let '(st, flushed) := em_flush st in
  match flushed with
  | Some chunk => if chunk ==s "" then (st, chunks) else (st, chunks ++ [chunk])
  | None => (st, chunks)
  end.

Definition pushLine (options : ResolvedHashlineStreamOptions) (st : Emitter) (l : jstr)
    : Emitter * list jstr :=
  let formatted := formatHashLine (lineNumber st) l in
  let st := {| lineNumber := lineNumber st + 1; outLines := outLines st; outBytes := outBytes st |} in
  let sepBytes := if zlen (outLines st) =? 0 then 0 else 1 in
  let lineBytes := byte_length formatted in
  let wouldOverflow := (maxChunkLines options <=? zlen (outLines st))
                       || (maxChunkBytes options <? outBytes st + sepBytes + lineBytes) in
  let '(st, chunks) :=
    if (0 <? zlen (outLines st)) && wouldOverflow then flush_into st [] else (st, []) in
  let out := outLines st ++ [formatted] in
  let st := {| lineNumber := lineNumber st; outLines := out;
               outBytes := outBytes st + ((if zlen out =? 1 then 0 else 1) + lineBytes) |} in
  if (maxChunkLines options <=? zlen (outLines st)) || (maxChunkBytes options <=? outBytes st)
  then flush_into st chunks else (st, chunks).

(** [streamHashLinesFromUtf8]: its variables, and what it has yielded. *)
Record StreamState := { emitter : Emitter; pending : jstr; sawAnyLine : bool; yielded : list jstr }.

Definition emit_line (options : ResolvedHashlineStreamOptions) (l : jstr) (st : StreamState)
    : StreamState :=
  let '(em, outs) := pushLine options (emitter st) l in
  {| emitter := em; pending := pending st; sawAnyLine := sawAnyLine st; yielded := yielded st ++ outs |}.

Definition set_pending (p : jstr) (saw : bool) (st : StreamState) : StreamState :=
  {| emitter := emitter st; pending := p; sawAnyLine := saw; yielded := yielded st |}.

(** [while (nl !== -1)]: each round takes a newline out of [pending]. *)
Fixpoint drain (options : ResolvedHashlineStreamOptions) (fuel : nat) (st : StreamState) : StreamState :=
  match fuel with
  | O => st
  | S f =>
      let nl := index_of (pending st) [NL] 0 in
      if nl =? -1 then st
      else
        let l := strip_cr (slice (pending st) 0 nl) in
        let rest := slice_from (pending st) (nl + 1) in
        drain options f (set_pending rest true (emit_line options l (set_pending (pending st) true st)))
  end.

Definition feed (options : ResolvedHashlineStreamOptions) (st : StreamState) (piece : jstr) : StreamState :=
  let p := pending st ++ piece in
  drain options (S (length p)) (set_pending p (sawAnyLine st) st).

Definition stream_end (options : ResolvedHashlineStreamOptions) (rest : jstr) (st : StreamState)
    : list jstr :=
  let st := set_pending (pending st ++ rest) (sawAnyLine st) st in
  let st :=
    if 0 <? zlen (pending st) then
      emit_line options (strip_cr (pending st)) (set_pending (pending st) true st)
    else st in
  let st := if negb (sawAnyLine st) then emit_line options [] st else st in
  match snd (em_flush (emitter st)) with
  | Some last => if last ==s "" then yielded st else yielded st ++ [last]
  | None => yielded st
  end.

Definition streamHashLinesFromUtf8 (pieces : list jstr) (rest : jstr) (options : HashlineStreamOptions)
    : list jstr :=
  let resolved := resolveHashlineStreamOptions options in
  let st := {| emitter := new_emitter resolved; pending := []; sawAnyLine := false; yielded := [] |} in
  stream_end resolved rest (fold_left (feed resolved) pieces st).
End stream.

(** ** The lines of a text *)

(** The lines that the stream has of a text: a newline ends a line, an empty rest is no line (but an
    empty text has one), and a carriage return before the end of a line is dropped. *)
Definition stream_lines (text : jstr) : list jstr :=
  let all := split_lines text in
  let complete := map strip_cr (removelast all) in
  let tail := default [] (last all) in
  if zlen tail =? 0 then match complete with [] => [[]] | _ => complete end
  else complete ++ [strip_cr tail].

Definition numbered {bun : BunHash} (start : Z) (lines : list jstr) : list jstr :=
  imap (fun i l => formatHashLine (start + Z.of_nat i) l) lines.

(** ** The code's loop is a fold over the lines *)

Lemma split_on_last c s t :
  split_on c (s ++ t) = removelast (split_on c s) ++ split_on c (default [] (last (split_on c s)) ++ t).
Proof.
  induction s as [|d s IH]; [done|]. cbn [app split_on]. destruct (d =? c) eqn:Ed.
  - rewrite IH. pose proof (split_on_nonempty c s). by destruct (split_on c s).
  - rewrite IH. pose proof (split_on_nonempty c s) as Hne.
    destruct (split_on c s) as [|l [|l2 ls]]; [done| |done]. cbn. rewrite Ed.
    pose proof (split_on_nonempty c (l ++ t)). by destruct (split_on c (l ++ t)).
Qed.

Lemma find_newline s i :
  0 <= i ->
  match split_lines s with
  | [l] => find_from s [NL] i = -1 /\ l = s
  | l :: ls => find_from s [NL] i = i + zlen l /\ s = l ++ NL :: join_lines ls /\ split_lines (join_lines ls) = ls
  | [] => False
  end.
Proof.
  revert i. induction s as [|d s IH]; intros i Hi; cbn [split_lines split_on find_from starts_with]; [done|].
  fold (split_lines s). assert (Hs : starts_with s [] = true) by by destruct s. rewrite Hs, andb_true_r.
  specialize (IH (i + 1) ltac:(lia)).
  pose proof (join_split NL s) as Hj. fold (split_lines s) (join_lines (split_lines s)) in Hj.
  destruct (Z.eqb_spec d NL) as [->|Hd].
  - destruct (split_lines s) as [|l ls] eqn:E; [done|]. split_and!; [|by rewrite Hj|by rewrite Hj].
    rewrite Z.eqb_refl, zlen_nil. lia.
  - rewrite (proj2 (Z.eqb_neq NL d)) by congruence. destruct (split_lines s) as [|l [|l2 ls]]; [done| |].
    + destruct IH as [-> ->]. done.
    + destruct IH as (-> & H & Hsp). rewrite zlen_cons. split_and!; [lia| |done]. cbn [app]. by rewrite <- H.
Qed.

Lemma index_newline s :
  match split_lines s with
  | [l] => index_of s [NL] 0 = -1 /\ l = s
  | l :: ls => index_of s [NL] 0 = zlen l /\ s = l ++ NL :: join_lines ls /\ split_lines (join_lines ls) = ls
  | [] => False
  end.
Proof.
  unfold index_of. rewrite clamp_id by (pose proof (zlen_nonneg s); lia).
  change (drop (Z.to_nat 0) s) with s. apply (find_newline s 0). lia.
Qed.

Section loop.
Context {bun : BunHash} (options : ResolvedHashlineStreamOptions).

(** One line goes to the emitter. *)
Definition send (acc : Emitter * list jstr) (l : jstr) : Emitter * list jstr :=
  let '(em, outs) := pushLine options (fst acc) l in (em, snd acc ++ outs).
Definition send_all (ls : list jstr) (acc : Emitter * list jstr) : Emitter * list jstr :=
  fold_left send ls acc.

Definition after (ls : list jstr) (p : jstr) (st : StreamState) : StreamState :=
  let acc := send_all ls (emitter st, yielded st) in
  {| emitter := fst acc; pending := p; sawAnyLine := sawAnyLine st || (0 <? zlen ls); yielded := snd acc |}.

Lemma emit_after l ls p q b st :
  after ls p (set_pending q true (emit_line options l (set_pending (pending st) b st))) = after (l :: ls) p st.
Proof.
  assert (E : (0 <? zlen (l :: ls)) = true) by (rewrite zlen_cons; pose proof (zlen_nonneg ls); lia).
  unfold after. rewrite E, orb_true_r. unfold emit_line, set_pending, send_all. cbn [fold_left emitter yielded].
  assert (Es : send (emitter st, yielded st) l =
    (fst (pushLine options (emitter st) l), yielded st ++ snd (pushLine options (emitter st) l))).
  { unfold send. cbn. by destruct (pushLine options (emitter st) l). }
  rewrite Es. by destruct (pushLine options (emitter st) l).
Qed.

Lemma drain_lines_spec fuel st :
  (length (pending st) < fuel)%nat ->
  drain options fuel st =
  after (map strip_cr (removelast (split_lines (pending st))))
        (default [] (last (split_lines (pending st)))) st.
Proof.
  revert st. induction fuel as [|f IH]; intros st Hf; [lia|]. cbn [drain].
  pose proof (index_newline (pending st)) as Hi. pose proof (split_on_no_char NL (pending st)) as Hno.
  fold (split_lines (pending st)) in Hno.
  destruct (split_lines (pending st)) as [|l [|l2 ls]] eqn:E; [done| |].
  - destruct Hi as [-> ->]. cbn. unfold after. cbn. rewrite orb_false_r. by destruct st.
  - destruct Hi as (Hi & Hp & Hsp). rewrite Hi. pose proof (zlen_nonneg l).
    rewrite (proj2 (Z.eqb_neq _ _)) by lia.
    assert (Hz : zlen (pending st) = zlen l + 1 + zlen (join_lines (l2 :: ls))).
    { rewrite Hp, zlen_app, zlen_cons. lia. }
    pose proof (zlen_nonneg (join_lines (l2 :: ls))).
    rewrite slice_prefix, slice_suffix by lia.
    assert (E1 : take (Z.to_nat (zlen l)) (pending st) = l).
    { rewrite Hp, take_app_le, take_ge; [done|..]; unfold zlen; lia. }
    assert (E2 : drop (Z.to_nat (zlen l + 1)) (pending st) = join_lines (l2 :: ls)).
    { rewrite Hp, drop_app_ge by (unfold zlen; lia).
      replace (Z.to_nat (zlen l + 1) - length l)%nat with 1%nat by (unfold zlen; lia). done. }
    rewrite E1, E2. rewrite IH.
    + cbn [pending set_pending]. rewrite Hsp. cbn [removelast map last]. by rewrite emit_after.
    + cbn [pending set_pending]. unfold zlen in *. lia.
Qed.

(** What the loop has reached when it has read [text]. *)
Definition reached (text : jstr) : StreamState :=
  after (map strip_cr (removelast (split_lines text))) (default [] (last (split_lines text)))
    {| emitter := new_emitter options; pending := []; sawAnyLine := false; yielded := [] |}.

Lemma after_after ls1 ls2 p q b st :
  after ls2 q (set_pending p (sawAnyLine (after ls1 b st)) (after ls1 b st)) = after (ls1 ++ ls2) q st.
Proof.
  unfold after, set_pending, send_all. cbn. rewrite fold_left_app.
  set (acc := fold_left send ls1 _). replace (fst acc, snd acc) with acc by by destruct acc. f_equal.
  rewrite <- orb_assoc. f_equal. rewrite zlen_app. pose proof (zlen_nonneg ls1). pose proof (zlen_nonneg ls2).
  destruct (Z.ltb_spec 0 (zlen ls1)), (Z.ltb_spec 0 (zlen ls2)), (Z.ltb_spec 0 (zlen ls1 + zlen ls2)); cbn; lia.
Qed.

Lemma feed_reached text piece : feed options (reached text) piece = reached (text ++ piece).
Proof.
  unfold feed. rewrite drain_lines_spec by (cbn; lia).
  change (pending (set_pending ?p ?b ?st)) with p. unfold reached. rewrite after_after.
  set (tail := default [] (last (split_lines text))).
  assert (E : split_lines (text ++ piece) = removelast (split_lines text) ++ split_lines (tail ++ piece))
    by apply split_on_last.
  cbn [pending after]. fold tail. rewrite E.
  pose proof (split_on_nonempty NL (tail ++ piece)) as Hne. fold (split_lines (tail ++ piece)) in Hne.
  rewrite removelast_app by done. rewrite map_app. f_equal.
  destruct (split_lines (tail ++ piece)) as [|x xs] using rev_ind; [done|].
  by rewrite app_assoc, !last_snoc.
Qed.

Lemma fed pieces text : fold_left (feed options) pieces (reached text) = reached (text ++ concat pieces).
Proof.
  revert text. induction pieces as [|p pieces IH]; intros text; cbn [fold_left concat]; [by rewrite app_nil_r|].
  by rewrite feed_reached, IH, app_assoc.
Qed.

(** The whole stream: the lines of the text go to the emitter one by one, then it is flushed. *)
Definition sent (lines : list jstr) : list jstr :=
  let acc := send_all lines (new_emitter options, []) in
  snd (flush_into (fst acc) (snd acc)).

Lemma emit_line_send l st :
  emitter (emit_line options l st) = fst (send (emitter st, yielded st) l) /\
  yielded (emit_line options l st) = snd (send (emitter st, yielded st) l) /\
  sawAnyLine (emit_line options l st) = sawAnyLine st.
Proof. unfold emit_line, send. cbn. by destruct (pushLine options (emitter st) l). Qed.

Lemma flush_last em ys :
  match snd (em_flush em) with
  | Some last => if last ==s "" then ys else ys ++ [last]
  | None => ys
  end = snd (flush_into em ys).
Proof. unfold flush_into. destruct (em_flush em) as [em' [c|]]; cbn; [|done]. by case_bool_decide. Qed.

Lemma stream_end_reached rest text :
  no_char NL rest -> stream_end options rest (reached text) = sent (stream_lines (text ++ rest)).
Proof.
  intros Hrest. unfold stream_lines. set (tail := default [] (last (split_lines text))).
  assert (Htail : no_char NL tail).
  { unfold tail. destruct (last (split_lines text)) as [l|] eqn:El; [|constructor].
    pose proof (split_on_no_char NL text) as H. rewrite Forall_forall in H. apply H.
    apply last_Some in El as [ls E]. fold (split_lines text). rewrite E.
    apply elem_of_app. right. by apply list_elem_of_singleton. }
  assert (E : split_lines (text ++ rest) = removelast (split_lines text) ++ [tail ++ rest]).
  { unfold split_lines. rewrite split_on_last. f_equal. apply split_no_sep. by apply Forall_app_2. }
  rewrite E, removelast_last, last_snoc. cbn [default from_option id].
  set (complete := map strip_cr (removelast (split_lines text))).
  unfold stream_end. rewrite flush_last. unfold reached. fold tail complete.
  change (pending (set_pending ?p ?b ?st)) with p. cbn [pending after].
  set (acc := send_all complete (new_emitter options, [])).
  destruct (Z.eqb_spec (zlen (tail ++ rest)) 0) as [E0|E0].
  - rewrite E0, Z.ltb_irrefl. cbn [sawAnyLine set_pending after orb]. destruct complete as [|l ls] eqn:Ec.
    + change (0 <? zlen []) with false. cbn [negb].
      match goal with |- context [emit_line options [] ?st] => destruct (emit_line_send [] st) as (Ee & Ey & _) end.
      rewrite Ee, Ey. done.
    + assert (El : (0 <? zlen (l :: ls)) = true) by (rewrite zlen_cons; pose proof (zlen_nonneg ls); lia).
      by rewrite El.
  - assert (El : (0 <? zlen (tail ++ rest)) = true) by (pose proof (zlen_nonneg (tail ++ rest)); lia).
    rewrite El. match goal with |- context [emit_line options ?l ?st] =>
      destruct (emit_line_send l st) as (Ee & Ey & ->) end.
    cbn [sawAnyLine set_pending negb]. rewrite Ee, Ey. unfold sent, send_all. rewrite fold_left_app.
    fold (send_all complete (new_emitter options, [])). fold acc. cbn [fold_left set_pending emitter yielded after].
    fold acc. by destruct acc.
Qed.
End loop.

(** ** Chunks *)

Lemma code_points_nl a b : code_points (a ++ NL :: b) = code_points a ++ [NL] :: code_points b.
Proof.
  induction a as [a IH] using (induction_ltof1 _ (@length Z)). unfold ltof in IH.
  destruct a as [|c [|d a]].
  - by destruct b.
  - assert (El : is_low NL = false) by done. assert (Eh : is_high NL = false) by done.
    cbn [app code_points]. rewrite El, Eh, andb_false_r. by destruct b.
  - change ((c :: d :: a) ++ NL :: b) with (c :: d :: (a ++ NL :: b)). cbn [code_points].
    destruct (is_high c && is_low d).
    + rewrite IH by (cbn; lia). done.
    + change (d :: (a ++ NL :: b)) with ((d :: a) ++ NL :: b).
      specialize (IH (d :: a) ltac:(cbn; lia)). cbn [app] in IH. cbn [app].
      destruct a; cbn [app code_points] in *; by rewrite IH.
Qed.

Lemma byte_length_nl a b : byte_length (a ++ NL :: b) = byte_length a + 1 + byte_length b.
Proof.
  unfold byte_length. rewrite code_points_nl, fold_left_app. cbn [fold_left].
  change (utf8_size [NL]) with 1. generalize (fold_left (fun n cp => n + utf8_size cp) (code_points a) 0 + 1).
  intros z. revert z. induction (code_points b) as [|cp l IH]; intros z; cbn [fold_left]; [lia|].
  rewrite IH, (IH (0 + utf8_size cp)). lia.
Qed.

Section chunks.
Context {bun : BunHash} (options : ResolvedHashlineStreamOptions).

(** A chunk: at least one line, at most [maxChunkLines], at most [maxChunkBytes] bytes unless a single
    line is larger. *)
Definition good_chunk (g : list jstr) : Prop :=
  g <> [] /\ zlen g <= Z.max 1 (maxChunkLines options) /\
  (byte_length (join_lines g) <= maxChunkBytes options \/ zlen g = 1).

(** A chunk is not sent before it is full or the next line does not fit into it. *)
Definition full (g : list jstr) : Prop :=
  maxChunkLines options <= zlen g \/ maxChunkBytes options <= byte_length (join_lines g).
Definition closed_before (g : list jstr) (next : jstr) : Prop :=
  full g \/ maxChunkBytes options < byte_length (join_lines (g ++ [next])).
Inductive packed : list (list jstr) -> Prop :=
| packed_nil : packed []
| packed_snoc groups g :
    packed groups -> (forall p next, last groups = Some p -> head g = Some next -> closed_before p next) -> packed (groups ++ [g]).

Lemma packed_inv groups g :
  packed (groups ++ [g]) -> packed groups /\ forall p next, last groups = Some p -> head g = Some next -> closed_before p next.
Proof.
  intros H. inversion H as [E|groups' g' Hp Hl E]; [by destruct groups|]. apply app_inj_tail in E as [-> ->]. by split.
Qed.
Lemma packed_grow groups x g f : packed (groups ++ [x :: g]) -> packed (groups ++ [(x :: g) ++ [f]]).
Proof. intros [Hp Hl]%packed_inv. by constructor. Qed.

(** The emitter has sent [groups] and holds the rest of [lines]. *)
Definition emitter_ok (start : Z) (lines : list jstr) (groups : list (list jstr))
    (acc : Emitter * list jstr) : Prop :=
  let out := outLines (fst acc) in
  snd acc = map join_lines groups /\
  concat groups ++ out = numbered start lines /\
  (Forall good_chunk groups /\ packed (groups ++ [out]) /\ (out = [] -> forall g, last groups = Some g -> full g)) /\
  lineNumber (fst acc) = start + zlen lines /\
  outBytes (fst acc) = byte_length (join_lines out) /\
  (out = [] \/ zlen out < maxChunkLines options /\ outBytes (fst acc) < maxChunkBytes options).

Lemma numbered_snoc start lines l :
  numbered start (lines ++ [l]) = numbered start lines ++ [formatHashLine (start + zlen lines) l].
Proof. unfold numbered. rewrite imap_app. cbn. by rewrite Nat.add_0_r. Qed.

Lemma join_nonempty start lines groups out :
  concat groups ++ out = numbered start lines -> out <> [] -> join_lines out <> u "".
Proof.
  intros E Hne. assert (Hall : Forall (fun l => l <> []) out).
  { assert (H : Forall (fun l => l <> []) (concat groups ++ out)); [|apply Forall_app in H; apply H].
    rewrite E. unfold numbered. apply Forall_imap_all. intros i x. rewrite formatHashLine_eq.
    intros E0. by apply app_eq_nil in E0 as [_ E0]. }
  destruct Hall as [|x out Hx]; [done|]. unfold join_lines.
  destruct out as [|y out]; [done|]. rewrite join_cons by done. by destruct x.
Qed.

(** Flushing what is held closes a chunk. *)
Lemma flush_eq em ys :
  join_lines (outLines em) <> u "" ->
  flush_into em ys =
  ({| lineNumber := lineNumber em; outLines := []; outBytes := 0 |}, ys ++ [join_lines (outLines em)]).
Proof.
  intros H. unfold flush_into, em_flush. rewrite (proj2 (Z.eqb_neq _ _)).
  - by rewrite bool_decide_eq_false_2.
  - intros E. apply zlen_0_nil in E. by rewrite E in H.
Qed.

Lemma join_snoc g x : g <> [] -> join_lines (g ++ [x]) = join_lines g ++ NL :: x.
Proof. intros Hg. unfold join_lines. by rewrite join_app. Qed.

Lemma flush_into_app em ys zs :
  flush_into em (ys ++ zs) = (fst (flush_into em zs), ys ++ snd (flush_into em zs)).
Proof.
  unfold flush_into. destruct (em_flush em) as [em' [c|]]; [|done]. case_bool_decide; cbn; [done|].
  by rewrite app_assoc.
Qed.

(** [send] is [pushLine] with the chunks put behind those that were sent before. *)
Lemma send_eq em ys l :
  send options (em, ys) l =
  let f := formatHashLine (lineNumber em) l in
  let em0 := {| lineNumber := lineNumber em + 1; outLines := outLines em; outBytes := outBytes em |} in
  let over := (maxChunkLines options <=? zlen (outLines em))
    || (maxChunkBytes options <? outBytes em + (if zlen (outLines em) =? 0 then 0 else 1) + byte_length f) in
  let acc1 := if (0 <? zlen (outLines em)) && over then flush_into em0 ys else (em0, ys) in
  let out := outLines (fst acc1) ++ [f] in
  let em2 := {| lineNumber := lineNumber (fst acc1); outLines := out;
    outBytes := outBytes (fst acc1) + ((if zlen out =? 1 then 0 else 1) + byte_length f) |} in
  if (maxChunkLines options <=? zlen out) || (maxChunkBytes options <=? outBytes em2)
  then flush_into em2 (snd acc1) else (em2, snd acc1).
Proof.
  unfold send, pushLine. cbn [fst snd outLines lineNumber outBytes]. cbv zeta.
  set (em0 := {| lineNumber := lineNumber em + 1; outLines := outLines em; outBytes := outBytes em |}).
  set (c := (0 <? zlen (outLines em)) && _).
  assert (E : (if c then flush_into em0 ys else (em0, ys)) =
    (fst (if c then flush_into em0 [] else (em0, [])), ys ++ snd (if c then flush_into em0 [] else (em0, [])))).
  { destruct c; [|cbn; by rewrite app_nil_r]. rewrite <- flush_into_app. by rewrite app_nil_r. }
  clearbody c. rewrite E. destruct (if c then flush_into em0 [] else (em0, [])) as [em1 cs].
  cbn [fst snd outLines lineNumber outBytes]. destruct (_ || _); [|done]. rewrite (flush_into_app _ ys cs). by destruct (flush_into _ cs).
Qed.

(** Adding a line to what is held, and sending that when it is full. *)
Lemma hold_ok start lines groups ys out f n b :
  ys = map join_lines groups -> Forall good_chunk groups -> packed (groups ++ [out ++ [f]]) ->
  concat groups ++ out ++ [f] = numbered start lines -> n = start + zlen lines ->
  b = byte_length (join_lines (out ++ [f])) -> good_chunk (out ++ [f]) ->
  let em := {| lineNumber := n; outLines := out ++ [f]; outBytes := b |} in
  exists groups', emitter_ok start lines groups'
    (if (maxChunkLines options <=? zlen (out ++ [f])) || (maxChunkBytes options <=? b)
     then flush_into em ys else (em, ys)).
Proof.
  intros -> Hg Hpk Hc -> -> Hgood em. destruct (_ || _) eqn:Eo.
  - rewrite flush_eq by (eapply join_nonempty; [exact Hc|by destruct out]).
    exists (groups ++ [out ++ [f]]). unfold emitter_ok. cbn. split_and!; [|..|by left]; try done.
    + by rewrite map_app.
    + rewrite concat_app. cbn. by rewrite !app_nil_r.
    + apply Forall_app_2; [done|]. by apply Forall_singleton.
    + by constructor.
    + intros _ g. rewrite last_snoc. intros [= <-]. unfold full. apply orb_true_iff in Eo. lia.
  - exists groups. unfold emitter_ok. cbn. split_and!; try done; [by destruct out|].
    right. apply orb_false_iff in Eo. lia.
Qed.

(** One more line: a full chunk goes out before it, when it does not fit any more, or after it. *)
Lemma send_ok start lines groups acc l :
  emitter_ok start lines groups acc -> exists groups', emitter_ok start (lines ++ [l]) groups' (send options acc l).
Proof.
  destruct acc as [em ys]. intros (Hy & Hc & (Hg & Hpk & Hfull) & Hl & Hb & Ho). cbn in *. rewrite send_eq. cbv zeta.
  set (f := formatHashLine (lineNumber em) l).
  set (em0 := {| lineNumber := lineNumber em + 1; outLines := outLines em; outBytes := outBytes em |}).
  assert (Hf : numbered start (lines ++ [l]) = numbered start lines ++ [f]) by by rewrite numbered_snoc, <- Hl.
  assert (Hn : lineNumber em + 1 = start + zlen (lines ++ [l])) by (rewrite zlen_snoc; lia).
  assert (Hsingle : good_chunk ([] ++ [f])) by (split_and!; [done|change (zlen ([] ++ [f])) with 1; lia|by right]).
  destruct (outLines em) as [|x out] eqn:Eout.
  - change (0 <? zlen []) with false. cbn [andb fst snd outLines lineNumber outBytes em0].
    apply packed_inv in Hpk as [Hpk _].
    apply (hold_ok start (lines ++ [l]) groups ys [] f); try done.
    + constructor; [done|]. intros p next Hlast _. left. by apply Hfull.
    + by rewrite Hf, <- Hc, app_nil_r.
    + by rewrite Hb.
  - destruct Ho as [|[Ho1 Ho2]]; [done|]. pose proof (zlen_nonneg out).
    assert (Hz : zlen ((x :: out) ++ [f]) = 2 + zlen out) by (rewrite zlen_snoc, zlen_cons; lia).
    assert (Epos : (0 <? zlen (x :: out)) = true) by (rewrite zlen_cons; lia). rewrite Epos. cbn [andb].
    assert (Ez : (zlen (x :: out) =? 0) = false) by (rewrite zlen_cons; lia). rewrite Ez.
    set (over := (maxChunkLines options <=? zlen (x :: out)) || _). destruct over eqn:Eover; subst over.
    + rewrite flush_eq by (eapply join_nonempty; [exact Hc|done]).
      cbn [andb fst snd outLines lineNumber outBytes em0].
      apply (hold_ok start (lines ++ [l]) (groups ++ [x :: out]) _ [] f); try done.
      * by rewrite map_app, Hy.
      * apply Forall_app_2; [done|]. apply Forall_singleton. split_and!; [done|lia|left; lia].
      * constructor; [done|]. intros p next. rewrite last_snoc. intros [= <-] [= <-]. apply orb_true_iff in Eover as [Eo|Eo]; [left; left; lia|].
        right. rewrite join_snoc, byte_length_nl, <- Hb by done. lia.
      * rewrite concat_app. cbn [concat]. by rewrite app_nil_r, Hf, <- Hc.
    + apply orb_false_iff in Eover as [Eo1 Eo2]. cbn [andb fst snd outLines lineNumber outBytes em0].
      assert (E1 : (zlen ((x :: out) ++ [f]) =? 1) = false) by lia. rewrite E1.
      assert (Hb1 : byte_length (join_lines ((x :: out) ++ [f])) = outBytes em + 1 + byte_length f).
      { rewrite join_snoc, byte_length_nl, Hb by done. lia. }
      apply (hold_ok start (lines ++ [l]) groups ys (x :: out) f); try done.
      * by apply packed_grow.
      * by rewrite Hf, <- Hc, <- app_assoc.
      * lia.
      * split_and!; [done| |left; lia]. rewrite zlen_snoc. lia.
Qed.

Lemma sent_ok lines :
  exists groups, sent options lines = map join_lines groups /\ concat groups = numbered (startLine options) lines
    /\ Forall good_chunk groups /\ packed groups.
Proof.
  assert (H : exists groups, emitter_ok (startLine options) lines groups
    (send_all options lines (new_emitter options, []))).
  { induction lines as [|l lines IH] using rev_ind.
    - exists []. unfold emitter_ok. cbn. split_and!; [done|done|by apply Forall_nil|by apply (packed_snoc []); [constructor|]|done|rewrite zlen_nil; lia|done|by left].
    - destruct IH as [groups H]. unfold send_all. rewrite fold_left_app. cbn [fold_left]. by eapply send_ok. }
  destruct H as [groups (Hy & Hc & (Hg & Hpk & _) & Hl & Hb & Ho)]. unfold sent. rewrite Hy.
  set (em := fst _) in *. destruct (outLines em) as [|x out] eqn:Eout.
  - exists groups. unfold flush_into, em_flush. rewrite Eout. split_and!; [done|by rewrite <- Hc, app_nil_r|done|].
    by apply packed_inv in Hpk as [? _].
  - destruct Ho as [|[Ho1 Ho2]]; [done|].
    rewrite flush_eq by (rewrite Eout; eapply join_nonempty; [exact Hc|done]).
    exists (groups ++ [x :: out]). cbn [snd]. rewrite Eout. split_and!.
    + by rewrite map_app.
    + rewrite concat_app. cbn [concat]. by rewrite app_nil_r.
    + apply Forall_app_2; [done|]. apply Forall_singleton. split_and!; [done|lia|left; lia].
    + done.
Qed.
End chunks.

Section theorems.
Context {bun : BunHash}.

Lemma stream_sent pieces rest options :
  no_char NL rest ->
  streamHashLinesFromUtf8 pieces rest options =
  sent (resolveHashlineStreamOptions options) (stream_lines (concat pieces ++ rest)).
Proof.
  intros Hrest. unfold streamHashLinesFromUtf8.
  assert (E : reached (resolveHashlineStreamOptions options) [] =
    {| emitter := new_emitter (resolveHashlineStreamOptions options); pending := []; sawAnyLine := false;
       yielded := [] |}) by done.
  rewrite <- E, fed. by apply stream_end_reached.
Qed.

(** C36. What a stream sends: the lines of the text, each with its number and anchor, in order and each
    once, in chunks of at least one line, each as large as the bounds allow: at most [maxChunkLines] lines (or one)
    and at most [maxChunkBytes] bytes, but a line that alone is larger is sent as a chunk by itself; and a chunk
    ends only when it is full or the next line does not fit.  It does not matter how the text was cut into pieces. *)
Theorem stream_spec pieces rest options :
  no_char NL rest ->
  let resolved := resolveHashlineStreamOptions options in
  exists groups,
    streamHashLinesFromUtf8 pieces rest options = map join_lines groups /\
    concat groups = numbered (startLine resolved) (stream_lines (concat pieces ++ rest)) /\
    Forall (good_chunk resolved) groups /\ packed resolved groups /\
    forall pieces' rest', no_char NL rest' -> concat pieces' ++ rest' = concat pieces ++ rest ->
      streamHashLinesFromUtf8 pieces' rest' options = streamHashLinesFromUtf8 pieces rest options.
Proof.
  intros Hrest resolved. destruct (sent_ok resolved (stream_lines (concat pieces ++ rest))) as (groups & E & Hc & Hg & Hp).
  exists groups. rewrite stream_sent by done. split_and!; [done|done|done|done|].
  intros pieces' rest' Hr' E'. rewrite stream_sent by done. by rewrite E'.
Qed.
End theorems.
