(* ===== verification/HashlinePrefixes.v ===== *)
(** * Display prefixes in payloads: CA/hashline/prefixes.ts

    A model that copies lines from a display copies their anchors too; these functions take them off.
    The regular expressions of the source are written out as scanners that return what is left after
    the match.  [echoed_lines_are_recovered]: the text of any displayed lines is read back. *)
From S2P Require Import Prelude Json Hashline HashlineParse.
#[local] Open Scope Z_scope.
#[local] Open Scope js_scope.

(** [\d+[a-z]{2}[:|]]. *)
Definition match_tag (s : jstr) : option jstr :=
  match take_while is_digit s with
  | [] => None
  | _ =>
      match match_hash (drop_while is_digit s) with
      | Some (_, c :: rest) => if (c =? 58) || (c =? HL_BODY_SEP) then Some rest else None
      | _ => None
      end
  end.

(** [\s*(?:>>>|>>)?\s*]. *)
Definition skip_quote (s : jstr) : jstr :=
  let s := drop_while is_ws s in
  let s := if starts_with s (u ">>>") then drop 3 s
           else if starts_with s (u ">>") then drop 2 s else s in
  drop_while is_ws s.

(** [HL_PREFIX_RE] and [HL_PREFIX_PLUS_RE]. *)
Definition hl_prefix (s : jstr) : option jstr :=
  match skip_quote s with
  | c :: rest =>
      if (c =? 43) || (c =? 42) then match_tag (drop_while is_ws rest) else match_tag (c :: rest)
  | [] => None
  end.

Definition hl_prefix_plus (s : jstr) : option jstr :=
  match skip_quote s with
  | c :: rest => if c =? 43 then match_tag (drop_while is_ws rest) else None
  | [] => None
  end.

(** [DIFF_PLUS_RE]. *)
Definition diff_plus (s : jstr) : option jstr :=
  match s with
  | c :: rest =>
      if c =? 43 then
        match rest with d :: _ => if d =? 43 then None else Some rest | [] => Some rest end
      else None
  | [] => None
  end.

(** [String.prototype.replace] of an anchored pattern by the empty string. *)
Definition replace_by (re : jstr -> option jstr) (s : jstr) : jstr := default s (re s).

(** [\b] between a string that ends in [before] and [after]. *)
Definition boundary (before : option jchar) (after : jstr) : bool :=
  let w o := match o with Some c => is_word c | None => false end in
  xorb (w before) (w (head after)).

(** [.*\bUse :L?\d+], somewhere on the rest of the line. *)
Fixpoint use_hint (before : option jchar) (s : jstr) : bool :=
  (boundary before s && starts_with s (u "Use :") &&
   let r := drop 5 s in
   let digit s := match s with c :: _ => is_digit c | [] => false end in
   digit r || (starts_with r (u "L") && digit (drop 1 r)))
  || match s with
     | c :: rest => is_dot c && use_hint (Some c) rest
     | [] => false
     end.

(** [\S+\b.*\bUse :L?\d+]: some non-empty run of visible characters ends at a boundary. *)
Fixpoint visible_run (s : jstr) : bool :=
  match s with
  | c :: rest => negb (is_ws c) && ((boundary (Some c) rest && use_hint (Some c) rest) || visible_run rest)
  | [] => false
  end.

(** [\d+] followed by [k] on what is left; a digit never ends the run early for the patterns below. *)
Definition digits_then (k : option jchar -> jstr -> bool) (s : jstr) : bool :=
  match last (take_while is_digit s) with
  | None => false
  | Some d => k (Some d) (drop_while is_digit s)
  end.

Definition word_then (w : jstr) (k : jstr -> bool) (s : jstr) : bool :=
  starts_with s w && k (drop (length w) s).

(** [READ_TRUNCATION_NOTICE_RE]. *)
Definition truncation_notice (s : jstr) : bool :=
  word_then (u "[") (fun s =>
    word_then (u "Showing lines ")
      (digits_then (fun _ => word_then (u "-")
        (digits_then (fun _ => word_then (u " of ")
          (digits_then (fun d s => boundary d s && use_hint d s)))))) s
    || digits_then (fun _ => word_then (u " more line") (fun s =>
         word_then (u " in ") visible_run s || word_then (u "s in ") visible_run s)) s) s.

(** [do { previous = result; result = result.replace(HL_PREFIX_RE, "") } while (result !== previous)]. *)
Fixpoint strip_loop (fuel : nat) (s : jstr) : jstr :=
  match fuel with
  | O => s
  | S f => match hl_prefix s with None => s | Some rest => strip_loop f rest end
  end.
Definition stripLeadingHashlinePrefixes (line : jstr) : jstr := strip_loop (length line) line.

Record LinePrefixStats := {
  nonEmpty : Z;
  hashPrefixCount : Z;
  diffPlusHashPrefixCount : Z;
  diffPlusCount : Z;
  truncationNoticeCount : Z;
}.

Definition count_line (st : LinePrefixStats) (l : jstr) : LinePrefixStats :=
  let test (re : jstr -> option jstr) := match re l with Some _ => 1 | None => 0 end in
  if zlen l =? 0 then st
  else if truncation_notice l then
    {| nonEmpty := nonEmpty st; hashPrefixCount := hashPrefixCount st;
       diffPlusHashPrefixCount := diffPlusHashPrefixCount st; diffPlusCount := diffPlusCount st;
       truncationNoticeCount := truncationNoticeCount st + 1 |}
  else
    {| nonEmpty := nonEmpty st + 1; hashPrefixCount := hashPrefixCount st + test hl_prefix;
       diffPlusHashPrefixCount := diffPlusHashPrefixCount st + test hl_prefix_plus;
       diffPlusCount := diffPlusCount st + test diff_plus;
       truncationNoticeCount := truncationNoticeCount st |}.

Definition collectLinePrefixStats (lines : list jstr) : LinePrefixStats :=
  fold_left count_line lines
    {| nonEmpty := 0; hashPrefixCount := 0; diffPlusHashPrefixCount := 0; diffPlusCount := 0;
       truncationNoticeCount := 0 |}.

Definition without_notices (lines : list jstr) : list jstr :=
  List.filter (fun l => negb (truncation_notice l)) lines.

Definition stripNewLinePrefixes (lines : list jstr) : list jstr :=
  let stats := collectLinePrefixStats lines in
  if nonEmpty stats =? 0 then lines
  else
    let stripHash := (0 <? hashPrefixCount stats) && (hashPrefixCount stats =? nonEmpty stats) in
    let stripPlus := negb stripHash && (diffPlusHashPrefixCount stats =? 0)
      && (0 <? diffPlusCount stats) && (nonEmpty stats <=? 2 * diffPlusCount stats) in
    if negb stripHash && negb stripPlus && (diffPlusHashPrefixCount stats =? 0) then lines
    else
      map (fun l =>
        if stripHash then stripLeadingHashlinePrefixes l
        else if stripPlus then replace_by diff_plus l
        else if (0 <? diffPlusHashPrefixCount stats)
                && (match hl_prefix_plus l with Some _ => true | None => false end)
        then replace_by hl_prefix l else l) (without_notices lines).

Definition stripHashlinePrefixes (lines : list jstr) : list jstr :=
  let stats := collectLinePrefixStats lines in
  if nonEmpty stats =? 0 then lines
  else if negb (hashPrefixCount stats =? nonEmpty stats) then lines
  else map stripLeadingHashlinePrefixes (without_notices lines).

(** [string[] | string | null | undefined]. *)
Inductive EditText := TextNull | TextString (s : jstr) | TextLines (ls : list jstr).

Definition hashlineParseText (edit : EditText) : list jstr :=
  match edit with
  | TextNull => []
  | TextString s =>
      let trimmed := if ends_with s [NL] then slice s 0 (-1) else s in
      stripNewLinePrefixes (split_lines (List.filter (fun c => negb (c =? 13)) trimmed))
  | TextLines ls => stripNewLinePrefixes ls
  end.

(** ** Echoed lines *)

Lemma match_tag_anchor a t : wf_anchor a -> match_tag (anchor_text a ++ HL_BODY_SEP :: t) = Some t.
Proof.
  intros Ha. unfold match_tag. destruct (anchor_text_scan a (HL_BODY_SEP :: t) Ha) as (d & ds & -> & Hd & _ & -> & ->).
  destruct Ha as [Hl Hh]. destruct (num_to_str_pos _ Hl) as (_ & d' & ds' & -> & _).
  by rewrite match_hash_letters.
Qed.

(** What may stand before an anchor: the marks of read, search and diff output, quoted or not. *)
Definition echo_marks : list jstr :=
  Eval vm_compute in [[]; u " "; u "*"; u "+"; u " +"; u ">>"; u ">>>"; u ">> "; u ">>> +"].

Lemma skip_quote_digit d r : is_digit d = true -> skip_quote (d :: r) = d :: r.
Proof.
  intros Hd. unfold skip_quote. cbn [drop_while]. rewrite (digit_not_ws d Hd).
  assert (E : (62 =? d) = false) by (unfold is_digit in Hd; lia).
  assert (Hs : forall p, starts_with (d :: r) (62 :: p) = false) by (intros p; cbn [starts_with]; by rewrite E).
  change (u ">>>") with [62; 62; 62]. change (u ">>") with [62; 62]. rewrite !Hs.
  cbn [drop_while]. by rewrite (digit_not_ws d Hd).
Qed.

(** The scanners on a displayed line. *)
Lemma echoed_prefix mark a t :
  mark ∈ echo_marks -> wf_anchor a ->
  hl_prefix (mark ++ anchor_text a ++ HL_BODY_SEP :: t) = Some t /\
  truncation_notice (mark ++ anchor_text a ++ HL_BODY_SEP :: t) = false.
Proof.
  intros Hm Ha. pose proof (match_tag_anchor a t Ha) as Ht.
  destruct (anchor_text_scan a (HL_BODY_SEP :: t) Ha) as (d & ds & E & Hd & _). rewrite E in *.
  assert (Hws : is_ws d = false) by by apply digit_not_ws.
  assert (E43 : ((d =? 43) || (d =? 42)) = false) by (unfold is_digit in Hd; lia).
  assert (E62 : (62 =? d) = false) by (unfold is_digit in Hd; lia).
  assert (E91 : (91 =? d) = false) by (unfold is_digit in Hd; lia).
  assert (Hk : is_ws 32 = true /\ is_ws 42 = false /\ is_ws 43 = false /\ is_ws 62 = false) by done.
  assert (Hz : (62 =? 32) = false /\ (62 =? 42) = false /\ (62 =? 43) = false /\ (42 =? 43) = false) by done.
  destruct Hk as (W32 & W42 & W43 & W62), Hz as (Z32 & Z42 & Z43 & Z4). apply list_elem_of_In in Hm. split.
  - unfold hl_prefix, skip_quote. change (u ">>>") with [62; 62; 62]. change (u ">>") with [62; 62].
    repeat (destruct Hm as [<-|Hm]); [..|by destruct Hm];
      repeat (cbn [app drop_while starts_with drop andb];
        rewrite ?W32, ?W42, ?W43, ?W62, ?Hws, ?E62, ?Z32, ?Z42, ?Z43, ?Z.eqb_refl);
      cbn [drop_while]; rewrite ?E43, ?Z4, ?Z.eqb_refl; cbn [drop_while orb]; rewrite ?Hws; done.
  - unfold truncation_notice, word_then. change (u "[") with [91].
    repeat (destruct Hm as [<-|Hm]); [..|by destruct Hm]; cbn [app starts_with]; rewrite ?E91; done.
Qed.

(** A line of a display: mark, number and text. *)
Definition echo {bun : BunHash} (e : jstr * Z * jstr) : jstr :=
  let '(mark, n, text) := e in mark ++ formatHashLine n text.
Definition echo_ok (e : jstr * Z * jstr) : Prop :=
  let '(mark, n, text) := e in mark ∈ echo_marks /\ 1 <= n /\ hl_prefix text = None.
Definition echo_text (e : jstr * Z * jstr) : jstr := snd e.

Lemma ends_with_last ls l0 ls0 :
  ls = ls0 ++ [l0] -> l0 <> [] -> no_char NL l0 -> ends_with (join_lines ls) [NL] = false.
Proof.
  intros -> Hne Hnl. destruct l0 as [|c l _] using rev_ind; [done|].
  apply Forall_app in Hnl as [_ [Hc _]%Forall_cons].
  assert (E : exists p, join_lines (ls0 ++ [l ++ [c]]) = p ++ [c]).
  { destruct ls0 as [|x ls0]; [by exists l|]. unfold join_lines. rewrite join_app by done.
    exists (join_with [NL] (x :: ls0) ++ [NL] ++ l). by rewrite <- !app_assoc. }
  destruct E as [p ->]. unfold ends_with. rewrite rev_app_distr. cbn [rev app starts_with].
  by rewrite (proj2 (Z.eqb_neq NL c)) by congruence.
Qed.

Section echoes.
Context {bun : BunHash}.

Lemma echo_scan e :
  echo_ok e -> hl_prefix (echo e) = Some (echo_text e) /\ truncation_notice (echo e) = false /\ echo e <> [].
Proof.
  destruct e as [[mark n] text]. intros (Hm & Hn & _). unfold echo, echo_text. rewrite formatHashLine_eq.
  destruct (echoed_prefix mark (line_anchor n text) text Hm) as [H1 H2]; [by apply line_anchor_wf|].
  split_and!; [done|done|]. intros E0. by rewrite E0 in H1.
Qed.

Lemma echo_strip e : echo_ok e -> stripLeadingHashlinePrefixes (echo e) = echo_text e.
Proof.
  intros He. destruct (echo_scan e He) as (Hp & _ & Hne). unfold stripLeadingHashlinePrefixes.
  destruct (echo e) as [|c l] eqn:E; [done|]. cbn [length strip_loop]. rewrite Hp.
  destruct e as [[mark n] text]. destruct He as (_ & _ & Hn). cbn in *.
  destruct (length l); [done|]. cbn [strip_loop]. by rewrite Hn.
Qed.

Lemma echo_stats es st :
  Forall echo_ok es ->
  nonEmpty (fold_left count_line (map echo es) st) = nonEmpty st + zlen es /\
  hashPrefixCount (fold_left count_line (map echo es) st) = hashPrefixCount st + zlen es.
Proof.
  intros H. revert st. induction H as [|e es He _ IH]; intros st; [rewrite zlen_nil; cbn; lia|].
  cbn [map fold_left]. destruct (IH (count_line st (echo e))) as [-> ->].
  destruct (echo_scan e He) as (Hp & Hn & Hne). unfold count_line. rewrite Hp, Hn.
  rewrite (proj2 (Z.eqb_neq _ _)) by (intros E; by apply zlen_0_nil in E). cbn. rewrite zlen_cons. lia.
Qed.

Lemma strip_echoes es : Forall echo_ok es -> stripNewLinePrefixes (map echo es) = map echo_text es.
Proof.
  intros H. unfold stripNewLinePrefixes, collectLinePrefixStats. set (st0 := {| nonEmpty := 0 |}).
  destruct (echo_stats es st0 H) as [En Eh]. rewrite En, Eh. cbn [nonEmpty hashPrefixCount st0].
  destruct (Z.eqb_spec (0 + zlen es) 0) as [E|E].
  - rewrite Z.add_0_l in E. apply zlen_0_nil in E. by subst.
  - rewrite Z.eqb_refl, (proj2 (Z.ltb_lt 0 (0 + zlen es))) by (pose proof (zlen_nonneg es); lia). cbn [andb negb].
    unfold without_notices. clear -H. induction H as [|e es He _ IH]; [done|]. cbn [map List.filter].
    destruct (echo_scan e He) as (_ & -> & _). cbn [negb map]. by rewrite IH, echo_strip.
Qed.

(** Lines that are copied from a display, with their anchors and any of the marks displays use, are
    read as the lines themselves: as a list and as one text, with or without a final newline.  (A line
    whose own text starts like an anchor is the exception: it loses that too.) *)
Theorem echoed_lines_are_recovered es :
  Forall echo_ok es ->
  hashlineParseText (TextLines (map echo es)) = map echo_text es /\
  (es <> [] -> Forall (fun e => no_char NL (echo e) /\ no_char 13 (echo e)) es ->
   hashlineParseText (TextString (join_lines (map echo es))) = map echo_text es /\
   hashlineParseText (TextString (join_lines (map echo es) ++ [NL])) = map echo_text es).
Proof.
  intros H. split; [by apply strip_echoes|]. intros Hne Hl. unfold hashlineParseText.
  set (text := join_lines (map echo es)).
  assert (Hcr : List.filter (fun c => negb (c =? 13)) text = text).
  { unfold text, join_lines. clear -Hl. induction Hl as [|e es [_ He] _ IH]; [done|]. cbn [map].
    assert (Ee : List.filter (fun c => negb (c =? 13)) (echo e) = echo e).
    { clear -He. induction He as [|c l Hc _ IHl]; [done|]. cbn. by rewrite (proj2 (Z.eqb_neq c 13)), IHl. }
    destruct (map echo es) as [|x xs]; [done|]. rewrite join_cons by done.
    rewrite !List.filter_app, Ee, IH. done. }
  assert (Hend : ends_with text [NL] = false).
  { destruct es as [|e es _] using rev_ind; [done|]. apply Forall_app in Hl as [_ Hl].
    apply Forall_cons in Hl as [[Hnl _] _]. apply Forall_app in H as [_ H]. apply Forall_cons in H as [H _].
    destruct (echo_scan e H) as (_ & _ & Hn0). apply (ends_with_last _ (echo e) (map echo es)); [by rewrite map_app|done|done]. }
  assert (Hs : stripNewLinePrefixes (split_lines text) = map echo_text es).
  { unfold text, split_lines, join_lines. rewrite split_join; [by apply strip_echoes|by destruct es|].
    apply Forall_map. eapply Forall_impl; [exact Hl|]. by intros e []. }
  split.
  - by rewrite Hend, Hcr.
  - rewrite ends_with_snoc.
    assert (E : slice (text ++ [NL]) 0 (-1) = text).
    { unfold slice, rel_index. rewrite zlen_snoc. pose proof (zlen_nonneg text).
      destruct (Z.ltb_spec 0 0); [lia|]. destruct (Z.ltb_spec (-1) 0); [|lia].
      rewrite Z.max_l, Z.min_l by lia. change (Z.to_nat 0) with 0%nat. cbn [drop].
      replace (Z.to_nat (-1 + (zlen text + 1) - 0)) with (length text) by (unfold zlen; lia).
      replace (Z.to_nat (zlen text + 1 + -1 - 0)) with (length text) by (unfold zlen; lia).
      rewrite drop_0. by rewrite take_app_length. }
    by rewrite E, Hcr.
Qed.
End echoes.
