(* ===== verification/HashlineDemo.v ===== *)
(** * A concrete host for the hashline tool, and the witnesses of its theorems

    Each class that stands for code outside the repository has an instance here: a hash, paths, a line
    diff (old text out, new text in), a patch (the lines between the common head and tail, applied at
    the same line numbers), an unbounded snapshot store, and a host that accepts every write.  The
    witnesses apply the theorems of the hashline files to inputs that run on it. *)
From S2P Require Import Prelude Json Hashline HashlineApply HashlineRefine HashlineAbsorb HashlineParse.
From S2P Require Import HashlineEffects HashlineReplace HashlineInput HashlineDiff HashlineTyped.
From S2P Require Import HashlineTool HashlineBatch HashlineRecover HashlineStream HashlinePrefixes.
#[local] Open Scope Z_scope.
#[local] Open Scope js_scope.

(** ** Instances *)

#[local] Existing Instance demo_hash.

Definition demo_path : NodePath :=
  {| path_isAbsolute := fun p => starts_with p (u "/");
     path_relative := fun _ p => p;
     path_resolve := fun p => p |}.
#[local] Existing Instance demo_path.

Definition demo_parts (old new : jstr) : list DiffLinePart :=
  [ {| part_added := false; part_removed := true; part_value := old |};
    {| part_added := true; part_removed := false; part_value := new |} ].

Lemma demo_parts_old old new :
  flat_map part_lines (List.filter (fun p => negb (part_added p)) (demo_parts old new)) = value_lines old.
Proof. cbn. by rewrite app_nil_r. Qed.
Lemma demo_parts_new old new :
  flat_map part_lines (List.filter (fun p => negb (part_removed p)) (demo_parts old new)) = value_lines new.
Proof. cbn. by rewrite app_nil_r. Qed.
Lemma demo_parts_one old new p : p ∈ demo_parts old new -> part_added p && part_removed p = false.
Proof. intros [->|[->|[]%elem_of_nil]%elem_of_cons]%elem_of_cons; done. Qed.

Definition demo_diff : DiffLines :=
  {| diffLines := demo_parts; diffLines_old := demo_parts_old; diffLines_new := demo_parts_new;
     diffLines_one := demo_parts_one |}.
#[local] Existing Instance demo_diff.

(** The number of equal lines at the head of two texts. *)
Fixpoint common (xs ys : list jstr) : nat :=
  match xs, ys with
  | x :: xs', y :: ys' => if x === y then S (common xs' ys') else O
  | _, _ => O
  end.

Record DemoPatch := { dp_at : nat; dp_old : list jstr; dp_new : list jstr }.

Definition demo_structured (old new : jstr) (_ : Z) : DemoPatch :=
  let o := split_lines old in
  let n := split_lines new in
  let p := common o n in
  let s := common (rev (drop p o)) (rev (drop p n)) in
  {| dp_at := p; dp_old := rev (drop s (rev (drop p o))); dp_new := rev (drop s (rev (drop p n))) |}.

Definition demo_apply (cur : jstr) (p : DemoPatch) (_ : Z) : option jstr :=
  let ls := split_lines cur in
  if take (length (dp_old p)) (drop (dp_at p) ls) === dp_old p
  then Some (join_lines (take (dp_at p) ls ++ dp_new p ++ drop (dp_at p + length (dp_old p)) ls))
  else None.

Definition demo_patch : PatchLib :=
  {| patch := DemoPatch; structuredPatch := demo_structured; applyPatch := demo_apply |}.
#[local] Existing Instance demo_patch.

Lemma map_set_present (s : gmap jstr FileReadSnapshot) k v k' :
  k <> k' -> s !! k <> None -> <[k := v]> s !! k' = s !! k'.
Proof. intros H _. by apply lookup_insert_ne. Qed.

Definition demo_store : SnapshotStore := {|
  store := gmap jstr FileReadSnapshot;
  st_get s k := s !! k;
  st_set s k v := <[k := v]> s;
  st_delete s k := delete k s;
  st_clear s := ∅;
  st_get_set s k v := lookup_insert_eq s k v;
  st_get_set_other s k v k' H := or_introl (lookup_insert_ne s k k' v H);
  st_set_present := map_set_present;
  st_get_delete s k k' := lookup_delete s k k';
  st_get_clear s k := lookup_empty k;
|}.
#[local] Existing Instance demo_store.

Definition demo_resolve (p : jstr) : jstr :=
  u "/w/" ++ (if starts_with p (u "./") then drop 2 p else p).

Definition demo_host : EditHost := {|
  resolvePlanPath p := Ok (demo_resolve p);
  resolveToCwd p _ := demo_resolve p;
  enforcePlanModeWrite _ := Ok tt;
  assertEditableFileContent _ _ := Ok tt;
  isNotebookPath _ := false;
  readEditableNotebookText _ _ := Err (PlainError (u "not a notebook"));
  serializeEditedNotebookText _ _ _ := Err (PlainError (u "not a notebook"));
  autoDropPureInsertDuplicates := false;
  clock := 0;
  writethrough _ c := Ok c;
|}.
#[local] Existing Instance demo_host.

(** ** Texts and batches *)

Definition demo_lines : list jstr := Eval vm_compute in [u "one"; u "two"; u "three"; u "four"].
Definition demo_text : jstr := Eval vm_compute in join_lines demo_lines.
Definition anchor_of (n : Z) : Anchor := line_anchor n (file_line demo_lines n).

(** Lines 2 and 3 become [payload]. *)
Definition demo_replace (payload : list jstr) : list Op := [replace_op demo_lines payload 2 3].
(** Two lines before the first, and line 4 goes. *)
Definition demo_ops : list Op :=
  [OpInsert KindBefore (TAnchor (anchor_of 1)) [u "zero"; u "half"];
   OpReplace (anchor_of 4) (anchor_of 4) []].
Definition demo_edits : list HashlineEdit := ops_edits demo_ops.

Lemma demo_replaced : exists r, applyHashlineEdits demo_text demo_edits false = Ok r /\
  r_lines r = join_lines [u "zero"; u "half"; u "one"; u "two"; u "three"] /\
  r_firstChangedLine r = Some 1 /\ r_warnings r = [].
Proof. eexists. vm_compute. done. Qed.

(** ** Witnesses *)

Lemma shown_anchors_are_read_witness :
  parseLid (formatLineHash 12 (u "two")) 1 = Ok (line_anchor 12 (u "two")) /\
  parseTag (u "*" ++ formatHashLine 12 (u "two")) = Ok (line_anchor 12 (u "two")).
Proof.
  assert (Hm : u "*" ∈ display_marks) by (apply list_elem_of_In; right; right; by left).
  destruct (shown_anchors_are_read 12 (u "two") (u "*") 1 ltac:(lia) Hm) as (H1 & _ & H3 & _).
  split; [exact H1|exact H3].
Defined.

Lemma anchor_of_wf n : 1 <= n -> wf_anchor (anchor_of n).
Proof. apply line_anchor_wf. Qed.

Lemma payload_check l :
  forallb (fun c => negb (c =? NL)) l = true -> strip_cr l = l -> isPayloadTerminatorLine l = false ->
  payload_line l.
Proof.
  intros H H1 H2. split_and!; [|done|done]. apply Forall_forall. intros c Hc%list_elem_of_In ->.
  rewrite forallb_forall in H. by specialize (H _ Hc).
Qed.

Lemma demo_ops_wf : Forall wf_op demo_ops.
Proof.
  repeat apply Forall_cons_2; try apply Forall_nil_2.
  - split_and!; [intros a [= <-]; apply anchor_of_wf; lia|discriminate|].
    repeat apply Forall_cons_2; try apply Forall_nil_2; apply payload_check; done.
  - split_and!; try (apply anchor_of_wf; lia); done.
Qed.

Lemma operations_round_trip_witness :
  parseHashlineWithWarnings (print_ops demo_ops) = Ok (demo_edits, []).
Proof. exact (operations_round_trip demo_ops demo_ops_wf). Defined.

Lemma parsed_edits_typed_witness : typed_edits (zlen (parse_input_lines (print_ops demo_ops))) demo_edits.
Proof. apply (parsed_edits_typed (print_ops demo_ops) demo_edits []). vm_compute. reflexivity. Defined.

Lemma demo_edits_nonempty : demo_edits <> [].
Proof. vm_compute. discriminate. Qed.

Lemma stale_batches_are_rejected_witness :
  exists r, applyHashlineEdits demo_text demo_edits false = Ok r.
Proof.
  destruct (stale_batches_are_rejected demo_text demo_edits false demo_edits_nonempty) as (H & _ & _).
  apply H. repeat apply Forall_cons_2; try apply Forall_nil_2; (split; [vm_compute; split; discriminate|]);
    right; vm_compute; reflexivity.
Defined.

(** An insert after line 2 that begins with the two lines above it, which are dropped. *)
Definition repeating_edits : list HashlineEdit :=
  ops_edits [OpInsert KindAfter (TAnchor (anchor_of 2)) [u "one"; u "two"; u "new"]].
Lemma repeating_edits_nonempty : repeating_edits <> [].
Proof. vm_compute. discriminate. Qed.
Lemma repeating_applied : exists r, applyHashlineEdits demo_text repeating_edits true = Ok r /\
  r_lines r = join_lines [u "one"; u "two"; u "new"; u "three"; u "four"] /\ length (r_warnings r) = 1%nat.
Proof. eexists. vm_compute. done. Qed.


Lemma first_changed_line_witness :
  exists r out, applyHashlineEdits demo_text demo_edits false = Ok r /\ r_lines r = join_lines out.
Proof.
  destruct demo_replaced as (r & Hr & _ & Hf & _).
  pose proof (first_changed_line demo_text demo_edits false r Hr) as H. rewrite Hf in H.
  destruct H as (_ & out & Hl & _). exists r, out. split; [exact Hr|exact Hl].
Defined.

(** Line 2 becomes two lines, the second being line 3 again with line 4: lines 3 and 4 stay single. *)
Definition overlapping : list jstr := [u "2"; u "three"; u "four"].
Example overlap_stays_single : exists r,
  applyHashlineEdits demo_text (ops_edits [replace_op demo_lines overlapping 2 2]) false = Ok r /\
  r_lines r = join_lines [u "one"; u "2"; u "three"; u "four"].
Proof. eexists. vm_compute. done. Qed.

Lemma overlapping_lines : Forall payload_line overlapping.
Proof. repeat apply Forall_cons_2; try apply Forall_nil_2; apply payload_check; done. Qed.
Lemma overlapping_range : 2 <= zlen (split_lines demo_text).
Proof. vm_compute. discriminate. Qed.
Lemma replace_lines_witness :
  exists edits r out p s,
    parseHashline (print_ops [replace_op (split_lines demo_text) overlapping 2 2]) = Ok edits /\
    applyHashlineEdits demo_text edits false = Ok r /\ r_lines r = join_lines out /\
    repeats_above (split_lines demo_text) overlapping 2 2 p /\ repeats_below (split_lines demo_text) overlapping 2 2 s /\
    out = take (Z.to_nat (2 - 1 - p)) (split_lines demo_text) ++ overlapping ++ drop (Z.to_nat (2 + s)) (split_lines demo_text) /\
    (p + s <= zlen overlapping ->
     out = take (Z.to_nat (2 - 1)) (split_lines demo_text) ++ slice overlapping p (zlen overlapping - s)
           ++ drop (Z.to_nat 2) (split_lines demo_text)).
Proof. apply (replace_lines demo_text overlapping 2 2 false); [lia | exact overlapping_range | exact overlapping_lines]. Defined.

(** An input of two sections; the markers of the envelope end it early. *)
Definition demo_sections : list (jstr * list jstr) :=
  [(u "a.ts", parse_input_lines (print_ops demo_ops)); (u "b.ts", [u "x"])].
Definition demo_options : SplitHashlineOptions := {| o_cwd := None; o_path := None |}.
Definition demo_input : jstr := print_input demo_sections.

Lemma demo_sections_wf : Forall (wf_section None) demo_sections.
Proof.
  assert (Hl : forall l, forallb (fun c => negb (c =? NL)) l = true -> strip_cr l = l ->
    starts_with (trim_end l) [HL_FILE_PREFIX] = false ->
    negb (isEnvelopeOrAbortMarkerLine l) = true -> section_line l).
  { intros l H1 H2 H3 H4. unfold isEnvelopeOrAbortMarkerLine in H4.
    repeat (case_bool_decide; [done|]). split_and!; try done. apply Forall_forall. intros c Hc%list_elem_of_In ->.
    rewrite forallb_forall in H1. by specialize (H1 _ Hc). }
  assert (Hp : forall p, forallb (fun c => negb (c =? NL)) p = true -> p <> [] -> trim p = p ->
    head p <> Some HL_FILE_PREFIX -> normalizeHashlinePath p None = p -> plain_path None p).
  { intros p H1 H2 H3 H4 H5. split_and!; try done. apply Forall_forall. intros c Hc%list_elem_of_In ->.
    rewrite forallb_forall in H1. by specialize (H1 _ Hc). }
  repeat apply Forall_cons_2; try apply Forall_nil_2; (split_and!; [by apply Hp| |by left]);
    repeat apply Forall_cons_2; try apply Forall_nil_2; by apply Hl.
Qed.

Lemma sections_round_trip_witness :
  splitHashlineInputs demo_input demo_options = Ok (map section_of demo_sections).
Proof. apply (sections_round_trip None demo_sections None demo_sections_wf). discriminate. Defined.

Definition aborted_input : jstr := Eval vm_compute in join_lines
  [HL_FILE_PREFIX :: u "a.ts"; HL_OP_INSERT_BEFORE :: u "BOF"; u "zero"; ABORT_MARKER; u "rest"].

Definition aborted_section : HashlineInputSection := Eval vm_compute in
  {| s_path := u "a.ts"; s_diff := join_lines [HL_OP_INSERT_BEFORE :: u "BOF"; u "zero"] |}.

Lemma aborted_split : splitHashlineInputs aborted_input demo_options = Ok [aborted_section].
Proof. vm_compute. reflexivity. Qed.
Lemma aborted_in : aborted_section ∈ mergeSamePathSections [aborted_section].
Proof. apply list_elem_of_In. left. vm_compute. reflexivity. Qed.
Lemma aborted_parses :
  parseHashlineWithWarnings (s_diff aborted_section) = Ok ([Insert Bof (u "zero") 1 0], []).
Proof. vm_compute. reflexivity. Qed.

Lemma abort_warning_is_lost_witness :
  exists s edits warnings, splitHashlineInputs aborted_input demo_options = Ok [s] /\
    parseHashlineWithWarnings (s_diff s) = Ok (edits, warnings) /\ warnings = [].
Proof.
  exists aborted_section, [Insert Bof (u "zero") 1 0], []. split; [exact aborted_split|].
  split; [exact aborted_parses|].
  exact (abort_warning_is_lost aborted_input demo_options [aborted_section] aborted_split aborted_section
    _ [] aborted_in aborted_parses).
Defined.

(** ** A world with two files *)

Definition snapshot_of (ls : list jstr) : FileReadSnapshot :=
  {| snap_lines := set_entries ∅ (imap (fun i l => (1 + Z.of_nat i, l)) ls); snap_recordedAt := 0 |}.

Definition demo_world : World := {|
  w_files := {[ u "/w/a.ts" := demo_text; u "/w/b.ts" := [BOM] ++ join_with [13; 10] demo_lines ]};
  w_cache := {[ u "/w/a.ts" := snapshot_of demo_lines; u "/w/b.ts" := snapshot_of demo_lines ]} |}.

Definition section_for (path : jstr) (ops : list Op) : HashlineInputSection :=
  {| s_path := path; s_diff := print_ops ops |}.

(** The outcome of a section that is known to succeed. *)
Definition run_section (s : HashlineInputSection) (w : World) : World := fst (executeHashlineSection s w).
Definition outcome_in (s : HashlineInputSection) (w : World) : SectionOutcome :=
  match snd (executeHashlineSection s w) with
  | Ok o => o
  | Err _ => {| oc_text := []; oc_diff := []; oc_firstChangedLine := None |}
  end.
Definition runs (s : HashlineInputSection) (w : World) : bool :=
  match snd (executeHashlineSection s w) with Ok _ => true | Err _ => false end.

Lemma runs_eq s w : runs s w = true -> executeHashlineSection s w = (run_section s w, Ok (outcome_in s w)).
Proof. unfold runs, run_section, outcome_in. by destruct (executeHashlineSection s w) as [w' [o|]]. Qed.

Definition b_section : HashlineInputSection := section_for (u "b.ts") demo_ops.

Lemma demo_lines_plain : Forall plain_line demo_lines.
Proof. repeat apply Forall_cons_2; try apply Forall_nil_2; split; repeat constructor; discriminate. Qed.
Lemma b_resolves : resolvePlanPath (s_path b_section) = Ok (u "/w/b.ts").
Proof. vm_compute. reflexivity. Qed.
Lemma b_stored :
  w_files demo_world !! u "/w/b.ts" = Some ([BOM] ++ join_with (eol_text CRLF) demo_lines).
Proof. vm_compute. reflexivity. Qed.
Lemma b_runs :
  executeHashlineSection b_section demo_world = (run_section b_section demo_world, Ok (outcome_in b_section demo_world)).
Proof. apply runs_eq. vm_compute. reflexivity. Qed.

Lemma edit_keeps_format_witness :
  exists edits warnings r,
    parseHashlineWithWarnings (s_diff b_section) = Ok (edits, warnings) /\
    w_files (run_section b_section demo_world) =
      <[u "/w/b.ts" := [BOM] ++ join_with (eol_text CRLF) (split_lines (r_lines r))]> (w_files demo_world).
Proof.
  assert (H2 : 2 <= zlen demo_lines) by (vm_compute; discriminate).
  assert (Hw : forall p c, writethrough p c = Ok c) by reflexivity.
  assert (Hn : demo_lines <> []) by discriminate.
  assert (Hb : [BOM] = [] -> starts_with (join_with (eol_text CRLF) demo_lines) [BOM] = false) by discriminate.
  destruct (edit_keeps_format b_section demo_world _ _ (u "/w/b.ts") CRLF [BOM] demo_lines
    b_resolves eq_refl Hw (or_intror eq_refl) Hn demo_lines_plain (or_intror H2) Hb b_stored b_runs)
    as (edits & warnings & r & H & _ & Hf).
  exists edits, warnings, r. split; [exact H|exact Hf].
Defined.

Definition a_section : HashlineInputSection := section_for (u "a.ts") demo_ops.
Definition shown_diff : jstr * option Z :=
  match computeHashlineSectionDiff (w_files demo_world) a_section (u "/w") false with
  | Ok d => d | Err e => (e, None) end.

Lemma a_resolves : resolvePlanPath (s_path a_section) = Ok (resolveToCwd (s_path a_section) (u "/w")).
Proof. vm_compute. reflexivity. Qed.
Lemma a_shown :
  computeHashlineSectionDiff (w_files demo_world) a_section (u "/w") autoDropPureInsertDuplicates
  = Ok (fst shown_diff, snd shown_diff).
Proof. vm_compute. reflexivity. Qed.
Lemma a_runs :
  executeHashlineSection a_section demo_world = (run_section a_section demo_world, Ok (outcome_in a_section demo_world)).
Proof. apply runs_eq. vm_compute. reflexivity. Qed.

Lemma preview_is_what_happens_witness :
  oc_diff (outcome_in a_section demo_world) = fst shown_diff /\
  exists written, w_files (run_section a_section demo_world) =
    <[resolveToCwd (s_path a_section) (u "/w") := written]> (w_files demo_world).
Proof.
  exact (preview_is_what_happens a_section demo_world _ _ (u "/w") _ _ a_resolves a_shown a_runs).
Defined.

Definition both : list HashlineInputSection := [a_section; b_section].
Definition planned (s : HashlineInputSection) : jstr * jstr :=
  match planned_write demo_world s with Ok pc => pc | Err _ => ([], []) end.

Lemma both_pass : for_sections preflightHashlineSection both demo_world = (demo_world, Ok [tt; tt]).
Proof.
  assert (E : snd (for_sections preflightHashlineSection both demo_world) = Ok [tt; tt]).
  { vm_compute. reflexivity. }
  rewrite (surjective_pairing (for_sections _ _ _)), preflight_keeps. by rewrite E.
Qed.
Lemma both_planned : Forall2 (fun s pc => planned_write demo_world s = Ok pc) both (map planned both).
Proof. constructor; [vm_compute; reflexivity|]. constructor; [vm_compute; reflexivity|constructor]. Qed.
Lemma both_distinct : NoDup (map fst (map planned both)).
Proof. apply (bool_decide_unpack _). vm_compute. exact I. Qed.
Lemma both_cached : Forall (cached demo_world) both.
Proof.
  constructor; [|constructor; [|constructor]]; intros path [= <-]; vm_compute; discriminate.
Qed.
Lemma both_two : 2 <= zlen both.
Proof. vm_compute. discriminate. Qed.

Lemma both_app : both = both ++ [].
Proof. by rewrite app_nil_r. Qed.
Lemma nothing_later : elsewhere [] (map planned both).
Proof. by intros s path H%elem_of_nil. Qed.
Lemma batch_is_atomic_witness :
  exists w outs, run_sections both demo_world = (w, Ok outs) /\
    wrote (map planned both) (w_files demo_world) (w_files w).
Proof.
  destruct (batch_is_atomic both demo_world both_two) as [_ H].
  destruct (H demo_world [tt; tt] both [] (map planned both) both_pass both_app both_planned both_distinct nothing_later
    (or_introl both_cached)) as [Hall _].
  exact (Hall eq_refl).
Defined.

(** ** Recovery *)

(** Line 2 has changed since the file was read; the batch rewrites lines 2 and 4 as they were read. *)
Definition changed_text : jstr := Eval vm_compute in join_lines [u "one"; u "2"; u "three"; u "four"].
Definition stale_edits : list HashlineEdit := ops_edits
  [OpReplace (anchor_of 2) (anchor_of 2) [u "two"; u "y"]; OpReplace (anchor_of 4) (anchor_of 4) [u "fourth"]].
Definition demo_recovery : HashlineRecoveryResult :=
  match tryRecoverHashlineWithCache (w_cache demo_world) (u "/w/a.ts") changed_text stale_edits false with
  | Ok (Some r) => r
  | _ => {| rc_lines := []; rc_firstChangedLine := None; rc_warnings := [] |}
  end.

Lemma demo_recovers :
  tryRecoverHashlineWithCache (w_cache demo_world) (u "/w/a.ts") changed_text stale_edits false
  = Ok (Some demo_recovery).
Proof. vm_compute. reflexivity. Qed.

Lemma recovery_is_vouched_witness :
  rc_lines demo_recovery = join_lines [u "one"; u "2"; u "y"; u "three"; u "fourth"] /\
  exists snap, st_get (w_cache demo_world) (u "/w/a.ts") = Some snap.
Proof.
  split; [vm_compute; reflexivity|].
  destruct (recovery_is_vouched _ _ _ _ _ _ demo_recovers) as (snap & _ & H & _).
  exists snap. exact H.
Defined.

(** The same with the range from 2 to 4 is turned away. *)
Definition wide_ops : list Op := [OpReplace (anchor_of 2) (anchor_of 4) [u "x"]].

Lemma wide_in : OpReplace (anchor_of 2) (anchor_of 4) [u "x"] ∈ wide_ops.
Proof. apply list_elem_of_singleton. reflexivity. Qed.
Lemma wide_range : line (anchor_of 2) + 2 <= line (anchor_of 4).
Proof. vm_compute. discriminate. Qed.
Lemma wide_rejected : exists ms ls,
  applyHashlineEdits changed_text (ops_edits wide_ops) false = Err (MismatchError ms ls).
Proof. eexists _, _. vm_compute. reflexivity. Qed.

Lemma wide_replacements_never_recover_witness :
  tryRecoverHashlineWithCache (w_cache demo_world) (u "/w/a.ts") changed_text (ops_edits wide_ops) false = Ok None.
Proof.
  pose proof (wide_replacements_never_recover (w_cache demo_world) (u "/w/a.ts") changed_text wide_ops false
    _ _ _ wide_in wide_range) as H.
  destruct wide_rejected as (ms & ls & E). rewrite E in H. destruct H as [H _]. exact H.
Defined.

(** ** The other tools on lines *)

Definition demo_stream_options : HashlineStreamOptions :=
  {| so_startLine := Some 1; so_maxChunkLines := Some 2; so_maxChunkBytes := None |}.

Lemma stream_spec_witness :
  exists groups,
    streamHashLinesFromUtf8 [u "on"; u "e" ++ [13; NL] ++ u "two"; [NL] ++ u "three"] [] demo_stream_options
      = map join_lines groups /\ length groups = 2%nat.
Proof.
  assert (Hr : no_char NL []) by constructor.
  destruct (stream_spec [u "on"; u "e" ++ [13; NL] ++ u "two"; [NL] ++ u "three"] [] demo_stream_options Hr)
    as (groups & H & _). exists groups. split; [exact H|].
  apply (f_equal length) in H. rewrite length_map in H. rewrite <- H. vm_compute. reflexivity.
Defined.

(** A line that is larger than the bound is sent all the same. *)
Example long_line_passes_the_bound :
  map byte_length (streamHashLinesFromUtf8 [u "one" ++ [NL] ++ u "a longer line"] []
    {| so_startLine := None; so_maxChunkLines := None; so_maxChunkBytes := Some 10 |}) = [7; 17].
Proof. vm_compute. reflexivity. Qed.

Definition demo_echoes : list (jstr * Z * jstr) := [([], 1, u "one"); (u "*", 2, u "two"); (u ">>", 7, u "x|y")].

Lemma demo_echoes_ok : Forall echo_ok demo_echoes.
Proof.
  assert (H : forall mark n text, bool_decide (mark ∈ echo_marks) = true -> 1 <= n ->
    hl_prefix text = None -> echo_ok (mark, n, text)).
  { intros mark n text H1 H2 H3. split; [by apply bool_decide_eq_true in H1|done]. }
  repeat apply Forall_cons_2; try apply Forall_nil_2; (apply H; [vm_compute; reflexivity|lia|vm_compute; reflexivity]).
Qed.

Lemma echoed_lines_are_recovered_witness :
  hashlineParseText (TextLines (map echo demo_echoes)) = [u "one"; u "two"; u "x|y"].
Proof. destruct (echoed_lines_are_recovered demo_echoes demo_echoes_ok) as [H _]. exact H. Defined.

Lemma preview_anchors_are_current_witness :
  exists outs, snd (buildCompactHashlineDiffPreview (fst (generateDiffString demo_text changed_text 4)))
    = join_lines outs /\ Forall (preview_ok (split_lines changed_text)) outs.
Proof. exact (preview_anchors_are_current demo_text changed_text 4). Defined.

(** ** A partial batch *)

(** Two names of one file are two sections: the preflight passes both, then the first is written and
    the second fails, because its anchors name lines that have moved. *)
Definition aliased : list HashlineInputSection :=
  [section_for (u "a.ts") demo_ops; section_for (u "./a.ts") (demo_replace [u "23"])].

Lemma aliased_paths_break_batches :
  mergeSamePathSections aliased = aliased /\
  snd (for_sections preflightHashlineSection aliased demo_world) = Ok [tt; tt] /\
  (exists ms ls, snd (run_sections aliased demo_world) = Err (MismatchError ms ls)) /\
  w_files (fst (run_sections aliased demo_world)) !! u "/w/a.ts" <> w_files demo_world !! u "/w/a.ts".
Proof.
  split_and!; [vm_compute; reflexivity|vm_compute; reflexivity| |vm_compute; discriminate].
  eexists _, _. vm_compute. reflexivity.
Qed.
