(* ===== verification/Goals.v ===== *)
(** * Goals: CA/goals/state.ts and runtime.ts

    A session may have a goal, and [GoalRuntime] accounts for the tokens and the seconds that are spent
    while it is active.  [World] is the runtime's own state together with what it reaches through its
    host: the stored mode state, the session's token counters, the clock, the supply of ids, and the
    calls that persist and emit.  The host's callbacks may throw ([host_fails]).

    The operations that change the goal run under [#withAccounting], one after another in the order in
    which they were called, but each gives up control at its [await]s, and the handlers of the session
    that are not locked ([onTurnStart], [onThreadResumed], the entries of the others) run in between.
    A locked body is a [Task]: the segments between its awaits, each a computation in [SM].  [run] is
    the execution without interference; GoalsInterleave.v is the execution with it.

    Clones are the cloned values: a state is a value here.  The fields of the stored objects that the
    interfaces do not name are dropped. *)
From S2P Require Import Prelude Json.
#[local] Open Scope Z_scope.
#[local] Open Scope js_scope.

(** ** state.ts *)

Inductive GoalStatus := Active | Paused | Complete | Dropped.
#[export] Instance GoalStatus_eq : EqDecision GoalStatus.
Proof. solve_decision. Defined.

Definition status_str (s : GoalStatus) : jstr :=
  match s with
  | Active => u "active" | Paused => u "paused"
  | Complete => u "complete" | Dropped => u "dropped"
  end.

Inductive GoalProvenance := Ultragoal (runId goalId : jstr) | User.
#[export] Instance GoalProvenance_eq : EqDecision GoalProvenance.
Proof. solve_decision. Defined.

Record Goal := mkGoal {
  goal_id : jstr;
  objective : jstr;
  status : GoalStatus;
  tokensUsed : Z;
  timeUsedSeconds : Z;
  createdAt : Z;
  updatedAt : Z;
  provenance : option GoalProvenance
}.
#[export] Instance Goal_eq : EqDecision Goal.
Proof. solve_decision. Defined.

Inductive GoalMode := ModeActive | ModeExiting.
#[export] Instance GoalMode_eq : EqDecision GoalMode.
Proof. solve_decision. Defined.

(** The stored state holds the goal as it was restored, any JSON value; the runtime works on states
    with a normalized goal.  [completed] is the field [reason]: [undefined] or ["completed"]. *)
Record GoalModeState (G : Type) := mkState {
  enabled : bool;
  mode : GoalMode;
  completed : bool;
  goal : G
}.
Arguments mkState {G}.
Arguments enabled {G}.
Arguments mode {G}.
Arguments completed {G}.
Arguments goal {G}.

(** The status that is read, also from the name an earlier version wrote. *)
Definition read_status (s : jstr) : option GoalStatus :=
  if (s ==s "budget-limited") || (s ==s "active") then Some Active
  else if s ==s "paused" then Some Paused
  else if s ==s "complete" then Some Complete
  else if s ==s "dropped" then Some Dropped
  else None.

(** [None] when the goal is refused, [Some None] when it has no provenance. *)
Definition read_provenance (p : json) : option (option GoalProvenance) :=
  match p with
  | JUndefined => Some None
  | JObj _ =>
      match json_get p (u "source") with
      | JStr source =>
          if source ==s "ultragoal" then
            match json_get p (u "runId"), json_get p (u "goalId") with
            | JStr runId, JStr goalId => Some (Some (Ultragoal runId goalId))
            | _, _ => None
            end
          else if source ==s "user" then Some (Some User)
          else None
      | _ => None
      end
  | _ => None
  end.

Definition normalizeGoal (value : json) : option Goal :=
  match json_get value (u "id"), json_get value (u "objective"), json_get value (u "status"),
        json_get value (u "tokensUsed"), json_get value (u "timeUsedSeconds"),
        json_get value (u "createdAt"), json_get value (u "updatedAt") with
  | JStr i, JStr o, JStr s, JNum t, JNum seconds, JNum c, JNum up =>
      match read_status s, read_provenance (json_get value (u "provenance")) with
      | Some st, Some p => Some (mkGoal i o st t seconds c up p)
      | _, _ => None
      end
  | _, _, _, _, _, _, _ => None
  end.

Definition with_goal {G H} (s : GoalModeState G) (g : H) : GoalModeState H :=
  mkState (enabled s) (mode s) (completed s) g.

Definition normalizeGoalModeState (candidate : option (GoalModeState json)) :
    option (GoalModeState Goal) :=
  s ← candidate; g ← normalizeGoal (goal s); Some (with_goal s g).

(** The object that a goal is stored as. *)
Definition provenance_json (p : GoalProvenance) : json :=
  match p with
  | Ultragoal runId goalId =>
      JObj [(u "source", JStr (u "ultragoal")); (u "runId", JStr runId); (u "goalId", JStr goalId)]
  | User => JObj [(u "source", JStr (u "user"))]
  end.

Definition goal_json (g : Goal) : json :=
  JObj ([(u "id", JStr (goal_id g)); (u "objective", JStr (objective g));
         (u "status", JStr (status_str (status g)));
         (u "tokensUsed", JNum (tokensUsed g)); (u "timeUsedSeconds", JNum (timeUsedSeconds g));
         (u "createdAt", JNum (createdAt g)); (u "updatedAt", JNum (updatedAt g))]
        ++ match provenance g with Some p => [(u "provenance", provenance_json p)] | None => [] end).

(** ** Text for prompts *)

Definition escape_unit (c : jchar) : jstr :=
  if c =? 38 then u "&amp;" else if c =? 60 then u "&lt;" else if c =? 62 then u "&gt;" else [c].

Definition escapable (c : jchar) : bool := (c =? 38) || (c =? 60) || (c =? 62).

(** The index of the first unit that needs an escape, and the loop from there on. *)
Fixpoint first_escapable (input : jstr) (index : Z) : Z :=
  match input with
  | [] => -1
  | c :: rest => if escapable c then index else first_escapable rest (index + 1)
  end.

Fixpoint escape_from (input output : jstr) : jstr :=
  match input with
  | [] => output
  | c :: rest => escape_from rest (output ++ escape_unit c)
  end.

Definition escapeXmlText (input : jstr) : jstr :=
  let firstEscapable := first_escapable input 0 in
  if firstEscapable =? -1 then input
  else escape_from (slice_from input firstEscapable) (slice input 0 firstEscapable).

Definition renderTrustedObjective (objective : jstr) : jstr :=
  u "<objective>" ++ [NL] ++ escapeXmlText objective ++ [NL] ++ u "</objective>".

Inductive GoalError :=
| GoalFailure (message : jstr)
| HostFailure.

Definition validateGoalObjective (objective op : jstr) : result GoalError jstr :=
  let trimmed := trim objective in
  if bool_decide (trimmed = []) then
    Err (GoalFailure (u "objective is required when op=" ++ op))
  else if trimmed ==s "/goal" then
    Err (GoalFailure
      (u "objective must describe the goal; `/goal` is the command name, not a goal objective"))
  else Ok trimmed.

(** ** The runtime *)

Record GoalTokenUsage := mkUsage { input : Z; output : Z; cacheRead : Z; cacheWrite : Z }.
#[export] Instance GoalTokenUsage_eq : EqDecision GoalTokenUsage.
Proof. solve_decision. Defined.

Definition goalTokenDelta (current baseline : GoalTokenUsage) : Z :=
  Z.max 0 (input current - input baseline) + Z.max 0 (cacheWrite current - cacheWrite baseline)
  + Z.max 0 (output current - output baseline).

Record GoalTurnSnapshot := mkTurn {
  turnId : jstr;
  baselineUsage : GoalTokenUsage;
  turnGoalId : option jstr
}.

Record GoalWallClockSnapshot := mkWall {
  lastAccountedAt : Z;
  wallGoalId : option jstr
}.

Inductive PersistMode := PersistGoal | PersistPaused | PersistNone.

(** What the runtime asks of its host, besides reading it. *)
Inductive HostCall :=
| Persisted (m : PersistMode) (state : option (GoalModeState Goal))
| GoalUpdated (g : option Goal) (state : option (GoalModeState Goal)).

Inductive GoalPromptKind := PromptActive | PromptContinuation.

(** The host: the [n]-th value that its clock returns, the [n]-th id that [Snowflake.next] returns,
    whether the [n]-th call of [persist] or [emit] throws, and the templates with an objective
    filled in. *)
Class GoalHost := {
  clock : nat -> Z;
  snowflake : nat -> jstr;
  host_fails : nat -> bool;
  render : GoalPromptKind -> jstr -> jstr
}.

Record World := mkWorld {
  host_state : option (GoalModeState json);
  usage : GoalTokenUsage;
  reads : nat;
  ids : nat;
  calls : list HostCall;
  turnSnapshot : option GoalTurnSnapshot;
  wallClock : GoalWallClockSnapshot
}.

Definition set_host_state (s : option (GoalModeState json)) (w : World) : World :=
  mkWorld s (usage w) (reads w) (ids w) (calls w) (turnSnapshot w) (wallClock w).
Definition set_usage (us : GoalTokenUsage) (w : World) : World :=
  mkWorld (host_state w) us (reads w) (ids w) (calls w) (turnSnapshot w) (wallClock w).
Definition set_turn (t : option GoalTurnSnapshot) (w : World) : World :=
  mkWorld (host_state w) (usage w) (reads w) (ids w) (calls w) t (wallClock w).
Definition set_wall (c : GoalWallClockSnapshot) (w : World) : World :=
  mkWorld (host_state w) (usage w) (reads w) (ids w) (calls w) (turnSnapshot w) c.
Definition add_call (c : HostCall) (w : World) : World :=
  mkWorld (host_state w) (usage w) (reads w) (ids w) (calls w ++ [c]) (turnSnapshot w)
    (wallClock w).

Definition goal_state (w : World) : option (GoalModeState Goal) :=
  normalizeGoalModeState (host_state w).

Definition isAccountingStatus (g : Goal) : bool := bool_decide (status g = Active).

Definition accounting (s : option (GoalModeState Goal)) : bool :=
  match s with Some s => enabled s && isAccountingStatus (goal s) | None => false end.

Definition hasAccountingState (w : World) : bool := accounting (goal_state w).
Definition shouldTrackTurnBaseline : World -> bool := hasAccountingState.

Definition set_status (st : GoalStatus) (at_time : Z) (g : Goal) : Goal :=
  mkGoal (goal_id g) (objective g) st (tokensUsed g) (timeUsedSeconds g) (createdAt g) at_time
    (provenance g).

Definition charge (tokens seconds at_time : Z) (g : Goal) : Goal :=
  mkGoal (goal_id g) (objective g) (status g) (tokensUsed g + tokens) (timeUsedSeconds g + seconds)
    (createdAt g) at_time (provenance g).

(** ** Tasks *)

Inductive Task (A : Type) :=
| Finish (r : result GoalError A)
| Segment (f : World -> World * Task A).
Arguments Finish {A}.
Arguments Segment {A}.

Definition atomically {A} (m : SM World GoalError A) : Task A :=
  Segment (fun w => let '(w', r) := m w in (w', Finish r)).

Fixpoint task_bind {A B} (t : Task A) (k : A -> Task B) : Task B :=
  match t with
  | Finish (Ok a) => k a
  | Finish (Err e) => Finish (Err e)
  | Segment f => Segment (fun w => let '(w', t') := f w in (w', task_bind t' k))
  end.

#[export] Instance task_ret : MRet Task := fun A a => Finish (Ok a).
#[export] Instance task_mbind : MBind Task := fun A B k t => task_bind t k.

(** Every segment of a task in turn, with nothing in between. *)
Fixpoint run {A} (t : Task A) : SM World GoalError A := fun w =>
  match t with
  | Finish r => (w, r)
  | Segment f => let '(w', t') := f w in run t' w'
  end.

Section runtime.
Context `{GoalHost}.

Definition now : SM World GoalError Z := fun w =>
  (mkWorld (host_state w) (usage w) (S (reads w)) (ids w) (calls w) (turnSnapshot w) (wallClock w),
   Ok (clock (reads w))).

Definition next_id : SM World GoalError jstr := fun w =>
  (mkWorld (host_state w) (usage w) (reads w) (S (ids w)) (calls w) (turnSnapshot w) (wallClock w),
   Ok (snowflake (ids w))).

Definition host_call (c : HostCall) : SM World GoalError unit := fun w =>
  (add_call c w, if host_fails (length (calls w)) then Err HostFailure else Ok tt).

Definition getStateClone : SM World GoalError (option (GoalModeState Goal)) := fun w =>
  (w, Ok (goal_state w)).

Definition commitState (state : option (GoalModeState Goal)) (persist : option PersistMode)
    (emit : bool) : SM World GoalError unit :=
  _ ← modify (set_host_state ((fun s => with_goal s (goal_json (goal s))) <$> state));
  _ ← match persist with Some m => host_call (Persisted m state) | None => mret tt end;
  if emit then host_call (GoalUpdated (goal <$> state) state) else mret tt.

Definition markActiveAccounting (g : Goal) : SM World GoalError unit :=
  w ← get_state;
  _ ← (if bool_decide (wallGoalId (wallClock w) = Some (goal_id g)) then mret tt
       else t ← now; modify (set_wall (mkWall t (Some (goal_id g)))));
  w ← get_state;
  modify (set_turn (Some
    match turnSnapshot w with
    | Some t => mkTurn (turnId t) (usage w) (Some (goal_id g))
    | None => mkTurn (u "activation-" ++ goal_id g) (usage w) (Some (goal_id g))
    end)).

Definition clearActiveAccounting : SM World GoalError unit :=
  t ← now;
  _ ← modify (set_wall (mkWall t None));
  modify (fun w =>
    match turnSnapshot w with
    | Some t => set_turn (Some (mkTurn (turnId t) (baselineUsage t) None)) w
    | None => w
    end).

Definition onTurnStart (turn : jstr) (baseline : GoalTokenUsage) : SM World GoalError unit :=
  _ ← modify (set_turn (Some (mkTurn turn baseline None)));
  state ← getStateClone;
  match state with
  | Some s =>
      if accounting state then
        _ ← modify (set_turn (Some (mkTurn turn baseline (Some (goal_id (goal s))))));
        w ← get_state;
        if bool_decide (wallGoalId (wallClock w) = Some (goal_id (goal s))) then mret tt
        else t ← now; modify (set_wall (mkWall t (Some (goal_id (goal s)))))
      else mret tt
  | None => mret tt
  end.

Definition turn_goal (w : World) : option jstr := t ← turnSnapshot w; turnGoalId t.

(** The tokens used since the baseline, when the turn is counted for the goal [i]. *)
Definition token_delta (current : GoalTokenUsage) (i : jstr) (w : World) : Z :=
  match turnSnapshot w with
  | Some t => if bool_decide (turnGoalId t = Some i) then goalTokenDelta current (baselineUsage t) else 0
  | None => 0
  end.

Definition rebase_turn (current : GoalTokenUsage) (i : jstr) (w : World) : World :=
  match turnSnapshot w with
  | Some t => if bool_decide (turnGoalId t = Some i)
              then set_turn (Some (mkTurn (turnId t) current (turnGoalId t))) w else w
  | None => w
  end.

Definition advance_wall (seconds : Z) (i : jstr) (w : World) : World :=
  if bool_decide (wallGoalId (wallClock w) = Some i) && (0 <? seconds) then
    set_wall (mkWall (lastAccountedAt (wallClock w) + seconds * 1000) (wallGoalId (wallClock w))) w
  else w.

(** [currentUsage] is [None] when the argument is left out: its default is evaluated here. *)
Definition flush_segment (currentUsage : option GoalTokenUsage) : SM World GoalError unit :=
  w ← get_state;
  let current := default (usage w) currentUsage in
  state ← getStateClone;
  match state with
  | Some s =>
      let i := goal_id (goal s) in
      if negb (accounting state) then mret tt
      else if negb (bool_decide (turn_goal w = Some i))
              && negb (bool_decide (wallGoalId (wallClock w) = Some i)) then mret tt
      else
        let tokenDelta := token_delta current i w in
        wallSeconds ←
          (if bool_decide (wallGoalId (wallClock w) = Some i) then
             t ← now; mret (Z.max 0 ((t - lastAccountedAt (wallClock w)) / 1000))
           else mret 0);
        if (tokenDelta <=? 0) && (wallSeconds <=? 0) then mret tt
        else
          t ← now;
          _ ← modify (rebase_turn current i);
          _ ← modify (advance_wall wallSeconds i);
          commitState (Some (with_goal s (charge tokenDelta wallSeconds t (goal s))))
            (Some PersistGoal) true
  | None => mret tt
  end.

Definition flushUsageLocked (currentUsage : option GoalTokenUsage) : Task unit :=
  atomically (flush_segment currentUsage).

Definition createGoalState (objective : jstr) (prov : option GoalProvenance) :
    SM World GoalError (GoalModeState Goal) :=
  t ← now;
  i ← next_id;
  mret (mkState true ModeActive false (mkGoal i objective Active 0 0 t t prov)).

(** The bodies under the lock. *)
Definition createGoalLocked (objective : jstr) (prov : option GoalProvenance) :
    Task (GoalModeState Goal) :=
  atomically (
    existing ← getStateClone;
    match existing with
    | Some s =>
        if bool_decide (status (goal s) <> Dropped) && bool_decide (status (goal s) <> Complete) then
          throw (GoalFailure (u "cannot create a new goal because this session already has a goal"))
        else mret tt
    | None => mret tt
    end ≫= fun _ =>
    state ← createGoalState objective (Some (default User prov));
    _ ← markActiveAccounting (goal state);
    _ ← commitState (Some state) (Some PersistGoal) true;
    mret state).

Definition replaceGoalLocked (objective : jstr) : Task (GoalModeState Goal) :=
  Segment (fun w =>
    if negb (hasAccountingState w) then
      (w, Finish (Err (GoalFailure (u "cannot replace goal because no goal is active"))))
    else
      let '(w', r) := flush_segment None w in
      (w', task_bind (Finish r) (fun _ =>
        atomically (
          state ← createGoalState objective (Some User);
          _ ← markActiveAccounting (goal state);
          _ ← commitState (Some state) (Some PersistGoal) true;
          mret state)))).

Definition resumeGoalLocked : Task (GoalModeState Goal) :=
  atomically (
    state ← getStateClone;
    match state with
    | None => throw (GoalFailure (u "No paused goal."))
    | Some s =>
        if bool_decide (status (goal s) = Complete) then
          throw (GoalFailure (u "Goal is already complete."))
        else
          t ← now;
          let s' := mkState true ModeActive false (set_status Active t (goal s)) in
          _ ← markActiveAccounting (goal s');
          _ ← commitState (Some s') (Some PersistGoal) true;
          mret s'
    end).

Definition pauseGoalLocked : Task (option (GoalModeState Goal)) :=
  _ ← flushUsageLocked None;
  atomically (
    state ← getStateClone;
    match state with
    | None => mret None
    | Some s =>
        if negb (bool_decide (status (goal s) = Active)) then
          throw (GoalFailure (u "cannot pause a goal that is not active (current status: "
                              ++ status_str (status (goal s)) ++ u ")"))
        else
          t ← now;
          let s' := mkState false ModeActive false (set_status Paused t (goal s)) in
          _ ← clearActiveAccounting;
          _ ← commitState (Some s') (Some PersistPaused) true;
          mret (Some s')
    end).

Definition dropGoalLocked : Task (option Goal) :=
  _ ← flushUsageLocked None;
  dropped ← atomically (
    state ← getStateClone;
    match state with
    | None => mret None
    | Some s =>
        t ← now;
        let dropped := set_status Dropped t (goal s) in
        _ ← clearActiveAccounting;
        _ ← host_call (GoalUpdated (Some dropped)
                         (Some (mkState false (mode s) (completed s) dropped)));
        mret (Some dropped)
    end);
  match dropped with
  | None => mret None
  | Some g => atomically (_ ← commitState None (Some PersistNone) false; mret (Some g))
  end.

Definition completeGoalLocked : Task Goal :=
  _ ← flushUsageLocked None;
  atomically (
    state ← getStateClone;
    match state with
    | None => throw (GoalFailure (u "cannot complete goal because no goal is active"))
    | Some s =>
        if bool_decide (status (goal s) = Complete) then
          throw (GoalFailure (u "goal is already complete"))
        else if bool_decide (status (goal s) = Dropped) then
          throw (GoalFailure (u "cannot complete a dropped goal"))
        else
          t ← now;
          let s' := mkState false ModeExiting true (set_status Complete t (goal s)) in
          _ ← clearActiveAccounting;
          _ ← commitState (Some s') (Some PersistGoal) true;
          mret (goal s')
    end).

Definition abortLocked : Task unit :=
  _ ← flushUsageLocked None;
  atomically (
    _ ← modify (set_turn None);
    cloned ← getStateClone;
    match cloned with
    | Some s =>
        if negb (accounting cloned) then mret tt
        else
          t ← now;
          let s' := with_goal s (set_status (status (goal s)) t (goal s)) in
          _ ← markActiveAccounting (goal s');
          commitState (Some s') (Some PersistGoal) true
    | None => mret tt
    end).

(** [onThreadResumed] is not locked: one segment, up to the await of its last call. *)
Definition onThreadResumed : SM World GoalError (option (GoalModeState Goal)) :=
  state ← getStateClone;
  match state with
  | None => mret None
  | Some s =>
      let s' := if bool_decide (status (goal s) = Active)
                then mkState true (mode s) (completed s) (goal s) else s in
      _ ← (if accounting (Some s') then markActiveAccounting (goal s') else clearActiveAccounting);
      _ ← commitState (Some s') None true;
      mret (Some s')
  end.

(** ** The calls of the session *)

Inductive Call :=
| OnTurnStart (turn : jstr) (baseline : GoalTokenUsage)
| OnToolCompleted (toolName : jstr)
| OnGoalToolCompleted
| OnAgentEnd (currentUsage : option GoalTokenUsage)
| OnTaskAborted
| OnThreadResumed
| FlushUsage (currentUsage : option GoalTokenUsage)
| CreateGoal (objective : jstr) (prov : option GoalProvenance)
| ReplaceGoal (objective : jstr)
| ResumeGoal
| PauseGoal
| DropGoal
| CompleteGoal.

Definition void {A} (t : Task A) : Task unit := _ ← t; mret tt.

(** [flushUsage(currentUsage)]: the default of the argument is evaluated at the call, before the
    lock is waited for. *)
Definition flushUsage (currentUsage : option GoalTokenUsage) (w : World) : Task unit :=
  flushUsageLocked (Some (default (usage w) currentUsage)).

(** What a call does before it waits: the new state and, when it goes on under the lock, the locked
    body and whether it forgets the turn afterwards. *)
Definition enter (c : Call) (w : World) : World * option (Task unit * bool) :=
  match c with
  | OnTurnStart turn baseline => (fst (onTurnStart turn baseline w), None)
  | OnToolCompleted toolName =>
      if (toolName ==s "goal") || negb (hasAccountingState w) then (w, None)
      else (w, Some (flushUsage None w, false))
  | OnGoalToolCompleted =>
      if negb (hasAccountingState w) then (w, None) else (w, Some (flushUsage None w, false))
  | OnAgentEnd currentUsage =>
      if negb (hasAccountingState w) then (set_turn None w, None)
      else (w, Some (flushUsage currentUsage w, true))
  | OnTaskAborted =>
      if negb (hasAccountingState w) then (set_turn None w, None) else (w, Some (abortLocked, false))
  | OnThreadResumed => (fst (onThreadResumed w), None)
  | FlushUsage currentUsage => (w, Some (flushUsage currentUsage w, false))
  | CreateGoal text prov =>
      match validateGoalObjective text (u "create") with
      | Err _ => (w, None)
      | Ok objective => (w, Some (void (createGoalLocked objective prov), false))
      end
  | ReplaceGoal text =>
      match validateGoalObjective text (u "replace") with
      | Err _ => (w, None)
      | Ok objective => (w, Some (void (replaceGoalLocked objective), false))
      end
  | ResumeGoal => (w, Some (void resumeGoalLocked, false))
  | PauseGoal => (w, Some (void pauseGoalLocked, false))
  | DropGoal => (w, Some (void dropGoalLocked, false))
  | CompleteGoal => (w, Some (void completeGoalLocked, false))
  end.

(** A call that nothing interferes with. *)
Definition perform (c : Call) (w : World) : World :=
  match enter c w with
  | (w', None) => w'
  | (w', Some (t, ends_turn)) =>
      match run t w' with
      | (w'', Ok _) => if ends_turn : bool then set_turn None w'' else w''
      | (w'', Err _) => w''
      end
  end.

Definition buildPrompt (kind : GoalPromptKind) (w : World) : option jstr :=
  match goal_state w with
  | Some s => if enabled s && bool_decide (status (goal s) = Active)
              then Some (render kind (escapeXmlText (objective (goal s)))) else None
  | None => None
  end.
Definition buildActivePrompt : World -> option jstr := buildPrompt PromptActive.
Definition buildContinuationPrompt : World -> option jstr := buildPrompt PromptContinuation.
End runtime.

(** ** Running tasks *)

Lemma run_bind {A B} (t : Task A) (k : A -> Task B) w :
  run (t ≫= k) w = match run t w with (w', Ok a) => run (k a) w' | (w', Err e) => (w', Err e) end.
Proof.
  revert t w. fix go 1. intros [[a|e]|f] w; [done|done|]. cbn.
  specialize (go (snd (f w))). destruct (f w) as [w' t']. apply go.
Qed.

Lemma run_atomically {A} (m : SM World GoalError A) w : run (atomically m) w = m w.
Proof. cbn. by destruct (m w). Qed.
