(* ===== verification/GoalsLife.v ===== *)
(** * The life of a goal, under any interleaving

    [System] is a runtime with the tasks that wait for its lock and the calls that are about to return
    from it; a step is a call of the session, the next segment of the task that holds the lock, the end
    of a task, or a change of the token counters.  [goal_life] says what may become of a goal between
    any two points of a run, [goal_states_agree] that the stored flags always tell its status. *)
From S2P Require Import Prelude Json Goals.
#[local] Open Scope Z_scope.
#[local] Open Scope js_scope.

(** ** Storing and reading a goal *)

(** Decide the equalities of the names of fields. *)
Ltac compare_names :=
  repeat match goal with
  | |- context [bool_decide (u ?a = u ?b)] =>
      let r := eval vm_compute in (bool_decide (u a = u b)) in
      change (bool_decide (u a = u b)) with r
  end; cbv beta iota.

Lemma read_status_str s : read_status (status_str s) = Some s.
Proof. by destruct s; vm_compute. Qed.

Lemma read_provenance_json p : read_provenance (provenance_json p) = Some (Some p).
Proof. by destruct p; vm_compute. Qed.

(** What the runtime stores is what it reads. *)
Lemma stored_goal_is_read g : normalizeGoal (goal_json g) = Some g.
Proof.
  destruct g as [i o s t sec c up p]. unfold normalizeGoal, goal_json, json_get.
  destruct p as [p|]; cbn [app field_of goal_id objective status tokensUsed timeUsedSeconds createdAt
    updatedAt provenance]; compare_names; rewrite read_status_str; [|done].
  by rewrite read_provenance_json.
Qed.

Lemma stored_state_is_read s :
  normalizeGoalModeState (Some (with_goal s (goal_json (goal s)))) = Some s.
Proof. unfold normalizeGoalModeState. cbn -[goal_json]. rewrite stored_goal_is_read. by destruct s. Qed.

(** ** Runs with interference *)

Section life.
Context `{GoalHost}.

Record System := mkSystem {
  world : World;
  queue : list (Task unit * bool);
  returning : nat
}.

Inductive step : System -> System -> Prop :=
| step_call c w q n w' :
    enter c w = (w', None) -> step (mkSystem w q n) (mkSystem w' q n)
| step_enqueue c w q n w' t :
    enter c w = (w', Some t) -> step (mkSystem w q n) (mkSystem w' (q ++ [t]) n)
| step_segment w f b q n w' t' :
    f w = (w', t') -> step (mkSystem w ((Segment f, b) :: q) n) (mkSystem w' ((t', b) :: q) n)
| step_done w b q n :
    step (mkSystem w ((Finish (Ok tt), b) :: q) n) (mkSystem w q (if b then S n else n))
| step_failed w e b q n :
    step (mkSystem w ((Finish (Err e), b) :: q) n) (mkSystem w q n)
| step_return w q n :
    step (mkSystem w q (S n)) (mkSystem (set_turn None w) q n)
| step_usage w q n us :
    step (mkSystem w q n) (mkSystem (set_usage us w) q n).

(** ** The accounting machine

    The specification of the runtime: the moves that its operations are made of.  Every segment of the
    code is a sequence of them ([segments_are_moves]); the theorems are proved of the moves. *)

(** The status changes that keep a goal the same goal. *)
Definition status_step (a b : GoalStatus) : bool :=
  match a, b with
  | Active, (Active | Paused | Complete) | Paused, (Active | Complete) | Dropped, Active => true
  | _, _ => false
  end.

(** The flags that go with a status. *)
Definition state_for (g : Goal) : GoalModeState Goal :=
  mkState (bool_decide (status g = Active))
    (if bool_decide (status g = Complete) then ModeExiting else ModeActive)
    (bool_decide (status g = Complete)) g.

Definition store (s : option (GoalModeState Goal)) : World -> World :=
  set_host_state ((fun s => with_goal s (goal_json (goal s))) <$> s).

Definition tick (w : World) : World :=
  mkWorld (host_state w) (usage w) (S (reads w)) (ids w) (calls w) (turnSnapshot w) (wallClock w).

Definition take_id (w : World) : World :=
  mkWorld (host_state w) (usage w) (reads w) (S (ids w)) (calls w) (turnSnapshot w) (wallClock w).

(** [n] seconds may be charged to the goal [i]: none, or whole seconds since the last charge. *)
Definition due_seconds (w : World) (i : jstr) (n : Z) : Prop :=
  n = 0 \/
  (0 < n /\ wallGoalId (wallClock w) = Some i
   /\ exists k, (k <= reads w)%nat /\ 1000 * n <= clock k - lastAccountedAt (wallClock w)).

Inductive move : World -> World -> Prop :=
| move_tick w : move w (tick w)
| move_call c w : move w (add_call c w)
| move_turn t w : move w (set_turn t w)
| move_usage us w : move w (set_usage us w)
| move_track i w : move w (set_wall (mkWall (clock (reads w)) (Some i)) (tick w))
| move_untrack t w : move w (set_wall (mkWall t None) w)
| move_charge s t n at_time w :
    goal_state w = Some s -> accounting (Some s) = true -> 0 <= t ->
    due_seconds w (goal_id (goal s)) n ->
    move w (store (Some (with_goal s (charge t n at_time (goal s))))
              (advance_wall n (goal_id (goal s)) w))
| move_status s st at_time w :
    goal_state w = Some s -> status_step (status (goal s)) st = true ->
    move w (store (Some (state_for (set_status st at_time (goal s)))) w)
| move_touch s at_time w :
    goal_state w = Some s -> accounting (Some s) = true ->
    move w (store (Some (with_goal s (set_status (status (goal s)) at_time (goal s)))) w)
| move_enable s w :
    goal_state w = Some s ->
    move w (store (Some (mkState (enabled s || bool_decide (status (goal s) = Active)) (mode s)
                           (completed s) (goal s))) w)
| move_new objective prov at_time w :
    move w (store (Some (state_for (mkGoal (snowflake (ids w)) objective Active 0 0 at_time at_time
                                      prov))) (take_id w))
| move_drop w : move w (store None w).

Definition moves : World -> World -> Prop := rtc move.

(** Moves that have left the goal alone so far. *)
Definition stays (w0 w : World) : Prop := moves w0 w /\ host_state w = host_state w0.

Lemma stays_refl w : stays w w.
Proof. by split; [apply rtc_refl|]. Qed.

Lemma stays_move w0 w w' : stays w0 w -> move w w' -> host_state w' = host_state w -> stays w0 w'.
Proof. intros [Hm Hh] Hw Hh'. split; [by eapply rtc_r|congruence]. Qed.

Lemma keeps_now w0 : keeps (stays w0) now.
Proof. intros w Hw. apply (stays_move w0 w); [done|constructor|done]. Qed.

Lemma keeps_host_call w0 c : keeps (stays w0) (host_call c).
Proof. intros w Hw. apply (stays_move w0 w); [done|constructor|done]. Qed.

Lemma keeps_track w0 i :
  keeps (stays w0) (t ← now; modify (set_wall (mkWall t (Some i)))).
Proof. intros w Hw. apply (stays_move w0 w); [done|constructor|done]. Qed.

Lemma keeps_untrack w0 t : keeps (stays w0) (modify (set_wall (mkWall t None)) : SM _ GoalError unit).
Proof. intros w Hw. apply (stays_move w0 w); [done|constructor|done]. Qed.

Lemma keeps_turn w0 t : keeps (stays w0) (modify (set_turn t) : SM _ GoalError unit).
Proof. intros w Hw. apply (stays_move w0 w); [done|constructor|done]. Qed.

Lemma keeps_clone w0 : keeps (stays w0) getStateClone.
Proof. by intros w. Qed.
End life.

#[export] Hint Resolve keeps_now keeps_host_call keeps_clone keeps_turn keeps_track keeps_untrack : keeps.

Section segments.
Context `{GoalHost}.

Lemma keeps_mark w0 g : keeps (stays w0) (markActiveAccounting g).
Proof.
  unfold markActiveAccounting. apply keeps_bind; [solve_keeps|]. intros w.
  apply keeps_bind; [case_match; eauto with keeps|]. intros _. solve_keeps.
Qed.

Lemma rebase_stays w0 current i w : stays w0 w -> stays w0 (rebase_turn current i w).
Proof.
  intros Hw. unfold rebase_turn. repeat case_match; try done.
  apply (stays_move w0 w); [done|constructor|done].
Qed.

Lemma keeps_clear w0 : keeps (stays w0) clearActiveAccounting.
Proof.
  unfold clearActiveAccounting. apply keeps_bind; [solve_keeps|]. intros t.
  apply keeps_bind; [solve_keeps|]. intros _. intros w Hw. unfold modify. cbn.
  case_match; [|done]. apply (stays_move w0 w); [done|constructor|done].
Qed.

(** Where a computation leads, whether it returns or throws. *)
Definition leads {A} (P : World -> Prop) (m : SM World GoalError A) (Q : World -> Prop) : Prop :=
  forall w, P w -> Q (fst (m w)).

Lemma leads_bind {A B} (P P' Q : World -> Prop) (m : SM World GoalError A) (k : A -> SM World GoalError B) :
  leads P m P' -> (forall w, P' w -> Q w) -> (forall a, leads P' (k a) Q) -> leads P (m ≫= k) Q.
Proof.
  intros Hm Hq Hk w Hw. unfold mbind, sm_bind. specialize (Hm w Hw).
  destruct (m w) as [w' [a|e]]; [by apply Hk|by apply Hq].
Qed.

(** A prefix that leaves the goal alone. *)
Lemma stays_bind {A B} w0 (m : SM World GoalError A) (k : A -> SM World GoalError B) :
  keeps (stays w0) m -> (forall a, leads (stays w0) (k a) (moves w0)) ->
  leads (stays w0) (m ≫= k) (moves w0).
Proof. intros Hm Hk. by eapply leads_bind; [exact Hm|intros w [Hw _]|exact Hk]. Qed.

Lemma stays_leads {A} w0 (m : SM World GoalError A) :
  keeps (stays w0) m -> leads (stays w0) m (moves w0).
Proof. intros Hm w Hw. apply (Hm w Hw). Qed.

Lemma keeps_moves_call w0 c : keeps (moves w0) (host_call c).
Proof. intros w Hw. eapply rtc_r; [exact Hw|constructor]. Qed.

(** A commit is the move that stores the state, then calls of the host. *)
Lemma commit_leads {A} w0 s p e (a : A) :
  leads (fun w => moves w0 (store s w)) (_ ← commitState s p e; mret a) (moves w0).
Proof.
  intros w Hw.
  enough (keeps (moves w0)
    (_ ← (_ ← match p with Some m => host_call (Persisted m s) | None => mret tt end;
          if e then host_call (GoalUpdated (goal <$> s) s) else mret tt); mret a)) as Hk
    by exact (Hk _ Hw).
  assert (forall c, keeps (moves w0) (host_call c)) by apply keeps_moves_call. solve_keeps.
Qed.

Lemma commit_leads_unit w0 s p e :
  leads (fun w => moves w0 (store s w)) (commitState s p e) (moves w0).
Proof.
  intros w Hw. pose proof (commit_leads w0 s p e tt w Hw) as Hc. unfold mbind, sm_bind in Hc.
  by destruct (commitState s p e w) as [? [?|?]].
Qed.

(** A commit of a state that the goal, still as it was, may move to. *)
Lemma stays_commit {A} w0 s p e (a : A) :
  (forall w, host_state w = host_state w0 -> move w (store s w)) ->
  leads (stays w0) (_ ← commitState s p e; mret a) (moves w0).
Proof.
  intros Hm w [Hw Hh]. apply commit_leads. eapply rtc_r; [exact Hw|]. by apply Hm.
Qed.

Lemma stays_commit_unit w0 s p e :
  (forall w, host_state w = host_state w0 -> move w (store s w)) ->
  leads (stays w0) (commitState s p e) (moves w0).
Proof.
  intros Hm w [Hw Hh]. apply commit_leads_unit. eapply rtc_r; [exact Hw|]. by apply Hm.
Qed.

Lemma goal_state_ext w w' : host_state w = host_state w' -> goal_state w = goal_state w'.
Proof. unfold goal_state. by intros ->. Qed.

(** ** The segments *)

Lemma goalTokenDelta_nonneg c b : 0 <= goalTokenDelta c b.
Proof. unfold goalTokenDelta. lia. Qed.

Lemma token_delta_nonneg c i w : 0 <= token_delta c i w.
Proof. unfold token_delta. repeat case_match; try lia. apply goalTokenDelta_nonneg. Qed.

(** The seconds of a flush are due. *)
Lemma floor_seconds_due (w : World) i t :
  wallGoalId (wallClock w) = Some i -> t = clock (reads w) ->
  due_seconds (tick w) i (Z.max 0 ((t - lastAccountedAt (wallClock w)) / 1000)).
Proof.
  intros Hi ->. set (d := clock (reads w) - _).
  pose proof (Z.mul_div_le d 1000 ltac:(lia)).
  destruct (Z.max_spec 0 (d / 1000)) as [[? ->]|[? ->]]; [right|by left].
  split_and!; [lia|done|]. exists (reads w). cbn. lia.
Qed.

Lemma due_seconds_ext w w' i n :
  wallClock w' = wallClock w -> (reads w <= reads w')%nat -> due_seconds w i n -> due_seconds w' i n.
Proof.
  intros E Hr [->|(Hn & Hi & k & Hk & Hd)]; [by left|right]. rewrite E.
  split_and!; [done|done|]. exists k. split; [lia|done].
Qed.

(** The end of a flush, once the tokens and the seconds are known. *)
Lemma flush_charges w0 s current t n w :
  goal_state w0 = Some s -> accounting (Some s) = true -> 0 <= t ->
  stays w0 w -> due_seconds w (goal_id (goal s)) n ->
  moves w0 (fst ((at_time ← now;
                  _ ← modify (rebase_turn current (goal_id (goal s)));
                  _ ← modify (advance_wall n (goal_id (goal s)));
                  commitState (Some (with_goal s (charge t n at_time (goal s))))
                    (Some PersistGoal) true) w)).
Proof.
  intros Es Ha Ht Hw Hd. set (i := goal_id (goal s)) in *.
  unfold mbind, sm_bind, now, modify. cbn [fst]. change (mkWorld _ _ _ _ _ _ _) with (tick w).
  apply commit_leads_unit.
  assert (stays w0 (rebase_turn current i (tick w))) as [Hm Hh].
  { apply rebase_stays. apply (keeps_now w0 w Hw). }
  eapply rtc_r; [exact Hm|]. apply move_charge; [|done|done|].
  - rewrite <- Es. by apply goal_state_ext.
  - eapply due_seconds_ext; [| |exact Hd]; unfold rebase_turn; repeat case_match; done || (cbn; lia).
Qed.

Lemma flush_moves cu w : moves w (fst (flush_segment cu w)).
Proof.
  unfold flush_segment. unfold mbind at 1, sm_bind at 1, get_state at 1.
  unfold mbind at 1, sm_bind at 1, getStateClone at 1.
  destruct (goal_state w) as [s|] eqn:Es; [|apply rtc_refl].
  destruct (accounting (Some s)) eqn:Ha; cbn [negb]; [|apply rtc_refl].
  case_match; [apply rtc_refl|]. set (delta := token_delta _ _ _).
  assert (0 <= delta) as Hd by apply token_delta_nonneg.
  unfold mbind at 1, sm_bind at 1.
  destruct (bool_decide (wallGoalId _ = _)) eqn:Ei.
  - apply bool_decide_eq_true in Ei. unfold mbind at 1, sm_bind at 1. cbn [now mret sm_ret].
    assert (stays w (tick w)) as Hw by (split; [by apply rtc_once; constructor|done]).
    change (mkWorld _ _ _ _ _ _ _) with (tick w).
    case_match; [apply Hw|]. apply flush_charges; [done..|]. by apply floor_seconds_due.
  - cbn [mret sm_ret]. case_match; [apply rtc_refl|].
    apply flush_charges; [done|done|done|apply stays_refl|by left].
Qed.
End segments.
#[export] Hint Resolve keeps_mark keeps_clear : keeps.

(** Every segment of a task, whatever the state it starts in, relates the states around it. *)
Fixpoint segments_in {A} (R : World -> World -> Prop) (t : Task A) : Prop :=
  match t with
  | Finish _ => True
  | Segment f => forall w, R w (fst (f w)) /\ segments_in R (snd (f w))
  end.

Lemma segments_bind {A B} R (t : Task A) (k : A -> Task B) :
  segments_in R t -> (forall a, segments_in R (k a)) -> segments_in R (t ≫= k).
Proof.
  intros Ht Hk. revert t Ht. fix go 1. intros [[a|e]|f] Ht; cbn; [apply Hk|done|].
  intros w. specialize (Ht w). specialize (go (snd (f w))).
  destruct (f w) as [w' t']. cbn in *. destruct Ht. split; [done|]. by apply go.
Qed.

Lemma segments_atomically {A} R (m : SM World GoalError A) :
  (forall w, R w (fst (m w))) -> segments_in R (atomically m).
Proof. intros Hm w. specialize (Hm w). cbn. by destruct (m w). Qed.

Lemma segments_void {A} R (t : Task A) : segments_in R t -> segments_in R (void t).
Proof. intros Ht. by apply segments_bind. Qed.

Section tasks.
Context `{GoalHost}.

(** A segment that reads the goal first. *)
Lemma clone_moves {A} (k : option (GoalModeState Goal) -> SM World GoalError A) w :
  leads (stays w) (k (goal_state w)) (moves w) -> moves w (fst ((s ← getStateClone; k s) w)).
Proof. intros Hk. apply Hk, stays_refl. Qed.

Lemma same_goal_state w0 w s : goal_state w0 = Some s -> host_state w = host_state w0 -> goal_state w = Some s.
Proof. intros <-. apply goal_state_ext. Qed.

(** The end of the segments that set the status. *)
Lemma status_commit {A} w0 s st at_time p (a : A) :
  goal_state w0 = Some s -> status_step (status (goal s)) st = true ->
  leads (stays w0)
    (_ ← commitState (Some (state_for (set_status st at_time (goal s)))) p true; mret a) (moves w0).
Proof.
  intros Es Hst. apply stays_commit. intros w Hh. apply move_status; [|done].
  by eapply same_goal_state.
Qed.

Lemma flush_segments cu : segments_in moves (flushUsageLocked cu).
Proof. apply segments_atomically, flush_moves. Qed.

Lemma drop_segments : segments_in moves dropGoalLocked.
Proof.
  apply segments_bind; [apply flush_segments|]. intros _. apply segments_bind.
  - apply segments_atomically. intros w. apply clone_moves, stays_leads. solve_keeps.
  - intros [g|]; [|done]. apply segments_atomically. intros w.
    apply commit_leads, rtc_once. constructor.
Qed.

Lemma pause_segments : segments_in moves pauseGoalLocked.
Proof.
  apply segments_bind; [apply flush_segments|]. intros _.
  apply segments_atomically. intros w. apply clone_moves.
  destruct (goal_state w) as [s|] eqn:Es; [|apply stays_leads; solve_keeps].
  case_match eqn:Ea; [apply stays_leads; solve_keeps|].
  apply negb_false_iff, bool_decide_eq_true in Ea.
  apply stays_bind; [solve_keeps|]. intros t. apply stays_bind; [solve_keeps|]. intros _.
  apply (status_commit w s Paused t); [done|]. by rewrite Ea.
Qed.

Lemma resume_segments : segments_in moves resumeGoalLocked.
Proof.
  apply segments_atomically. intros w. apply clone_moves.
  destruct (goal_state w) as [s|] eqn:Es; [|apply stays_leads; solve_keeps].
  case_match eqn:Ea; [apply stays_leads; solve_keeps|]. apply bool_decide_eq_false in Ea.
  apply stays_bind; [solve_keeps|]. intros t. apply stays_bind; [solve_keeps|]. intros _.
  apply (status_commit w s Active t); [done|]. by destruct (status (goal s)).
Qed.

Lemma complete_segments : segments_in moves completeGoalLocked.
Proof.
  apply segments_bind; [apply flush_segments|]. intros _.
  apply segments_atomically. intros w. apply clone_moves.
  destruct (goal_state w) as [s|] eqn:Es; [|apply stays_leads; solve_keeps].
  do 2 (case_match; [apply stays_leads; solve_keeps|]).
  do 2 match goal with E : bool_decide _ = false |- _ => apply bool_decide_eq_false in E end.
  apply stays_bind; [solve_keeps|]. intros t. apply stays_bind; [solve_keeps|]. intros _.
  apply (status_commit w s Complete t); [done|]. by destruct (status (goal s)).
Qed.

Lemma abort_segments : segments_in moves abortLocked.
Proof.
  apply segments_bind; [apply flush_segments|]. intros _. apply segments_atomically. intros w.
  apply (stays_bind w (modify (set_turn None))); [solve_keeps| |apply stays_refl]. intros _ w1 [Hm Hh].
  etrans; [exact Hm|]. apply clone_moves.
  destruct (goal_state w1) as [s|] eqn:Es; [|apply stays_leads; solve_keeps].
  destruct (accounting (Some s)) eqn:Ha; cbn [negb]; [|apply stays_leads; solve_keeps].
  apply stays_bind; [solve_keeps|]. intros t. apply stays_bind; [solve_keeps|]. intros _.
  apply stays_commit_unit. intros w2 Hh2. apply move_touch; [|done]. by eapply same_goal_state.
Qed.

(** Marking a goal does not look at what is stored. *)
Lemma mark_runs g w : markActiveAccounting g w = (fst (markActiveAccounting g w), Ok tt).
Proof.
  unfold markActiveAccounting, mbind, sm_bind, get_state, modify.
  by destruct (bool_decide (wallGoalId _ = _)).
Qed.

Lemma mark_store g s w :
  fst (markActiveAccounting g (store s w)) = store s (fst (markActiveAccounting g w)).
Proof.
  unfold markActiveAccounting, mbind, sm_bind, get_state, modify.
  change (wallClock (store s w)) with (wallClock w).
  by destruct (bool_decide (wallGoalId _ = _)).
Qed.

Lemma mark_moves g w : moves w (fst (markActiveAccounting g w)).
Proof. apply (keeps_mark w g w), stays_refl. Qed.

Lemma create_moves objective prov w :
  moves w (fst ((state ← createGoalState objective prov;
                 _ ← markActiveAccounting (goal state);
                 _ ← commitState (Some state) (Some PersistGoal) true;
                 mret state) w)).
Proof.
  unfold createGoalState, mbind, sm_bind. cbn -[markActiveAccounting commitState].
  set (w1 := tick w). set (g := mkGoal _ _ _ _ _ _ _ _).
  change (mkWorld _ _ _ _ _ _ _) with (take_id w1). rewrite mark_runs.
  apply (commit_leads w (Some (state_for g))). rewrite <- mark_store.
  etrans; [|apply mark_moves]. eapply rtc_l; [apply move_tick|]. apply rtc_once.
  apply (move_new objective prov (clock (reads w)) w1).
Qed.

Lemma create_segments objective prov : segments_in moves (createGoalLocked objective prov).
Proof.
  apply segments_atomically. intros w. apply clone_moves. apply stays_bind; [solve_keeps|]. intros _ w1 [Hm _]. etrans; [exact Hm|]. apply create_moves.
Qed.

Lemma replace_segments objective : segments_in moves (replaceGoalLocked objective).
Proof.
  intros w. destruct (hasAccountingState w) eqn:Ha; cbn; [|by split; [apply rtc_refl|]].
  pose proof (flush_moves None w) as Hf.
  destruct (flush_segment None w) as [w' r] eqn:Ef. split; [done|].
  destruct r as [a|e]; [|done]. apply segments_atomically. intros w2. apply create_moves.
Qed.

Lemma resumed_moves w : moves w (fst (onThreadResumed w)).
Proof.
  apply clone_moves. destruct (goal_state w) as [s|] eqn:Es; [|apply stays_leads; solve_keeps].
  cbv zeta. set (s' := if bool_decide _ then _ else s).
  apply stays_bind; [case_match; solve_keeps|]. intros _. apply stays_commit. intros w2 Hh.
  replace s' with (mkState (enabled s || bool_decide (status (goal s) = Active)) (mode s)
    (completed s) (goal s)).
  - apply move_enable. by eapply same_goal_state.
  - unfold s'. case_match; [by rewrite orb_true_r|]. rewrite orb_false_r. by destruct s.
Qed.

Lemma turn_start_moves turn us w : moves w (fst (onTurnStart turn us w)).
Proof.
  apply (stays_leads w (onTurnStart turn us)); [|apply stays_refl]. unfold onTurnStart.
  apply keeps_bind; [solve_keeps|]. intros _. apply keeps_bind; [solve_keeps|]. intros st.
  repeat case_match; eauto with keeps. apply keeps_bind; [solve_keeps|]. intros _.
  apply keeps_bind; [solve_keeps|]. intros w1. case_match; eauto with keeps.
Qed.

(** What a call does at once, and what it leaves to do. *)
Lemma enter_moves c w :
  moves w (fst (enter c w))
  /\ match snd (enter c w) with Some (t, _) => segments_in moves t | None => True end.
Proof.
  assert (moves w w /\ moves w (set_turn None w)) as [Hw Ht]
    by (split; [apply rtc_refl|by apply rtc_once; constructor]).
  destruct c; cbn [enter];
    repeat match goal with
    | |- context [if ?b then _ else _] => destruct b
    | |- context [match ?r with Ok _ => _ | Err _ => _ end] => destruct r
    end; cbn [fst snd];
    (split; [first [done|apply turn_start_moves|apply resumed_moves]|]);
    try done; try apply segments_void;
    first [apply flush_segments|apply abort_segments|apply create_segments|apply replace_segments
          |apply resume_segments|apply pause_segments|apply drop_segments|apply complete_segments].
Qed.

(** ** Runs *)

Definition tasks_ok (s : System) : Prop := Forall (fun t => segments_in moves (fst t)) (queue s).

Lemma step_moves s s' : tasks_ok s -> step s s' -> tasks_ok s' /\ moves (world s) (world s').
Proof.
  intros Hq Hs.
  destruct Hs as [c w q n w' E|c w q n w' [t b] E|w f b q n w' t' E|w b q n|w e b q n|w q n|w q n us];
    unfold tasks_ok in *; cbn in *.
  - pose proof (enter_moves c w) as [Ht _]. by rewrite E in Ht.
  - pose proof (enter_moves c w) as Ht. rewrite E in Ht. destruct Ht as [Ht Hseg].
    split; [|done]. apply Forall_app. by repeat constructor.
  - inversion_clear Hq as [|? ? Hf Hrest]. destruct (Hf w) as [Ht Hseg]. rewrite E in Ht, Hseg.
    split; [by constructor|done].
  - inversion_clear Hq. split; [done|apply rtc_refl].
  - inversion_clear Hq. split; [done|apply rtc_refl].
  - split; [done|by apply rtc_once; constructor].
  - split; [done|by apply rtc_once; constructor].
Qed.

(** The start of a session: nothing waits. *)
Definition idle (w : World) : System := mkSystem w [] 0.

Lemma run_moves w s : rtc step (idle w) s -> moves w (world s).
Proof.
  intros Hrun.
  enough (forall s1 s2, rtc step s1 s2 -> tasks_ok s1 -> moves (world s1) (world s2)) as Hgen.
  { apply (Hgen (idle w)); [done|constructor]. }
  clear. induction 1 as [|s1 s2 s3 Hst _ IH]; intros Hq; [apply rtc_refl|].
  destruct (step_moves _ _ Hq Hst) as [Hq2 Hm]. etrans; [exact Hm|by apply IH].
Qed.

(** An invariant of the moves is one of every run. *)
Lemma moves_invariant (P : World -> Prop) w s :
  (forall w1 w2, move w1 w2 -> P w1 -> P w2) -> P w -> rtc step (idle w) s -> P (world s).
Proof.
  intros HP Hw Hrun%run_moves. revert Hw. induction Hrun as [|w1 w2 w3 Hm _ IH]; eauto.
Qed.

(** ** The flags *)

Definition agree (w : World) : Prop :=
  match goal_state w with Some s => s = state_for (goal s) | None => True end.

Lemma goal_state_store s w : goal_state (store s w) = s.
Proof. destruct s as [s|]; [apply stored_state_is_read|done]. Qed.

Lemma move_agree w1 w2 : move w1 w2 -> agree w1 -> agree w2.
Proof.
  unfold agree. destruct 1; rewrite ?goal_state_store; try done.
  - rewrite H0. by intros ->.
  - rewrite H0. by intros ->.
  - rewrite H0. intros ->. unfold state_for. cbn. by rewrite orb_diag.
Qed.

(** At every point of every run, whatever is interleaved and whatever calls of the host throw,
    the stored flags agree with the status of the goal: it is enabled exactly when it is active, and
    it is on its way out, for the reason [completed], exactly when it is complete. *)
Theorem goal_states_agree w s : agree w -> rtc step (idle w) s -> agree (world s).
Proof. apply moves_invariant, move_agree. Qed.

(** ** The identity of a goal *)

Record carries (a b : Goal) : Prop := mkCarries {
  carries_objective : objective b = objective a;
  carries_created : createdAt b = createdAt a;
  carries_provenance : provenance b = provenance a;
  carries_tokens : tokensUsed a <= tokensUsed b;
  carries_time : timeUsedSeconds a <= timeUsedSeconds b;
  carries_complete : status a = Complete -> b = a
}.

Lemma carries_refl g : carries g g.
Proof. split; done || lia. Qed.

Lemma carries_trans a b c : carries a b -> carries b c -> carries a c.
Proof.
  intros [] []. split; try congruence; try lia.
  intros Hc. rewrite <- carries_complete0 by done. apply carries_complete1.
  by rewrite carries_complete0.
Qed.

(** The goals with the id of [g] that a run may still store are those that [g] may become. *)
Definition becomes (g : Goal) (w : World) : Prop :=
  (forall k, (ids w <= k)%nat -> snowflake k <> goal_id g)
  /\ forall s, goal_state w = Some s -> goal_id (goal s) = goal_id g -> carries g (goal s).

Lemma store_becomes g w s s' w' :
  becomes g w -> goal_state w = Some s -> goal_state w' = Some s' -> ids w' = ids w ->
  goal_id (goal s') = goal_id (goal s) -> carries (goal s) (goal s') -> becomes g w'.
Proof.
  intros [Hnew Hg] Es Es' Hids Hi Hc. split; [by rewrite Hids|].
  intros s1. rewrite Es'. intros [= <-] Hi1. eapply carries_trans; [|exact Hc].
  apply Hg; [done|congruence].
Qed.

Lemma due_seconds_nonneg w i n : due_seconds w i n -> 0 <= n.
Proof. intros [->|[? _]]; lia. Qed.

Lemma move_becomes g w1 w2 : move w1 w2 -> becomes g w1 -> becomes g w2.
Proof.
  destruct 1 as [w|c w|t w|us w|i w|t w|s t n a w Es Ha Ht Hn|s st a w Es Hst|s a w Es Ha|s w Es|o p a w|w];
    intros Hb; try exact Hb.
  - apply andb_true_iff in Ha as [_ Ha%bool_decide_eq_true]. apply due_seconds_nonneg in Hn.
    eapply store_becomes; [done|done|apply goal_state_store|unfold advance_wall; by case_match|done|].
    split; cbn; try done || lia. by rewrite Ha.
  - eapply store_becomes; [done|done|apply goal_state_store|done|done|].
    split; cbn; try done || lia. intros Hc. by rewrite Hc in Hst.
  - apply andb_true_iff in Ha as [_ Ha%bool_decide_eq_true].
    eapply store_becomes; [done|done|apply goal_state_store|done|done|].
    split; cbn; try done || lia. by rewrite Ha.
  - eapply store_becomes; [done|done|apply goal_state_store|done|done|apply carries_refl].
  - destruct Hb as [Hnew _]. split; [intros k Hk; apply Hnew; cbn in Hk; lia|].
    rewrite goal_state_store. intros s [= <-] Hi. by destruct (Hnew (ids w)).
  - destruct Hb as [Hnew _]. split; [done|]. by rewrite goal_state_store.
Qed.

(** C8. A goal keeps its identity through every interleaving: as long as a goal with its id is stored
    (ids of the future are new), it has the same objective, origin and creation time, the tokens and
    seconds charged to it never decrease, and once it is complete it does not change at all. *)
Theorem goal_life w s0 s s' :
  goal_state w = Some s0 ->
  (forall k, (ids w <= k)%nat -> snowflake k <> goal_id (goal s0)) ->
  rtc step (idle w) s ->
  goal_state (world s) = Some s' -> goal_id (goal s') = goal_id (goal s0) ->
  carries (goal s0) (goal s').
Proof.
  intros E0 Hnew Hrun.
  enough (becomes (goal s0) (world s)) as [_ Hb] by apply Hb.
  revert Hrun. apply moves_invariant; [apply move_becomes|]. split; [done|]. rewrite E0.
  intros ? [= <-] _. apply carries_refl.
Qed.
End tasks.
