(* ===== verification/GoalsLedger.v ===== *)
(** * What a goal is charged

    [time_is_bounded]: under any interleaving, the seconds charged to a goal are seconds that have
    passed.  For calls that do not interfere with each other the token accounts are exact: a flush
    settles what is owed ([flush_settles]), and over any history the tokens charged, owed and forfeited
    are the tokens spent while the goal was tracked ([ledger]).  They are forfeited where a baseline is
    set anew without a flush: at the start of a turn and on resumption. *)
From S2P Require Import Prelude Json Goals GoalsLife.
#[local] Open Scope Z_scope.
#[local] Open Scope js_scope.

Section time.
Context `{GoalHost}.
Hypothesis clock_mono : forall n, clock n <= clock (S n).

Lemma clock_le m n : (m <= n)%nat -> clock m <= clock n.
Proof. induction 1 as [|n _ IH]; [lia|]. specialize (clock_mono n). lia. Qed.

(** The moment up to which the time of the goal [i] is accounted for. *)
Definition since (i : jstr) (w : World) : Z :=
  if bool_decide (wallGoalId (wallClock w) = Some i) then lastAccountedAt (wallClock w)
  else clock (reads w).

Definition on_time (i : jstr) (start : Z) (w : World) : Prop :=
  since i w <= clock (reads w)
  /\ (forall k, (ids w <= k)%nat -> snowflake k <> i)
  /\ forall s, goal_state w = Some s -> goal_id (goal s) = i ->
       1000 * timeUsedSeconds (goal s) <= start + since i w.

(** Only the goal's seconds and the clock matter. *)
Lemma on_time_later i start w w' :
  on_time i start w -> goal_state w' = goal_state w -> (ids w <= ids w')%nat ->
  since i w <= since i w' -> since i w' <= clock (reads w') -> on_time i start w'.
Proof.
  intros (Hs & Hn & Hg) E Hi Hle Hle'. split_and!; [done|intros k Hk; apply Hn; lia|].
  intros s Es Ei. rewrite E in Es. specialize (Hg s Es Ei). lia.
Qed.

Lemma on_time_store i start w s s' :
  on_time i start w -> goal_state w = Some s -> goal_id (goal s') = goal_id (goal s) ->
  timeUsedSeconds (goal s') = timeUsedSeconds (goal s) -> on_time i start (store (Some s') w).
Proof.
  intros (Hs & Hn & Hg) Es Ei Et. split_and!; [done|done|].
  intros s1. rewrite goal_state_store. intros [= <-] Hi. rewrite Et. apply Hg; [done|congruence].
Qed.

Lemma on_time_charge i start w s t n a :
  on_time i start w -> goal_state w = Some s -> due_seconds w (goal_id (goal s)) n ->
  on_time i start (store (Some (with_goal s (charge t n a (goal s))))
                     (advance_wall n (goal_id (goal s)) w)).
Proof.
  intros Hot Es [->|(Hn0 & Hw & k & Hk & Hd)].
  { unfold advance_wall. rewrite andb_false_r. apply (on_time_store i start w s); [done|done|done|].
    cbn. lia. }
  pose proof (clock_le k (reads w) Hk). destruct Hot as (Hs & Hn & Hg).
  unfold advance_wall. rewrite Hw, bool_decide_eq_true_2 by done.
  rewrite (proj2 (Z.ltb_lt 0 n)) by done. cbn [andb].
  unfold on_time, since in *. rewrite Hw in *. cbn [wallClock store set_host_state set_wall wallGoalId
    reads ids lastAccountedAt] in *.
  split_and!; [case_bool_decide; cbn in *; lia|done|].
  intros s1. rewrite goal_state_store. intros [= <-] Hi. cbn in Hi |- *.
  specialize (Hg s Es Hi). rewrite Hi in *. rewrite bool_decide_eq_true_2 in * by done. lia.
Qed.

Lemma move_on_time i start w1 w2 : move w1 w2 -> on_time i start w1 -> on_time i start w2.
Proof.
  destruct 1 as [w|c w|t w|us w|j w|t w|s t n a w Es Ha Ht Hn|s st a w Es Hst|s a w Es Ha|s w Es|o p a w|w];
    intros Hot; try exact Hot.
  - pose proof (clock_mono (reads w)). destruct Hot as [Hs Hr].
    apply (on_time_later i start w); [done|done|done|..]; unfold since in *; cbn;
      case_bool_decide; lia.
  - pose proof (clock_mono (reads w)). destruct Hot as [Hs Hr].
    apply (on_time_later i start w); [done|done|done|..]; unfold since in *; cbn;
      repeat case_bool_decide; lia.
  - destruct Hot as [Hs Hr].
    apply (on_time_later i start w); [done|done|done|..]; unfold since in *; cbn;
      repeat case_bool_decide; lia || done.
  - by apply on_time_charge.
  - by eapply on_time_store.
  - by eapply on_time_store.
  - by eapply on_time_store.
  - destruct Hot as (Hs & Hn & Hg). split_and!; [done|intros k Hk; apply Hn; cbn in Hk; lia|].
    rewrite goal_state_store. intros s [= <-] Hi. by destruct (Hn (ids w)).
  - destruct Hot as (Hs & Hn & Hg). split_and!; [done|done|]. by rewrite goal_state_store.
Qed.
End time.

(** When the clock does not run backwards, then under any interleaving the seconds that are
    charged to a goal have passed since the moment up to which its time had been accounted for. *)
Theorem time_is_bounded `{GoalHost} w s0 s s' :
  (forall n, clock n <= clock (S n)) ->
  goal_state w = Some s0 -> since (goal_id (goal s0)) w <= clock (reads w) ->
  (forall k, (ids w <= k)%nat -> snowflake k <> goal_id (goal s0)) ->
  rtc step (idle w) s ->
  goal_state (world s) = Some s' -> goal_id (goal s') = goal_id (goal s0) ->
  1000 * (timeUsedSeconds (goal s') - timeUsedSeconds (goal s0))
    <= clock (reads (world s)) - since (goal_id (goal s0)) w.
Proof.
  intros Hmono E0 Hs Hnew Hrun Es' Ei. set (i := goal_id (goal s0)) in *.
  assert (on_time i (1000 * timeUsedSeconds (goal s0) - since i w) (world s)) as (Hle & _ & Hg).
  { revert Hrun. apply moves_invariant; [by apply move_on_time|]. split_and!; [done|done|].
    rewrite E0. intros ? [= <-] _. lia. }
  specialize (Hg s' Es' Ei). lia.
Qed.

(** ** Tokens, when calls do not interfere *)

Section ledger.
Context `{GoalHost}.

(** The tokens that a flush would charge, and those that have been charged. *)
Definition owed (w : World) : Z :=
  match goal_state w with
  | Some s => if accounting (Some s) then token_delta (usage w) (goal_id (goal s)) w else 0
  | None => 0
  end.

Definition charged (w : World) : Z :=
  match goal_state w with Some s => tokensUsed (goal s) | None => 0 end.

Definition usage_le (a b : GoalTokenUsage) : Prop :=
  input a <= input b /\ output a <= output b /\ cacheWrite a <= cacheWrite b.

(** Baselines are earlier counters. *)
Definition baseline_ok (w : World) : Prop :=
  match turnSnapshot w with Some t => usage_le (baselineUsage t) (usage w) | None => True end.

(** The stored goal has the id [i] and [n] tokens. *)
Definition holds_goal (i : jstr) (n : Z) (w : World) : Prop :=
  exists s, goal_state w = Some s /\ goal_id (goal s) = i /\ tokensUsed (goal s) = n.

Lemma usage_le_refl us : usage_le us us.
Proof. unfold usage_le. lia. Qed.

Lemma goalTokenDelta_self us : goalTokenDelta us us = 0.
Proof. unfold goalTokenDelta. lia. Qed.

(** All but the stored state and the calls stay as they are in a commit. *)
Lemma commit_frame s p e w :
  let w' := fst (commitState s p e w) in
  host_state w' = host_state (store s w) /\ usage w' = usage w /\ reads w' = reads w
  /\ turnSnapshot w' = turnSnapshot w /\ wallClock w' = wallClock w.
Proof.
  unfold commitState, mbind, sm_bind, modify, host_call.
  destruct p, e; cbn; repeat (case_match; cbn); simplify_eq; done.
Qed.

Lemma rebase_settles i w w' :
  turnSnapshot w' = turnSnapshot (rebase_turn (usage w) i w) -> usage w' = usage w ->
  token_delta (usage w') i w' = 0 /\ (baseline_ok w -> baseline_ok w').
Proof.
  unfold token_delta, baseline_ok, rebase_turn. intros -> ->.
  destruct (turnSnapshot w) as [t|] eqn:Et; [|by rewrite Et].
  case_bool_decide as Hi; cbn; [|rewrite Et; by rewrite bool_decide_eq_false_2].
  rewrite bool_decide_eq_true_2 by done. rewrite goalTokenDelta_self.
  split; [done|]. intros _. apply usage_le_refl.
Qed.

(** The whole seconds that a flush would charge. *)
Definition owed_seconds (i : jstr) (w : World) : Z :=
  if bool_decide (wallGoalId (wallClock w) = Some i)
  then Z.max 0 ((clock (reads w) - lastAccountedAt (wallClock w)) / 1000) else 0.

(** What a flush of the goal [s] leads to. *)
Record flushed (s : GoalModeState Goal) (w w' : World) : Prop := mkFlushed {
  flushed_goal : exists g, goal_state w' = Some (with_goal s g)
    /\ goal_id g = goal_id (goal s) /\ status g = status (goal s)
    /\ tokensUsed g = tokensUsed (goal s) + token_delta (usage w) (goal_id (goal s)) w
    /\ timeUsedSeconds g = timeUsedSeconds (goal s) + owed_seconds (goal_id (goal s)) w;
  flushed_usage : usage w' = usage w;
  flushed_turn : turnSnapshot w' = turnSnapshot (rebase_turn (usage w) (goal_id (goal s)) w)
    \/ (turnSnapshot w' = turnSnapshot w /\ token_delta (usage w) (goal_id (goal s)) w = 0);
  flushed_wall : wallClock w' =
    wallClock (advance_wall (owed_seconds (goal_id (goal s)) w) (goal_id (goal s)) w)
}.

Lemma nothing_flushed s w w' :
  goal_state w = Some s -> token_delta (usage w) (goal_id (goal s)) w = 0 ->
  owed_seconds (goal_id (goal s)) w = 0 ->
  goal_state w' = goal_state w -> usage w' = usage w -> turnSnapshot w' = turnSnapshot w ->
  wallClock w' = wallClock w -> flushed s w w'.
Proof.
  intros Es Ht Hn Eg Eu Et Ew. split; [|done|by right|].
  - exists (goal s). rewrite Eg, Es, Ht, Hn. split_and!; try done; [by destruct s|lia|lia].
  - rewrite Hn. unfold advance_wall. by rewrite andb_false_r.
Qed.

Lemma token_delta_foreign c i w : turn_goal w <> Some i -> token_delta c i w = 0.
Proof.
  unfold turn_goal, token_delta. destruct (turnSnapshot w) as [t|]; [|done]. cbn. intros Hi.
  by rewrite bool_decide_eq_false_2.
Qed.

Lemma advance_frame n i w :
  usage (advance_wall n i w) = usage w /\ turnSnapshot (advance_wall n i w) = turnSnapshot w.
Proof. unfold advance_wall. by case_match. Qed.

Lemma advance_ext n i w w' :
  wallClock w = wallClock w' -> wallClock (advance_wall n i w) = wallClock (advance_wall n i w').
Proof. unfold advance_wall. intros E. rewrite !E. by case_match. Qed.

Lemma rebase_frame us i w :
  usage (rebase_turn us i w) = usage w /\ wallClock (rebase_turn us i w) = wallClock w.
Proof. unfold rebase_turn. by repeat case_match. Qed.

Lemma rebase_ext us i w w' :
  turnSnapshot w = turnSnapshot w' ->
  turnSnapshot (rebase_turn us i w) = turnSnapshot (rebase_turn us i w').
Proof.
  unfold rebase_turn. intros E. rewrite <- E. destruct (turnSnapshot w) eqn:Et; [|congruence].
  case_match; [done|congruence].
Qed.

(** The second half of a flush, from the state after the clock was read for the seconds. *)
Lemma charge_flushed s w w1 t n :
  goal_state w = Some s -> token_delta (usage w) (goal_id (goal s)) w = t ->
  owed_seconds (goal_id (goal s)) w = n ->
  usage w1 = usage w -> turnSnapshot w1 = turnSnapshot w -> wallClock w1 = wallClock w ->
  flushed s w (fst ((at_time ← now;
                     _ ← modify (rebase_turn (usage w) (goal_id (goal s)));
                     _ ← modify (advance_wall n (goal_id (goal s)));
                     commitState (Some (with_goal s (charge t n at_time (goal s))))
                       (Some PersistGoal) true) w1)).
Proof.
  intros Es <- <- Eu Et Ew. unfold mbind, sm_bind, now, modify. cbn [fst].
  change (mkWorld _ _ _ _ _ _ _) with (tick w1).
  set (i := goal_id (goal s)). set (w2 := advance_wall _ i _).
  assert (usage w2 = usage w /\ turnSnapshot w2 = turnSnapshot (rebase_turn (usage w) i w)
          /\ wallClock w2 = wallClock (advance_wall (owed_seconds i w) i w)) as (Eu2 & Et2 & Ew2).
  { unfold w2. destruct (advance_frame (owed_seconds i w) i (rebase_turn (usage w) i (tick w1)))
      as [Eu1 Et1], (rebase_frame (usage w) i (tick w1)) as [Eu0 Ew0].
    rewrite Eu1, Et1, Eu0. split_and!; [done|by apply rebase_ext|].
    apply advance_ext. by rewrite Ew0. }
  set (s' := with_goal s _).
  destruct (commit_frame (Some s') (Some PersistGoal) true w2) as (Eh & Hu & _ & Ht & Hw).
  split; fold i; [|congruence|left; congruence|congruence].
  exists (goal s'). rewrite (goal_state_ext _ _ Eh), goal_state_store. by split_and!.
Qed.

Lemma flush_flushed cu s w :
  goal_state w = Some s -> accounting (Some s) = true -> default (usage w) cu = usage w ->
  flushed s w (fst (flush_segment cu w)).
Proof.
  intros Es Ha Hcu. unfold flush_segment. unfold mbind at 1, sm_bind at 1, get_state at 1.
  unfold mbind at 1, sm_bind at 1, getStateClone at 1. rewrite Es, Ha, Hcu. cbn [negb].
  pose proof (token_delta_nonneg (usage w) (goal_id (goal s)) w) as Hd.
  destruct (_ && _) eqn:Eno.
  { apply andb_true_iff in Eno as [Ht%negb_true_iff%bool_decide_eq_false Hw%negb_true_iff].
    apply nothing_flushed; try done; [by apply token_delta_foreign|].
    unfold owed_seconds. by rewrite Hw. }
  clear Eno. unfold mbind at 1, sm_bind at 1.
  destruct (bool_decide (wallGoalId _ = _)) eqn:Ei.
  - unfold mbind at 1, sm_bind at 1. cbn [now mret sm_ret].
    change (mkWorld _ _ _ _ _ _ _) with (tick w).
    assert (owed_seconds (goal_id (goal s)) w
            = Z.max 0 ((clock (reads w) - lastAccountedAt (wallClock w)) / 1000)) as En
      by (unfold owed_seconds; by rewrite Ei).
    destruct (_ && _) eqn:E0; [|by apply charge_flushed].
    apply nothing_flushed; try done; lia.
  - assert (owed_seconds (goal_id (goal s)) w = 0) as En by (unfold owed_seconds; by rewrite Ei).
    cbn [mret sm_ret]. destruct (_ && _) eqn:E0; [|by apply charge_flushed].
    apply nothing_flushed; try done; lia.
Qed.

Lemma flushed_flat s w w' :
  flushed s w w' -> token_delta (usage w') (goal_id (goal s)) w' = 0 /\ (baseline_ok w -> baseline_ok w').
Proof.
  intros [_ Eu [Et|[Et E0]] _]; [by apply rebase_settles|].
  unfold token_delta, baseline_ok in *. rewrite Eu, Et. split; [exact E0|done].
Qed.

Lemma owed_accounting w s :
  goal_state w = Some s -> accounting (Some s) = true ->
  owed w = token_delta (usage w) (goal_id (goal s)) w.
Proof. unfold owed. by intros -> ->. Qed.

(** A flush settles the account of the active goal: it charges the tokens that are owed, after
    which none are; and where the wall clock runs for the goal it charges whole seconds, moves the
    mark by exactly these, and leaves less than one. *)
Theorem flush_settles w s cu :
  goal_state w = Some s -> accounting (Some s) = true -> default (usage w) cu = usage w ->
  let w' := fst (flush_segment cu w) in
  exists s', goal_state w' = Some s' /\ goal_id (goal s') = goal_id (goal s)
    /\ tokensUsed (goal s') = tokensUsed (goal s) + owed w
    /\ owed w' = 0
    /\ (wallGoalId (wallClock w) = Some (goal_id (goal s)) ->
        lastAccountedAt (wallClock w) <= clock (reads w) ->
        1000 * (timeUsedSeconds (goal s') - timeUsedSeconds (goal s))
          = lastAccountedAt (wallClock w') - lastAccountedAt (wallClock w)
        /\ 0 <= clock (reads w) - lastAccountedAt (wallClock w') < 1000).
Proof.
  intros Es Ha Hcu w'. pose proof (flush_flushed cu s w Es Ha Hcu) as Hf. fold w' in Hf.
  destruct (flushed_flat s w w' Hf) as [H0 _].
  destruct Hf as [(g & Eg & Ei & Est & Et & En) _ _ Ew].
  exists (with_goal s g). rewrite (owed_accounting w s Es Ha). split_and!; try done.
  - rewrite (owed_accounting w' (with_goal s g)); [by rewrite <- H0, <- Ei|done|].
    unfold accounting, isAccountingStatus. cbn. by rewrite Est.
  - intros Hw Hle. rewrite Ew. cbn [goal with_goal]. rewrite En.
    unfold owed_seconds, advance_wall. rewrite Hw, bool_decide_eq_true_2 by done. cbn [andb].
    set (d := clock (reads w) - lastAccountedAt (wallClock w)) in *.
    pose proof (Z.div_mod d 1000 ltac:(lia)). pose proof (Z.mod_pos_bound d 1000 ltac:(lia)).
    pose proof (Z.div_pos d 1000 ltac:(lia) ltac:(lia)). rewrite (Z.max_r 0) by lia.
    case_match; cbn [wallClock set_wall lastAccountedAt]; lia.
Qed.

(** ** Histories *)

Inductive Happening :=
| Spent (d : GoalTokenUsage)
| Did (c : Call).

Definition add_usage (a b : GoalTokenUsage) : GoalTokenUsage :=
  mkUsage (input a + input b) (output a + output b) (cacheRead a + cacheRead b)
    (cacheWrite a + cacheWrite b).

Definition happen (w : World) (e : Happening) : World :=
  match e with Spent d => set_usage (add_usage (usage w) d) w | Did c => perform c w end.

(** Counters grow, the counters that the session passes are the current ones, and the goal stays:
    no goal is created, replaced or dropped. *)
Definition ordinary (w : World) (e : Happening) : Prop :=
  match e with
  | Spent d => 0 <= input d /\ 0 <= output d /\ 0 <= cacheWrite d
  | Did (OnTurnStart _ us) | Did (OnAgentEnd (Some us)) | Did (FlushUsage (Some us)) => us = usage w
  | Did (CreateGoal _ _) | Did (ReplaceGoal _) | Did DropGoal => False
  | Did _ => True
  end.

(** The goal is active and the turn is counted for it. *)
Definition tracked (w : World) : bool :=
  match goal_state w with
  | Some s => accounting (Some s) && bool_decide (turn_goal w = Some (goal_id (goal s)))
  | None => false
  end.

Definition earns (w : World) (e : Happening) : Z :=
  match e with
  | Spent d => if tracked w then input d + cacheWrite d + output d else 0
  | Did _ => 0
  end.

(** What is owed when the baseline is set anew without a flush. *)
Definition forfeits (w : World) (e : Happening) : Z :=
  match e with
  | Did (OnTurnStart _ _) | Did ResumeGoal | Did OnThreadResumed => owed w
  | _ => 0
  end.

Fixpoint totals (f : World -> Happening -> Z) (es : list Happening) (w : World) : Z :=
  match es with [] => 0 | e :: es' => f w e + totals f es' (happen w e) end.

Fixpoint all_ordinary (es : list Happening) (w : World) : Prop :=
  match es with [] => True | e :: es' => ordinary w e /\ all_ordinary es' (happen w e) end.

(** The accounts are those of the goal [i] with [n] tokens charged, and nothing is owed, in this
    state or in any state that the goal may be given. *)
Definition square (i : jstr) (n : Z) (us : GoalTokenUsage) (w : World) : Prop :=
  holds_goal i n w /\ token_delta (usage w) i w = 0 /\ baseline_ok w /\ usage w = us.

(** The accounts add up to [n]. *)
Definition balanced (n : Z) (us : GoalTokenUsage) (w : World) : Prop :=
  charged w + owed w = n /\ baseline_ok w /\ usage w = us.

Lemma square_balanced i n us w : square i n us w -> balanced n us w.
Proof.
  intros ((s & Es & Ei & En) & H0 & Hb & Hu). unfold balanced, charged, owed. rewrite Es.
  split_and!; [|done|done]. subst i. case_match; lia.
Qed.

Lemma square_ext i n us w w' :
  square i n us w -> host_state w' = host_state w -> turnSnapshot w' = turnSnapshot w ->
  usage w' = usage w -> square i n us w'.
Proof.
  unfold square, holds_goal, token_delta, baseline_ok, goal_state. by intros Hs -> -> ->.
Qed.

(** The goal and the counters, whatever the turn is counted for. *)
Definition holding (i : jstr) (n : Z) (us : GoalTokenUsage) (w : World) : Prop :=
  holds_goal i n w /\ baseline_ok w /\ usage w = us.

Lemma square_holding i n us w : square i n us w -> holding i n us w.
Proof. by intros (? & ? & ? & ?). Qed.

Lemma holding_now i n us : keeps (holding i n us) now.
Proof. by intros w. Qed.

Lemma turn_square i n us w w' t :
  holding i n us w -> host_state w' = host_state w -> usage w' = usage w ->
  turnSnapshot w' = Some t -> (turnGoalId t = None \/ baselineUsage t = usage w) ->
  usage_le (baselineUsage t) (usage w) -> square i n us w'.
Proof.
  intros (Hg & Hb & Hu) Eh Eu Et Hz Hle. unfold square, holds_goal, token_delta, baseline_ok, goal_state.
  rewrite Eh, Eu, Et. split_and!; try done. case_bool_decide as Hi; [|done].
  destruct Hz as [Hz|Hz]; [congruence|]. rewrite Hz. apply goalTokenDelta_self.
Qed.

Lemma no_turn_square i n us w : holding i n us w -> square i n us (set_turn None w).
Proof. by intros (Hg & Hb & Hu). Qed.

Lemma mark_square i n us g : leads (holding i n us) (markActiveAccounting g) (square i n us).
Proof.
  intros w Hw. unfold markActiveAccounting, mbind, sm_bind, get_state, modify.
  destruct (bool_decide (wallGoalId _ = _)); cbn [mret sm_ret now fst];
    destruct (turnSnapshot w) as [t|] eqn:Et; (eapply (turn_square i n us w); [done|done|done|..]);
    cbn; rewrite ?Et; try done; try (by right); apply usage_le_refl.
Qed.

Lemma clear_square i n us : leads (holding i n us) clearActiveAccounting (square i n us).
Proof.
  intros w Hw. unfold clearActiveAccounting, mbind, sm_bind, modify. cbn.
  destruct (turnSnapshot w) as [t|] eqn:Et.
  - eapply (turn_square i n us w); [done|done|done|done|by left|]. destruct Hw as (_ & Hb & _).
    unfold baseline_ok in Hb. by rewrite Et in Hb.
  - destruct Hw as (Hg & Hb & Hu). unfold square, token_delta, baseline_ok. cbn. by rewrite ?Et.
Qed.

Lemma commit_square i n us s p e :
  goal_id (goal s) = i -> tokensUsed (goal s) = n ->
  leads (square i n us) (commitState (Some s) p e) (square i n us).
Proof.
  intros Ei En w (Hg & H0 & Hb & Hu). destruct (commit_frame (Some s) p e w) as (Eh & Eu & _ & Et & _).
  unfold square, token_delta, baseline_ok, holds_goal. rewrite (goal_state_ext _ _ Eh), goal_state_store.
  rewrite Eu, Et. split_and!; [by exists s|exact H0|exact Hb|done].
Qed.

(** A segment that prepares the accounts and then commits. *)
Lemma commit_balanced {A} i n us (m : SM World GoalError unit) s p e (a : A) :
  leads (holding i n us) m (square i n us) ->
  goal_id (goal s) = i -> tokensUsed (goal s) = n ->
  leads (holding i n us) (_ ← m; _ ← commitState (Some s) p e; mret a) (balanced n us).
Proof.
  intros Hm Ei En. eapply leads_bind; [exact Hm|apply square_balanced|]. intros _.
  eapply leads_bind; [by apply commit_square|apply square_balanced|]. intros _ w Hw.
  by eapply square_balanced.
Qed.

Lemma balanced_holding n us w s :
  balanced n us w -> owed w = 0 -> goal_state w = Some s -> holding (goal_id (goal s)) n us w.
Proof.
  intros (Hc & Hb & Hu) H0 Es. split_and!; [|done|done]. exists s. split_and!; [done|done|].
  unfold charged in Hc. rewrite Es in Hc. lia.
Qed.

(** The state after a flush in the same calls. *)
Definition quits (n : Z) (us : GoalTokenUsage) (w : World) : Prop := balanced n us w /\ owed w = 0.

Lemma owed_idle w : hasAccountingState w = false -> owed w = 0.
Proof. unfold owed, hasAccountingState. destruct (goal_state w); [|done]. by intros ->. Qed.

Lemma flush_quits n us cu :
  default us cu = us -> leads (balanced n us) (flush_segment cu) (quits n us).
Proof.
  intros Hcu w (Hc & Hb & Hu). destruct (hasAccountingState w) eqn:Ha.
  - unfold hasAccountingState in Ha. destruct (goal_state w) as [s|] eqn:Es; [|done].
    destruct (flush_settles w s cu) as (s' & Es' & _ & En & H0 & _); [done|done|by rewrite Hu|].
    pose proof (flush_flushed cu s w Es Ha ltac:(by rewrite Hu)) as Hf.
    destruct (flushed_flat _ _ _ Hf) as [_ Hb']. unfold charged in Hc. rewrite Es in Hc.
    split; [split_and!|done]; [|by apply Hb'|by rewrite (flushed_usage _ _ _ Hf)].
    rewrite H0. unfold charged. rewrite Es', En. lia.
  - assert (fst (flush_segment cu w) = w) as ->; [|split; [done|by apply owed_idle]].
    unfold flush_segment, mbind, sm_bind, get_state, getStateClone.
    unfold hasAccountingState in Ha. destruct (goal_state w); [|done]. by rewrite Ha.
Qed.

(** ** The calls *)

Lemma leads_run_bind {A B} P P' Q (t : Task A) (k : A -> Task B) :
  leads P (run t) P' -> (forall w, P' w -> Q w) -> (forall a, leads P' (run (k a)) Q) ->
  leads P (run (t ≫= k)) Q.
Proof.
  intros Ht Hq Hk w Hw. rewrite run_bind. specialize (Ht w Hw).
  destruct (run t w) as [w' [a|e]]; [by apply Hk|by apply Hq].
Qed.

Lemma leads_atomically {A} P (m : SM World GoalError A) Q : leads P m Q -> leads P (run (atomically m)) Q.
Proof. intros Hm w Hw. rewrite run_atomically. by apply Hm. Qed.

Lemma leads_void {A} P Q (t : Task A) : leads P (run t) Q -> leads P (run (void t)) Q.
Proof. intros Ht. by eapply leads_run_bind; [exact Ht| |intros a w Hw]. Qed.

(** A body that flushes first. *)
Lemma flush_then {A} n us (k : unit -> Task A) :
  (forall a, leads (quits n us) (run (k a)) (balanced n us)) ->
  leads (balanced n us) (run (flushUsageLocked None ≫= k)) (balanced n us).
Proof.
  intros Hk. eapply leads_run_bind; [apply leads_atomically; by apply flush_quits| |exact Hk].
  by intros w [? _].
Qed.

(** A segment that reads the goal, and may do nothing more. *)
Lemma clone_quits {A} n us (k : option (GoalModeState Goal) -> SM World GoalError A) :
  leads (balanced n us) (k None) (balanced n us) ->
  (forall s, leads (fun w => goal_state w = Some s /\ quits n us w) (k (Some s)) (balanced n us)) ->
  leads (quits n us) (s ← getStateClone; k s) (balanced n us).
Proof.
  intros Hnone Hsome w [Hb H0].
  change (balanced n us (fst (k (goal_state w) w))).
  destruct (goal_state w) as [s|] eqn:Es; [by apply Hsome|by apply Hnone].
Qed.

Lemma quits_balanced n us w : quits n us w -> balanced n us w.
Proof. by intros [? _]. Qed.

Lemma quits_holding n us w s :
  goal_state w = Some s /\ quits n us w -> holding (goal_id (goal s)) n us w /\ tokensUsed (goal s) = n.
Proof.
  intros [Es [Hb H0]]. split; [by apply balanced_holding|]. destruct Hb as [Hc _].
  unfold charged in Hc. rewrite Es in Hc. lia.
Qed.

Lemma leads_now {A} (P Q : World -> Prop) (k : Z -> SM World GoalError A) :
  (forall w, P w -> P (tick w)) -> (forall t, leads P (k t) Q) -> leads P (t ← now; k t) Q.
Proof. intros HP Hk w Hw. apply (Hk (clock (reads w)) (tick w)). by apply HP. Qed.

(** The segments that set a status: the clock is read, the accounts are prepared, the goal is stored. *)
Lemma status_balanced {A} i n us (m : SM World GoalError unit) (st : Z -> GoalModeState Goal) p
    (a : Z -> A) :
  leads (holding i n us) m (square i n us) ->
  (forall t, goal_id (goal (st t)) = i /\ tokensUsed (goal (st t)) = n) ->
  leads (holding i n us)
    (t ← now; _ ← m; _ ← commitState (Some (st t)) p true; mret (a t)) (balanced n us).
Proof.
  intros Hm Hst. apply leads_now; [done|]. intros t. destruct (Hst t) as [Ei En].
  by eapply commit_balanced.
Qed.

Lemma throw_balanced {A} n us s e :
  leads (fun w => goal_state w = Some s /\ quits n us w) (throw e : SM World GoalError A) (balanced n us).
Proof. by intros w [_ [? _]]. Qed.

Lemma pause_balanced n us : leads (balanced n us) (run pauseGoalLocked) (balanced n us).
Proof.
  apply flush_then. intros _. apply leads_atomically, clone_quits; [by intros w Hw|]. intros s.
  case_match; [apply throw_balanced|]. intros w Hw.
  destruct (quits_holding _ _ _ _ Hw) as [Hh En].
  by apply (status_balanced (goal_id (goal s)) n us clearActiveAccounting); [apply clear_square| |].
Qed.

Lemma complete_balanced n us : leads (balanced n us) (run completeGoalLocked) (balanced n us).
Proof.
  apply flush_then. intros _. apply leads_atomically, clone_quits; [by intros w Hw|]. intros s.
  case_match; [apply throw_balanced|]. case_match; [apply throw_balanced|]. intros w Hw.
  destruct (quits_holding _ _ _ _ Hw) as [Hh En].
  by apply (status_balanced (goal_id (goal s)) n us clearActiveAccounting); [apply clear_square| |].
Qed.

Lemma set_turn_quits n us w : quits n us w -> quits n us (set_turn None w).
Proof.
  intros [(Hc & Hb & Hu) H0].
  assert (owed (set_turn None w) = 0) as H0'.
  { unfold owed, token_delta. cbn. by repeat case_match. }
  split; [|done]. split_and!; [|done|done]. rewrite H0'. rewrite H0 in Hc. exact Hc.
Qed.

Lemma abort_balanced n us : leads (balanced n us) (run abortLocked) (balanced n us).
Proof.
  apply flush_then. intros _. apply leads_atomically.
  eapply (leads_bind (quits n us) (quits n us)); [|by intros w [? _]|].
  { intros w Hw. by apply set_turn_quits. }
  intros _. apply clone_quits; [by intros w Hw|]. intros s.
  case_match; [by intros w [_ [? _]]|]. intros w Hw.
  destruct (quits_holding _ _ _ _ Hw) as [Hh En].
  revert w Hw Hh. enough (leads (holding (goal_id (goal s)) n us) (t ← now;
    let s' := with_goal s (set_status (status (goal s)) t (goal s)) in
    _ ← markActiveAccounting (goal s'); commitState (Some s') (Some PersistGoal) true) (balanced n us))
    as Hl by by intros w _ Hh; apply Hl.
  apply leads_now; [done|]. intros t. cbv zeta.
  eapply leads_bind; [apply mark_square|apply square_balanced|]. intros _ w Hw.
  eapply square_balanced. by apply (commit_square (goal_id (goal s)) n us).
Qed.

(** ** Setting the baseline anew *)

Lemma clone_then {A} (k : option (GoalModeState Goal) -> SM World GoalError A) (P : World -> Prop) w :
  P (fst (k (goal_state w) w)) -> P (fst ((s ← getStateClone; k s) w)).
Proof. done. Qed.

Lemma start_holding w s :
  goal_state w = Some s -> baseline_ok w -> holding (goal_id (goal s)) (charged w) (usage w) w.
Proof. intros Es Hb. split_and!; [|done|done]. exists s. unfold charged. by rewrite Es. Qed.

Lemma charged_tokens w s : goal_state w = Some s -> tokensUsed (goal s) = charged w.
Proof. unfold charged. by intros ->. Qed.

Lemma unchanged_balanced w : baseline_ok w -> owed w = 0 -> balanced (charged w) (usage w) w.
Proof. intros Hb H0. split_and!; [lia|done|done]. Qed.

Lemma resume_balanced w :
  baseline_ok w -> balanced (charged w) (usage w) (fst (run resumeGoalLocked w)).
Proof.
  intros Hb. unfold resumeGoalLocked. rewrite run_atomically. apply clone_then.
  destruct (goal_state w) as [s|] eqn:Es.
  - case_match eqn:Ec.
    + change (balanced (charged w) (usage w) w).
      apply unchanged_balanced; [done|]. apply bool_decide_eq_true in Ec.
      unfold owed. rewrite Es. unfold accounting, isAccountingStatus. rewrite Ec. by rewrite andb_false_r.
    + pose proof (start_holding w s Es Hb) as Hh. revert Hh.
      apply (status_balanced (goal_id (goal s)) (charged w) (usage w)
        (markActiveAccounting (set_status Active 0 (goal s)))
        (fun t => mkState true ModeActive false (set_status Active t (goal s)))); [apply mark_square|].
      intros t. split; [done|]. exact (charged_tokens w s Es).
  - change (balanced (charged w) (usage w) w).
    apply unchanged_balanced; [done|]. unfold owed. by rewrite Es.
Qed.

Lemma resumed_balanced w :
  baseline_ok w -> balanced (charged w) (usage w) (fst (onThreadResumed w)).
Proof.
  intros Hb. unfold onThreadResumed. apply clone_then.
  destruct (goal_state w) as [s|] eqn:Es; last first.
  { change (balanced (charged w) (usage w) w).
    apply unchanged_balanced; [done|]. unfold owed. by rewrite Es. }
  cbv zeta. set (s' := if bool_decide _ then _ else s).
  assert (goal s' = goal s) as Eg by (unfold s'; by case_match).
  pose proof (start_holding w s Es Hb) as Hh. revert Hh.
  apply (commit_balanced (goal_id (goal s)) (charged w) (usage w)); rewrite ?Eg; [|done|exact (charged_tokens w s Es)].
  case_match; [apply mark_square|apply clear_square].
Qed.

Lemma turn_start_balanced turn w :
  baseline_ok w -> balanced (charged w) (usage w) (fst (onTurnStart turn (usage w) w)).
Proof.
  intros Hb. unfold onTurnStart, mbind, sm_bind, modify, getStateClone, get_state.
  change (goal_state (set_turn _ w)) with (goal_state w).
  destruct (goal_state w) as [s|] eqn:Es.
  - pose proof (start_holding w s Es Hb) as Hh. apply (square_balanced (goal_id (goal s))).
    destruct (accounting (Some s)); [destruct (bool_decide (wallGoalId _ = _))|];
      (eapply turn_square;
        [exact Hh|reflexivity|reflexivity|reflexivity|by right|apply usage_le_refl]).
  - change (balanced (charged w) (usage w) (set_turn (Some (mkTurn turn (usage w) None)) w)).
    unfold balanced, charged, owed. change (goal_state (set_turn _ w)) with (goal_state w).
    rewrite Es. split_and!; [done|apply usage_le_refl|done].
Qed.

(** The end of a call that goes on under the lock. *)
Definition finish (t : Task unit) (ends_turn : bool) (w : World) : World :=
  match run t w with
  | (w', Ok _) => if ends_turn then set_turn None w' else w'
  | (w', Err _) => w'
  end.

Lemma finish_void {A} (t : Task A) w : finish (void t) false w = fst (run t w).
Proof.
  unfold finish, void. rewrite run_bind. by destruct (run t w) as [w' [a|e]].
Qed.

Lemma finish_leads P (t : Task unit) : leads P (run t) P -> forall w, P w -> P (finish t false w).
Proof. intros Ht w Hw. specialize (Ht w Hw). unfold finish. by destruct (run t w) as [w' [a|e]]. Qed.

Lemma flush_finish n us b :
  forall w, balanced n us w -> balanced n us (finish (flushUsageLocked (Some us)) b w).
Proof.
  intros w Hw. pose proof (leads_atomically _ _ _ (flush_quits n us (Some us) eq_refl) w Hw) as Hq.
  unfold finish, flushUsageLocked. destruct (run _ w) as [w' [a|e]]; cbn in Hq; destruct b;
    try apply Hq. apply quits_balanced. by apply set_turn_quits.
Qed.

(** Every call balances, less what it forfeits. *)
Lemma perform_balanced c w :
  ordinary w (Did c) -> baseline_ok w ->
  balanced (charged w + owed w - forfeits w (Did c)) (usage w) (perform c w).
Proof.
  intros Ho Hb.
  assert (balanced (charged w + owed w - 0) (usage w) w) as Hw by (split_and!; done || lia).
  assert (hasAccountingState w = false -> balanced (charged w + owed w - 0) (usage w) (set_turn None w))
    as Ht by (intros Ha; apply quits_balanced, set_turn_quits; split; [done|by apply owed_idle]).
  change (perform c w) with (match enter c w with
    | (w', None) => w' | (w', Some (t, b)) => finish t b w' end).
  destruct c as [turn us|name| |cu| | |cu|o p|o| | | |]; cbn [enter forfeits ordinary] in *; try done.
  - subst us. replace (_ - owed w) with (charged w) by lia. by apply turn_start_balanced.
  - destruct (_ || _); [exact Hw|]. by apply flush_finish.
  - destruct (negb _); [exact Hw|]. by apply flush_finish.
  - destruct (hasAccountingState w); cbn [negb]; [|by apply Ht].
    replace (flushUsage cu w) with (flushUsageLocked (Some (usage w))); [by apply flush_finish|].
    unfold flushUsage. destruct cu as [us|]; [by subst us|done].
  - destruct (hasAccountingState w); cbn [negb]; [|by apply Ht].
    revert Hw. apply finish_leads, abort_balanced.
  - replace (_ - owed w) with (charged w) by lia. by apply resumed_balanced.
  - replace (flushUsage cu w) with (flushUsageLocked (Some (usage w))); [by apply flush_finish|].
    unfold flushUsage. destruct cu as [us|]; [by subst us|done].
  - replace (_ - owed w) with (charged w) by lia. rewrite finish_void. by apply resume_balanced.
  - rewrite finish_void. revert Hw. apply pause_balanced.
  - rewrite finish_void. revert Hw. apply complete_balanced.
Qed.

Lemma owed_spent w d :
  0 <= input d /\ 0 <= output d /\ 0 <= cacheWrite d -> baseline_ok w ->
  owed (set_usage (add_usage (usage w) d) w) = owed w + earns w (Spent d).
Proof.
  intros Hd Hb. unfold owed, earns, tracked, token_delta, turn_goal, baseline_ok in *.
  change (goal_state (set_usage _ w)) with (goal_state w).
  destruct (goal_state w) as [s|]; [|done]. destruct (accounting (Some s)); [|done].
  cbn [set_usage turnSnapshot usage andb]. destruct (turnSnapshot w) as [t|]; [|done]. cbn [mbind option_bind].
  case_bool_decide; [|done].
  unfold goalTokenDelta, add_usage, usage_le in *. cbn. lia.
Qed.

(** C7. The ledger of a goal: over any history in which the counters only grow and the calls do not interfere with each other,
    are handed the current counters and neither create nor replace nor drop a goal, and whatever calls of the host throw, the
    tokens charged, owed and forfeited are those charged and owed before and those spent while the goal was tracked.  Tokens
    are forfeited only at a turn start or a resumption that finds tokens owed.  When calls interleave it does not hold:
    [GoalsDemo.late_flush_charges_twice]. *)
Theorem ledger es w :
  baseline_ok w -> all_ordinary es w ->
  charged (fold_left happen es w) + owed (fold_left happen es w) + totals forfeits es w
  = charged w + owed w + totals earns es w.
Proof.
  revert w. induction es as [|e es IH]; intros w Hb Ho; cbn [fold_left totals]; [lia|].
  destruct Ho as [He Ho]. destruct e as [d|c].
  - assert (baseline_ok (happen w (Spent d))) as Hb'.
    { unfold baseline_ok, usage_le in *. cbn in *. destruct (turnSnapshot w); cbn; lia || done. }
    specialize (IH _ Hb' Ho). pose proof (owed_spent w d He Hb) as Hs. cbn [happen forfeits] in *.
    change (charged (set_usage _ w)) with (charged w) in *. lia.
  - destruct (perform_balanced c w He Hb) as (Hc & Hb' & _). cbn [happen earns] in *.
    specialize (IH _ Hb' Ho). lia.
Qed.
End ledger.
