(* ===== verification/GoalsText.v ===== *)
(** * The objective inside a prompt: escapeXmlText and renderTrustedObjective

    An objective is text of the user that is put between tags.  [trusted_objective]: whatever it says,
    the only closing tag of the result is the one at its end, and the text between the tags unescapes
    to the objective. *)
From S2P Require Import Prelude Json Goals.
#[local] Open Scope Z_scope.
#[local] Open Scope js_scope.

(** ** The escape as a map over the units *)

Lemma escape_from_flat s out : escape_from s out = out ++ flat_map escape_unit s.
Proof.
  revert out. induction s as [|c s IH]; intros out; cbn; [by rewrite app_nil_r|].
  by rewrite IH, <- app_assoc.
Qed.

Lemma escape_plain c : escapable c = false -> escape_unit c = [c].
Proof.
  unfold escapable, escape_unit. intros [[-> ->]%orb_false_iff ->]%orb_false_iff. done.
Qed.

Lemma first_escapable_spec s i :
  0 <= i ->
  (first_escapable s i = -1 /\ Forall (fun c => escapable c = false) s)
  \/ exists pre c post, s = pre ++ c :: post /\ first_escapable s i = i + zlen pre
       /\ escapable c = true /\ Forall (fun c => escapable c = false) pre.
Proof.
  revert i. induction s as [|c s IH]; intros i Hi; cbn; [by left|].
  destruct (escapable c) eqn:Ec.
  - right. exists [], c, s. rewrite zlen_nil. split_and!; [done|lia|done|constructor].
  - destruct (IH (i + 1)) as [[-> Hf]|(pre & d & post & -> & -> & Hd & Hf)]; [lia|left|right].
    + split; [done|by constructor].
    + exists (c :: pre), d, post. rewrite zlen_cons. split_and!; [done|lia|done|by constructor].
Qed.

Lemma flat_map_plain s : Forall (fun c => escapable c = false) s -> flat_map escape_unit s = s.
Proof. induction 1 as [|c s Hc _ IH]; cbn; [done|]. by rewrite escape_plain, IH. Qed.

(** The scan for the first unit to escape is only a shortcut. *)
Lemma escapeXmlText_flat s : escapeXmlText s = flat_map escape_unit s.
Proof.
  unfold escapeXmlText.
  destruct (first_escapable_spec s 0) as [[-> Hf]|(pre & c & post & -> & -> & _ & Hf)]; [lia|..].
  - by rewrite flat_map_plain.
  - rewrite Z.add_0_l. pose proof (zlen_nonneg pre). rewrite (proj2 (Z.eqb_neq _ _)) by lia.
    rewrite escape_from_flat. unfold slice_from.
    rewrite !slice_spec by (rewrite ?zlen_app, ?zlen_cons; pose proof (zlen_nonneg post); lia).
    rewrite Z.sub_0_r. change (Z.to_nat 0) with 0%nat. rewrite drop_0.
    unfold zlen at 1 2 3 4. rewrite !Nat2Z.id, take_app_length, drop_app_length.
    rewrite take_ge by (rewrite length_app; cbn; lia).
    by rewrite flat_map_app, (flat_map_plain pre).
Qed.

(** ** Reading the text back *)

(** The three entities, and every other unit as itself. *)
Fixpoint unescape (s : jstr) : jstr :=
  match s with
  | 38 :: 97 :: 109 :: 112 :: 59 :: r => 38 :: unescape r
  | 38 :: 108 :: 116 :: 59 :: r => 60 :: unescape r
  | 38 :: 103 :: 116 :: 59 :: r => 62 :: unescape r
  | c :: r => c :: unescape r
  | [] => []
  end.

Lemma unescape_unit c s : unescape (escape_unit c ++ s) = c :: unescape s.
Proof.
  unfold escape_unit. repeat case_match; repeat match goal with
    | E : (_ =? _) = true |- _ => apply Z.eqb_eq in E; subst end; try reflexivity.
  cbn [app]. assert (c <> 38) as Hc by lia. clear -Hc.
  destruct c as [|p|p]; [done| |done].
  do 6 (try (destruct p as [p|p|]; [|..]; try done)); try done.
Qed.

Lemma unescape_escape s : unescape (escapeXmlText s) = s.
Proof.
  rewrite escapeXmlText_flat. induction s as [|c s IH]; [done|]. cbn. by rewrite unescape_unit, IH.
Qed.

(** ** No tag inside *)

Definition no_tag (s : jstr) : Prop := Forall (fun c => c <> 60 /\ c <> 62) s.

Lemma escaped_no_tag s : no_tag (escapeXmlText s).
Proof.
  rewrite escapeXmlText_flat. unfold no_tag. apply (Forall_flat_map_impl (fun _ => True)).
  - intros c _. unfold escape_unit. repeat case_match; try (by vm_compute; repeat constructor).
    constructor; [lia|constructor].
  - by apply Forall_true.
Qed.

Lemma starts_with_self p s : starts_with (p ++ s) p = true.
Proof. induction p as [|c p IH]; cbn; [by destruct s|]. by rewrite Z.eqb_refl. Qed.

Lemma find_from_here p s i : find_from (p ++ s) p i = i.
Proof. destruct (p ++ s) as [|c r] eqn:E; cbn [find_from]; rewrite <- E, starts_with_self; done. Qed.

(** Whatever the objective says, the first closing tag of the rendered block is the one at its end,
    so that nothing of the objective is read as text outside of it, and what stands between the tags
    unescapes to the objective. *)
Theorem trusted_objective o :
  let block := renderTrustedObjective o in
  let closing := index_of block (u "</objective>") 0 in
  closing = zlen block - 12
  /\ unescape (slice block 12 (closing - 1)) = o.
Proof.
  cbv zeta. set (body := escapeXmlText o).
  assert (renderTrustedObjective o
    = 60 :: (u "objective>" ++ [NL] ++ body ++ [NL]) ++ u "</objective>") as E
    by (unfold renderTrustedObjective; fold body; cbn -[body]; by rewrite <- app_assoc).
  assert (zlen (renderTrustedObjective o) = 25 + zlen body) as En.
  { rewrite E, zlen_cons, !zlen_app. change (zlen (u "objective>")) with 10.
    change (zlen [NL]) with 1. change (zlen (u "</objective>")) with 12. lia. }
  pose proof (zlen_nonneg body) as Hlen.
  assert (index_of (renderTrustedObjective o) (u "</objective>") 0 = 13 + zlen body) as Hi.
  { unfold index_of. rewrite clamp_id by lia. change (Z.to_nat 0) with 0%nat. rewrite drop_0, E.
    change (find_from ((u "objective>" ++ [NL] ++ body ++ [NL]) ++ u "</objective>")
              (u "</objective>") 1 = 13 + zlen body).
    change (u "</objective>") with (60 :: u "/objective>") at 2. rewrite find_from_skip.
    - change (60 :: u "/objective>") with (u "</objective>").
      rewrite <- (app_nil_r (u "</objective>")) at 1. rewrite find_from_here.
      rewrite !zlen_app. change (zlen (u "objective>")) with 10. change (zlen [NL]) with 1. lia.
    - apply Forall_app; split; [by vm_compute; repeat constructor|].
      apply Forall_app; split; [by repeat constructor|].
      apply Forall_app; split; [|by repeat constructor].
      eapply Forall_impl; [apply escaped_no_tag|]. by intros c [? _]. }
  rewrite Hi, En. split; [lia|]. rewrite slice_spec by lia.
  unfold renderTrustedObjective. fold body.
  replace (Z.to_nat 12) with (length (u "<objective>" ++ [NL])) by done.
  rewrite (app_assoc (u "<objective>")), drop_app_length.
  replace (Z.to_nat (13 + zlen body - 1 - 12)) with (length body) by (unfold zlen; lia).
  rewrite take_app_length. apply unescape_escape.
Qed.
