(* ===== verification/GoalsGuard.v ===== *)
(** * Repeated timeouts: CA/goals/continuation-timeout-guard.ts

    A goal is not continued when two turns in a row did nothing but run into the same timeout.  A turn
    is summed up by a fingerprint, the tool and the canonical text of its arguments.
    [same_key_iff]: two arguments have the same text exactly when they differ in nothing but the order
    of fields and what JSON does not show.  [repeated_timeouts_are_held] is the decision in terms of
    the calls that were made. *)
From S2P Require Import Prelude Json.
#[local] Open Scope Z_scope.
#[local] Open Scope js_scope.

Inductive ToolOutcomeKind := KTimeout | KSuccess | KOtherError.
#[export] Instance ToolOutcomeKind_eq : EqDecision ToolOutcomeKind.
Proof. solve_decision. Defined.

Record TimeoutToolOutcome := mkOutcome { toolName : jstr; argsKey : jstr; kind : ToolOutcomeKind }.

Record TimeoutHoldState := mkHold {
  heldSnapshotKey : option jstr;
  fingerprint : option jstr;
  streak : Z
}.

(** ** The canonical form of arguments *)

(** The names that an object lists first, in numerical order. *)
Definition is_index_key (k : jstr) : bool :=
  negb (bool_decide (k = [])) && forallb is_digit k
  && ((k ==s "0") || negb (starts_with k [48])) && (parse_dec k <? 4294967295).

(** The order of the own properties of an object whose properties were set in this order. *)
Definition own_order (fields : list (jstr * json)) : list (jstr * json) :=
  sort_by (fun kv => parse_dec (fst kv)) (List.filter (fun kv => is_index_key (fst kv)) fields)
  ++ List.filter (fun kv => negb (is_index_key (fst kv))) fields.

(** Setting the properties of a new object in the order of their names: to set [__proto__] makes no
    property. *)
Definition arrange (fields : list (jstr * json)) : list (jstr * json) :=
  own_order (sort_lines fst (List.filter (fun kv => negb (fst kv ==s "__proto__")) fields)).

Fixpoint canonicalizeArgs (value : json) : json :=
  match value with
  | JArr items => JArr (map canonicalizeArgs items)
  | JObj fields =>
      JObj (arrange (flat_map (fun kv =>
        if is_undefined (snd kv) then [] else [(fst kv, canonicalizeArgs (snd kv))]) fields))
  | _ => value
  end.

Definition canonicalArgsKey (args : json) : jstr :=
  stringify (canonicalizeArgs (match args with JUndefined => JNull | _ => args end)).

(** ** Outcomes *)

Definition toResultText (result : json) : jstr :=
  match result with
  | JStr s => s
  | JObj _ =>
      match json_get result (u "content") with
      | JArr content =>
          join_with [NL] (flat_map (fun c =>
            match json_get c (u "type"), json_get c (u "text") with
            | JStr ty, JStr text => if ty ==s "text" then [text] else []
            | _, _ => []
            end) content)
      | _ => []
      end
  | _ => []
  end.

Definition ascii_lower (c : jchar) : jchar := if is_upper c then c + 32 else c.

(** [/\bneedle\b/i] finds a match, for a needle that starts and ends with word characters;
    [after_word]: the unit before [s] is a word character. *)
Fixpoint mentions (needle : jstr) (after_word : bool) (s : jstr) : bool :=
  match s with
  | [] => false
  | c :: r =>
      (negb after_word && starts_with (map ascii_lower s) needle
       && negb (match drop (length needle) s with d :: _ => is_word d | [] => false end))
      || mentions needle (is_word c) r
  end.

Definition classifyToolOutcome (isError : json) (text : jstr) : ToolOutcomeKind :=
  match isError with
  | JBool true =>
      if mentions (u "timed out") false text || mentions (u "timeout") false text
      then KTimeout else KOtherError
  | _ => KSuccess
  end.

Definition turnTimeoutFingerprint (outcomes : list TimeoutToolOutcome) : option jstr :=
  match outcomes with
  | [] => None
  | first :: _ =>
      if existsb (fun o => negb (bool_decide (kind o = KTimeout))) outcomes then None
      else if existsb (fun o => negb (toolName o === toolName first)
                                || negb (argsKey o === argsKey first)) outcomes then None
      else Some (toolName first ++ [0] ++ argsKey first)
  end.

Definition decideTimeoutHold (prev : TimeoutHoldState) (turn : jstr * option jstr) :
    bool * TimeoutHoldState :=
  match snd turn with
  | None => (false, mkHold None None 0)
  | Some f =>
      let continues := (1 <=? streak prev) && (fingerprint prev === Some f)
                       && (heldSnapshotKey prev === Some (fst turn)) in
      let streak' := if continues then streak prev + 1 else 1 in
      (2 <=? streak', mkHold (Some (fst turn)) (Some f) streak')
  end.

(** ** Arrangement only moves fields *)

Definition on_snd (f : json -> json) (kv : jstr * json) : jstr * json := (fst kv, f (snd kv)).

Lemma sort_insert_map f kv l :
  sort_insert fst (on_snd f kv) (map (on_snd f) l) = map (on_snd f) (sort_insert fst kv l).
Proof. induction l as [|x l IH]; [done|]. cbn. case_match; cbn; [by rewrite IH|done]. Qed.

Lemma sort_lines_map f l : sort_lines fst (map (on_snd f) l) = map (on_snd f) (sort_lines fst l).
Proof.
  induction l as [|x l IH]; [done|]. unfold sort_lines in *. cbn [foldr map].
  by rewrite IH, sort_insert_map.
Qed.

Lemma filter_map_names f (p : jstr * json -> bool) l :
  (forall kv, p (on_snd f kv) = p kv) ->
  List.filter p (map (on_snd f) l) = map (on_snd f) (List.filter p l).
Proof.
  intros Hp. induction l as [|x l IH]; [done|]. cbn. rewrite Hp, IH. by case_match.
Qed.

Lemma insert_by_map f x l :
  insert_by (fun kv => parse_dec (fst kv)) (on_snd f x) (map (on_snd f) l)
  = map (on_snd f) (insert_by (fun kv => parse_dec (fst kv)) x l).
Proof.
  induction l as [|y l IH]; [done|]. cbn [insert_by map].
  change (fst (on_snd f x)) with (fst x). change (fst (on_snd f y)) with (fst y).
  destruct (_ <=? _); [done|]. cbn [map]. by rewrite IH.
Qed.

Lemma sort_by_map f l :
  sort_by (fun kv => parse_dec (fst kv)) (map (on_snd f) l)
  = map (on_snd f) (sort_by (fun kv => parse_dec (fst kv)) l).
Proof.
  induction l as [|x l IH]; [done|]. cbn [sort_by map]. by rewrite IH, insert_by_map.
Qed.

Lemma arrange_map f l : arrange (map (on_snd f) l) = map (on_snd f) (arrange l).
Proof.
  unfold arrange, own_order. rewrite filter_map_names by done.
  by rewrite sort_lines_map, !filter_map_names, sort_by_map, map_app.
Qed.

Lemma arrange_perm l :
  Permutation (arrange l) (List.filter (fun kv => negb (fst kv ==s "__proto__")) l).
Proof.
  unfold arrange, own_order.
  assert (forall l : list (jstr * json), Permutation
    (sort_by (fun kv => parse_dec (fst kv)) (List.filter (fun kv => is_index_key (fst kv)) l)
     ++ List.filter (fun kv => negb (is_index_key (fst kv))) l) l) as Hown.
  { clear l. intros l. rewrite sort_by_perm.
    induction l as [|x l IH]; [done|]. cbn. case_match; cbn; [by rewrite IH|].
    rewrite <- Permutation_middle. by rewrite IH. }
  by rewrite Hown, sort_lines_perm.
Qed.

Lemma arrange_in l kv : kv ∈ arrange l -> kv ∈ l.
Proof.
  rewrite arrange_perm, !list_elem_of_In. intros [Hkv _]%filter_In. done.
Qed.

(** ** The normal form behind the canonical text *)

Definition defined (kv : jstr * json) : bool := negb (is_undefined (snd kv)).

Fixpoint normal (v : json) : json :=
  match v with
  | JUndefined => JNull
  | JArr items => JArr (map normal items)
  | JObj fields =>
      JObj (arrange (flat_map (fun kv =>
        if is_undefined (snd kv) then [] else [(fst kv, normal (snd kv))]) fields))
  | _ => v
  end.

Lemma entries_map f fields :
  flat_map (fun kv => if is_undefined (snd kv) then [] else [(fst kv, f (snd kv))]) fields
  = map (on_snd f) (List.filter defined fields).
Proof.
  induction fields as [|[k v] l IH]; [done|]. cbn. unfold defined at 1. cbn.
  destruct (is_undefined v); cbn; by rewrite IH.
Qed.

Lemma normal_fields fields :
  normal (JObj fields) = JObj (map (on_snd normal) (arrange (List.filter defined fields))).
Proof. cbn [normal]. by rewrite entries_map, arrange_map. Qed.

Lemma canonical_fields fields :
  canonicalizeArgs (JObj fields)
  = JObj (map (on_snd canonicalizeArgs) (arrange (List.filter defined fields))).
Proof. cbn [canonicalizeArgs]. by rewrite entries_map, arrange_map. Qed.

(** The fields that count. *)
Lemma arranged_field fields kv :
  kv ∈ arrange (List.filter defined fields) -> kv ∈ fields /\ is_undefined (snd kv) = false.
Proof.
  intros Hkv%arrange_in. rewrite list_elem_of_In in Hkv. apply filter_In in Hkv as [Hin Hd].
  split; [by apply list_elem_of_In|]. unfold defined in Hd. by destruct (is_undefined _).
Qed.

Lemma canonical_defined v : is_undefined v = false -> is_undefined (canonicalizeArgs v) = false.
Proof. by destruct v. Qed.

Lemma normal_defined v : is_undefined (normal v) = false.
Proof. by destruct v. Qed.

Lemma flat_map_ext_in {A B} (f g : A -> list B) l : (forall x, x ∈ l -> f x = g x) -> flat_map f l = flat_map g l.
Proof.
  induction l as [|x l IH]; intros Hfg; [done|]. cbn.
  rewrite (Hfg x) by apply list_elem_of_here. f_equal. apply IH. intros y Hy.
  by apply Hfg, list_elem_of_further.
Qed.

Lemma map_ext_elem {A B} (f g : A -> B) l : (forall x, x ∈ l -> f x = g x) -> map f l = map g l.
Proof. intros Hfg. apply map_ext_in. intros x Hx. by apply Hfg, list_elem_of_In. Qed.

Lemma flat_map_map {A B C} (f : B -> list C) (g : A -> B) l : flat_map f (map g l) = flat_map (fun x => f (g x)) l.
Proof. induction l as [|x l IH]; [done|]. cbn. by rewrite IH. Qed.

Lemma stringify_normal v : stringify (canonicalizeArgs v) = stringify (normal v).
Proof.
  induction v as [| |b|n|s|items IH|fields IH] using json_induction; try done.
  - cbn [canonicalizeArgs normal stringify]. rewrite !map_map. do 3 f_equal.
    apply map_ext_elem. intros x Hx. rewrite Forall_forall in IH. by apply IH.
  - rewrite canonical_fields, normal_fields. cbn [stringify]. rewrite !flat_map_map. do 3 f_equal.
    apply flat_map_ext_in. intros [k v] [Hin Hd]%arranged_field. cbn in *.
    rewrite canonical_defined, normal_defined by done. rewrite Forall_forall in IH.
    specialize (IH (k, v) Hin). cbn in IH. by rewrite IH.
Qed.

(** Values as a program has them: strings of units, and a name names one field. *)
Fixpoint wf_json (v : json) : bool :=
  match v with
  | JStr s => forallb is_unit s
  | JArr items => forallb wf_json items
  | JObj fields =>
      bool_decide (NoDup (map fst fields))
      && forallb (fun kv => forallb is_unit (fst kv) && wf_json (snd kv)) fields
  | _ => true
  end.

Lemma wf_field fields kv :
  wf_json (JObj fields) = true -> kv ∈ fields ->
  forallb is_unit (fst kv) = true /\ wf_json (snd kv) = true.
Proof.
  intros [_ Hf]%andb_true_iff Hin. by apply andb_true_iff, (forallb_elem _ _ _ Hf Hin).
Qed.

Lemma plain_normal v : wf_json v = true -> plain (normal v) = true.
Proof.
  induction v as [| |b|n|s|items IH|fields IH] using json_induction; intros Hv; try done.
  - cbn [normal plain]. apply forallb_Forall, Forall_map. rewrite Forall_forall in IH |- *.
    intros x Hx. apply IH; [done|]. by apply (forallb_elem wf_json items).
  - rewrite normal_fields. cbn [plain]. apply forallb_Forall, Forall_map. rewrite Forall_forall in IH |- *.
    intros kv [Hin _]%arranged_field. destruct (wf_field _ _ Hv Hin) as [Hk Hw]. cbn.
    rewrite Hk. by apply IH.
Qed.

Lemma key_normal args : canonicalArgsKey args = stringify (normal args).
Proof. unfold canonicalArgsKey. rewrite stringify_normal. by destruct args. Qed.

(** ** When two arguments have the same key *)

(** Values that JSON shows alike, up to the order of fields: an [undefined] item is shown as [null], an
    [undefined] field and one with the name [__proto__] not at all. *)
Inductive same : json -> json -> Prop :=
| same_refl v : same v v
| same_sym v v' : same v v' -> same v' v
| same_trans v1 v2 v3 : same v1 v2 -> same v2 v3 -> same v1 v3
| same_hole : same JUndefined JNull
| same_item a v v' b : same v v' -> same (JArr (a ++ v :: b)) (JArr (a ++ v' :: b))
| same_value a k v v' b :
    is_undefined v = false -> is_undefined v' = false -> same v v' ->
    same (JObj (a ++ (k, v) :: b)) (JObj (a ++ (k, v') :: b))
| same_order f f' : NoDup (map fst f) -> Permutation f f' -> same (JObj f) (JObj f')
| same_unseen a k v b :
    is_undefined v = true \/ k = u "__proto__" ->
    same (JObj (a ++ (k, v) :: b)) (JObj (a ++ b)).

Lemma str_lt_antisym a b : str_lt a b = false -> str_lt b a = false -> a = b.
Proof.
  revert b. induction a as [|x a IH]; intros [|y b]; cbn; try done.
  intros [H1 H2]%orb_false_iff [H3 H4]%orb_false_iff.
  assert (x = y) as -> by lia. rewrite Z.eqb_refl in *. f_equal. by apply IH.
Qed.

Lemma same_names_same (l : list (jstr * json)) x y :
  NoDup (map fst l) -> x ∈ l -> y ∈ l -> fst x = fst y -> x = y.
Proof.
  intros Hnd Hx Hy E. apply list_elem_of_lookup in Hx as [i Hi], Hy as [j Hj].
  assert (i = j) as ->; [|congruence].
  eapply (NoDup_lookup (map fst l)); [done|by rewrite list_lookup_fmap, Hi|by rewrite list_lookup_fmap, Hj, E].
Qed.

Lemma sorted_unique (l l' : list (jstr * json)) :
  NoDup (map fst l) -> Permutation l l' ->
  StronglySorted (sort_le fst) l -> StronglySorted (sort_le fst) l' -> l = l'.
Proof.
  revert l'. induction l as [|x l IH]; intros l' Hnd Hp Hs Hs'.
  { by apply Permutation_nil_l in Hp. }
  destruct l' as [|y l']; [by apply Permutation_nil_r in Hp|].
  assert (x = y) as ->.
  { inversion_clear Hs as [|? ? _ Hx]. inversion_clear Hs' as [|? ? _ Hy].
    assert (y ∈ x :: l) as [->|Hyl]%elem_of_cons by (rewrite Hp; apply list_elem_of_here); [done|].
    assert (x ∈ y :: l') as [->|Hxl]%elem_of_cons by (rewrite <- Hp; apply list_elem_of_here); [done|].
    rewrite Forall_forall in Hx, Hy. specialize (Hx y Hyl). specialize (Hy x Hxl).
    apply (same_names_same (x :: l)); [done|apply list_elem_of_here|by apply list_elem_of_further|].
    by apply str_lt_antisym. }
  f_equal. apply IH; [by inversion Hnd|by apply Permutation_cons_inv in Hp|by inversion Hs|by inversion Hs'].
Qed.

Lemma filter_perm {A} (p : A -> bool) l l' :
  Permutation l l' -> Permutation (List.filter p l) (List.filter p l').
Proof. induction 1; cbn; repeat case_match; eauto using Permutation. Qed.

Lemma filter_names (p : jstr * json -> bool) f :
  NoDup (map fst f) -> NoDup (map fst (List.filter p f)).
Proof.
  induction f as [|x f IH]; intros Hnd; cbn; [constructor|].
  inversion_clear Hnd as [|? ? Hx Hnd']. case_match; [|by apply IH]. cbn. constructor; [|by apply IH].
  rewrite list_elem_of_In, in_map_iff. intros (z & Ez & [Hz _]%filter_In). apply Hx.
  rewrite list_elem_of_In, in_map_iff. by exists z.
Qed.

Lemma arrange_order f f' : NoDup (map fst f) -> Permutation f f' -> arrange f = arrange f'.
Proof.
  intros Hnd Hp. unfold arrange. f_equal. set (p := fun kv => negb (fst kv ==s "__proto__")).
  assert (Permutation (List.filter p f) (List.filter p f')) as Hf by by apply filter_perm.
  apply sorted_unique; [|by rewrite !sort_lines_perm|apply sort_lines_sorted..].
  rewrite sort_lines_perm. by apply filter_names.
Qed.

Lemma unseen_field a k v b :
  is_undefined v = true \/ k = u "__proto__" ->
  arrange (List.filter defined (a ++ (k, v) :: b)) = arrange (List.filter defined (a ++ b)).
Proof.
  intros Hk. unfold arrange. do 2 f_equal. induction a as [|x a IH]; cbn [app List.filter].
  - unfold defined at 1. cbn [snd]. destruct Hk as [-> | ->]; [done|]. by destruct (is_undefined v).
  - destruct (defined x); cbn [List.filter]; [|done]. by rewrite IH.
Qed.

Lemma same_normal v v' : same v v' -> normal v = normal v'.
Proof.
  induction 1 as [|? ? _ IH|? ? ? _ IH1 _ IH2| |a v v' b _ IH|a k v v' b Hv Hv' _ IH|f f' Hnd Hp|a k v b Hk];
    try done; try congruence.
  - cbn [normal]. by rewrite !map_app, !map_cons, IH.
  - cbn [normal]. rewrite !flat_map_app. cbn. by rewrite Hv, Hv', IH.
  - rewrite !normal_fields. do 2 f_equal. apply arrange_order; [|].
    + by apply filter_names.
    + by apply filter_perm.
  - by rewrite !normal_fields, unseen_field.
Qed.

Lemma same_items_at pre l l' : Forall2 same l l' -> same (JArr (pre ++ l)) (JArr (pre ++ l')).
Proof.
  intros Hl. revert pre. induction Hl as [|v v' l l' Hv _ IH]; intros pre; [apply same_refl|].
  eapply same_trans; [by apply (same_item pre v v' l)|].
  specialize (IH (pre ++ [v'])). by rewrite <- !app_assoc in IH.
Qed.

Lemma same_values_at pre l :
  Forall (fun kv => is_undefined (snd kv) = false /\ same (snd kv) (normal (snd kv))) l ->
  same (JObj (pre ++ l)) (JObj (pre ++ map (on_snd normal) l)).
Proof.
  intros Hl. revert pre. induction Hl as [|[k v] l [Hv Hs] _ IH]; intros pre; [apply same_refl|].
  eapply same_trans; [apply (same_value pre k v (normal v) l); [done|apply normal_defined|done]|].
  specialize (IH (pre ++ [(k, normal v)])). by rewrite <- !app_assoc in IH.
Qed.

Lemma same_shown pre l :
  same (JObj (pre ++ l))
    (JObj (pre ++ List.filter (fun kv => negb (fst kv ==s "__proto__")) (List.filter defined l))).
Proof.
  revert pre. induction l as [|[k v] l IH]; intros pre; [apply same_refl|]. cbn.
  unfold defined at 1. cbn. destruct (is_undefined v) eqn:Ev; cbn.
  { eapply same_trans; [apply same_unseen; by left|apply IH]. }
  case_bool_decide as Hk; cbn.
  { eapply same_trans; [apply same_unseen; by right|apply IH]. }
  specialize (IH (pre ++ [(k, v)])). by rewrite <- !app_assoc in IH.
Qed.

Lemma normal_same v : wf_json v = true -> same v (normal v).
Proof.
  induction v as [| |b|n|s|items IH|fields IH] using json_induction; intros Hv; try apply same_refl.
  - apply same_hole.
  - apply (same_items_at []). cbn [normal]. rewrite Forall_forall in IH.
    apply Forall2_fmap_r, Forall_Forall2_diag, Forall_forall. intros x Hx.
    apply IH; [done|]. by apply (forallb_elem wf_json items).
  - rewrite normal_fields. eapply same_trans; [apply (same_shown [])|]. cbn [app].
    set (shown := List.filter _ (List.filter defined fields)).
    assert (NoDup (map fst shown)) as Hnd.
    { do 2 apply filter_names. apply andb_true_iff in Hv as [Hnd _]. by apply bool_decide_eq_true in Hnd. }
    eapply same_trans; [apply same_order; [done|symmetry; apply arrange_perm]|].
    apply (same_values_at []). rewrite Forall_forall in IH |- *. intros kv [Hin Hd]%arranged_field.
    split; [done|]. apply IH; [done|]. by apply (wf_field fields).
Qed.

(** Two arguments have the same canonical key exactly when JSON shows them alike up to the order of
    fields, at any depth. *)
Theorem same_key_iff a b :
  wf_json a = true -> wf_json b = true -> canonicalArgsKey a = canonicalArgsKey b <-> same a b.
Proof.
  intros Ha Hb. rewrite !key_normal. split; [|by intros ->%same_normal].
  intros E. destruct (stringify_inj (normal a) (normal b) [] []) as [En _];
    [by apply plain_normal|by apply plain_normal|done|done|by rewrite !app_nil_r|].
  eapply same_trans; [by apply normal_same|]. rewrite En. by apply same_sym, normal_same.
Qed.

(** ** Fingerprints *)

Definition clean (s : jstr) : Prop := Forall (fun c => c <> 0) s.

Lemma clean_app a b : clean a -> clean b -> clean (a ++ b).
Proof. intros Ha Hb. by apply Forall_app. Qed.

Lemma clean_escape c : clean (unit_escape c).
Proof.
  unfold unit_escape. apply clean_app; [by vm_compute; repeat constructor|].
  apply Forall_map, Forall_forall. intros k _. unfold hex_digit.
  pose proof (Z.mod_pos_bound (Z.shiftr c k) 16 ltac:(lia)). case_match; lia.
Qed.

Lemma clean_unit c : clean (quote_unit c).
Proof.
  unfold quote_unit. repeat (case_match; [by vm_compute; repeat constructor|]).
  case_match; [apply clean_escape|]. constructor; [lia|constructor].
Qed.

Lemma clean_body s : clean (quote_body s).
Proof.
  remember (length s) as n eqn:En. revert s En. induction (lt_wf n) as [n _ IH]. intros s ->.
  destruct s as [|c s]; [constructor|]. pose proof (IH (length s) ltac:(cbn; lia) s eq_refl) as IHs.
  cbn [quote_body]. unfold is_high, is_low in *.
  case_match eqn:Eh; [|case_match; [by apply clean_app; [apply clean_escape|]|by apply clean_app; [apply clean_unit|]]].
  destruct s as [|d s]; [apply clean_escape|]. case_match eqn:El; [|by apply clean_app; [apply clean_escape|]].
  constructor; [lia|]. constructor; [lia|]. apply (IH (length s)); [cbn; lia|done].
Qed.

Lemma clean_quote s : clean (json_quote s).
Proof.
  unfold json_quote. apply clean_app; [by repeat constructor|]. apply clean_app; [apply clean_body|].
  by repeat constructor.
Qed.

Lemma clean_join ls : Forall clean ls -> clean (join_with [44] ls).
Proof.
  induction 1 as [|l ls Hl Hls IH]; [constructor|]. cbn. destruct ls; [done|].
  apply clean_app; [done|]. by constructor.
Qed.

Lemma clean_wrap a s b : a <> 0 -> b <> 0 -> clean s -> clean ([a] ++ s ++ [b]).
Proof. intros Ha Hb Hs. constructor; [done|]. apply clean_app; [done|by repeat constructor]. Qed.

(** The text of a value has no unit 0. *)
Lemma clean_stringify v : clean (stringify v).
Proof.
  induction v as [| |b|n|s|items IH|fields IH] using json_induction; cbn [stringify].
  - by vm_compute; repeat constructor.
  - by vm_compute; repeat constructor.
  - by destruct b; vm_compute; repeat constructor.
  - eapply Forall_impl; [apply num_to_str_chars|]. by intros c Hc ->.
  - apply clean_quote.
  - apply clean_wrap; [done|done|]. by apply clean_join, Forall_map.
  - apply clean_wrap; [done|done|]. apply clean_join. eapply Forall_flat_map_impl; [|exact IH].
    intros [k v] Hv. cbn [fst snd] in *. destruct (is_undefined v); [constructor|].
    constructor; [|constructor]. apply clean_app; [apply clean_quote|]. by constructor.
Qed.

Lemma fingerprint_inj n n' k k' :
  clean k -> clean k' -> n ++ [0] ++ k = n' ++ [0] ++ k' -> n = n' /\ k = k'.
Proof.
  intros Hk Hk' E. apply (f_equal (@rev Z)) in E.
  rewrite !rev_app_distr in E. cbn in E. rewrite <- !app_assoc in E.
  destruct (span_inj (fun c => negb (c =? 0)) (rev k) (rev k') (0 :: rev n) (0 :: rev n')) as [E1 E2];
    [apply Forall_rev; eapply Forall_impl; [eassumption|]; cbn; lia
    |apply Forall_rev; eapply Forall_impl; [eassumption|]; cbn; lia|done|done|done|].
  injection E2 as E2. by rewrite <- (rev_involutive n), <- (rev_involutive k), E1, E2, !rev_involutive.
Qed.

Definition all_alike (name key : jstr) (os : list TimeoutToolOutcome) : Prop :=
  os <> [] /\ Forall (fun o => kind o = KTimeout /\ toolName o = name /\ argsKey o = key) os.

Lemma turnTimeoutFingerprint_spec os f :
  turnTimeoutFingerprint os = Some f <->
  exists name key, f = name ++ [0] ++ key /\ all_alike name key os.
Proof.
  unfold all_alike. split.
  - destruct os as [|o os]; [done|]. unfold turnTimeoutFingerprint.
    destruct (existsb _ (o :: os)) eqn:E1; [done|]. destruct (existsb _ (o :: os)) eqn:E2 in |- *; [done|].
    intros [= <-]. exists (toolName o), (argsKey o). split_and!; [done|done|].
    apply Forall_forall. intros x Hx. apply list_elem_of_In in Hx.
    rewrite <- not_true_iff_false, existsb_exists in E1, E2.
    split_and!; apply dec_stable; intros Hn; [apply E1|apply E2..]; exists x; (split; [done|]);
      rewrite (bool_decide_eq_false_2 _ Hn); [done|done|by rewrite orb_true_r].
  - intros (name & key & -> & Hne & Hall). destruct os as [|o os]; [done|].
    pose proof (Forall_inv Hall) as (_ & En & Ek). unfold turnTimeoutFingerprint.
    rewrite Forall_forall in Hall.
    assert (forall p : TimeoutToolOutcome -> bool, (forall x, x ∈ o :: os -> p x = false) -> existsb p (o :: os) = false) as Hno.
    { intros p Hp. apply not_true_iff_false. rewrite existsb_exists. intros (x & Hx & Hpx).
      rewrite Hp in Hpx by (by apply list_elem_of_In). done. }
    rewrite !Hno; [by rewrite En, Ek|..]; intros x Hx; destruct (Hall x Hx) as (E1 & E2 & E3);
      by rewrite ?E1, ?E2, ?E3, ?En, ?Ek, ?bool_decide_eq_true_2.
Qed.

(** ** The decision over a run of turns *)

(** A call of a tool, and how it ended. *)
Record ToolCall := mkCall { call_tool : jstr; call_args : json; call_kind : ToolOutcomeKind }.

Definition outcome_of (c : ToolCall) : TimeoutToolOutcome :=
  mkOutcome (call_tool c) (canonicalArgsKey (call_args c)) (call_kind c).

(** A turn: the goal that it was for, and its calls. *)
Definition turn_of (t : jstr * list ToolCall) : jstr * option jstr :=
  (fst t, turnTimeoutFingerprint (map outcome_of (snd t))).

Definition after (turns : list (jstr * option jstr)) : TimeoutHoldState :=
  fold_left (fun st t => snd (decideTimeoutHold st t)) turns (mkHold None None 0).

Lemma after_snoc turns t : after (turns ++ [t]) = snd (decideTimeoutHold (after turns) t).
Proof. unfold after. by rewrite fold_left_app. Qed.

(** The state holds the last turn, if it had a fingerprint. *)
Lemma after_spec turns :
  after turns = mkHold None None 0 \/
  exists pre k f n, turns = pre ++ [(k, Some f)] /\ after turns = mkHold (Some k) (Some f) n /\ 1 <= n.
Proof.
  induction turns as [|[k [f|]] turns IH] using rev_ind; [by left| |].
  - right. rewrite after_snoc. unfold decideTimeoutHold. cbn [fst snd].
    exists turns, k, f. eexists. split_and!; [done|done|].
    destruct IH as [->|(? & ? & ? & n & _ & -> & Hn)]; cbn; [lia|]. case_match; lia.
  - left. by rewrite after_snoc.
Qed.

Lemma hold_iff turns k f :
  fst (decideTimeoutHold (after turns) (k, Some f)) = true
  <-> exists pre, turns = pre ++ [(k, Some f)].
Proof.
  unfold decideTimeoutHold. cbn [fst snd]. rewrite Z.leb_le. split.
  - destruct (after_spec turns) as [->|(pre & k' & f' & n & -> & -> & Hn)]; cbn; [lia|].
    destruct (_ && _) eqn:E; [|lia]. intros _. apply andb_true_iff in E as [[_ Ef]%andb_true_iff Ek].
    apply bool_decide_eq_true in Ef, Ek. exists pre. congruence.
  - intros [pre ->]. destruct (after_spec (pre ++ [(k, Some f)])) as [E|(pre' & k' & f' & n & Et & -> & Hn)].
    + rewrite after_snoc in E. done.
    + apply app_inj_tail in Et as [_ [= <- <-]]. cbn. rewrite !bool_decide_eq_true_2 by done.
      rewrite (proj2 (Z.leb_le 1 n)) by done. cbn. lia.
Qed.

Definition turn_ok (t : jstr * list ToolCall) : Prop :=
  Forall (fun c => wf_json (call_args c) = true) (snd t).

(** The turn did nothing but run into a timeout of [name] with the arguments [args]. *)
Definition only_timeouts (name : jstr) (args : json) (t : jstr * list ToolCall) : Prop :=
  snd t <> [] /\
  Forall (fun c => call_kind c = KTimeout /\ call_tool c = name /\ same (call_args c) args) (snd t).

Lemma fingerprint_calls t f :
  turn_ok t ->
  turnTimeoutFingerprint (map outcome_of (snd t)) = Some f <->
  exists name args, wf_json args = true /\ f = name ++ [0] ++ canonicalArgsKey args
    /\ only_timeouts name args t.
Proof.
  intros Hok. unfold turn_ok, only_timeouts in *. rewrite turnTimeoutFingerprint_spec. unfold all_alike.
  destruct (snd t) as [|c cs] eqn:Ec.
  { split; [by intros (? & ? & _ & [] & _)|by intros (? & ? & _ & _ & [] & _)]. }
  split.
  - intros (name & key & -> & _ & Hall). rewrite Forall_map in Hall.
    pose proof (Forall_inv Hok) as Hc. pose proof (Forall_inv Hall) as (_ & _ & Hk). cbn in Hk.
    exists name, (call_args c). split_and!; [done|by rewrite Hk|done|].
    rewrite Forall_forall in *. intros x Hx. destruct (Hall x Hx) as (E1 & E2 & E3). cbn in *.
    split_and!; [done|done|]. apply same_key_iff; [by apply Hok|done|congruence].
  - intros (name & args & Ha & -> & _ & Hall). exists name, (canonicalArgsKey args).
    split_and!; [done|done|]. rewrite Forall_map. rewrite Forall_forall in *. intros x Hx.
    destruct (Hall x Hx) as (E1 & E2 & E3). cbn. split_and!; [done|done|].
    apply same_key_iff; [by apply Hok|done|done].
Qed.

Lemma only_timeouts_same name args args' t :
  same args args' -> only_timeouts name args t -> only_timeouts name args' t.
Proof.
  intros Hs [Hne Hall]. split; [done|]. eapply Forall_impl; [exact Hall|].
  intros c (? & ? & ?). split_and!; [done|done|]. by eapply same_trans.
Qed.

Lemma only_timeouts_wf name args t :
  turn_ok t -> only_timeouts name args t -> exists args0, wf_json args0 = true /\ same args args0.
Proof.
  unfold turn_ok. intros Hok [Hne Hall]. destruct (snd t) as [|c cs]; [done|].
  exists (call_args c). split; [exact (Forall_inv Hok)|].
  destruct (Forall_inv Hall) as (_ & _ & Hs). by apply same_sym.
Qed.

(** After any turns, a turn is held exactly when it and the turn just before it were for the same
    goal and each did nothing but run into timeouts of one and the same call. *)
Theorem repeated_timeouts_are_held turns t :
  Forall turn_ok turns -> turn_ok t ->
  fst (decideTimeoutHold (after (map turn_of turns)) (turn_of t)) = true
  <-> exists pre t' name args, turns = pre ++ [t'] /\ fst t' = fst t
        /\ only_timeouts name args t /\ only_timeouts name args t'.
Proof.
  intros Hts Ht. unfold turn_of at 2. split.
  - destruct (turnTimeoutFingerprint _) as [f|] eqn:Ef; [|done]. rewrite hold_iff. intros [pre Epre].
    destruct turns as [|t' turns _] using rev_ind; [by destruct pre|].
    rewrite map_app in Epre. apply app_inj_tail in Epre as [_ [= Ek Ef']].
    apply Forall_app in Hts as [_ Ht'%Forall_inv].
    apply fingerprint_calls in Ef as (name & args & Ha & -> & Ho); [|done].
    apply fingerprint_calls in Ef' as (name' & args' & Ha' & E & Ho'); [|done].
    apply fingerprint_inj in E as [<- E]; [|apply clean_stringify..].
    apply same_key_iff in E; [|done|done].
    exists turns, t', name, args. split_and!; [done|done|done|]. destruct Ho' as [Hne Hall].
    eapply only_timeouts_same; [by apply same_sym|by split].
  - intros (pre & t' & name & args & -> & Ek & Ho & Ho'). apply Forall_app in Hts as [_ Ht'%Forall_inv].
    destruct (only_timeouts_wf name args t Ht Ho) as (args0 & Ha & Hs).
    assert (forall t, turn_ok t -> only_timeouts name args t ->
      turnTimeoutFingerprint (map outcome_of (snd t)) = Some (name ++ [0] ++ canonicalArgsKey args0)) as Hf.
    { intros t1 Ht1 Ho1. apply fingerprint_calls; [done|]. exists name, args0. split_and!; [done|done|].
      by eapply only_timeouts_same. }
    rewrite (Hf t), hold_iff by done. exists (map turn_of pre).
    rewrite map_app. unfold turn_of at 2. cbn. by rewrite (Hf t'), Ek.
Qed.
