(* ===== verification/GoalsTool.v ===== *)
(** * The goal tool: CA/goals/tools/goal-tool.ts, without its renderer

    The tool checks its parameters and the operations that the session allows, asks the guards of the
    ultragoal workflow (CA/gjc-runtime/ultragoal-guard.ts, the argument [guard]), and calls the runtime.
    [goal_tool_reports]: the goal in the answer is the goal that is stored. *)
From S2P Require Import Prelude Json Goals GoalsLife.
#[local] Open Scope Z_scope.
#[local] Open Scope js_scope.

Inductive GoalOp := OpCreate | OpGet | OpComplete | OpResume | OpDrop | OpPause.
#[export] Instance GoalOp_eq : EqDecision GoalOp.
Proof. solve_decision. Defined.

Definition op_str (op : GoalOp) : jstr :=
  match op with
  | OpCreate => u "create" | OpGet => u "get" | OpComplete => u "complete"
  | OpResume => u "resume" | OpDrop => u "drop" | OpPause => u "pause"
  end.

(** [has_token_budget]: the parameters have a field [token_budget] or [tokenBudget]. *)
Record GoalToolInput := mkInput {
  op : GoalOp;
  objective_param : option jstr;
  has_token_budget : bool
}.

Inductive ToolFailure :=
| ToolError (message : jstr)
| RuntimeError (e : GoalError).

Definition error_message (e : GoalError) : option jstr :=
  match e with GoalFailure m => Some m | HostFailure => None end.

Section tool.
Context `{GoalHost}.

(** The session: the operations it allows, whether it has a runtime, and the guards. *)
Variable goalToolAllowedOps : option (list GoalOp).
Variable has_runtime : bool.
Variable guard : GoalOp -> World -> result jstr unit.

Definition runtime_call {A} (m : SM World GoalError A) : SM World ToolFailure A := fun w =>
  match m w with (w', Ok a) => (w', Ok a) | (w', Err e) => (w', Err (RuntimeError e)) end.

Definition rejectUnsupportedGoalArgs (params : GoalToolInput) : SM World ToolFailure unit :=
  if has_token_budget params then throw (ToolError (u "token_budget is not supported for goals"))
  else mret tt.

Definition assertGoalOperationAllowed (o : GoalOp) : SM World ToolFailure unit :=
  match goalToolAllowedOps with
  | None => mret tt
  | Some ops =>
      if bool_decide (o ∈ ops) then mret tt
      else throw (ToolError (u "Goal mode in this session only allows goal operations: "
                             ++ join_with (u ", ") (map op_str ops) ++ u "."))
  end.

Definition validateCreateParams (params : GoalToolInput) : SM World ToolFailure jstr :=
  match validateGoalObjective (default [] (objective_param params)) (u "create") with
  | Ok objective => mret objective
  | Err e => throw (ToolError (default [] (error_message e)))
  end.

Definition ask_guard (o : GoalOp) : SM World ToolFailure unit := fun w =>
  match guard o w with Ok _ => (w, Ok tt) | Err m => (w, Err (ToolError m)) end.

(** [runtime.createGoal]: the objective is validated before the lock. *)
Definition createGoal (text : jstr) (prov : option GoalProvenance) :
    SM World GoalError (GoalModeState Goal) :=
  objective ← lift_result (validateGoalObjective text (u "create"));
  run (createGoalLocked objective prov).

(** The operation itself; the goal of the answer, as the object that it is. *)
Definition performGoalOperation (params : GoalToolInput) : SM World ToolFailure (option json) :=
  match op params with
  | OpGet => fun w => (w, Ok (goal <$> host_state w))
  | o =>
      if negb has_runtime then throw (ToolError (u "Goal mode is not active."))
      else
        match o with
        | OpCreate =>
            objective ← validateCreateParams params;
            created ← runtime_call (createGoal objective None);
            mret (Some (goal_json (goal created)))
        | OpResume =>
            resumed ← runtime_call (run resumeGoalLocked);
            mret (Some (goal_json (goal resumed)))
        | OpPause =>
            _ ← ask_guard OpPause;
            paused ← runtime_call (run pauseGoalLocked);
            mret ((fun s => goal_json (goal s)) <$> paused)
        | OpDrop =>
            _ ← ask_guard OpDrop;
            dropped ← runtime_call (run dropGoalLocked);
            mret (goal_json <$> dropped)
        | _ =>
            _ ← ask_guard OpComplete;
            completed ← runtime_call (run completeGoalLocked);
            mret (Some (goal_json completed))
        end
  end.

Definition executeGoalOperation (params : GoalToolInput) : SM World ToolFailure (option json) :=
  _ ← rejectUnsupportedGoalArgs params;
  _ ← assertGoalOperationAllowed (op params);
  performGoalOperation params.

(** A value inside a template string. *)
Definition template (v : json) : jstr :=
  match v with
  | JStr s => s
  | JUndefined => u "undefined"
  | v => stringify v
  end.

Definition renderGoalToolResponse (g : option json) : jstr :=
  match g with
  | None => u "No active goal."
  | Some g =>
      u "Goal: " ++ template (json_get g (u "objective")) ++ [NL]
      ++ u "Status: " ++ template (json_get g (u "status")) ++ [NL]
      ++ u "Tokens used: " ++ template (json_get g (u "tokensUsed"))
  end.

(** ** What a successful operation leaves stored *)

(** A computation that answers [a] has stored [f a]. *)
Definition answers {A} (m : SM World GoalError A) (f : A -> option json) : Prop :=
  forall w w' a, m w = (w', Ok a) -> (goal <$> host_state w') = f a.

Lemma host_call_keeps c w : host_state (fst (host_call c w)) = host_state w.
Proof. done. Qed.

Lemma commit_stores s p e w w' a :
  commitState s p e w = (w', Ok a) -> (goal <$> host_state w') = ((fun s => goal_json (goal s)) <$> s).
Proof.
  intros E. pose proof (f_equal fst E) as Ew. cbn in Ew. subst w'.
  unfold commitState, mbind, sm_bind, modify, host_call.
  destruct p, e, s; cbn; repeat (case_match; cbn); simplify_eq; done.
Qed.

Lemma sm_bind_ok {A B} (m : SM World GoalError A) (k : A -> SM World GoalError B) w w' b :
  (m ≫= k) w = (w', Ok b) -> exists w1 a, m w = (w1, Ok a) /\ k a w1 = (w', Ok b).
Proof.
  unfold mbind, sm_bind. destruct (m w) as [w1 [a|e]]; [|done]. intros E. by exists w1, a.
Qed.

Lemma clone_ok w w' st : getStateClone w = (w', Ok st) -> w' = w /\ st = goal_state w.
Proof. unfold getStateClone. by intros [= <- <-]. Qed.

Lemma run_bind_ok {A B} (t : Task A) (k : A -> Task B) w w' b :
  run (t ≫= k) w = (w', Ok b) -> exists w1 a, run t w = (w1, Ok a) /\ run (k a) w1 = (w', Ok b).
Proof. rewrite run_bind. destruct (run t w) as [w1 [a|e]]; [|done]. intros E. by exists w1, a. Qed.

(** A segment that ends with a commit. *)
Lemma answers_commit {A} (m : SM World GoalError unit) s p (a : A) (f : A -> option json) :
  f a = Some (goal_json (goal s)) ->
  answers (_ ← m; _ ← commitState (Some s) p true; mret a) f.
Proof.
  intros Hf w w' b E. apply sm_bind_ok in E as (w1 & [] & _ & E).
  apply sm_bind_ok in E as (w2 & [] & Ec & [= <- <-]). rewrite Hf. by apply commit_stores in Ec.
Qed.

Lemma answers_bind {A B} (m : SM World GoalError A) (k : A -> SM World GoalError B) f :
  (forall a, answers (k a) f) -> answers (m ≫= k) f.
Proof. intros Hk w w' b E. apply sm_bind_ok in E as (w1 & a & _ & E). by apply (Hk a w1). Qed.

Lemma answers_run_bind {A B} (t : Task A) (k : A -> Task B) f :
  (forall a, answers (run (k a)) f) -> answers (run (t ≫= k)) f.
Proof. intros Hk w w' b E. apply run_bind_ok in E as (w1 & a & _ & E). by apply (Hk a w1). Qed.

Lemma answers_segment {A} (m : SM World GoalError A) f : answers m f -> answers (run (atomically m)) f.
Proof. intros Hm w w' a. rewrite run_atomically. apply Hm. Qed.

Lemma answers_throw {A} e (f : A -> option json) : answers (throw e) f.
Proof. by intros w w' a. Qed.

Definition state_answer (s : GoalModeState Goal) : option json := Some (goal_json (goal s)).

Lemma create_answers text prov : answers (createGoal text prov) state_answer.
Proof.
  apply answers_bind. intros objective. apply answers_segment, answers_bind. intros ex.
  apply answers_bind. intros _. apply answers_bind. intros st. by apply answers_commit.
Qed.

Lemma resume_answers : answers (run resumeGoalLocked) state_answer.
Proof.
  apply answers_segment, answers_bind. intros [s|]; [|apply answers_throw].
  case_match; [apply answers_throw|]. apply answers_bind. intros t. by apply answers_commit.
Qed.

(** A pause without a goal answers nothing, and nothing readable is stored. *)
Lemma pause_answers w w' paused :
  run pauseGoalLocked w = (w', Ok paused) ->
  match paused with
  | Some s => (goal <$> host_state w') = Some (goal_json (goal s))
  | None => goal_state w' = None
  end.
Proof.
  intros E. apply run_bind_ok in E as (w1 & [] & _ & E). rewrite run_atomically in E.
  apply sm_bind_ok in E as (w2 & st & [-> ->]%clone_ok & E).
  destruct (goal_state w1) as [s|] eqn:Es; [|injection E as <- <-; exact Es].
  case_match; [done|]. apply sm_bind_ok in E as (w3 & t & _ & E). cbv zeta in E.
  apply sm_bind_ok in E as (w4 & [] & _ & E). apply sm_bind_ok in E as (w5 & [] & Ec & [= <- <-]).
  by apply commit_stores in Ec.
Qed.

Lemma complete_answers : answers (run completeGoalLocked) (fun g => Some (goal_json g)).
Proof.
  apply answers_run_bind. intros _. apply answers_segment, answers_bind. intros [s|]; [|apply answers_throw].
  do 2 (case_match; [apply answers_throw|]). apply answers_bind. intros t. by apply answers_commit.
Qed.

(** A drop leaves nothing stored. *)
Lemma drop_answers w w' g : run dropGoalLocked w = (w', Ok g) ->
  match g with Some g => host_state w' = None /\ status g = Dropped | None => goal_state w' = None end.
Proof.
  intros E. apply run_bind_ok in E as (w1 & [] & _ & E). apply run_bind_ok in E as (w2 & d & Ed & E).
  rewrite run_atomically in Ed. apply sm_bind_ok in Ed as (w3 & st & [-> ->]%clone_ok & Ed).
  destruct (goal_state w1) as [s|] eqn:Es.
  - apply sm_bind_ok in Ed as (w4 & t & _ & Ed). cbv zeta in Ed.
    apply sm_bind_ok in Ed as (w5 & [] & _ & Ed). apply sm_bind_ok in Ed as (w6 & [] & _ & [= <- <-]).
    rewrite run_atomically in E. apply sm_bind_ok in E as (w7 & [] & Ec & [= <- <-]).
    apply commit_stores in Ec. split; [by destruct (host_state w7)|done].
  - injection Ed as <- <-. injection E as <- <-. exact Es.
Qed.

(** The answer is what is stored; after a drop nothing is, and the answer is the dropped goal. *)
Definition answer_stored (o : GoalOp) (answer : option json) (w' : World) : Prop :=
  match answer with
  | None => goal_state w' = None
  | Some g =>
      if bool_decide (o = OpDrop) then
        host_state w' = None /\ exists d, g = goal_json d /\ status d = Dropped
      else (goal <$> host_state w') = Some g
  end.

Lemma runtime_call_ok {A} (m : SM World GoalError A) w w' a :
  runtime_call m w = (w', Ok a) -> m w = (w', Ok a).
Proof. unfold runtime_call. destruct (m w) as [w1 [b|e]]; [|done]. by intros [= <- <-]. Qed.

(** What an outcome of the tool means. *)
Definition outcome_means (o : GoalOp) (w w' : World) (r : result ToolFailure (option json)) : Prop :=
  match r with
  | Ok answer =>
      if bool_decide (o = OpGet) then w' = w /\ answer = (goal <$> host_state w)
      else answer_stored o answer w'
  | Err (ToolError _) => w' = w
  | Err (RuntimeError _) => True
  end.

(** The end of an operation that calls the runtime. *)
Lemma call_means {A} o (m : SM World GoalError A) (f : A -> option json) w :
  o <> OpGet ->
  (forall w' a, m w = (w', Ok a) -> answer_stored o (f a) w') ->
  let p := (a ← runtime_call m; mret (f a)) w in outcome_means o w (fst p) (snd p).
Proof.
  intros Ho Hm. unfold mbind, sm_bind, runtime_call. destruct (m w) as [w1 [a|e]]; [|done].
  cbn. rewrite bool_decide_eq_false_2 by done. by apply Hm.
Qed.

(** The same behind a guard. *)
Lemma guarded_means {A} o (m : SM World GoalError A) (f : A -> option json) w :
  o <> OpGet ->
  (forall w' a, m w = (w', Ok a) -> answer_stored o (f a) w') ->
  let p := (_ ← ask_guard o; a ← runtime_call m; mret (f a)) w in outcome_means o w (fst p) (snd p).
Proof.
  intros Ho Hm. pose proof (call_means o m f w Ho Hm) as Hc. unfold mbind, sm_bind, ask_guard in *.
  by destruct (guard o w) as [[]|e].
Qed.

Lemma checks_ok params w :
  executeGoalOperation params w = performGoalOperation params w
  \/ exists e, executeGoalOperation params w = (w, Err (ToolError e)).
Proof.
  unfold executeGoalOperation, rejectUnsupportedGoalArgs, assertGoalOperationAllowed.
  unfold mbind, sm_bind.
  destruct (has_token_budget params); [right; by eexists|]. cbn [mret sm_ret].
  destruct goalToolAllowedOps as [ops|]; [|by left].
  case_bool_decide; [by left|right; by eexists].
Qed.

(** What the goal tool answers is true: [get] changes nothing and answers what is stored; after any
    other operation that succeeds the goal in the answer is the one that is stored, after a drop none
    is and the answer is the dropped goal; and a refusal of the tool itself changes nothing. *)
Theorem goal_tool_reports params w :
  outcome_means (op params) w (fst (executeGoalOperation params w)) (snd (executeGoalOperation params w)).
Proof.
  destruct (checks_ok params w) as [-> |[m ->] ]; [|done]. unfold performGoalOperation.
  destruct (op params); [..|]; try (destruct has_runtime; cbn [negb]; [|done]); try done.
  - unfold mbind at 1, sm_bind at 1, validateCreateParams.
    destruct (validateGoalObjective _ _) as [objective|e]; [|done]. cbn [mret sm_ret].
    apply (call_means OpCreate _ (fun s => Some (goal_json (goal s)))); [done|].
    intros w' a E. exact (create_answers _ _ _ _ _ E).
  - apply (guarded_means OpComplete _ (fun g => Some (goal_json g))); [done|].
    intros w' a E. exact (complete_answers _ _ _ E).
  - apply (call_means OpResume _ (fun s => Some (goal_json (goal s)))); [done|].
    intros w' a E. exact (resume_answers _ _ _ E).
  - apply (guarded_means OpDrop _ (fun g => goal_json <$> g)); [done|].
    intros w' a E. apply drop_answers in E. destruct a as [g|]; [|done].
    destruct E as [E Es]. split; [done|]. by exists g.
  - apply (guarded_means OpPause _ (fun s => (fun s => goal_json (goal s)) <$> s)); [done|].
    intros w' a E. apply pause_answers in E. by destruct a.
Qed.
End tool.
