(* ===== verification/GoalsDemo.v ===== *)
(** * A concrete goal host, and the witnesses of the goal theorems

    The clock of the host advances 400 ms at each reading, ids are numbered, and no call throws.
    [drive] runs a list of actions through the steps of a system.  [late_flush_charges_twice] is an
    interleaving in which the same tokens are charged twice. *)
From S2P Require Import Prelude Json Goals GoalsLife GoalsLedger GoalsText GoalsGuard GoalsTool.
#[local] Open Scope Z_scope.
#[local] Open Scope js_scope.

Definition demo_goal_host : GoalHost := {|
  clock := fun n => 400 * Z.of_nat n;
  snowflake := fun n => u "goal-" ++ nat_to_str (Z.of_nat n);
  host_fails := fun _ => false;
  render := fun _ s => s
|}.
#[local] Existing Instance demo_goal_host.

Inductive Action := ACall (c : Call) | ARun | AEnd | AReturn | AUsage (us : GoalTokenUsage).

Definition act (s : System) (a : Action) : option System :=
  match a, s with
  | ACall c, mkSystem w q n =>
      match enter c w with
      | (w', None) => Some (mkSystem w' q n)
      | (w', Some t) => Some (mkSystem w' (q ++ [t]) n)
      end
  | ARun, mkSystem w ((Segment f, b) :: q) n =>
      let '(w', t') := f w in Some (mkSystem w' ((t', b) :: q) n)
  | AEnd, mkSystem w ((Finish (Ok _), b) :: q) n => Some (mkSystem w q (if b : bool then S n else n))
  | AEnd, mkSystem w ((Finish (Err _), b) :: q) n => Some (mkSystem w q n)
  | AReturn, mkSystem w q (S n) => Some (mkSystem (set_turn None w) q n)
  | AUsage us, mkSystem w q n => Some (mkSystem (set_usage us w) q n)
  | _, _ => None
  end.

Fixpoint drive (acts : list Action) (s : System) : option System :=
  match acts with [] => Some s | a :: acts' => s' ← act s a; drive acts' s' end.

Lemma act_step s a s' : act s a = Some s' -> step s s'.
Proof.
  destruct a as [c| | | |us], s as [w q n]; cbn.
  - destruct (enter c w) as [w' [t|]] eqn:E; intros [= <-]; [by eapply step_enqueue|by eapply step_call].
  - destruct q as [|[[r|f] b] q]; try done. destruct (f w) as [w' t'] eqn:E.
    intros [= <-]. by apply step_segment.
  - destruct q as [|[[[[]|e]|f] b] q]; try done; intros [= <-]; [apply step_done|apply step_failed].
  - destruct n; [done|]. intros [= <-]. apply step_return.
  - intros [= <-]. apply step_usage.
Qed.

Lemma drive_run acts s s' : drive acts s = Some s' -> rtc step s s'.
Proof.
  revert s. induction acts as [|a acts IH]; intros s; cbn; [by intros [= ->]|].
  destruct (act s a) as [s1|] eqn:E; [|done]. intros Hd.
  eapply rtc_l; [by eapply act_step|by apply IH].
Qed.

(** The state that a script reaches. *)
Definition reaches (acts : list Action) (s : System) : System := default s (drive acts s).

Lemma reaches_run acts s : rtc step s (reaches acts s).
Proof.
  unfold reaches. destruct (drive acts s) as [s'|] eqn:E; [by apply drive_run in E|apply rtc_refl].
Qed.

Definition used (i o c : Z) : GoalTokenUsage := mkUsage i o 0 c.
Definition empty_world : World :=
  mkWorld None (used 0 0 0) 1 0 [] None (mkWall 0 None).

(** A goal is created; a call of a tool is charged; the goal is paused, while a turn starts. *)
Definition created : list Action := [ACall (CreateGoal (u "ship it") None); ARun; AEnd].
Definition worked : list Action :=
  created ++ [AUsage (used 70 20 10); ACall (OnToolCompleted (u "bash")); ARun; AEnd].
Definition paused_script : list Action :=
  [ACall PauseGoal; ARun; ACall (OnTurnStart (u "turn-1") (used 70 20 10)); ARun; AEnd].

Definition goal_world : World := world (reaches worked (idle empty_world)).

Example worked_charges : (tokensUsed ∘ goal <$> goal_state goal_world) = Some 100.
Proof. vm_compute. reflexivity. Qed.

(** The tokens are counted at 100 when the second flush is called and at 250 when the abort, which is
    ahead of it, charges them; the second flush then moves the baseline back to 100. *)
Definition late_flush : list Action :=
  created
    ++ [AUsage (used 100 0 0); ACall OnTaskAborted; ACall (FlushUsage None); AUsage (used 250 0 0);
        ARun; ARun; AEnd; ARun; AEnd; ACall (FlushUsage None); ARun; AEnd].

Theorem late_flush_charges_twice :
  (tokensUsed ∘ goal <$> goal_state (world (reaches late_flush (idle empty_world)))) = Some 400.
Proof. vm_compute. reflexivity. Qed.

(** ** Witnesses *)

Lemma goal_world_agrees : agree goal_world.
Proof. vm_compute. reflexivity. Qed.

Lemma goal_states_agree_witness :
  agree (world (reaches paused_script (idle goal_world))).
Proof. exact (goal_states_agree goal_world _ goal_world_agrees (reaches_run paused_script _)). Defined.

Definition goal_now : GoalModeState Goal :=
  default (mkState false ModeActive false (mkGoal [] [] Dropped 0 0 0 0 None)) (goal_state goal_world).
Definition goal_paused : GoalModeState Goal :=
  default goal_now (goal_state (world (reaches paused_script (idle goal_world)))).

Lemma goal_world_goal : goal_state goal_world = Some goal_now.
Proof. vm_compute. reflexivity. Qed.
Lemma goal_paused_goal : goal_state (world (reaches paused_script (idle goal_world))) = Some goal_paused.
Proof. vm_compute. reflexivity. Qed.
Lemma goal_paused_id : goal_id (goal goal_paused) = goal_id (goal goal_now).
Proof. vm_compute. reflexivity. Qed.
Lemma goal_now_id : goal_id (goal goal_now) = snowflake 0.
Proof. vm_compute. reflexivity. Qed.
Lemma goal_now_accounting : accounting (Some goal_now) = true.
Proof. vm_compute. reflexivity. Qed.

Lemma later_ids_new k : (ids goal_world <= k)%nat -> snowflake k <> goal_id (goal goal_now).
Proof.
  rewrite goal_now_id. intros Hk. cbn [snowflake demo_goal_host].
  intros E%app_inv_head%nat_to_str_inj; [|lia|lia].
  assert (ids goal_world = 1%nat) as Hi by (vm_compute; reflexivity). lia.
Qed.

Lemma demo_clock_mono n : clock n <= clock (S n).
Proof. cbn [clock demo_goal_host]. lia. Qed.

Lemma goal_world_since : since (goal_id (goal goal_now)) goal_world <= clock (reads goal_world).
Proof. vm_compute. discriminate. Qed.

Lemma goal_life_witness : carries (goal goal_now) (goal goal_paused).
Proof.
  exact (goal_life goal_world goal_now (reaches paused_script (idle goal_world)) goal_paused
    goal_world_goal later_ids_new (reaches_run paused_script _) goal_paused_goal goal_paused_id).
Defined.

Lemma time_is_bounded_witness :
  1000 * (timeUsedSeconds (goal goal_paused) - timeUsedSeconds (goal goal_now))
    <= clock (reads (world (reaches paused_script (idle goal_world))))
       - since (goal_id (goal goal_now)) goal_world.
Proof.
  exact (time_is_bounded goal_world goal_now (reaches paused_script (idle goal_world)) goal_paused
    demo_clock_mono goal_world_goal goal_world_since later_ids_new (reaches_run paused_script _)
    goal_paused_goal goal_paused_id).
Defined.

(** The goal of [goal_world] after 530 more tokens. *)
Definition spent_world : World := set_usage (used 300 200 130) goal_world.

Lemma spent_world_goal : goal_state spent_world = Some goal_now.
Proof. vm_compute. reflexivity. Qed.
Lemma spent_world_owes : owed spent_world = 530.
Proof. vm_compute. reflexivity. Qed.

Lemma flush_settles_witness :
  exists s', goal_state (fst (flush_segment None spent_world)) = Some s'
    /\ tokensUsed (goal s') = tokensUsed (goal goal_now) + 530.
Proof.
  destruct (flush_settles spent_world goal_now None spent_world_goal goal_now_accounting eq_refl)
    as (s' & Es & _ & Et & _).
  exists s'. split; [exact Es|]. rewrite <- spent_world_owes. exact Et.
Defined.

(** A turn that calls no tool is followed by another turn: what it spent is forfeited. *)
Definition steered : list Happening :=
  [Spent (used 300 200 30); Did (OnTurnStart (u "turn-2") (used 370 220 40));
   Spent (used 0 0 5); Did (OnAgentEnd None)].

Lemma goal_world_baseline : baseline_ok goal_world.
Proof. vm_compute. repeat split; discriminate. Qed.
Lemma steered_ordinary : all_ordinary steered goal_world.
Proof. vm_compute. repeat split; discriminate. Qed.
Lemma steered_forfeits : totals forfeits steered goal_world = 530.
Proof. vm_compute. reflexivity. Qed.
Lemma steered_earns : totals earns steered goal_world = 535.
Proof. vm_compute. reflexivity. Qed.

Lemma ledger_witness :
  charged (fold_left happen steered goal_world) + owed (fold_left happen steered goal_world) + 530
  = charged goal_world + owed goal_world + 535.
Proof.
  rewrite <- steered_forfeits, <- steered_earns.
  exact (ledger steered goal_world goal_world_baseline steered_ordinary).
Defined.

(** *** Repeated timeouts *)

Definition args_ab : json := JObj [(u "cmd", JStr (u "make")); (u "env", JObj [(u "B", JNum 2); (u "A", JNum 1)])].
Definition args_ba : json :=
  JObj [(u "env", JObj [(u "A", JNum 1); (u "x", JUndefined); (u "B", JNum 2)]); (u "cmd", JStr (u "make"))].

Lemma args_ab_wf : wf_json args_ab = true.
Proof. vm_compute. reflexivity. Qed.
Lemma args_ba_wf : wf_json args_ba = true.
Proof. vm_compute. reflexivity. Qed.
Lemma args_one_key : canonicalArgsKey args_ab = canonicalArgsKey args_ba.
Proof. vm_compute. reflexivity. Qed.

Lemma same_key_iff_witness : same args_ab args_ba.
Proof. exact (proj1 (same_key_iff args_ab args_ba args_ab_wf args_ba_wf) args_one_key). Defined.

Definition timed_out_turn (args : json) : jstr * list ToolCall :=
  (u "goal-0", [mkCall (u "bash") args KTimeout]).

Lemma timed_out_ok args : wf_json args = true -> turn_ok (timed_out_turn args).
Proof. intros Ha. by constructor. Qed.
Lemma second_timeout_holds :
  fst (decideTimeoutHold (after (map turn_of [timed_out_turn args_ab])) (turn_of (timed_out_turn args_ba)))
  = true.
Proof. vm_compute. reflexivity. Qed.

Lemma repeated_timeouts_are_held_witness :
  exists pre t' name args, [timed_out_turn args_ab] = pre ++ [t'] /\ fst t' = u "goal-0"
    /\ only_timeouts name args (timed_out_turn args_ba) /\ only_timeouts name args t'.
Proof.
  exact (proj1 (repeated_timeouts_are_held [timed_out_turn args_ab] (timed_out_turn args_ba)
    (Forall_cons_2 _ _ _ (timed_out_ok args_ab args_ab_wf) (Forall_nil_2 _)) (timed_out_ok args_ba args_ba_wf))
    second_timeout_holds).
Defined.
