(* ===== verification/ToolBatch.v ===== *)
(** * The tool calls of a turn

    packages/agent/src/agent-loop.ts, [executeToolCalls]: the tool calls of one assistant message run
    as concurrent tasks.  A shared tool waits for the last exclusive one, an exclusive tool for
    everything before it; a steering message interrupts the rest; an abort answers what has no answer
    yet.  The state is a [Batch], the suspension point of each task is its [Phase], and [step] is one
    resumption: what happens between two awaits, chosen by a [Label] that carries what the
    environment (a tool, a hook, the user) answers. *)
From S2P Require Import Prelude.
From S2P Require Import Json.
#[local] Open Scope Z_scope.
#[local] Open Scope js_scope.

Inductive Concurrency := shared | exclusive.

#[export] Instance Concurrency_eq_dec : EqDecision Concurrency.
Proof. solve_decision. Defined.

(** A registered tool: what the loop reads of it.  [executable] is [typeof tool.execute === "function"]. *)
Record AgentTool := {
  tool_name : jstr;
  customWireName : option jstr;
  concurrency : option Concurrency;
  lenientArgValidation : bool;
  executable : bool
}.

Inductive IncompleteReason := malformed_arguments | conflicting | ambiguous | cut_off.

(** A tool call of the assistant's message; [escapedGuarded] is that its arguments carry the evidence of
    an escaped spelling. *)
Record ToolCall := {
  call_id : jstr;
  call_name : jstr;
  arguments : json;
  intent : option jstr;
  incompleteArguments : option IncompleteReason;
  escapedGuarded : bool
}.

(** ** Results *)

Inductive ResultBlock :=
| TextBlock (text : jstr)
| ImageBlock (data mimeType : jstr).

Record AgentToolResult := {
  result_content : list ResultBlock;
  result_details : json;
  result_isError : option bool
}.

Record ToolResultMessage := {
  toolCallId : jstr;
  toolName : jstr;
  content : list ResultBlock;
  details : json;
  isError : bool
}.

Definition text_result (text : jstr) (d : json) : AgentToolResult :=
  {| result_content := [TextBlock text]; result_details := d; result_isError := None |}.

Definition createSkippedToolResult : AgentToolResult :=
  text_result (u "Skipped due to queued user message.") (JObj []).

Definition createAbortedToolExecutionResult : AgentToolResult :=
  text_result (u "Tool execution was aborted.") (JObj []).

Definition toolFailureEnvelope (validation : bool) : json :=
  JObj [(u "failureKind", JStr (if validation then u "argument_validation" else u "execution"))].

(** [Boolean(v)]. *)
Definition truthy (v : json) : bool :=
  match v with
  | JUndefined | JNull => false
  | JBool b => b
  | JNum n => negb (n =? 0)
  | JStr s => negb (bool_decide (s = []))
  | JArr _ | JObj _ => true
  end.

(** [key in obj]. *)
Definition has_key (v : json) (k : jstr) : bool :=
  match v with JObj fields => existsb (fun f => fst f === k) fields | _ => false end.

Definition coerce_block (sanitizeText : jstr -> jstr) (b : json) : list ResultBlock :=
  if negb (has_key b (u "type")) then []
  else match json_get b (u "type") with
       | JStr t =>
           if t ==s "text" then
             match json_get b (u "text") with JStr s => [TextBlock (sanitizeText s)] | _ => [] end
           else if t ==s "image" then
             match json_get b (u "data"), json_get b (u "mimeType") with
             | JStr d, JStr m => [ImageBlock d m]
             | _, _ => []
             end
           else []
       | _ => []
       end.

Definition coerceToolResult (sanitizeText : jstr -> jstr) (raw : json) : AgentToolResult * bool :=
  let rawDetails := if has_key raw (u "details") then json_get raw (u "details") else JObj [] in
  let explicitError := has_key raw (u "isError") && truthy (json_get raw (u "isError")) in
  match json_get raw (u "content") with
  | JArr blocks =>
      ({| result_content := flat_map (coerce_block sanitizeText) blocks; result_details := rawDetails;
          result_isError := if explicitError then Some true else None |}, false)
  | _ =>
      ({| result_content := [TextBlock (u "Tool returned an invalid result: missing content array.")];
          result_details := rawDetails; result_isError := Some true |}, true)
  end.

(** ** Finding the tool *)

Definition activeToolForCallName (tools : list AgentTool) (callName : jstr) : option AgentTool :=
  match List.find (fun t => tool_name t === callName) tools with
  | Some t => Some t
  | None => List.find (fun t => bool_decide (customWireName t = Some callName)) tools
  end.

Definition toolCallNames (t : AgentTool) : list jstr :=
  match customWireName t with
  | None => [tool_name t]
  | Some w => if w === tool_name t then [tool_name t] else [tool_name t; w]
  end.

Definition isToolDiscoveryCallable (tools : list AgentTool) : bool :=
  existsb (fun t => existsb (fun n => n ==s "search_tool_bm25") (toolCallNames t)) tools.

Definition not_found_text (tools : list AgentTool) (name : jstr) : jstr :=
  let base := u "Tool " ++ name ++ u " not found" in
  if isToolDiscoveryCallable tools then
    base ++ u ". If you are unsure whether this tool exists or how to use it, call `search_tool_bm25` to discover and activate the matching tool, then retry."
  else base.

Definition in_quotes (s : jstr) : jstr := [34] ++ s ++ [34].

Definition incomplete_text (name : jstr) (reason : IncompleteReason) : jstr :=
  match reason with
  | malformed_arguments => u "The terminal arguments for tool call " ++ in_quotes name ++ u " did not decode to a valid JSON object. The arguments cannot be executed. Re-issue the call with valid, complete arguments."
  | conflicting => u "The streamed and terminal arguments for tool call " ++ in_quotes name ++ u " disagree. The arguments cannot be executed safely. Re-issue the call with consistent arguments."
  | ambiguous => u "The identity of tool call " ++ in_quotes name ++ u " was ambiguous on the wire (duplicate call id or id/call_id collision), so its arguments cannot be safely attributed. Re-issue the call."
  | cut_off => u "Tool call " ++ in_quotes name ++ u " was cut off before its arguments finished streaming (the response hit its output token limit). The partial arguments cannot be executed. Re-issue the call with complete arguments, splitting the work into smaller steps if needed."
  end.

Definition escaped_text (name : jstr) : jstr :=
  u "Tool call " ++ in_quotes name ++ u " spelled printable text as \uXXXX escapes instead of literal UTF-8 characters. Escaped text cannot be verified " ++ [8212] ++ u " a single wrong hex digit silently becomes a different character " ++ [8212] ++ u " so the call was not executed. Re-issue it writing every printable character literally.".

(** ** What the loop calls and this file does not define *)
Class ToolHost := {
  sanitizeText : jstr -> jstr;
  (** [validateToolArguments]: the coerced arguments, or the message of the error it throws *)
  validateToolArguments : AgentTool -> ToolCall -> json -> result jstr json;
  (** [isDisplaySafeEscapedArguments] and [isDisplaySafeRawEscapeEvidence] together *)
  displaySafe : option AgentTool -> json -> ToolCall -> bool;
  (** [tool.intent(args)], where the tool has such a function and it returns *)
  tool_intent : AgentTool -> json -> option jstr
}.

(** The part of [AgentLoopConfig] that the batch reads. *)
Record Config := {
  cfg_tools : list AgentTool;
  interrupt_immediate : bool;
  has_steering : bool;
  has_before : bool;
  has_after : bool;
  intentTracing : bool;
  has_signal : bool
}.

(** ** State *)

(** What an execution left in the locals [result], [isError] and [caughtError] of a task. *)
Inductive Caught := not_caught | caught_error | caught_blocked.

Record Outcome := { o_result : AgentToolResult; o_error : bool; o_caught : Caught }.

(** Where a task is suspended. *)
Inductive Phase :=
| no_task                          (* the ledger refused the reservation *)
| waiting (deps : list nat)        (* [start]: all of these tasks *)
| before (effective : json)        (* [await beforeToolCall] *)
| running                          (* [await execution] *)
| after (o : Outcome)              (* [await afterToolCall] *)
| finishing (o : Outcome)          (* [await runInActiveSpan] *)
| steering (check : nat)           (* [await steeringCheck] *)
| ending (ok : bool)               (* [runTool] has resolved or rejected *)
| settled (ok : bool).             (* and so has the task, after its [finally] *)

Record Rec := {
  toolCall : ToolCall;
  tool : option AgentTool;
  args : json;
  eventFields : option (jstr * jstr * option jstr);
  started : bool;
  r_result : option AgentToolResult;
  r_isError : bool;
  skipped : bool;
  toolResultMessage : option ToolResultMessage;
  resultEmitted : bool;
  argumentValidationFailed : bool;
  phase : Phase
}.

(** The events pushed to the stream; the first argument is the record they come from and
    [nonDispatched] is the mark that [markNonDispatchedToolEvent] puts on an event. *)
Inductive AgentEvent :=
| tool_execution_start (i : nat) (id name : jstr) (a : json) (int : option jstr) (nonDispatched : bool)
| tool_execution_update (i : nat) (id name : jstr) (a : json) (partial : AgentToolResult)
| tool_execution_end (i : nat) (id name : jstr) (res : AgentToolResult) (err nonDispatched : bool)
| message_start (i : nat) (m : ToolResultMessage)
| message_end (i : nat) (m : ToolResultMessage).

Inductive SpanStatus := st_aborted | st_blocked | st_error | st_ok.

(** What is reported to the run collector: the end of a span, and a call that was skipped. *)
Inductive Telemetry :=
| finishExecuteToolSpan (i : nat) (st : SpanStatus)
| recordSkippedTool (i : nat).

(** A steering message; its content is not looked at. *)
Abbreviation Message := jstr (only parsing).

Inductive Main :=
| racing
| returned (toolResults : list (nat * ToolResultMessage)) (steeringOut : option (list Message))
    (malformed : list jstr).

Record Batch := {
  records : list Rec;
  events : list AgentEvent;
  telemetry : list Telemetry;
  emittedToolResults : list (nat * ToolResultMessage);
  triggered : bool;
  steeringMessages : option (list Message);
  steeringCheck : option nat;
  checks : list bool;              (* how each finished check settled, oldest first *)
  aborted : bool;                  (* [signal.aborted] *)
  main : Main
}.

(** ** A turn that ended in an error or an abort *)

(** [createAbortedToolResult]: the answer to a call of a turn whose message errored or was aborted, with the
    events pushed for it. *)
Definition createAbortedToolResult (i : nat) (c : ToolCall) (was_aborted : bool) (errorMessage : option jstr)
    : list AgentEvent * ToolResultMessage :=
  let message := if was_aborted then u "Tool execution was aborted" else u "Tool execution failed due to an error" in
  let text := match errorMessage with
              | Some ((_ :: _) as e) => message ++ u ": " ++ e
              | _ => message ++ u "."
              end in
  let res := text_result text (JObj []) in
  let m := {| toolCallId := call_id c; toolName := call_name c; content := result_content res;
              details := JObj []; isError := true |} in
  ([tool_execution_start i (call_id c) (call_name c) (arguments c) (intent c) true;
    tool_execution_end i (call_id c) (call_name c) res true true;
    message_start i m; message_end i m], m).

(** ** Assignments to the batch *)

Definition on_rec (i : nat) (f : Rec -> Rec) (b : Batch) : Batch :=
  {| records := alter f i (records b); events := events b; telemetry := telemetry b;
     emittedToolResults := emittedToolResults b; triggered := triggered b;
     steeringMessages := steeringMessages b; steeringCheck := steeringCheck b; checks := checks b;
     aborted := aborted b; main := main b |}.

Definition push (es : list AgentEvent) (b : Batch) : Batch :=
  {| records := records b; events := events b ++ es; telemetry := telemetry b;
     emittedToolResults := emittedToolResults b; triggered := triggered b;
     steeringMessages := steeringMessages b; steeringCheck := steeringCheck b; checks := checks b;
     aborted := aborted b; main := main b |}.

Definition report (t : Telemetry) (b : Batch) : Batch :=
  {| records := records b; events := events b; telemetry := telemetry b ++ [t];
     emittedToolResults := emittedToolResults b; triggered := triggered b;
     steeringMessages := steeringMessages b; steeringCheck := steeringCheck b; checks := checks b;
     aborted := aborted b; main := main b |}.

Definition add_result (i : nat) (m : ToolResultMessage) (b : Batch) : Batch :=
  {| records := records b; events := events b; telemetry := telemetry b;
     emittedToolResults := emittedToolResults b ++ [(i, m)]; triggered := triggered b;
     steeringMessages := steeringMessages b; steeringCheck := steeringCheck b; checks := checks b;
     aborted := aborted b; main := main b |}.

Definition set_main (m : Main) (b : Batch) : Batch :=
  {| records := records b; events := events b; telemetry := telemetry b;
     emittedToolResults := emittedToolResults b; triggered := triggered b;
     steeringMessages := steeringMessages b; steeringCheck := steeringCheck b; checks := checks b;
     aborted := aborted b; main := m |}.

(** [signal] is aborted by its owner. *)
Definition abort_signal (b : Batch) : Batch :=
  {| records := records b; events := events b; telemetry := telemetry b;
     emittedToolResults := emittedToolResults b; triggered := triggered b;
     steeringMessages := steeringMessages b; steeringCheck := steeringCheck b; checks := checks b;
     aborted := true; main := main b |}.

(** A new [steeringCheck]. *)
Definition open_check (b : Batch) : Batch :=
  {| records := records b; events := events b; telemetry := telemetry b;
     emittedToolResults := emittedToolResults b; triggered := triggered b;
     steeringMessages := steeringMessages b; steeringCheck := Some (length (checks b));
     checks := checks b; aborted := aborted b; main := main b |}.

(** The check settles: [getSteeringMessages] has answered [ms], or rejected. *)
Definition close_check (answer : option (list Message)) (b : Batch) : Batch :=
  let hit := match answer with Some (_ :: _) => true | _ => false end in
  {| records := records b; events := events b; telemetry := telemetry b;
     emittedToolResults := emittedToolResults b; triggered := triggered b || hit;
     steeringMessages := if hit then answer else steeringMessages b; steeringCheck := None;
     checks := checks b ++ [match answer with Some _ => true | None => false end];
     aborted := aborted b; main := main b |}.

(** ** Assignments to a record *)

Definition set_phase (p : Phase) (r : Rec) : Rec :=
  {| toolCall := toolCall r; tool := tool r; args := args r; eventFields := eventFields r;
     started := started r; r_result := r_result r; r_isError := r_isError r; skipped := skipped r;
     toolResultMessage := toolResultMessage r; resultEmitted := resultEmitted r;
     argumentValidationFailed := argumentValidationFailed r; phase := p |}.

Definition set_skipped (r : Rec) : Rec :=
  {| toolCall := toolCall r; tool := tool r; args := args r; eventFields := eventFields r;
     started := started r; r_result := r_result r; r_isError := r_isError r; skipped := true;
     toolResultMessage := toolResultMessage r; resultEmitted := resultEmitted r;
     argumentValidationFailed := argumentValidationFailed r; phase := phase r |}.

Definition set_call (c : ToolCall) (a : json) (r : Rec) : Rec :=
  {| toolCall := c; tool := tool r; args := a; eventFields := eventFields r;
     started := started r; r_result := r_result r; r_isError := r_isError r; skipped := skipped r;
     toolResultMessage := toolResultMessage r; resultEmitted := resultEmitted r;
     argumentValidationFailed := argumentValidationFailed r; phase := phase r |}.

Definition set_invalid (r : Rec) : Rec :=
  {| toolCall := toolCall r; tool := tool r; args := args r; eventFields := eventFields r;
     started := started r; r_result := r_result r; r_isError := r_isError r; skipped := skipped r;
     toolResultMessage := toolResultMessage r; resultEmitted := resultEmitted r;
     argumentValidationFailed := true; phase := phase r |}.

Definition set_started (fields : jstr * jstr * option jstr) (effective : json) (r : Rec) : Rec :=
  {| toolCall := toolCall r; tool := tool r; args := effective; eventFields := Some fields;
     started := true; r_result := r_result r; r_isError := r_isError r; skipped := skipped r;
     toolResultMessage := toolResultMessage r; resultEmitted := resultEmitted r;
     argumentValidationFailed := argumentValidationFailed r; phase := running |}.

Definition set_args (effective : json) (r : Rec) : Rec := set_call (toolCall r) effective r.

Definition set_answer (res : AgentToolResult) (err : bool) (m : ToolResultMessage) (r : Rec) : Rec :=
  {| toolCall := toolCall r; tool := tool r; args := args r; eventFields := eventFields r;
     started := started r; r_result := Some res; r_isError := err; skipped := skipped r;
     toolResultMessage := Some m; resultEmitted := true;
     argumentValidationFailed := argumentValidationFailed r; phase := phase r |}.

Definition fields_of (r : Rec) : jstr * jstr * option jstr :=
  default (call_id (toolCall r), call_name (toolCall r), intent (toolCall r)) (eventFields r).

(** ** Results *)

(** [emitToolResult] *)
Definition emitToolResult (i : nat) (res : AgentToolResult) (err : bool) (b : Batch) : Batch :=
  match records b !! i with
  | None => b
  | Some r =>
      if resultEmitted r then b
      else
        let '(id, name, int) := fields_of r in
        let dispatched := started r in
        let m := {| toolCallId := id; toolName := name; content := result_content res;
                    details := result_details res; isError := err |} in
        push [message_start i m; message_end i m]
          (add_result i m
             (on_rec i (set_answer res err m)
                (push ((if dispatched then [] else [tool_execution_start i id name (args r) int true])
                         ++ [tool_execution_end i id name res err (negb dispatched)]) b)))
  end.

(** What the [finally] of a task and the last loop of the batch do to a record without a message. *)
Definition skip_unanswered (i : nat) (b : Batch) : Batch :=
  match records b !! i with
  | Some r =>
      match toolResultMessage r with
      | Some _ => b
      | None => emitToolResult i createSkippedToolResult true
                  (report (recordSkippedTool i) (on_rec i set_skipped b))
      end
  | None => b
  end.

Definition abort_unanswered (i : nat) (b : Batch) : Batch :=
  match records b !! i with
  | Some r =>
      match toolResultMessage r with
      | Some _ => b
      | None => emitToolResult i createAbortedToolExecutionResult true (on_rec i set_skipped b)
      end
  | None => b
  end.

Definition for_records (f : nat -> Batch -> Batch) (b : Batch) : Batch :=
  foldl (fun b i => f i b) b (seq 0 (length (records b))).

(** [toolCall.name + ":" + JSON.stringify(toolCall.arguments)] of the calls that failed validation. *)
Definition malformedToolCallSignatures (b : Batch) : list jstr :=
  flat_map (fun r =>
    if argumentValidationFailed r
       && match toolResultMessage r with Some m => isError m | None => false end
    then [call_name (toolCall r) ++ u ":" ++ stringify (arguments (toolCall r))] else [])
    (records b).

(** The end of [executeToolCalls], after the race. *)
Definition finish_batch (b : Batch) : Batch :=
  let b' := for_records skip_unanswered b in
  set_main (returned (emittedToolResults b') (steeringMessages b') (malformedToolCallSignatures b')) b'.

(** ** One task *)

(** The own enumerable properties of a value that is destructured. *)
Definition own_fields (v : json) : list (jstr * json) :=
  match v with
  | JObj fields => fields
  | JArr items => imap (fun i v => (num_to_str (Z.of_nat i), v)) items
  | JStr s => imap (fun i c => (num_to_str (Z.of_nat i), JStr [c])) s
  | _ => []
  end.

(** [extractIntent]; [None] is the TypeError of destructuring null. *)
Definition extractIntent (a : json) : option (option jstr * json) :=
  match a with
  | JNull | JUndefined => None
  | _ =>
      let stripped := JObj (List.filter (fun f => negb (fst f ==s "_i")) (own_fields a)) in
      match field_of (own_fields a) (u "_i") with
      | JStr s => Some (if trim s === [] then None else Some (trim s), stripped)
      | _ => Some (None, stripped)
      end
  end.

Definition with_intent (int : option jstr) (c : ToolCall) : ToolCall :=
  match int with
  | None => c
  | Some _ => {| call_id := call_id c; call_name := call_name c; arguments := arguments c; intent := int;
                 incompleteArguments := incompleteArguments c; escapedGuarded := escapedGuarded c |}
  end.

Section runTool.
Context `{ToolHost} (cfg : Config).

(** The call with its intent, and [argsForExecution]; [None] when the destructuring throws. *)
Definition trace_intent (t : option AgentTool) (c : ToolCall) : option (ToolCall * json) :=
  if intentTracing cfg then
    match extractIntent (arguments c) with
    | None => None
    | Some (Some int, stripped) => Some (with_intent (Some int) c, stripped)
    | Some (None, stripped) =>
        let derived :=
          match t with
          | Some t => match tool_intent t stripped with
                      | Some d => if trim d === [] then None else Some (trim d)
                      | None => None
                      end
          | None => None
          end in
        Some (with_intent derived c, stripped)
    end
  else Some (c, arguments c).

(** The checks before [beforeToolCall]: the effective arguments, or whether the failure is one of
    validation and its message. *)
Definition check_call (t : option AgentTool) (c : ToolCall) (a : json) : result (bool * jstr) json :=
  match incompleteArguments c with
  | Some reason => Err (true, incomplete_text (call_name c) reason)
  | None =>
      if escapedGuarded c && negb (displaySafe t a c) then Err (true, escaped_text (call_name c))
      else
        match t with
        | None => Err (false, not_found_text (cfg_tools cfg) (call_name c))
        | Some t =>
            match validateToolArguments t c a with
            | Ok effective => Ok effective
            | Err msg => if lenientArgValidation t then Ok a else Err (true, msg)
            end
        end
  end.

(** Leaving the [try] of [runTool] with an outcome. *)
Definition to_after (i : nat) (o : Outcome) (b : Batch) : Batch :=
  on_rec i (set_phase (if has_after cfg then after o else finishing o)) b.

Definition failure (r : Rec) (c : Caught) (msg : jstr) : Outcome :=
  {| o_result := text_result msg (toolFailureEnvelope (argumentValidationFailed r));
     o_error := true; o_caught := c |}.

(** [catch (e)] *)
Definition catch_failure (i : nat) (c : Caught) (msg : jstr) (b : Batch) : Batch :=
  match records b !! i with
  | Some r => to_after i (failure r c msg) b
  | None => b
  end.

(** From [record.args = effectiveArgs] to the invocation of the tool. *)
Definition dispatch (i : nat) (effective : json) (b : Batch) : Batch :=
  match records b !! i with
  | Some r =>
      let c := toolCall r in
      if match tool r with Some t => executable t | None => false end then
        push [tool_execution_start i (call_id c) (call_name c) (args r) (intent c) false]
          (on_rec i (set_started (call_id c, call_name c, intent c) effective) b)
      else catch_failure i caught_error (u "Tool " ++ call_name c ++ u " has no executable implementation")
             (on_rec i (set_args effective) b)
  | None => b
  end.

(** [runTool] up to its first await. *)
Definition begin_task (i : nat) (b : Batch) : Batch :=
  match records b !! i with
  | None => b
  | Some r =>
      if triggered b then on_rec i (set_phase (ending true)) (on_rec i set_skipped b)
      else
        match trace_intent (tool r) (toolCall r) with
        | None => on_rec i (set_phase (ending false)) b
        | Some (c, a) =>
            let b1 := on_rec i (set_call c a) b in
            match check_call (tool r) c a with
            | Err (validation, msg) =>
                catch_failure i caught_error msg
                  (if validation then on_rec i set_invalid b1 else b1)
            | Ok effective =>
                if has_before cfg then on_rec i (set_phase (before effective)) b1
                else dispatch i effective b1
            end
        end
  end.

Inductive BeforeAnswer := Proceed | Block (reason : option jstr) | BeforeThrows (msg : jstr).

Definition before_answered (i : nat) (effective : json) (ans : BeforeAnswer) (b : Batch) : Batch :=
  match ans with
  | Proceed => dispatch i effective b
  | Block reason => catch_failure i caught_blocked (default (u "Tool execution was blocked") reason) b
  | BeforeThrows msg => catch_failure i caught_error msg b
  end.

Inductive ExecAnswer := Returns (raw : json) | ExecThrows (msg : jstr).

Definition executed (i : nat) (ans : ExecAnswer) (b : Batch) : Batch :=
  match ans with
  | Returns raw =>
      let '(res, bad) := coerceToolResult sanitizeText raw in
      to_after i {| o_result := res; o_error := bad || default false (result_isError res);
                    o_caught := not_caught |} b
  | ExecThrows msg => catch_failure i caught_error msg b
  end.

Inductive AfterAnswer :=
| AfterNothing
| AfterOverrides (c : option (list ResultBlock)) (d : option json) (e : option bool)
| AfterThrows (msg : jstr).

Definition apply_after (ans : AfterAnswer) (o : Outcome) : Outcome :=
  match ans with
  | AfterNothing => o
  | AfterOverrides c d e =>
      {| o_result := {| result_content := default (result_content (o_result o)) c;
                        result_details := default (result_details (o_result o)) d;
                        result_isError := match e with Some _ => e | None => result_isError (o_result o) end |};
         o_error := default (o_error o) e; o_caught := o_caught o |}
  | AfterThrows msg => {| o_result := text_result msg (JObj []); o_error := true; o_caught := caught_error |}
  end.

(** [checkSteering]; the task that asks is then suspended on the check or has nothing left to do. *)
Definition checkSteering (i : nat) (b : Batch) : Batch :=
  if negb (interrupt_immediate cfg) || negb (has_steering cfg) || triggered b
     || (has_signal cfg && aborted b)
  then on_rec i (set_phase (ending true)) b
  else match steeringCheck b with
       | Some k => on_rec i (set_phase (steering k)) b
       | None => on_rec i (set_phase (steering (length (checks b)))) (open_check b)
       end.

Definition span_status (interrupted : bool) (o : Outcome) : SpanStatus :=
  if interrupted then st_aborted
  else match o_caught o with
       | caught_blocked => st_blocked
       | _ => if o_error o then st_error else st_ok
       end.

(** The end of [runTool]: the result, the span, the steering check. *)
Definition finish_task (i : nat) (o : Outcome) (b : Batch) : Batch :=
  let interrupted := triggered b in
  checkSteering i
    (report (finishExecuteToolSpan i (span_status interrupted o))
       (if interrupted then emitToolResult i createSkippedToolResult true (on_rec i set_skipped b)
        else emitToolResult i (o_result o) (o_error o) b)).
End runTool.

(** ** The batch *)

(** One resumption: a task begins, is refused or goes on with the answer it waited for, the user aborts,
    or [executeToolCalls] itself wakes up. *)
Inductive Label :=
| Begin (i : nat)
| Refuse (i : nat)
| BeforeAnswered (i : nat) (ans : BeforeAnswer)
| Partial (i : nat) (raw : json)
| Executed (i : nat) (ans : ExecAnswer)
| AfterAnswered (i : nat) (ans : AfterAnswer)
| Finish (i : nat)
| SteeringAnswered (ans : option (list Message))
| Resume (i : nat)
| Conclude (i : nat)
| AbortSignal
| AllSettled
| SawAbort.

Definition phase_at (b : Batch) (i : nat) : option Phase := phase <$> records b !! i.

Definition is_settled (p : option Phase) : bool :=
  match p with Some (settled _) | Some no_task => true | _ => false end.

Definition all_settled (b : Batch) : bool := forallb (fun r => is_settled (Some (phase r))) (records b).

Definition settled_as (ok : bool) (p : option Phase) : bool :=
  match p with Some (settled ok') => Bool.eqb ok ok' | _ => false end.

(** Whether [start] has resolved, and whether it has rejected. *)
Definition resolved (b : Batch) (deps : list nat) : bool :=
  forallb (fun d => settled_as true (phase_at b d)) deps.

Definition rejected (b : Batch) (deps : list nat) : bool :=
  existsb (fun d => settled_as false (phase_at b d)) deps.

Section batch.
Context `{ToolHost} (cfg : Config).

Definition step (l : Label) (b : Batch) : option Batch :=
  match l with
  | Begin i =>
      match phase_at b i with
      | Some (waiting deps) => if resolved b deps then Some (begin_task cfg i b) else None
      | _ => None
      end
  | Refuse i =>
      match phase_at b i with
      | Some (waiting deps) =>
          if rejected b deps then Some (on_rec i (set_phase (ending false)) b) else None
      | _ => None
      end
  | BeforeAnswered i ans =>
      match phase_at b i with
      | Some (before effective) => Some (before_answered cfg i effective ans b)
      | _ => None
      end
  | Partial i raw =>
      match records b !! i with
      | Some r =>
          if started r then
            let '(id, name, _) := fields_of r in
            Some (push [tool_execution_update i id name (args r) (fst (coerceToolResult sanitizeText raw))] b)
          else None
      | None => None
      end
  | Executed i ans =>
      match phase_at b i with
      | Some running => Some (executed cfg i ans b)
      | _ => None
      end
  | AfterAnswered i ans =>
      match phase_at b i with
      | Some (after o) => Some (on_rec i (set_phase (finishing (apply_after ans o))) b)
      | _ => None
      end
  | Finish i =>
      match phase_at b i with
      | Some (finishing o) => Some (finish_task cfg i o b)
      | _ => None
      end
  | SteeringAnswered ans =>
      match steeringCheck b with
      | Some _ => Some (close_check ans b)
      | None => None
      end
  | Resume i =>
      match phase_at b i with
      | Some (steering k) =>
          match checks b !! k with
          | Some ok => Some (on_rec i (set_phase (ending ok)) b)
          | None => None
          end
      | _ => None
      end
  | Conclude i =>
      match phase_at b i with
      | Some (ending ok) => Some (on_rec i (set_phase (settled ok)) (skip_unanswered i b))
      | _ => None
      end
  | AbortSignal => if has_signal cfg && negb (aborted b) then Some (abort_signal b) else None
  | AllSettled =>
      match main b with
      | racing => if all_settled b then Some (finish_batch b) else None
      | returned _ _ _ => None
      end
  | SawAbort =>
      match main b with
      | racing => if has_signal cfg && aborted b
                  then Some (finish_batch (for_records abort_unanswered b)) else None
      | returned _ _ _ => None
      end
  end.

Fixpoint steps (ls : list Label) (b : Batch) : option Batch :=
  match ls with
  | [] => Some b
  | l :: ls' => match step l b with Some b' => steps ls' b' | None => None end
  end.

(** ** Launching the tasks *)

Definition new_record (c : ToolCall) : Rec :=
  let t := activeToolForCallName (cfg_tools cfg) (call_name c) in
  {| toolCall := c; tool := t; args := arguments c; eventFields := None; started := false;
     r_result := None; r_isError := false; skipped := false; toolResultMessage := None;
     resultEmitted := false; argumentValidationFailed := false; phase := no_task |}.

Definition concurrency_of (r : Rec) : Concurrency :=
  match tool r with Some t => default shared (concurrency t) | None => shared end.

(** [lastExclusive] and [sharedTasks] of the loop that starts the tasks. *)
Record Launch := { l_batch : Batch; lastExclusive : list nat; sharedTasks : list nat }.

(** One iteration; [reserve] is the answer of the resource ledger, [None] when there is none. *)
Definition launch_one (reserve : nat -> option bool) (l : Launch) (i : nat) : Launch :=
  match records (l_batch l) !! i with
  | None => l
  | Some r =>
      match reserve i with
      | Some false =>
          {| l_batch := emitToolResult i createSkippedToolResult true
                          (report (recordSkippedTool i) (on_rec i set_skipped (l_batch l)));
             lastExclusive := lastExclusive l; sharedTasks := sharedTasks l |}
      | _ =>
          match concurrency_of r with
          | exclusive =>
              {| l_batch := on_rec i (set_phase (waiting (lastExclusive l ++ sharedTasks l))) (l_batch l);
                 lastExclusive := [i]; sharedTasks := [] |}
          | shared =>
              {| l_batch := on_rec i (set_phase (waiting (lastExclusive l))) (l_batch l);
                 lastExclusive := lastExclusive l; sharedTasks := sharedTasks l ++ [i] |}
          end
      end
  end.

Definition initial (calls : list ToolCall) (already_aborted : bool) : Batch :=
  {| records := map new_record calls; events := []; telemetry := []; emittedToolResults := [];
     triggered := false; steeringMessages := None; steeringCheck := None; checks := [];
     aborted := has_signal cfg && already_aborted; main := racing |}.

Definition launch (reserve : nat -> option bool) (b : Batch) : Launch :=
  foldl (launch_one reserve) {| l_batch := b; lastExclusive := []; sharedTasks := [] |}
    (seq 0 (length (records b))).

(** [executeToolCalls] up to its first await: an abort that is already there ends the race at once. *)
Definition executeToolCalls (calls : list ToolCall) (reserve : nat -> option bool)
    (already_aborted : bool) : Batch :=
  let b := l_batch (launch reserve (initial calls already_aborted)) in
  if has_signal cfg && already_aborted then finish_batch (for_records abort_unanswered b) else b.

(** The states of a batch. *)
Definition reachable (calls : list ToolCall) (reserve : nat -> option bool) (already_aborted : bool)
    (b : Batch) : Prop :=
  exists ls, steps ls (executeToolCalls calls reserve already_aborted) = Some b.
End batch.
