(* ===== verification/ToolBatchRuns.v ===== *)
(** * How one call moves through a batch

    Every resumption of [ToolBatch.step] changes the record of one call, its events and its results,
    and leaves those of the others alone.  [vmove] lists these changes; [step_view] reads a resumption
    as a sequence of them, so that what holds of every call is shown once per kind of change. *)
From S2P Require Import Prelude.
From S2P Require Import Json.
From S2P Require Import ToolBatch.
#[local] Open Scope Z_scope.
#[local] Open Scope js_scope.

Definition ev_index (e : AgentEvent) : nat :=
  match e with
  | tool_execution_start i _ _ _ _ _ | tool_execution_update i _ _ _ _
  | tool_execution_end i _ _ _ _ _ | message_start i _ | message_end i _ => i
  end.

(** What a batch holds of its [i]-th call. *)
Record View := { v_rec : Rec; v_events : list AgentEvent; v_results : list ToolResultMessage }.

Definition events_of (i : nat) (es : list AgentEvent) : list AgentEvent :=
  List.filter (fun e => Nat.eqb (ev_index e) i) es.

Definition results_of (i : nat) (rs : list (nat * ToolResultMessage)) : list ToolResultMessage :=
  map snd (List.filter (fun p => Nat.eqb (fst p) i) rs).

Definition view (b : Batch) (i : nat) : option View :=
  (fun r => {| v_rec := r; v_events := events_of i (events b);
               v_results := results_of i (emittedToolResults b) |}) <$> records b !! i.

Definition on_view (f : Rec -> Rec) (v : View) : View :=
  {| v_rec := f (v_rec v); v_events := v_events v; v_results := v_results v |}.

Definition add_events (es : list AgentEvent) (v : View) : View :=
  {| v_rec := v_rec v; v_events := v_events v ++ es; v_results := v_results v |}.

(** The view after [emitToolResult i res err]. *)
Definition answer (i : nat) (res : AgentToolResult) (err : bool) (v : View) : View :=
  let r := v_rec v in
  let '(id, name, int) := fields_of r in
  let m := {| toolCallId := id; toolName := name; content := result_content res;
              details := result_details res; isError := err |} in
  {| v_rec := set_answer res err m r;
     v_events := (v_events v
                    ++ ((if started r then [] else [tool_execution_start i id name (args r) int true])
                          ++ [tool_execution_end i id name res err (negb (started r))]))
                   ++ [message_start i m; message_end i m];
     v_results := v_results v ++ [m] |}.

(** The changes to a record that no theorem looks at. *)
Definition neutral (f : Rec -> Rec) (r : Rec) : Prop :=
  phase (f r) = phase r /\ started (f r) = started r /\ eventFields (f r) = eventFields r
    /\ toolResultMessage (f r) = toolResultMessage r /\ resultEmitted (f r) = resultEmitted r
    /\ call_id (toolCall (f r)) = call_id (toolCall r)
    /\ call_name (toolCall (f r)) = call_name (toolCall r) /\ tool (f r) = tool r.

(** When a call may be answered, and with what. *)
Definition may_answer (b : Batch) (p : Phase) (res : AgentToolResult) (err : bool) : Prop :=
  match p with
  | finishing o =>
      if triggered b then res = createSkippedToolResult /\ err = true
      else res = o_result o /\ err = o_error o
  | ending _ | settled _ | no_task => res = createSkippedToolResult /\ err = true
  | _ => False
  end
  \/ (aborted b = true /\ err = true
      /\ (res = createSkippedToolResult \/ res = createAbortedToolExecutionResult)).

(** The steps between the points where a task is suspended, apart from the start of its tool. *)
Definition may_pass (b : Batch) (answered : bool) (p q : Phase) : Prop :=
  match p, q with
  | waiting deps, ending ok => ok = false \/ (triggered b = true /\ resolved b deps = true)
  | waiting deps, (before _ | after _ | finishing _) => triggered b = false /\ resolved b deps = true
  | before _, (after _ | finishing _) => True
  | running, (after _ | finishing _) => True
  | after _, finishing _ => True
  | finishing _, (steering _ | ending true) => answered = true
  | steering k, ending ok => checks b !! k = Some ok
  | ending ok, settled ok' => ok = ok' /\ answered = true
  | _, _ => False
  end.

Definition may_start (b : Batch) (p : Phase) : Prop :=
  match p with
  | waiting deps => triggered b = false /\ resolved b deps = true
  | before _ => True
  | _ => False
  end.

Inductive vmove (b : Batch) (i : nat) : View -> View -> Prop :=
| vm_edit f v : neutral f (v_rec v) -> vmove b i v (on_view f v)
| vm_pass q v :
    may_pass b (resultEmitted (v_rec v)) (phase (v_rec v)) q ->
    vmove b i v (on_view (set_phase q) v)
| vm_start effective v :
    may_start b (phase (v_rec v)) ->
    let c := toolCall (v_rec v) in
    vmove b i v
      (add_events [tool_execution_start i (call_id c) (call_name c) (args (v_rec v)) (intent c) false]
         (on_view (set_started (call_id c, call_name c, intent c) effective) v))
| vm_update id name a part v :
    started (v_rec v) = true ->
    vmove b i v (add_events [tool_execution_update i id name a part] v)
| vm_answer res err v :
    resultEmitted (v_rec v) = false -> may_answer b (phase (v_rec v)) res err ->
    vmove b i v (answer i res err v).

Create HintDb batch.
#[export] Hint Constructors vmove : batch.

(** ** The views after the assignments *)

Lemma events_of_app i xs ys : events_of i (xs ++ ys) = events_of i xs ++ events_of i ys.
Proof. apply List.filter_app. Qed.

Lemma results_of_app i xs ys : results_of i (xs ++ ys) = results_of i xs ++ results_of i ys.
Proof. unfold results_of. by rewrite List.filter_app, map_app. Qed.

Lemma events_of_own i es : Forall (fun e => ev_index e = i) es -> events_of i es = es.
Proof.
  induction 1 as [|e es He _ IH]; [done|]. unfold events_of in *. simpl.
  rewrite He, Nat.eqb_refl. by f_equal.
Qed.

Lemma events_of_other i j es : Forall (fun e => ev_index e = i) es -> i <> j -> events_of j es = [].
Proof.
  intros Hes Hij. induction Hes as [|e es He _ IH]; [done|]. unfold events_of in *. simpl.
  rewrite He. by destruct (Nat.eqb_spec i j).
Qed.

Lemma view_on_rec i f b : view (on_rec i f b) i = on_view f <$> view b i.
Proof.
  unfold view. cbn [on_rec records events emittedToolResults]. rewrite list_lookup_alter_eq.
  by destruct (records b !! i).
Qed.

Lemma view_on_rec_ne i j f b : i <> j -> view (on_rec i f b) j = view b j.
Proof. intros Hij. unfold view. cbn. by rewrite list_lookup_alter_ne. Qed.

Lemma view_push i es b :
  Forall (fun e => ev_index e = i) es -> view (push es b) i = add_events es <$> view b i.
Proof.
  intros Hes. unfold view. cbn [push records events emittedToolResults].
  rewrite events_of_app, (events_of_own i es Hes). by destruct (records b !! i).
Qed.

Lemma view_push_ne i j es b :
  Forall (fun e => ev_index e = i) es -> i <> j -> view (push es b) j = view b j.
Proof.
  intros Hes Hij. unfold view. cbn [push records events emittedToolResults].
  rewrite events_of_app, (events_of_other i j es Hes Hij).
  by rewrite app_nil_r.
Qed.

Lemma view_add_result i m b :
  view (add_result i m b) i =
  (fun v => {| v_rec := v_rec v; v_events := v_events v; v_results := v_results v ++ [m] |}) <$> view b i.
Proof.
  unfold view. cbn [add_result records events emittedToolResults]. rewrite results_of_app.
  assert (results_of i [(i, m)] = [m]) as -> by (unfold results_of; simpl; by rewrite Nat.eqb_refl).
  by destruct (records b !! i).
Qed.

Lemma view_add_result_ne i j m b : i <> j -> view (add_result i m b) j = view b j.
Proof.
  intros Hij. unfold view. cbn [add_result records events emittedToolResults]. rewrite results_of_app.
  assert (results_of j [(i, m)] = []) as ->.
  { unfold results_of. simpl. by destruct (Nat.eqb_spec i j). }
  by rewrite app_nil_r.
Qed.

(** Two batches that hold the same of every call. *)
Lemma view_report t b i : view (report t b) i = view b i.
Proof. done. Qed.

Lemma view_rec b i v : view b i = Some v -> records b !! i = Some (v_rec v).
Proof. unfold view. intros (r & Hr & ->)%fmap_Some. done. Qed.

Lemma rec_view b i r : records b !! i = Some r -> exists v, view b i = Some v /\ v_rec v = r.
Proof. unfold view. intros ->. by eexists. Qed.

Lemma view_none b i : records b !! i = None -> view b i = None.
Proof. unfold view. by intros ->. Qed.



(** ** Sequences of changes *)

(** No result is filed under a call that there is not. *)
Definition strays (b b' : Batch) : Prop :=
  forall j, records b !! j = None -> results_of j (emittedToolResults b') = results_of j (emittedToolResults b).

(** [b'] comes from [b] by changes that are allowed in the state [g]. *)
Definition moves (g b b' : Batch) : Prop :=
  (forall i, option_Forall2 (rtc (vmove g i)) (view b i) (view b' i)) /\ strays b b'.

Lemma moves_refl g b : moves g b b.
Proof. split; [|done]. intros i. destruct (view b i); constructor. done. Qed.

Lemma moves_none g b b' i : moves g b b' -> records b !! i = None -> records b' !! i = None.
Proof.
  intros [Hv _] Hr. specialize (Hv i). rewrite (view_none b i Hr) in Hv.
  destruct (records b' !! i) as [r|] eqn:Hr'; [|done].
  destruct (rec_view b' i r Hr') as (v & Hv' & _). rewrite Hv' in Hv. inversion Hv.
Qed.

Lemma moves_trans g b1 b2 b3 : moves g b1 b2 -> moves g b2 b3 -> moves g b1 b3.
Proof.
  intros H1 H2. split.
  - intros i. destruct H1 as [H1 _], H2 as [H2 _]. specialize (H1 i). specialize (H2 i).
    destruct H1; inversion H2; subst; constructor. by etrans.
  - intros j Hj. rewrite (proj2 H2) by (by eapply moves_none). by apply (proj2 H1).
Qed.

(** A change of one call. *)
Lemma moves_at g b b' i :
  (forall j, i <> j -> view b' j = view b j) ->
  (forall v, view b i = Some v -> exists v', view b' i = Some v' /\ rtc (vmove g i) v v') ->
  (view b i = None -> view b' i = None) ->
  strays b b' ->
  moves g b b'.
Proof.
  intros Hne Hi Hnone Hs. split; [|exact Hs]. intros j. destruct (decide (i = j)) as [<- | Hij].
  - destruct (view b i) as [v|] eqn:Hv.
    + destruct (Hi v eq_refl) as (v' & -> & Hrtc). by constructor.
    + rewrite (Hnone eq_refl). constructor.
  - rewrite (Hne j Hij). destruct (view b j); constructor. done.
Qed.

Lemma moves_same_views g b b' : (forall i, view b' i = view b i) -> strays b b' -> moves g b b'.
Proof. intros Hv Hs. split; [|exact Hs]. intros i. rewrite Hv. destruct (view b i); constructor. done. Qed.

Lemma moves_on_rec g i f b :
  (forall v, view b i = Some v -> vmove g i v (on_view f v)) -> moves g b (on_rec i f b).
Proof.
  intros Hf. apply (moves_at g b _ i).
  - intros j Hij. by apply view_on_rec_ne.
  - intros v Hv. rewrite view_on_rec, Hv. eexists. split; [done|]. apply rtc_once. by apply Hf.
  - intros Hv. by rewrite view_on_rec, Hv.
  - done.
Qed.

Lemma moves_edit g i f b :
  (forall r, records b !! i = Some r -> neutral f r) -> moves g b (on_rec i f b).
Proof. intros Hf. apply moves_on_rec. intros v Hv. apply vm_edit, Hf. by apply view_rec. Qed.

Lemma moves_pass g i q b :
  (forall r, records b !! i = Some r -> may_pass g (resultEmitted r) (phase r) q) ->
  moves g b (on_rec i (set_phase q) b).
Proof. intros Hq. apply moves_on_rec. intros v Hv. apply vm_pass, Hq. by apply view_rec. Qed.

Lemma emitToolResult_view i res err b v :
  view b i = Some v -> resultEmitted (v_rec v) = false ->
  view (emitToolResult i res err b) i = Some (answer i res err v).
Proof.
  intros Hv Hno. unfold emitToolResult. rewrite (view_rec b i v Hv), Hno. unfold answer.
  destruct (fields_of (v_rec v)) as [[id name] int].
  rewrite view_push by (repeat constructor). rewrite view_add_result, view_on_rec.
  rewrite view_push, Hv by (destruct (started (v_rec v)); repeat constructor). done.
Qed.

Lemma emitToolResult_ne i j res err b :
  i <> j -> view (emitToolResult i res err b) j = view b j.
Proof.
  intros Hij. unfold emitToolResult. destruct (records b !! i) as [r|]; [|done].
  destruct (resultEmitted r); [done|]. destruct (fields_of r) as [[id name] int].
  rewrite (view_push_ne i) by (first [done | repeat constructor]).
  rewrite view_add_result_ne, view_on_rec_ne by done.
  by rewrite (view_push_ne i) by (first [done | destruct (started r); repeat constructor]).
Qed.

Lemma emit_strays i res err b : strays b (emitToolResult i res err b).
Proof.
  intros j Hj. unfold emitToolResult. destruct (records b !! i) as [r|] eqn:Hr; [|done].
  destruct (resultEmitted r); [done|]. destruct (fields_of r) as [[id name] int].
  cbn [push add_result on_rec emittedToolResults]. rewrite results_of_app.
  assert (results_of j [(i, {| toolCallId := id; toolName := name; content := result_content res;
    details := result_details res; isError := err |})] = []) as ->; [|by rewrite app_nil_r].
  unfold results_of. cbn. destruct (Nat.eqb_spec i j) as [<- | ?]; [congruence | done].
Qed.

Lemma moves_emit g i res err b :
  (forall r, records b !! i = Some r -> may_answer g (phase r) res err) ->
  moves g b (emitToolResult i res err b).
Proof.
  intros Hm. apply (moves_at g b _ i).
  - intros j Hij. by apply emitToolResult_ne.
  - intros v Hv. destruct (resultEmitted (v_rec v)) eqn:Ho.
    + exists v. split; [|done]. unfold emitToolResult. by rewrite (view_rec b i v Hv), Ho.
    + exists (answer i res err v). split; [by apply emitToolResult_view|].
      apply rtc_once, vm_answer; [done|]. apply Hm. by apply view_rec.
  - intros Hv. unfold emitToolResult. destruct (records b !! i) eqn:Hr; [|done].
    destruct (rec_view b i _ Hr) as (v & Hv' & _). congruence.
  - apply emit_strays.
Qed.

(** The record of a call that has just been answered. *)
Lemma emit_rec i res err b r0 :
  records b !! i = Some r0 ->
  exists r, records (emitToolResult i res err b) !! i = Some r /\ resultEmitted r = true /\ phase r = phase r0.
Proof.
  intros Hr. unfold emitToolResult. rewrite Hr. destruct (resultEmitted r0) eqn:He; [by exists r0|].
  destruct (fields_of r0) as [[id name] int]. cbn [push add_result on_rec records].
  rewrite list_lookup_alter_eq, Hr. eexists. by repeat split.
Qed.

Lemma set_skipped_neutral r : neutral set_skipped r.
Proof. done. Qed.

Lemma set_invalid_neutral r : neutral set_invalid r.
Proof. done. Qed.

Lemma set_args_neutral a r : neutral (set_args a) r.
Proof. done. Qed.

(** The record of [i] after a change of it. *)
Lemma on_rec_lookup i f b r : records (on_rec i f b) !! i = Some r -> exists r0, records b !! i = Some r0 /\ r = f r0.
Proof. cbn. rewrite list_lookup_alter_eq. intros (r0 & H & ->)%fmap_Some. by exists r0. Qed.

Lemma on_rec_some i f b r : records b !! i = Some r -> records (on_rec i f b) !! i = Some (f r).
Proof. intros Hr. cbn. by rewrite list_lookup_alter_eq, Hr. Qed.

Lemma moves_skip g i b :
  (forall r, records b !! i = Some r -> may_answer g (phase r) createSkippedToolResult true) ->
  moves g b (skip_unanswered i b).
Proof.
  intros Hm. unfold skip_unanswered. destruct (records b !! i) as [r|] eqn:Hr; [|apply moves_refl].
  destruct (toolResultMessage r); [apply moves_refl|].
  eapply moves_trans; [apply (moves_edit g i set_skipped); intros; apply set_skipped_neutral|].
  eapply moves_trans; [apply (moves_same_views g _ (report (recordSkippedTool i) (on_rec i set_skipped b))); done|].
  apply moves_emit. intros r' Hr'.
  apply (on_rec_lookup i set_skipped b) in Hr' as (r0 & Hr0 & ->).
  rewrite Hr in Hr0. exact (Hm r0 Hr0).
Qed.

Lemma moves_abort g i b : aborted g = true -> moves g b (abort_unanswered i b).
Proof.
  intros Hg. unfold abort_unanswered. destruct (records b !! i) as [r|] eqn:Hr; [|apply moves_refl].
  destruct (toolResultMessage r); [apply moves_refl|].
  eapply moves_trans; [apply (moves_edit g i set_skipped); intros; apply set_skipped_neutral|].
  apply moves_emit. intros r' _. right. auto.
Qed.

Lemma moves_for_records g (I : Batch -> Prop) (f : nat -> Batch -> Batch) b :
  I b -> (forall i b', I b' -> I (f i b') /\ moves g b' (f i b')) -> moves g b (for_records f b).
Proof.
  intros HI Hf. unfold for_records. generalize (seq 0 (length (records b))) as js.
  intros js. assert (moves g b b) as Hb by apply moves_refl. revert Hb HI.
  generalize b at 2 3 5 as b'. induction js as [|i js IH]; intros b' Hb' HI; [done|]. simpl.
  destruct (Hf i b' HI) as [HI' Hm]. apply IH; [|done]. eapply moves_trans; [exact Hb' | exact Hm].
Qed.

(** The phases do not change when results are emitted. *)
Lemma emit_phase i j res err b : phase_at (emitToolResult i res err b) j = phase_at b j.
Proof.
  unfold emitToolResult. destruct (records b !! i) as [r|] eqn:Hr; [|done].
  destruct (resultEmitted r); [done|]. destruct (fields_of r) as [[id name] int].
  unfold phase_at. cbn [push add_result on_rec records].
  destruct (decide (i = j)) as [<- | Hij]; [|by rewrite list_lookup_alter_ne].
  by rewrite list_lookup_alter_eq, Hr.
Qed.

Lemma skipped_phase i j b : phase_at (on_rec i set_skipped b) j = phase_at b j.
Proof.
  unfold phase_at. cbn [on_rec records].
  destruct (decide (i = j)) as [<- | Hij]; [|by rewrite list_lookup_alter_ne].
  rewrite list_lookup_alter_eq. by destruct (records b !! i).
Qed.

Lemma skip_phase i j b : phase_at (skip_unanswered i b) j = phase_at b j.
Proof.
  unfold skip_unanswered. destruct (records b !! i) as [r|]; [|done].
  destruct (toolResultMessage r); [done|]. rewrite emit_phase. apply skipped_phase.
Qed.

(** ** Resumptions *)

Section resumptions.
Context `{ToolHost} (cfg : Config).

(** A phase from which the [try] of [runTool] may be left in the state [g]. *)
Definition in_try (g : Batch) (p : Phase) : Prop :=
  match p with
  | waiting deps => triggered g = false /\ resolved g deps = true
  | before _ | running => True
  | _ => False
  end.

Lemma moves_to_after g i o b :
  (forall r, records b !! i = Some r -> in_try g (phase r)) -> moves g b (to_after cfg i o b).
Proof.
  intros Hin. apply moves_pass. intros r Hr. specialize (Hin r Hr).
  destruct (has_after cfg), (phase r); done.
Qed.

Lemma moves_catch g i c msg b :
  (forall r, records b !! i = Some r -> in_try g (phase r)) -> moves g b (catch_failure cfg i c msg b).
Proof.
  intros Hin. unfold catch_failure. destruct (records b !! i) as [r|] eqn:Hr; [|apply moves_refl].
  apply moves_to_after. rewrite Hr. exact Hin.
Qed.

(** A change that keeps the phase of the record keeps it in the [try]. *)
Lemma in_try_edit g i f b :
  (forall r, records b !! i = Some r -> neutral f r) ->
  (forall r, records b !! i = Some r -> in_try g (phase r)) ->
  forall r, records (on_rec i f b) !! i = Some r -> in_try g (phase r).
Proof.
  intros Hf Hin r (r0 & Hr0 & ->)%on_rec_lookup. destruct (Hf r0 Hr0) as [-> _]. by apply Hin.
Qed.

Lemma moves_dispatch g i effective b :
  (forall r, records b !! i = Some r -> may_start g (phase r)) -> moves g b (dispatch cfg i effective b).
Proof.
  intros Hst. unfold dispatch. destruct (records b !! i) as [r|] eqn:Hr; [|apply moves_refl].
  specialize (Hst r eq_refl). destruct (match tool r with Some t => executable t | None => false end).
  - destruct (rec_view b i r Hr) as (v & Hv & <-).
    apply (moves_at g b _ i).
    + intros j Hij. rewrite (view_push_ne i) by (first [done | repeat constructor]).
      by apply view_on_rec_ne.
    + intros v' Hv'. rewrite Hv in Hv'. injection Hv' as <-. eexists. split.
      * rewrite view_push by (repeat constructor). rewrite view_on_rec, Hv. reflexivity.
      * apply rtc_once. by apply vm_start.
    + congruence.
    + done.
  - assert (Hin : forall r0, records b !! i = Some r0 -> in_try g (phase r0)).
    { intros r0 Hr0. rewrite Hr in Hr0. injection Hr0 as <-. by destruct (phase r). }
    eapply moves_trans; [apply (moves_edit g i (set_args effective)); intros; apply set_args_neutral|].
    apply moves_catch, in_try_edit; [intros; apply set_args_neutral | exact Hin].
Qed.

Lemma trace_intent_identity t c c' a :
  trace_intent cfg t c = Some (c', a) -> call_id c' = call_id c /\ call_name c' = call_name c.
Proof.
  assert (Hw : forall int, call_id (with_intent int c) = call_id c
                        /\ call_name (with_intent int c) = call_name c) by (by intros [int|]).
  unfold trace_intent. destruct (intentTracing cfg); [|naive_solver].
  destruct (extractIntent (arguments c)) as [[[int|] stripped]|]; [| |done].
  - intros [= <- <-]. apply (Hw (Some int)).
  - intros [= <- <-]. apply Hw.
Qed.

Lemma moves_begin b i :
  (forall r, records b !! i = Some r -> exists deps, phase r = waiting deps /\ resolved b deps = true) ->
  moves b b (begin_task cfg i b).
Proof.
  intros Hw. unfold begin_task. destruct (records b !! i) as [r|] eqn:Hr; [|apply moves_refl].
  destruct (Hw r eq_refl) as (deps & Hp & Hres).
  destruct (triggered b) eqn:Ht.
  { eapply moves_trans; [apply (moves_edit b i set_skipped); intros; apply set_skipped_neutral|].
    apply moves_pass. intros r' (r0 & Hr0 & ->)%on_rec_lookup. rewrite Hr in Hr0.
    injection Hr0 as <-. cbn. rewrite Hp. by right. }
  destruct (trace_intent cfg (tool r) (toolCall r)) as [[c a]|] eqn:Hti.
  2:{ apply moves_pass. intros r0 Hr0. rewrite Hr in Hr0. injection Hr0 as <-. rewrite Hp. by left. }
  apply trace_intent_identity in Hti as [Hid Hname].
  assert (Hn : forall r', records b !! i = Some r' -> neutral (set_call c a) r').
  { intros r' Hr'. rewrite Hr in Hr'. injection Hr' as <-. repeat split; done. }
  eapply moves_trans; [by apply (moves_edit b i (set_call c a))|].
  assert (Hp1 : forall r', records (on_rec i (set_call c a) b) !! i = Some r' -> phase r' = waiting deps).
  { intros r' (r0 & Hr0 & ->)%on_rec_lookup. rewrite Hr in Hr0. by injection Hr0 as <-. }
  assert (Hin : forall r', records (on_rec i (set_call c a) b) !! i = Some r' -> in_try b (phase r')).
  { intros r' ->%Hp1. done. }
  destruct (check_call cfg (tool r) c a) as [effective | [[|] msg]].
  - destruct (has_before cfg).
    + apply moves_pass. intros r' ->%Hp1. done.
    + apply moves_dispatch. intros r' ->%Hp1. done.
  - eapply moves_trans; [apply (moves_edit b i set_invalid); intros; apply set_invalid_neutral|].
    apply moves_catch, in_try_edit; [intros; apply set_invalid_neutral | exact Hin].
  - by apply moves_catch.
Qed.

Lemma phase_at_rec b i p : phase_at b i = Some p -> forall r, records b !! i = Some r -> phase r = p.
Proof. unfold phase_at. intros (r0 & Hr0 & ->)%fmap_Some r Hr. congruence. Qed.

Lemma moves_finish b i o :
  phase_at b i = Some (finishing o) -> moves b b (finish_task cfg i o b).
Proof.
  intros Hp. set (b1 := report (finishExecuteToolSpan i (span_status (triggered b) o))
    (if triggered b then emitToolResult i createSkippedToolResult true (on_rec i set_skipped b)
     else emitToolResult i (o_result o) (o_error o) b)).
  assert (Hb1 : moves b b b1).
  { eapply moves_trans; [|by apply moves_same_views].
    destruct (triggered b) eqn:Ht.
    - eapply moves_trans; [apply (moves_edit b i set_skipped); intros; apply set_skipped_neutral|].
      apply moves_emit. intros r' (r0 & Hr0 & ->)%on_rec_lookup. cbn.
      rewrite (phase_at_rec b i _ Hp r0 Hr0). left. cbn. by rewrite Ht.
    - apply moves_emit. intros r' Hr'. rewrite (phase_at_rec b i _ Hp r' Hr'). left. cbn. by rewrite Ht. }
  assert (Hdone : forall r, records b1 !! i = Some r -> phase r = finishing o /\ resultEmitted r = true).
  { intros r Hr. subst b1. cbn [report records] in Hr. unfold phase_at in Hp.
    apply fmap_Some in Hp as (r0 & Hr0 & Hp).
    destruct (triggered b).
    - destruct (emit_rec i createSkippedToolResult true (on_rec i set_skipped b) (set_skipped r0))
        as (r' & Hr' & He & Hph); [cbn; by rewrite list_lookup_alter_eq, Hr0|].
      rewrite Hr' in Hr. injection Hr as <-. by rewrite Hph, Hp.
    - destruct (emit_rec i (o_result o) (o_error o) b r0 Hr0) as (r' & Hr' & He & Hph).
      rewrite Hr' in Hr. injection Hr as <-. by rewrite Hph, Hp. }
  unfold finish_task. fold b1.
  assert (Hpass : forall q, (exists k, q = steering k) \/ q = ending true -> moves b b1 (on_rec i (set_phase q) b1)).
  { intros q Hq. apply moves_pass. intros r [-> ->]%Hdone. by destruct Hq as [ [k ->] | ->]. }
  unfold checkSteering. eapply moves_trans; [exact Hb1|].
  destruct (negb (interrupt_immediate cfg) || _ || _ || _); [apply Hpass; auto|].
  destruct (steeringCheck b1) as [k|]; [apply Hpass; eauto|].
  eapply moves_trans; [apply (moves_same_views b _ (open_check b1)); done|].
  exact (Hpass (steering (length (checks b1))) (or_introl (ex_intro _ _ eq_refl))).
Qed.

(** A record has a message exactly when its result was emitted. *)
Definition consistent (b : Batch) : Prop :=
  forall i r, records b !! i = Some r ->
  resultEmitted r = match toolResultMessage r with Some _ => true | None => false end.

Lemma moves_conclude b i ok :
  consistent b -> phase_at b i = Some (ending ok) ->
  moves b b (on_rec i (set_phase (settled ok)) (skip_unanswered i b)).
Proof.
  intros Hc Hp. apply fmap_Some in Hp as (r0 & Hr0 & Hp).
  eapply moves_trans; [apply moves_skip|].
  { intros r Hr. rewrite Hr0 in Hr. injection Hr as <-. rewrite <- Hp. by left. }
  apply moves_pass. intros r Hr. specialize (Hc i r0 Hr0). unfold skip_unanswered in Hr. rewrite Hr0 in Hr.
  destruct (toolResultMessage r0) eqn:Hm.
  - rewrite Hr0 in Hr. injection Hr as <-. by rewrite <- Hp, Hc.
  - destruct (emit_rec i createSkippedToolResult true
      (report (recordSkippedTool i) (on_rec i set_skipped b)) (set_skipped r0)) as (r' & Hr' & He & Hph).
    { cbn. by rewrite list_lookup_alter_eq, Hr0. }
    rewrite Hr' in Hr. injection Hr as <-. rewrite He, Hph. cbn. by rewrite <- Hp.
Qed.

Lemma all_settled_phase b : all_settled b = true <-> forall i r, records b !! i = Some r -> is_settled (Some (phase r)) = true.
Proof.
  unfold all_settled. rewrite forallb_Forall, Forall_lookup. done.
Qed.

Lemma moves_all_settled b : all_settled b = true -> moves b b (finish_batch b).
Proof.
  intros Hall. unfold finish_batch.
  apply (moves_trans b _ (for_records skip_unanswered b)); [|by apply moves_same_views].
  apply (moves_for_records b (fun b' => forall j p, phase_at b' j = Some p -> is_settled (Some p) = true)).
  - intros j p (r & Hr & ->)%fmap_Some. by apply (proj1 (all_settled_phase b) Hall j).
  - intros i b' HI. split; [intros j p; rewrite skip_phase; apply HI|].
    apply moves_skip. intros r Hr. left. specialize (HI i (phase r)). unfold phase_at in HI.
    rewrite Hr in HI. specialize (HI eq_refl). by destruct (phase r).
Qed.

Lemma moves_saw_abort b :
  aborted b = true -> moves b b (finish_batch (for_records abort_unanswered b)).
Proof.
  intros Hab. unfold finish_batch. eapply moves_trans.
  { apply (moves_for_records b (fun _ => True) abort_unanswered); [done|]. intros i b' _. split; [done|].
    by apply moves_abort. }
  set (b1 := for_records abort_unanswered b).
  apply (moves_trans b _ (for_records skip_unanswered b1)); [|by apply moves_same_views].
  apply (moves_for_records b (fun _ => True)); [done|]. intros i b' _. split; [done|].
  apply moves_skip. intros r Hr. right. auto.
Qed.

(** A resumption moves every call by changes that are allowed in the state before it. *)
Lemma step_advances l b b' : consistent b -> step cfg l b = Some b' -> moves b b b'.
Proof.
  intros Hc. destruct l as [i|i|i ans|i raw|i ans|i ans|i|ans|i|i| | |]; cbn [step].
  - destruct (phase_at b i) as [[]|] eqn:Hp; try done. destruct (resolved b deps) eqn:Hres; [|done].
    intros [= <-]. apply moves_begin. intros r Hr. eexists. by rewrite (phase_at_rec b i _ Hp r Hr).
  - destruct (phase_at b i) as [[]|] eqn:Hp; try done. destruct (rejected b deps); [|done].
    intros [= <-]. apply moves_pass. intros r Hr. rewrite (phase_at_rec b i _ Hp r Hr). by left.
  - destruct (phase_at b i) as [[]|] eqn:Hp; try done. intros [= <-].
    pose proof (phase_at_rec b i _ Hp) as Hph.
    destruct ans; [apply moves_dispatch | apply moves_catch | apply moves_catch]; intros r Hr; by rewrite (Hph r Hr).
  - destruct (records b !! i) as [r|] eqn:Hr; [|done]. destruct (started r) eqn:Hs; [|done].
    destruct (fields_of r) as [[id name] int] eqn:Hf. intros [= <-].
    destruct (rec_view b i r Hr) as (v & Hv & <-). apply (moves_at b b _ i).
    + intros j Hij. apply (view_push_ne i); [repeat constructor | done].
    + intros v' Hv'. rewrite Hv in Hv'. injection Hv' as <-. eexists. split.
      * rewrite view_push by (repeat constructor). rewrite Hv. reflexivity.
      * by apply rtc_once, vm_update.
    + congruence.
    + done.
  - destruct (phase_at b i) as [[]|] eqn:Hp; try done. intros [= <-].
    pose proof (phase_at_rec b i _ Hp) as Hph. unfold executed.
    destruct ans; [destruct (coerceToolResult _ _); apply moves_to_after | apply moves_catch];
      intros r Hr; by rewrite (Hph r Hr).
  - destruct (phase_at b i) as [[]|] eqn:Hp; try done. intros [= <-]. apply moves_pass.
    intros r Hr. by rewrite (phase_at_rec b i _ Hp r Hr).
  - destruct (phase_at b i) as [[]|] eqn:Hp; try done. intros [= <-]. by apply moves_finish.
  - destruct (steeringCheck b); [|done]. intros [= <-]. by apply moves_same_views.
  - destruct (phase_at b i) as [[]|] eqn:Hp; try done. destruct (checks b !! check) eqn:Hk; [|done].
    intros [= <-]. apply moves_pass. intros r Hr. by rewrite (phase_at_rec b i _ Hp r Hr).
  - destruct (phase_at b i) as [[]|] eqn:Hp; try done. intros [= <-]. by apply moves_conclude.
  - destruct (has_signal cfg && negb (aborted b)); [|done]. intros [= <-]. by apply moves_same_views.
  - destruct (main b); [|done]. destruct (all_settled b) eqn:Hall; [|done]. intros [= <-].
    by apply moves_all_settled.
  - destruct (main b); [|done]. destruct (has_signal cfg), (aborted b) eqn:Hab; try done. intros [= <-].
    by apply moves_saw_abort.
Qed.
End resumptions.
