(* ===== verification/ToolBatchProofs.v ===== *)
(** * The invariant of a batch of tool calls

    [good] is what holds of one call at every point of its life; [Sound] says it of all of them in every
    state that a batch reaches, and [step_globals] which resumption touches what the calls share. *)
From S2P Require Import Prelude.
From S2P Require Import Json.
From S2P Require Import ToolBatch.
From S2P Require Import ToolBatchRuns.
#[local] Open Scope Z_scope.
#[local] Open Scope js_scope.

(** ** The invariant of one call *)

Definition answered (v : View) : bool := resultEmitted (v_rec v).

(** [v] is a view of the call [c]: it keeps the identity of the call, has a result exactly when it has a
    message, and its flags fit its phase. *)
Record good (c : ToolCall) (v : View) : Prop := {
  good_id : call_id (toolCall (v_rec v)) = call_id c;
  good_name : call_name (toolCall (v_rec v)) = call_name c;
  good_fields : forall id name int, eventFields (v_rec v) = Some (id, name, int) ->
    id = call_id c /\ name = call_name c;
  good_results : v_results v = match toolResultMessage (v_rec v) with Some m => [m] | None => [] end;
  good_emitted : answered v = match toolResultMessage (v_rec v) with Some _ => true | None => false end;
  good_message : forall m, toolResultMessage (v_rec v) = Some m ->
    toolCallId m = call_id c /\ toolName m = call_name c;
  good_phase : match phase (v_rec v) with
    | no_task | steering _ | settled _ => answered v = true
    | waiting _ | before _ => started (v_rec v) = false
    | ending _ => answered v = true \/ started (v_rec v) = false
    | running => started (v_rec v) = true
    | _ => True
    end
}.

Lemma fields_identity c v :
  good c v -> exists int, fields_of (v_rec v) = (call_id c, call_name c, int).
Proof.
  intros G. unfold fields_of. destruct (eventFields (v_rec v)) as [[[id name] int]|] eqn:Hf; cbn.
  - destruct (good_fields c v G id name int Hf) as [-> ->]. by exists int.
  - rewrite (good_id c v G), (good_name c v G). by eexists.
Qed.

Lemma good_edit c f v : neutral f (v_rec v) -> good c v -> good c (on_view f v).
Proof.
  intros (Hp & Hs & Hf & Hm & He & Hid & Hn & _) [G1 G2 G3 G4 G5 G6 G7].
  split; unfold answered in *; cbn; rewrite ?Hp, ?Hs, ?Hf, ?Hm, ?He, ?Hid, ?Hn; auto.
Qed.

Lemma good_answer c i res err v : answered v = false -> good c v -> good c (answer i res err v).
Proof.
  intros Hno G. pose proof (fields_identity c v G) as [int Hf]. destruct G as [G1 G2 G3 G4 G5 G6 G7].
  unfold answer. rewrite Hf. split; unfold answered in *; cbn; auto.
  - rewrite G4. rewrite Hno in G5. by destruct (toolResultMessage (v_rec v)).
  - by intros m [= <-].
  - destruct (phase (v_rec v)); auto.
Qed.

(** The invariant holds at every point of the life of a call. *)
Lemma good_move c b i v v' : good c v -> vmove b i v v' -> good c v'.
Proof.
  intros G Hm. destruct Hm as [f v Hf | q v Hq | eff v Hst c' | id name a part v Hs | res err v Hno Hans].
  - by apply good_edit.
  - destruct G as [G1 G2 G3 G4 G5 G6 G7]. split; unfold answered in *; cbn; auto.
    destruct (phase (v_rec v)), q; cbn in Hq; try done; try (by auto);
      try (destruct ok; naive_solver); naive_solver.
  - destruct G as [G1 G2 G3 G4 G5 G6 G7]. split; unfold answered in *; cbn; auto.
    intros id name int [= <- <- <-]. auto.
  - destruct G as [G1 G2 G3 G4 G5 G6 G7]. by split.
  - by apply good_answer.
Qed.

Lemma good_moves c b i v v' : good c v -> rtc (vmove b i) v v' -> good c v'.
Proof. intros G Hr. induction Hr as [|v1 v2 v3 Hm _ IH]; [done|]. apply IH. by eapply good_move. Qed.

(** ** The tasks as they are launched *)

Section launching.
Context `{ToolHost} (cfg : Config).

(** A call before the loop has reached it. *)
Definition unlaunched (c : ToolCall) : View :=
  {| v_rec := new_record cfg c; v_events := []; v_results := [] |}.

(** A call after the loop has reached it. *)
Definition launched (i : nat) (c : ToolCall) (v : View) : Prop :=
  (exists deps, v = on_view (set_phase (waiting deps)) (unlaunched c))
  \/ v = answer i createSkippedToolResult true (on_view set_skipped (unlaunched c)).

Lemma view_initial calls ab i c :
  calls !! i = Some c -> view (initial cfg calls ab) i = Some (unlaunched c).
Proof. intros Hc. unfold view. cbn. by rewrite list_lookup_fmap, Hc. Qed.

Lemma launch_one_ne reserve l i j :
  i <> j -> view (l_batch (launch_one reserve l i)) j = view (l_batch l) j.
Proof.
  intros Hij. unfold launch_one. destruct (records (l_batch l) !! i) as [r|]; [|done].
  destruct (reserve i) as [[|]|]; [destruct (concurrency_of r) | | destruct (concurrency_of r)];
    cbn [l_batch]; rewrite ?emitToolResult_ne, ?view_report, ?view_on_rec_ne by done; done.
Qed.

Lemma launch_one_view reserve l i c :
  view (l_batch l) i = Some (unlaunched c) ->
  exists v, view (l_batch (launch_one reserve l i)) i = Some v /\ launched i c v.
Proof.
  intros Hv. unfold launch_one. rewrite (view_rec _ _ _ Hv).
  destruct (reserve i) as [[|]|].
  2:{ cbn [l_batch]. eexists. split; [apply emitToolResult_view|by right].
      - by rewrite view_report, view_on_rec, Hv.
      - done. }
  all: destruct (concurrency_of _); cbn [l_batch]; rewrite view_on_rec, Hv;
    eexists; (split; [reflexivity|]); left; by eexists.
Qed.

Lemma launch_fold reserve js l :
  NoDup js ->
  (forall i, i ∉ js -> view (l_batch (foldl (launch_one reserve) l js)) i = view (l_batch l) i)
  /\ (forall i c, i ∈ js -> view (l_batch l) i = Some (unlaunched c) ->
      exists v, view (l_batch (foldl (launch_one reserve) l js)) i = Some v /\ launched i c v).
Proof.
  intros Hnd. revert l. induction js as [|j js IH]; intros l; [by split; [|intros i c ?%elem_of_nil]|].
  apply NoDup_cons in Hnd as [Hj Hnd]. destruct (IH Hnd (launch_one reserve l j)) as [IH1 IH2]. cbn.
  split.
  - intros i [Hij Hi]%not_elem_of_cons. rewrite IH1 by done. by apply launch_one_ne.
  - intros i c [-> | Hi]%elem_of_cons Hv.
    + rewrite IH1 by done. by apply launch_one_view.
    + apply IH2; [done|]. rewrite launch_one_ne; [done|]. by intros ->.
Qed.

Lemma launch_views calls reserve ab i c :
  calls !! i = Some c ->
  exists v, view (l_batch (launch reserve (initial cfg calls ab))) i = Some v /\ launched i c v.
Proof.
  intros Hc. unfold launch. apply launch_fold; [apply NoDup_seq | |by apply view_initial].
  apply elem_of_seq. apply lookup_lt_Some in Hc. cbn. rewrite length_map. lia.
Qed.

Lemma launched_good i c v : launched i c v -> good c v.
Proof.
  assert (G0 : forall p, (match p with waiting _ | before _ => True | _ => False end) ->
    good c (on_view (set_phase p) (unlaunched c))).
  { intros p Hp. split; cbn; try done. destruct p; done. }
  intros [ [deps ->] | ->]; [by apply G0|].
  unfold answer, fields_of. split; cbn; try done. by intros m [= <-].
Qed.
End launching.

(** ** Every state of a batch *)

Definition Sound (calls : list ToolCall) (b : Batch) : Prop :=
  (forall i, option_Forall2 good (calls !! i) (view b i))
  /\ (forall i, calls !! i = None -> results_of i (emittedToolResults b) = []).

Lemma sound_records calls b i : Sound calls b -> (records b !! i = None <-> calls !! i = None).
Proof.
  intros [Hv _]. specialize (Hv i). unfold view in Hv.
  destruct (records b !! i), (calls !! i); cbn in Hv; inversion Hv; done.
Qed.

Lemma sound_moves calls g b b' : Sound calls b -> moves g b b' -> Sound calls b'.
Proof.
  intros S Hm. split.
  - intros i. destruct S as [Hv _], Hm as [Hm _]. specialize (Hv i). specialize (Hm i).
    destruct Hv; inversion Hm; subst; constructor. by eapply good_moves.
  - intros i Hi. rewrite (proj2 Hm) by by apply (sound_records calls). by apply (proj2 S).
Qed.

Lemma sound_view calls b i v : Sound calls b -> view b i = Some v -> exists c, calls !! i = Some c /\ good c v.
Proof. intros [Hv _] Hi. specialize (Hv i). rewrite Hi in Hv. inversion Hv; subst. eauto. Qed.

Lemma sound_call calls b i c : Sound calls b -> calls !! i = Some c -> exists v, view b i = Some v /\ good c v.
Proof. intros [Hv _] Hi. specialize (Hv i). rewrite Hi in Hv. inversion Hv; subst. eauto. Qed.

Lemma sound_consistent calls b : Sound calls b -> consistent b.
Proof.
  intros S i r Hr. destruct (rec_view b i r Hr) as (v & Hv & <-).
  destruct (sound_view calls b i v S Hv) as (c & _ & G). apply (good_emitted c v G).
Qed.

Section runs.
Context `{ToolHost} (cfg : Config) (calls : list ToolCall) (reserve : nat -> option bool) (ab : bool).

Lemma steps_app ls1 ls2 b b' :
  steps cfg (ls1 ++ ls2) b = Some b' <-> exists b1, steps cfg ls1 b = Some b1 /\ steps cfg ls2 b1 = Some b'.
Proof.
  revert b. induction ls1 as [|l ls1 IH]; intros b; cbn.
  - split; [by eexists|]. by intros (b1 & [= <-] & H1).
  - destruct (step cfg l b) as [b1|]; [apply IH|]. split; [done|]. by intros (b1 & ? & _).
Qed.

(** What holds at the first await and survives a resumption holds in every state. *)
Lemma reachable_ind (P : Batch -> Prop) :
  P (executeToolCalls cfg calls reserve ab) ->
  (forall l b b', reachable cfg calls reserve ab b -> P b -> step cfg l b = Some b' -> P b') ->
  forall b, reachable cfg calls reserve ab b -> P b.
Proof.
  intros H0 Hs b [ls Hls]. revert b Hls. induction ls as [|l ls IH] using rev_ind; intros b Hls.
  - cbn in Hls. by injection Hls as <-.
  - apply steps_app in Hls as (b1 & Hb1 & Hstep). cbn in Hstep.
    destruct (step cfg l b1) as [b2|] eqn:Hl; [|done]. injection Hstep as <-.
    apply (Hs l b1); [by exists ls | by apply IH | done].
Qed.

Lemma launch_one_none l i j :
  records (l_batch l) !! j = None -> records (l_batch (launch_one reserve l i)) !! j = None.
Proof.
  intros Hj. destruct (decide (i = j)) as [-> | Hij]; [by unfold launch_one; rewrite Hj|].
  destruct (records (l_batch (launch_one reserve l i)) !! j) as [r|] eqn:Hr; [|done].
  destruct (rec_view _ _ _ Hr) as (v & Hv & _). rewrite launch_one_ne in Hv by done.
  rewrite (view_none _ _ Hj) in Hv. done.
Qed.

Lemma launch_one_strays l i : strays (l_batch l) (l_batch (launch_one reserve l i)).
Proof.
  unfold launch_one. destruct (records (l_batch l) !! i) as [r|] eqn:Hr; [|done].
  destruct (reserve i) as [[|]|]; [by destruct (concurrency_of r) | | by destruct (concurrency_of r)].
  intros j Hj. cbn [l_batch]. rewrite emit_strays; [done|]. cbn.
  rewrite list_lookup_alter_ne; [done|]. congruence.
Qed.

Lemma launch_strays js l : strays (l_batch l) (l_batch (foldl (launch_one reserve) l js)).
Proof.
  revert l. induction js as [|i js IH]; intros l j Hj; [done|]. cbn.
  rewrite IH by by apply launch_one_none. by apply launch_one_strays.
Qed.

Lemma launch_none js l j :
  records (l_batch l) !! j = None -> records (l_batch (foldl (launch_one reserve) l js)) !! j = None.
Proof. revert l. induction js as [|i js IH]; intros l Hj; [done|]. cbn. by apply IH, launch_one_none. Qed.

Lemma launch_sound : Sound calls (l_batch (launch reserve (initial cfg calls ab))).
Proof.
  assert (Hnone : forall i, calls !! i = None -> records (initial cfg calls ab) !! i = None).
  { intros i Hi. cbn. by rewrite list_lookup_fmap, Hi. }
  split.
  - intros i. destruct (calls !! i) as [c|] eqn:Hc.
    + destruct (launch_views cfg calls reserve ab i c Hc) as (v & -> & Hl). constructor.
      by eapply launched_good.
    + rewrite view_none; [constructor|]. by apply launch_none, Hnone.
  - intros i Hi. unfold launch. by rewrite launch_strays by by apply Hnone.
Qed.

Lemma launch_globals js l :
  let b := l_batch (foldl (launch_one reserve) l js) in
  triggered b = triggered (l_batch l) /\ aborted b = aborted (l_batch l) /\ main b = main (l_batch l)
  /\ checks b = checks (l_batch l) /\ steeringCheck b = steeringCheck (l_batch l)
  /\ steeringMessages b = steeringMessages (l_batch l).
Proof.
  revert l. induction js as [|i js IH]; intros l; [done|]. cbn.
  destruct (IH (launch_one reserve l i)) as (-> & -> & -> & -> & -> & ->).
  unfold launch_one. destruct (records (l_batch l) !! i) as [r|]; [|done].
  destruct (reserve i) as [[|]|]; [by destruct (concurrency_of r) | | by destruct (concurrency_of r)].
  cbn [l_batch]. unfold emitToolResult.
  match goal with |- context [match ?o with Some _ => _ | None => _ end] => destruct o as [r'|]; [|done] end.
  destruct (resultEmitted r'); [done|]. by destruct (fields_of r') as [[id name] int].
Qed.

Lemma start_sound : Sound calls (executeToolCalls cfg calls reserve ab).
Proof.
  unfold executeToolCalls. destruct (has_signal cfg && ab) eqn:He; [|apply launch_sound].
  eapply sound_moves; [apply launch_sound|]. apply moves_saw_abort.
  unfold launch. destruct (launch_globals (seq 0 (length (records (initial cfg calls ab))))
    {| l_batch := initial cfg calls ab; lastExclusive := []; sharedTasks := [] |}) as (_ & -> & _).
  exact He.
Qed.

Lemma reachable_sound b : reachable cfg calls reserve ab b -> Sound calls b.
Proof.
  apply reachable_ind; [apply start_sound|]. intros l b1 b2 _ S Hs.
  eapply sound_moves; [exact S|]. eapply step_advances; [|exact Hs]. by eapply sound_consistent.
Qed.
End runs.

(** ** Every call is answered once *)

Definition all_answered (b : Batch) : Prop :=
  forall i v, view b i = Some v -> answered v = true.

Lemma answered_move b i v v' :
  vmove b i v v' -> answered v = true ->
  answered v' = true /\ v_results v' = v_results v
  /\ toolResultMessage (v_rec v') = toolResultMessage (v_rec v).
Proof.
  intros Hm Ha. destruct Hm as [f v Hf | q v Hq | eff v Hst c' | id name a part v Hs | res err v Hno Hans];
    try done.
  - destruct Hf as (_ & _ & _ & Hm & He & _). unfold answered in *. cbn. by rewrite He, Hm.
  - unfold answered in Ha. congruence.
Qed.

Lemma answered_moves b i v v' :
  rtc (vmove b i) v v' -> answered v = true ->
  answered v' = true /\ v_results v' = v_results v
  /\ toolResultMessage (v_rec v') = toolResultMessage (v_rec v).
Proof.
  intros Hr. induction Hr as [|v1 v2 v3 Hm _ IH]; [done|]. intros Ha.
  destruct (answered_move b i v1 v2 Hm Ha) as (Ha2 & <- & <-). by apply IH.
Qed.

(** What [executeToolCalls] returned is what every call has been answered with. *)
Definition returned_all (b : Batch) : Prop :=
  match main b with
  | racing => True
  | returned rs _ _ =>
      all_answered b /\ forall i, results_of i rs = results_of i (emittedToolResults b)
  end.

Lemma answered_batch calls g b b' :
  Sound calls b -> moves g b b' -> all_answered b ->
  all_answered b' /\ forall i, results_of i (emittedToolResults b') = results_of i (emittedToolResults b).
Proof.
  intros S [Hm Hs] Ha.
  assert (Hi : forall i v', view b' i = Some v' -> exists v, view b i = Some v /\ rtc (vmove g i) v v').
  { intros i v' Hv'. specialize (Hm i). rewrite Hv' in Hm. inversion Hm; subst. eauto. }
  split.
  - intros i v' Hv'. destruct (Hi i v' Hv') as (v & Hv & Hr). by apply (answered_moves g i v v' Hr), (Ha i).
  - intros i. destruct (view b' i) as [v'|] eqn:Hv'.
    + destruct (Hi i v' Hv') as (v & Hv & Hr).
      destruct (answered_moves g i v v' Hr (Ha i v Hv)) as (_ & Hres & _).
      unfold view in Hv, Hv'. apply fmap_Some in Hv as (r & _ & ->), Hv' as (r' & _ & ->). done.
    + apply Hs. specialize (Hm i). rewrite Hv' in Hm. inversion Hm as [|Hn]; subst.
      destruct (records b !! i) as [r|] eqn:Hr; [|done]. destruct (rec_view b i r Hr) as (v & Hv & _). congruence.
Qed.

Lemma skip_answers i b r :
  consistent b -> records (skip_unanswered i b) !! i = Some r -> resultEmitted r = true.
Proof.
  intros Hc. unfold skip_unanswered. destruct (records b !! i) as [r0|] eqn:Hr0; [|congruence].
  destruct (toolResultMessage r0) eqn:Hm.
  - rewrite Hr0. intros [= <-]. by rewrite (Hc i r0 Hr0), Hm.
  - destruct (emit_rec i createSkippedToolResult true
        (report (recordSkippedTool i) (on_rec i set_skipped b)) (set_skipped r0)) as (r' & Hr' & He & _).
    { cbn. by rewrite list_lookup_alter_eq, Hr0. }
    rewrite Hr'. by intros [= <-].
Qed.

Lemma moves_skip_any i b : moves (abort_signal b) b (skip_unanswered i b).
Proof. apply moves_skip. intros r _. right. auto. Qed.

Lemma skip_fold calls js b :
  Sound calls b ->
  let b' := foldl (fun b i => skip_unanswered i b) b js in
  Sound calls b' /\ (forall i v v', view b i = Some v -> answered v = true -> view b' i = Some v' -> answered v' = true)
  /\ (forall i v', i ∈ js -> view b' i = Some v' -> answered v' = true).
Proof.
  revert b. induction js as [|j js IH]; intros b S; cbn.
  { split; [done|]. split; [intros; congruence|]. by intros i v' ?%elem_of_nil. }
  assert (S1 : Sound calls (skip_unanswered j b)) by (eapply sound_moves; [exact S | apply moves_skip_any]).
  destruct (IH _ S1) as (S' & Hkeep & Hall). split; [exact S'|]. split.
  - intros i v v' Hv Ha Hv'. pose proof (proj1 (moves_skip_any j b) i) as Hm. rewrite Hv in Hm.
    inversion Hm as [x v1 Hr Hx Hv1|]; subst. symmetry in Hv1. apply (Hkeep i v1 v'); [exact Hv1| |exact Hv'].
    by apply (answered_moves _ i v v1 Hr).
  - intros i v' [-> | Hi]%elem_of_cons Hv'; [|by apply (Hall i)].
    destruct (records (skip_unanswered j b) !! j) as [r|] eqn:Hr.
    + destruct (rec_view _ _ _ Hr) as (v & Hv & <-). apply (Hkeep j v v' Hv); [|exact Hv'].
      unfold answered. eapply (skip_answers j b); [by eapply sound_consistent | exact Hr].
    + exfalso. apply (sound_records calls _ j S1) in Hr. apply (sound_records calls _ j S') in Hr.
      by rewrite (view_none _ _ Hr) in Hv'.
Qed.

Lemma finish_returned calls b : Sound calls b -> returned_all (finish_batch b).
Proof.
  intros S. destruct (skip_fold calls (seq 0 (length (records b))) b S) as (S' & _ & Hall).
  unfold returned_all, finish_batch. cbn [set_main main]. split; [|done].
  intros i v Hv. apply (Hall i); [|exact Hv]. apply elem_of_seq.
  destruct (records b !! i) as [r|] eqn:Hr; [apply lookup_lt_Some in Hr; lia|].
  apply (sound_records calls b i S), (sound_records calls _ i S') in Hr.
  apply view_rec in Hv. unfold for_records in Hv. cbn [set_main records] in Hv. congruence.
Qed.

(** ** What a resumption does to the state that the calls share *)

(** [interruptState], the signal, the steering check and the end of the race. *)
Definition globals (b : Batch) : bool * bool * Main * list bool * option nat * option (list Message) :=
  (triggered b, aborted b, main b, checks b, steeringCheck b, steeringMessages b).

Lemma globals_fields b b' :
  globals b' = globals b ->
  triggered b' = triggered b /\ aborted b' = aborted b /\ main b' = main b /\ checks b' = checks b
  /\ steeringCheck b' = steeringCheck b /\ steeringMessages b' = steeringMessages b.
Proof. unfold globals. intros Hg. repeat split; congruence. Qed.

Lemma emit_globals i res err b : globals (emitToolResult i res err b) = globals b.
Proof.
  unfold emitToolResult. destruct (records b !! i) as [r|]; [|done].
  destruct (resultEmitted r); [done|]. by destruct (fields_of r) as [[id name] int].
Qed.

Lemma skip_globals i b : globals (skip_unanswered i b) = globals b.
Proof.
  unfold skip_unanswered. destruct (records b !! i) as [r|]; [|done].
  destruct (toolResultMessage r); [done|]. by rewrite emit_globals.
Qed.

Lemma abort_globals i b : globals (abort_unanswered i b) = globals b.
Proof.
  unfold abort_unanswered. destruct (records b !! i) as [r|]; [|done].
  destruct (toolResultMessage r); [done|]. by rewrite emit_globals.
Qed.

Lemma for_records_globals f b :
  (forall i b', globals (f i b') = globals b') -> globals (for_records f b) = globals b.
Proof.
  intros Hf. unfold for_records. generalize (seq 0 (length (records b))) as js. intros js. revert b.
  induction js as [|i js IH]; intros b; [done|]. cbn. by rewrite IH, Hf.
Qed.

Section shared_state.
Context `{ToolHost} (cfg : Config).

Lemma catch_globals i c msg b : globals (catch_failure cfg i c msg b) = globals b.
Proof. unfold catch_failure. by destruct (records b !! i). Qed.

Lemma dispatch_globals i effective b : globals (dispatch cfg i effective b) = globals b.
Proof.
  unfold dispatch. destruct (records b !! i) as [r|]; [|done].
  destruct (match tool r with Some t => executable t | None => false end); [done|].
  by rewrite catch_globals.
Qed.

Lemma begin_globals i b : globals (begin_task cfg i b) = globals b.
Proof.
  unfold begin_task. destruct (records b !! i) as [r|]; [|done].
  destruct (triggered b); [done|]. destruct (trace_intent cfg (tool r) (toolCall r)) as [[c a]|]; [|done].
  destruct (check_call cfg (tool r) c a) as [effective | [[|] msg]]; [|by rewrite catch_globals..].
  destruct (has_before cfg); [done|]. by rewrite dispatch_globals.
Qed.

(** A resumption of a task, other than the end of [runTool], leaves the shared state alone. *)
Lemma step_globals l b b' :
  step cfg l b = Some b' ->
  match l with
  | Finish _ => triggered b' = triggered b /\ aborted b' = aborted b /\ main b' = main b
      /\ checks b' = checks b /\ steeringMessages b' = steeringMessages b
      /\ (steeringCheck b' = steeringCheck b
          \/ steeringCheck b = None /\ steeringCheck b' = Some (length (checks b)))
  | SteeringAnswered ans => b' = close_check ans b
  | AbortSignal => b' = abort_signal b /\ has_signal cfg = true
  | AllSettled => b' = finish_batch b /\ main b = racing
  | SawAbort => b' = finish_batch (for_records abort_unanswered b) /\ main b = racing /\ aborted b = true
  | _ => globals b' = globals b
  end.
Proof.
  destruct l as [i|i|i ans|i raw|i ans|i ans|i|ans|i|i| | |]; cbn [step].
  - destruct (phase_at b i) as [[]|]; try done. destruct (resolved b deps); [|done].
    intros [= <-]. apply begin_globals.
  - destruct (phase_at b i) as [[]|]; try done. destruct (rejected b deps); [|done]. by intros [= <-].
  - destruct (phase_at b i) as [[]|]; try done. intros [= <-].
    destruct ans; [apply dispatch_globals | apply catch_globals | apply catch_globals].
  - destruct (records b !! i) as [r|]; [|done]. destruct (started r); [|done].
    destruct (fields_of r) as [[id name] int]. by intros [= <-].
  - destruct (phase_at b i) as [[]|]; try done. intros [= <-].
    destruct ans; [|apply catch_globals]. cbn. by destruct (coerceToolResult _ _).
  - destruct (phase_at b i) as [[]|]; try done. by intros [= <-].
  - destruct (phase_at b i) as [[]|]; try done. intros [= <-]. unfold finish_task.
    match goal with |- context [checkSteering cfg i ?x] => set (b1 := x) end.
    assert (Hb1 : globals b1 = globals b).
    { subst b1. destruct (triggered b); unfold report, globals; cbn; exact (emit_globals i _ _ _). }
    clearbody b1. unfold globals in Hb1. injection Hb1 as H1 H2 H3 H4 H5 H6. unfold checkSteering.
    destruct (negb (interrupt_immediate cfg) || _ || _ || _); cbn;
      [|destruct (steeringCheck b1) eqn:Hk; cbn]; repeat (split; [congruence|]).
    all: first [left; congruence | right; split; congruence].
  - destruct (steeringCheck b); [|done]. by intros [= <-].
  - destruct (phase_at b i) as [[]|]; try done. destruct (checks b !! check); [|done]. by intros [= <-].
  - destruct (phase_at b i) as [[]|]; try done. intros [= <-]. apply (skip_globals i b).
  - destruct (has_signal cfg), (aborted b); try done. by intros [= <-].
  - destruct (main b); [|done]. destruct (all_settled b); [|done]. by intros [= <-].
  - destruct (main b); [|done]. destruct (has_signal cfg), (aborted b) eqn:Hab; try done. by intros [= <-].
Qed.

Lemma step_main l b b' :
  step cfg l b = Some b' ->
  main b' = main b \/ exists b0, moves b b b0 /\ b' = finish_batch b0.
Proof.
  intros Hs. pose proof (step_globals l b b' Hs) as Hg.
  destruct l as [i|i|i ans|i raw|i ans|i ans|i|ans|i|i| | |];
    try (left; unfold globals in Hg; congruence).
  - left. tauto.
  - left. by rewrite Hg.
  - left. by destruct Hg as [-> _].
  - right. exists b. split; [apply moves_refl | tauto].
  - right. exists (for_records abort_unanswered b). split; [|tauto].
    apply (moves_for_records b (fun _ => True)); [done|]. intros i b1 _. split; [done|].
    apply moves_abort. tauto.
Qed.
End shared_state.

Lemma reachable_returned `{ToolHost} cfg calls reserve ab b :
  reachable cfg calls reserve ab b -> returned_all b.
Proof.
  intros Hr. enough (Sound calls b /\ returned_all b) as [_ ?] by done. revert b Hr.
  apply reachable_ind.
  - split; [apply start_sound|]. unfold executeToolCalls.
    destruct (has_signal cfg && ab) eqn:He.
    + apply (finish_returned calls). eapply sound_moves; [apply launch_sound|].
      apply (moves_for_records (abort_signal (initial cfg calls ab)) (fun _ => True)); [done|].
      intros i b1 _. split; [done|]. by apply moves_abort.
    + unfold returned_all, launch.
      destruct (launch_globals reserve (seq 0 (length (records (initial cfg calls ab))))
        {| l_batch := initial cfg calls ab; lastExclusive := []; sharedTasks := [] |}) as (_ & _ & -> & _).
      done.
  - intros l b b' _ [S Hret] Hs.
    assert (Hm : moves b b b') by (eapply step_advances; [by eapply sound_consistent | exact Hs]).
    split; [by eapply sound_moves|]. destruct (step_main cfg l b b' Hs) as [Hmain | (b0 & Hb0 & ->)].
    + unfold returned_all in *. rewrite Hmain. destruct (main b) as [|rs st mal]; [done|].
      destruct Hret as [Ha Hrs]. destruct (answered_batch calls b b b' S Hm Ha) as [Ha' Hsame].
      split; [exact Ha'|]. intros i. by rewrite Hrs, Hsame.
    + apply (finish_returned calls). by eapply sound_moves.
Qed.
