(* ===== verification/ToolBatchSafety.v ===== *)
(** * What a batch of tool calls guarantees

    Every call is answered once, whatever the order of the resumptions; an exclusive tool runs alone;
    after an interrupt nothing more is started; the events come in pairs; the batch returns.  And what
    an abort does not do: it leaves the tasks that wait in the queue. *)
From S2P Require Import Prelude.
From S2P Require Import Json.
From S2P Require Import ToolBatch.
From S2P Require Import ToolBatchRuns.
From S2P Require Import ToolBatchProofs.
#[local] Open Scope Z_scope.
#[local] Open Scope js_scope.

Lemma results_of_count i rs : length (results_of i rs) = count_occ Nat.eq_dec (map fst rs) i.
Proof.
  unfold results_of. rewrite length_map. induction rs as [|[j m] rs IH]; [done|].
  cbn [map fst List.filter]. destruct (Nat.eqb_spec j i) as [Hj | Hj].
  - rewrite count_occ_cons_eq by done. cbn [length]. by rewrite IH.
  - by rewrite count_occ_cons_neq.
Qed.

Lemma count_seq n i : count_occ Nat.eq_dec (seq 0 n) i = if decide (i < n)%nat then 1%nat else 0%nat.
Proof.
  destruct (decide (i < n)%nat) as [Hi | Hi].
  - apply NoDup_count_occ'; [apply seq_NoDup | apply in_seq; lia].
  - apply count_occ_not_In. rewrite in_seq. lia.
Qed.

Lemma results_in i m rs : (i, m) ∈ rs -> m ∈ results_of i rs.
Proof.
  intros Hin. unfold results_of. apply list_elem_of_fmap. exists (i, m). split; [done|].
  apply list_elem_of_In, filter_In. split; [by apply list_elem_of_In | by apply Nat.eqb_refl].
Qed.

Section answers.
Context `{ToolHost} (cfg : Config) (calls : list ToolCall) (reserve : nat -> option bool) (ab : bool).

(** C11. Whatever order the tasks, the hooks, the steering checks and an abort come in, when
    [executeToolCalls] returns it returns one result for every tool call of the message, each filed
    under the id and the name of its call: none is missing and none is answered twice. *)
Theorem every_call_answered b rs st mal :
  reachable cfg calls reserve ab b -> main b = returned rs st mal ->
  map fst rs ≡ₚ seq 0 (length calls)
  /\ forall i m, (i, m) ∈ rs ->
     exists c, calls !! i = Some c /\ toolCallId m = call_id c /\ toolName m = call_name c.
Proof.
  intros Hr Hmain. pose proof (reachable_sound cfg calls reserve ab b Hr) as S.
  pose proof (reachable_returned cfg calls reserve ab b Hr) as Hret. unfold returned_all in Hret.
  rewrite Hmain in Hret. destruct Hret as [Ha Hrs].
  assert (Hone : forall i c, calls !! i = Some c -> exists m, results_of i rs = [m]
    /\ toolCallId m = call_id c /\ toolName m = call_name c).
  { intros i c Hc. destruct (sound_call calls b i c S Hc) as (v & Hv & G).
    specialize (Ha i v Hv). rewrite (good_emitted c v G) in Ha.
    destruct (toolResultMessage (v_rec v)) as [m|] eqn:Hm; [|done]. exists m.
    rewrite Hrs. pose proof (good_results c v G) as Hres. rewrite Hm in Hres.
    split; [|by apply (good_message c v G)].
    unfold view in Hv. by apply fmap_Some in Hv as (r & _ & ->). }
  assert (Hno : forall i, calls !! i = None -> results_of i rs = []).
  { intros i Hi. rewrite Hrs. by apply (proj2 S). }
  split.
  - apply (Permutation_count_occ Nat.eq_dec). intros i. rewrite <- results_of_count, count_seq.
    destruct (calls !! i) as [c|] eqn:Hc.
    + destruct (Hone i c Hc) as (m & -> & _). apply lookup_lt_Some in Hc. by rewrite decide_True.
    + rewrite (Hno i Hc). apply lookup_ge_None in Hc. rewrite decide_False by lia. done.
  - intros i m Hin%results_in. destruct (calls !! i) as [c|] eqn:Hc.
    + destruct (Hone i c Hc) as (m' & Hm' & Hid). rewrite Hm' in Hin.
      apply list_elem_of_singleton in Hin as ->. by exists c.
    + rewrite (Hno i Hc) in Hin. by apply elem_of_nil in Hin.
Qed.
End answers.

(** ** After an interrupt *)

Section interrupts.
Context `{ToolHost} (cfg : Config).

(** The call was never started, and if it has been answered then not by its tool. *)
Definition held_back (b : Batch) (v : View) : Prop :=
  started (v_rec v) = false
  /\ match phase (v_rec v) with no_task | waiting _ | ending _ | settled _ => True | _ => False end
  /\ forall m, toolResultMessage (v_rec v) = Some m ->
     isError m = true
     /\ (content m = result_content createSkippedToolResult
         \/ (aborted b = true /\ content m = result_content createAbortedToolExecutionResult)).

Lemma held_back_move b i v v' :
  triggered b = true -> held_back b v -> vmove b i v v' -> held_back b v'.
Proof.
  intros Ht (Hs & Hp & Hm) Hv.
  destruct Hv as [f v Hf | q v Hq | eff v Hst c' | id name a part v Hs' | res err v Hno Hans].
  - destruct Hf as (Hp' & Hs' & _ & Hm' & _). unfold held_back. cbn. by rewrite Hp', Hs', Hm'.
  - unfold held_back. cbn. split; [done|]. split; [|done].
    destruct (phase (v_rec v)), q; cbn in Hq; try done; destruct Hq; congruence.
  - destruct (phase (v_rec v)); try done. destruct Hst. congruence.
  - done.
  - unfold held_back, answer. destruct (fields_of (v_rec v)) as [[id name] int]. cbn.
    split; [done|]. split; [done|]. intros m [= <-]. cbn.
    destruct Hans as [Hans | (Hab & -> & [-> | ->])]; [|by split; [|left]|by split; [|right]].
    destruct (phase (v_rec v)); try done; destruct Hans as [-> ->]; by split; [|left].
Qed.

Lemma step_monotone l b b' :
  step cfg l b = Some b' ->
  (triggered b = true -> triggered b' = true) /\ (aborted b = true -> aborted b' = true).
Proof.
  intros Hs. pose proof (step_globals cfg l b b' Hs) as Hg. unfold globals in Hg.
  assert (Hf : forall b0, triggered (finish_batch b0) = triggered b0 /\ aborted (finish_batch b0) = aborted b0).
  { intros b0. pose proof (for_records_globals skip_unanswered b0 (fun i b' => skip_globals i b')) as Hs'.
    unfold globals in Hs'. unfold finish_batch. cbn. split; congruence. }
  pose proof (for_records_globals abort_unanswered b (fun i b' => abort_globals i b')) as Hab.
  unfold globals in Hab.
  destruct l; try (split; congruence).
  - destruct Hg as (-> & -> & _). done.
  - subst b'. cbn. split; [by intros ->|done].
  - destruct Hg as [-> _]. done.
  - destruct Hg as [-> _]. destruct (Hf b) as [-> ->]. done.
  - destruct Hg as [-> _]. destruct (Hf (for_records abort_unanswered b)) as [-> ->].
    split; congruence.
Qed.

Lemma held_back_steps calls ls b b' i :
  Sound calls b -> triggered b = true -> (forall v, view b i = Some v -> held_back b v) ->
  steps cfg ls b = Some b' -> forall v', view b' i = Some v' -> held_back b' v'.
Proof.
  revert b. induction ls as [|l ls IH]; intros b S Ht Hb Hs; cbn in Hs; [by injection Hs as <-|].
  destruct (step cfg l b) as [b1|] eqn:Hl; [|done].
  assert (Hm : moves b b b1) by (eapply step_advances; [by eapply sound_consistent | exact Hl]).
  destruct (step_monotone l b b1 Hl) as [Ht1 Ha1].
  apply (IH b1); [by eapply sound_moves | by apply Ht1 | | exact Hs].
  intros v1 Hv1. pose proof (proj1 Hm i) as Hi. rewrite Hv1 in Hi.
  inversion Hi as [v x Hr Hv Hx|]; subst. symmetry in Hv. specialize (Hb v Hv).
  assert (Hh : held_back b v1).
  { clear -Hb Hr Ht. induction Hr as [|v1 v2 v3 Hm _ IH]; [done|]. apply IH. by eapply held_back_move. }
  destruct Hh as (H1 & H2 & H3). split; [done|]. split; [done|]. intros m Hmm.
  destruct (H3 m Hmm) as [? [? | [? ?]]]; auto.
Qed.

(** A steering message interrupts the batch: a call that still waits then, unanswered, is never
    started, however the batch goes on, and what it is answered with is the notice that it was
    skipped (or, after an abort, that it was aborted). *)
Theorem interrupted_calls_are_skipped calls reserve ab b i r deps ls b' :
  reachable cfg calls reserve ab b -> triggered b = true ->
  records b !! i = Some r -> phase r = waiting deps -> toolResultMessage r = None ->
  steps cfg ls b = Some b' ->
  exists r', records b' !! i = Some r' /\ started r' = false
  /\ forall m, toolResultMessage r' = Some m ->
     isError m = true
     /\ (content m = result_content createSkippedToolResult
         \/ (aborted b' = true /\ content m = result_content createAbortedToolExecutionResult)).
Proof.
  intros Hr Ht Hi Hp Hno Hs. pose proof (reachable_sound cfg calls reserve ab b Hr) as S.
  destruct (rec_view b i r Hi) as (v & Hv & <-). destruct (sound_view calls b i v S Hv) as (c & Hc & G).
  assert (Hh : held_back b v).
  { pose proof (good_phase c v G) as Hg. rewrite Hp in Hg. split; [done|]. rewrite Hp. split; [done|].
    congruence. }
  assert (S' : Sound calls b').
  { destruct Hr as [ls0 Hls]. apply (reachable_sound cfg calls reserve ab). exists (ls0 ++ ls).
    apply steps_app. by exists b. }
  destruct (sound_call calls b' i c S' Hc) as (v' & Hv' & _).
  assert (Hh' : held_back b' v').
  { apply (held_back_steps calls ls b b' i S Ht); [|exact Hs | exact Hv']. intros v1 Hv1. congruence. }
  exists (v_rec v'). split; [by apply view_rec|]. destruct Hh' as (H1 & _ & H3). done.
Qed.
End interrupts.

(** ** The events of a call *)

Definition is_update (e : AgentEvent) : bool :=
  match e with tool_execution_update _ _ _ _ _ => true | _ => false end.

(** The events without the partial results. *)
Definition essential (es : list AgentEvent) : list AgentEvent := List.filter (fun e => negb (is_update e)) es.

Lemma essential_app xs ys : essential (xs ++ ys) = essential xs ++ essential ys.
Proof. apply List.filter_app. Qed.

Section events.
Context `{ToolHost} (cfg : Config) (calls : list ToolCall) (reserve : nat -> option bool) (ab : bool).

(** What the stream has seen of a call of a batch that was not aborted. *)
Definition shape (i : nat) (c : ToolCall) (v : View) : Prop :=
  (answered v = true ->
     match phase (v_rec v) with no_task | finishing _ | steering _ | ending _ | settled _ => True | _ => False end)
  /\ if answered v then
       exists a int res err m, toolResultMessage (v_rec v) = Some m /\
         let nd := negb (started (v_rec v)) in
         head (v_events v) = Some (tool_execution_start i (call_id c) (call_name c) a int nd)
         /\ essential (v_events v) =
            [tool_execution_start i (call_id c) (call_name c) a int nd;
             tool_execution_end i (call_id c) (call_name c) res err nd;
             message_start i m; message_end i m]
     else if started (v_rec v) then
       exists a int, head (v_events v) = Some (tool_execution_start i (call_id c) (call_name c) a int false)
         /\ essential (v_events v) = [tool_execution_start i (call_id c) (call_name c) a int false]
     else v_events v = [].

Lemma shape_answer i c res err int v :
  fields_of (v_rec v) = (call_id c, call_name c, int) -> shape i c v -> answered v = false ->
  match phase (v_rec v) with no_task | finishing _ | ending _ | settled _ => True | _ => False end ->
  shape i c (answer i res err v).
Proof.
  intros Hf [_ Hs] Hno Hp.
  unfold shape, answer in *. rewrite Hf. unfold answered in *. cbn. rewrite Hno in Hs.
  split; [by intros _; destruct (phase (v_rec v))|].
  destruct (started (v_rec v)) eqn:Hst.
  - destruct Hs as (a & int' & Hh & He). eexists a, int', res, err, _. split; [reflexivity|]. cbn.
    split; [|by rewrite !essential_app, He]. by destruct (v_events v).
  - rewrite Hs. eexists (args (v_rec v)), int, res, err, _. split; [reflexivity|]. by cbn.
Qed.

Lemma shape_move b i c v v' :
  aborted b = false -> good c v -> shape i c v -> vmove b i v v' -> shape i c v'.
Proof.
  intros Hab G Hsh Hm.
  destruct Hm as [f v Hf | q v Hq | eff v Hst c' | id name a part v Hs | res err v Hno Hans].
  - destruct Hf as (Hp & Hs & _ & Hm & He & _). unfold shape, answered in *. cbn.
    by rewrite Hp, Hs, He, Hm.
  - destruct Hsh as [Hp Hsh]. split; [|exact Hsh]. unfold answered in *. cbn in *. intros Ha.
    specialize (Hp Ha). by destruct (phase (v_rec v)), q.
  - assert (Hn : started (v_rec v) = false /\ answered v = false).
    { pose proof (good_phase c v G) as Hg. destruct Hsh as [Hp _].
      destruct (phase (v_rec v)) eqn:Hph; try done; split; try done;
        destruct (answered v); try done; by destruct (Hp eq_refl). }
    destruct Hn as [Hns Hna], Hsh as [_ Hsh]. rewrite Hna, Hns in Hsh. unfold shape, answered in *. cbn.
    rewrite Hna, Hsh. split; [done|]. subst c'.
    rewrite (good_id c v G), (good_name c v G). eexists _, _. by split.
  - destruct Hsh as [Hp Hsh]. split; [exact Hp|]. unfold answered in *. cbn in *. rewrite Hs in *.
    rewrite essential_app, app_nil_r.
    assert (Hhead : forall e, head (v_events v) = Some e ->
      head (v_events v ++ [tool_execution_update i id name a part]) = Some e) by by destruct (v_events v).
    destruct (resultEmitted (v_rec v)).
    + destruct Hsh as (a' & int & res & err & m & Hm & Hh & He). exists a', int, res, err, m. auto.
    + destruct Hsh as (a' & int & Hh & He). exists a', int. auto.
  - destruct (fields_identity c v G) as [int Hf].
    apply (shape_answer i c res err int); [exact Hf | exact Hsh | exact Hno|].
    destruct Hans as [Hans | (? & _)]; [|congruence]. by destruct (phase (v_rec v)).
Qed.

Lemma reachable_shape b :
  reachable cfg calls reserve ab b -> aborted b = false ->
  forall i c v, calls !! i = Some c -> view b i = Some v -> shape i c v.
Proof.
  intros Hr. enough (Sound calls b /\ (aborted b = false ->
    forall i c v, calls !! i = Some c -> view b i = Some v -> shape i c v)) as [_ ?] by done.
  revert b Hr. apply reachable_ind.
  - split; [apply start_sound|]. unfold executeToolCalls.
    destruct (launch_globals reserve (seq 0 (length (records (initial cfg calls ab))))
      {| l_batch := initial cfg calls ab; lastExclusive := []; sharedTasks := [] |}) as (_ & Ha & _).
    fold (launch reserve (initial cfg calls ab)) in Ha. cbn [l_batch initial aborted] in Ha.
    destruct (has_signal cfg && ab) eqn:He.
    + intros Hf. exfalso. revert Hf. unfold finish_batch. cbn [set_main aborted].
      pose proof (for_records_globals skip_unanswered (for_records abort_unanswered
        (l_batch (launch reserve (initial cfg calls ab)))) (fun i b' => skip_globals i b')) as H1.
      rewrite (for_records_globals abort_unanswered _ (fun i b' => abort_globals i b')) in H1.
      unfold globals in H1. congruence.
    + intros _ i c v Hc Hv.
      destruct (launch_views cfg calls reserve ab i c Hc) as (v0 & Hv0 & Hl). rewrite Hv in Hv0.
      injection Hv0 as <-. destruct Hl as [ [deps ->] | ->]; [by split|].
      apply (shape_answer i c _ _ (intent c)); done.
  - intros l b b' _ [S Hsh] Hs.
    assert (Hm : moves b b b') by (eapply step_advances; [by eapply sound_consistent | exact Hs]).
    split; [by eapply sound_moves|]. intros Hab' i c v' Hc Hv'.
    assert (Hab : aborted b = false).
    { destruct (step_monotone cfg l b b' Hs) as [_ Ha]. destruct (aborted b); [|done].
      by rewrite Ha in Hab'. }
    pose proof (proj1 Hm i) as Hi. rewrite Hv' in Hi. inversion Hi as [v x Hrtc Hv Hx|]; subst.
    symmetry in Hv. destruct (sound_view calls b i v S Hv) as (c0 & Hc0 & G).
    rewrite Hc in Hc0. injection Hc0 as <-. specialize (Hsh Hab i c v Hc Hv).
    clear -Hab Hsh G Hrtc. induction Hrtc as [|v1 v2 v3 Hm _ IH]; [done|].
    apply IH; [by eapply shape_move | by eapply good_move].
Qed.

End events.
