(* ===== verification/ToolBatchExclusive.v ===== *)
(** * Exclusive tools run alone

    What the loop that launches the tasks makes them wait for, and that a task which has begun has seen
    all of it end. *)
From S2P Require Import Prelude.
From S2P Require Import Json.
From S2P Require Import ToolBatch.
From S2P Require Import ToolBatchRuns.
From S2P Require Import ToolBatchProofs.
#[local] Open Scope Z_scope.
#[local] Open Scope js_scope.

Section exclusion.
Context `{ToolHost} (cfg : Config) (calls : list ToolCall) (reserve : nat -> option bool) (ab : bool).

(** The tool of the [i]-th call is exclusive. *)
Definition exclusive_call (i : nat) : bool :=
  match calls !! i with
  | Some c => bool_decide (concurrency_of (new_record cfg c) = exclusive)
  | None => false
  end.

Definition start_batch : Batch := l_batch (launch reserve (initial cfg calls ab)).

Definition is_task (b : Batch) (i : nat) : Prop := exists deps, phase_at b i = Some (waiting deps).

Lemma phase_at_view b i : phase_at b i = (fun v => phase (v_rec v)) <$> view b i.
Proof. unfold phase_at, view. by destruct (records b !! i). Qed.

(** ** The launch loop *)

(** The tasks below [k] are launched: each waits for tasks below it, and two of them of which one is
    exclusive are ordered through what the later one waits for. *)
Record Launched (k : nat) (l : Launch) : Prop := {
  la_deps : forall j deps, phase_at (l_batch l) j = Some (waiting deps) ->
    (j < k)%nat /\ forall d, d ∈ deps -> (d < j)%nat /\ is_task (l_batch l) d;
  la_cover : forall i j deps, (i < j)%nat -> phase_at (l_batch l) j = Some (waiting deps) ->
    is_task (l_batch l) i -> exclusive_call i = true \/ exclusive_call j = true ->
    i ∈ deps \/ exists e, e ∈ deps /\ exclusive_call e = true /\ (i < e)%nat;
  la_tasks : forall i, is_task (l_batch l) i ->
    (exclusive_call i = false /\ i ∈ sharedTasks l)
    \/ exists e, e ∈ lastExclusive l /\ (i <= e)%nat;
  la_last : forall e, e ∈ lastExclusive l -> exclusive_call e = true /\ (e < k)%nat /\ is_task (l_batch l) e;
  la_shared : forall s, s ∈ sharedTasks l -> (s < k)%nat /\ is_task (l_batch l) s;
  la_rest : forall i c, (k <= i)%nat -> calls !! i = Some c -> view (l_batch l) i = Some (unlaunched cfg c)
}.

(** What one iteration does to the phases. *)
Lemma launch_one_phase l k :
  forall i, i <> k -> phase_at (l_batch (launch_one reserve l k)) i = phase_at (l_batch l) i.
Proof. intros i Hi. rewrite !phase_at_view, launch_one_ne by done. done. Qed.

Lemma is_task_launch_one l k i : i <> k -> is_task (l_batch (launch_one reserve l k)) i <-> is_task (l_batch l) i.
Proof. intros Hi. unfold is_task. by rewrite launch_one_phase. Qed.

Lemma launch_one_cases k c l :
  Launched k l -> calls !! k = Some c ->
  let l' := launch_one reserve l k in
  (phase_at (l_batch l') k = Some no_task
   /\ lastExclusive l' = lastExclusive l /\ sharedTasks l' = sharedTasks l)
  \/ (exclusive_call k = true
      /\ phase_at (l_batch l') k = Some (waiting (lastExclusive l ++ sharedTasks l))
      /\ lastExclusive l' = [k] /\ sharedTasks l' = [])
  \/ (exclusive_call k = false
      /\ phase_at (l_batch l') k = Some (waiting (lastExclusive l))
      /\ lastExclusive l' = lastExclusive l /\ sharedTasks l' = sharedTasks l ++ [k]).
Proof.
  intros La Hc. pose proof (la_rest k l La k c ltac:(lia) Hc) as Hv.
  assert (Hx : exclusive_call k = bool_decide (concurrency_of (new_record cfg c) = exclusive))
    by (unfold exclusive_call; by rewrite Hc).
  cbn zeta. unfold launch_one. rewrite (view_rec _ _ _ Hv). cbn [v_rec unlaunched].
  assert (Hw : forall deps,
    phase_at (on_rec k (set_phase (waiting deps)) (l_batch l)) k = Some (waiting deps)).
  { intros deps. rewrite phase_at_view, view_on_rec, Hv. done. }
  destruct (reserve k) as [[|]|].
  2:{ left. cbn [l_batch lastExclusive sharedTasks]. repeat split; try done.
      rewrite emit_phase. unfold phase_at, report. cbn [records].
      change (phase_at (on_rec k set_skipped (l_batch l)) k = Some no_task).
      rewrite skipped_phase, phase_at_view, Hv. done. }
  all: right; destruct (concurrency_of (new_record cfg c)); rewrite Hx;
    cbn [l_batch lastExclusive sharedTasks]; [right | left]; rewrite Hw; by repeat split.
Qed.

(** One iteration of the loop. *)
Section iteration.
Variables (k : nat) (l : Launch) (c : ToolCall).
Hypotheses (La : Launched k l) (Hc : calls !! k = Some c).
Local Abbreviation l' := (launch_one reserve l k).

Lemma task_below i : is_task (l_batch l) i -> (i < k)%nat.
Proof. intros [deps Hd]. by apply (la_deps k l La i deps). Qed.

Lemma task_kept i : is_task (l_batch l) i -> is_task (l_batch l') i.
Proof. intros Hi. pose proof (task_below i Hi). apply is_task_launch_one; [lia | done]. Qed.

Lemma last_kept e :
  e ∈ lastExclusive l -> exclusive_call e = true /\ (e < k)%nat /\ is_task (l_batch l') e.
Proof. intros He. destruct (la_last k l La e He) as (? & ? & ?). auto using task_kept. Qed.

Lemma shared_kept s : s ∈ sharedTasks l -> (s < k)%nat /\ is_task (l_batch l') s.
Proof. intros Hs. destruct (la_shared k l La s Hs). auto using task_kept. Qed.

Lemma new_deps j deps :
  phase_at (l_batch l') j = Some (waiting deps) ->
  (j < S k)%nat /\ forall d, d ∈ deps -> (d < j)%nat /\ is_task (l_batch l') d.
Proof.
  intros Hp. destruct (decide (j = k)) as [-> | Hj].
  - split; [lia|]. intros d Hd.
    enough (d ∈ lastExclusive l \/ d ∈ sharedTasks l) as [Hl | Hs].
    + by destruct (last_kept d Hl) as (_ & ? & ?).
    + by apply shared_kept.
    + destruct (launch_one_cases k c l La Hc) as [(Hp' & _) | [(Hx & Hp' & _) | (Hx & Hp' & _)] ];
        rewrite Hp' in Hp; try done; injection Hp as <-; [by apply elem_of_app in Hd | by left].
  - rewrite launch_one_phase in Hp by done. destruct (la_deps k l La j deps Hp) as [? Hd].
    split; [lia|]. intros d Hin. destruct (Hd d Hin). auto using task_kept.
Qed.

(** The new task waits for what it has to be ordered after. *)
Lemma new_cover_at i deps :
  is_task (l_batch l) i -> phase_at (l_batch l') k = Some (waiting deps) ->
  exclusive_call i = true \/ exclusive_call k = true ->
  i ∈ deps \/ exists e, e ∈ deps /\ exclusive_call e = true /\ (i < e)%nat.
Proof.
  intros Hi Hp Hex.
  assert (Hlast : forall e (ds : list nat), (forall x, x ∈ lastExclusive l -> x ∈ ds) ->
    e ∈ lastExclusive l -> (i <= e)%nat ->
    i ∈ ds \/ exists e', e' ∈ ds /\ exclusive_call e' = true /\ (i < e')%nat).
  { intros e ds Hds He Hle. destruct (decide (i = e)) as [-> | ?]; [left; auto|]. right. exists e.
    split; [auto|]. split; [by apply (la_last k l La) | lia]. }
  destruct (launch_one_cases k c l La Hc) as [(Hp' & _) | [(Hx & Hp' & _) | (Hx & Hp' & _)] ];
    rewrite Hp' in Hp; try done; injection Hp as <-;
    destruct (la_tasks k l La i Hi) as [ [Hns Hs] | (e & He & Hle)].
  - left. apply elem_of_app. auto.
  - apply (Hlast e); [|done..]. intros x Hx'. apply elem_of_app. auto.
  - destruct Hex; congruence.
  - by apply (Hlast e).
Qed.

Lemma new_cover i j deps :
  (i < j)%nat -> phase_at (l_batch l') j = Some (waiting deps) -> is_task (l_batch l') i ->
  exclusive_call i = true \/ exclusive_call j = true ->
  i ∈ deps \/ exists e, e ∈ deps /\ exclusive_call e = true /\ (i < e)%nat.
Proof.
  intros Hij Hp Hi Hex. destruct (decide (j = k)) as [-> | Hj].
  - apply is_task_launch_one in Hi; [|lia]. by apply new_cover_at.
  - rewrite launch_one_phase in Hp by done. pose proof (proj1 (la_deps k l La j deps Hp)).
    apply is_task_launch_one in Hi; [|lia]. by apply (la_cover k l La i j).
Qed.

Lemma new_tasks i :
  is_task (l_batch l') i ->
  (exclusive_call i = false /\ i ∈ sharedTasks l') \/ exists e, e ∈ lastExclusive l' /\ (i <= e)%nat.
Proof.
  intros Hi.
  destruct (launch_one_cases k c l La Hc) as [(Hp & -> & ->) | [(Hx & Hp & -> & ->) | (Hx & Hp & -> & ->)] ];
    (destruct (decide (i = k)) as [-> | Hik]; [|apply is_task_launch_one in Hi; [|done] ]).
  - destruct Hi as [deps Hd]. congruence.
  - by apply (la_tasks k l La).
  - right. exists k. split; [by apply list_elem_of_singleton | done].
  - right. exists k. split; [by apply list_elem_of_singleton|]. apply task_below in Hi. lia.
  - left. split; [done|]. apply elem_of_app. right. by apply list_elem_of_singleton.
  - destruct (la_tasks k l La i Hi) as [ [? Hs] | ?]; [left|by right]. split; [done|]. apply elem_of_app; auto.
Qed.
End iteration.

Lemma launch_one_launched k l :
  (k < length calls)%nat -> Launched k l -> Launched (S k) (launch_one reserve l k).
Proof.
  intros Hk La. destruct (lookup_lt_is_Some_2 calls k Hk) as [c Hc].
  pose proof (launch_one_cases k c l La Hc) as Hcase. cbn zeta in Hcase. split.
  - intros j deps. by apply (new_deps k l c).
  - intros i j deps. by apply (new_cover k l c).
  - intros i. by apply (new_tasks k l c).
  - intros e He. destruct Hcase as [(Hp & Hl & _) | [(Hx & Hp & Hl & _) | (Hx & Hp & Hl & _)] ]; rewrite Hl in He.
    + destruct (last_kept k l La e He) as (? & ? & ?). auto.
    + apply list_elem_of_singleton in He as ->. split; [done|]. split; [lia|]. by eexists.
    + destruct (last_kept k l La e He) as (? & ? & ?). auto.
  - intros s Hs. destruct Hcase as [(Hp & _ & Hl) | [(Hx & Hp & _ & Hl) | (Hx & Hp & _ & Hl)] ]; rewrite Hl in Hs.
    + destruct (shared_kept k l La s Hs). auto.
    + by apply elem_of_nil in Hs.
    + apply elem_of_app in Hs as [Hs | ->%list_elem_of_singleton].
      * destruct (shared_kept k l La s Hs). auto.
      * split; [lia|]. by eexists.
  - intros i c' Hi Hc'. rewrite launch_one_ne by lia. apply (la_rest k l La); [lia | done].
Qed.

Lemma launch_launched : Launched (length calls) (launch reserve (initial cfg calls ab)).
Proof.
  unfold launch. cbn [initial records]. rewrite length_map.
  assert (Hgen : forall m k l, (k + m = length calls)%nat -> Launched k l ->
    Launched (length calls) (foldl (launch_one reserve) l (seq k m))).
  { induction m as [|m IH]; intros k l Hm La; cbn; [by rewrite <- Hm, Nat.add_0_r|].
    apply IH; [lia|]. apply launch_one_launched; [lia | done]. }
  apply (Hgen (length calls) 0%nat); [lia|].
  assert (Hno : forall i deps, phase_at (initial cfg calls ab) i <> Some (waiting deps)).
  { intros i deps. rewrite phase_at_view. destruct (calls !! i) as [c|] eqn:Hc.
    - by rewrite (view_initial cfg calls ab i c Hc).
    - rewrite view_none; [done|]. cbn. by rewrite list_lookup_fmap, Hc. }
  split; cbn [l_batch lastExclusive sharedTasks].
  - intros j deps Hp. by destruct (Hno j deps).
  - intros i j deps _ Hp. by destruct (Hno j deps).
  - intros i [deps Hp]. by destruct (Hno i deps).
  - by intros e ?%elem_of_nil.
  - by intros e ?%elem_of_nil.
  - intros i c _ Hc. by apply view_initial.
Qed.

(** ** Every state *)

(** The task has been let in by what it waited for. *)
Definition begun (p : Phase) : Prop :=
  match p with
  | no_task | waiting _ | ending false | settled false => False
  | _ => True
  end.

(** The call waits for what it was launched with; once it has begun all of that has ended. *)
Definition ordered (b : Batch) (i : nat) (v : View) : Prop :=
  (forall deps, phase (v_rec v) = waiting deps -> phase_at start_batch i = Some (waiting deps))
  /\ (begun (phase (v_rec v)) ->
      exists deps, phase_at start_batch i = Some (waiting deps)
      /\ forall d, d ∈ deps -> phase_at b d = Some (settled true)).

Lemma resolved_settled b deps d :
  resolved b deps = true -> d ∈ deps -> phase_at b d = Some (settled true).
Proof.
  intros Hres Hd. apply (forallb_elem _ deps d Hres) in Hd. unfold settled_as in Hd.
  destruct (phase_at b d) as [[]|]; try done. by destruct ok.
Qed.

Lemma ordered_move b i v v' : ordered b i v -> vmove b i v v' -> ordered b i v'.
Proof.
  intros [Hw Hb] Hm. destruct Hm as [f v Hf | q v Hq | eff v Hst c' | id name a part v Hs | res err v Hno Hans].
  - destruct Hf as [Hp _]. unfold ordered. cbn. by rewrite Hp.
  - unfold ordered. cbn [on_view v_rec set_phase phase].
    split; [by destruct (phase (v_rec v)), q|]. intros Hbegun.
    destruct (phase (v_rec v)) eqn:Hp; cbn in Hq, Hb; try (by apply Hb); try done.
    + exists deps. split; [by apply Hw|]. intros d. apply resolved_settled.
      destruct q; try done; try (by apply Hq). destruct ok; [|done]. by destruct Hq as [? | [_ ?]].
    + destruct q; try done. destruct Hq as [-> _]. destruct ok0; [by apply Hb | done].
  - unfold ordered. cbn. split; [done|]. intros _. destruct (phase (v_rec v)) eqn:Hp; try done.
    + exists deps. split; [by apply Hw|]. intros d. apply resolved_settled, Hst.
    + by apply Hb.
  - done.
  - unfold ordered, answer in *. destruct (fields_of (v_rec v)) as [[id name] int]. done.
Qed.

Lemma settled_move b i v v' :
  rtc (vmove b i) v v' -> phase (v_rec v) = settled true -> phase (v_rec v') = settled true.
Proof.
  intros Hr. induction Hr as [|v1 v2 v3 Hm _ IH]; [done|]. intros Hp. apply IH.
  destruct Hm as [f v Hf | q v Hq | eff v Hst c' | id name a part v Hs | res err v Hno Hans].
  - destruct Hf as [Hp' _]. cbn. congruence.
  - rewrite Hp in Hq. by destruct q.
  - by rewrite Hp in Hst.
  - done.
  - unfold answer. by destruct (fields_of (v_rec v)) as [[id name] int].
Qed.

Lemma phase_at_moves g b b' i :
  moves g b b' -> phase_at b i = Some (settled true) -> phase_at b' i = Some (settled true).
Proof.
  intros [Hm _]. rewrite !phase_at_view. intros (v & Hv & Hp)%fmap_Some. specialize (Hm i).
  rewrite Hv in Hm. inversion Hm as [x v' Hr Hx Hv'|]; subst. cbn. by rewrite (settled_move g i v v' Hr).
Qed.

Definition all_ordered (b : Batch) : Prop := forall i v, view b i = Some v -> ordered b i v.

Lemma for_records_phase f b :
  (forall i j b', phase_at (f i b') j = phase_at b' j) -> forall j, phase_at (for_records f b) j = phase_at b j.
Proof.
  intros Hf j. unfold for_records. generalize (seq 0 (length (records b))) as js. intros js. revert b.
  induction js as [|i js IH]; intros b; [done|]. cbn. by rewrite IH, Hf.
Qed.

Lemma abort_phase i j b : phase_at (abort_unanswered i b) j = phase_at b j.
Proof.
  unfold abort_unanswered. destruct (records b !! i) as [r|]; [|done].
  destruct (toolResultMessage r); [done|]. rewrite emit_phase. apply skipped_phase.
Qed.

Lemma start_phase j : phase_at (executeToolCalls cfg calls reserve ab) j = phase_at start_batch j.
Proof.
  unfold executeToolCalls, start_batch. destruct (has_signal cfg && ab); [|done].
  unfold finish_batch. unfold phase_at at 1. cbn [set_main records].
  change (phase_at (for_records skip_unanswered (for_records abort_unanswered
    (l_batch (launch reserve (initial cfg calls ab))))) j
    = phase_at (l_batch (launch reserve (initial cfg calls ab))) j).
  rewrite for_records_phase by (intros; apply skip_phase). apply for_records_phase.
  intros; apply abort_phase.
Qed.

Lemma start_ordered : all_ordered (executeToolCalls cfg calls reserve ab).
Proof.
  intros i v Hv.
  assert (Hp : phase_at start_batch i = Some (phase (v_rec v))).
  { rewrite <- start_phase, phase_at_view, Hv. done. }
  split; [by intros deps <-|]. intros Hb. exfalso.
  destruct (calls !! i) as [c|] eqn:Hc.
  - destruct (launch_views cfg calls reserve ab i c Hc) as (v0 & Hv0 & Hl).
    rewrite phase_at_view in Hp. unfold start_batch in Hp. rewrite Hv0 in Hp. injection Hp as Hp.
    rewrite <- Hp in Hb. by destruct Hl as [ [deps ->] | ->].
  - pose proof (start_sound cfg calls reserve ab) as S. apply (sound_records calls _ i S) in Hc.
    apply view_rec in Hv. congruence.
Qed.

Lemma reachable_ordered b : reachable cfg calls reserve ab b -> all_ordered b.
Proof.
  intros Hr. enough (Sound calls b /\ all_ordered b) as [_ ?] by done. revert b Hr. apply reachable_ind.
  - split; [apply start_sound | apply start_ordered].
  - intros l b b' _ [S Ho] Hs.
    assert (Hm : moves b b b') by (eapply step_advances; [by eapply sound_consistent | exact Hs]).
    split; [by eapply sound_moves|]. intros i v' Hv'. pose proof (proj1 Hm i) as Hi. rewrite Hv' in Hi.
    inversion Hi as [v x Hrtc Hv Hx|]; subst. symmetry in Hv.
    assert (Ho' : ordered b i v').
    { specialize (Ho i v Hv). clear -Ho Hrtc. induction Hrtc as [|v1 v2 v3 Hm _ IH]; [done|].
      apply IH. by eapply ordered_move. }
    destruct Ho' as [H1 H2]. split; [exact H1|]. intros Hb. destruct (H2 Hb) as (deps & Hd & Hall).
    exists deps. split; [exact Hd|]. intros d Hin. by apply (phase_at_moves b b b' d Hm), Hall.
Qed.

(** What comes before an exclusive task, or is exclusive and comes before the task, has ended. *)
Lemma ended_before b : reachable cfg calls reserve ab b ->
  forall j i p, phase_at b j = Some p -> begun p -> (i < j)%nat -> is_task start_batch i ->
  exclusive_call i = true \/ exclusive_call j = true -> phase_at b i = Some (settled true).
Proof.
  intros Hr j. pose proof (reachable_ordered b Hr) as Ho. pose proof launch_launched as La.
  induction j as [j IH] using lt_wf_ind. intros i p Hp Hb Hij Hi Hex.
  pose proof Hp as Hp'. rewrite phase_at_view in Hp'. apply fmap_Some in Hp' as (v & Hv & ->).
  destruct (Ho j v Hv) as [_ Hdeps]. destruct (Hdeps Hb) as (deps & Hd & Hall).
  destruct (la_cover _ _ La i j deps Hij Hd Hi Hex) as [Hin | (e & He & Hxe & Hie)]; [by apply Hall|].
  destruct (la_deps _ _ La j deps Hd) as [_ Hlow]. destruct (Hlow e He) as [Hej _].
  apply (IH e Hej i (settled true)); auto. exact I.
Qed.

(** The call is being worked on: from its first hook to its steering check. *)
Definition busy (b : Batch) (i : nat) : bool :=
  match phase_at b i with
  | Some (before _) | Some running | Some (after _) | Some (finishing _) | Some (steering _) => true
  | _ => false
  end.

Lemma busy_begun b i : busy b i = true -> exists p, phase_at b i = Some p /\ begun p /\ p <> settled true.
Proof. unfold busy. destruct (phase_at b i) as [p|]; [|done]. intros Hb. exists p. by destruct p. Qed.

Lemma begun_task b i p :
  reachable cfg calls reserve ab b -> phase_at b i = Some p -> begun p -> is_task start_batch i.
Proof.
  intros Hr Hp Hb. rewrite phase_at_view in Hp. apply fmap_Some in Hp as (v & Hv & ->).
  destruct (proj2 (reachable_ordered b Hr i v Hv) Hb) as (deps & Hd & _). by exists deps.
Qed.

(** C12. While an exclusive tool is being worked on no other tool call of the message is, in no order
    of the resumptions, after an abort neither. *)
Theorem exclusive_runs_alone b i j :
  reachable cfg calls reserve ab b -> exclusive_call i = true -> i <> j ->
  busy b i = true -> busy b j = false.
Proof.
  intros Hr Hx Hij Hi. destruct (busy b j) eqn:Hj; [exfalso|done].
  apply busy_begun in Hi as (p & Hp & Hbp & Hnp), Hj as (q & Hq & Hbq & Hnq).
  pose proof (begun_task b i p Hr Hp Hbp). pose proof (begun_task b j q Hr Hq Hbq).
  destruct (decide (i < j)%nat).
  - assert (phase_at b i = Some (settled true)) by (apply (ended_before b Hr j i q); auto). congruence.
  - assert (phase_at b j = Some (settled true)) by (apply (ended_before b Hr i j p); auto; lia). congruence.
Qed.
End exclusion.
