(* ===== verification/ToolBatchEnds.v ===== *)
(** * A batch of tool calls ends

    Each resumption takes the batch closer to its end, and until [executeToolCalls] has returned one is
    always possible: no choice of order makes the tasks wait for each other in a circle. *)
From S2P Require Import Prelude.
From S2P Require Import Json.
From S2P Require Import ToolBatch.
From S2P Require Import ToolBatchRuns.
From S2P Require Import ToolBatchProofs.
From S2P Require Import ToolBatchExclusive.
#[local] Open Scope nat_scope.

(** How many awaits are ahead of a task. *)
Definition awaits (p : Phase) : nat :=
  match p with
  | no_task | settled _ => 0
  | waiting _ => 7 | before _ => 6 | running => 5 | after _ => 4 | finishing _ => 3 | steering _ => 2
  | ending _ => 1
  end.

Definition work (b : Batch) : nat := sum_list_with (fun r => awaits (phase r)) (records b).

Definition measure (b : Batch) : nat :=
  2 * work b + (match steeringCheck b with Some _ => 1 | None => 0 end)
  + (if aborted b then 0 else 1) + (match main b with racing => 1 | returned _ _ _ => 0 end).

Definition is_partial (l : Label) : bool := match l with Partial _ _ => true | _ => false end.

Lemma sum_phases {A} (f : A -> nat) (l l' : list A) i x y :
  l !! i = Some x -> l' !! i = Some y -> (forall j, j <> i -> f <$> l' !! j = f <$> l !! j) ->
  sum_list_with f l' + f x = sum_list_with f l + f y.
Proof.
  assert (Hsame : forall l l' : list A, (forall j, f <$> l' !! j = f <$> l !! j) ->
    sum_list_with f l' = sum_list_with f l).
  { clear. induction l as [|x l IH]; intros l' Hj.
    - destruct l' as [|y l']; [done|]. by specialize (Hj 0).
    - destruct l' as [|y l']; [by specialize (Hj 0)|]. cbn. pose proof (Hj 0) as [= ->].
      f_equal. apply IH. intros j. apply (Hj (S j)). }
  revert l' i. induction l as [|z l IH]; intros l' i Hx Hy Hj; [done|].
  destruct l' as [|z' l']; [done|]. destruct i as [|i]; cbn in *.
  - injection Hx as ->. injection Hy as ->. rewrite (Hsame l l'); [lia|].
    intros j. apply (Hj (S j)). lia.
  - pose proof (Hj 0 ltac:(lia)) as [= ->]. specialize (IH l' i Hx Hy).
    enough (sum_list_with f l' + f x = sum_list_with f l + f y) by lia.
    apply IH. intros j Hne. apply (Hj (S j)). lia.
Qed.

(** [b'] has the phases of [b], except that [i] is in [q]. *)
Definition phase_only (i : nat) (q : Phase) (b b' : Batch) : Prop :=
  phase_at b' i = Some q /\ forall j, j <> i -> phase_at b' j = phase_at b j.

Lemma work_phase b b' i p q :
  phase_at b i = Some p -> phase_only i q b b' -> work b' + awaits p = work b + awaits q.
Proof.
  unfold phase_only, phase_at. intros (r & Hr & ->)%fmap_Some [(r' & Hr' & ->)%fmap_Some Hne].
  apply (sum_phases (fun r => awaits (phase r)) _ _ i r r'); [done..|].
  intros j Hj. specialize (Hne j Hj). destruct (records b' !! j), (records b !! j); cbn in *; congruence.
Qed.

Lemma work_same b b' : (forall j, phase_at b' j = phase_at b j) -> work b' = work b.
Proof.
  unfold work, phase_at. generalize (records b) as l, (records b') as l'. clear.
  induction l as [|x l IH]; intros l' Hj; (destruct l' as [|y l']; [|]); try done;
    try (by specialize (Hj 0)).
  cbn. pose proof (Hj 0) as [= ->]. f_equal. apply IH. intros j. apply (Hj (S j)).
Qed.

Section phases.
Context `{ToolHost} (cfg : Config).

Lemma phase_set i q b r : records b !! i = Some r -> phase_only i q b (on_rec i (set_phase q) b).
Proof.
  intros Hr. unfold phase_only, phase_at. cbn [on_rec records]. rewrite list_lookup_alter_eq, Hr.
  split; [done|]. intros j Hj. by rewrite list_lookup_alter_ne.
Qed.

Lemma phase_after i q b b1 b2 :
  (forall j, j <> i -> phase_at b1 j = phase_at b j) -> phase_only i q b1 b2 -> phase_only i q b b2.
Proof. intros H1 [H2 H3]. split; [done|]. intros j Hj. rewrite H3, H1 by done. done. Qed.

Lemma edit_others i f b : forall j, j <> i -> phase_at (on_rec i f b) j = phase_at b j.
Proof. intros j Hj. unfold phase_at. cbn. by rewrite list_lookup_alter_ne. Qed.

(** Out of the [try]. *)
Definition past_try (q : Phase) : Prop := match q with after _ | finishing _ => True | _ => False end.

Lemma catch_phase i c msg b r :
  records b !! i = Some r -> exists q, phase_only i q b (catch_failure cfg i c msg b) /\ past_try q.
Proof.
  intros Hr. unfold catch_failure. rewrite Hr. unfold to_after.
  exists (if has_after cfg then after (failure r c msg) else finishing (failure r c msg)).
  split; [by eapply phase_set | by destruct (has_after cfg)].
Qed.

Lemma dispatch_phase i effective b r :
  records b !! i = Some r ->
  exists q, phase_only i q b (dispatch cfg i effective b) /\ (q = running \/ past_try q).
Proof.
  intros Hr. unfold dispatch. rewrite Hr.
  destruct (match tool r with Some t => executable t | None => false end).
  - exists running. split; [|by left]. unfold phase_only, phase_at. cbn [push on_rec records].
    rewrite list_lookup_alter_eq, Hr. split; [done|]. intros j Hj. by rewrite list_lookup_alter_ne.
  - match goal with |- context [catch_failure cfg i ?c ?m ?b1] =>
      destruct (catch_phase i c m b1 _ (on_rec_some i (set_args effective) b r Hr)) as (q & Hq & Hp) end.
    exists q. split; [|by right]. eapply phase_after; [apply edit_others | exact Hq].
Qed.

Lemma begin_phase i b r :
  records b !! i = Some r ->
  exists q, phase_only i q b (begin_task cfg i b) /\ awaits q < 7
    /\ match q with no_task | steering _ => False | _ => True end.
Proof.
  intros Hr. unfold begin_task. rewrite Hr. destruct (triggered b).
  { exists (ending true). split; [|by split; [cbn; lia|]]. eapply phase_after; [apply edit_others|].
    eapply phase_set. by apply on_rec_some. }
  destruct (trace_intent cfg (tool r) (toolCall r)) as [[c a]|].
  2:{ exists (ending false). split; [by eapply phase_set | by split; [cbn; lia|]]. }
  pose proof (on_rec_some i (set_call c a) b r Hr) as Hr1.
  destruct (check_call cfg (tool r) c a) as [effective | [validation msg]].
  - destruct (has_before cfg).
    + exists (before effective). split; [|by split; [cbn; lia|]]. eapply phase_after; [apply edit_others|].
      by eapply phase_set.
    + destruct (dispatch_phase i effective _ _ Hr1) as (q & Hq & Hp). exists q.
      split; [eapply phase_after; [apply edit_others | exact Hq]|].
      destruct Hp as [-> | Hp]; [by split; [cbn; lia|]|]. destruct q; try done; by split; [cbn; lia|].
  - set (b2 := if validation then _ else _).
    assert (Hr2 : exists r2, records b2 !! i = Some r2).
    { subst b2. destruct validation; [|by eexists]. eexists. by apply on_rec_some. }
    destruct Hr2 as [r2 Hr2]. destruct (catch_phase i caught_error msg b2 r2 Hr2) as (q & Hq & Hp).
    exists q. split.
    + eapply phase_after; [|exact Hq]. intros j Hj. subst b2.
      destruct validation; rewrite ?edit_others by done; done.
    + destruct q; try done; by split; [cbn; lia|].
Qed.

Lemma finish_phase i o b r :
  records b !! i = Some r ->
  exists q, phase_only i q b (finish_task cfg i o b)
    /\ (q = ending true \/ exists k, q = steering k /\ steeringCheck (finish_task cfg i o b) = Some k
        /\ (steeringCheck b = Some k \/ steeringCheck b = None /\ k = length (checks b))).
Proof.
  intros Hr. unfold finish_task.
  match goal with |- context [checkSteering cfg i ?x] => set (b1 := x) end.
  assert (Hg : globals b1 = globals b).
  { subst b1. destruct (triggered b); unfold report, globals; cbn; exact (emit_globals i _ _ _). }
  assert (Hne : forall j, phase_at b1 j = phase_at b j).
  { intros j. subst b1. unfold report. unfold phase_at at 1. cbn [records].
    destruct (triggered b).
    - change (phase_at (emitToolResult i createSkippedToolResult true (on_rec i set_skipped b)) j = phase_at b j).
      rewrite emit_phase. apply skipped_phase.
    - apply (emit_phase i j). }
  assert (Hr1 : exists r1, records b1 !! i = Some r1).
  { specialize (Hne i). unfold phase_at in Hne. rewrite Hr in Hne. destruct (records b1 !! i); [by eexists | done]. }
  destruct Hr1 as [r1 Hr1]. clearbody b1. apply globals_fields in Hg as (H1 & H2 & H3 & H4 & H5 & H6).
  unfold checkSteering.
  destruct (negb (interrupt_immediate cfg) || _ || _ || _).
  { exists (ending true). split; [|by left]. eapply phase_after; [intros; apply Hne | by eapply phase_set]. }
  destruct (steeringCheck b1) as [k|] eqn:Hk.
  - exists (steering k). split; [eapply phase_after; [intros; apply Hne | by eapply phase_set]|].
    right. exists k. split; [done|]. split; [done|]. left. congruence.
  - exists (steering (length (checks b1))).
    split; [eapply (phase_after i _ b (open_check b1)); [intros; apply Hne | by eapply phase_set]|].
    right. eexists. split; [done|]. split; [done|]. right. split; congruence.
Qed.
End phases.

(** The call that a resumption moves on. *)
Definition moved (l : Label) : option nat :=
  match l with
  | Begin i | Refuse i | BeforeAnswered i _ | Executed i _ | AfterAnswered i _ | Finish i | Resume i
  | Conclude i => Some i
  | Partial _ _ | SteeringAnswered _ | AbortSignal | AllSettled | SawAbort => None
  end.

Section ends.
Context `{ToolHost} (cfg : Config).

Lemma phase_lookup b i p : phase_at b i = Some p -> exists r, records b !! i = Some r /\ phase r = p.
Proof. intros (r & Hr & ->)%fmap_Some. by exists r. Qed.

(** A resumption of a call takes it closer to its end and leaves the phases of the others; the other
    resumptions leave all phases. *)
Lemma step_phases l b b' :
  step cfg l b = Some b' ->
  match moved l with
  | Some i => exists p q, phase_at b i = Some p /\ phase_only i q b b' /\ awaits q < awaits p
      /\ match q with
         | steering k => steeringCheck b' = Some k
             /\ (steeringCheck b = Some k \/ steeringCheck b = None /\ k = length (checks b))
         | no_task => False
         | _ => True
         end
  | None => forall j, phase_at b' j = phase_at b j
  end.
Proof.
  destruct l as [i|i|i ans|i raw|i ans|i ans|i|ans|i|i| | |]; cbn [step moved].
  - destruct (phase_at b i) as [[]|] eqn:Hp; try done. destruct (resolved b deps); [|done].
    intros [= <-]. destruct (phase_lookup b i _ Hp) as (r & Hr & _).
    destruct (begin_phase cfg i b r Hr) as (q & Hq & Hlt & Hst). exists (waiting deps), q.
    split; [done|]. split; [done|]. split; [done|]. by destruct q.
  - destruct (phase_at b i) as [[]|] eqn:Hp; try done. destruct (rejected b deps); [|done].
    intros [= <-]. destruct (phase_lookup b i _ Hp) as (r & Hr & _).
    eexists _, _. split; [done|]. split; [by eapply phase_set|]. split; [cbn; lia | done].
  - destruct (phase_at b i) as [[]|] eqn:Hp; try done. intros [= <-].
    destruct (phase_lookup b i _ Hp) as (r & Hr & _). exists (before effective).
    assert (Hq : exists q, phase_only i q b (before_answered cfg i effective ans b) /\ (q = running \/ past_try q)).
    { destruct ans; [by eapply dispatch_phase | |];
        (edestruct (catch_phase cfg i) as (q & ? & ?); [exact Hr|]; exists q; split; [eassumption | by right]). }
    destruct Hq as (q & Hq & Hpast). exists q. split; [done|]. split; [done|].
    destruct Hpast as [-> | Hpast]; [by split; [cbn; lia|]|]. destruct q; try done; by split; [cbn; lia|].
  - destruct (records b !! i) as [r|]; [|done]. destruct (started r); [|done].
    destruct (fields_of r) as [[id name] int]. by intros [= <-].
  - destruct (phase_at b i) as [[]|] eqn:Hp; try done. intros [= <-].
    destruct (phase_lookup b i _ Hp) as (r & Hr & _). exists running.
    assert (Hq : exists q, phase_only i q b (executed cfg i ans b) /\ past_try q).
    { destruct ans as [raw | msg]; [|by eapply catch_phase]. cbn. destruct (coerceToolResult _ raw) as [res bad].
      unfold to_after. eexists. split; [by eapply phase_set | by destruct (has_after cfg)]. }
    destruct Hq as (q & Hq & Hpast). exists q. split; [done|]. split; [done|].
    destruct q; try done; by split; [cbn; lia|].
  - destruct (phase_at b i) as [[]|] eqn:Hp; try done. intros [= <-].
    destruct (phase_lookup b i _ Hp) as (r & Hr & _).
    eexists _, _. split; [done|]. split; [by eapply phase_set|]. split; [cbn; lia | done].
  - destruct (phase_at b i) as [[]|] eqn:Hp; try done. intros [= <-].
    destruct (phase_lookup b i _ Hp) as (r & Hr & _).
    destruct (finish_phase cfg i o b r Hr) as (q & Hq & Hcase). eexists _, q. split; [done|]. split; [done|].
    destruct Hcase as [-> | (k & -> & Hk & Ho)]; split; try done; cbn; lia.
  - destruct (steeringCheck b); [|done]. by intros [= <-].
  - destruct (phase_at b i) as [[]|] eqn:Hp; try done. destruct (checks b !! check); [|done].
    intros [= <-]. destruct (phase_lookup b i _ Hp) as (r & Hr & _).
    eexists _, _. split; [done|]. split; [by eapply phase_set|]. split; [cbn; lia | done].
  - destruct (phase_at b i) as [[]|] eqn:Hp; try done. intros [= <-].
    assert (Hr1 : exists r1, records (skip_unanswered i b) !! i = Some r1).
    { pose proof (skip_phase i i b) as Hs. rewrite Hp in Hs. apply phase_lookup in Hs as (r1 & Hr1 & _). by exists r1. }
    destruct Hr1 as [r1 Hr1]. eexists _, _. split; [done|]. split.
    { eapply (phase_after i _ b (skip_unanswered i b)); [intros j _; apply skip_phase | by eapply phase_set]. }
    split; [cbn; lia | done].
  - destruct (has_signal cfg && negb (aborted b)); [|done]. by intros [= <-].
  - destruct (main b); [|done]. destruct (all_settled b); [|done]. intros [= <-] j.
    apply (for_records_phase skip_unanswered b (fun i j b' => skip_phase i j b')).
  - destruct (main b); [|done]. destruct (has_signal cfg && aborted b); [|done]. intros [= <-] j.
    transitivity (phase_at (for_records abort_unanswered b) j).
    + apply (for_records_phase skip_unanswered _ (fun i j b' => skip_phase i j b')).
    + apply for_records_phase. intros; apply abort_phase.
Qed.

Lemma finish_batch_globals b :
  steeringCheck (finish_batch b) = steeringCheck b /\ aborted (finish_batch b) = aborted b
  /\ checks (finish_batch b) = checks b.
Proof.
  destruct (globals_fields _ _ (for_records_globals skip_unanswered b (fun i b' => skip_globals i b')))
    as (_ & Ha & _ & Hc & Hk & _). by repeat split.
Qed.

(** Every resumption other than a partial result brings the batch closer to its end. *)
Lemma step_decreases l b b' :
  step cfg l b = Some b' -> is_partial l = false -> measure b' < measure b.
Proof.
  intros Hs Hl. pose proof (step_phases l b b' Hs) as Hp. pose proof (step_globals cfg l b b' Hs) as Hg.
  assert (Hown : forall i, moved l = Some i -> work b' + 1 <= work b).
  { intros i Hi. rewrite Hi in Hp. destruct Hp as (p & q & Hp & Ho & Hlt & _).
    pose proof (work_phase b b' i p q Hp Ho). lia. }
  unfold measure. destruct l as [i|i|i ans|i raw|i ans|i ans|i|ans|i|i| | |]; cbn [moved] in *; try done;
    try (specialize (Hown i eq_refl)); try (apply globals_fields in Hg as (_ & -> & -> & _ & -> & _); lia).
  - destruct Hg as (_ & -> & -> & _). destruct (steeringCheck b'), (steeringCheck b); lia.
  - rewrite (work_same b b' Hp). subst b'. cbn. unfold step in Hs. destruct (steeringCheck b); [lia | done].
  - rewrite (work_same b b' Hp). destruct Hg as [-> _]. cbn [step] in Hs.
    destruct (has_signal cfg), (aborted b) eqn:Ha; try done. cbn. lia.
  - rewrite (work_same b b' Hp). destruct Hg as [-> Hm].
    destruct (finish_batch_globals b) as (-> & -> & _). rewrite Hm. cbn. lia.
  - rewrite (work_same b b' Hp). destruct Hg as (-> & Hm & _).
    destruct (finish_batch_globals (for_records abort_unanswered b)) as (-> & -> & _).
    destruct (globals_fields _ _ (for_records_globals abort_unanswered b (fun i b' => abort_globals i b')))
      as (_ & -> & _ & _ & -> & _). rewrite Hm. cbn. lia.
Qed.

Lemma steps_bounded ls b b' :
  steps cfg ls b = Some b' ->
  length (List.filter (fun l => negb (is_partial l)) ls) + measure b' <= measure b.
Proof.
  revert b. induction ls as [|l ls IH]; intros b Hs; cbn [steps List.filter] in *; [by injection Hs as <-|].
  destruct (step cfg l b) as [b1|] eqn:Hl; [|done]. specialize (IH b1 Hs).
  destruct (is_partial l) eqn:Hp; cbn [negb length].
  - enough (measure b1 = measure b) by lia.
    destruct l; try done. pose proof (step_phases _ _ _ Hl) as Hw. cbn in Hw. unfold measure.
    rewrite (work_same b b1 Hw).
    by destruct (globals_fields _ _ (step_globals cfg _ b b1 Hl)) as (_ & -> & -> & _ & -> & _).
  - pose proof (step_decreases l b b1 Hl Hp). lia.
Qed.
End ends.

Section progress.
Context `{ToolHost} (cfg : Config) (calls : list ToolCall) (reserve : nat -> option bool) (ab : bool).

(** A check that is waited for is open or has settled. *)
Definition checks_ok (b : Batch) : Prop :=
  (forall k, steeringCheck b = Some k -> k = length (checks b))
  /\ forall i k, phase_at b i = Some (steering k) -> k < length (checks b) \/ steeringCheck b = Some k.

Lemma start_globals :
  checks (executeToolCalls cfg calls reserve ab) = [] /\ steeringCheck (executeToolCalls cfg calls reserve ab) = None.
Proof.
  destruct (launch_globals reserve (seq 0 (length (records (initial cfg calls ab))))
    {| l_batch := initial cfg calls ab; lastExclusive := []; sharedTasks := [] |}) as (_ & _ & _ & Hc & Hk & _).
  fold (launch reserve (initial cfg calls ab)) in Hc, Hk. unfold executeToolCalls.
  destruct (has_signal cfg && ab); [|done].
  destruct (finish_batch_globals (for_records abort_unanswered (l_batch (launch reserve (initial cfg calls ab)))))
    as (-> & _ & ->).
  destruct (globals_fields _ _ (for_records_globals abort_unanswered
    (l_batch (launch reserve (initial cfg calls ab))) (fun i b' => abort_globals i b')))
    as (_ & _ & _ & -> & -> & _). done.
Qed.

Lemma start_phases i p :
  phase_at (executeToolCalls cfg calls reserve ab) i = Some p ->
  p = no_task \/ exists deps, p = waiting deps.
Proof.
  rewrite start_phase, phase_at_view. intros (v & Hv & ->)%fmap_Some.
  destruct (calls !! i) as [c|] eqn:Hc.
  - destruct (launch_views cfg calls reserve ab i c Hc) as (v0 & Hv0 & Hl). unfold start_batch in Hv.
    rewrite Hv in Hv0. injection Hv0 as <-. destruct Hl as [ [deps ->] | ->]; [right; by eexists | by left].
  - apply (sound_records calls _ i (launch_sound cfg calls reserve ab)) in Hc.
    apply view_rec in Hv. unfold start_batch in Hv. congruence.
Qed.

Lemma checks_ok_step l b b' : checks_ok b -> step cfg l b = Some b' -> checks_ok b'.
Proof.
  intros [Hopen Hwait] Hs. pose proof (step_phases cfg l b b' Hs) as Hp.
  pose proof (step_globals cfg l b b' Hs) as Hg.
  assert (Hsame : checks b' = checks b -> steeringCheck b' = steeringCheck b -> checks_ok b').
  { intros Hc Hk. split; [by rewrite Hc, Hk|]. rewrite Hc, Hk. intros i k Hi.
    destruct (moved l) as [i'|]; [|apply (Hwait i); by rewrite <- Hp].
    destruct Hp as (p & q & Hpi & [Hq Hne] & _ & Hst). destruct (decide (i = i')) as [-> | Hd].
    - rewrite Hq in Hi. injection Hi as ->. rewrite Hk in Hst. right. tauto.
    - rewrite Hne in Hi by done. by apply (Hwait i). }
  destruct l as [i|i|i ans|i raw|i ans|i ans|i|ans|i|i| | |];
    try (apply globals_fields in Hg as (_ & _ & _ & Hc & Hk & _); by apply Hsame).
  - destruct Hg as (_ & _ & _ & Hc & _ & [Hk | [Hno Hk] ]); [by apply Hsame|].
    cbn [moved] in Hp. destruct Hp as (p & q & Hpi & [Hq Hne] & _ & Hst). split.
    + rewrite Hk, Hc. by intros k [= <-].
    + intros i' k Hi. destruct (decide (i' = i)) as [-> | Hd].
      * rewrite Hq in Hi. injection Hi as ->. right. tauto.
      * rewrite Hne in Hi by done. rewrite Hc. destruct (Hwait i' k Hi); [by left | congruence].
  - subst b'. cbn [step] in Hs. destruct (steeringCheck b) as [k|] eqn:Hk; [|done].
    unfold checks_ok. cbn. split; [done|]. intros i k' Hi. left. rewrite length_app. cbn.
    destruct (Hwait i k' Hi) as [? | [= <-]]; [lia|]. rewrite (Hopen k eq_refl). lia.
  - destruct Hg as [-> _]. by apply Hsame.
  - destruct Hg as [-> _]. destruct (finish_batch_globals b) as (Hk & _ & Hc). by apply Hsame.
  - destruct Hg as [-> _]. destruct (finish_batch_globals (for_records abort_unanswered b)) as (Hk & _ & Hc).
    destruct (globals_fields _ _ (for_records_globals abort_unanswered b (fun i b' => abort_globals i b')))
      as (_ & _ & _ & Hc' & Hk' & _).
    apply Hsame; congruence.
Qed.

(** Only a call that was refused at the launch has no task. *)
Lemma no_task_kept l b b' i :
  step cfg l b = Some b' -> phase_at b' i = Some no_task -> phase_at b i = Some no_task.
Proof.
  intros Hs Hi. pose proof (step_phases cfg l b b' Hs) as Hp.
  destruct (moved l) as [i'|]; [|by rewrite <- Hp].
  destruct Hp as (p & q & Hpi & [Hq Hne] & Hlt & Hnt). destruct (decide (i = i')) as [-> | Hd]; [|by rewrite <- Hne].
  rewrite Hq in Hi. by injection Hi as ->.
Qed.

(** The task that another one waits for exists and was launched before it. *)
Lemma waits_for_tasks b :
  reachable cfg calls reserve ab b ->
  forall i deps d, phase_at b i = Some (waiting deps) -> d ∈ deps ->
  d < i /\ exists p, phase_at b d = Some p /\ p <> no_task.
Proof.
  intros Hr i deps d Hp Hd. rewrite phase_at_view in Hp. apply fmap_Some in Hp as (v & Hv & Hph).
  pose proof (proj1 (reachable_ordered cfg calls reserve ab b Hr i v Hv) deps (eq_sym Hph)) as Hstart.
  destruct (la_deps cfg calls _ _ (launch_launched cfg calls reserve ab) i deps Hstart) as [_ Hlow].
  destruct (Hlow d Hd) as [Hdi [deps' Hd'] ]. split; [exact Hdi|].
  assert (Hex : exists p, phase_at b d = Some p).
  { pose proof (reachable_sound cfg calls reserve ab b Hr) as S. destruct (records b !! d) as [r|] eqn:Hr'.
    - exists (phase r). unfold phase_at. by rewrite Hr'.
    - apply (sound_records calls b d S), (sound_records calls _ d (launch_sound cfg calls reserve ab)) in Hr'.
      unfold phase_at in Hd'. by rewrite Hr' in Hd'. }
  destruct Hex as [p Hpd]. exists p. split; [done|]. intros ->.
  assert (Hback : phase_at b d = Some no_task ->
    phase_at (executeToolCalls cfg calls reserve ab) d = Some no_task).
  { clear -Hr. revert b Hr.
    apply (reachable_ind cfg calls reserve ab (fun b => phase_at b d = Some no_task ->
      phase_at (executeToolCalls cfg calls reserve ab) d = Some no_task)); [done|].
    intros l b b' _ IH Hs Hno. apply IH. by eapply no_task_kept. }
  apply Hback in Hpd. rewrite start_phase in Hpd. unfold start_batch in Hpd. congruence.
Qed.

Lemma reachable_checks b : reachable cfg calls reserve ab b -> checks_ok b.
Proof.
  apply reachable_ind.
  - destruct start_globals as [Hc Hk]. split; [by rewrite Hk|]. intros i k Hi.
    by apply start_phases in Hi as [? | [deps ?] ].
  - intros l b1 b2 _ Hok Hs. by eapply checks_ok_step.
Qed.

(** The least call that has not settled can go on, or what it waits for can be answered. *)
Lemma unsettled_enabled b i p :
  reachable cfg calls reserve ab b -> phase_at b i = Some p -> is_settled (Some p) = false ->
  (forall j q, j < i -> phase_at b j = Some q -> is_settled (Some q) = true) ->
  exists l b', is_partial l = false /\ step cfg l b = Some b'.
Proof.
  intros Hr Hp Hu Hlow. destruct p as [|deps|effective| |o|o|k|ok|ok]; try done.
  - destruct (rejected b deps) eqn:Hrej.
    { exists (Refuse i). eexists. split; [done|]. cbn [step]. by rewrite Hp, Hrej. }
    exists (Begin i). eexists. split; [done|]. cbn [step]. rewrite Hp.
    replace (resolved b deps) with true; [done|]. symmetry. unfold resolved. apply forallb_Forall, Forall_forall.
    intros d Hd. destruct (waits_for_tasks b Hr i deps d Hp Hd) as (Hdi & q & Hq & Hnt).
    specialize (Hlow d q Hdi Hq). rewrite Hq. destruct q; try done. destruct ok; [done|].
    exfalso. assert (rejected b deps = true); [|congruence]. apply existsb_exists. exists d.
    split; [by apply list_elem_of_In|]. by rewrite Hq.
  - exists (BeforeAnswered i Proceed). eexists. split; [done|]. cbn [step]. by rewrite Hp.
  - exists (Executed i (Returns JNull)). eexists. split; [done|]. cbn [step]. by rewrite Hp.
  - exists (AfterAnswered i AfterNothing). eexists. split; [done|]. cbn [step]. by rewrite Hp.
  - exists (Finish i). eexists. split; [done|]. cbn [step]. by rewrite Hp.
  - destruct (proj2 (reachable_checks b Hr) i k Hp) as [Hk | Hk].
    + destruct (lookup_lt_is_Some_2 _ _ Hk) as [ok Hok].
      exists (Resume i). eexists. split; [done|]. cbn [step]. by rewrite Hp, Hok.
    + exists (SteeringAnswered None). eexists. split; [done|]. cbn [step]. by rewrite Hk.
  - exists (Conclude i). eexists. split; [done|]. cbn [step]. by rewrite Hp.
Qed.

(** Below [n] every call has settled, or there is a least one that has not. *)
Lemma least_unsettled b n :
  (exists i p, phase_at b i = Some p /\ is_settled (Some p) = false
     /\ forall j q, j < i -> phase_at b j = Some q -> is_settled (Some q) = true)
  \/ forall j q, j < n -> phase_at b j = Some q -> is_settled (Some q) = true.
Proof.
  induction n as [|n [ ? | IH] ]; [right; lia | by left|].
  destruct (phase_at b n) as [p|] eqn:Hp; [destruct (is_settled (Some p)) eqn:Hs; [right|left]|right].
  - intros j q Hj Hq. destruct (decide (j = n)) as [-> | ?]; [congruence | apply (IH j); [lia | done] ].
  - exists n, p. done.
  - intros j q Hj Hq. destruct (decide (j = n)) as [-> | ?]; [congruence | apply (IH j); [lia | done] ].
Qed.

Lemma enabled b :
  reachable cfg calls reserve ab b -> main b = racing ->
  exists l b', is_partial l = false /\ step cfg l b = Some b'.
Proof.
  intros Hr Hm. destruct (all_settled b) eqn:Hall.
  { exists AllSettled. eexists. split; [done|]. cbn [step]. by rewrite Hm, Hall. }
  destruct (least_unsettled b (length (records b))) as [(i & p & Hp & Hu & Hlow) | Hset].
  - by eapply unsettled_enabled.
  - exfalso. assert (all_settled b = true); [|congruence]. apply all_settled_phase. intros i r Hi.
    apply (Hset i); [by eapply lookup_lt_Some|]. unfold phase_at. by rewrite Hi.
Qed.

Lemma sound_length b : Sound calls b -> length (records b) = length calls.
Proof.
  intros S. apply Nat.le_antisymm; apply Nat.nlt_ge; intros Hlt; apply lookup_lt_is_Some in Hlt as [x Hx].
  - assert (calls !! length calls = None) as Hn by (by apply lookup_ge_None).
    apply (sound_records calls b _ S) in Hn. congruence.
  - assert (records b !! length (records b) = None) as Hn by (by apply lookup_ge_None).
    apply (sound_records calls b _ S) in Hn. congruence.
Qed.

Lemma measure_bound b : Sound calls b -> measure b <= 14 * length calls + 3.
Proof.
  intros S%sound_length.
  assert (Hw : forall rs, sum_list_with (fun r => awaits (phase r)) rs <= 7 * length rs).
  { induction rs as [|r rs IH]; cbn; [lia|]. destruct (phase r); cbn; lia. }
  specialize (Hw (records b)). unfold measure, work. rewrite S in Hw.
  destruct (steeringCheck b), (aborted b), (main b); lia.
Qed.

(** C29. The batch ends.  Whatever state it has reached, it can be resumed only a bounded number of
    times, partial results apart; and as long as [executeToolCalls] has not returned some resumption
    is possible, so that a run which is resumed as long as it can be does return. *)
Theorem batch_returns b ls b' :
  reachable cfg calls reserve ab b -> steps cfg ls b = Some b' ->
  length (List.filter (fun l => negb (is_partial l)) ls) <= 14 * length calls + 3
  /\ (main b' = racing -> exists l b'', is_partial l = false /\ step cfg l b' = Some b'').
Proof.
  intros Hr Hs. split.
  - pose proof (steps_bounded cfg ls b b' Hs).
    pose proof (measure_bound b (reachable_sound cfg calls reserve ab b Hr)). lia.
  - apply enabled. destruct Hr as [ls0 Hls]. exists (ls0 ++ ls). apply steps_app. by exists b.
Qed.
End progress.
