(* ===== verification/ToolBatchDemo.v ===== *)
(** * A concrete batch of tool calls

    Three tools, some runs, and the theorems of the batch at these runs. *)
From S2P Require Import Prelude.
From S2P Require Import Json.
From S2P Require Import ToolBatch.
From S2P Require Import ToolBatchRuns.
From S2P Require Import ToolBatchProofs.
From S2P Require Import ToolBatchSafety.
From S2P Require Import ToolBatchExclusive.
From S2P Require Import ToolBatchEnds.
#[local] Open Scope Z_scope.
#[local] Open Scope js_scope.

(** A host whose validation rejects nothing and that changes no text. *)
#[export] Instance demo_host : ToolHost := {
  sanitizeText := fun s => s;
  validateToolArguments := fun _ _ a => Ok a;
  displaySafe := fun _ _ _ => false;
  tool_intent := fun _ _ => None
}.

Definition demo_tool (name : jstr) (conc : option Concurrency) : AgentTool :=
  {| tool_name := name; customWireName := None; concurrency := conc; lenientArgValidation := false;
     executable := true |}.

Definition demo_config : Config :=
  {| cfg_tools := [demo_tool (u "read") None; demo_tool (u "edit") (Some exclusive)];
     interrupt_immediate := true; has_steering := true; has_before := false; has_after := false;
     intentTracing := false; has_signal := true |}.

Definition demo_call (id name : jstr) : ToolCall :=
  {| call_id := id; call_name := name; arguments := JObj [(u "path", JStr id)]; intent := None;
     incompleteArguments := None; escapedGuarded := false |}.

(** Two reads around an edit. *)
Definition demo_calls : list ToolCall :=
  [demo_call (u "r1") (u "read"); demo_call (u "e1") (u "edit"); demo_call (u "r2") (u "read")].

Definition demo_reply (text : jstr) : ExecAnswer :=
  Returns (JObj [(u "content", JArr [JObj [(u "type", JStr (u "text")); (u "text", JStr text)] ])]).

Definition no_ledger (i : nat) : option bool := None.

Definition demo_start (calls : list ToolCall) : Batch := executeToolCalls demo_config calls no_ledger false.

Definition demo_run (calls : list ToolCall) (ls : list Label) : Batch :=
  default (demo_start calls) (steps demo_config ls (demo_start calls)).

(** The first read is steered away: the edit and the second read are skipped. *)
Definition until_interrupt : list Label :=
  [Begin 0; Executed 0 (demo_reply (u "one")); Finish 0; SteeringAnswered (Some [u "stop"])].

Definition after_interrupt : list Label :=
  [Resume 0; Conclude 0; Begin 1; Conclude 1; Begin 2; Conclude 2; AllSettled].

(** Everything runs. *)
Definition undisturbed : list Label :=
  [Begin 0; Executed 0 (demo_reply (u "one")); Finish 0; SteeringAnswered (Some []); Resume 0; Conclude 0;
   Begin 1; Partial 1 JNull; Executed 1 (ExecThrows (u "no match")); Finish 1; SteeringAnswered (Some []);
   Resume 1; Conclude 1;
   Begin 2; Executed 2 (demo_reply (u "two")); Finish 2; SteeringAnswered (Some []); Resume 2; Conclude 2;
   AllSettled].

(** Two edits; the run is aborted while the first is at work, and the first then stops. *)
Definition two_edits : list ToolCall := [demo_call (u "e1") (u "edit"); demo_call (u "e2") (u "edit")].

Definition until_abort : list Label :=
  [Begin 0; AbortSignal; SawAbort; Executed 0 (ExecThrows (u "aborted")); Finish 0; Conclude 0].

Lemma demo_reachable calls ls :
  steps demo_config ls (demo_start calls) = Some (demo_run calls ls) ->
  reachable demo_config calls no_ledger false (demo_run calls ls).
Proof. intros Hs. by exists ls. Qed.

Lemma interrupt_reachable :
  reachable demo_config demo_calls no_ledger false (demo_run demo_calls (until_interrupt ++ after_interrupt)).
Proof. apply demo_reachable. vm_compute. reflexivity. Qed.

Lemma undisturbed_reachable :
  reachable demo_config demo_calls no_ledger false (demo_run demo_calls undisturbed).
Proof. apply demo_reachable. vm_compute. reflexivity. Qed.

Definition returned_of (b : Batch) : list (nat * ToolResultMessage) * option (list jstr) * list jstr :=
  match main b with returned rs st mal => (rs, st, mal) | racing => ([], None, []) end.

Lemma interrupt_returned :
  let b := demo_run demo_calls (until_interrupt ++ after_interrupt) in
  main b = returned (fst (fst (returned_of b))) (snd (fst (returned_of b))) (snd (returned_of b)).
Proof. vm_compute. reflexivity. Qed.

(** The three results come back, the last two as notices. *)
Example interrupt_results :
  let b := demo_run demo_calls (until_interrupt ++ after_interrupt) in
  map (fun p => (fst p, isError (snd p))) (fst (fst (returned_of b))) = [(0%nat, false); (1%nat, true); (2%nat, true)].
Proof. vm_compute. reflexivity. Qed.

Lemma every_call_answered_witness :
  let b := demo_run demo_calls (until_interrupt ++ after_interrupt) in
  map fst (fst (fst (returned_of b))) ≡ₚ seq 0 3
  /\ forall i m, (i, m) ∈ fst (fst (returned_of b)) ->
     exists c, demo_calls !! i = Some c /\ toolCallId m = call_id c /\ toolName m = call_name c.
Proof.
  exact (every_call_answered demo_config demo_calls no_ledger false _ _ _ _
    interrupt_reachable interrupt_returned).
Defined.

Lemma undisturbed_returned :
  let b := demo_run demo_calls undisturbed in
  main b = returned (fst (fst (returned_of b))) (snd (fst (returned_of b))) (snd (returned_of b)).
Proof. vm_compute. reflexivity. Qed.

Lemma undisturbed_not_aborted : aborted (demo_run demo_calls undisturbed) = false.
Proof. vm_compute. reflexivity. Qed.


Lemma until_interrupt_reachable :
  reachable demo_config demo_calls no_ledger false (demo_run demo_calls until_interrupt).
Proof. apply demo_reachable. vm_compute. reflexivity. Qed.

Definition rec_of (b : Batch) (i : nat) : Rec :=
  default (new_record demo_config (demo_call [] [])) (records b !! i).

Lemma until_interrupt_triggered : triggered (demo_run demo_calls until_interrupt) = true.
Proof. vm_compute. reflexivity. Qed.

Lemma until_interrupt_waits :
  records (demo_run demo_calls until_interrupt) !! 1%nat = Some (rec_of (demo_run demo_calls until_interrupt) 1)
  /\ phase (rec_of (demo_run demo_calls until_interrupt) 1) = waiting [0%nat]
  /\ toolResultMessage (rec_of (demo_run demo_calls until_interrupt) 1) = None.
Proof. vm_compute. auto. Qed.

Lemma after_interrupt_steps :
  steps demo_config after_interrupt (demo_run demo_calls until_interrupt)
  = Some (demo_run demo_calls (until_interrupt ++ after_interrupt)).
Proof. vm_compute. reflexivity. Qed.

Lemma interrupted_calls_are_skipped_witness :
  let b' := demo_run demo_calls (until_interrupt ++ after_interrupt) in
  exists r', records b' !! 1%nat = Some r' /\ started r' = false
  /\ forall m, toolResultMessage r' = Some m ->
     isError m = true
     /\ (content m = result_content createSkippedToolResult
         \/ (aborted b' = true /\ content m = result_content createAbortedToolExecutionResult)).
Proof.
  exact (interrupted_calls_are_skipped demo_config demo_calls no_ledger false _ 1 _ [0%nat] after_interrupt _
    until_interrupt_reachable until_interrupt_triggered
    (proj1 until_interrupt_waits) (proj1 (proj2 until_interrupt_waits)) (proj2 (proj2 until_interrupt_waits))
    after_interrupt_steps).
Defined.

(** The edit runs while the second read waits for it. *)
Definition edit_at_work : list Label := firstn 7 undisturbed.

Lemma edit_reachable : reachable demo_config demo_calls no_ledger false (demo_run demo_calls edit_at_work).
Proof. apply demo_reachable. vm_compute. reflexivity. Qed.

Lemma edit_exclusive : exclusive_call demo_config demo_calls 1 = true.
Proof. vm_compute. reflexivity. Qed.

Lemma edit_busy : busy (demo_run demo_calls edit_at_work) 1 = true.
Proof. vm_compute. reflexivity. Qed.

Lemma exclusive_runs_alone_witness : busy (demo_run demo_calls edit_at_work) 2 = false.
Proof.
  exact (exclusive_runs_alone demo_config demo_calls no_ledger false _ 1 2
    edit_reachable edit_exclusive (fun e => O_S _ (eq_add_S _ _ e)) edit_busy).
Defined.

Definition edit_ends : list Label := [Partial 1 JNull; Executed 1 (ExecThrows (u "no match")); Finish 1].

Lemma edit_steps :
  steps demo_config edit_ends (demo_run demo_calls edit_at_work)
  = Some (demo_run demo_calls (edit_at_work ++ edit_ends)).
Proof. vm_compute. reflexivity. Qed.

Lemma batch_returns_witness :
  let b' := demo_run demo_calls (edit_at_work ++ edit_ends) in
  (length (List.filter (fun l => negb (is_partial l)) edit_ends) <= 14 * 3 + 3)%nat
  /\ (main b' = racing -> exists l b'', is_partial l = false /\ step demo_config l b' = Some b'').
Proof.
  exact (batch_returns demo_config demo_calls no_ledger false _ edit_ends _ edit_reachable edit_steps).
Defined.

(** ** The abort *)

Definition kind_of (e : AgentEvent) : nat :=
  match e with
  | tool_execution_start _ _ _ _ _ _ => 0 | tool_execution_update _ _ _ _ _ => 1 | tool_execution_end _ _ _ _ _ _ => 2
  | message_start _ _ => 3 | message_end _ _ => 4
  end.

(** An abort answers what is unanswered and ends the batch, but it leaves the queue: [executeToolCalls] has returned with the
    notice that the second edit was aborted, which then has a start (0), an end (2) and its message (3, 4); the edit still waits
    for the first one, which has ended, and its turn comes: the tool runs and the stream sees another start. *)
Example abort_leaves_the_queue :
  let b := demo_run two_edits until_abort in
  let b' := demo_run two_edits (until_abort ++ [Begin 1]) in
  forallb (fun b => match main b with returned rs _ _ => bool_decide (length rs = 2%nat) | racing => false end) [b; b'] = true
  /\ aborted b = true /\ map kind_of (events_of 1 (events b)) = [0; 2; 3; 4]%nat
  /\ phase_at b' 1 = Some running /\ map kind_of (events_of 1 (events b')) = [0; 2; 3; 4; 0]%nat.
Proof. vm_compute. repeat split. Qed.
Example abort_run_is_reachable :
  reachable demo_config two_edits no_ledger false (demo_run two_edits (until_abort ++ [Begin 1])).
Proof. apply demo_reachable. vm_compute. reflexivity. Qed.
