(* ===== verification/JsFloat.v ===== *)
(** * JavaScript's numbers, where they are not integers

    IEEE 754 doubles with [SpecFloat]'s executable operations: what [a * b], [a / b], [Math.floor] and
    [Math.round] compute when a factor is a fraction. *)
From S2P Require Import Prelude.
From Stdlib Require Import SpecFloat.
#[local] Open Scope Z_scope.

Abbreviation jnum := spec_float (only parsing).

(** The double nearest to an integer; exact below 2^53. *)
Definition of_Z (z : Z) : jnum := binary_normalize 53 1024 z 0 false.
Definition fmul (a b : jnum) : jnum := SFmul 53 1024 a b.
Definition fdiv (a b : jnum) : jnum := SFdiv 53 1024 a b.
Definition fadd (a b : jnum) : jnum := SFadd 53 1024 a b.

(** A decimal literal [n / d]: the double nearest to it. *)
Definition literal (n d : Z) : jnum := fdiv (of_Z n) (of_Z d).

(** [Math.floor] of a finite number, as an integer. *)
Definition floor_to_Z (a : jnum) : Z :=
  match a with
  | S754_finite s m e =>
      let v := if s then - Zpos m else Zpos m in
      if 0 <=? e then v * 2 ^ e else v / 2 ^ (- e)
  | _ => 0
  end.

(** [Math.round]: half up. *)
Definition round_to_Z (a : jnum) : Z :=
  match a with
  | S754_finite s m e =>
      let v := if s then - Zpos m else Zpos m in
      if 0 <=? e then v * 2 ^ e else (2 * v + 2 ^ (- e)) / (2 * 2 ^ (- e))
  | _ => 0
  end.

Definition is_finite (a : jnum) : bool :=
  match a with S754_finite _ _ _ | S754_zero _ => true | _ => false end.

Definition flt (a b : jnum) : bool := SFltb a b.
Definition fmin (a b : jnum) : jnum := if flt b a then b else a.
Definition fmax (a b : jnum) : jnum := if flt a b then b else a.

Example floor_percent : floor_to_Z (fmul (of_Z 100) (fdiv (of_Z 29) (of_Z 100))) = 28.
Proof. vm_compute. reflexivity. Qed.

Example floor_share : floor_to_Z (fmul (of_Z 180) (literal 35 100)) = 62.
Proof. vm_compute. reflexivity. Qed.

Example round_half : round_to_Z (fdiv (of_Z 5) (of_Z 2)) = 3 /\ round_to_Z (fdiv (of_Z (-5)) (of_Z 2)) = -2.
Proof. vm_compute. auto. Qed.
