(* ===== verification/Compaction.v ===== *)
(** * Context compaction

    packages/agent/src/compaction: entries.ts (the entries of a session), compaction.ts (the token
    estimate, the thresholds, the cut point, [prepareCompaction] and [compact]) and utils.ts (file
    operations, serialization); and of coding-agent/src/session/session-manager.ts the messages that
    [buildSessionContext] makes of the entries.  The model requests are the class [Summarizer]. *)
From S2P Require Import Prelude.
From S2P Require Import Json.
From S2P Require Import JsFloat.
#[local] Open Scope Z_scope.
#[local] Open Scope js_scope.

(** ** Messages and entries *)

Inductive Block :=
| TextBlock (text : jstr)
| ThinkingBlock (thinking : jstr)
| ToolCallBlock (id name : jstr) (arguments : json) (customWireName : option jstr)
| ImageBlock.

(** [content] as a string or as blocks. *)
Inductive Content := Plain (s : jstr) | Blocks (bs : list Block).

Record Usage := { u_input : Z; u_output : Z; u_cacheRead : Z; u_cacheWrite : Z; u_totalTokens : Z }.

Inductive StopReason := stop_aborted | stop_error | stop_other.

Record ToolResult := {
  tr_callId : jstr;
  tr_toolName : jstr;
  tr_content : Content;
  tr_details : json;
  tr_isError : bool;
  tr_prunedAt : option Z
}.

Inductive AgentMessage :=
| User (c : Content)
| Custom (customType : jstr) (c : Content)
| Assistant (bs : list Block) (usage : option Usage) (stop : StopReason)
| ToolResultMsg (r : ToolResult)
| HookMessage (c : Content)
| BranchSummaryMsg (summary : jstr)
| CompactionSummaryMsg (summary : jstr)
| BashExecution (command output : option jstr)
| OtherRole.

(** A compaction entry; [details] and [preserveData] are JSON. *)
Record CompactionEntry := {
  c_summary : jstr;
  c_firstKeptEntryId : jstr;
  c_tokensBefore : Z;
  c_details : json;
  c_preserveData : json;
  c_fromExtension : bool
}.

Inductive EntryBody :=
| MessageEntry (m : AgentMessage)
| Compacted (c : CompactionEntry)
| BranchSummary (summary : jstr)
| CustomMessage (customType : jstr) (c : Content)
| OtherEntry (type : jstr).

Record SessionEntry := { e_id : jstr; e_body : EntryBody }.

#[export] Instance SessionEntry_inhabited : Inhabited SessionEntry :=
  populate {| e_id := []; e_body := OtherEntry [] |}.

Definition getMessageFromEntry (e : SessionEntry) : option AgentMessage :=
  match e_body e with
  | MessageEntry m => Some m
  | CustomMessage t c => Some (Custom t c)
  | BranchSummary s => Some (BranchSummaryMsg s)
  | _ => None
  end.

(** ** Token usage *)

Definition calculateContextTokens (us : Usage) : Z :=
  if u_totalTokens us =? 0 then u_input us + u_output us + u_cacheRead us + u_cacheWrite us
  else u_totalTokens us.

Definition calculatePromptTokens (us : Usage) : Z :=
  let promptTokens := u_input us + u_cacheRead us + u_cacheWrite us in
  if promptTokens >? 0 then promptTokens else calculateContextTokens us.

Definition getAssistantUsage (m : AgentMessage) : option Usage :=
  match m with Assistant _ us stop_other => us | _ => None end.

Definition entry_usage (e : SessionEntry) : option Usage :=
  match e_body e with MessageEntry m => getAssistantUsage m | _ => None end.

(** The last usage, searched from the end. *)
Definition getLastAssistantUsage (entries : list SessionEntry) : option Usage :=
  foldl (fun found e => match entry_usage e with Some us => Some us | None => found end) None entries.

(** ** The token estimate *)

Definition between (lo hi c : Z) : bool := (lo <=? c) && (c <=? hi).

Definition is_dense (c : jchar) : bool :=
  between 4352 4607 c || between 12288 12351 c || between 12352 12543 c || between 12592 12687 c
  || between 13312 19903 c || between 19968 40959 c || between 44032 55215 c || between 63744 64255 c
  || between 65280 65519 c.

(** [tokenDenseCharWeight]: twice the weight (a surrogate half weighs a half), and the units. *)
Fixpoint tokenDenseCharWeight (text : jstr) : Z * Z :=
  match text with
  | [] => (0, 0)
  | c :: rest =>
      let '(weight2, units) := tokenDenseCharWeight rest in
      if is_dense c then (weight2 + 2, units + 1)
      else if between 55296 57343 c then (weight2 + 1, units + 1)
      else (weight2, units)
  end.

(** [estimateTextTokensHeuristic]: [Math.ceil(dense + Math.max(0, otherChars) / 4)], over a common
    denominator of four. *)
Definition estimateTextTokensHeuristic (fragments : list jstr) : Z :=
  let dense2 := fold_right (fun f acc => fst (tokenDenseCharWeight f) + acc) 0 fragments in
  let otherChars := fold_right (fun f acc => (zlen f - snd (tokenDenseCharWeight f)) + acc) 0 fragments in
  (2 * dense2 + Z.max 0 otherChars + 3) / 4.

Definition IMAGE_TOKEN_ESTIMATE : Z := 1200.

Definition nonempty_texts (bs : list Block) : list jstr :=
  flat_map (fun b => match b with TextBlock ((_ :: _) as t) => [t] | _ => [] end) bs.

Definition assistant_fragments (bs : list Block) : list jstr :=
  flat_map (fun b => match b with
                     | TextBlock t => [t]
                     | ThinkingBlock t => [t]
                     | ToolCallBlock _ name a _ => [name; stringify a]
                     | ImageBlock => []
                     end) bs.

Definition image_tokens (bs : list Block) : Z :=
  IMAGE_TOKEN_ESTIMATE * zlen (List.filter (fun b => match b with ImageBlock => true | _ => false end) bs).

(** The fragments of a message and its extra tokens.  The arguments of a call are JSON: of [undefined] the
    code would throw. *)
Definition collectMessageFragments (m : AgentMessage) : list jstr * Z :=
  match m with
  | BashExecution command output => (option_list command ++ option_list output, 0)
  | User (Plain s) | Custom _ (Plain s) => ([s], 0)
  | User (Blocks bs) | Custom _ (Blocks bs) => (nonempty_texts bs, 0)
  | Assistant bs _ _ => (assistant_fragments bs, 0)
  | HookMessage (Plain s) => ([s], 0)
  | HookMessage (Blocks bs) => (nonempty_texts bs, image_tokens bs)
  | ToolResultMsg r =>
      match tr_content r with
      | Plain s => ([s], 0)
      | Blocks bs => (nonempty_texts bs, image_tokens bs)
      end
  | BranchSummaryMsg s | CompactionSummaryMsg s => ([s], 0)
  | OtherRole => ([], 0)
  end.

Definition countCollectedMessageFragments (collected : list jstr * Z) : Z :=
  estimateTextTokensHeuristic (fst collected) + snd collected.

Definition estimateMessageTokensHeuristic (m : AgentMessage) : Z :=
  let '(fragments, extra) := collectMessageFragments m in extra + estimateTextTokensHeuristic fragments.

(** *** The cache of the estimate *)

Definition entry_type (e : SessionEntry) : jstr :=
  match e_body e with
  | MessageEntry _ => u "message"
  | Compacted _ => u "compaction"
  | BranchSummary _ => u "branch_summary"
  | CustomMessage _ _ => u "custom_message"
  | OtherEntry t => t
  end.

Definition role_of (m : AgentMessage) : jstr :=
  match m with
  | User _ => u "user"
  | Custom _ _ => u "custom"
  | Assistant _ _ _ => u "assistant"
  | ToolResultMsg _ => u "toolResult"
  | HookMessage _ => u "hookMessage"
  | BranchSummaryMsg _ => u "branchSummary"
  | CompactionSummaryMsg _ => u "compactionSummary"
  | BashExecution _ _ => u "bashExecution"
  | OtherRole => u "developer"
  end.

(** [`${s.length}:${s}`] *)
Definition sized (s : jstr) : jstr := num_to_str (zlen s) ++ [58] ++ s.

Definition prunedAt_of (m : AgentMessage) : option Z :=
  match m with ToolResultMsg r => tr_prunedAt r | _ => None end.

Definition entryTokenFingerprint (e : SessionEntry) (m : AgentMessage) (collected : list jstr * Z) : jstr :=
  sized (entry_type e) ++ sized (e_id e) ++ sized (role_of m) ++ sized (num_to_str (snd collected))
  ++ num_to_str (zlen (fst collected)) ++ [58] ++ concat (map sized (fst collected))
  ++ match prunedAt_of m with
     | Some at_ => u "prunedAt" ++ sized (num_to_str at_)
     | None => []
     end.

(** [entryTokenCache] at the identity of one entry: the fingerprint and the tokens stored for it. *)
Definition CacheSlot : Type := option (jstr * Z).

(** [estimateEntryTokens], with the slot of the entry before and after. *)
Definition estimateEntryTokens_cached (slot : CacheSlot) (e : SessionEntry) : CacheSlot * Z :=
  match getMessageFromEntry e with
  | None => (slot, 0)
  | Some m =>
      let collected := collectMessageFragments m in
      let fingerprint := entryTokenFingerprint e m collected in
      let compute := let tokens := countCollectedMessageFragments collected in
                     (Some (fingerprint, tokens), tokens) in
      match slot with
      | Some (fingerprint', tokens) => if fingerprint' === fingerprint then (slot, tokens) else compute
      | None => compute
      end
  end.

(** The estimate without the cache ([CompactionCut.cache_is_transparent]: the cache does not show). *)
Definition estimateEntryTokens (e : SessionEntry) : Z :=
  match getMessageFromEntry e with
  | None => 0
  | Some m => countCollectedMessageFragments (collectMessageFragments m)
  end.

(** [estimateEntriesTokens] over the half-open range. *)
Definition estimateEntriesTokens (entries : list SessionEntry) (startIndex endIndex : nat) : Z :=
  fold_right (fun e acc => estimateEntryTokens e + acc) 0 (take (endIndex - startIndex) (drop startIndex entries)).

(** ** Thresholds *)

Inductive Strategy := context_full | handoff | strategy_off.

(** The settings that the decisions read; [None] is a setting that is absent. *)
Record CompactionSettings := {
  enabled : bool;
  strategy : option Strategy;
  thresholdPercent : option jnum;
  thresholdTokens : option Z;
  reserveTokens : Z;
  keepRecentTokens : Z
}.

(** [Math.floor(contextWindow * 0.15)] *)
Definition effectiveReserveTokens (contextWindow : Z) (s : CompactionSettings) (maxOutputTokens : Z) : Z :=
  Z.max (Z.max (floor_to_Z (fmul (of_Z contextWindow) (literal 15 100))) (reserveTokens s))
    (Z.max 0 maxOutputTokens).

Definition resolveThresholdTokens (contextWindow : Z) (s : CompactionSettings) (maxOutputTokens : Z) : Z :=
  let percentage :=
    match thresholdPercent s with
    | Some p =>
        if is_finite p && flt (of_Z 0) p then
          let clamped := fmin (of_Z 99) (fmax (of_Z 1) p) in
          floor_to_Z (fmul (of_Z contextWindow) (fdiv clamped (of_Z 100)))
        else contextWindow - effectiveReserveTokens contextWindow s maxOutputTokens
    | None => contextWindow - effectiveReserveTokens contextWindow s maxOutputTokens
    end in
  match thresholdTokens s with
  | Some t => if t >? 0 then Z.min (contextWindow - 1) (Z.max 1 t) else percentage
  | None => percentage
  end.

Definition shouldCompact (contextTokens contextWindow : Z) (s : CompactionSettings) (maxOutputTokens : Z) : bool :=
  if negb (enabled s) || match strategy s with Some strategy_off => true | _ => false end
     || (contextWindow <=? 0)
  then false
  else resolveThresholdTokens contextWindow s maxOutputTokens <? contextTokens.

Inductive CompactionTriggerReason := heap | retainedMemory | transcriptFile | providerBytes_limit
  | imageBytes_limit | messageCount_limit.

Record EmergencyCompactionSample := {
  heapUsedBytes : Z; providerBytes : Z; messageCount : Z; imageBytes : Z;
  materializedResidentBytes : option Z; tuiChatChildren : option Z; tuiCachedRenderBytes : option Z;
  transcriptFileBytes : option Z
}.

Record EmergencyCompactionLimits := {
  l_heapUsedBytes : Z; l_providerBytes : Z; l_messageCount : Z; l_imageBytes : Z;
  l_retainedMemoryBytes : option Z; l_retainedMemoryDiagnosticBytes : option Z;
  l_tuiChatChildren : option Z; l_tuiChatChildrenDiagnostic : option Z; l_transcriptFileBytes : option Z
}.

Definition MIB : Z := 1024 * 1024.

(** [None] is a total that is not a positive finite number. *)
Definition resolveEmergencyCompactionLimits (totalMemoryBytes : option Z) : EmergencyCompactionLimits :=
  {| l_heapUsedBytes :=
       match totalMemoryBytes with
       | Some t => if t >? 0 then Z.min (1536 * MIB) (t / 2) else 1536 * MIB
       | None => 1536 * MIB
       end;
     l_providerBytes := 24 * MIB; l_messageCount := 4000; l_imageBytes := 64 * MIB;
     l_retainedMemoryBytes := Some (128 * MIB); l_retainedMemoryDiagnosticBytes := Some (64 * MIB);
     l_tuiChatChildren := Some 1000; l_tuiChatChildrenDiagnostic := Some 700;
     l_transcriptFileBytes := Some (48 * MIB) |}.

(** The module's two flags that keep a diagnostic from being logged twice. *)
Record Diagnostics := { retainedMemoryDiagnosticActive : bool; tuiChatChildrenDiagnosticActive : bool }.

(** [emergencyCompactionReason], with the flags before and after and what is logged. *)
Definition emergencyCompactionReason (d : Diagnostics) (s : EmergencyCompactionSample) (l : EmergencyCompactionLimits)
    : Diagnostics * list jstr * option CompactionTriggerReason :=
  let retained := default 0 (materializedResidentBytes s) + default 0 (tuiCachedRenderBytes s) in
  let children := default 0 (tuiChatChildren s) in
  let retainedDiagnostic := default (64 * MIB) (l_retainedMemoryDiagnosticBytes l) <=? retained in
  let childDiagnostic := default 700 (l_tuiChatChildrenDiagnostic l) <=? children in
  let warn1 := if retainedDiagnostic && negb (retainedMemoryDiagnosticActive d)
    then [u "Emergency compaction retained-memory diagnostic threshold crossed"] else [] in
  let warn2 := if childDiagnostic && negb (tuiChatChildrenDiagnosticActive d)
    then [u "Emergency compaction TUI chat-child diagnostic threshold crossed"] else [] in
  let transcript := default 0 (transcriptFileBytes s) in
  let reason :=
    if l_heapUsedBytes l <? heapUsedBytes s then Some heap
    else if (default (128 * MIB) (l_retainedMemoryBytes l) <=? retained)
            || (default 1000 (l_tuiChatChildren l) <=? children) then Some retainedMemory
    else if negb (transcript =? 0) && (default (48 * MIB) (l_transcriptFileBytes l) <? transcript)
    then Some transcriptFile
    else if l_providerBytes l <? providerBytes s then Some providerBytes_limit
    else if l_imageBytes l <? imageBytes s then Some imageBytes_limit
    else if l_messageCount l <? messageCount s then Some messageCount_limit
    else None in
  ({| retainedMemoryDiagnosticActive := retainedDiagnostic; tuiChatChildrenDiagnosticActive := childDiagnostic |},
   warn1 ++ warn2, reason).

(** ** The cut point *)

Definition cut_role (m : AgentMessage) : bool :=
  match m with
  | BashExecution _ _ | HookMessage _ | BranchSummaryMsg _ | CompactionSummaryMsg _ | User _ | Assistant _ _ _ => true
  | ToolResultMsg _ | Custom _ _ | OtherRole => false
  end.

Definition is_cut_point (e : SessionEntry) : bool :=
  match e_body e with
  | MessageEntry m => cut_role m
  | BranchSummary _ | CustomMessage _ _ => true
  | _ => false
  end.

Definition entry_at (entries : list SessionEntry) (i : nat) : SessionEntry := nth i entries inhabitant.

Definition findValidCutPoints (entries : list SessionEntry) (startIndex endIndex : nat) : list nat :=
  List.filter (fun i => is_cut_point (entry_at entries i)) (seq startIndex (endIndex - startIndex)).

Definition is_turn_start (e : SessionEntry) : bool :=
  match e_body e with
  | BranchSummary _ | CustomMessage _ _ => true
  | MessageEntry (User _) | MessageEntry (BashExecution _ _) => true
  | _ => false
  end.

(** The loop of [findTurnStartIndex], [n] entries above [startIndex] left; [None] is the code's -1. *)
Fixpoint turn_start_loop (entries : list SessionEntry) (startIndex n : nat) : option nat :=
  match n with
  | O => None
  | S n' =>
      if is_turn_start (entry_at entries (startIndex + n')) then Some (startIndex + n')%nat
      else turn_start_loop entries startIndex n'
  end.

Definition findTurnStartIndex (entries : list SessionEntry) (entryIndex startIndex : nat) : option nat :=
  turn_start_loop entries startIndex (S entryIndex - startIndex).

Record CutPointResult := { firstKeptEntryIndex : nat; turnStartIndex : option nat; isSplitTurn : bool }.

(** The backward walk: the index at which the accumulated tokens reach the budget. *)
Fixpoint walk_back (entries : list SessionEntry) (keep : Z) (startIndex n : nat) (accumulated : Z) : option nat :=
  match n with
  | O => None
  | S n' =>
      let accumulated' := accumulated + estimateEntryTokens (entry_at entries (startIndex + n')) in
      if keep <=? accumulated' then Some (startIndex + n')%nat
      else walk_back entries keep startIndex n' accumulated'
  end.

(** The closest cut point at or after [i], or the last one. *)
Definition closest_cut (cutPoints : list nat) (i : nat) : nat :=
  match List.find (fun c => (i <=? c)%nat) cutPoints with
  | Some c => c
  | None => List.last cutPoints O
  end.

(** The scan that takes in the non-message entries in front of the cut. *)
Fixpoint scan_back (entries : list SessionEntry) (startIndex n : nat) : nat :=
  match n with
  | O => startIndex
  | S n' =>
      match e_body (entry_at entries (startIndex + n')) with
      | Compacted _ | MessageEntry _ => (startIndex + n)%nat
      | _ => scan_back entries startIndex n'
      end
  end.

Definition findCutPoint (entries : list SessionEntry) (startIndex endIndex : nat) (keep : Z) : CutPointResult :=
  match findValidCutPoints entries startIndex endIndex with
  | [] => {| firstKeptEntryIndex := startIndex; turnStartIndex := None; isSplitTurn := false |}
  | (c0 :: _) as cutPoints =>
      let chosen :=
        match walk_back entries keep startIndex (endIndex - startIndex) 0 with
        | Some i => closest_cut cutPoints i
        | None => c0
        end in
      let cutIndex := scan_back entries startIndex (chosen - startIndex) in
      let isUserMessage :=
        match e_body (entry_at entries cutIndex) with MessageEntry (User _) => true | _ => false end in
      let turnStart := if isUserMessage then None else findTurnStartIndex entries cutIndex startIndex in
      {| firstKeptEntryIndex := cutIndex; turnStartIndex := turnStart;
         isSplitTurn := negb isUserMessage && match turnStart with Some _ => true | None => false end |}
  end.

(** ** The text of a summary request *)

Definition elision (elided : Z) : jstr :=
  u "[... " ++ num_to_str elided ++ u " characters of older conversation elided so this summarization request fits within the model context window ...]".

Definition assemble (total : Z) (head tail : jstr) : jstr :=
  head ++ [NL; NL] ++ elision (total - zlen head - zlen tail) ++ [NL; NL] ++ tail.

(** The attempts of [boundConversationTextForSummary], [n] of them left. *)
Fixpoint bound_attempts (text : jstr) (budget : Z) (n : nat) (budgetChars : Z) : option jstr :=
  match n with
  | O => None
  | S n' =>
      if budgetChars <=? 0 then None
      else
        let headChars := floor_to_Z (fmul (of_Z budgetChars) (literal 35 100)) in
        let tailChars := Z.max 0 (budgetChars - headChars) in
        let head := slice text 0 headChars in
        let tail := if tailChars >? 0 then slice_from text (zlen text - tailChars) else [] in
        let assembled := assemble (zlen text) head tail in
        if estimateTextTokensHeuristic [assembled] <=? budget then Some assembled
        else bound_attempts text budget n' (floor_to_Z (fmul (of_Z budgetChars) (literal 8 10)))
  end.

Definition OVERHEAD_TOKENS : Z := 4096.

Definition inputBudgetTokens (contextWindow outputMaxTokens : Z) : Z :=
  floor_to_Z (fmul (of_Z (contextWindow - Z.max 0 outputMaxTokens - OVERHEAD_TOKENS)) (literal 6 10)).

(** [contextWindow] is [None] when it is not finite. *)
Definition boundConversationTextForSummary (text : jstr) (contextWindow : option Z) (outputMaxTokens : Z) : jstr :=
  match contextWindow with
  | None => text
  | Some w =>
      if w <=? 0 then text
      else
        let budget := inputBudgetTokens w outputMaxTokens in
        let total := estimateTextTokensHeuristic [text] in
        if budget <=? 0 then []
        else if total <=? budget then text
        else
          let budgetChars := floor_to_Z (fmul (of_Z budget) (fdiv (of_Z (zlen text)) (of_Z total))) in
          match bound_attempts text budget 12 budgetChars with
          | Some assembled => assembled
          | None =>
              let bareMarker := assemble (zlen text) [] [] in
              if estimateTextTokensHeuristic [bareMarker] <=? budget then bareMarker else []
          end
  end.

(** ** File operations *)

(** A JavaScript [Set] of strings, in insertion order. *)
Definition set_add (x : jstr) (s : list jstr) : list jstr := if bool_decide (x ∈ s) then s else s ++ [x].

Record FileOperations := { fo_read : list jstr; fo_written : list jstr; fo_edited : list jstr }.

Definition createFileOps : FileOperations := {| fo_read := []; fo_written := []; fo_edited := [] |}.

Definition add_read (f : jstr) (o : FileOperations) : FileOperations :=
  {| fo_read := set_add f (fo_read o); fo_written := fo_written o; fo_edited := fo_edited o |}.
Definition add_written (f : jstr) (o : FileOperations) : FileOperations :=
  {| fo_read := fo_read o; fo_written := set_add f (fo_written o); fo_edited := fo_edited o |}.
Definition add_edited (f : jstr) (o : FileOperations) : FileOperations :=
  {| fo_read := fo_read o; fo_written := fo_written o; fo_edited := set_add f (fo_edited o) |}.

Definition file_op_of_block (o : FileOperations) (b : Block) : FileOperations :=
  match b with
  | ToolCallBlock _ name a _ =>
      match json_get a (u "path") with
      | JStr ((_ :: _) as path) =>
          if name ==s "read" then add_read path o
          else if name ==s "write" then add_written path o
          else if name ==s "edit" then add_edited path o
          else o
      | _ => o
      end
  | _ => o
  end.

Definition extractFileOpsFromMessage (m : AgentMessage) (o : FileOperations) : FileOperations :=
  match m with Assistant bs _ _ => foldl file_op_of_block o bs | _ => o end.

(** The strings of an array; the code adds whatever the array holds. *)
Definition strings_of (v : json) : list jstr :=
  match v with JArr items => flat_map (fun x => match x with JStr s => [s] | _ => [] end) items | _ => [] end.

Definition extractFileOperations (messages : list AgentMessage) (prev : option CompactionEntry) : FileOperations :=
  let carried :=
    match prev with
    | Some c =>
        if c_fromExtension c then createFileOps
        else
          foldl (fun o f => add_edited f o)
            (foldl (fun o f => add_read f o) createFileOps (strings_of (json_get (c_details c) (u "readFiles"))))
            (strings_of (json_get (c_details c) (u "modifiedFiles")))
    | None => createFileOps
    end in
  foldl (fun o m => extractFileOpsFromMessage m o) carried messages.

(** [computeFileLists]: the files only read, and the modified files, each sorted. *)
Definition computeFileLists (o : FileOperations) : list jstr * list jstr :=
  let modified := foldl (fun s f => set_add f s) (foldl (fun s f => set_add f s) [] (fo_edited o)) (fo_written o) in
  (sort_lines id (List.filter (fun f => negb (bool_decide (f ∈ modified))) (fo_read o)), sort_lines id modified).

(** ** Preparation *)

Record PrepareCompactionOptions := { tokenCorrectionRatio : option jnum; o_contextWindow : option Z }.

Record CompactionPreparation := {
  p_firstKeptEntryId : jstr;
  messagesToSummarize : list AgentMessage;
  turnPrefixMessages : list AgentMessage;
  recentMessages : list AgentMessage;
  p_isSplitTurn : bool;
  p_tokensBefore : Z;
  previousSummary : option jstr;
  previousPreserveData : json;
  p_fileOps : FileOperations;
  p_settings : CompactionSettings;
  p_ratio : jnum;
  p_keepRecentTokensCorrected : Z
}.

Definition messages_of (entries : list SessionEntry) : list AgentMessage := omap getMessageFromEntry entries.

Definition entries_between (entries : list SessionEntry) (a b : nat) : list SessionEntry :=
  take (b - a) (drop a entries).

(** The last compaction entry of a path and its index. *)
Fixpoint last_compaction (entries : list SessionEntry) : option (nat * CompactionEntry) :=
  match entries with
  | [] => None
  | e :: rest =>
      match last_compaction rest with
      | Some (i, c) => Some (S i, c)
      | None => match e_body e with Compacted c => Some (O, c) | _ => None end
      end
  end.

Definition is_compaction (e : SessionEntry) : bool := match e_body e with Compacted _ => true | _ => false end.

Definition appliedRatio (o : PrepareCompactionOptions) : jnum :=
  match tokenCorrectionRatio o with
  | Some r => if is_finite r && flt (of_Z 0) r then fmin (of_Z 2) (fmax (literal 1 2) r) else of_Z 1
  | None => of_Z 1
  end.

(** [keepRecentTokensCorrected] from the tokens of the history. *)
Definition keep_window (s : CompactionSettings) (o : PrepareCompactionOptions) (historyTokens : Z) : Z :=
  let configured := keepRecentTokens s in
  let thresholdSafe :=
    match o_contextWindow o with
    | Some w => if 1 <? w then Z.max 1 (resolveThresholdTokens w s 0 - effectiveReserveTokens w s 0) else configured
    | None => configured
    end in
  let keep := Z.min configured thresholdSafe in
  let scaled :=
    match o_contextWindow o with
    | Some w =>
        if 66000 <=? w then Z.min thresholdSafe (Z.max keep (floor_to_Z (fmul (of_Z w) (literal 3 10)))) else keep
    | None => keep
    end in
  let effective :=
    if historyTokens <? configured then configured
    else if (keep <? scaled) && (historyTokens <? scaled) then keep else scaled in
  Z.max 1 (round_to_Z (fdiv (of_Z effective) (appliedRatio o))).

Definition prepareCompaction (path : list SessionEntry) (s : CompactionSettings) (o : PrepareCompactionOptions)
    : option CompactionPreparation :=
  if match List.last path inhabitant with e => match path with [] => false | _ => is_compaction e end end then None
  else
    let prev := last_compaction path in
    let boundaryStart := match prev with Some (i, _) => S i | None => O end in
    let boundaryEnd := length path in
    let tokensBefore := match getLastAssistantUsage path with Some us => calculateContextTokens us | None => 0 end in
    let historyTokens := estimateEntriesTokens path boundaryStart boundaryEnd in
    let keep := keep_window s o historyTokens in
    let cut := findCutPoint path boundaryStart boundaryEnd keep in
    match path !! firstKeptEntryIndex cut with
    | None => None
    | Some firstKept =>
        if e_id firstKept === [] then None
        else
          let turnStart := default O (turnStartIndex cut) in
          let historyEnd := if isSplitTurn cut then turnStart else firstKeptEntryIndex cut in
          let toSummarize := messages_of (entries_between path boundaryStart historyEnd) in
          let prefix := if isSplitTurn cut
                        then messages_of (entries_between path turnStart (firstKeptEntryIndex cut)) else [] in
          let recent := messages_of (entries_between path (firstKeptEntryIndex cut) boundaryEnd) in
          match toSummarize, prefix with
          | [], [] => None
          | _, _ =>
              let fileOps := extractFileOperations toSummarize (snd <$> prev) in
              Some {| p_firstKeptEntryId := e_id firstKept; messagesToSummarize := toSummarize;
                      turnPrefixMessages := prefix; recentMessages := recent; p_isSplitTurn := isSplitTurn cut;
                      p_tokensBefore := tokensBefore;
                      previousSummary := (fun p => c_summary (snd p)) <$> prev;
                      previousPreserveData := match prev with Some (_, c) => c_preserveData c | None => JUndefined end;
                      p_fileOps := foldl (fun o m => extractFileOpsFromMessage m o) fileOps prefix;
                      p_settings := s; p_ratio := appliedRatio o; p_keepRecentTokensCorrected := keep |}
          end
    end.

(** ** The summary *)

(** What the code calls to get text: the two model requests, and the template of the file lists. *)
Class Summarizer := {
  (** [generateSummary(messages, previousSummary)]; an [Err] is what it throws *)
  generateSummary : list AgentMessage -> option jstr -> result jstr jstr;
  generateTurnPrefixSummary : list AgentMessage -> result jstr jstr;
  (** [prompt.render(fileOperationsTemplate, { readFiles, modifiedFiles })] *)
  renderFileOperations : list jstr -> list jstr -> jstr
}.

Definition FILE_OPERATION_SUMMARY_LIMIT : Z := 20.

Definition truncateFileList (files : list jstr) : list jstr :=
  if zlen files <=? FILE_OPERATION_SUMMARY_LIMIT then files
  else slice files 0 FILE_OPERATION_SUMMARY_LIMIT
         ++ [[8230] ++ u " (" ++ num_to_str (zlen files - FILE_OPERATION_SUMMARY_LIMIT) ++ u " more files omitted)"].

(** [replace(/<open>[\s\S]*?<close>\s*/g, "")], each step of which consumes the opening tag. *)
Fixpoint strip_tags (fuel : nat) (open close s : jstr) : jstr :=
  match fuel with
  | O => s
  | S fuel' =>
      let i := index_of s open 0 in
      if i <? 0 then s
      else
        let j := index_of s close (i + zlen open) in
        if j <? 0 then s
        else slice s 0 i ++ strip_tags fuel' open close (trim_start (slice_from s (j + zlen close)))
  end.

Definition stripFileOperationTags (summary : jstr) : jstr :=
  let withoutReadFiles := strip_tags (length summary) (u "<read-files>") (u "</read-files>") summary in
  trim_end (strip_tags (length withoutReadFiles) (u "<modified-files>") (u "</modified-files>") withoutReadFiles).

(** [summary.split(/\n\s*\n/, 1)[0]] *)
Fixpoint first_paragraph (s : jstr) : jstr :=
  match s with
  | [] => []
  | c :: rest =>
      if (c =? NL) && existsb (fun d => d =? NL) (take_while is_ws rest) then [] else c :: first_paragraph rest
  end.

Definition SHORT_SUMMARY_MAX : Z := 2000.

Definition deriveShortSummary (summary : jstr) : jstr :=
  let firstParagraph := first_paragraph (trim summary) in
  if zlen firstParagraph <=? SHORT_SUMMARY_MAX then firstParagraph
  else slice firstParagraph 0 (SHORT_SUMMARY_MAX - 1) ++ [8230].

Record CompactionResult := {
  r_summary : jstr;
  r_shortSummary : jstr;
  r_firstKeptEntryId : jstr;
  r_tokensBefore : Z;
  r_readFiles : list jstr;
  r_modifiedFiles : list jstr
}.

Definition NO_PRIOR_HISTORY : jstr := u "No prior history.".

Section compact.
Context `{Summarizer}.

Definition formatFileOperations (readFiles modifiedFiles : list jstr) : jstr :=
  match readFiles, modifiedFiles with
  | [], [] => []
  | _, _ => renderFileOperations (truncateFileList readFiles) (truncateFileList modifiedFiles)
  end.

Definition upsertFileOperations (summary : jstr) (readFiles modifiedFiles : list jstr) : jstr :=
  let baseSummary := stripFileOperationTags summary in
  let fileOperations := formatFileOperations readFiles modifiedFiles in
  match fileOperations, baseSummary with
  | [], _ => baseSummary
  | _, [] => fileOperations
  | _, _ => baseSummary ++ [NL; NL] ++ fileOperations
  end.

(** The text that [compact] makes before the file lists are added. *)
Definition summary_text (p : CompactionPreparation) : result jstr jstr :=
  match p_isSplitTurn p, turnPrefixMessages p, messagesToSummarize p with
  | true, (_ :: _), history =>
      historyResult ← match history with
                      | [] => Ok NO_PRIOR_HISTORY
                      | _ => generateSummary history (previousSummary p)
                      end;
      turnPrefixResult ← generateTurnPrefixSummary (turnPrefixMessages p);
      Ok (historyResult ++ [NL; NL] ++ u "---" ++ [NL; NL] ++ u "**Turn Context (split turn):**" ++ [NL; NL]
          ++ turnPrefixResult)
  | _, _, _ :: _ => generateSummary (messagesToSummarize p) (previousSummary p)
  | _, _, [] =>
      match previousSummary p with
      | Some ((_ :: _) as prev) => Ok prev
      | _ => Ok NO_PRIOR_HISTORY
      end
  end.

(** [compact], apart from the history that a remote compaction may preserve. *)
Definition compact (p : CompactionPreparation) : result jstr CompactionResult :=
  text ← summary_text p;
  let '(readFiles, modifiedFiles) := computeFileLists (p_fileOps p) in
  let summary := upsertFileOperations text readFiles modifiedFiles in
  if p_firstKeptEntryId p === [] then Err (u "First kept entry has no ID - session may need migration")
  else Ok {| r_summary := summary; r_shortSummary := deriveShortSummary summary;
             r_firstKeptEntryId := p_firstKeptEntryId p; r_tokensBefore := p_tokensBefore p;
             r_readFiles := readFiles; r_modifiedFiles := modifiedFiles |}.

(** The entry that the session appends for a result; [preserveData] is what a remote compaction left. *)
Definition compaction_entry (id : jstr) (preserveData : json) (r : CompactionResult) : SessionEntry :=
  {| e_id := id;
     e_body := Compacted
       {| c_summary := r_summary r; c_firstKeptEntryId := r_firstKeptEntryId r;
          c_tokensBefore := r_tokensBefore r;
          c_details := JObj [(u "readFiles", JArr (map JStr (r_readFiles r)));
                             (u "modifiedFiles", JArr (map JStr (r_modifiedFiles r)))];
          c_preserveData := preserveData; c_fromExtension := false |} |}.
End compact.

(** ** The messages of a session *)

(** [appendMessage] of [buildSessionContext]. *)
Definition appendMessage (e : SessionEntry) : list AgentMessage :=
  match e_body e with
  | MessageEntry m => [m]
  | CustomMessage t c => [Custom t c]
  | BranchSummary ((_ :: _) as s) => [BranchSummaryMsg s]
  | _ => []
  end.

(** Whether a compaction left a remote history that replaces the messages kept. *)
Definition remoteReplacementHistory (preserveData : json) : bool :=
  let remote := json_get preserveData (u "openaiRemoteCompaction") in
  match json_get remote (u "provider"), json_get remote (u "replacementHistory") with
  | JStr (_ :: _), JArr _ => true
  | _, _ => false
  end.

Fixpoint drop_until_id (id : jstr) (entries : list SessionEntry) : list SessionEntry :=
  match entries with
  | [] => []
  | e :: rest => if e_id e === id then entries else drop_until_id id rest
  end.

(** The index of the first compaction entry with an id. *)
Fixpoint compaction_index (id : jstr) (entries : list SessionEntry) : option nat :=
  match entries with
  | [] => None
  | e :: rest => if is_compaction e && (e_id e === id) then Some O else S <$> compaction_index id rest
  end.

(** The messages that [buildSessionContext] makes of a path. *)
Definition session_messages (path : list SessionEntry) : list AgentMessage :=
  match last_compaction path with
  | None => flat_map appendMessage path
  | Some (i, c) =>
      let idx := default (length path) (compaction_index (e_id (entry_at path i)) path) in
      [CompactionSummaryMsg (c_summary c)]
      ++ (if remoteReplacementHistory (c_preserveData c) then []
          else flat_map appendMessage (drop_until_id (c_firstKeptEntryId c) (take idx path)))
      ++ flat_map appendMessage (drop (S idx) path)
  end.
