(* ===== verification/CompactionCut.v ===== *)
(** * The estimate and the cut of a compaction

    The cache of the estimate does not show; the text of a summary request fits; the cut never separates
    a tool call from its result and is as late as the budget and the cut points allow. *)
From S2P Require Import Prelude.
From S2P Require Import Json.
From S2P Require Import JsFloat.
From S2P Require Import Compaction.
#[local] Open Scope Z_scope.
#[local] Open Scope js_scope.

(** ** The cache *)

Lemma num_colon_inj a b r r' : num_to_str a ++ 58 :: r = num_to_str b ++ 58 :: r' -> a = b /\ r = r'.
Proof.
  intros Heq.
  destruct (span_inj num_char _ _ (58 :: r) (58 :: r') (proj1 (num_to_str_chars a)) (proj1 (num_to_str_chars b)))
    as [Hn Hr]; [done..|]. split; [by apply num_to_str_inj | by injection Hr].
Qed.

Lemma sized_inj s s' r r' : sized s ++ r = sized s' ++ r' -> s = s' /\ r = r'.
Proof.
  unfold sized. rewrite <- !app_assoc. cbn [app]. intros [Hlen Heq]%num_colon_inj.
  apply app_inj_1 in Heq; [done|]. unfold zlen in Hlen. lia.
Qed.

Lemma sized_list_inj fs fs' r r' :
  length fs = length fs' -> concat (map sized fs) ++ r = concat (map sized fs') ++ r' -> fs = fs' /\ r = r'.
Proof.
  revert fs'. induction fs as [|f fs IH]; intros [|f' fs'] Hlen; try done.
  cbn [map concat]. rewrite <- !app_assoc. intros [-> Heq]%sized_inj.
  apply IH in Heq as [-> ->]; [done|]. by injection Hlen.
Qed.

(** Two messages with one fingerprint have the same fragments and the same extra tokens. *)
Lemma fingerprint_determines e e' m m' c c' :
  entryTokenFingerprint e m c = entryTokenFingerprint e' m' c' -> c = c'.
Proof.
  destruct c as [fs extra], c' as [fs' extra']. unfold entryTokenFingerprint. cbn [fst snd].
  intros [_ Heq]%sized_inj. apply sized_inj in Heq as [_ Heq]. apply sized_inj in Heq as [_ Heq].
  apply sized_inj in Heq as [->%num_to_str_inj Heq]. cbn [app] in Heq.
  apply num_colon_inj in Heq as [Hlen Heq].
  apply sized_list_inj in Heq as [-> _]; [done|]. unfold zlen in Hlen. lia.
Qed.

(** What is stored for an entry was computed for the fingerprint it is stored under. *)
Definition slot_ok (slot : CacheSlot) : Prop :=
  match slot with
  | None => True
  | Some (fingerprint, tokens) =>
      exists e m, fingerprint = entryTokenFingerprint e m (collectMessageFragments m)
        /\ tokens = countCollectedMessageFragments (collectMessageFragments m)
  end.

Lemma cached_estimate slot e :
  slot_ok slot ->
  snd (estimateEntryTokens_cached slot e) = estimateEntryTokens e
  /\ slot_ok (fst (estimateEntryTokens_cached slot e)).
Proof.
  intros Hok. unfold estimateEntryTokens_cached, estimateEntryTokens.
  destruct (getMessageFromEntry e) as [m|]; [|done].
  destruct slot as [[f t]|]; cbn [fst snd]; [|split; [done|]; by exists e, m].
  destruct (bool_decide_reflect (f = entryTokenFingerprint e m (collectMessageFragments m))) as [Hf | Hf];
    cbn [fst snd]; [|split; [done|]; by exists e, m].
  split; [|done]. destruct Hok as (e' & m' & Hf' & ->). rewrite Hf in Hf'.
  by apply fingerprint_determines in Hf' as ->.
Qed.

(** The estimates of one entry object whose content changes between them. *)
Fixpoint estimates (slot : CacheSlot) (versions : list SessionEntry) : list Z :=
  match versions with
  | [] => []
  | e :: rest => let '(slot', tokens) := estimateEntryTokens_cached slot e in tokens :: estimates slot' rest
  end.

(** The cache of the token estimate cannot be seen: however an entry object is changed in place between
    estimates, every estimate is the one that is computed from its content at the time, because two
    contents with the same fingerprint cost the same. *)
Theorem cache_is_transparent versions : estimates None versions = map estimateEntryTokens versions.
Proof.
  assert (Hgen : forall slot, slot_ok slot -> estimates slot versions = map estimateEntryTokens versions).
  { induction versions as [|e rest IH]; intros slot Hok; [done|]. cbn [estimates map].
    destruct (cached_estimate slot e Hok) as [Hv Hs].
    destruct (estimateEntryTokens_cached slot e) as [slot' tokens]. cbn in Hv, Hs. rewrite Hv. f_equal. by apply IH. }
  by apply Hgen.
Qed.

(** ** The text of a request *)

Lemma bound_attempts_fits text budget n b t :
  bound_attempts text budget n b = Some t ->
  estimateTextTokensHeuristic [t] <= budget
  /\ exists h l, t = assemble (zlen text) (slice text 0 h) l
     /\ (l = [] \/ exists k, 0 < k /\ l = slice_from text (zlen text - k)).
Proof.
  revert b. induction n as [|n IH]; intros b; [done|]. cbn [bound_attempts].
  destruct (b <=? 0); [done|]. set (h := floor_to_Z _). set (k := Z.max 0 (b - h)).
  destruct (Z.leb_spec (estimateTextTokensHeuristic
    [assemble (zlen text) (slice text 0 h) (if k >? 0 then slice_from text (zlen text - k) else [])]) budget)
    as [Hfit | _]; [|apply IH].
  intros [= <-]. split; [done|]. eexists h, _. split; [done|].
  destruct (Z.gtb_spec k 0); [right; exists k; split; [lia | done] | by left].
Qed.

Lemma estimate_nil : estimateTextTokensHeuristic [[]] = 0.
Proof. done. Qed.

(** The conversation text of a summary request always fits the budget that is left of the model's window:
    it is the whole conversation, or its head and its tail around the note of what was elided, or that
    note alone, or nothing; and whichever it is, its estimate is within the budget. *)
Theorem bounded_text_fits text w outputMaxTokens :
  0 < w ->
  let t := boundConversationTextForSummary text (Some w) outputMaxTokens in
  estimateTextTokensHeuristic [t] <= Z.max 0 (inputBudgetTokens w outputMaxTokens)
  /\ (t = text \/ t = [] \/ exists h l, t = assemble (zlen text) (slice text 0 h) l
       /\ (l = [] \/ exists k, 0 < k /\ l = slice_from text (zlen text - k))).
Proof.
  intros Hw. unfold boundConversationTextForSummary. destruct (Z.leb_spec w 0); [lia|].
  set (budget := inputBudgetTokens w outputMaxTokens).
  destruct (Z.leb_spec budget 0); [rewrite estimate_nil; split; [lia | auto]|].
  destruct (Z.leb_spec (estimateTextTokensHeuristic [text]) budget); [split; [lia | auto]|].
  destruct (bound_attempts _ _ _ _) as [t|] eqn:Hb.
  - apply bound_attempts_fits in Hb as [Hfit Hshape]. split; [lia | auto].
  - destruct (Z.leb_spec (estimateTextTokensHeuristic [assemble (zlen text) [] []]) budget).
    + split; [lia|]. right. right. exists 0, []. split; [|by left].
      unfold slice, rel_index. cbn. by rewrite Z.min_l by apply zlen_nonneg.
    + rewrite estimate_nil. split; [lia | auto].
Qed.

(** ** The cut *)

(** An entry that the backward scan takes in. *)
Definition is_passed (e : SessionEntry) : bool :=
  match e_body e with MessageEntry _ | Compacted _ => false | _ => true end.

Lemma scan_back_spec entries start n :
  let k := scan_back entries start n in
  (start <= k <= start + n)%nat
  /\ (forall j, (k <= j < start + n)%nat -> is_passed (entry_at entries j) = true)
  /\ (k = start \/ is_passed (entry_at entries (k - 1)) = false).
Proof.
  induction n as [|n IH]; cbn zeta; [cbn; repeat split; [lia..|by left]|]. cbn [scan_back].
  assert (Hrec : is_passed (entry_at entries (start + n)) = true ->
    let k := scan_back entries start n in
    (start <= k <= start + S n)%nat
    /\ (forall j, (k <= j < start + S n)%nat -> is_passed (entry_at entries j) = true)
    /\ (k = start \/ is_passed (entry_at entries (k - 1)) = false)).
  { intros Hp. destruct IH as (Hk & Hin & Hb). split; [lia|]. split; [|done]. intros j Hj.
    destruct (decide (j = start + n)%nat) as [-> | ?]; [done|]. apply Hin. lia. }
  assert (Hstop : is_passed (entry_at entries (start + n)) = false ->
    let k := (start + S n)%nat in
    (start <= k <= start + S n)%nat
    /\ (forall j, (k <= j < start + S n)%nat -> is_passed (entry_at entries j) = true)
    /\ (k = start \/ is_passed (entry_at entries (k - 1)) = false)).
  { intros Hp. split; [lia|]. split; [lia|]. right. by replace (start + S n - 1)%nat with (start + n)%nat by lia. }
  unfold is_passed at 1 in Hrec. unfold is_passed at 1 in Hstop.
  destruct (e_body (entry_at entries (start + n))); auto.
Qed.

Lemma cut_points_spec entries start stop c :
  c ∈ findValidCutPoints entries start stop <->
  (start <= c < stop)%nat /\ is_cut_point (entry_at entries c) = true.
Proof.
  unfold findValidCutPoints. rewrite list_elem_of_In, filter_In, in_seq. split; intros [H1 H2]; split; try done; lia.
Qed.

Lemma find_le_spec l i :
  StronglySorted lt l ->
  match List.find (fun c => (i <=? c)%nat) l with
  | Some c => c ∈ l /\ (i <= c)%nat /\ forall d, d ∈ l -> (d < c)%nat -> (d < i)%nat
  | None => forall d, d ∈ l -> (d < i)%nat
  end.
Proof.
  induction 1 as [|x l Hs IH Hall]; [by intros d ?%elem_of_nil|]. cbn [List.find].
  destruct (Nat.leb_spec i x) as [Hle | Hlt].
  - split; [by left|]. split; [done|]. intros d [-> | Hd]%elem_of_cons Hdx; [lia|].
    rewrite Forall_forall in Hall. specialize (Hall d Hd). lia.
  - destruct (List.find _ l) as [c|].
    + destruct IH as (Hc & Hic & Hmin). split; [by right|]. split; [done|].
      intros d [-> | Hd]%elem_of_cons Hdc; [done | by apply Hmin].
    + intros d [-> | Hd]%elem_of_cons; [done | by apply IH].
Qed.

Lemma seq_strongly_sorted a n : StronglySorted lt (seq a n).
Proof.
  revert a. induction n as [|n IH]; intros a; [constructor|]. cbn. constructor; [apply IH|].
  apply Forall_forall. intros x Hx%list_elem_of_In%in_seq. lia.
Qed.

Lemma filter_strongly_sorted (p : nat -> bool) l : StronglySorted lt l -> StronglySorted lt (List.filter p l).
Proof.
  induction 1 as [|x l Hs IH Hall]; [constructor|]. cbn. destruct (p x); [|done]. constructor; [done|].
  rewrite Forall_forall in Hall |- *. intros y Hy%list_elem_of_In%filter_In. apply Hall, list_elem_of_In, Hy.
Qed.

Lemma last_in (l : list nat) d : l <> [] -> List.last l d ∈ l.
Proof.
  induction l as [|x l IH]; [done|]. intros _. destruct l as [|y l]; [by left|]. right. by apply IH.
Qed.

Lemma last_max (l : list nat) d : StronglySorted lt l -> forall x, x ∈ l -> (x <= List.last l d)%nat.
Proof.
  induction 1 as [|y l Hs IH Hall]; [by intros x ?%elem_of_nil|]. intros x Hx. destruct l as [|z l].
  - by apply list_elem_of_singleton in Hx as ->.
  - apply elem_of_cons in Hx as [-> | Hx]; [|by apply IH].
    rewrite Forall_forall in Hall. specialize (Hall z ltac:(left)). pose proof (IH z ltac:(left)). cbn in *. lia.
Qed.

(** The entry at which the cut was placed before the scan. *)
Definition chosen_cut (entries : list SessionEntry) (start stop : nat) (keep : Z) : nat :=
  let cutPoints := findValidCutPoints entries start stop in
  match walk_back entries keep start (stop - start) 0 with
  | Some i => closest_cut cutPoints i
  | None => hd O cutPoints
  end.

Lemma chosen_cut_in entries start stop keep :
  findValidCutPoints entries start stop <> [] ->
  chosen_cut entries start stop keep ∈ findValidCutPoints entries start stop.
Proof.
  intros Hne. unfold chosen_cut. set (cps := findValidCutPoints entries start stop) in *.
  destruct (walk_back _ _ _ _ _) as [i|].
  - unfold closest_cut. destruct (List.find _ cps) as [c|] eqn:Hf; [|by apply last_in].
    apply list_elem_of_In. by apply find_some in Hf as [? _].
  - destruct cps; [done | by left].
Qed.

Lemma first_kept_eq entries start stop keep :
  findValidCutPoints entries start stop <> [] ->
  firstKeptEntryIndex (findCutPoint entries start stop keep)
  = scan_back entries start (chosen_cut entries start stop keep - start).
Proof. intros Hne. unfold findCutPoint, chosen_cut. by destruct (findValidCutPoints entries start stop). Qed.

(** The cut lies at or before the cut point chosen, with only non-message entries between them. *)
Lemma cut_placed entries start stop keep :
  findValidCutPoints entries start stop <> [] ->
  let c := firstKeptEntryIndex (findCutPoint entries start stop keep) in
  let chosen := chosen_cut entries start stop keep in
  (start <= c <= chosen)%nat /\ (start <= chosen < stop)%nat /\ is_cut_point (entry_at entries chosen) = true
  /\ (forall j, (c <= j < chosen)%nat -> is_passed (entry_at entries j) = true).
Proof.
  intros Hne. pose proof (chosen_cut_in entries start stop keep Hne) as [Hin Hcp]%cut_points_spec.
  rewrite first_kept_eq by done.
  pose proof (scan_back_spec entries start (chosen_cut entries start stop keep - start)) as (Hk & Hpass & _).
  cbn zeta in *. repeat split; try done; try lia. intros j Hj. apply Hpass. lia.
Qed.

(** ** Pairs *)

(** The entry at [j] answers a tool call of the entry at [i]. *)
Definition answers (entries : list SessionEntry) (i j : nat) : Prop :=
  exists bs us st id name a w r, e_body (entry_at entries i) = MessageEntry (Assistant bs us st)
    /\ ToolCallBlock id name a w ∈ bs
    /\ e_body (entry_at entries j) = MessageEntry (ToolResultMsg r) /\ tr_callId r = id.

(** What opens an exchange of the conversation; a tool result and an entry that is no message do not. *)
Inductive opens : EntryBody -> Prop :=
| user_opens c : opens (MessageEntry (User c))
| reply_opens bs us st : opens (MessageEntry (Assistant bs us st))
| command_opens c o : opens (MessageEntry (BashExecution c o))
| hook_opens c : opens (MessageEntry (HookMessage c))
| branch_opens t : opens (MessageEntry (BranchSummaryMsg t))
| compaction_opens t : opens (MessageEntry (CompactionSummaryMsg t))
| branch_entry_opens t : opens (BranchSummary t)
| custom_opens t c : opens (CustomMessage t c).

Lemma cut_point_opens e : is_cut_point e = true -> opens (e_body e).
Proof.
  unfold is_cut_point. destruct (e_body e) as [m| | | |]; try done; [|by constructor..].
  destruct m; try done; by constructor.
Qed.

(** What is kept from [c] on opens at [k]. *)
Definition opens_at (entries : list SessionEntry) (c k : nat) : Prop :=
  (c <= k)%nat /\ opens (e_body (entry_at entries k))
  /\ forall m, (c <= m < k)%nat -> is_passed (entry_at entries m) = true.

(** C24. What a compaction keeps opens with the beginning of an exchange, entries that are no messages apart, and so never with
    a tool result; and it keeps a tool call and its result or neither, unless an entry that opens an exchange stands between
    them and is where the cut was made. *)
Theorem cut_keeps_pairs entries start stop keep i j :
  (start <= i < j)%nat -> (j < stop)%nat -> answers entries i j ->
  let c := firstKeptEntryIndex (findCutPoint entries start stop keep) in
  (exists k, (start <= c)%nat /\ (k < stop)%nat /\ opens_at entries c k)
  /\ ((c <= i <-> c <= j)%nat \/ exists k, (i < c)%nat /\ (i < k < j)%nat /\ opens_at entries c k).
Proof.
  intros Hi Hj (bs & us & st & id & name & a & w & r & Hbi & _ & Hbj & _). cbn zeta.
  assert (Hne : findValidCutPoints entries start stop <> []).
  { intros Hnil. apply (not_elem_of_nil i). rewrite <- Hnil. apply cut_points_spec.
    split; [lia|]. unfold is_cut_point. by rewrite Hbi. }
  destruct (cut_placed entries start stop keep Hne) as (Hc & Hchosen & Hcp & Hpass).
  set (c := firstKeptEntryIndex _) in *. set (chosen := chosen_cut entries start stop keep) in *.
  assert (Hopen : opens_at entries c chosen) by (split; [lia|]; split; [by apply cut_point_opens | exact Hpass]).
  split; [exists chosen; by split; [lia|]; split; [lia|]|].
  destruct (decide (chosen <= i)%nat) as [? | Hci]; [left; lia|].
  destruct (decide (chosen < j)%nat) as [Hcj | Hcj].
  - right. exists chosen. split; [|split; [lia | done]]. destruct (decide (i < c)%nat) as [|Hic]; [done|].
    specialize (Hpass i ltac:(lia)). unfold is_passed in Hpass. by rewrite Hbi in Hpass.
  - left. assert (chosen <> j) by (intros ->; unfold is_cut_point in Hcp; by rewrite Hbj in Hcp).
    split; [lia|]. intros Hle. specialize (Hpass j ltac:(lia)). unfold is_passed in Hpass. by rewrite Hbj in Hpass.
Qed.

(** ** The budget *)

Lemma dense_nonneg text : 0 <= fst (tokenDenseCharWeight text).
Proof.
  induction text as [|c rest IH]; [done|]. cbn [tokenDenseCharWeight].
  destruct (tokenDenseCharWeight rest) as [w k]. cbn in IH. destruct (is_dense c); [cbn; lia|].
  destruct (between 55296 57343 c); cbn; lia.
Qed.

Lemma heuristic_nonneg fragments : 0 <= estimateTextTokensHeuristic fragments.
Proof.
  unfold estimateTextTokensHeuristic. apply Z.div_pos; [|lia].
  assert (0 <= fold_right (fun f acc => fst (tokenDenseCharWeight f) + acc) 0 fragments); [|lia].
  induction fragments as [|f rest IH]; [done|]. cbn. pose proof (dense_nonneg f). lia.
Qed.

Lemma entry_tokens_nonneg e : 0 <= estimateEntryTokens e.
Proof.
  unfold estimateEntryTokens, countCollectedMessageFragments. destruct (getMessageFromEntry e) as [m|]; [|done].
  assert (0 <= snd (collectMessageFragments m)).
  { assert (Himg : forall bs, 0 <= image_tokens bs) by (intros bs; unfold image_tokens, zlen, IMAGE_TOKEN_ESTIMATE; lia).
    destruct m as [[] | ? [] | | r | [] | | | |]; cbn; try done. destruct (tr_content r); cbn; done. }
  pose proof (heuristic_nonneg (fst (collectMessageFragments m))). lia.
Qed.

Lemma tokens_split entries a b c :
  (a <= b <= c)%nat ->
  estimateEntriesTokens entries a c = estimateEntriesTokens entries a b + estimateEntriesTokens entries b c.
Proof.
  intros Hab. unfold estimateEntriesTokens. replace (c - a)%nat with ((b - a) + (c - b))%nat by lia.
  rewrite <- take_take_drop, drop_drop. replace (a + (b - a))%nat with b by lia.
  induction (take (b - a) (drop a entries)) as [|e l IH]; cbn; [done|]. rewrite IH. lia.
Qed.

Lemma tokens_one entries b : estimateEntriesTokens entries b (S b) = estimateEntryTokens (entry_at entries b).
Proof.
  unfold estimateEntriesTokens, entry_at. replace (S b - b)%nat with 1%nat by lia.
  revert b. induction entries as [|e l IH]; intros [|b]; try done; [cbn; rewrite take_0; cbn; lia | apply IH].
Qed.

Lemma tokens_nonneg entries a b : 0 <= estimateEntriesTokens entries a b.
Proof.
  unfold estimateEntriesTokens. induction (take (b - a) (drop a entries)) as [|e l IH]; cbn; [done|].
  pose proof (entry_tokens_nonneg e). lia.
Qed.

(** A later start keeps fewer tokens. *)
Lemma tokens_later entries a b c :
  (a <= b <= c)%nat -> estimateEntriesTokens entries b c <= estimateEntriesTokens entries a c.
Proof. intros Hab. rewrite (tokens_split entries a b c) by done. pose proof (tokens_nonneg entries a b). lia. Qed.

Lemma walk_back_spec entries keep start n acc :
  (forall i, walk_back entries keep start n acc = Some i ->
     (start <= i < start + n)%nat
     /\ keep <= acc + estimateEntriesTokens entries i (start + n)
     /\ (acc < keep -> acc + estimateEntriesTokens entries (S i) (start + n) < keep))
  /\ (walk_back entries keep start n acc = None -> acc < keep ->
      acc + estimateEntriesTokens entries start (start + n) < keep).
Proof.
  revert acc. induction n as [|n IH]; intros acc; cbn [walk_back].
  { split; [done|]. intros _ Hacc. rewrite Nat.add_0_r. unfold estimateEntriesTokens. rewrite Nat.sub_diag, take_0. cbn. lia. }
  pose proof (tokens_one entries (start + n)) as Hone. replace (S (start + n)) with (start + S n)%nat in Hone by lia.
  set (e := estimateEntryTokens _) in *. destruct (Z.leb_spec keep (acc + e)) as [Hreach | Hbelow].
  - split; [|done]. intros i [= <-]. split; [lia|]. split; [rewrite Hone; lia|]. intros Hacc.
    unfold estimateEntriesTokens. replace (start + S n - S (start + n))%nat with O by lia. rewrite take_0. cbn. lia.
  - destruct (IH (acc + e)) as [Hsome Hnone]. split.
    + intros i Hi. destruct (Hsome i Hi) as (Hr & Hk & Hb). split; [lia|].
      rewrite (tokens_split entries i (start + n) (start + S n)) by lia. rewrite Hone. split; [lia|]. intros Hacc.
      rewrite (tokens_split entries (S i) (start + n) (start + S n)) by lia. rewrite Hone.
      specialize (Hb Hbelow). lia.
    + intros Hw Hacc. rewrite (tokens_split entries start (start + n) (start + S n)) by lia. rewrite Hone.
      specialize (Hnone Hw Hbelow). lia.
Qed.

(** What the walk makes of the cut points. *)
Lemma chosen_cut_spec entries start stop keep :
  0 < keep -> (start <= stop)%nat -> findValidCutPoints entries start stop <> [] ->
  let chosen := chosen_cut entries start stop keep in
  (forall d, d ∈ findValidCutPoints entries start stop -> (d < chosen)%nat ->
     keep <= estimateEntriesTokens entries d stop)
  /\ (estimateEntriesTokens entries chosen stop < keep + estimateEntryTokens (entry_at entries chosen)
      \/ forall d, d ∈ findValidCutPoints entries start stop -> (d <= chosen)%nat).
Proof.
  intros Hkeep Hss Hne. unfold chosen_cut.
  assert (Hsorted : StronglySorted lt (findValidCutPoints entries start stop))
    by apply filter_strongly_sorted, seq_strongly_sorted.
  assert (Hrange : forall d, d ∈ findValidCutPoints entries start stop -> (start <= d < stop)%nat)
    by (intros d Hd%cut_points_spec; apply Hd).
  destruct (walk_back_spec entries keep start (stop - start) 0) as [Hsome Hnone].
  replace (start + (stop - start))%nat with stop in * by lia.
  set (cps := findValidCutPoints _ _ _) in *. clearbody cps. cbn zeta.
  destruct (walk_back _ _ _ _ _) as [i|].
  - destruct (Hsome i eq_refl) as (Hi & Hreach & Hafter). specialize (Hafter Hkeep).
    pose proof (find_le_spec cps i Hsorted) as Hfind. unfold closest_cut.
    assert (Hearly : forall d, (d < i)%nat -> keep <= estimateEntriesTokens entries d stop)
      by (intros d Hd; pose proof (tokens_later entries d i stop ltac:(lia)); lia).
    destruct (List.find _ cps) as [c|].
    + destruct Hfind as (Hc & Hic & Hmin). split; [auto|]. left. specialize (Hrange c Hc).
      pose proof (entry_tokens_nonneg (entry_at entries c)). destruct (decide (c = i)) as [-> | Hne'].
      * rewrite (tokens_split entries i (S i) stop), tokens_one by lia. lia.
      * pose proof (tokens_later entries (S i) c stop ltac:(lia)). lia.
    + split; [|right; by apply last_max]. intros d Hd _. by apply Hearly, Hfind.
  - specialize (Hnone eq_refl Hkeep). destruct cps as [|c0 rest]; [done|]. cbn [hd].
    apply StronglySorted_inv in Hsorted as [_ Hall]. rewrite Forall_forall in Hall. split.
    + intros d [-> | Hd]%elem_of_cons Hlt; [lia|]. specialize (Hall d Hd). lia.
    + left. pose proof (tokens_later entries start c0 stop) as Hl. specialize (Hrange c0 ltac:(left)).
      pose proof (entry_tokens_nonneg (entry_at entries c0)). specialize (Hl ltac:(lia)). lia.
Qed.

(** C33. The cut is as late as the budget allows and no later: it is a cut point, moved back over entries that are
    not messages; every earlier cut point would keep the whole budget of recent tokens, and this one keeps
    at most the budget and one entry over it, unless no later cut point exists. *)
Theorem cut_is_tight entries start stop keep :
  0 < keep -> (start <= stop)%nat -> findValidCutPoints entries start stop <> [] ->
  let c := firstKeptEntryIndex (findCutPoint entries start stop keep) in
  exists chosen, chosen ∈ findValidCutPoints entries start stop
    /\ (start <= c <= chosen)%nat
    /\ (forall j, (c <= j < chosen)%nat -> is_passed (entry_at entries j) = true)
    /\ (forall d, d ∈ findValidCutPoints entries start stop -> (d < chosen)%nat ->
          keep <= estimateEntriesTokens entries d stop)
    /\ (estimateEntriesTokens entries chosen stop < keep + estimateEntryTokens (entry_at entries chosen)
        \/ forall d, d ∈ findValidCutPoints entries start stop -> (d <= chosen)%nat).
Proof.
  intros Hkeep Hss Hne. cbn zeta. exists (chosen_cut entries start stop keep).
  destruct (cut_placed entries start stop keep Hne) as (Hc & _ & _ & Hpass).
  destruct (chosen_cut_spec entries start stop keep Hkeep Hss Hne) as [Hearly Htight].
  split; [by apply chosen_cut_in|]. auto.
Qed.
