(* ===== verification/CompactionContext.v ===== *)
(** * What a compaction keeps of a session

    The messages summarised and kept are a session's messages in order, and the context after a
    compaction is its summary and the messages kept; two things are lost on the way. *)
From S2P Require Import Prelude.
From S2P Require Import Json.
From S2P Require Import JsFloat.
From S2P Require Import Compaction.
From S2P Require Import CompactionCut.
#[local] Open Scope Z_scope.
#[local] Open Scope js_scope.

(** ** The pieces of a path *)

Lemma between_glue (path : list SessionEntry) a b c :
  (a <= b <= c)%nat -> entries_between path a b ++ entries_between path b c = entries_between path a c.
Proof.
  intros Habc. unfold entries_between. replace (c - a)%nat with ((b - a) + (c - b))%nat by lia.
  rewrite <- take_take_drop, drop_drop. by replace (a + (b - a))%nat with b by lia.
Qed.

Lemma between_end (path : list SessionEntry) a : entries_between path a (length path) = drop a path.
Proof. unfold entries_between. apply take_ge. rewrite length_drop. lia. Qed.

Lemma messages_of_app l l' : messages_of (l ++ l') = messages_of l ++ messages_of l'.
Proof. apply omap_app. Qed.

Lemma turn_start_bounds entries e start t :
  findTurnStartIndex entries e start = Some t -> (start <= t <= e)%nat.
Proof.
  unfold findTurnStartIndex. remember (S e - start)%nat as n eqn:Hn. assert (Hle : (start + n <= S e \/ n = 0)%nat) by lia.
  clear Hn. induction n as [|n IH]; [done|]. cbn [turn_start_loop].
  destruct (is_turn_start _); [intros [= <-]; lia|]. apply IH. lia.
Qed.

(** The last compaction entry: it is one, and no other follows. *)
Lemma last_compaction_spec path :
  match last_compaction path with
  | Some (i, c) => exists id, path !! i = Some {| e_id := id; e_body := Compacted c |}
                     /\ Forall (fun e => is_compaction e = false) (drop (S i) path)
  | None => Forall (fun e => is_compaction e = false) path
  end.
Proof.
  induction path as [|e rest IH]; [constructor|]. cbn [last_compaction].
  destruct (last_compaction rest) as [[i c]|]; [done|].
  destruct e as [id b]. destruct b; try (constructor; [done | exact IH]). by exists id.
Qed.

Lemma last_compaction_app pre e c post :
  e_body e = Compacted c -> Forall (fun e => is_compaction e = false) post ->
  last_compaction (pre ++ e :: post) = Some (length pre, c).
Proof.
  intros He Hpost. assert (Hnone : last_compaction post = None).
  { induction Hpost as [|x l Hx _ IH]; [done|]. cbn. rewrite IH. unfold is_compaction in Hx. by destruct (e_body x). }
  induction pre as [|x pre IH]; cbn [app last_compaction length]; [by rewrite Hnone, He | by rewrite IH].
Qed.

(** An entry that no empty branch summary is. *)
Definition plain_entry (e : SessionEntry) : bool :=
  match e_body e with BranchSummary [] => false | _ => true end.

Lemma append_messages l :
  Forall (fun e => plain_entry e = true) l -> flat_map appendMessage l = messages_of l.
Proof.
  induction 1 as [|e l He _ IH]; [done|]. unfold messages_of in *. cbn. rewrite IH.
  unfold appendMessage, getMessageFromEntry, plain_entry in *. destruct (e_body e) as [| | [|] | |]; done.
Qed.

Lemma drop_until_lookup path k e :
  NoDup (map e_id path) -> path !! k = Some e -> drop_until_id (e_id e) path = drop k path.
Proof.
  revert k. induction path as [|x rest IH]; intros k Hnd Hk; [done|]. apply NoDup_cons in Hnd as [Hx Hnd].
  destruct k as [|k]; cbn [drop_until_id].
  - injection Hk as ->. by rewrite bool_decide_true.
  - cbn in Hk. rewrite bool_decide_false; [by apply IH|]. intros Heq. apply Hx. rewrite Heq.
    apply list_elem_of_fmap. exists e. split; [done|]. by eapply list_elem_of_lookup_2.
Qed.

Lemma compaction_index_app pre id e post :
  is_compaction e = true -> e_id e = id -> id ∉ map e_id pre ->
  compaction_index id (pre ++ e :: post) = Some (length pre).
Proof.
  intros He <- Hpre. induction pre as [|x pre IH]; cbn [app compaction_index length map].
  - by rewrite He, bool_decide_true.
  - cbn [map] in Hpre. apply not_elem_of_cons in Hpre as [Hx Hpre].
    rewrite bool_decide_false by congruence. rewrite andb_false_r, IH; done.
Qed.

(** The context of a path whose last compaction is the entry [e]. *)
Lemma session_messages_compacted pre e c post :
  e_body e = Compacted c -> Forall (fun e => is_compaction e = false) post ->
  e_id e ∉ map e_id pre -> remoteReplacementHistory (c_preserveData c) = false ->
  session_messages (pre ++ e :: post)
  = CompactionSummaryMsg (c_summary c)
    :: flat_map appendMessage (drop_until_id (c_firstKeptEntryId c) pre) ++ flat_map appendMessage post.
Proof.
  intros He Hpost Hid Hremote. unfold session_messages.
  rewrite (last_compaction_app pre e c post He Hpost), Hremote. unfold entry_at.
  rewrite nth_middle, (compaction_index_app pre (e_id e) e post); [|by unfold is_compaction; rewrite He|done..].
  cbn [default]. unfold id. rewrite take_app_length. cbn [app]. do 2 f_equal.
  change (pre ++ e :: post) with (pre ++ [e] ++ post). rewrite app_assoc, drop_app_length'; [done|].
  rewrite length_app. cbn. lia.
Qed.

(** ** Preparation *)

Lemma cut_after_start path start stop keep :
  (start <= firstKeptEntryIndex (findCutPoint path start stop keep))%nat.
Proof.
  destruct (findValidCutPoints path start stop) eqn:Hcp.
  - unfold findCutPoint. by rewrite Hcp.
  - destruct (cut_placed path start stop keep) as [? _]; [by rewrite Hcp | lia].
Qed.

(** A turn is split between its start and the cut. *)
Lemma split_bounds path start stop keep :
  let cut := findCutPoint path start stop keep in
  isSplitTurn cut = true ->
  exists t, turnStartIndex cut = Some t /\ (start <= t <= firstKeptEntryIndex cut)%nat.
Proof.
  cbn zeta. unfold findCutPoint. destruct (findValidCutPoints path start stop) as [|c0 rest]; [by cbn|].
  cbn [isSplitTurn turnStartIndex firstKeptEntryIndex].
  destruct (match e_body _ with MessageEntry (User _) => true | _ => false end); [by cbn|].
  destruct (findTurnStartIndex _ _ _) as [t|] eqn:Ht; [|by cbn]. intros _. exists t.
  split; [done|]. by eapply turn_start_bounds.
Qed.

(** Where what is summarised starts. *)
Definition boundary (path : list SessionEntry) : nat :=
  match last_compaction path with Some (i, _) => S i | None => O end.

(** The three lists are what comes after the boundary, in order. *)
Lemma three_parts path start keep :
  let cut := findCutPoint path start (length path) keep in
  (firstKeptEntryIndex cut < length path)%nat ->
  let turnStart := default O (turnStartIndex cut) in
  messages_of (drop start path)
  = messages_of (entries_between path start (if isSplitTurn cut then turnStart else firstKeptEntryIndex cut))
    ++ (if isSplitTurn cut then messages_of (entries_between path turnStart (firstKeptEntryIndex cut)) else [])
    ++ messages_of (drop (firstKeptEntryIndex cut) path).
Proof.
  cbn zeta. intros Hk. pose proof (cut_after_start path start (length path) keep) as Hstart.
  pose proof (split_bounds path start (length path) keep) as Hsplit. cbn zeta in Hsplit.
  set (cut := findCutPoint _ _ _ _) in *. clearbody cut. rewrite <- !between_end.
  destruct (isSplitTurn cut).
  - destruct (Hsplit eq_refl) as (t & -> & Ht). cbn [default]. unfold id.
    by rewrite <- !messages_of_app, !between_glue by lia.
  - cbn [app]. by rewrite <- messages_of_app, between_glue by lia.
Qed.

Lemma prepared path s o p :
  prepareCompaction path s o = Some p ->
  exists k e, (boundary path <= k)%nat /\ path !! k = Some e /\ p_firstKeptEntryId p = e_id e
    /\ messages_of (drop (boundary path) path) = messagesToSummarize p ++ turnPrefixMessages p ++ recentMessages p
    /\ recentMessages p = messages_of (drop k path).
Proof.
  unfold prepareCompaction. fold (boundary path).
  destruct (match path with [] => false | _ => _ end); [by intros|]. cbn zeta.
  set (keep := keep_window _ _ _). clearbody keep.
  pose proof (cut_after_start path (boundary path) (length path) keep) as Hstart.
  pose proof (three_parts path (boundary path) keep) as Hparts. cbn zeta in Hparts.
  set (cut := findCutPoint _ _ _ _) in *. clearbody cut.
  destruct (path !! firstKeptEntryIndex cut) as [e|] eqn:Hk; [|done].
  specialize (Hparts (lookup_lt_Some _ _ _ Hk)). destruct (e_id e === []); [done|].
  rewrite between_end. intros Hp. exists (firstKeptEntryIndex cut), e.
  revert Hparts Hp.
  destruct (messages_of (entries_between path (boundary path) _)), (if isSplitTurn cut then _ else []);
    intros Hparts; [done|..]; intros [= <-]; cbn in *; auto.
Qed.

(** ** The context before and after *)

Definition no_compaction (e : SessionEntry) : Prop := is_compaction e = false.

(** What the session is assumed to keep: ids that are not reused, and no branch summary that is empty. *)
Record well_kept (path : list SessionEntry) : Prop := {
  ids_unique : NoDup (map e_id path);
  summaries_filled : Forall (fun e => plain_entry e = true) path
}.

Lemma well_kept_drop n path : well_kept path -> Forall (fun e => plain_entry e = true) (drop n path).
Proof. intros [_ Hp]. by apply Forall_drop. Qed.

Lemma no_compaction_after path : Forall no_compaction (drop (boundary path) path).
Proof.
  unfold boundary. pose proof (last_compaction_spec path) as Hl.
  destruct (last_compaction path) as [[i c]|]; [by destruct Hl as (? & _ & ?) | done].
Qed.

Section context.
Context `{Summarizer}.

Lemma compact_keeps_id p r :
  compact p = Ok r -> r_firstKeptEntryId r = p_firstKeptEntryId p /\ r_tokensBefore r = p_tokensBefore p.
Proof.
  unfold compact. destruct (summary_text p) as [text|]; [|done]. cbn.
  destruct (computeFileLists (p_fileOps p)) as [reads mods]. destruct (p_firstKeptEntryId p === []); [done|]. by intros [= <-].
Qed.

(** The entry kept first starts the messages kept, in every path that the compaction entry follows. *)
Lemma after_compaction path s o p r id preserveData later :
  well_kept path -> id ∉ map e_id path ->
  prepareCompaction path s o = Some p -> compact p = Ok r ->
  remoteReplacementHistory preserveData = false ->
  Forall no_compaction later ->
  session_messages (path ++ compaction_entry id preserveData r :: later)
  = CompactionSummaryMsg (r_summary r) :: recentMessages p ++ flat_map appendMessage later.
Proof.
  intros Hw Hid Hp Hr Hremote Hlater. destruct (prepared path s o p Hp) as (k & e & _ & Hk & Hkept & _ & Hrecent).
  rewrite (session_messages_compacted path (compaction_entry id preserveData r) _ later eq_refl Hlater Hid Hremote).
  cbn [c_summary c_firstKeptEntryId]. destruct (compact_keeps_id p r Hr) as [-> _].
  rewrite Hkept, (drop_until_lookup path k e) by (apply Hw || done).
  rewrite (append_messages (drop k path)) by by apply well_kept_drop. by rewrite <- Hrecent.
Qed.

(** C9. A first compaction loses no message: the context before it is the messages it summarises, the prefix of
    the turn it splits and the messages it keeps, in order and without a gap or an overlap; and the context
    after it is its summary, then the very messages it kept, then whatever the session adds later. *)
Theorem compaction_keeps_context path s o p r id preserveData later :
  well_kept path -> Forall no_compaction path -> id ∉ map e_id path ->
  prepareCompaction path s o = Some p -> compact p = Ok r ->
  remoteReplacementHistory preserveData = false ->
  Forall no_compaction later ->
  session_messages path = messagesToSummarize p ++ turnPrefixMessages p ++ recentMessages p
  /\ session_messages (path ++ compaction_entry id preserveData r :: later)
     = CompactionSummaryMsg (r_summary r) :: recentMessages p ++ flat_map appendMessage later.
Proof.
  intros Hw Hnone Hid Hp Hr Hremote Hlater. split; [|by eapply after_compaction].
  assert (Hlast : last_compaction path = None).
  { clear -Hnone. induction Hnone as [|e rest He _ IH]; [done|]. cbn. rewrite IH. unfold no_compaction, is_compaction in He.
    by destruct (e_body e). }
  destruct (prepared path s o p Hp) as (k & e & _ & _ & _ & Hparts & _).
  unfold boundary in Hparts. rewrite Hlast in Hparts. unfold session_messages. rewrite Hlast.
  rewrite append_messages by apply Hw. exact Hparts.
Qed.

(** C34. A second compaction loses messages: those that the first one kept in front of its entry are in the context
    before, but they are neither among the messages that the second summarises nor among those it keeps,
    and the context after holds no trace of them. *)
Theorem recompaction_forgets pre ce c post s o p r id preserveData :
  let path := pre ++ ce :: post in
  let kept := flat_map appendMessage (drop_until_id (c_firstKeptEntryId c) pre) in
  well_kept path -> id ∉ map e_id path ->
  e_body ce = Compacted c -> remoteReplacementHistory (c_preserveData c) = false -> Forall no_compaction post ->
  prepareCompaction path s o = Some p -> compact p = Ok r ->
  remoteReplacementHistory preserveData = false ->
  session_messages path
  = CompactionSummaryMsg (c_summary c) :: kept
      ++ messagesToSummarize p ++ turnPrefixMessages p ++ recentMessages p
  /\ session_messages (path ++ [compaction_entry id preserveData r])
     = CompactionSummaryMsg (r_summary r) :: recentMessages p.
Proof.
  cbn zeta. intros Hw Hid Hce Hremote Hpost Hp Hr Hremote'. split.
  - rewrite (session_messages_compacted pre ce c post); [|done|done| |done].
    + do 2 f_equal. destruct (prepared _ s o p Hp) as (k & e & _ & _ & _ & Hparts & _). rewrite <- Hparts.
      unfold boundary. rewrite (last_compaction_app pre ce c post Hce Hpost).
      rewrite append_messages.
      * rewrite cons_middle, app_assoc, drop_app_length'; [done|]. rewrite length_app. cbn. lia.
      * eapply Forall_inv_tail, Forall_app, (summaries_filled _ Hw).
    + pose proof (ids_unique _ Hw) as Hnd. rewrite map_app in Hnd. apply NoDup_app in Hnd as (_ & Hd & _).
      intros Hin. apply (Hd _ Hin). by left.
  - rewrite (after_compaction _ s o p r id preserveData []); try done. by rewrite app_nil_r.
Qed.

(** The summary of the previous compaction is lost when a split turn has no history in front of it: what the
    new summary says then depends on the turn's prefix alone, not on the previous summary. *)
Theorem previous_summary_is_lost p q :
  p_isSplitTurn p = true -> messagesToSummarize p = [] -> turnPrefixMessages p <> [] ->
  p_isSplitTurn q = true -> messagesToSummarize q = [] -> turnPrefixMessages q = turnPrefixMessages p ->
  summary_text p = summary_text q
  /\ forall text, summary_text p = Ok text -> starts_with text NO_PRIOR_HISTORY = true.
Proof.
  intros Hp Hm Hx Hq Hmq Hxq. unfold summary_text. rewrite Hp, Hq, Hm, Hmq, Hxq.
  destruct (turnPrefixMessages p) as [|m rest]; [done|]. split; [done|]. intros text. cbn.
  destruct (generateTurnPrefixSummary (m :: rest)) as [t|]; [|done]. intros [= <-]. done.
Qed.
End context.
