(* ===== verification/CompactionDemo.v ===== *)
(** * Compactions of small sessions

    The theorems about the compaction at concrete sessions. *)
From S2P Require Import Prelude.
From S2P Require Import Json.
From S2P Require Import JsFloat.
From S2P Require Import Compaction.
From S2P Require Import CompactionCut.
From S2P Require Import CompactionContext.
#[local] Open Scope Z_scope.
#[local] Open Scope js_scope.

Definition said (id t : jstr) : SessionEntry := {| e_id := id; e_body := MessageEntry (User (Plain t)) |}.
Definition replied (id : jstr) (bs : list Block) : SessionEntry :=
  {| e_id := id; e_body := MessageEntry (Assistant bs None stop_other) |}.
Definition returned (id call t : jstr) : SessionEntry :=
  {| e_id := id;
     e_body := MessageEntry (ToolResultMsg
       {| tr_callId := call; tr_toolName := u "read"; tr_content := Plain t; tr_details := JUndefined;
          tr_isError := false; tr_prunedAt := None |}) |}.

Definition reads_path (p : jstr) : Block := ToolCallBlock (u "t1") (u "read") (JObj [(u "path", JStr p)]) None.

(** A turn whose tool result is where the budget is reached. *)
Definition tool_turn : list SessionEntry :=
  [said (u "1") (u "fix the parser"); replied (u "2") [reads_path (u "a.ts")];
   returned (u "3") (u "t1") (u "the whole of the file"); replied (u "4") [TextBlock (u "done")]].

Definition budget (keep : Z) : CompactionSettings :=
  {| enabled := true; strategy := None; thresholdPercent := None; thresholdTokens := None; reserveTokens := 16384;
     keepRecentTokens := keep |}.

Definition no_options : PrepareCompactionOptions := {| tokenCorrectionRatio := None; o_contextWindow := None |}.

Lemma tool_turn_answers : answers tool_turn 1 2.
Proof.
  exists [reads_path (u "a.ts")], None, stop_other. do 5 eexists. split; [reflexivity|].
  split; [by left|]. by split.
Qed.

(** The budget is reached at the result, and its call is cut with it: the cut is the reply behind both. *)
Lemma cut_keeps_pairs_witness :
  firstKeptEntryIndex (findCutPoint tool_turn 0 4 3) = 3%nat
  /\ let c := firstKeptEntryIndex (findCutPoint tool_turn 0 4 3) in
     (exists k, (0 <= c)%nat /\ (k < 4)%nat /\ opens_at tool_turn c k)
     /\ ((c <= 1 <-> c <= 2)%nat \/ exists k, (1 < c)%nat /\ (1 < k < 2)%nat /\ opens_at tool_turn c k).
Proof.
  split; [vm_compute; reflexivity|].
  exact (cut_keeps_pairs tool_turn 0 4 3 1 2 ltac:(lia) ltac:(lia) tool_turn_answers).
Defined.

(** A custom message between a call and its result is a cut point: the result is kept, and its call is not. *)
Definition interrupted_turn : list SessionEntry :=
  [said (u "1") (u "fix the parser"); replied (u "2") [reads_path (u "a.ts")];
   {| e_id := u "c"; e_body := CustomMessage (u "note") (Plain (u "a note of an extension")) |};
   returned (u "3") (u "t1") (u "the whole of the file"); replied (u "4") [TextBlock (u "done")]].
Example custom_message_separates :
  firstKeptEntryIndex (findCutPoint interrupted_turn 0 5 8) = 2%nat /\ answers interrupted_turn 1 3.
Proof.
  split; [vm_compute; reflexivity|]. exists [reads_path (u "a.ts")], None, stop_other. do 5 eexists. split; [reflexivity|].
  split; [by left|]. by split.
Qed.

Lemma tool_turn_cuts : findValidCutPoints tool_turn 0 4 <> [].
Proof. by vm_compute. Qed.

Lemma cut_is_tight_witness :
  let c := firstKeptEntryIndex (findCutPoint tool_turn 0 4 3) in
  exists chosen, chosen ∈ findValidCutPoints tool_turn 0 4
    /\ (0 <= c <= chosen)%nat
    /\ (forall j, (c <= j < chosen)%nat -> is_passed (entry_at tool_turn j) = true)
    /\ (forall d, d ∈ findValidCutPoints tool_turn 0 4 -> (d < chosen)%nat ->
          3 <= estimateEntriesTokens tool_turn d 4)
    /\ (estimateEntriesTokens tool_turn chosen 4 < 3 + estimateEntryTokens (entry_at tool_turn chosen)
        \/ forall d, d ∈ findValidCutPoints tool_turn 0 4 -> (d <= chosen)%nat).
Proof. exact (cut_is_tight tool_turn 0 4 3 ltac:(lia) ltac:(lia) tool_turn_cuts). Defined.

(** A conversation of 600 characters and a budget of 120 tokens: 480 characters would fit but for the note. *)
Definition long_text : jstr := repeat 97 600.

Lemma bounded_text_fits_witness :
  let t := boundConversationTextForSummary long_text (Some 4296) 0 in
  estimateTextTokensHeuristic [t] <= 120
  /\ (t = long_text \/ t = [] \/ exists h l, t = assemble (zlen long_text) (slice long_text 0 h) l
       /\ (l = [] \/ exists k, 0 < k /\ l = slice_from long_text (zlen long_text - k))).
Proof. exact (bounded_text_fits long_text 4296 0 ltac:(lia)). Defined.

(** ** Two compactions *)

(** A summarizer that counts what it is given. *)
#[export] Instance counting : Summarizer := {|
  generateSummary := fun ms prev =>
    Ok (num_to_str (zlen ms) ++ u " messages" ++ match prev with Some s => u " after " ++ s | None => [] end);
  generateTurnPrefixSummary := fun ms => Ok (num_to_str (zlen ms) ++ u " of the turn");
  renderFileOperations := fun reads mods => u "<read-files>" ++ concat reads ++ u "</read-files>"
|}.

Definition session1 : list SessionEntry :=
  [said (u "1") (u "fix the parser bug"); replied (u "2") [TextBlock (u "looking")];
   said (u "3") (u "and now the tests please"); replied (u "4") [TextBlock (u "done all of it now")]].

(** What a settled computation returns, or anything. *)
Definition prepared_of (path : list SessionEntry) (keep : Z) : CompactionPreparation :=
  default {| p_firstKeptEntryId := []; messagesToSummarize := []; turnPrefixMessages := []; recentMessages := [];
             p_isSplitTurn := false; p_tokensBefore := 0; previousSummary := None; previousPreserveData := JUndefined;
             p_fileOps := createFileOps; p_settings := budget 0; p_ratio := of_Z 1; p_keepRecentTokensCorrected := 0 |}
    (prepareCompaction path (budget keep) no_options).

Definition compacted_of (p : CompactionPreparation) : CompactionResult :=
  match compact p with
  | Ok r => r
  | Err _ => {| r_summary := []; r_shortSummary := []; r_firstKeptEntryId := []; r_tokensBefore := 0;
                r_readFiles := []; r_modifiedFiles := [] |}
  end.

Definition p1 := prepared_of session1 8.
Definition r1 := compacted_of p1.

Ltac kept_well := split; [apply (bool_decide_unpack _); by vm_compute | repeat constructor].

Lemma session1_kept : well_kept session1. Proof. kept_well. Qed.
Lemma session1_fresh : Forall no_compaction session1. Proof. repeat constructor. Qed.
Lemma session1_id : u "5" ∉ map e_id session1. Proof. apply (bool_decide_unpack _). by vm_compute. Qed.
Lemma session1_prepared : prepareCompaction session1 (budget 8) no_options = Some p1. Proof. by vm_compute. Qed.
Lemma session1_compacted : compact p1 = Ok r1. Proof. by vm_compute. Qed.
Lemma nothing_remote : remoteReplacementHistory JUndefined = false. Proof. done. Qed.

Definition later1 : list SessionEntry :=
  [said (u "6") (u "what is left"); replied (u "7") [TextBlock (u "only the docs are left")];
   said (u "8") (u "write the docs then"); replied (u "9") [TextBlock (u "they are written")]].

Lemma later1_fresh : Forall no_compaction later1. Proof. repeat constructor. Qed.

Lemma compaction_keeps_context_witness :
  length (messagesToSummarize p1) = 2%nat /\ length (recentMessages p1) = 2%nat
  /\ session_messages session1 = messagesToSummarize p1 ++ turnPrefixMessages p1 ++ recentMessages p1
  /\ session_messages (session1 ++ compaction_entry (u "5") JUndefined r1 :: later1)
     = CompactionSummaryMsg (r_summary r1) :: recentMessages p1 ++ flat_map appendMessage later1.
Proof.
  split; [vm_compute; reflexivity|]. split; [vm_compute; reflexivity|].
  exact (compaction_keeps_context session1 (budget 8) no_options p1 r1 (u "5") JUndefined later1 session1_kept
    session1_fresh session1_id session1_prepared session1_compacted nothing_remote later1_fresh).
Defined.

Definition ce1 : SessionEntry := compaction_entry (u "5") JUndefined r1.
Definition c1 : CompactionEntry :=
  match e_body ce1 with Compacted c => c
  | _ => {| c_summary := []; c_firstKeptEntryId := []; c_tokensBefore := 0; c_details := JUndefined;
            c_preserveData := JUndefined; c_fromExtension := false |} end.
Definition session2 : list SessionEntry := session1 ++ ce1 :: later1.
Definition p2 := prepared_of session2 8.
Definition r2 := compacted_of p2.

Lemma session2_kept : well_kept session2. Proof. kept_well. Qed.
Lemma session2_id : u "10" ∉ map e_id session2. Proof. apply (bool_decide_unpack _). by vm_compute. Qed.
Lemma session2_prepared : prepareCompaction session2 (budget 8) no_options = Some p2. Proof. by vm_compute. Qed.
Lemma session2_compacted : compact p2 = Ok r2. Proof. by vm_compute. Qed.

(** Messages 3 and 4, kept by the first compaction, are gone after the second. *)
Lemma recompaction_forgets_witness :
  flat_map appendMessage (drop_until_id (c_firstKeptEntryId c1) session1) = recentMessages p1
  /\ length (recentMessages p1) = 2%nat
  /\ session_messages session2
     = CompactionSummaryMsg (c_summary c1)
         :: flat_map appendMessage (drop_until_id (c_firstKeptEntryId c1) session1)
         ++ messagesToSummarize p2 ++ turnPrefixMessages p2 ++ recentMessages p2
  /\ session_messages (session2 ++ [compaction_entry (u "10") JUndefined r2])
     = CompactionSummaryMsg (r_summary r2) :: recentMessages p2.
Proof.
  split; [vm_compute; reflexivity|]. split; [vm_compute; reflexivity|].
  exact (recompaction_forgets session1 ce1 c1 later1 (budget 8) no_options p2 r2 (u "10") JUndefined session2_kept
    session2_id eq_refl nothing_remote later1_fresh session2_prepared session2_compacted nothing_remote).
Defined.

(** ** A turn that is split right behind a compaction *)

Definition split_path : list SessionEntry :=
  [said (u "1") (u "old work"); ce1; said (u "3") (u "a new and rather long request"); replied (u "4") [TextBlock (u "the first step")];
   replied (u "5b") [TextBlock (u "the second step of it")]].
Definition p3 := prepared_of split_path 4.
Definition p3' : CompactionPreparation :=
  {| p_firstKeptEntryId := p_firstKeptEntryId p3; messagesToSummarize := []; turnPrefixMessages := turnPrefixMessages p3;
     recentMessages := recentMessages p3; p_isSplitTurn := true; p_tokensBefore := 0; previousSummary := None;
     previousPreserveData := JUndefined; p_fileOps := p_fileOps p3; p_settings := p_settings p3; p_ratio := p_ratio p3;
     p_keepRecentTokensCorrected := p_keepRecentTokensCorrected p3 |}.

Lemma split_is : p_isSplitTurn p3 = true. Proof. by vm_compute. Qed.
Lemma split_no_history : messagesToSummarize p3 = []. Proof. by vm_compute. Qed.
Lemma split_prefix : turnPrefixMessages p3 <> []. Proof. by vm_compute. Qed.

Lemma previous_summary_is_lost_witness :
  previousSummary p3 = Some (r_summary r1) /\ prepareCompaction split_path (budget 4) no_options = Some p3
  /\ summary_text p3 = summary_text p3'
  /\ forall text, summary_text p3 = Ok text -> starts_with text NO_PRIOR_HISTORY = true.
Proof.
  split; [vm_compute; reflexivity|]. split; [vm_compute; reflexivity|].
  exact (previous_summary_is_lost p3 p3' split_is split_no_history split_prefix eq_refl eq_refl eq_refl).
Defined.
