(* ===== verification/Prune.v ===== *)
(** * Pruning: what a tool call is about, and what is left of a result

    packages/agent/src/compaction/pruning.ts, first half: the targets of tool calls, the files that edits
    touch, and the notice that replaces a pruned result.  [Bun.stripANSI] and the digest of
    [node:crypto] are the class [PruneHost].  A number that a text spells is an integer. *)
From S2P Require Import Prelude.
From S2P Require Import Json.
From S2P Require Import Compaction.
#[local] Open Scope Z_scope.
#[local] Open Scope js_scope.

Class PruneHost := {
  stripANSI : jstr -> jstr;
  (** [createHash("sha256").update(text, "utf8").digest("hex")] *)
  sha256_hex : jstr -> jstr
}.

(** ** Texts *)

Definition lower_unit (c : jchar) : jchar := if is_upper c then c + 32 else c.
Definition lower (s : jstr) : jstr := map lower_unit s.

(** What a regular expression with the flag [i] finds at the start of some suffix, the first one first. *)
Fixpoint search {A} (f : jstr -> option A) (s : jstr) : option A :=
  match f s with
  | Some x => Some x
  | None => match s with [] => None | _ :: rest => search f rest end
  end.

(** [s] without the word [w] in front, any case. *)
Definition after_word (w s : jstr) : option jstr :=
  if starts_with (lower s) w then Some (slice_from s (zlen w)) else None.

Definition drop_cr (s : jstr) : jstr := match rev s with 13 :: t => rev t | _ => s end.

(** [text.split(/\r?\n/)] *)
Fixpoint drop_crs (ls : list jstr) : list jstr :=
  match ls with
  | [] => []
  | [l] => [l]
  | l :: rest => drop_cr l :: drop_crs rest
  end.
Definition split_crlf (s : jstr) : list jstr := drop_crs (split_lines s).

Definition nonempty (s : jstr) : bool := negb (s === []).

(** [text.toWellFormed()]: a surrogate that is not part of a pair becomes U+FFFD. *)
Definition toWellFormed (s : jstr) : jstr :=
  concat (map (fun cp => match cp with
                         | [c] => if is_high c || is_low c then [65533] else [c]
                         | _ => cp
                         end) (code_points s)).

(** [CONTROL_RE] *)
Definition is_control (c : jchar) : bool := between 0 8 c || between 11 31 c || between 127 159 c.

Section sanitize.
Context `{PruneHost}.
Definition sanitizeWellFormedText (s : jstr) : jstr :=
  if existsb is_control s then
    let stripped := if existsb (fun c => c =? 27) s then stripANSI s else s in
    List.filter (fun c => negb (is_control c)) stripped
  else s.

Definition sanitizeText (s : jstr) : jstr :=
  let wellFormed := toWellFormed s in
  if wellFormed === s then sanitizeWellFormedText s
  else sanitizeWellFormedText (List.filter (fun c => negb (c =? 65533)) wellFormed).
End sanitize.

(** ** Tool calls *)

Record ToolCall := { tc_id : jstr; tc_name : jstr; tc_args : json; tc_wire : option jstr }.

Definition js_true (v : json) : bool := match v with JBool b => b | _ => false end.
Definition js_string (v : json) : option jstr := match v with JStr s => Some s | _ => None end.
Definition js_nonempty (v : json) : option jstr := match v with JStr ((_ :: _) as s) => Some s | _ => None end.

(** [a ?? b] *)
Definition nullish (a b : json) : json := match a with JUndefined | JNull => b | _ => a end.

(** [toolArguments]: an object or an array, whose named fields are then all undefined. *)
Definition toolArguments (c : ToolCall) : option json :=
  match tc_args c with JObj _ | JArr _ => Some (tc_args c) | _ => None end.

Definition toolCallPath (c : ToolCall) : option jstr :=
  args ← toolArguments c;
  js_nonempty (nullish (nullish (json_get args (u "path")) (json_get args (u "file_path"))) (json_get args (u "filePath"))).

Definition EDIT_TOOL_NAMES : list jstr := [u "edit"; u "write"; u "apply_patch"; u "ast_edit"].

Definition isEditToolCall (c : ToolCall) : bool :=
  bool_decide (tc_name c ∈ EDIT_TOOL_NAMES)
  || match tc_wire c with Some w => w ==s "apply_patch" | None => false end.

(** *** The headers of a patch *)

Definition is_terminator (c : jchar) : bool := (c =? 10) || (c =? 13) || (c =? 8232) || (c =? 8233).

(** The lines that [^] and [$] see. *)
Fixpoint regexp_lines (s : jstr) : list jstr :=
  match s with
  | [] => [[]]
  | c :: rest =>
      if is_terminator c then [] :: regexp_lines rest
      else match regexp_lines rest with l :: ls => (c :: l) :: ls | [] => [[c]] end
  end.

Definition drop_prefix (p s : jstr) : option jstr :=
  if starts_with s p then Some (slice_from s (zlen p)) else None.

(** [APPLY_PATCH_HEADER] on a line: whether it is a move, and the rest of the line. *)
Definition patch_header (line : jstr) : option (bool * jstr) :=
  rest ← drop_prefix (u "*** ") line;
  '(move, path) ←
    match drop_prefix (u "Add File: ") rest, drop_prefix (u "Update File: ") rest,
          drop_prefix (u "Delete File: ") rest, drop_prefix (u "Move to: ") rest with
    | Some p, _, _, _ | _, Some p, _, _ | _, _, Some p, _ => Some (false, p)
    | _, _, _, Some p => Some (true, p)
    | _, _, _, _ => None
    end;
  match path with [] => None | _ => Some (move, path) end.

Definition add_header (groups : list (list jstr)) (line : jstr) : list (list jstr) :=
  match patch_header line with
  | None => groups
  | Some (move, path) =>
      match trim path with
      | [] => groups
      | headerPath =>
          match move, rev groups with
          | true, g :: before => rev before ++ [g ++ [headerPath]]
          | _, _ => groups ++ [[headerPath]]
          end
      end
  end.

Definition editToolPathGroups (c : ToolCall) : list (list jstr) :=
  match toolCallPath c with
  | Some path => [[path]]
  | None =>
      match toolArguments c with
      | Some args =>
          match json_get args (u "input") with
          | JStr input => foldl add_header [] (regexp_lines input)
          | _ => []
          end
      | None => []
      end
  end.

Definition pathGroupKey (group : list jstr) : jstr := stringify (JArr (map JStr (sort_lines id group))).

Definition pathHintsForGroups (groups : list (list jstr)) : list jstr :=
  sort_lines id (foldl (fun s f => set_add f s) [] (concat groups)).

Definition isPrunedToolArgumentsSentinel (v : json) : bool :=
  js_true (json_get v (u "pruned"))
  && match json_get v (u "reason") with JStr r => r ==s "stale_tool_arguments" | _ => false end.

(** *** What a result's details say *)

Definition detail_files (details : json) : option (list jstr) :=
  if js_true (json_get details (u "applied")) then
    match json_get details (u "files") with
    | JArr files => Some (omap js_nonempty files)
    | _ => None
    end
  else None.

Definition resultDetailFiles (r : ToolResult) : list jstr :=
  match detail_files (tr_details r), detail_files (json_get (tr_details r) (u "sourceResultDetails")) with
  | Some files, _ => files
  | None, Some files => files
  | None, None => []
  end.

Definition succeeded_path (item : json) : option jstr :=
  path ← js_string (json_get item (u "path"));
  match json_get item (u "isError"), json_get item (u "diff") with
  | JBool false, _ => Some path
  | JUndefined, JStr _ => Some path
  | _, _ => None
  end.

(** [None]: the result says nothing of its files. *)
Definition successfulEditPaths (r : ToolResult) : option (list jstr) :=
  match json_get (tr_details r) (u "perFileResults") with
  | JArr perFile => Some (omap succeeded_path perFile)
  | _ => None
  end.

Definition readResolvedPath (r : ToolResult) : option jstr := js_nonempty (json_get (tr_details r) (u "resolvedPath")).

(** ** Read targets *)

Definition opt_L (s : jstr) : jstr := match s with c :: rest => if lower_unit c =? 108 then rest else s | [] => [] end.

(** [L?\d+] at the start: the digits and the rest. *)
Definition line_number (s : jstr) : option (jstr * jstr) :=
  let s' := opt_L s in
  match take_while is_digit s' with
  | [] => None
  | ds => Some (ds, drop_while is_digit s')
  end.

(** [^L?(\d+)([-+])L?(\d+)$] *)
Definition bounded_range (part : jstr) : option (jstr * jchar * jstr) :=
  '(a, rest) ← line_number part;
  match rest with
  | op :: rest' =>
      if (op =? 45) || (op =? 43) then
        '(b, rest'') ← line_number rest';
        match rest'' with [] => Some (a, op, b) | _ => None end
      else None
  | [] => None
  end.

(** One part of a selector: [L?\d+(?:[-+]L?\d+|-)?] *)
Definition range_part (part : jstr) : bool :=
  match line_number part with
  | Some (_, []) | Some (_, [45]) => true
  | _ => match bounded_range part with Some _ => true | None => false end
  end.

Definition is_range_selector (s : jstr) : bool := forallb range_part (split_on 44 s).
Definition is_raw_selector (s : jstr) : bool := lower s ==s "raw".
Definition is_selector (s : jstr) : bool := is_range_selector s || is_raw_selector s || (lower s ==s "conflicts").

(** [splitReadTarget]: the base path and the selector. *)
Definition splitReadTarget (path : jstr) : jstr * option jstr :=
  let outerColon := last_index_of path [58] (zlen path) in
  if outerColon <=? 0 then (path, None)
  else
    let outer := slice_from path (outerColon + 1) in
    if negb (is_selector outer) then (path, None)
    else
      let basePath := slice path 0 outerColon in
      let innerColon := last_index_of basePath [58] (zlen basePath) in
      if 0 <? innerColon then
        let inner := slice_from basePath (innerColon + 1) in
        if (is_raw_selector inner && is_range_selector outer) || (is_range_selector inner && is_raw_selector outer)
        then (slice basePath 0 innerColon, Some (inner ++ [58] ++ outer))
        else (basePath, Some outer)
      else (basePath, Some outer).

Definition readBasePath (path : jstr) : jstr := fst (splitReadTarget path).

Definition part_range (part : jstr) : list (Z * Z) :=
  match bounded_range part with
  | Some (a, op, b) =>
      let start := parse_dec a in
      let stop := if op =? 43 then start + parse_dec b - 1 else parse_dec b in
      if (0 <? start) && (start <=? stop) then [(start, stop)] else []
  | None => []
  end.

Definition readLineRanges (path : jstr) : list (Z * Z) :=
  match snd (splitReadTarget path) with
  | None | Some [] => []
  | Some selector =>
      if existsb (fun part => lower part ==s "raw") (split_on 58 selector) || (lower selector ==s "conflicts") then []
      else flat_map part_range (split_on 44 selector)
  end.

Definition strictlyContainsReadRange (container contained : Z * Z) : bool :=
  (fst container <=? fst contained) && (snd contained <=? snd container)
  && ((fst container <? fst contained) || (snd contained <? snd container)).

(** [readSupersedesRead] on the ranges of the two calls. *)
Definition readSupersedesRead (later earlier : list (Z * Z)) : bool :=
  match later, earlier with
  | [l], [e] => strictlyContainsReadRange l e
  | _, _ => false
  end.

(** ** The target of a call *)

(** [\s+] *)
Definition spaces (s : jstr) : option jstr :=
  match s with c :: _ => if is_ws c then Some (trim_start s) else None | [] => None end.

(** The word [w] and [\b]. *)
Definition word_end (w s : jstr) : bool :=
  match drop_prefix w s with
  | Some (c :: _) => negb (is_word c)
  | Some [] => true
  | None => false
  end.

(** [<name>\s+<word>\b] *)
Definition command_word (name w s : jstr) : bool :=
  match rest ← drop_prefix name s; spaces rest with Some rest => word_end w rest | None => false end.

(** [IDEMPOTENT_BASH_COMMAND] *)
Definition is_idempotent (s : jstr) : bool :=
  existsb (fun name =>
    match rest ← drop_prefix name s; spaces rest with
    | Some rest =>
        existsb (fun w => word_end w rest
          || match rest' ← drop_prefix (u "run") rest; spaces rest' with
             | Some rest' => word_end w rest'
             | None => false
             end) [u "test"; u "build"]
    | None => false
    end) [u "bun"; u "npm"; u "pnpm"; u "yarn"]
  || command_word (u "git") (u "status") s || command_word (u "cargo") (u "build") s
  || command_word (u "make") (u "build") s || command_word (u "just") (u "build") s.

(** [.replace(/\s+/g, " ")] *)
Fixpoint collapse_spaces (s : jstr) : jstr :=
  match s with
  | [] => []
  | c :: rest =>
      if is_ws c then
        match collapse_spaces rest with 32 :: t => 32 :: t | t => 32 :: t end
      else c :: collapse_spaces rest
  end.

Definition normalizedIdempotentBashCommand (c : ToolCall) : option jstr :=
  if negb (tc_name c ==s "bash") then None
  else
    args ← toolArguments c;
    command ← js_string (json_get args (u "command"));
    let normalized := collapse_spaces (trim command) in
    if existsb (fun d => (d =? 59) || (d =? 38) || (d =? 124)) normalized || negb (is_idempotent normalized) then None
    else
      Some (stringify (JArr [JStr normalized;
        match json_get args (u "cwd") with JStr cwd => JStr cwd | _ => JUndefined end])).

Definition strings_in (v : json) : list jstr := match v with JArr items => omap js_string items | _ => [] end.

Definition pattern_key (c : ToolCall) (args : json) (pattern : jstr) : json :=
  JArr [JStr (tc_name c); JStr (u "pattern"); JStr pattern;
        JArr (map JStr (strings_in (json_get args (u "paths"))));
        JNum (match json_get args (u "skip") with JNum n => n | _ => 0 end);
        JBool (js_true (json_get args (u "i")));
        JBool (match json_get args (u "gitignore") with JBool false => false | _ => true end)].

(** The tuple whose JSON text is the key of a call. *)
Definition target_tuple (c : ToolCall) : option json :=
  match toolCallPath c with
  | Some path => Some (JArr [JStr (tc_name c); JStr (u "path"); JStr path])
  | None =>
      match normalizedIdempotentBashCommand c with
      | Some command => Some (JArr [JStr (tc_name c); JStr (u "command"); JStr command])
      | None =>
          args ← toolArguments c;
          pattern ← js_nonempty (json_get args (u "pattern"));
          Some (pattern_key c args pattern)
      end
  end.

Definition toolTargetKey (c : ToolCall) : option jstr := stringify <$> target_tuple c.

(** ** The notice *)

(** [extractToolOutputText]: the text, and whether it is all of the content. *)
Definition block_text (b : Block) : option jstr := match b with TextBlock t => Some t | _ => None end.
Definition extractToolOutputText (r : ToolResult) : jstr * bool :=
  match tr_content r with
  | Plain s => (s, true)
  | Blocks bs =>
      (join_lines (omap block_text bs), forallb (fun b => match b with TextBlock _ => true | _ => false end) bs)
  end.

Definition ERROR_DIGEST_MAX_CHARS : Z := 240.
Definition TAIL_DIGEST_MAX_CHARS : Z := 160.
Definition PATH_DIGEST_MAX_CHARS : Z := 120.
Definition DIGEST_TOTAL_MAX_CHARS : Z := 256.

Definition createGenericPrunedNotice (tokens : Z) : jstr :=
  u "[Output truncated - " ++ num_to_str tokens ++ u " tokens]".

Definition is_error_line (line : jstr) : bool :=
  existsb (fun w => includes (lower line) w) [u "error"; u "failed"; u "exception"; u "panic"].

Definition firstErrorLine (text : jstr) : option jstr := trim <$> List.find is_error_line (split_crlf text).
Definition firstNonEmptyLine (text : jstr) : option jstr :=
  trim <$> List.find (fun line => nonempty (trim line)) (split_crlf text).
(** [text.trim().split(/\r?\n/).filter(Boolean).at(-1)] *)
Definition last_line (text : jstr) : option jstr := last (List.filter nonempty (split_crlf (trim text))).
Definition lastNonEmptyLine (text : jstr) : option jstr := trim <$> last_line text.

Definition truncateField (value : jstr) (maxLength : Z) : jstr :=
  if zlen value <=? maxLength then value
  else if maxLength <=? 1 then [8230]
  else slice value 0 (maxLength - 1) ++ [8230].

Definition resultPathHint (r : ToolResult) (call : option ToolCall) : option jstr :=
  match call ≫= toolCallPath with Some path => Some path | None => readResolvedPath r end.

(** [/(\d+)\s+<word>/i] *)
Definition counted (word s : jstr) : option jstr :=
  match take_while is_digit s with
  | [] => None
  | ds => rest ← spaces (drop_while is_digit s); _ ← after_word word rest; Some ds
  end.

(** [/<label>], an optional quote of either kind, [:\s*(\d+)/i] *)
Definition labelled (label s : jstr) : option jstr :=
  rest ← after_word label s;
  let rest' := match rest with c :: t => if (c =? 34) || (c =? 39) then t else rest | [] => [] end in
  match rest' with
  | 58 :: t => match take_while is_digit (trim_start t) with [] => None | ds => Some ds end
  | _ => None
  end.

Definition first_of {A} (a b : option A) : option A := match a with Some _ => a | None => b end.

Section notice.
Context `{PruneHost}.

Definition field (name : jstr) (limit : Z) (value : option jstr) : list jstr :=
  match value with Some ((_ :: _) as v) => [name ++ [61] ++ truncateField v limit] | _ => [] end.

Definition join_parts (parts : list jstr) : jstr := join_with (u "; ") parts.

Definition resultDigest (r : ToolResult) (call : option ToolCall) : option jstr :=
  let toolName := lower (tr_toolName r) in
  let text := sanitizeText (fst (extractToolOutputText r)) in
  let error := field (u "error") ERROR_DIGEST_MAX_CHARS (firstErrorLine text) in
  let pathPart := field (u "path") PATH_DIGEST_MAX_CHARS (resultPathHint r call) in
  if toolName ==s "bash" then
    let exitCode := match json_get (tr_details r) (u "exitCode") with
                    | JNum n => n | _ => if tr_isError r then 1 else 0 end in
    Some (join_parts ([u "exit=" ++ num_to_str exitCode] ++ error ++ pathPart
                      ++ field (u "tail") TAIL_DIGEST_MAX_CHARS (last_line text)))
  else if (toolName ==s "search") || (toolName ==s "grep") then
    let match_ := first_of (search (counted (u "matche")) text) (search (labelled (u "totalmatches")) text) in
    let files := first_of (search (counted (u "file")) text) (search (labelled (u "fileswithmatches")) text) in
    let part (name : jstr) (v : option jstr) := match v with Some n => [name ++ n] | None => [] end in
    match join_parts (error ++ pathPart ++ part (u "matches=") match_ ++ part (u "files=") files) with
    | [] => Some (u "search digest unavailable")
    | digest => Some digest
    end
  else if negb (tr_isError r) then None
  else if trim text === [] then Some (u "error=tool result failed without text")
  else
    match error with
    | _ :: _ => Some (join_parts (error ++ pathPart))
    | [] =>
        match first_of (firstNonEmptyLine text) (lastNonEmptyLine text) with
        | Some ((_ :: _) as summary) => Some (u "summary=" ++ truncateField summary ERROR_DIGEST_MAX_CHARS)
        | _ => None
        end
    end.

Definition createPrunedNotice (tokens : Z) (r : ToolResult) (call : option ToolCall) (artifact : option jstr) : jstr :=
  let digest := truncateField (default [] (resultDigest r call)) DIGEST_TOTAL_MAX_CHARS in
  let head := u "[Output truncated - " ++ num_to_str tokens ++ u " tokens" in
  match artifact, digest with
  | Some ((_ :: _) as a), [] => head ++ u "; full output: " ++ a ++ u "]"
  | Some ((_ :: _) as a), _ => head ++ u "; full output: " ++ a ++ u "] " ++ digest
  | _, [] => createGenericPrunedNotice tokens
  | _, _ => head ++ u "; " ++ digest ++ u "]"
  end.
End notice.
