(* ===== verification/PrunePlan.v ===== *)
(** * Pruning: which results go, and what a commit does

    packages/agent/src/compaction/pruning.ts, second half: the staleness of results, the candidates, the
    plan, the commit and the pruning of arguments.  An entry is mutated in place, so the operations that
    mutate return the entries after it. *)
From S2P Require Import Prelude.
From S2P Require Import Json.
From S2P Require Import Compaction.
From S2P Require Import Prune.
From stdpp Require Import gmap.
#[local] Open Scope Z_scope.
#[local] Open Scope js_scope.

Record PruneConfig := {
  protectTokens : Z;
  cfg_minimumSavings : Z;
  protectedTools : list jstr;
  protectRecentTurns : option Z;
  staleOverridableTools : option (list jstr)
}.

Definition DEFAULT_PRUNE_CONFIG : PruneConfig :=
  {| protectTokens := 40000; cfg_minimumSavings := 20000; protectedTools := [u "skill"; u "read"];
     protectRecentTurns := Some 2; staleOverridableTools := Some [u "read"] |}.

Definition getToolResultMessage (e : SessionEntry) : option ToolResult :=
  match e_body e with MessageEntry (ToolResultMsg r) => Some r | _ => None end.

Definition call_of_block (b : Block) : option ToolCall :=
  match b with
  | ToolCallBlock id name args wire => Some {| tc_id := id; tc_name := name; tc_args := args; tc_wire := wire |}
  | _ => None
  end.

Definition entry_calls (e : SessionEntry) : list ToolCall :=
  match e_body e with MessageEntry (Assistant bs _ _) => omap call_of_block bs | _ => [] end.

(** [callsById]: the last call with an id. *)
Definition CallMap : Type := gmap jstr ToolCall.
Definition build_calls (entries : list SessionEntry) : CallMap :=
  foldl (fun m c => <[tc_id c := c]> m) ∅ (flat_map entry_calls entries).

(** ** Staleness *)

Record ResultMeta := { rm_index : nat; rm_key : option jstr; rm_call : ToolCall; rm_message : ToolResult }.

Record StalenessState := {
  lastResultIndexByKey : gmap jstr nat;
  lastEditIndexByPath : gmap jstr nat;
  resultMeta : list ResultMeta
}.

Definition set_all (paths : list jstr) (i : nat) (m : gmap jstr nat) : gmap jstr nat :=
  foldl (fun m p => <[p := i]> m) m paths.

(** The paths of the groups that a result proves to have changed. *)
Definition mutated_groups (c : ToolCall) (r : ToolResult) : list (list jstr) :=
  match successfulEditPaths r with
  | Some ok => List.filter (fun g => existsb (fun p => bool_decide (p ∈ ok)) g) (editToolPathGroups c)
  | None => editToolPathGroups c
  end.

(** The paths that a result says were edited. *)
Definition edited_paths (c : ToolCall) (r : ToolResult) : list jstr :=
  (if (tc_name c ==s "resolve") || (tc_name c ==s "ast_edit") then resultDetailFiles r else [])
  ++ (if negb (tr_isError r) && bool_decide (tc_name c ∈ EDIT_TOOL_NAMES) then concat (mutated_groups c r) else []).

(** One turn of the loop of [buildStalenessIndex]. *)
Definition staleness_step (calls : CallMap) (st : StalenessState) (i : nat) (e : SessionEntry) : StalenessState :=
  match getToolResultMessage e with
  | None => st
  | Some r =>
      match calls !! tr_callId r with
      | None => st
      | Some c =>
          let edits := set_all (edited_paths c r) i (lastEditIndexByPath st) in
          if tr_isError r then
            {| lastResultIndexByKey := lastResultIndexByKey st; lastEditIndexByPath := edits;
               resultMeta := resultMeta st |}
          else
            let key := toolTargetKey c in
            {| lastResultIndexByKey :=
                 match key with Some k => <[k := i]> (lastResultIndexByKey st) | None => lastResultIndexByKey st end;
               lastEditIndexByPath := edits;
               resultMeta := resultMeta st ++ [{| rm_index := i; rm_key := key; rm_call := c; rm_message := r |}] |}
      end
  end.

Definition no_staleness : StalenessState :=
  {| lastResultIndexByKey := ∅; lastEditIndexByPath := ∅; resultMeta := [] |}.

Definition staleness_state (entries : list SessionEntry) : StalenessState :=
  let calls := build_calls entries in
  foldl (fun st ie => staleness_step calls st (fst ie) (snd ie)) no_staleness (combine (seq 0 (length entries)) entries).

Definition later_in (m : gmap jstr nat) (k : jstr) (i : nat) : bool :=
  match m !! k with Some j => (i <? j)%nat | None => false end.

Definition is_read (c : ToolCall) : bool := tc_name c ==s "read".

(** The paths under which an edit may have touched what a read returned. *)
Definition lookup_paths (m : ResultMeta) : list jstr :=
  map readBasePath (option_list (toolCallPath (rm_call m))) ++ option_list (readResolvedPath (rm_message m)).

Definition stale_by_key_or_edit (st : StalenessState) (m : ResultMeta) : bool :=
  match rm_key m with Some k => later_in (lastResultIndexByKey st) k (rm_index m) | None => false end
  || is_read (rm_call m) && existsb (fun p => later_in (lastEditIndexByPath st) p (rm_index m)) (lookup_paths m).

(** A read result with its base path, in the order of the results. *)
Definition read_of (m : ResultMeta) : option (nat * jstr * list (Z * Z)) :=
  if is_read (rm_call m) then path ← toolCallPath (rm_call m); Some (rm_index m, readBasePath path, readLineRanges path)
  else None.

(** The reads that a later read of the same base path contains. *)
Fixpoint superseded_reads (reads : list (nat * jstr * list (Z * Z))) : list nat :=
  match reads with
  | [] => []
  | (i, base, ranges) :: later =>
      (if existsb (fun l => (snd (fst l) === base) && readSupersedesRead (snd l) ranges) later then [i] else [])
      ++ superseded_reads later
  end.

(** [buildStalenessIndex]: the indices of the stale results. *)
Definition buildStalenessIndex (entries : list SessionEntry) : list nat :=
  let st := staleness_state entries in
  map rm_index (List.filter (stale_by_key_or_edit st) (resultMeta st)) ++ superseded_reads (omap read_of (resultMeta st)).

(** ** The fence of the newest turns *)

Definition starts_turn (e : SessionEntry) : bool :=
  match e_body e with MessageEntry (User _) | MessageEntry (BashExecution _ _) => true | _ => false end.

Definition recentTurnFenceStart (entries : list SessionEntry) (turns : Z) : option nat :=
  if turns <=? 0 then None
  else
    let starts := List.filter (fun i => starts_turn (entry_at entries i)) (seq 0 (length entries)) in
    at_ starts (Z.max 0 (zlen starts - turns)).

Definition inside_fence (fence : option nat) (i : nat) : bool :=
  match fence with Some f => (f <=? i)%nat | None => false end.

(** ** Candidates *)

Record Candidate := {
  cd_entryId : jstr;
  cd_message : ToolResult;
  cd_call : option ToolCall;
  cd_tokens : Z;
  cd_originalText : jstr;
  cd_complete : bool;
  cd_notice : jstr;
  cd_savings : Z
}.

Section plan.
Context `{PruneHost}.

Definition estimatePrunedSavings (tokens : Z) (notice : jstr) : Z := tokens - estimateTextTokensHeuristic [notice].

(** Whether a notice is worth its place. *)
Definition notice_pays (r : ToolResult) (originalText notice : jstr) (savings : Z) : bool :=
  (0 <? savings) && negb (tr_isError r && (zlen originalText <? zlen notice)).

Definition candidate_of (calls : CallMap) (e : SessionEntry) (r : ToolResult) : Candidate :=
  let call := calls !! tr_callId r in
  let '(text, complete) := extractToolOutputText r in
  let tokens := estimateEntryTokens e in
  let notice := createPrunedNotice tokens r call None in
  {| cd_entryId := e_id e; cd_message := r; cd_call := call; cd_tokens := tokens; cd_originalText := text;
     cd_complete := complete; cd_notice := notice; cd_savings := estimatePrunedSavings tokens notice |}.

Definition isProtected (config : PruneConfig) (r : ToolResult) (isStale : bool) : bool :=
  bool_decide (tr_toolName r ∈ protectedTools config)
  && negb (isStale && bool_decide (tr_toolName r ∈ default [] (staleOverridableTools config))).

(** What the loop makes of a tool result, behind which [accumulated] tokens of results lie. *)
Definition consider (config : PruneConfig) (calls : CallMap) (stale : list nat) (fence : option nat) (accumulated : Z)
    (i : nat) (e : SessionEntry) (r : ToolResult) : option Candidate :=
  let isStale := bool_decide (i ∈ stale) in
  if match tr_prunedAt r with Some _ => true | None => false end || inside_fence fence i then None
  else if ((accumulated <? protectTokens config) && negb isStale) || isProtected config r isStale then None
  else
    let c := candidate_of calls e r in
    if notice_pays r (cd_originalText c) (cd_notice c) (cd_savings c) then Some c else None.

(** The loop over the [n] oldest entries, from the newest of them. *)
Fixpoint collect (config : PruneConfig) (calls : CallMap) (stale : list nat) (fence : option nat)
    (entries : list SessionEntry) (n : nat) (accumulated : Z) : list Candidate :=
  match n with
  | O => []
  | S i =>
      let e := entry_at entries i in
      match getToolResultMessage e with
      | None => collect config calls stale fence entries i accumulated
      | Some r =>
          option_list (consider config calls stale fence accumulated i e r)
          ++ collect config calls stale fence entries i (accumulated + estimateEntryTokens e)
      end
  end.

Definition sum_savings (cs : list Candidate) : Z := fold_right (fun c acc => cd_savings c + acc) 0 cs.

Definition collectToolOutputPruneCandidates (entries : list SessionEntry) (config : PruneConfig) : list Candidate * Z :=
  let candidates := collect config (build_calls entries) (buildStalenessIndex entries)
    (recentTurnFenceStart entries (default 2 (protectRecentTurns config))) entries (length entries) 0 in
  (candidates, sum_savings candidates).

(** ** The plan *)

Record PruneToolOutputsOptions := { relaxedMinimum : option Z; o_artifactRefMaxChars : option Z }.

Definition minimumSavings (config : PruneConfig) (o : PruneToolOutputsOptions) : Z :=
  match relaxedMinimum o with
  | Some m => Z.min (cfg_minimumSavings config) (Z.max 0 m)
  | None => cfg_minimumSavings config
  end.

Definition MAX_ARTIFACT_REF_CHARS : Z := 16384.

Definition artifactRefMaxChars (o : PruneToolOutputsOptions) : result jstr Z :=
  match o_artifactRefMaxChars o with
  | None => Ok 0
  | Some n =>
      if (n <=? 0) || (MAX_ARTIFACT_REF_CHARS <? n)
      then Err (u "artifactRefMaxChars must be an integer between 1 and 16384")
      else Ok n
  end.

Definition plan_candidate (artifactBudget : option jstr) (c : Candidate) : list Candidate :=
  let notice := createPrunedNotice (cd_tokens c) (cd_message c) (cd_call c)
    (if cd_complete c then artifactBudget else None) in
  let savings := estimatePrunedSavings (cd_tokens c) notice in
  if notice_pays (cd_message c) (cd_originalText c) notice savings then
    [{| cd_entryId := cd_entryId c; cd_message := cd_message c; cd_call := cd_call c; cd_tokens := cd_tokens c;
        cd_originalText := cd_originalText c; cd_complete := cd_complete c; cd_notice := notice;
        cd_savings := savings |}]
  else [].

Definition planToolOutputPruneCandidates (cs : list Candidate) (o : PruneToolOutputsOptions)
    : result jstr (list Candidate) :=
  maxArtifactChars ← artifactRefMaxChars o;
  let artifactBudget := if maxArtifactChars >? 0 then Some (repeat 120 (Z.to_nat maxArtifactChars)) else None in
  Ok (flat_map (plan_candidate artifactBudget) cs).

Record Digest := { dg_entryId : jstr; dg_sha256 : jstr; dg_bytes : Z }.
Record Replacement := { rp_entryId : jstr; rp_text : jstr; rp_complete : bool; rp_tokens : Z }.
Record Plan := { prunedCount : Z; tokensSaved : Z; digests : list Digest; replacements : list Replacement }.

Definition emptyToolOutputPrunePlan : Plan :=
  {| prunedCount := 0; tokensSaved := 0; digests := []; replacements := [] |}.

Definition digest_text (id text : jstr) : Digest :=
  {| dg_entryId := id; dg_bytes := byte_length text; dg_sha256 := sha256_hex text |}.

Definition digest_of (c : Candidate) : Digest := digest_text (cd_entryId c) (cd_originalText c).
Definition replacement_of (c : Candidate) : Replacement :=
  {| rp_entryId := cd_entryId c; rp_text := cd_notice c; rp_complete := cd_complete c; rp_tokens := cd_tokens c |}.

Definition planToolOutputPrune (entries : list SessionEntry) (config : PruneConfig) (o : PruneToolOutputsOptions)
    : result jstr Plan :=
  let '(candidates, baseTokensSaved) := collectToolOutputPruneCandidates entries config in
  let minimum := minimumSavings config o in
  if (baseTokensSaved <? minimum) || (zlen candidates =? 0) then Ok emptyToolOutputPrunePlan
  else
    planned ← planToolOutputPruneCandidates candidates o;
    let saved := sum_savings planned in
    if (saved <? minimum) || (zlen planned =? 0) then Ok emptyToolOutputPrunePlan
    else Ok {| prunedCount := zlen planned; tokensSaved := saved; digests := map digest_of planned;
               replacements := map replacement_of planned |}.

(** The count and the tokens that [estimateToolOutputPruneSavings] announces. *)
Definition estimateToolOutputPruneSavings (entries : list SessionEntry) (config : PruneConfig)
    (o : PruneToolOutputsOptions) : result jstr (Z * Z) :=
  let '(candidates, baseTokensSaved) := collectToolOutputPruneCandidates entries config in
  let minimum := minimumSavings config o in
  if (baseTokensSaved <? minimum) || (zlen candidates =? 0) then Ok (0, 0)
  else
    planned ← planToolOutputPruneCandidates candidates o;
    let saved := sum_savings planned in
    if (saved <? minimum) || (zlen planned =? 0) then Ok (0, 0) else Ok (zlen planned, saved).

Definition shouldRunMaintenancePrune (enabled : bool) (estimatedSavings minSavings cacheEpochResetCost : Z) : bool :=
  if negb enabled then false
  else if estimatedSavings <? minSavings then false
  else cacheEpochResetCost <? estimatedSavings.

(** ** The commit *)

Inductive CommitOutcome := committed | mismatch (diagnostic : jstr) | unavailable (diagnostic : jstr).

(** What a caller may put in place of a proposal: a text, and the handle of the evicted output as JSON. *)
Record CommitReplacement := { cr_text : option jstr; cr_eviction : option json }.

(** [{ ...v, [k]: x }], where what is not an object spreads nothing. *)
Fixpoint set_field (fields : list (jstr * json)) (k : jstr) (x : json) : list (jstr * json) :=
  match fields with
  | [] => [(k, x)]
  | (k', v) :: rest => if k' === k then (k, x) :: rest else (k', v) :: set_field rest k x
  end.
Definition with_field (v : json) (k : jstr) (x : json) : json :=
  JObj (set_field (match v with JObj fields => fields | _ => [] end) k x).

Definition commit_result (r : ToolResult) (text : jstr) (now : Z) (eviction : option json) : ToolResult :=
  {| tr_callId := tr_callId r; tr_toolName := tr_toolName r; tr_content := Blocks [TextBlock text];
     tr_details :=
       match eviction with
       | Some handle =>
           with_field (tr_details r) (u "meta") (with_field (json_get (tr_details r) (u "meta")) (u "eviction") handle)
       | None => tr_details r
       end;
     tr_isError := tr_isError r; tr_prunedAt := Some now |}.

Definition is_message (e : SessionEntry) : bool := match e_body e with MessageEntry _ => true | _ => false end.

(** [byId.get(id)]: the index of the last message entry with the id. *)
Definition find_entry (entries : list SessionEntry) (id : jstr) : option nat :=
  last (List.filter (fun i => let e := entry_at entries i in is_message e && (e_id e === id)) (seq 0 (length entries))).

(** [proposals.get(id)] *)
Definition find_proposal (p : Plan) (id : jstr) : option Replacement :=
  last (List.filter (fun r => rp_entryId r === id) (replacements p)).

Definition find_override (overrides : list (jstr * CommitReplacement)) (id : jstr) : option CommitReplacement :=
  snd <$> List.find (fun kv => fst kv === id) overrides.

(** One digest.  [None]: the entry it names is no tool result, which no plan does and the code does not check. *)
Definition commit_digest (p : Plan) (overrides : list (jstr * CommitReplacement)) (now : Z)
    (entries : list SessionEntry) (d : Digest) : option (list SessionEntry * CommitOutcome) :=
  match find_entry entries (dg_entryId d) with
  | None => Some (entries, unavailable (u "entry not found"))
  | Some i =>
      let e := entry_at entries i in
      r ← getToolResultMessage e;
      let text := fst (extractToolOutputText r) in
      if negb (byte_length text =? dg_bytes d) || negb (sha256_hex text === dg_sha256 d)
      then Some (entries, mismatch (u "tool output changed before commit"))
      else
        match find_proposal p (dg_entryId d) with
        | None => Some (entries, unavailable (u "replacement proposal missing"))
        | Some proposal =>
            let override := find_override overrides (dg_entryId d) in
            let replacementText := default (rp_text proposal) (override ≫= cr_text) in
            let r' := commit_result r replacementText now (override ≫= cr_eviction) in
            Some (<[i := {| e_id := e_id e; e_body := MessageEntry (ToolResultMsg r') |}]> entries, committed)
        end
  end.

Fixpoint commit_digests (p : Plan) (overrides : list (jstr * CommitReplacement)) (now : Z) (ds : list Digest)
    (entries : list SessionEntry) : option (list SessionEntry * list (jstr * CommitOutcome)) :=
  match ds with
  | [] => Some (entries, [])
  | d :: ds' =>
      '(entries', outcome) ← commit_digest p overrides now entries d;
      '(entries'', outcomes) ← commit_digests p overrides now ds' entries';
      Some (entries'', (dg_entryId d, outcome) :: outcomes)
  end.

Definition commitToolOutputPrune (entries : list SessionEntry) (p : Plan)
    (overrides : list (jstr * CommitReplacement)) (now : Z) : option (list SessionEntry * list (jstr * CommitOutcome)) :=
  commit_digests p overrides now (digests p) entries.
End plan.

(** ** The arguments of edits *)

Record ArgumentStaleness := {
  latestSuccessfulMutationByPathGroup : gmap jstr (nat * jstr);
  failedCallIds : gset jstr
}.

Definition argument_groups (c : ToolCall) (r : ToolResult) : list (list jstr) :=
  let detailFiles := if tc_name c ==s "ast_edit" then resultDetailFiles r else [] in
  match detailFiles with [] => editToolPathGroups c | _ => map (fun f => [f]) detailFiles end.

Definition succeeded_groups (c : ToolCall) (r : ToolResult) : list (list jstr) :=
  match successfulEditPaths r with
  | Some ok => List.filter (fun g => existsb (fun p => bool_decide (p ∈ ok)) g) (argument_groups c r)
  | None => argument_groups c r
  end.

Definition argument_step (calls : CallMap) (st : ArgumentStaleness) (i : nat) (e : SessionEntry) : ArgumentStaleness :=
  match r ← getToolResultMessage e; c ← calls !! tr_callId r; Some (r, c) with
  | None => st
  | Some (r, c) =>
      if negb (isEditToolCall c) then st
      else
        match argument_groups c r with
        | [] => st
        | _ =>
            let fail := {| latestSuccessfulMutationByPathGroup := latestSuccessfulMutationByPathGroup st;
                           failedCallIds := {[ tc_id c ]} ∪ failedCallIds st |} in
            if tr_isError r then fail
            else
              match succeeded_groups c r with
              | [] => fail
              | groups =>
                  {| latestSuccessfulMutationByPathGroup :=
                       foldl (fun m g => <[pathGroupKey g := (i, tc_id c)]> m)
                         (latestSuccessfulMutationByPathGroup st) groups;
                     failedCallIds := failedCallIds st |}
              end
        end
  end.

Definition buildAssistantArgumentStalenessIndex (entries : list SessionEntry) : ArgumentStaleness :=
  let calls := build_calls entries in
  foldl (fun st ie => argument_step calls st (fst ie) (snd ie))
    {| latestSuccessfulMutationByPathGroup := ∅; failedCallIds := ∅ |} (combine (seq 0 (length entries)) entries).

Definition stale_groups (st : ArgumentStaleness) (i : nat) (id : jstr) (groups : list (list jstr)) : bool :=
  forallb (fun g => match latestSuccessfulMutationByPathGroup st !! pathGroupKey g with
                    | Some (j, callId) => (i <? j)%nat && negb (callId === id)
                    | None => false
                    end) groups.

(** A candidate: the block of an entry that holds the call. *)
Record ArgumentCandidate := { ac_block : nat; ac_id : jstr; ac_pathHints : list jstr; ac_originalChars : Z }.

Definition argument_candidate (st : ArgumentStaleness) (insideProtectWindow : bool) (i j : nat) (b : Block)
    : option ArgumentCandidate :=
  match call_of_block b with
  | Some c =>
      let groups := editToolPathGroups c in
      if negb (isEditToolCall c) || is_undefined (tc_args c) || isPrunedToolArgumentsSentinel (tc_args c)
         || insideProtectWindow || bool_decide (tc_id c ∈ failedCallIds st)
         || match groups with [] => true | _ => false end || negb (stale_groups st i (tc_id c) groups)
      then None
      else Some {| ac_block := j; ac_id := tc_id c; ac_pathHints := pathHintsForGroups groups;
                   ac_originalChars := zlen (stringify (tc_args c)) |}
  | None => None
  end.

Definition entry_candidates (st : ArgumentStaleness) (insideProtectWindow : bool) (i : nat) (bs : list Block)
    : list ArgumentCandidate :=
  omap (fun jb => argument_candidate st insideProtectWindow i (fst jb) (snd jb)) (combine (seq 0 (length bs)) bs).

(** The loop over the [n] oldest entries: the entries that have candidates, the newest first. *)
Fixpoint collect_arguments (config : PruneConfig) (st : ArgumentStaleness) (fence : option nat)
    (entries : list SessionEntry) (n : nat) (accumulated : Z) : list (nat * list ArgumentCandidate) :=
  match n with
  | O => []
  | S i =>
      if inside_fence fence i then collect_arguments config st fence entries i accumulated
      else
        match e_body (entry_at entries i) with
        | MessageEntry (Assistant bs _ _) =>
            let cs := entry_candidates st (accumulated <? protectTokens config) i bs in
            match cs with [] => [] | _ => [(i, cs)] end
            ++ collect_arguments config st fence entries i (accumulated + estimateEntryTokens (entry_at entries i))
        | _ => collect_arguments config st fence entries i accumulated
        end
  end.

Definition sentinel (c : ArgumentCandidate) (prunedAt : Z) : json :=
  JObj [(u "pruned", JBool true); (u "reason", JStr (u "stale_tool_arguments"));
        (u "pathHints", JArr (map JStr (ac_pathHints c))); (u "originalChars", JNum (ac_originalChars c));
        (u "prunedAt", JNum prunedAt)].

Definition with_arguments (b : Block) (a : json) : Block :=
  match b with ToolCallBlock id name _ wire => ToolCallBlock id name a wire | _ => b end.

Definition with_blocks (e : SessionEntry) (f : list Block -> list Block) : SessionEntry :=
  match e_body e with
  | MessageEntry (Assistant bs us st) => {| e_id := e_id e; e_body := MessageEntry (Assistant (f bs) us st) |}
  | _ => e
  end.

(** [stagedEntry]: the arguments of every call with the id of a candidate are replaced; of two candidates with
    an id, the last counts. *)
Definition staged_entry (e : SessionEntry) (cs : list ArgumentCandidate) (prunedAt : Z) : SessionEntry :=
  with_blocks e (map (fun b =>
    match b with
    | ToolCallBlock id _ _ _ =>
        match last (List.filter (fun c => ac_id c === id) cs) with
        | Some c => with_arguments b (sentinel c prunedAt)
        | None => b
        end
    | _ => b
    end)).

(** What is written: the arguments of the candidates' own blocks. *)
Definition pruned_entry (e : SessionEntry) (cs : list ArgumentCandidate) (prunedAt : Z) : SessionEntry :=
  with_blocks e (fun bs =>
    foldl (fun bs c => alter (fun b => with_arguments b (sentinel c prunedAt)) (ac_block c) bs) bs cs).

Definition argument_savings (entries : list SessionEntry) (prunedAt : Z) (ics : nat * list ArgumentCandidate) : Z :=
  let e := entry_at entries (fst ics) in
  Z.max 0 (estimateEntryTokens e - estimateEntryTokens (staged_entry e (snd ics) prunedAt)).

(** [pruneAssistantToolArguments]: the entries after it, the count, the tokens saved and the entries pruned. *)
Definition pruneAssistantToolArguments (entries : list SessionEntry) (config : PruneConfig) (prunedAt : Z)
    : list SessionEntry * Z * Z * list nat :=
  let groups := collect_arguments config (buildAssistantArgumentStalenessIndex entries)
    (recentTurnFenceStart entries (default 2 (protectRecentTurns config))) entries (length entries) 0 in
  let admitted := List.filter (fun g => negb (argument_savings entries prunedAt g =? 0)) groups in
  let saved := fold_right (fun g acc => argument_savings entries prunedAt g + acc) 0 admitted in
  if (saved <? cfg_minimumSavings config) || (zlen admitted =? 0) then (entries, 0, 0, [])
  else
    (foldl (fun es g => alter (fun e => pruned_entry e (snd g) prunedAt) (fst g) es) entries admitted,
     fold_right (fun g acc => zlen (snd g) + acc) 0 admitted, saved, map fst admitted).
