(* ===== verification/PruneKeys.v ===== *)
(** * The keys of tool calls do not collide

    The key of a call is the JSON text of a tuple, so that no text in a path, a command or a pattern can make
    two different lookups look the same. *)
From S2P Require Import Prelude.
From S2P Require Import Json.
From S2P Require Import Compaction.
From S2P Require Import Prune.
#[local] Open Scope Z_scope.
#[local] Open Scope js_scope.

(** What a call that came from JSON is: strings of code units, no [undefined]. *)
Definition from_json (c : ToolCall) : Prop := forallb is_unit (tc_name c) = true /\ plain (tc_args c) = true.

Lemma plain_get v k : plain v = true -> is_undefined (json_get v k) = true \/ plain (json_get v k) = true.
Proof.
  destruct v as [| | | | | |fields]; try by left. cbn. induction fields as [|[k' x] rest IH]; [by left|]. cbn.
  intros [[_ Hx]%andb_true_iff Hrest]%andb_true_iff. destruct (bool_decide (k' = k)); [by right | by apply IH].
Qed.

Lemma plain_string v k s : plain v = true -> json_get v k = JStr s -> forallb is_unit s = true.
Proof. intros Hv Hs. destruct (plain_get v k Hv) as [H | H]; rewrite Hs in H; done. Qed.

Lemma toolArguments_eq c args : toolArguments c = Some args -> args = tc_args c.
Proof. unfold toolArguments. destruct (tc_args c); by intros [= <-]. Qed.

Lemma nullish_cases a b c :
  nullish (nullish a b) c = a \/ nullish (nullish a b) c = b \/ nullish (nullish a b) c = c.
Proof. destruct a, b; auto. Qed.

Lemma path_units c p : from_json c -> toolCallPath c = Some p -> forallb is_unit p = true.
Proof.
  intros [_ Hplain]. unfold toolCallPath. destruct (toolArguments c) as [args|] eqn:Ha; [|done].
  apply toolArguments_eq in Ha as ->. cbn [mbind option_bind].
  pose proof (nullish_cases (json_get (tc_args c) (u "path")) (json_get (tc_args c) (u "file_path"))
    (json_get (tc_args c) (u "filePath"))) as Hv.
  generalize dependent (nullish (nullish (json_get (tc_args c) (u "path")) (json_get (tc_args c) (u "file_path")))
    (json_get (tc_args c) (u "filePath"))). intros v Hv.
  destruct v as [| | | |s| |] eqn:Ev; cbn; try done. destruct s as [|d s]; [done|]. intros [= <-].
  destruct Hv as [H | [H | H]]; symmetry in H; by eapply plain_string.
Qed.

(** *** Texts of units *)

Definition units (s : jstr) : Prop := Forall (fun c => is_unit c = true) s.

Lemma units_app s t : units (s ++ t) <-> units s /\ units t.
Proof. apply Forall_app. Qed.

Lemma units_forallb s : forallb is_unit s = true <-> units s.
Proof. apply forallb_Forall. Qed.

Lemma hex_unit d : 0 <= d < 16 -> is_unit (hex_digit d) = true.
Proof. unfold hex_digit, is_unit. intros Hd. destruct (d <? 10); lia. Qed.

Lemma escape_units c : units (unit_escape c).
Proof.
  unfold unit_escape. apply units_app. split; [by repeat constructor|].
  apply Forall_fmap, Forall_true. intros k. apply hex_unit, Z.mod_pos_bound. lia.
Qed.

Lemma quote_unit_units c : is_unit c = true -> units (quote_unit c).
Proof.
  intros Hc. unfold quote_unit. repeat (case_match; [by repeat constructor|]).
  case_match; [apply escape_units | by repeat constructor].
Qed.

Lemma quote_body_units s : units s -> units (quote_body s).
Proof.
  remember (length s) as n eqn:En. revert s En. induction (lt_wf n) as [n _ IH]. intros s -> Hs.
  destruct s as [|c s]; [constructor|]. apply Forall_cons_1 in Hs as [Hc Hs].
  assert (Htail : units (quote_body s)) by (apply (IH (length s)); [cbn; lia | done..]).
  cbn [quote_body]. destruct (is_high c); [|destruct (is_low c)].
  - destruct s as [|d s]; [apply escape_units|]. destruct (is_low d).
    + apply Forall_cons_1 in Hs as [Hd Hs]. do 2 (constructor; [done|]). apply (IH (length s)); [cbn; lia | done..].
    + apply units_app. split; [apply escape_units | done].
  - apply units_app. split; [apply escape_units | done].
  - apply units_app. split; [by apply quote_unit_units | done].
Qed.

Lemma quote_units s : units s -> units (json_quote s).
Proof.
  intros Hs. unfold json_quote. rewrite !units_app. split; [by repeat constructor|].
  split; [by apply quote_body_units | by repeat constructor].
Qed.

Lemma units_drop_while p s : units s -> units (drop_while p s).
Proof. intros Hs. rewrite <- (take_drop_while p s) in Hs. by apply units_app in Hs as [_ ?]. Qed.

Lemma units_trim s : units s -> units (trim s).
Proof.
  intros Hs. unfold trim, trim_end, trim_start. apply Forall_rev, units_drop_while, Forall_rev.
  by apply units_drop_while.
Qed.

Lemma units_collapse s : units s -> units (collapse_spaces s).
Proof.
  induction s as [|c s IH]; [done|]. intros [Hc Hs]%Forall_cons_1. cbn [collapse_spaces]. specialize (IH Hs).
  destruct (is_ws c); [|by constructor].
  assert (Hcons : units (32 :: collapse_spaces s)) by by constructor.
  destruct (collapse_spaces s) as [|d t]; [done|]. repeat (case_match; subst; try done).
Qed.

Lemma pair_units x y : units x -> units (stringify y) -> units (stringify (JArr [JStr x; y])).
Proof.
  intros Hx Hy. change (units ([91] ++ (json_quote x ++ [44] ++ stringify y) ++ [93])).
  rewrite !units_app. split; [by repeat constructor|]. split; [|by repeat constructor]. split; [by apply quote_units|].
  split; [by repeat constructor | done].
Qed.

Lemma command_units c t : from_json c -> normalizedIdempotentBashCommand c = Some t -> units t.
Proof.
  intros [_ Hplain]. unfold normalizedIdempotentBashCommand. destruct (negb _); [done|].
  destruct (toolArguments c) as [args|] eqn:Ha; [|done]. apply toolArguments_eq in Ha as ->. cbn [mbind option_bind].
  destruct (json_get (tc_args c) (u "command")) as [| | | |command| |] eqn:Hcmd; try done. cbn [js_string mbind option_bind].
  destruct (_ || _); [done|]. intros [= <-].
  apply pair_units; [apply units_collapse, units_trim, units_forallb; by eapply plain_string|].
  destruct (json_get (tc_args c) (u "cwd")) as [| | | |cwd| |] eqn:Hcwd; try by repeat constructor.
  apply quote_units, units_forallb. by eapply plain_string.
Qed.

Lemma paths_plain v k : plain v = true -> plain (JArr (map JStr (strings_in (json_get v k)))) = true.
Proof.
  intros Hv. cbn. destruct (plain_get v k Hv) as [H | H]; [by destruct (json_get v k)|].
  destruct (json_get v k) as [| | | | |items|]; try done. cbn in *.
  induction items as [|x items IH]; [done|]. cbn in *. apply andb_true_iff in H as [Hx Hi].
  destruct x; cbn; auto. rewrite IH by done. cbn in Hx. by rewrite Hx.
Qed.

Lemma tuple_plain c t : from_json c -> target_tuple c = Some t -> plain t = true.
Proof.
  intros Hc. pose proof Hc as [Hname Hplain]. unfold target_tuple.
  destruct (toolCallPath c) as [p|] eqn:Hp.
  { intros [= <-]. cbn. by rewrite Hname, (path_units c p Hc Hp). }
  destruct (normalizedIdempotentBashCommand c) as [t'|] eqn:Hcmd.
  { intros [= <-]. cbn. by rewrite Hname, (proj2 (units_forallb t') (command_units c t' Hc Hcmd)). }
  destruct (toolArguments c) as [args|] eqn:Ha; [|done]. apply toolArguments_eq in Ha as ->. cbn [mbind option_bind].
  destruct (js_nonempty (json_get (tc_args c) (u "pattern"))) as [pattern|] eqn:Hpat; [|done]. intros [= <-].
  assert (Hs : forallb is_unit pattern = true).
  { destruct (json_get (tc_args c) (u "pattern")) as [| | | |s| |] eqn:E; try done. apply (plain_string _ _ _ Hplain) in E.
    destruct s; [done|]. by injection Hpat as <-. }
  unfold pattern_key. cbn [plain forallb]. pose proof (paths_plain _ (u "paths") Hplain) as Hps. cbn [plain] in Hps.
  by rewrite Hname, Hs, Hps.
Qed.

(** The keys of tool calls do not collide: two calls with one key are calls of one tool for one target.
    They have the same path, or the same idempotent command in the same directory, or the same pattern over
    the same paths, page and flags, whatever the texts in them are. *)
Theorem target_keys_do_not_collide a b k :
  from_json a -> from_json b -> toolTargetKey a = Some k -> toolTargetKey b = Some k ->
  tc_name a = tc_name b /\ toolCallPath a = toolCallPath b
  /\ (toolCallPath a = None -> normalizedIdempotentBashCommand a = normalizedIdempotentBashCommand b)
  /\ target_tuple a = target_tuple b.
Proof.
  intros Ha Hb. unfold toolTargetKey. destruct (target_tuple a) as [ta|] eqn:Hta; [|done].
  destruct (target_tuple b) as [tb|] eqn:Htb; [|done]. cbn. intros [= Hka] [= Hkb].
  assert (Heq : ta = tb).
  { rewrite <- Hka in Hkb. apply (stringify_inj ta tb [] []); [exact (tuple_plain a ta Ha Hta) | exact (tuple_plain b tb Hb Htb) | done..|].
    by rewrite !app_nil_r. }
  subst tb. clear Hka Hkb. revert Hta Htb. unfold target_tuple.
  destruct (toolCallPath a) as [pa|], (toolCallPath b) as [pb|].
  - intros [= <-] [= -> ->]. done.
  - intros [= <-] Htb. exfalso. destruct (normalizedIdempotentBashCommand b); [discriminate|].
    destruct (toolArguments b); [|done]. cbn in Htb. destruct (js_nonempty _); discriminate.
  - intros Hta [= <-]. exfalso. destruct (normalizedIdempotentBashCommand a); [discriminate|].
    destruct (toolArguments a); [|done]. cbn in Hta. destruct (js_nonempty _); discriminate.
  - destruct (normalizedIdempotentBashCommand a) as [ca|], (normalizedIdempotentBashCommand b) as [cb|].
    + by intros [= <-] [= -> ->].
    + intros [= <-] Htb. exfalso. destruct (toolArguments b); [|done]. cbn in Htb. destruct (js_nonempty _); discriminate.
    + intros Hta [= <-]. exfalso. destruct (toolArguments a); [|done]. cbn in Hta. destruct (js_nonempty _); discriminate.
    + destruct (toolArguments a) as [xa|]; [|done]. destruct (toolArguments b) as [xb|]; [|done]. cbn.
      destruct (js_nonempty (json_get xa _)), (js_nonempty (json_get xb _)); try done. cbn.
      intros [= <-] [= Hn]. split; [done|]. split; [done|]. split; [done|]. congruence.
Qed.
