(* ===== verification/PruneStale.v ===== *)
(** * Which results are stale

    The index that is built in one pass over the entries is the plain definition of staleness: a later
    result for the same target, a later edit of the file that was read, or a later read of a larger range. *)
From S2P Require Import Prelude.
From S2P Require Import Json.
From S2P Require Import Compaction.
From S2P Require Import CompactionCut.
From S2P Require Import Prune.
From S2P Require Import PrunePlan.
From stdpp Require Import gmap.
#[local] Open Scope Z_scope.
#[local] Open Scope js_scope.

(** The entry at [i] is the result [r] of the call [c]. *)
Definition result_at (calls : CallMap) (entries : list SessionEntry) (i : nat) (c : ToolCall) (r : ToolResult) : Prop :=
  exists e, entries !! i = Some e /\ getToolResultMessage e = Some r /\ calls !! tr_callId r = Some c.

(** A result is stale because of a later one: it has the same target, it edited the file that was read, or it
    read more of it. *)
Inductive stale_in (calls : CallMap) (entries : list SessionEntry) (i : nat) (c : ToolCall) (r : ToolResult) : Prop :=
| stale_same_target j c' r' k :
    (i < j)%nat -> result_at calls entries j c' r' -> tr_isError r' = false ->
    toolTargetKey c = Some k -> toolTargetKey c' = Some k -> stale_in calls entries i c r
| stale_edited j c' r' p :
    (i < j)%nat -> result_at calls entries j c' r' -> is_read c = true ->
    (p ∈ map readBasePath (option_list (toolCallPath c)) \/ readResolvedPath r = Some p) ->
    p ∈ edited_paths c' r' -> stale_in calls entries i c r
| stale_contained j c' r' p p' :
    (i < j)%nat -> result_at calls entries j c' r' -> tr_isError r' = false ->
    is_read c = true -> is_read c' = true -> toolCallPath c = Some p -> toolCallPath c' = Some p' ->
    readBasePath p = readBasePath p' -> readSupersedesRead (readLineRanges p') (readLineRanges p) = true ->
    stale_in calls entries i c r.

(** ** Maps that remember the last index *)

Definition tracks (m : gmap jstr nat) (hit : jstr -> nat -> Prop) : Prop :=
  forall k, (forall j, m !! k = Some j -> hit k j) /\ (forall j, hit k j -> exists j', m !! k = Some j' /\ (j <= j')%nat).

Lemma tracks_later m hit k i :
  tracks m hit -> later_in m k i = true <-> exists j, hit k j /\ (i < j)%nat.
Proof.
  intros Ht. destruct (Ht k) as [Hin Hout]. unfold later_in. split.
  - destruct (m !! k) as [j|]; [|done]. intros Hij%Nat.ltb_lt. exists j. auto.
  - intros (j & Hj & Hij). destruct (Hout j Hj) as (j' & -> & Hle). apply Nat.ltb_lt. lia.
Qed.

Lemma tracks_ext m hit hit' : (forall k j, hit k j <-> hit' k j) -> tracks m hit -> tracks m hit'.
Proof. intros He Ht k. destruct (Ht k) as [H1 H2]. split; intros j Hj; [apply He, H1, Hj | apply H2, He, Hj]. Qed.

(** Setting the keys [ks] to an index above all others. *)
Lemma tracks_set_all m hit ks n :
  (forall k j, hit k j -> (j <= n)%nat) -> tracks m hit ->
  tracks (set_all ks n m) (fun k j => hit k j \/ (k ∈ ks /\ j = n)).
Proof.
  revert m hit. induction ks as [|k0 ks IH]; intros m hit Hb Ht.
  - eapply tracks_ext; [|exact Ht]. intros k j. split; [by left|]. by intros [? | [?%elem_of_nil _]].
  - cbn [set_all foldl]. eapply (tracks_ext _ (fun k j => (hit k j \/ (k = k0 /\ j = n)) \/ (k ∈ ks /\ j = n))).
    + intros k j. rewrite elem_of_cons. tauto.
    + apply (IH (<[k0:=n]> m)); [intros k j [H | [_ ->]]; [by eapply Hb | done]|].
      intros k. destruct (Ht k) as [H1 H2]. destruct (decide (k = k0)) as [-> | Hne].
      * rewrite lookup_insert_eq. split; [intros j [= <-]; by right|].
        intros j [Hj | [_ ->]]; exists n; split; [done|by eapply Hb|done|done].
      * rewrite lookup_insert_ne by done. split; [intros j Hj; left; by apply H1|].
        intros j [Hj | [? _]]; [by apply H2 | done].
Qed.

(** ** The pass over the entries *)

Definition pass (calls : CallMap) (es : list SessionEntry) : StalenessState :=
  foldl (fun st ie => staleness_step calls st (fst ie) (snd ie)) no_staleness (combine (seq 0 (length es)) es).

Lemma numbered_entry_snoc {A} (l : list A) x :
  combine (seq 0 (length (l ++ [x]))) (l ++ [x]) = combine (seq 0 (length l)) l ++ [(length l, x)].
Proof.
  rewrite length_app, seq_app. change (combine (seq 0 (length l) ++ [length l]) (l ++ [x])
    = combine (seq 0 (length l)) l ++ [(length l, x)]).
  assert (Hgen : forall (a : list nat) (b : list A) y z, length a = length b ->
    combine (a ++ [y]) (b ++ [z]) = combine a b ++ [(y, z)]).
  { induction a as [|? a IH]; intros [|? b] y z Hl; try done. cbn. by rewrite IH by (cbn in Hl; lia). }
  apply Hgen. by rewrite length_seq.
Qed.

Lemma pass_snoc calls es e : pass calls (es ++ [e]) = staleness_step calls (pass calls es) (length es) e.
Proof. unfold pass. by rewrite numbered_entry_snoc, foldl_app. Qed.

Lemma result_at_snoc calls es e i c r :
  result_at calls (es ++ [e]) i c r <->
  result_at calls es i c r
  \/ (i = length es /\ getToolResultMessage e = Some r /\ calls !! tr_callId r = Some c).
Proof.
  unfold result_at. split.
  - intros (x & Hx & Hr). apply lookup_app_Some in Hx as [Hx | [Hlen Hx]]; [left; eauto|]. right.
    apply list_lookup_singleton_Some in Hx as [Hi ->]. split; [lia | done].
  - intros [(x & Hx & Hr) | (-> & Hr)].
    + exists x. split; [by apply lookup_app_l_Some | done].
    + exists e. split; [by apply list_lookup_middle | done].
Qed.

Lemma result_at_bound calls es i c r : result_at calls es i c r -> (i < length es)%nat.
Proof. intros (e & He & _). by eapply lookup_lt_Some. Qed.

Record pass_ok (calls : CallMap) (es : list SessionEntry) (st : StalenessState) : Prop := {
  ok_meta : forall m, m ∈ resultMeta st <->
    result_at calls es (rm_index m) (rm_call m) (rm_message m) /\ tr_isError (rm_message m) = false
    /\ rm_key m = toolTargetKey (rm_call m);
  ok_sorted : StronglySorted lt (map rm_index (resultMeta st));
  ok_last : tracks (lastResultIndexByKey st) (fun k j =>
    exists c r, result_at calls es j c r /\ tr_isError r = false /\ toolTargetKey c = Some k);
  ok_edits : tracks (lastEditIndexByPath st) (fun p j => exists c r, result_at calls es j c r /\ p ∈ edited_paths c r)
}.

Lemma sorted_snoc (l : list nat) x : StronglySorted lt l -> Forall (fun y => (y < x)%nat) l -> StronglySorted lt (l ++ [x]).
Proof.
  induction 1 as [|y l Hs IH Hall]; intros Hx; [repeat constructor|]. apply Forall_cons_1 in Hx as [Hy Hl].
  constructor; [by apply IH|]. apply Forall_app. split; [done | by repeat constructor].
Qed.

Lemma meta_bound calls es st : pass_ok calls es st -> Forall (fun y => (y < length es)%nat) (map rm_index (resultMeta st)).
Proof.
  intros Hok. apply Forall_forall. intros i (m & -> & Hm)%list_elem_of_fmap.
  apply (ok_meta _ _ _ Hok) in Hm as [Hr _]. by eapply result_at_bound.
Qed.

(** An entry that is no result of a known call changes nothing. *)
Lemma pass_ok_skip calls es e st :
  pass_ok calls es st -> (forall c r, ~ (getToolResultMessage e = Some r /\ calls !! tr_callId r = Some c)) ->
  pass_ok calls (es ++ [e]) st.
Proof.
  intros [Hm Hs Hl He] Hno.
  assert (Heq : forall i c r, result_at calls (es ++ [e]) i c r <-> result_at calls es i c r).
  { intros i c r. rewrite result_at_snoc. split; [|by left]. intros [H | [_ H]]; [done|]. by apply Hno in H. }
  split; [|done|..].
  - intros m. by rewrite Hm, Heq.
  - eapply tracks_ext; [|exact Hl]. intros k j. by setoid_rewrite Heq.
  - eapply tracks_ext; [|exact He]. intros k j. by setoid_rewrite Heq.
Qed.

Lemma tracks_step calls es e c r (hit : ToolCall -> ToolResult -> jstr -> Prop) m ks :
  getToolResultMessage e = Some r -> calls !! tr_callId r = Some c -> (forall k, k ∈ ks <-> hit c r k) ->
  tracks m (fun k j => exists c r, result_at calls es j c r /\ hit c r k) ->
  tracks (set_all ks (length es) m) (fun k j => exists c r, result_at calls (es ++ [e]) j c r /\ hit c r k).
Proof.
  intros Hr Hc Hks Ht. eapply tracks_ext; [|apply tracks_set_all; [|exact Ht]].
  - intros k j. split.
    + intros [(c' & r' & Hat & Hh) | [Hk ->]].
      * exists c', r'. split; [apply result_at_snoc; by left | done].
      * exists c, r. split; [apply result_at_snoc; by right | by apply Hks].
    + intros (c' & r' & [Hat | (-> & Hr' & Hc')]%result_at_snoc & Hh); [left; eauto|]. right.
      rewrite Hr in Hr'. injection Hr' as <-. rewrite Hc in Hc'. injection Hc' as <-. split; [by apply Hks | done].
  - intros k j (c' & r' & Hat & _). apply result_at_bound in Hat. lia.
Qed.

Lemma step_ok calls es e st : pass_ok calls es st -> pass_ok calls (es ++ [e]) (staleness_step calls st (length es) e).
Proof.
  intros Hok. unfold staleness_step. destruct (getToolResultMessage e) as [r|] eqn:Hr.
  2: { apply pass_ok_skip; [done|]. intros c r [H _]. by rewrite Hr in H. }
  destruct (calls !! tr_callId r) as [c|] eqn:Hc.
  2: { apply pass_ok_skip; [done|]. intros c r' [H1 H2]. rewrite Hr in H1. injection H1 as <-. by rewrite Hc in H2. }
  pose proof (meta_bound _ _ _ Hok) as Hbound. destruct Hok as [Hm Hs Hl He].
  assert (He' := tracks_step calls es e c r (fun c r p => p ∈ edited_paths c r) _ _ Hr Hc (fun k => iff_refl _) He).
  assert (Hl' := fun ks Hks => tracks_step calls es e c r (fun c r k => tr_isError r = false /\ toolTargetKey c = Some k)
    (lastResultIndexByKey st) ks Hr Hc Hks Hl).
  destruct (tr_isError r) eqn:Herr; split; cbn; try done.
  - intros m. rewrite Hm, result_at_snoc. split; [by intros (? & ? & ?); auto|].
    intros ([H | (_ & H & _)] & H1 & H2); [done|]. rewrite Hr in H. injection H as Hx. rewrite <- Hx in H1. congruence.
  - apply (Hl' []). intros k. rewrite Herr. split; [by intros ?%elem_of_nil | by intros [? _]].
  - intros m. rewrite elem_of_app, list_elem_of_singleton, Hm, result_at_snoc. split.
    + intros [(H & H1 & H2) | ->]; [auto|]. cbn. auto.
    + intros ([H | (Hi & H & H')] & H1 & H2); [by left|]. right. destruct m as [i k c' r']. cbn in *. rewrite Hr in H.
      injection H as <-. rewrite Hc in H'. injection H' as <-. by subst.
  - rewrite map_app. by apply sorted_snoc.
  - destruct (toolTargetKey c) as [k0|] eqn:Hk.
    + apply (Hl' [k0]). intros k. rewrite list_elem_of_singleton, Herr, Hk. split; [by intros -> | by intros [_ [= ->]]].
    + apply (Hl' []). intros k. rewrite Hk. split; [by intros ?%elem_of_nil | by intros [_ ?]].
Qed.

Lemma pass_is_ok calls es : pass_ok calls es (pass calls es).
Proof.
  induction es as [|e es IH] using rev_ind; [|rewrite pass_snoc; by apply step_ok].
  split; cbn.
  - intros m. rewrite elem_of_nil. split; [done|]. by intros ((e & He & _) & _).
  - constructor.
  - intros k. split; [done|]. by intros j (c & r & (e & He & _) & _).
  - intros k. split; [done|]. by intros j (c & r & (e & He & _) & _).
Qed.

(** ** Reads that contain reads *)

Lemma superseded_spec reads i :
  StronglySorted lt (map (fun x => fst (fst x)) reads) ->
  i ∈ superseded_reads reads <->
  exists base ranges j ranges', (i, base, ranges) ∈ reads /\ (j, base, ranges') ∈ reads /\ (i < j)%nat
    /\ readSupersedesRead ranges' ranges = true.
Proof.
  induction reads as [|[[i0 base0] ranges0] later IH]; cbn [superseded_reads map].
  { intros _. rewrite elem_of_nil. split; [done|]. by intros (? & ? & ? & ? & ?%elem_of_nil & _). }
  intros [Hs Hall]%StronglySorted_inv. rewrite Forall_forall in Hall. rewrite elem_of_app, (IH Hs).
  assert (Hlt : forall j b rs, (j, b, rs) ∈ later -> (i0 < j)%nat).
  { intros j b rs Hj. apply (Hall j), list_elem_of_fmap. by exists (j, b, rs). }
  split.
  - intros [Hhere | (base & ranges & j & ranges' & H1 & H2 & H3)].
    + destruct (existsb _ later) eqn:Hex; [|by apply elem_of_nil in Hhere].
      apply list_elem_of_singleton in Hhere as ->. apply existsb_exists in Hex as ([[j b] rs] & Hj%list_elem_of_In & Hb).
      apply andb_true_iff in Hb as [Hb%bool_decide_eq_true Hsup]. cbn in Hb, Hsup. subst b.
      exists base0, ranges0, j, rs. split; [by left|]. split; [by right|]. split; [by eapply Hlt | done].
    + exists base, ranges, j, ranges'. split; [by right|]. split; [by right | done].
  - intros (base & ranges & j & ranges' & [H1 | H1]%elem_of_cons & [H2 | H2]%elem_of_cons & Hij & Hsup).
    + simplify_eq. lia.
    + left. simplify_eq. replace (existsb _ later) with true; [by left|]. symmetry. apply existsb_exists.
      exists (j, base0, ranges'). split; [by apply list_elem_of_In|]. cbn. by rewrite bool_decide_true.
    + simplify_eq. apply Hlt in H1. lia.
    + right. by exists base, ranges, j, ranges'.
Qed.

Lemma omap_sorted {A} (f : A -> nat) (g : A -> option (nat * jstr * list (Z * Z))) l :
  (forall x y, g x = Some y -> fst (fst y) = f x) -> StronglySorted lt (map f l) ->
  StronglySorted lt (map (fun x => fst (fst x)) (omap g l)).
Proof.
  intros Hg. induction l as [|x l IH]; cbn; [constructor|]. intros [Hs Hall]%StronglySorted_inv.
  destruct (g x) as [y|] eqn:Hx; [|by apply IH]. cbn. constructor; [by apply IH|]. rewrite (Hg _ _ Hx).
  rewrite Forall_forall in Hall |- *. intros j (z & -> & (x' & Hx' & Hz)%list_elem_of_omap)%list_elem_of_fmap.
  rewrite (Hg _ _ Hz). apply Hall, list_elem_of_fmap. by exists x'.
Qed.

Lemma read_of_spec m x :
  read_of m = Some x <->
  is_read (rm_call m) = true /\ exists p, toolCallPath (rm_call m) = Some p
    /\ x = (rm_index m, readBasePath p, readLineRanges p).
Proof.
  unfold read_of. destruct (is_read (rm_call m)); [|split; [done | by intros [? _]]].
  destruct (toolCallPath (rm_call m)) as [p|]; cbn; split.
  - intros [= <-]. split; [done|]. by exists p.
  - by intros (_ & p' & [= <-] & ->).
  - done.
  - by intros (_ & p' & ? & _).
Qed.

(** The two ways into the index. *)
Definition indexed (st : StalenessState) (i : nat) : Prop :=
  i ∈ map rm_index (List.filter (stale_by_key_or_edit st) (resultMeta st))
  \/ exists base ranges j ranges', (i, base, ranges) ∈ omap read_of (resultMeta st)
       /\ (j, base, ranges') ∈ omap read_of (resultMeta st) /\ (i < j)%nat /\ readSupersedesRead ranges' ranges = true.

Lemma indexed_sound calls entries st i :
  pass_ok calls entries st -> indexed st i ->
  exists c r, result_at calls entries i c r /\ tr_isError r = false /\ stale_in calls entries i c r.
Proof.
  intros [Hm Hs Hl He] [(m & -> & [Hin Hst]%list_elem_of_In%filter_In)%list_elem_of_fmap | Hsup].
  + apply list_elem_of_In, Hm in Hin as (Hat & Herr & Hkey). exists (rm_call m), (rm_message m).
    split; [done|]. split; [done|]. apply orb_true_iff in Hst as [Hst | [Hrd Hst]%andb_true_iff].
    * rewrite Hkey in Hst. destruct (toolTargetKey (rm_call m)) as [k|] eqn:Hk; [|done].
      apply (tracks_later _ _ _ _ Hl) in Hst as (j & (c & r & Hj & Herr' & Hk') & Hij).
      by eapply stale_same_target.
    * apply existsb_exists in Hst as (p & Hp%list_elem_of_In & Hst).
      apply (tracks_later _ _ _ _ He) in Hst as (j & (c & r & Hj & Hedit) & Hij).
      eapply stale_edited; [exact Hij | exact Hj | done | | exact Hedit].
      apply elem_of_app in Hp as [? | Hp]; [by left|]. right. destruct (readResolvedPath _); [|by apply elem_of_nil in Hp].
      by apply list_elem_of_singleton in Hp as ->.
  + destruct Hsup as (base & ranges & j & ranges' & (m & Hin & Hrd)%list_elem_of_omap & (m' & Hin' & Hrd')%list_elem_of_omap & Hij & Hsup).
    apply read_of_spec in Hrd as (Hr & p & Hp & [= -> -> ->]). apply read_of_spec in Hrd' as (Hr' & p' & Hp' & [= -> Hb ->]).
    apply Hm in Hin as (Hat & Herr & _). apply Hm in Hin' as (Hat' & Herr' & _).
    exists (rm_call m), (rm_message m). split; [done|]. split; [done|]. by eapply stale_contained.
Qed.

Lemma indexed_complete calls entries st i c r :
  pass_ok calls entries st ->
  result_at calls entries i c r -> tr_isError r = false -> stale_in calls entries i c r -> indexed st i.
Proof.
  intros [Hm Hs Hl He] Hat Herr Hst.
  set (m := {| rm_index := i; rm_key := toolTargetKey c; rm_call := c; rm_message := r |}).
  assert (Hin : m ∈ resultMeta st) by by apply Hm.
  assert (Hpass : stale_by_key_or_edit st m = true -> i ∈ map rm_index (List.filter (stale_by_key_or_edit st) (resultMeta st))).
  { intros H. apply list_elem_of_fmap. exists m. split; [done|]. apply list_elem_of_In, filter_In.
    split; [by apply list_elem_of_In | done]. }
  destruct Hst as [j c' r' k Hij Hj Herr' Hk Hk' | j c' r' p Hij Hj Hrd Hp Hedit | j c' r' p p' Hij Hj Herr' Hrd Hrd' Hp Hp' Hb Hsup].
  + left. apply Hpass. unfold stale_by_key_or_edit. cbn. rewrite Hk. apply orb_true_iff. left.
    apply (tracks_later _ _ _ _ Hl). exists j. split; [by exists c', r' | done].
  + left. apply Hpass. unfold stale_by_key_or_edit. cbn. rewrite Hrd. apply orb_true_iff. right.
    apply existsb_exists. exists p. split.
    * apply list_elem_of_In, elem_of_app. destruct Hp as [? | Hp]; [by left|]. right. cbn. rewrite Hp. by left.
    * apply (tracks_later _ _ _ _ He). exists j. split; [by exists c', r' | done].
  + right. exists (readBasePath p), (readLineRanges p), j, (readLineRanges p'). split_and!; [..|done|done].
    * apply list_elem_of_omap. exists m. split; [done|]. apply read_of_spec. split; [done|]. by exists p.
    * apply list_elem_of_omap.
      exists {| rm_index := j; rm_key := toolTargetKey c'; rm_call := c'; rm_message := r' |}.
      split; [by apply Hm|]. apply read_of_spec. split; [done|]. exists p'. by rewrite Hb.
Qed.

(** C25. The index of stale results is what staleness means: a result that did not fail is in it exactly when a later
    result that did not fail has its target, or it is a read and a later result edited its file under the
    path of the call or of the result, or a later read of the file has one range that strictly contains
    its own one. *)
Theorem stale_index_is_staleness entries i :
  i ∈ buildStalenessIndex entries <->
  exists c r, result_at (build_calls entries) entries i c r /\ tr_isError r = false
    /\ stale_in (build_calls entries) entries i c r.
Proof.
  unfold buildStalenessIndex. change (staleness_state entries) with (pass (build_calls entries) entries).
  pose proof (pass_is_ok (build_calls entries) entries) as Hok.
  rewrite elem_of_app, superseded_spec by
    (eapply omap_sorted; [|exact (ok_sorted _ _ _ Hok)]; by intros x y (_ & p & _ & ->)%read_of_spec).
  split; [by apply indexed_sound|]. intros (c & r & Hat & Herr & Hst). by eapply indexed_complete.
Qed.
