(* ===== verification/PruneCommit.v ===== *)
(** * What a plan prunes and what its commit does

    Every result of a plan may go; the commit of a plan saves exactly the tokens it announced; and a commit
    to entries that have changed since replaces exactly the results whose text is still the planned one. *)
From S2P Require Import Prelude.
From S2P Require Import Json.
From S2P Require Import JsFloat.
From S2P Require Import Compaction.
From S2P Require Import CompactionCut.
From S2P Require Import Prune.
From S2P Require Import PrunePlan.
From stdpp Require Import gmap.
#[local] Open Scope Z_scope.
#[local] Open Scope js_scope.

(** ** Lists *)

Lemma Forall2_flat_map {A B} (P Q : A -> B -> Prop) (f : B -> list B) l k :
  (forall i c c', P i c -> c' ∈ f c -> Q i c') -> (forall c, (length (f c) <= 1)%nat) ->
  Forall2 P l k -> exists l', l' `sublist_of` l /\ Forall2 Q l' (flat_map f k).
Proof.
  intros Hpq Hone. induction 1 as [|i c l k Hic _ (l' & Hsub & Hl')]; [by exists []|]. cbn. specialize (Hone c).
  specialize (Hpq i c). destruct (f c) as [|c' [|]]; cbn in Hone; [| |lia].
  - exists l'. split; [by apply sublist_cons | done].
  - exists (i :: l'). split; [by apply sublist_skip|]. constructor; [by apply Hpq; [|left] | done].
Qed.

Lemma last_is_elem {A} (l : list A) x : last l = Some x -> x ∈ l.
Proof. intros [l' ->]%last_Some. apply elem_of_app. right. by left. Qed.

Lemma last_all_equal {A} (l : list A) x : x ∈ l -> (forall y, y ∈ l -> y = x) -> last l = Some x.
Proof.
  intros Hx Hall. destruct (last l) as [y|] eqn:Hl; [|by apply last_None in Hl as ->; apply elem_of_nil in Hx].
  f_equal. apply Hall. by apply last_is_elem.
Qed.

Definition all_tokens (es : list SessionEntry) : Z := fold_right (fun e acc => estimateEntryTokens e + acc) 0 es.

Lemma total_eq es : estimateEntriesTokens es 0 (length es) = all_tokens es.
Proof. unfold estimateEntriesTokens. rewrite Nat.sub_0_r, drop_0, take_ge; done. Qed.

Lemma total_insert es i e e' :
  es !! i = Some e -> all_tokens (<[i := e']> es) = all_tokens es - estimateEntryTokens e + estimateEntryTokens e'.
Proof.
  revert i. induction es as [|x es IH]; intros [|i] Hi; try done.
  - injection Hi as ->. cbn. lia.
  - change (<[S i := e']> (x :: es)) with (x :: <[i := e']> es). cbn in Hi. cbn [all_tokens fold_right].
    fold (all_tokens (<[i := e']> es)). fold (all_tokens es). rewrite (IH i Hi). lia.
Qed.

Lemma entry_at_lookup es i e : es !! i = Some e -> entry_at es i = e.
Proof. unfold entry_at. intros H. by apply nth_lookup_Some. Qed.

Lemma lookup_entry_at es i : (i < length es)%nat -> es !! i = Some (entry_at es i).
Proof. intros H. destruct (lookup_lt_is_Some_2 es i H) as [e He]. by rewrite (entry_at_lookup es i e). Qed.

(** ** The candidates *)

(** The tokens of the tool results behind an entry. *)
Definition result_tokens (e : SessionEntry) : Z :=
  match getToolResultMessage e with Some _ => estimateEntryTokens e | None => 0 end.
Definition results_between (entries : list SessionEntry) (a b : nat) : Z :=
  fold_right (fun i acc => result_tokens (entry_at entries i) + acc) 0 (seq a (b - a)).
Definition results_after (entries : list SessionEntry) (i : nat) : Z := results_between entries (S i) (length entries).

Section commit.
Context `{PruneHost}.

(** The result of entry [i], as the candidate [c], may be replaced by the candidate's notice. *)
Record may_go (config : PruneConfig) (entries : list SessionEntry) (i : nat) (c : Candidate) : Prop := {
  go_bound : (i < length entries)%nat;
  go_result : getToolResultMessage (entry_at entries i) = Some (cd_message c);
  go_id : cd_entryId c = e_id (entry_at entries i);
  go_text : cd_originalText c = fst (extractToolOutputText (cd_message c));
  go_tokens : cd_tokens c = estimateEntryTokens (entry_at entries i);
  go_fresh : tr_prunedAt (cd_message c) = None;
  go_fence : inside_fence (recentTurnFenceStart entries (default 2 (protectRecentTurns config))) i = false;
  go_window : i ∈ buildStalenessIndex entries \/ protectTokens config <= results_after entries i;
  go_protected : tr_toolName (cd_message c) ∈ protectedTools config ->
    i ∈ buildStalenessIndex entries /\ tr_toolName (cd_message c) ∈ default [] (staleOverridableTools config);
  go_savings : cd_savings c = cd_tokens c - estimateTextTokensHeuristic [cd_notice c];
  go_pays : 0 < cd_savings c;
  go_shorter : tr_isError (cd_message c) = true -> zlen (cd_notice c) <= zlen (cd_originalText c);
  go_notice : exists t, cd_notice c = u "[Output truncated - " ++ t
}.

Lemma notice_shape tokens r call artifact :
  exists t, createPrunedNotice tokens r call artifact = u "[Output truncated - " ++ t.
Proof.
  unfold createPrunedNotice, createGenericPrunedNotice.
  destruct artifact as [[|]|], (truncateField _ _); rewrite <- ?app_assoc; eexists; reflexivity.
Qed.

Lemma pays_spec r text notice savings :
  notice_pays r text notice savings = true ->
  0 < savings /\ (tr_isError r = true -> zlen notice <= zlen text).
Proof.
  unfold notice_pays. intros [Hs%Z.ltb_lt Hn]%andb_true_iff. split; [done|]. intros Herr. rewrite Herr in Hn. cbn in Hn. lia.
Qed.

Lemma consider_may_go config entries i r c :
  let stale := buildStalenessIndex entries in
  let fence := recentTurnFenceStart entries (default 2 (protectRecentTurns config)) in
  (i < length entries)%nat -> getToolResultMessage (entry_at entries i) = Some r ->
  consider config (build_calls entries) stale fence (results_after entries i) i (entry_at entries i) r = Some c ->
  may_go config entries i c.
Proof.
  cbn zeta. intros Hi Hr. unfold consider. destruct (tr_prunedAt r) eqn:Hp; [done|]. cbn [orb].
  destruct (inside_fence _ i) eqn:Hf; [done|].
  destruct (_ || isProtected _ _ _) eqn:Hprot; [done|]. apply orb_false_iff in Hprot as [Hwin Hprot].
  unfold candidate_of. destruct (extractToolOutputText r) as [text complete] eqn:Htext. cbn [cd_originalText cd_notice cd_savings].
  set (notice := createPrunedNotice _ _ _ _). destruct (notice_pays _ _ _ _) eqn:Hpays; [|done]. intros [= <-].
  apply pays_spec in Hpays as [Hpos Hshort]. split; cbn; try done.
  - by rewrite Htext.
  - destruct (decide (i ∈ buildStalenessIndex entries)) as [? | Hn]; [by left|]. right.
    rewrite bool_decide_false in Hwin by done. cbn in Hwin. rewrite andb_true_r in Hwin. lia.
  - intros Hin. unfold isProtected in Hprot. rewrite bool_decide_true in Hprot by done. cbn [andb] in Hprot.
    apply negb_false_iff, andb_true_iff in Hprot as [H1%bool_decide_eq_true H2%bool_decide_eq_true]. done.
  - exact (notice_shape _ r (build_calls entries !! tr_callId r) None).
Qed.

(** The candidates with their indices, the newest first. *)
Lemma collect_spec config entries n :
  let stale := buildStalenessIndex entries in
  let fence := recentTurnFenceStart entries (default 2 (protectRecentTurns config)) in
  (n <= length entries)%nat ->
  exists idxs, Forall2 (may_go config entries) idxs
      (collect config (build_calls entries) stale fence entries n (results_between entries n (length entries)))
    /\ StronglySorted gt idxs /\ Forall (fun i => (i < n)%nat) idxs.
Proof.
  cbn zeta. induction n as [|n IH]; intros Hn; [exists []; by repeat constructor|]. cbn [collect].
  destruct IH as (idxs & Hall & Hs & Hlt); [lia|].
  assert (Hlt' : Forall (fun i => (i < S n)%nat) idxs) by (eapply Forall_impl; [exact Hlt | cbn; lia]).
  assert (Hnext : results_between entries n (length entries)
                  = results_between entries (S n) (length entries) + result_tokens (entry_at entries n)).
  { unfold results_between. replace (length entries - n)%nat with (S (length entries - S n)) by lia. cbn. lia. }
  unfold result_tokens in Hnext.
  destruct (getToolResultMessage (entry_at entries n)) as [r|] eqn:Hr.
  - rewrite <- Hnext. destruct (consider _ _ _ _ _ n _ r) as [c|] eqn:Hc; cbn [option_list app]; [|by exists idxs].
    exists (n :: idxs). split; [|split; [|by constructor; [lia|]]].
    + constructor; [|done]. by eapply consider_may_go.
    + constructor; [done|]. eapply Forall_impl; [exact Hlt | cbn; lia].
  - rewrite Z.add_0_r in Hnext. rewrite <- Hnext. by exists idxs.
Qed.

Lemma plan_candidate_may_go config entries budget i c c' :
  may_go config entries i c -> c' ∈ plan_candidate budget c -> may_go config entries i c'.
Proof.
  intros Hc. unfold plan_candidate. set (notice := createPrunedNotice _ _ _ _).
  destruct (notice_pays _ _ _ _) eqn:Hp; [|by intros ?%elem_of_nil]. intros ->%list_elem_of_singleton.
  apply pays_spec in Hp as [Hpos Hshort]. destruct Hc. split; cbn; try done.
  exact (notice_shape (cd_tokens c) (cd_message c) (cd_call c) (if cd_complete c then budget else None)).
Qed.

Lemma sublist_sorted (l l' : list nat) : l' `sublist_of` l -> StronglySorted gt l -> StronglySorted gt l'.
Proof.
  induction 1 as [|x l' l Hsub IH|x l' l Hsub IH]; [done|..]; intros [Hs Hall]%StronglySorted_inv; [|by apply IH].
  constructor; [by apply IH|]. rewrite Forall_forall in Hall |- *. intros y Hy. apply Hall. by eapply elem_of_sublist.
Qed.

(** What a plan plans. *)
Lemma plan_spec entries config o p :
  planToolOutputPrune entries config o = Ok p ->
  p = emptyToolOutputPrunePlan
  \/ exists planned idxs, Forall2 (may_go config entries) idxs planned /\ StronglySorted gt idxs
      /\ minimumSavings config o <= sum_savings planned /\ planned <> []
      /\ p = {| prunedCount := zlen planned; tokensSaved := sum_savings planned; digests := map digest_of planned;
                replacements := map replacement_of planned |}.
Proof.
  unfold planToolOutputPrune. cbn [collectToolOutputPruneCandidates]. unfold collectToolOutputPruneCandidates.
  destruct (collect_spec config entries (length entries) ltac:(lia)) as (idxs & Hall & Hs & _). cbn zeta in Hall.
  replace (results_between entries (length entries) (length entries)) with 0 in Hall
    by (unfold results_between; by rewrite Nat.sub_diag).
  set (cs := collect _ _ _ _ _ _ _) in *. clearbody cs.
  destruct (_ || _); [intros [= <-]; by left|]. unfold planToolOutputPruneCandidates.
  destruct (artifactRefMaxChars o) as [n|]; [|done]. cbn [mbind result_bind mret]. set (budget := if n >? 0 then Some (repeat 120 (Z.to_nat n)) else None).
  destruct (Forall2_flat_map (may_go config entries) (may_go config entries) (plan_candidate budget) idxs cs) as (idxs' & Hsub & Hall');
    [by intros; eapply plan_candidate_may_go | by intros c; unfold plan_candidate; case_match; cbn; lia | done |].
  set (planned := flat_map _ cs) in *. clearbody planned.
  destruct (Z.ltb_spec (sum_savings planned) (minimumSavings config o)); cbn [orb]; [intros [= <-]; by left|].
  destruct (Z.eqb_spec (zlen planned) 0) as [|Hne]; [intros [= <-]; by left|]. intros [= <-]. right.
  exists planned, idxs'. split; [done|]. split; [by eapply sublist_sorted|]. split; [done|]. split; [|done].
  by intros ->.
Qed.

(** C28. Whatever a plan prunes may go: each of its digests is of a tool result that was not pruned before, lies in
    front of the newest turns, is stale or has the protected number of result tokens behind it, belongs to a
    protected tool only when it is stale and the tool lets stale results go, and costs more than its notice,
    which for an error is not longer than the error; and the plan saves the minimum or is empty. *)
Theorem planned_results_may_go entries config o p :
  planToolOutputPrune entries config o = Ok p ->
  (digests p = [] /\ replacements p = [] /\ tokensSaved p = 0
   \/ digests p <> [] /\ 0 < tokensSaved p /\ minimumSavings config o <= tokensSaved p)
  /\ Forall2 (fun d rp => exists i c, may_go config entries i c /\ d = digest_of c /\ rp = replacement_of c)
      (digests p) (replacements p).
Proof.
  intros [-> | (planned & idxs & Hall & _ & Hmin & Hne & ->)]%plan_spec; cbn.
  { split; [by left | constructor]. }
  split.
  - right. split; [by destruct planned|]. split; [|done]. destruct Hall as [|i c idxs planned Hc Hall]; [done|].
    cbn. pose proof (go_pays _ _ _ _ Hc).
    assert (0 <= sum_savings planned); [|unfold sum_savings in *; lia]. clear -Hall.
    induction Hall as [|i c idxs planned Hc _ IH]; [done|]. cbn. pose proof (go_pays _ _ _ _ Hc).
    unfold sum_savings in *. lia.
  - clear -Hall. induction Hall as [|i c idxs planned Hc _ IH]; constructor; [|done]. by exists i, c.
Qed.

(** ** The commit of a plan to the entries it was made for *)

Lemma find_entry_unique es i e :
  NoDup (map e_id es) -> es !! i = Some e -> is_message e = true -> find_entry es (e_id e) = Some i.
Proof.
  intros Hnd Hi Hm. unfold find_entry. apply last_all_equal.
  - apply list_elem_of_In, filter_In. split; [apply in_seq; apply lookup_lt_Some in Hi; lia|].
    rewrite (entry_at_lookup _ _ _ Hi), Hm. by rewrite bool_decide_true.
  - intros j [Hj%in_seq Hb]%list_elem_of_In%filter_In. cbn in Hb. apply andb_true_iff in Hb as [_ Hid%bool_decide_eq_true].
    assert (Hj' : es !! j = Some (entry_at es j)) by (apply lookup_entry_at; lia).
    eapply (NoDup_lookup _ j i (e_id e) Hnd); rewrite list_lookup_fmap; [by rewrite Hj'; cbn; rewrite Hid | by rewrite Hi].
Qed.

Lemma find_proposal_unique n s planned c :
  NoDup (map cd_entryId planned) -> c ∈ planned ->
  find_proposal {| prunedCount := n; tokensSaved := s; digests := map digest_of planned;
                   replacements := map replacement_of planned |} (cd_entryId c) = Some (replacement_of c).
Proof.
  intros Hnd Hc. unfold find_proposal. cbn [replacements]. apply last_all_equal.
  - apply list_elem_of_In, filter_In. split; [apply in_map; by apply list_elem_of_In|]. cbn. by rewrite bool_decide_true.
  - intros y [(c' & <- & Hc')%in_map_iff Hid%bool_decide_eq_true]%list_elem_of_In%filter_In. cbn in Hid. f_equal.
    apply list_elem_of_In, list_elem_of_lookup in Hc' as [j Hj]. apply list_elem_of_lookup in Hc as [i Hi].
    assert (i = j) as ->; [|by congruence].
    eapply (NoDup_lookup _ i j (cd_entryId c) Hnd); rewrite list_lookup_fmap; [by rewrite Hi | rewrite Hj; cbn; congruence].
Qed.

(** The entry that the candidate's notice replaces. *)
Definition replaced (entries : list SessionEntry) (i : nat) (c : Candidate) (now : Z) : SessionEntry :=
  {| e_id := e_id (entry_at entries i);
     e_body := MessageEntry (ToolResultMsg (commit_result (cd_message c) (cd_notice c) now None)) |}.

Lemma result_is_message e r : getToolResultMessage e = Some r -> is_message e = true.
Proof. unfold getToolResultMessage, is_message. by destruct (e_body e). Qed.

Lemma replaced_tokens config entries i c now :
  may_go config entries i c ->
  estimateEntryTokens (replaced entries i c now) = estimateEntryTokens (entry_at entries i) - cd_savings c.
Proof.
  intros Hc. rewrite (go_savings _ _ _ _ Hc), (go_tokens _ _ _ _ Hc). destruct (go_notice _ _ _ _ Hc) as [t Ht].
  assert (Hnew : estimateEntryTokens (replaced entries i c now) = estimateTextTokensHeuristic [cd_notice c]); [|lia].
  unfold estimateEntryTokens, countCollectedMessageFragments, replaced. cbn [getMessageFromEntry e_body].
  cbn [collectMessageFragments tr_content commit_result nonempty_texts flat_map fst snd].
  destruct (cd_notice c) as [|x n] eqn:Hn; [by rewrite Ht in Hn|]. cbn [app].
  change (image_tokens [TextBlock (x :: n)]) with 0. lia.
Qed.

(** Committing the candidates one by one. *)
Lemma commit_planned config entries p now idxs cs es :
  NoDup (map e_id entries) -> Forall2 (may_go config entries) idxs cs -> NoDup idxs ->
  map e_id es = map e_id entries -> (forall i, i ∈ idxs -> es !! i = entries !! i) ->
  (forall c, c ∈ cs -> find_proposal p (cd_entryId c) = Some (replacement_of c)) ->
  exists es', commit_digests p [] now (map digest_of cs) es = Some (es', map (fun c => (cd_entryId c, committed)) cs)
    /\ length es' = length es /\ all_tokens es' = all_tokens es - sum_savings cs.
Proof.
  intros Hnd Hall. revert es. induction Hall as [|i c idxs cs Hc Hall IH]; intros es Hidx Hids Hsame Hprop.
  { exists es. cbn. split; [done|]. split; [done|]. lia. }
  apply NoDup_cons in Hidx as [Hi Hidx]. pose proof (go_bound _ _ _ _ Hc) as Hb.
  assert (Hes : es !! i = Some (entry_at entries i)) by (rewrite Hsame by left; by apply lookup_entry_at).
  pose proof (go_result _ _ _ _ Hc) as Hr.
  destruct (IH (<[i := replaced entries i c now]> es)) as (es' & Hcommit & Hlen & Htot).
  - done.
  - rewrite <- Hids. change (map e_id (<[i := replaced entries i c now]> es)) with (e_id <$> <[i := replaced entries i c now]> es).
    rewrite list_fmap_insert. apply list_insert_id. by rewrite list_lookup_fmap, Hes.
  - intros j Hj. rewrite list_lookup_insert_ne by (intros ->; done). apply Hsame. by right.
  - intros c' Hc'. apply Hprop. by right.
  - exists es'. split; [|split].
    + cbn [map commit_digests]. unfold commit_digest. cbn [digest_of digest_text dg_entryId dg_bytes dg_sha256].
      rewrite (go_id _ _ _ _ Hc). rewrite (find_entry_unique es i) by
        (by rewrite ?Hids || exact Hes || by eapply result_is_message).
      rewrite (entry_at_lookup _ _ _ Hes), Hr. cbn [mbind option_bind].
      rewrite (go_text _ _ _ _ Hc), Z.eqb_refl, bool_decide_true by done. cbn [negb orb].
      rewrite <- (go_id _ _ _ _ Hc), Hprop by left. cbn [find_override List.find fmap option_fmap option_map mbind option_bind default].
      change (rp_text (replacement_of c)) with (cd_notice c). unfold id. fold (replaced entries i c now) in *.
      unfold replaced in Hcommit. rewrite (go_id _ _ _ _ Hc). by rewrite Hcommit.
    + by rewrite Hlen, length_insert.
    + rewrite Htot, (total_insert _ _ _ _ Hes), (replaced_tokens config) by done. cbn. unfold sum_savings. lia.
Qed.

Lemma sorted_nodup (l : list nat) : StronglySorted gt l -> NoDup l.
Proof.
  induction 1 as [|x l _ IH Hall]; constructor; [|done]. intros Hx. rewrite Forall_forall in Hall.
  specialize (Hall x Hx). lia.
Qed.

Lemma candidate_ids config entries idxs cs :
  NoDup (map e_id entries) -> Forall2 (may_go config entries) idxs cs -> NoDup idxs -> NoDup (map cd_entryId cs).
Proof.
  intros Hnd Hall Hidx. induction Hall as [|i c idxs cs Hc Hall IH]; [constructor|].
  apply NoDup_cons in Hidx as [Hi Hidx]. constructor; [|by apply IH].
  intros (c' & Heq & (k & Hk)%list_elem_of_lookup)%list_elem_of_fmap. apply Hi.
  destruct (Forall2_lookup_r _ _ _ _ _ Hall Hk) as (j & Hj & Hc').
  assert (i = j) as ->; [|by eapply list_elem_of_lookup_2].
  rewrite (go_id _ _ _ _ Hc), (go_id _ _ _ _ Hc') in Heq.
  eapply (NoDup_lookup _ i j (e_id (entry_at entries i)) Hnd); rewrite list_lookup_fmap.
  - by rewrite (lookup_entry_at entries i (go_bound _ _ _ _ Hc)).
  - rewrite (lookup_entry_at entries j (go_bound _ _ _ _ Hc')). cbn. by rewrite Heq.
Qed.

(** A plan that is committed at once. *)
Lemma commit_at_once entries config o p now :
  NoDup (map e_id entries) -> planToolOutputPrune entries config o = Ok p ->
  exists entries' outcomes, commitToolOutputPrune entries p [] now = Some (entries', outcomes)
    /\ estimateEntriesTokens entries' 0 (length entries')
       = estimateEntriesTokens entries 0 (length entries) - tokensSaved p.
Proof.
  intros Hnd Hp. rewrite total_eq. unfold commitToolOutputPrune.
  apply plan_spec in Hp as [-> | (planned & idxs & Hall & Hs & _ & _ & ->)].
  { exists entries, []. rewrite total_eq. cbn. split_and!; [done..|lia]. }
  apply sorted_nodup in Hs. cbn [digests tokensSaved prunedCount].
  destruct (commit_planned config entries {| prunedCount := zlen planned; tokensSaved := sum_savings planned;
    digests := map digest_of planned; replacements := map replacement_of planned |} now idxs planned entries)
    as (es' & Hcommit & Hlen & Htot); try done.
  { intros c Hc. apply find_proposal_unique; [by eapply candidate_ids | done]. }
  eexists es', _. rewrite total_eq. by split.
Qed.

(** ** The commit to entries that may have changed *)

Lemma find_entry_spec es id i :
  find_entry es id = Some i -> (i < length es)%nat /\ e_id (entry_at es i) = id.
Proof.
  unfold find_entry. intros Hin%last_is_elem.
  apply list_elem_of_In, filter_In in Hin as [Hi%in_seq Hb]. cbn in Hb. apply andb_true_iff in Hb as [_ Hid%bool_decide_eq_true].
  split; [lia | done].
Qed.

(** ** What a commit does, for each digest and for each entry *)

(** The outcome that a digest must have, from the entries before the commit. *)
Definition judged (p : Plan) (entries : list SessionEntry) (d : Digest) (o : CommitOutcome) : Prop :=
  match o with
  | committed =>
      dg_entryId d ∈ map rp_entryId (replacements p) /\
      exists e r, e ∈ entries /\ e_id e = dg_entryId d /\ getToolResultMessage e = Some r
        /\ d = digest_text (e_id e) (fst (extractToolOutputText r))
  | mismatch _ =>
      exists e r, e ∈ entries /\ e_id e = dg_entryId d /\ getToolResultMessage e = Some r
        /\ d <> digest_text (e_id e) (fst (extractToolOutputText r))
  | unavailable _ =>
      (forall e, e ∈ entries -> is_message e = true -> e_id e <> dg_entryId d)
      \/ dg_entryId d ∉ map rp_entryId (replacements p)
  end.

(** What a commit makes of a tool result: the text that the caller put in place of the proposal, or else the one the
    plan proposed, and the handle of the evicted output. *)
Definition committed_by (p : Plan) (overrides : list (jstr * CommitReplacement)) (now : Z) (e e' : SessionEntry) : Prop :=
  exists r rp, getToolResultMessage e = Some r /\ rp ∈ replacements p /\ rp_entryId rp = e_id e /\
    let override := find_override overrides (e_id e) in
    e' = {| e_id := e_id e;
            e_body := MessageEntry (ToolResultMsg
              (commit_result r (default (rp_text rp) (override ≫= cr_text)) now (override ≫= cr_eviction))) |}.

Lemma find_proposal_some p id rp : find_proposal p id = Some rp -> rp ∈ replacements p /\ rp_entryId rp = id.
Proof.
  unfold find_proposal. intros Hx%last_is_elem%list_elem_of_In%filter_In. destruct Hx as [H1 H2%bool_decide_eq_true].
  split; [by apply list_elem_of_In | done].
Qed.
Lemma find_proposal_none p id : find_proposal p id = None -> id ∉ map rp_entryId (replacements p).
Proof.
  unfold find_proposal. intros Hx%last_None (rp & -> & Hrp)%list_elem_of_fmap. apply (in_nil (a := rp)). rewrite <- Hx.
  apply filter_In. split; [by apply list_elem_of_In | by apply bool_decide_eq_true].
Qed.
Lemma find_entry_none es id : find_entry es id = None -> forall e, e ∈ es -> is_message e = true -> e_id e <> id.
Proof.
  unfold find_entry. intros Hx%last_None e [i Hi]%list_elem_of_lookup Hm Hid. apply (in_nil (a := i)). rewrite <- Hx.
  apply filter_In. split; [apply in_seq; apply lookup_lt_Some in Hi; lia|].
  rewrite (entry_at_lookup _ _ _ Hi), Hm, Hid. by rewrite bool_decide_true.
Qed.

Lemma digest_eq d e r :
  e_id e = dg_entryId d ->
  negb (byte_length (fst (extractToolOutputText r)) =? dg_bytes d)
  || negb (sha256_hex (fst (extractToolOutputText r)) === dg_sha256 d) = false <->
  d = digest_text (e_id e) (fst (extractToolOutputText r)).
Proof.
  intros ->. rewrite orb_false_iff, !negb_false_iff, Z.eqb_eq, bool_decide_eq_true. destruct d as [id sha bytes].
  unfold digest_text. cbn. split; [by intros [<- <-] | by intros [= -> ->]].
Qed.

Lemma same_id es e e' : NoDup (map e_id es) -> e ∈ es -> e' ∈ es -> e_id e = e_id e' -> e = e'.
Proof.
  intros Hnd [i Hi]%list_elem_of_lookup [j Hj]%list_elem_of_lookup E.
  assert (i = j) as ->; [|congruence].
  eapply (NoDup_lookup (map e_id es) i j (e_id e) Hnd); rewrite list_lookup_fmap; [by rewrite Hi | rewrite Hj; cbn; congruence].
Qed.

(** One digest: its outcome, and the only entry it may change. *)
Lemma commit_digest_judged p overrides now es d es' o :
  commit_digest p overrides now es d = Some (es', o) ->
  judged p es d o /\
  (o <> committed /\ es' = es \/
   o = committed /\ exists i e e', es !! i = Some e /\ e_id e = dg_entryId d /\ es' = <[i := e']> es
     /\ committed_by p overrides now e e').
Proof.
  unfold commit_digest. destruct (find_entry es (dg_entryId d)) as [i|] eqn:Hi.
  2: { intros [= <- <-]. split; [left; by apply find_entry_none | by left]. }
  apply find_entry_spec in Hi as [Hb Hid]. pose proof (lookup_entry_at es i Hb) as He.
  set (e := entry_at es i) in *. clearbody e. assert (Hin : e ∈ es) by by eapply list_elem_of_lookup_2.
  destruct (getToolResultMessage e) as [r|] eqn:Hr; [|done]. cbn [mbind option_bind].
  pose proof (digest_eq d e r Hid) as Hd. destruct (negb _ || negb _).
  { intros [= <- <-]. split; [|by left]. exists e, r. split_and!; [done..|]. intros Hx%Hd. done. }
  destruct (find_proposal p (dg_entryId d)) as [rp|] eqn:Hrp.
  2: { intros [= <- <-]. split; [right; by apply find_proposal_none | by left]. }
  apply find_proposal_some in Hrp as [Hrp Hrid]. intros [= <- <-]. split.
  - split; [rewrite <- Hrid; by apply list_elem_of_fmap_2|]. exists e, r. split_and!; [done..|]. by apply Hd.
  - right. split; [done|]. eexists i, e, _. split_and!; [done|done|done|]. exists r, rp. by rewrite Hid.
Qed.

Lemma committed_by_id p overrides now e e' : committed_by p overrides now e e' -> e_id e' = e_id e.
Proof. by intros (r & rp & _ & _ & _ & ->). Qed.
Lemma committed_by_message p overrides now e e' : committed_by p overrides now e e' -> is_message e = true /\ is_message e' = true.
Proof. intros (r & rp & Hr & _ & _ & ->). split; [by eapply result_is_message | done]. Qed.

(** A change of another entry does not change what is judged. *)
Lemma judged_elsewhere p overrides now es i e e' d o :
  es !! i = Some e -> committed_by p overrides now e e' -> e_id e <> dg_entryId d ->
  judged p (<[i := e']> es) d o -> judged p es d o.
Proof.
  intros Hi Hc Hne. pose proof (committed_by_id _ _ _ _ _ Hc) as Hid.
  assert (Hto : forall x, x ∈ <[i := e']> es -> e_id x = dg_entryId d -> x ∈ es).
  { intros x (j & Hj)%list_elem_of_lookup Hx. destruct (decide (i = j)) as [->|Hij].
    - rewrite list_lookup_insert_eq in Hj by (by eapply lookup_lt_Some). injection Hj as <-. congruence.
    - rewrite list_lookup_insert_ne in Hj by done. by eapply list_elem_of_lookup_2. }
  destruct o as [|m|m]; cbn.
  - intros (H1 & x & r & H2 & H3 & H4). split; [done|]. exists x, r. auto.
  - intros (x & r & H2 & H3 & H4). exists x, r. auto.
  - intros [H1|H1]; [left|by right]. intros x (j & Hj)%list_elem_of_lookup Hm Hx.
    destruct (decide (i = j)) as [->|Hij]; [congruence|]. apply (H1 x); [|done|done].
    eapply (list_elem_of_lookup_2 _ j). by rewrite list_lookup_insert_ne.
Qed.

Lemma commit_digests_judged p overrides now ds es es' outs :
  NoDup (map e_id es) -> NoDup (map dg_entryId ds) -> commit_digests p overrides now ds es = Some (es', outs) ->
  Forall2 (fun d out => fst out = dg_entryId d /\ judged p es d (snd out)) ds outs /\
  Forall2 (fun e e' => (e' = e /\ (e_id e, committed) ∉ outs) \/ ((e_id e, committed) ∈ outs /\ committed_by p overrides now e e')) es es'.
Proof.
  revert es outs. induction ds as [|d ds IH]; intros es outs Hes Hds; cbn [commit_digests].
  { intros [= <- <-]. split; [constructor|]. apply Forall2_same_length_lookup_2; [done|]. intros i x y Hx Hy.
    left. split; [congruence|]. by intros ?%elem_of_nil. }
  cbn [map] in Hds. apply NoDup_cons in Hds as [Hd Hds].
  destruct (commit_digest _ _ _ _ d) as [[es1 o]|] eqn:Hone; [|done]. cbn [mbind option_bind].
  destruct (commit_digests _ _ _ ds es1) as [[es2 outs2]|] eqn:Hrest; [|done]. cbn. intros [= <- <-].
  apply commit_digest_judged in Hone as [Hj Hch].
  assert (Hlater : forall o, (dg_entryId d, o) ∉ outs2).
  { destruct (IH es1 outs2) as [Hf _]; [|done|done|].
    - destruct Hch as [[_ ->]|(_ & i & e & e' & Hi & _ & -> & Hc)]; [done|].
      change (map e_id (<[i := e']> es)) with (e_id <$> <[i := e']> es). rewrite list_fmap_insert, (committed_by_id _ _ _ _ _ Hc).
      rewrite list_insert_id; [done|]. by rewrite list_lookup_fmap, Hi.
    - intros o' Hin. apply Hd. apply list_elem_of_lookup in Hin as [k Hk].
      destruct (Forall2_lookup_r _ _ _ _ _ Hf Hk) as (d' & Hd' & Hid & _). cbn in Hid.
      apply list_elem_of_fmap. exists d'. split; [done | by eapply list_elem_of_lookup_2]. }
  destruct Hch as [[Hn ->]|(-> & i & e & e1 & Hi & Hid & -> & Hc)].
  - destruct (IH es outs2 Hes Hds Hrest) as [Hf Hg]. split; [by constructor|].
    eapply Forall2_impl; [exact Hg|]. cbn. intros x y [[-> Hx]|[Hx Hy]]; [left|right].
    + split; [done|]. intros [[= _ Ho]|Hx']%elem_of_cons; [by symmetry in Ho | done].
    + split; [by right | done].
  - assert (Hids : map e_id (<[i := e1]> es) = map e_id es).
    { change (map e_id (<[i := e1]> es)) with (e_id <$> <[i := e1]> es). rewrite list_fmap_insert, (committed_by_id _ _ _ _ _ Hc).
      apply list_insert_id. by rewrite list_lookup_fmap, Hi. }
    destruct (IH (<[i := e1]> es) outs2 ltac:(by rewrite Hids) Hds Hrest) as [Hf Hg]. split.
    + constructor; [by split|]. apply Forall2_same_length_lookup. apply Forall2_same_length_lookup in Hf as [Hl Hf].
      split; [done|]. intros k d' out Hk Hk'. destruct (Hf k d' out Hk Hk') as [H1 H2]. split; [done|].
      eapply judged_elsewhere; [exact Hi|exact Hc| |exact H2]. rewrite Hid. intros E. apply Hd. rewrite E.
      apply list_elem_of_fmap_2. by eapply list_elem_of_lookup_2.
    + apply Forall2_same_length_lookup. apply Forall2_same_length_lookup in Hg as [Hl Hg]. rewrite length_insert in Hl.
      split; [done|]. intros k x y Hx Hy. destruct (decide (i = k)) as [->|Hik].
      * assert (x = e) as -> by congruence. right. rewrite Hid. split; [by left|].
        specialize (Hg k e1 y). rewrite list_lookup_insert_eq in Hg by (by eapply lookup_lt_Some).
        destruct (Hg eq_refl Hy) as [[-> _]|[Hin _]]; [done|]. exfalso. apply (Hlater committed).
        by rewrite <- Hid, <- (committed_by_id _ _ _ _ _ Hc).
      * specialize (Hg k x y). rewrite list_lookup_insert_ne in Hg by done.
        destruct (Hg Hx Hy) as [[-> Hin]|[Hin Hcy]]; [left; split; [done|]|right; split; [by right|done]].
        intros [[= Heq]|Hin']%elem_of_cons; [|done]. apply Hik.
        eapply (NoDup_lookup (map e_id es) i k (e_id e) Hes); rewrite list_lookup_fmap; [by rewrite Hi | by rewrite Hx; cbn; congruence].
Qed.

Lemma plan_digest_ids entries config o p :
  NoDup (map e_id entries) -> planToolOutputPrune entries config o = Ok p ->
  forall d, d ∈ digests p -> dg_entryId d ∈ map rp_entryId (replacements p) /\
    exists e r, e ∈ entries /\ e_id e = dg_entryId d /\ getToolResultMessage e = Some r
      /\ d = digest_text (e_id e) (fst (extractToolOutputText r)).
Proof.
  intros Hnd [-> | (planned & idxs & Hall & _ & _ & _ & ->)]%plan_spec d; cbn; [by intros ?%elem_of_nil|].
  intros (c & -> & [k Hk]%list_elem_of_lookup)%list_elem_of_fmap.
  destruct (Forall2_lookup_r _ _ _ _ _ Hall Hk) as (i & _ & Hc). split.
  - cbn. apply list_elem_of_fmap. exists (replacement_of c). split; [done|]. apply list_elem_of_fmap_2. by eapply list_elem_of_lookup_2.
  - exists (entry_at entries i), (cd_message c). pose proof (go_bound _ _ _ _ Hc) as Hb. split_and!.
    + eapply list_elem_of_lookup_2. by apply lookup_entry_at.
    + by rewrite <- (go_id _ _ _ _ Hc).
    + apply (go_result _ _ _ _ Hc).
    + rewrite <- (go_id _ _ _ _ Hc), <- (go_text _ _ _ _ Hc). done.
Qed.

End commit.
