(* ===== verification/PruneArguments.v ===== *)
(** * Which arguments are pruned

    The pruning of assistant arguments takes the arguments of an edit only when every file of it was changed
    later by another edit that succeeded, and what it announces is what the entries lose. *)
From S2P Require Import Prelude.
From S2P Require Import Json.
From S2P Require Import JsFloat.
From S2P Require Import Compaction.
From S2P Require Import CompactionCut.
From S2P Require Import Prune.
From S2P Require Import PrunePlan.
From S2P Require Import PruneStale.
From S2P Require Import PruneCommit.
From stdpp Require Import gmap.
#[local] Open Scope Z_scope.
#[local] Open Scope js_scope.

(** ** Changes at positions *)

Lemma foldl_alter_lookup {A K} (f : K -> A -> A) (pos : K -> nat) ks (l : list A) i :
  NoDup (map pos ks) ->
  foldl (fun l k => alter (f k) (pos k) l) l ks !! i
  = match List.find (fun k => (pos k =? i)%nat) ks with Some k => f k <$> l !! i | None => l !! i end.
Proof.
  revert l. induction ks as [|k ks IH]; intros l Hnd; [done|]. cbn [map] in Hnd. apply NoDup_cons in Hnd as [Hk Hnd].
  cbn [foldl List.find]. rewrite IH by done. destruct (Nat.eqb_spec (pos k) i) as [<- | Hne].
  - destruct (List.find _ ks) as [k'|] eqn:Hf; [|by rewrite list_lookup_alter_eq].
    apply find_some in Hf as [Hin Heq%Nat.eqb_eq]. exfalso. apply Hk, list_elem_of_fmap. exists k'.
    split; [done|]. by apply list_elem_of_In.
  - destruct (List.find _ ks); by rewrite list_lookup_alter_ne.
Qed.

Lemma foldl_alter_length {A K} (f : K -> A -> A) (pos : K -> nat) ks (l : list A) :
  length (foldl (fun l k => alter (f k) (pos k) l) l ks) = length l.
Proof. revert l. induction ks as [|k ks IH]; intros l; [done|]. cbn. by rewrite IH, length_alter. Qed.

(** ** The pass over the results *)

Definition argument_pass (calls : CallMap) (es : list SessionEntry) : ArgumentStaleness :=
  foldl (fun st ie => argument_step calls st (fst ie) (snd ie))
    {| latestSuccessfulMutationByPathGroup := ∅; failedCallIds := ∅ |} (combine (seq 0 (length es)) es).

Lemma argument_pass_snoc calls es e :
  argument_pass calls (es ++ [e]) = argument_step calls (argument_pass calls es) (length es) e.
Proof. unfold argument_pass. by rewrite numbered_entry_snoc, foldl_app. Qed.

(** The result at [j] shows that the call with id [id] changed a group of files. *)
Definition mutated_at (calls : CallMap) (es : list SessionEntry) (key : jstr) (j : nat) (id : jstr) : Prop :=
  exists c r g, result_at calls es j c r /\ tc_id c = id /\ isEditToolCall c = true /\ tr_isError r = false
    /\ g ∈ succeeded_groups c r /\ pathGroupKey g = key.

(** A result shows that the edit failed, or changed none of its files. *)
Definition failed_at (calls : CallMap) (es : list SessionEntry) (id : jstr) : Prop :=
  exists j c r, result_at calls es j c r /\ tc_id c = id /\ isEditToolCall c = true /\ argument_groups c r <> []
    /\ (tr_isError r = true \/ succeeded_groups c r = []).

Definition argument_ok (calls : CallMap) (es : list SessionEntry) (st : ArgumentStaleness) : Prop :=
  (forall key j id, latestSuccessfulMutationByPathGroup st !! key = Some (j, id) -> mutated_at calls es key j id)
  /\ (forall id, failed_at calls es id -> id ∈ failedCallIds st).

Lemma mutated_at_snoc calls es e key j id : mutated_at calls es key j id -> mutated_at calls (es ++ [e]) key j id.
Proof.
  intros (c & r & g & Hat & Hrest). exists c, r, g. split; [|done]. apply result_at_snoc. by left.
Qed.

Lemma set_groups_spec (gs : list (list jstr)) (v : nat * jstr) (m : gmap jstr (nat * jstr)) key w :
  foldl (fun m g => <[pathGroupKey g := v]> m) m gs !! key = Some w ->
  m !! key = Some w \/ (w = v /\ exists g, g ∈ gs /\ pathGroupKey g = key).
Proof.
  revert m. induction gs as [|g gs IH]; intros m; [by left|]. cbn. intros [Hm | (-> & g' & Hg' & Hk)]%IH.
  - destruct (decide (pathGroupKey g = key)) as [<- | Hne].
    + rewrite lookup_insert_eq in Hm. injection Hm as <-. right. split; [done|]. exists g. split; [by left | done].
    + rewrite lookup_insert_ne in Hm by done. by left.
  - right. split; [done|]. exists g'. split; [by right | done].
Qed.

Lemma argument_step_ok calls es e st :
  argument_ok calls es st -> argument_ok calls (es ++ [e]) (argument_step calls st (length es) e).
Proof.
  intros [Hlatest Hfailed]. unfold argument_step.
  assert (Hold : forall key j id, latestSuccessfulMutationByPathGroup st !! key = Some (j, id) ->
    mutated_at calls (es ++ [e]) key j id) by (intros; by apply mutated_at_snoc, Hlatest).
  assert (Hsplit : forall id, failed_at calls (es ++ [e]) id ->
    failed_at calls es id \/ exists c r, getToolResultMessage e = Some r /\ calls !! tr_callId r = Some c /\ tc_id c = id
      /\ isEditToolCall c = true /\ argument_groups c r <> [] /\ (tr_isError r = true \/ succeeded_groups c r = [])).
  { intros id (j & c & r & [Hat | (-> & Hr & Hc)]%result_at_snoc & Hrest); [left; by exists j, c, r | right; by exists c, r]. }
  destruct (getToolResultMessage e) as [r|] eqn:Hr; cbn [mbind option_bind].
  2: { split; [done|]. intros id [? | (? & ? & ? & _)]%Hsplit; [by apply Hfailed | done]. }
  destruct (calls !! tr_callId r) as [c|] eqn:Hc; cbn [mbind option_bind].
  2: { split; [done|]. intros id [? | (? & ? & [= <-] & H & _)]%Hsplit; [by apply Hfailed | congruence]. }
  assert (Hsplit' : forall id, failed_at calls (es ++ [e]) id ->
    failed_at calls es id \/ (tc_id c = id /\ isEditToolCall c = true /\ argument_groups c r <> []
      /\ (tr_isError r = true \/ succeeded_groups c r = []))).
  { intros id [? | (c' & r' & [= <-] & H & Hrest)]%Hsplit; [by left|]. right. congruence || (rewrite Hc in H; injection H as <-; done). }
  clear Hsplit. destruct (isEditToolCall c) eqn:Hedit; cbn [negb].
  2: { split; [done|]. intros id [? | (_ & ? & _)]%Hsplit'; [by apply Hfailed | done]. }
  destruct (argument_groups c r) as [|g0 gs0] eqn:Hg.
  { split; [done|]. intros id [? | (_ & _ & ? & _)]%Hsplit'; [by apply Hfailed | done]. }
  assert (Hfail : argument_ok calls (es ++ [e]) {| latestSuccessfulMutationByPathGroup := latestSuccessfulMutationByPathGroup st;
    failedCallIds := {[ tc_id c ]} ∪ failedCallIds st |}).
  { split; [done|]. cbn. intros id [H | (<- & _)]%Hsplit'; apply elem_of_union; [right; by apply Hfailed | left; by apply elem_of_singleton]. }
  destruct (tr_isError r) eqn:Herr; [done|]. destruct (succeeded_groups c r) as [|g gs] eqn:Hsucc; [done|]. split; cbn.
  - intros key j id [H | (Heq & g' & Hg' & Hk)]%(set_groups_spec (g :: gs)); [by apply Hold|]. injection Heq as -> ->.
    exists c, r, g'. split; [apply result_at_snoc; by right|]. rewrite Hsucc. done.
  - intros id [H | (_ & _ & _ & [? | ?])]%Hsplit'; [by apply Hfailed | congruence | done].
Qed.

Lemma argument_pass_ok calls es : argument_ok calls es (argument_pass calls es).
Proof.
  induction es as [|e es IH] using rev_ind; [|rewrite argument_pass_snoc; by apply argument_step_ok].
  split; [done|]. by intros id (j & c & r & (e & He & _) & _).
Qed.

(** ** The candidates of an entry *)

Lemma numbered_elem {A} (l : list A) j x : (j, x) ∈ combine (seq 0 (length l)) l <-> l !! j = Some x.
Proof.
  assert (Hgen : forall a, (j, x) ∈ combine (seq a (length l)) l <-> (a <= j)%nat /\ l !! (j - a)%nat = Some x).
  { induction l as [|y l IH]; intros a; cbn [length seq combine].
    - rewrite elem_of_nil, lookup_nil. by split; [|intros [_ ?]].
    - rewrite elem_of_cons, IH. split.
      + intros [[= -> ->] | [Ha Hl]]; [rewrite Nat.sub_diag; split; [lia | done]|]. split; [lia|].
        by replace (j - a)%nat with (S (j - S a)) by lia.
      + intros [Ha Hl]. destruct (decide (j = a)) as [-> | Hne]; [rewrite Nat.sub_diag in Hl; left; by injection Hl as ->|].
        right. split; [lia|]. by replace (j - a)%nat with (S (j - S a)) in Hl by lia. }
  rewrite Hgen, Nat.sub_0_r. split; [by intros [_ ?] | split; [lia | done]].
Qed.

Lemma argument_candidate_block st w i j b c : argument_candidate st w i j b = Some c -> ac_block c = j.
Proof. unfold argument_candidate. destruct (call_of_block b) as [k|]; [|done]. destruct (_ || _); [done|]. by intros [= <-]. Qed.

Lemma entry_candidates_elem st w i bs c :
  c ∈ entry_candidates st w i bs <->
  exists b, bs !! ac_block c = Some b /\ argument_candidate st w i (ac_block c) b = Some c.
Proof.
  unfold entry_candidates. rewrite list_elem_of_omap. split.
  - intros ([j b] & Hj%numbered_elem & Hc). cbn in Hc. pose proof (argument_candidate_block _ _ _ _ _ _ Hc) as ->. by exists b.
  - intros (b & Hb & Hc). exists (ac_block c, b). split; [by apply numbered_elem | done].
Qed.

Lemma entry_candidates_nodup st w i bs : NoDup (map ac_block (entry_candidates st w i bs)).
Proof.
  unfold entry_candidates. generalize 0%nat. induction bs as [|b bs IH]; intros a; [constructor|].
  cbn [length seq combine omap list_omap fst snd].
  destruct (argument_candidate st w i a b) as [c|] eqn:Hc; [|apply IH]. cbn [map]. constructor; [|apply IH].
  rewrite (argument_candidate_block _ _ _ _ _ _ Hc). intros (c' & Hc' & ([j b'] & Hj & Hjb)%list_elem_of_omap)%list_elem_of_fmap.
  cbn in Hjb. apply argument_candidate_block in Hjb. apply list_elem_of_In, in_combine_l, in_seq in Hj. lia.
Qed.

(** ** The entries that are pruned *)

Definition assistant_tokens (fence : option nat) (entries : list SessionEntry) (i : nat) : Z :=
  if inside_fence fence i then 0
  else match e_body (entry_at entries i) with
       | MessageEntry (Assistant _ _ _) => estimateEntryTokens (entry_at entries i)
       | _ => 0
       end.

(** The tokens of the assistant messages behind an entry and in front of the fence. *)
Definition assistant_after (fence : option nat) (entries : list SessionEntry) (i : nat) : Z :=
  fold_right (fun j acc => assistant_tokens fence entries j + acc) 0 (seq (S i) (length entries - S i)).

Definition fence_of (config : PruneConfig) (entries : list SessionEntry) : option nat :=
  recentTurnFenceStart entries (default 2 (protectRecentTurns config)).

(** The group of an entry among what is collected. *)
Definition group_ok (config : PruneConfig) (st : ArgumentStaleness) (entries : list SessionEntry)
    (g : nat * list ArgumentCandidate) : Prop :=
  inside_fence (fence_of config entries) (fst g) = false
  /\ exists id bs us stop, entries !! fst g = Some {| e_id := id; e_body := MessageEntry (Assistant bs us stop) |}
     /\ snd g = entry_candidates st (assistant_after (fence_of config entries) entries (fst g) <? protectTokens config) (fst g) bs.

Lemma collect_arguments_spec config st entries n :
  (n <= length entries)%nat ->
  let gs := collect_arguments config st (fence_of config entries) entries n
    (fold_right (fun j acc => assistant_tokens (fence_of config entries) entries j + acc) 0 (seq n (length entries - n))) in
  Forall (group_ok config st entries) gs /\ StronglySorted gt (map fst gs) /\ Forall (fun g => (fst g < n)%nat) gs.
Proof.
  cbn zeta. induction n as [|n IH]; intros Hn; [by repeat constructor|]. cbn [collect_arguments].
  destruct IH as (Hall & Hs & Hlt); [lia|].
  assert (Hlt' : forall gs : list (nat * list ArgumentCandidate), Forall (fun g => (fst g < n)%nat) gs -> Forall (fun g => (fst g < S n)%nat) gs)
    by (intros gs H; eapply Forall_impl; [exact H | cbn; lia]).
  replace (length entries - n)%nat with (S (length entries - S n)) in * by lia. cbn [seq fold_right] in *.
  fold (assistant_after (fence_of config entries) entries n) in *.
  assert (Htok : assistant_tokens (fence_of config entries) entries n
    = if inside_fence (fence_of config entries) n then 0
      else match e_body (entry_at entries n) with
           | MessageEntry (Assistant _ _ _) => estimateEntryTokens (entry_at entries n) | _ => 0 end) by done.
  rewrite Htok in Hall, Hs, Hlt. clear Htok. destruct (inside_fence _ n) eqn:Hf; [rewrite Z.add_0_l in *; auto|].
  destruct (entry_at entries n) as [id body] eqn:He. cbn [e_body] in *.
  destruct body as [[| |bs us stop| | | | | |] | | | |]; rewrite ?Z.add_0_l in *; auto.
  rewrite Z.add_comm in Hall, Hs, Hlt.
  set (cs := entry_candidates _ _ n bs). destruct cs as [|c cs'] eqn:Hcs; cbn [app]; [auto|]. split; [|split; [|constructor; [cbn; lia | auto]]].
  - constructor; [|done]. split; [done|]. exists id, bs, us, stop. split; [|by rewrite <- Hcs].
    cbn. rewrite <- He. apply lookup_entry_at. lia.
  - cbn. constructor; [done|]. apply Forall_fmap. eapply Forall_impl; [exact Hlt|]. cbn. lia.
Qed.

Lemma sorted_filter_map {A} (p : A -> bool) (f : A -> nat) l :
  StronglySorted gt (map f l) -> StronglySorted gt (map f (List.filter p l)).
Proof.
  induction l as [|x l IH]; [done|]. cbn. intros [Hs Hall]%StronglySorted_inv. destruct (p x); [|by apply IH].
  cbn. constructor; [by apply IH|]. rewrite Forall_forall in Hall |- *. intros y (z & -> & [Hz _]%list_elem_of_In%filter_In)%list_elem_of_fmap.
  apply Hall, list_elem_of_fmap. exists z. split; [done|]. by apply list_elem_of_In.
Qed.

(** What the function returns. *)
Lemma prune_arguments_spec entries config now entries' count saved idxs :
  pruneAssistantToolArguments entries config now = (entries', count, saved, idxs) ->
  (entries' = entries /\ saved = 0 /\ idxs = [])
  \/ exists admitted, Forall (group_ok config (argument_pass (build_calls entries) entries) entries) admitted
       /\ NoDup (map fst admitted) /\ idxs = map fst admitted /\ idxs <> []
       /\ saved = fold_right (fun g acc => argument_savings entries now g + acc) 0 admitted
       /\ Forall (fun g => argument_savings entries now g <> 0) admitted
       /\ cfg_minimumSavings config <= saved
       /\ entries' = foldl (fun es g => alter (fun e => pruned_entry e (snd g) now) (fst g) es) entries admitted.
Proof.
  unfold pruneAssistantToolArguments. fold (fence_of config entries).
  change (buildAssistantArgumentStalenessIndex entries) with (argument_pass (build_calls entries) entries).
  set (st := argument_pass _ entries).
  pose proof (collect_arguments_spec config st entries (length entries) ltac:(lia)) as (Hall & Hs & _).
  rewrite Nat.sub_diag in Hall, Hs. cbn [seq fold_right] in Hall, Hs.
  set (groups := collect_arguments _ _ _ _ _ _) in *. clearbody groups.
  set (admitted := List.filter _ groups). set (s := fold_right _ 0 admitted).
  destruct (_ || _) eqn:Hmin; [intros [= <- _ <- <-]; by left|]. intros [= <- _ <- <-]. right. exists admitted.
  apply orb_false_iff in Hmin as [Hmin Hne]. split; [|split; [|split_and!; [done| |done| |lia|done] ] ].
  - rewrite Forall_forall in Hall |- *. intros g [Hg _]%list_elem_of_In%filter_In. by apply Hall, list_elem_of_In.
  - by apply sorted_nodup, sorted_filter_map.
  - intros Hnil%map_eq_nil. by rewrite Hnil in Hne.
  - apply Forall_forall. intros g [_ Hg]%list_elem_of_In%filter_In. cbn in Hg. lia.
Qed.

(** ** What happens to a block *)

(** The arguments of an edit that have gone stale: each of its groups of files was changed later by another edit. *)
Definition stale_edit (calls : CallMap) (entries : list SessionEntry) (i : nat) (c : ToolCall) : Prop :=
  isEditToolCall c = true /\ ~ failed_at calls entries (tc_id c) /\ editToolPathGroups c <> []
  /\ forall g, g ∈ editToolPathGroups c -> exists j id, (i < j)%nat /\ id <> tc_id c
       /\ mutated_at calls entries (pathGroupKey g) j id.

Definition block_pruned (calls : CallMap) (entries : list SessionEntry) (i : nat) (now : Z) (b b' : Block) : Prop :=
  b' = b \/ exists c k, call_of_block b = Some c /\ stale_edit calls entries i c
    /\ ac_pathHints k = pathHintsForGroups (editToolPathGroups c) /\ b' = with_arguments b (sentinel k now).

Lemma candidate_is_stale calls entries w i j b c :
  argument_candidate (argument_pass calls entries) w i j b = Some c ->
  w = false /\ exists k, call_of_block b = Some k /\ tc_id k = ac_id c /\ stale_edit calls entries i k
    /\ ac_pathHints c = pathHintsForGroups (editToolPathGroups k).
Proof.
  destruct (argument_pass_ok calls entries) as [Hlatest Hfailed]. unfold argument_candidate.
  destruct (call_of_block b) as [k|]; [|done]. destruct (_ || _) eqn:Hb; [done|]. intros [= <-].
  rewrite !orb_false_iff in Hb. destruct Hb as [[[[[[Hedit _] _] Hw] Hf] Hg] Hstale].
  apply negb_false_iff in Hedit, Hstale. apply bool_decide_eq_false in Hf. split; [done|]. exists k.
  split; [done|]. split; [done|]. split; [|done]. split; [done|]. split; [by intros H%Hfailed|].
  split; [by destruct (editToolPathGroups k)|]. intros g Hin. unfold stale_groups in Hstale.
  apply (forallb_elem _ _ g) in Hstale; [|done]. cbn beta in Hstale.
  destruct (latestSuccessfulMutationByPathGroup (argument_pass calls entries) !! pathGroupKey g) as [[j' id]|] eqn:Hl; [|done].
  apply andb_true_iff in Hstale as [Hij%Nat.ltb_lt Hid%negb_true_iff%bool_decide_eq_false].
  exists j', id. split; [done|]. split; [done|]. by apply Hlatest.
Qed.

Definition prune_blocks (cs : list ArgumentCandidate) (now : Z) (bs : list Block) : list Block :=
  foldl (fun bs c => alter (fun b => with_arguments b (sentinel c now)) (ac_block c) bs) bs cs.

Lemma prune_blocks_lookup cs now bs j :
  NoDup (map ac_block cs) ->
  prune_blocks cs now bs !! j
  = match List.find (fun c => (ac_block c =? j)%nat) cs with
    | Some c => (fun b => with_arguments b (sentinel c now)) <$> bs !! j
    | None => bs !! j
    end.
Proof. intros Hnd. unfold prune_blocks. by rewrite (foldl_alter_lookup (fun c b => with_arguments b (sentinel c now))). Qed.

Lemma prune_blocks_rel calls entries w i now bs :
  Forall2 (block_pruned calls entries i now) bs
    (prune_blocks (entry_candidates (argument_pass calls entries) w i bs) now bs).
Proof.
  set (cs := entry_candidates _ _ _ _). apply Forall2_same_length_lookup. split.
  { unfold prune_blocks. by rewrite (foldl_alter_length (fun c b => with_arguments b (sentinel c now))). }
  intros j b b' Hb. rewrite prune_blocks_lookup by apply entry_candidates_nodup. rewrite Hb.
  destruct (List.find _ cs) as [c|] eqn:Hf; cbn; intros [= <-]; [|by left]. right.
  apply find_some in Hf as [Hin%list_elem_of_In Hj%Nat.eqb_eq]. apply entry_candidates_elem in Hin as (b0 & Hb0 & Hc).
  rewrite Hj, Hb in Hb0. injection Hb0 as <-. apply candidate_is_stale in Hc as (_ & k & Hk & _ & Hst & Hh). by exists k, c.
Qed.

(** An entry that has candidates at all lies outside the protected window. *)
Lemma candidates_outside calls entries w i bs :
  entry_candidates (argument_pass calls entries) w i bs <> [] -> w = false.
Proof.
  destruct (entry_candidates _ _ _ _) as [|c cs] eqn:He; [done|]. intros _.
  assert (Hc : c ∈ entry_candidates (argument_pass calls entries) w i bs) by (rewrite He; by left).
  apply entry_candidates_elem in Hc as (b & _ & Hb). by apply candidate_is_stale in Hb as [-> _].
Qed.

Lemma find_group (gs : list (nat * list ArgumentCandidate)) i :
  match List.find (fun g => (fst g =? i)%nat) gs with
  | Some g => g ∈ gs /\ fst g = i
  | None => i ∉ map fst gs
  end.
Proof.
  destruct (List.find _ gs) as [g|] eqn:Hf.
  - apply find_some in Hf as [Hin%list_elem_of_In Heq%Nat.eqb_eq]. done.
  - intros (g & -> & Hg%list_elem_of_In)%list_elem_of_fmap. pose proof (find_none _ _ Hf g Hg) as Hn. cbn in Hn.
    by rewrite Nat.eqb_refl in Hn.
Qed.

(** C31. The pruning of arguments takes nothing that is still needed: an entry is as it was, or an assistant message in
    front of the newest turns with the protected number of assistant tokens behind it, of which only
    arguments have changed; and they are those of edits that did not fail and of which every group of files
    was changed by a later edit with another id that succeeded. *)
Theorem pruned_arguments_are_stale entries config now entries' count saved idxs :
  pruneAssistantToolArguments entries config now = (entries', count, saved, idxs) ->
  length entries' = length entries
  /\ forall i e e', entries !! i = Some e -> entries' !! i = Some e' ->
     e' = e \/ (i ∈ idxs /\ inside_fence (fence_of config entries) i = false
       /\ exists id bs bs' us stop, e = {| e_id := id; e_body := MessageEntry (Assistant bs us stop) |}
          /\ e' = {| e_id := id; e_body := MessageEntry (Assistant bs' us stop) |}
          /\ (bs' = bs \/ protectTokens config <= assistant_after (fence_of config entries) entries i)
          /\ Forall2 (block_pruned (build_calls entries) entries i now) bs bs').
Proof.
  intros [(-> & _ & ->) | (gs & Hall & Hnd & -> & _ & _ & _ & _ & ->)]%prune_arguments_spec.
  { split; [done|]. intros i e e' He He'. left. congruence. }
  split; [by rewrite (foldl_alter_length (fun g e => pruned_entry e (snd g) now))|].
  intros i e e' He. rewrite (foldl_alter_lookup (fun g e => pruned_entry e (snd g) now)), He by done.
  pose proof (find_group gs i) as Hf. destruct (List.find _ gs) as [g|]; cbn; intros [= <-]; [|by left].
  right. destruct Hf as [Hin <-]. rewrite Forall_forall in Hall. destruct (Hall g Hin) as (Hfence & id & bs & us & stop & Hg & Hcs).
  rewrite Hg in He. injection He as <-. split; [apply list_elem_of_fmap; by exists g|]. split; [done|].
  rewrite Hcs. eexists id, bs, _, us, stop. split; [done|]. split; [done|]. split; [|by apply prune_blocks_rel].
  fold (prune_blocks (entry_candidates (argument_pass (build_calls entries) entries)
    (assistant_after (fence_of config entries) entries (fst g) <? protectTokens config) (fst g) bs) now bs).
  destruct (entry_candidates _ _ _ bs) as [|c cs] eqn:Hne; [by left|]. right.
  assert (Hw := candidates_outside (build_calls entries) entries
    (assistant_after (fence_of config entries) entries (fst g) <? protectTokens config) (fst g) bs ltac:(by rewrite Hne)). lia.
Qed.

(** ** What is saved *)

Definition calls_unique (e : SessionEntry) : Prop := NoDup (map tc_id (entry_calls e)).

Lemma unique_block bs j j' b b' c c' :
  NoDup (map tc_id (omap call_of_block bs)) -> bs !! j = Some b -> bs !! j' = Some b' ->
  call_of_block b = Some c -> call_of_block b' = Some c' -> tc_id c = tc_id c' -> j = j'.
Proof.
  revert j j'. induction bs as [|x bs IH]; intros j j' Hnd Hj Hj' Hb Hb' Hid; [done|].
  assert (Hnotin : forall k cx bx cy, call_of_block x = Some cx -> bs !! k = Some bx -> call_of_block bx = Some cy ->
    tc_id cx = tc_id cy -> False).
  { intros k cx bx cy Hx Hk Hy Heq. cbn in Hnd. rewrite Hx in Hnd. cbn in Hnd. apply NoDup_cons in Hnd as [Hn _].
    apply Hn. rewrite Heq. apply list_elem_of_fmap. exists cy. split; [done|]. apply list_elem_of_omap. exists bx.
    split; [by eapply list_elem_of_lookup_2 | done]. }
  destruct j as [|j], j' as [|j']; cbn in Hj, Hj'; [done| | |].
  - exfalso. injection Hj as <-. by eapply Hnotin.
  - exfalso. injection Hj' as <-. eapply (Hnotin j c' b c); eauto.
  - f_equal. apply (IH j j'); try done. cbn in Hnd. destruct (call_of_block x); [|done]. cbn in Hnd. by apply NoDup_cons in Hnd as [_ ?].
Qed.

(** With one call per id, the staged entry is the entry that is written. *)
Lemma staged_is_pruned id bs us stop st w i now :
  NoDup (map tc_id (omap call_of_block bs)) ->
  let e := {| e_id := id; e_body := MessageEntry (Assistant bs us stop) |} in
  let cs := entry_candidates st w i bs in
  staged_entry e cs now = pruned_entry e cs now.
Proof.
  intros Hnd. cbn zeta. unfold staged_entry, pruned_entry, with_blocks. cbn [e_body e_id]. do 3 f_equal.
  set (cs := entry_candidates st w i bs). fold (prune_blocks cs now bs). apply list_eq. intros j.
  rewrite prune_blocks_lookup by apply entry_candidates_nodup. rewrite list_lookup_fmap.
  destruct (bs !! j) as [b|] eqn:Hj; [|by destruct (List.find _ cs)]. cbn [fmap option_fmap option_map].
  assert (Hat : forall c, c ∈ cs -> exists b' k, bs !! ac_block c = Some b' /\ call_of_block b' = Some k /\ tc_id k = ac_id c
    /\ argument_candidate st w i (ac_block c) b' = Some c).
  { intros c (b' & Hb' & Hc)%entry_candidates_elem. exists b'. unfold argument_candidate in Hc |- *.
    destruct (call_of_block b') as [k|]; [|done]. exists k. destruct (_ || _); [done|]. injection Hc as Heq.
    split; [done|]. split; [done|]. split; [by rewrite <- Heq | by rewrite Heq]. }
  destruct (List.find (fun c => (ac_block c =? j)%nat) cs) as [c|] eqn:Hf.
  - apply find_some in Hf as [Hin%list_elem_of_In Heq%Nat.eqb_eq]. pose proof (Hat c Hin) as (b' & k & Hb' & Hk & Hid & Hc).
    rewrite Heq, Hj in Hb'. injection Hb' as <-. destruct b as [| |cid name a wire|]; try done. cbn in Hk. injection Hk as <-.
    cbn in Hid. rewrite (last_all_equal _ c); [done|..].
    + apply list_elem_of_In, filter_In. split; [by apply list_elem_of_In | by rewrite bool_decide_true].
    + intros c' [Hin' Hid'%bool_decide_eq_true]%list_elem_of_In%filter_In. apply list_elem_of_In in Hin'.
      pose proof (Hat c' Hin') as (b' & k' & Hb' & Hk' & Hidk & Hc'). rewrite Heq in Hc.
      assert (ac_block c' = j) as Hjj by (eapply (unique_block bs); [done | exact Hb' | exact Hj | exact Hk' | done | cbn; congruence]).
      rewrite Hjj in Hb', Hc'. rewrite Hj in Hb'. injection Hb' as <-. congruence.
  - destruct b as [| |cid name a wire|]; try done. replace (last _) with (@None ArgumentCandidate); [done|]. symmetry.
    apply last_None. destruct (List.filter _ cs) as [|c rest] eqn:Hfil; [done|]. exfalso.
    assert (Hin : c ∈ List.filter (fun c => ac_id c === cid) cs) by (rewrite Hfil; by left).
    apply list_elem_of_In, filter_In in Hin as [Hin Hid%bool_decide_eq_true].
    pose proof (Hat c) as (b' & k & Hb' & Hk & Hidk & _); [by apply list_elem_of_In|].
    assert (ac_block c = j) as Hjj by (eapply (unique_block bs); [done | exact Hb' | exact Hj | exact Hk | done | cbn; congruence]).
    pose proof (find_none _ _ Hf c Hin) as Hn. cbn in Hn. by rewrite Hjj, Nat.eqb_refl in Hn.
Qed.

Lemma total_foldl_alter (f : nat * list ArgumentCandidate -> SessionEntry -> SessionEntry) gs es :
  NoDup (map fst gs) ->
  Forall (fun g => (fst g < length es)%nat) gs ->
  all_tokens (foldl (fun es g => alter (f g) (fst g) es) es gs)
  = all_tokens es - fold_right (fun g acc => estimateEntryTokens (entry_at es (fst g))
                                        - estimateEntryTokens (f g (entry_at es (fst g))) + acc) 0 gs.
Proof.
  revert es. induction gs as [|g gs IH]; intros es Hnd Hb; [cbn [foldl fold_right]; lia|]. cbn [map] in Hnd.
  apply NoDup_cons in Hnd as [Hg Hnd]. apply Forall_cons_1 in Hb as [Hlt Hb]. cbn [foldl fold_right].
  assert (Halter : alter (f g) (fst g) es = <[fst g := f g (entry_at es (fst g))]> es).
  { apply list_eq. intros i. destruct (decide (i = fst g)) as [-> | Hne].
    - rewrite list_lookup_alter_eq, list_lookup_insert_eq by done. by rewrite (lookup_entry_at es) by done.
    - by rewrite list_lookup_alter_ne, list_lookup_insert_ne. }
  rewrite IH; [|done | by rewrite length_alter].
  rewrite Halter at 1. rewrite (total_insert _ _ _ _ (lookup_entry_at es (fst g) Hlt)).
  assert (Hsame : fold_right (fun k acc => estimateEntryTokens (entry_at (alter (f g) (fst g) es) (fst k))
      - estimateEntryTokens (f k (entry_at (alter (f g) (fst g) es) (fst k))) + acc) 0 gs
    = fold_right (fun k acc => estimateEntryTokens (entry_at es (fst k))
      - estimateEntryTokens (f k (entry_at es (fst k))) + acc) 0 gs); [|rewrite Hsame; lia].
  clear IH Halter Hnd Hlt. revert Hg Hb. induction gs as [|k gs IH]; intros Hg Hb; [done|]. cbn [map] in Hg.
  apply not_elem_of_cons in Hg as [Hgk Hg]. apply Forall_cons_1 in Hb as [Hk Hb]. cbn. rewrite IH by done.
  assert (Hat : entry_at (alter (f g) (fst g) es) (fst k) = entry_at es (fst k)); [|by rewrite Hat].
  apply entry_at_lookup. rewrite list_lookup_alter_ne by done. by apply lookup_entry_at.
Qed.

(** The pruning of arguments saves what it says: when no message has two calls with one id, the estimate of the
    entries falls by exactly the tokens that are reported, and unless nothing is pruned they reach the
    minimum. *)
Theorem argument_savings_are_exact entries config now entries' count saved idxs :
  Forall calls_unique entries ->
  pruneAssistantToolArguments entries config now = (entries', count, saved, idxs) ->
  estimateEntriesTokens entries' 0 (length entries') = estimateEntriesTokens entries 0 (length entries) - saved
  /\ (idxs = [] /\ entries' = entries \/ idxs <> [] /\ cfg_minimumSavings config <= saved).
Proof.
  intros Huniq. rewrite !total_eq.
  intros [(-> & -> & ->) | (gs & Hall & Hnd & -> & Hne & -> & Hpos & Hmin & ->)]%prune_arguments_spec;
    [split; [lia | by left]|].
  split; [|by right]. rewrite (total_foldl_alter (fun g e => pruned_entry e (snd g) now)); [|done|].
  - f_equal. rewrite Forall_forall in Hall. rewrite Forall_forall in Hpos. rewrite Forall_forall in Huniq. clear Hnd Hne Hmin.
    induction gs as [|g gs IH]; [done|]. cbn. rewrite IH by (intros; first [apply Hall | apply Hpos]; by right). f_equal.
    specialize (Hpos g ltac:(left)). destruct (Hall g ltac:(left)) as (_ & id & bs & us & stop & Hg & Hcs).
    unfold argument_savings in Hpos |- *. rewrite (entry_at_lookup _ _ _ Hg), Hcs in Hpos |- *.
    rewrite staged_is_pruned in Hpos |- * by (apply (Huniq _ (list_elem_of_lookup_2 _ _ _ Hg))). lia.
  - apply Forall_forall. intros g Hg. rewrite Forall_forall in Hall.
    destruct (Hall g Hg) as (_ & id & bs & us & stop & Hl & _). by eapply lookup_lt_Some.
Qed.
