(* ===== verification/PruneDemo.v ===== *)
(** * Prunings of a small session

    The theorems about pruning at concrete sessions, and examples of targets, ranges and notices. *)
From S2P Require Import Prelude.
From S2P Require Import Json.
From S2P Require Import JsFloat.
From S2P Require Import Compaction.
From S2P Require Import CompactionDemo.
From S2P Require Import Prune.
From S2P Require Import PrunePlan.
From S2P Require Import PruneKeys.
From S2P Require Import PruneStale.
From S2P Require Import PruneCommit.
From S2P Require Import PruneArguments.
From stdpp Require Import gmap.
#[local] Open Scope Z_scope.
#[local] Open Scope js_scope.

#[export] Instance plain_host : PruneHost := {| stripANSI := fun s => s; sha256_hex := fun s => s |}.

Definition call (id name : jstr) (args : json) : ToolCall :=
  {| tc_id := id; tc_name := name; tc_args := args; tc_wire := None |}.
Definition at_path (p : jstr) : json := JObj [(u "path", JStr p)].
Definition calling (id : jstr) (c : ToolCall) : SessionEntry :=
  replied id [ToolCallBlock (tc_id c) (tc_name c) (tc_args c) (tc_wire c)].
Definition returning (id : jstr) (c : ToolCall) (t : jstr) : SessionEntry :=
  {| e_id := id;
     e_body := MessageEntry (ToolResultMsg
       {| tr_callId := tc_id c; tr_toolName := tc_name c; tr_content := Plain t; tr_details := JUndefined;
          tr_isError := false; tr_prunedAt := None |}) |}.

(** ** Targets *)

Example range_of_read :
  splitReadTarget (u "src/a.ts:L5-10") = (u "src/a.ts", Some (u "L5-10"))
  /\ readLineRanges (u "src/a.ts:L5-10") = [(5, 10)] /\ readLineRanges (u "src/a.ts:5+3,20-22") = [(5, 7); (20, 22)]
  /\ splitReadTarget (u "src/a.ts:raw:5-10") = (u "src/a.ts", Some (u "raw:5-10"))
  /\ readLineRanges (u "src/a.ts:raw:5-10") = [] /\ readBasePath (u "C:/x") = u "C:/x".
Proof. vm_compute. split_and!; reflexivity. Qed.

Example commands :
  is_idempotent (u "npm run test -- a") = true /\ is_idempotent (u "bun test") = true
  /\ is_idempotent (u "git status") = true /\ is_idempotent (u "npm run tests") = false.
Proof. vm_compute. split_and!; reflexivity. Qed.

Example patch_groups :
  editToolPathGroups (call [] (u "apply_patch") (JObj [(u "input",
    JStr (u "*** Update File: a.ts" ++ [10] ++ u "*** Move to: b.ts" ++ [13; 10] ++ u "*** Add File: c.ts"))]))
  = [[u "a.ts"; u "b.ts"]; [u "c.ts"]].
Proof. vm_compute. reflexivity. Qed.

(** One match is not counted, since the expression wants [matche] or [matches]. *)
Example one_match_is_lost :
  search (counted (u "matche")) (u "12 matches in 3 files") = Some (u "12")
  /\ search (counted (u "matche")) (u "1 match in 1 file") = None
  /\ search (counted (u "file")) (u "1 match in 1 file") = Some (u "1").
Proof. vm_compute. split_and!; reflexivity. Qed.

Definition read1 := call (u "r1") (u "read") (at_path (u "a.ts")).
Definition read2 := call (u "r2") (u "read") (at_path (u "a.ts")).

Lemma read1_json : from_json read1. Proof. by vm_compute. Qed.
Lemma read2_json : from_json read2. Proof. by vm_compute. Qed.
Definition read_key : jstr := stringify (JArr [JStr (u "read"); JStr (u "path"); JStr (u "a.ts")]).
Lemma read1_key : toolTargetKey read1 = Some read_key. Proof. by vm_compute. Qed.
Lemma read2_key : toolTargetKey read2 = Some read_key. Proof. by vm_compute. Qed.

Lemma target_keys_do_not_collide_witness :
  tc_name read1 = tc_name read2 /\ toolCallPath read1 = toolCallPath read2
  /\ (toolCallPath read1 = None -> normalizedIdempotentBashCommand read1 = normalizedIdempotentBashCommand read2)
  /\ target_tuple read1 = target_tuple read2.
Proof. exact (target_keys_do_not_collide read1 read2 read_key read1_json read2_json read1_key read2_key). Defined.

(** ** Two reads of one file *)

Definition reads : list SessionEntry :=
  [said (u "1") (u "look at a.ts"); calling (u "2") read1; returning (u "3") read1 (repeat 97 400);
   calling (u "4") read2; returning (u "5") read2 (repeat 98 400); said (u "6") (u "go on")].

Definition strict : PruneConfig :=
  {| protectTokens := 40; cfg_minimumSavings := 20; protectedTools := [u "read"]; protectRecentTurns := Some 1;
     staleOverridableTools := Some [u "read"] |}.
Definition no_relief : PruneToolOutputsOptions := {| relaxedMinimum := None; o_artifactRefMaxChars := None |}.

Definition read_plan : Plan :=
  match planToolOutputPrune reads strict no_relief with Ok p => p | Err _ => emptyToolOutputPrunePlan end.

Lemma reads_planned : planToolOutputPrune reads strict no_relief = Ok read_plan. Proof. by vm_compute. Qed.
Lemma reads_ids : NoDup (map e_id reads). Proof. apply (bool_decide_unpack _). by vm_compute. Qed.

(** The first read goes, the second one stays. *)
Lemma planned_results_may_go_witness :
  map dg_entryId (digests read_plan) = [u "3"] /\ buildStalenessIndex reads = [2%nat]
  /\ (digests read_plan = [] /\ replacements read_plan = [] /\ tokensSaved read_plan = 0
      \/ digests read_plan <> [] /\ 0 < tokensSaved read_plan /\ minimumSavings strict no_relief <= tokensSaved read_plan)
  /\ Forall2 (fun d rp => exists i c, may_go strict reads i c /\ d = digest_of c /\ rp = replacement_of c)
      (digests read_plan) (replacements read_plan).
Proof.
  split; [vm_compute; reflexivity|]. split; [vm_compute; reflexivity|].
  exact (planned_results_may_go reads strict no_relief read_plan reads_planned).
Defined.

(** The plan committed at once, and to the same entries with the first result changed since; the caller has a text of its
    own for the first. *)
Definition changed : list SessionEntry :=
  [said (u "1") (u "look at a.ts"); calling (u "2") read1; returning (u "3") read1 (repeat 99 400);
   calling (u "4") read2; returning (u "5") read2 (repeat 98 400); said (u "6") (u "go on")].
Definition own_text : list (jstr * CommitReplacement) :=
  [(u "3", {| cr_text := Some (u "see artifact 9"); cr_eviction := Some (JStr (u "artifact://9")) |})].

Lemma plan_digests : NoDup (map dg_entryId (digests read_plan)). Proof. apply (bool_decide_unpack _). by vm_compute. Qed.
Lemma changed_ids : NoDup (map e_id changed). Proof. apply (bool_decide_unpack _). by vm_compute. Qed.
Definition not_now : list (jstr * CommitOutcome) := [(u "3", mismatch (u "tool output changed before commit"))].
Lemma changed_committed : commitToolOutputPrune changed read_plan own_text 7 = Some (changed, not_now). Proof. by vm_compute. Qed.
Definition at_once := commitToolOutputPrune reads read_plan [] 7.
Definition at_once_entries : list SessionEntry := match at_once with Some (es, _) => es | None => [] end.
Definition at_once_outcomes : list (jstr * CommitOutcome) := match at_once with Some (_, outs) => outs | None => [] end.
Lemma committed_at_once : commitToolOutputPrune reads read_plan [] 7 = Some (at_once_entries, at_once_outcomes).
Proof. by vm_compute. Qed.
Example own_text_is_put_in_place :
  match commitToolOutputPrune reads read_plan own_text 7 with
  | Some (es, outs) => outs = [(u "3", committed)] /\ option_map (fun r => fst (extractToolOutputText r))
      (getToolResultMessage (entry_at es 2)) = Some (u "see artifact 9")
  | None => False
  end.
Proof. vm_compute. by split. Qed.


(** ** Two edits of one file *)

Definition long_edit (id : jstr) : ToolCall :=
  call id (u "edit") (JObj [(u "path", JStr (u "a.ts")); (u "new_text", JStr (repeat 97 800))]).
Definition edits : list SessionEntry :=
  [said (u "1") (u "change a.ts"); calling (u "2") (long_edit (u "e1")); returning (u "3") (long_edit (u "e1")) (u "ok");
   calling (u "4") (long_edit (u "e2")); returning (u "5") (long_edit (u "e2")) (u "ok"); said (u "6") (u "go on")].

Definition edited := pruneAssistantToolArguments edits strict 7.

Lemma four_parts {A B C D} (x : A * B * C * D) : x = (fst (fst (fst x)), snd (fst (fst x)), snd (fst x), snd x).
Proof. by destruct x as [[[]]]. Qed.

Lemma edited_eq : pruneAssistantToolArguments edits strict 7
  = (fst (fst (fst edited)), snd (fst (fst edited)), snd (fst edited), snd edited).
Proof. unfold edited. exact (four_parts (pruneAssistantToolArguments edits strict 7)). Qed.

Lemma pruned_arguments_are_stale_witness :
  snd edited = [1%nat]
  /\ length (fst (fst (fst edited))) = length edits
  /\ forall i e e', edits !! i = Some e -> fst (fst (fst edited)) !! i = Some e' ->
     e' = e \/ (i ∈ snd edited /\ inside_fence (fence_of strict edits) i = false
       /\ exists id bs bs' us stop, e = {| e_id := id; e_body := MessageEntry (Assistant bs us stop) |}
          /\ e' = {| e_id := id; e_body := MessageEntry (Assistant bs' us stop) |}
          /\ (bs' = bs \/ protectTokens strict <= assistant_after (fence_of strict edits) edits i)
          /\ Forall2 (block_pruned (build_calls edits) edits i 7) bs bs').
Proof.
  split; [vm_compute; reflexivity|].
  exact (pruned_arguments_are_stale edits strict 7 (fst (fst (fst edited))) (snd (fst (fst edited))) (snd (fst edited))
    (snd edited) edited_eq).
Defined.

Lemma edits_unique : Forall calls_unique edits.
Proof. repeat (constructor; [apply (bool_decide_unpack _); by vm_compute|]). constructor. Qed.

Lemma argument_savings_are_exact_witness :
  estimateEntriesTokens (fst (fst (fst edited))) 0 (length (fst (fst (fst edited))))
  = estimateEntriesTokens edits 0 (length edits) - snd (fst edited)
  /\ (snd edited = [] /\ fst (fst (fst edited)) = edits
      \/ snd edited <> [] /\ cfg_minimumSavings strict <= snd (fst edited)).
Proof.
  exact (argument_savings_are_exact edits strict 7 (fst (fst (fst edited))) (snd (fst (fst edited))) (snd (fst edited))
    (snd edited) edits_unique edited_eq).
Defined.
