(* ===== verification/RunLedger.v ===== *)
(** * The ledger of a run's resources

    packages/agent/src/run-resource-ledger.ts: which work of a run is still going on, when the run may be
    taken for settled, and who is told.  Promises settle, timers fire and callers call in any order: each is
    an operation on the ledger.  A domain, a claim key and a bridge are objects, of which only the identity
    matters. *)
From S2P Require Import Prelude.
#[local] Open Scope Z_scope.
#[local] Open Scope js_scope.

Definition MAX_TOMBSTONE_ENTRIES : nat := 256.

Inductive RunLifecycle := life_open | life_sealed | life_quarantined.
#[export] Instance RunLifecycle_eq : EqDecision RunLifecycle.
Proof. solve_decision. Defined.

Inductive RunResourceKind := provider_factory | provider_iterator | kind_tool | post_prompt.

Record RunResourceEntry := { en_id : jstr; en_kind : RunResourceKind; en_label : jstr; en_registeredAt : Z }.

Inductive RunSettlementReason := unknown_run | run_not_sealed | resources_pending | reason_quarantined.
Inductive RunSettlementProof := settled | unfenced (reason : RunSettlementReason) (pending : list RunResourceEntry).

(** A domain of the standalone bridge, or one that a bound bridge made. *)
Inductive Domain := standalone_domain (n : nat) | bound_domain (n : nat).
#[export] Instance Domain_eq : EqDecision Domain.
Proof. solve_decision. Defined.

Inductive Bridge := standaloneBridge | boundBridge (n : nat).

Record RunState := {
  lifecycle : RunLifecycle;
  domain : option Domain;
  domainBridge : Bridge;
  resources : list RunResourceEntry;
  tombstone : list RunResourceEntry;
  waiters : list nat;
  claimedOwners : list nat;
  released : bool
}.

(** What settles a resource: a promise of the caller, or the completion of a lease. *)
Inductive Source := promise | lease_completion (lease : nat).
Record Observer := { ob_run : jstr; ob_entry : jstr; ob_source : Source }.

Record Lease := { le_run : jstr; le_domain : Domain; le_closed : bool }.

Inductive Disposition := disposed_settled | disposed_quarantined.

(** What the ledger does to others: its calls to a bridge and the promises it resolves. *)
Inductive Event :=
| ev_abort (b : Bridge) (run : jstr)
| ev_release (b : Bridge) (run : jstr) (d : Disposition)
| ev_resolve (waiter : nat) (run : jstr) (proof : RunSettlementProof).

Record Ledger := {
  runs : gmap jstr RunState;
  standaloneDomains : gmap jstr (Domain * bool);
  standaloneReleased : gset jstr;
  standaloneQuarantined : gset jstr;
  bridge : option nat;
  agentSessionClaimKey : option nat;
  sequence : Z;
  leases : list Lease;
  observers : list Observer;
  nextWaiter : nat;
  nextDomain : nat;
  events : list Event
}.

Definition createRunResourceLedger : Ledger :=
  {| runs := ∅; standaloneDomains := ∅; standaloneReleased := ∅; standaloneQuarantined := ∅; bridge := None;
     agentSessionClaimKey := None; sequence := 0; leases := []; observers := []; nextWaiter := 0; nextDomain := 0;
     events := [] |}.

(** ** Updates *)

Definition with_runs (f : gmap jstr RunState -> gmap jstr RunState) (w : Ledger) : Ledger :=
  {| runs := f (runs w); standaloneDomains := standaloneDomains w; standaloneReleased := standaloneReleased w;
     standaloneQuarantined := standaloneQuarantined w; bridge := bridge w;
     agentSessionClaimKey := agentSessionClaimKey w; sequence := sequence w; leases := leases w;
     observers := observers w; nextWaiter := nextWaiter w; nextDomain := nextDomain w; events := events w |}.
Definition put (id : jstr) (st : RunState) : Ledger -> Ledger := with_runs (insert id st).

Definition emit (es : list Event) (w : Ledger) : Ledger :=
  {| runs := runs w; standaloneDomains := standaloneDomains w; standaloneReleased := standaloneReleased w;
     standaloneQuarantined := standaloneQuarantined w; bridge := bridge w;
     agentSessionClaimKey := agentSessionClaimKey w; sequence := sequence w; leases := leases w;
     observers := observers w; nextWaiter := nextWaiter w; nextDomain := nextDomain w; events := events w ++ es |}.

Definition with_standalone (ds : gmap jstr (Domain * bool)) (rel quar : gset jstr) (next : nat) (w : Ledger) : Ledger :=
  {| runs := runs w; standaloneDomains := ds; standaloneReleased := rel;
     standaloneQuarantined := quar; bridge := bridge w;
     agentSessionClaimKey := agentSessionClaimKey w; sequence := sequence w; leases := leases w;
     observers := observers w; nextWaiter := nextWaiter w; nextDomain := next; events := events w |}.

Definition with_bindings (b key : option nat) (w : Ledger) : Ledger :=
  {| runs := runs w; standaloneDomains := standaloneDomains w; standaloneReleased := standaloneReleased w;
     standaloneQuarantined := standaloneQuarantined w; bridge := b;
     agentSessionClaimKey := key; sequence := sequence w; leases := leases w;
     observers := observers w; nextWaiter := nextWaiter w; nextDomain := nextDomain w; events := events w |}.

Definition with_work (n : Z) (ls : list Lease) (obs : list Observer) (w : Ledger) : Ledger :=
  {| runs := runs w; standaloneDomains := standaloneDomains w; standaloneReleased := standaloneReleased w;
     standaloneQuarantined := standaloneQuarantined w; bridge := bridge w;
     agentSessionClaimKey := agentSessionClaimKey w; sequence := n; leases := ls;
     observers := obs; nextWaiter := nextWaiter w; nextDomain := nextDomain w; events := events w |}.

Definition new_waiter (w : Ledger) : Ledger :=
  {| runs := runs w; standaloneDomains := standaloneDomains w; standaloneReleased := standaloneReleased w;
     standaloneQuarantined := standaloneQuarantined w; bridge := bridge w;
     agentSessionClaimKey := agentSessionClaimKey w; sequence := sequence w; leases := leases w;
     observers := observers w; nextWaiter := S (nextWaiter w); nextDomain := nextDomain w; events := events w |}.

Definition set_resources (rs : list RunResourceEntry) (st : RunState) : RunState :=
  {| lifecycle := lifecycle st; domain := domain st; domainBridge := domainBridge st; resources := rs;
     tombstone := tombstone st; waiters := waiters st; claimedOwners := claimedOwners st; released := released st |}.
Definition set_tombstone (ts : list RunResourceEntry) (st : RunState) : RunState :=
  {| lifecycle := lifecycle st; domain := domain st; domainBridge := domainBridge st; resources := resources st;
     tombstone := ts; waiters := waiters st; claimedOwners := claimedOwners st; released := released st |}.
Definition set_waiters (ws : list nat) (st : RunState) : RunState :=
  {| lifecycle := lifecycle st; domain := domain st; domainBridge := domainBridge st; resources := resources st;
     tombstone := tombstone st; waiters := ws; claimedOwners := claimedOwners st; released := released st |}.
Definition set_lifecycle (l : RunLifecycle) (st : RunState) : RunState :=
  {| lifecycle := l; domain := domain st; domainBridge := domainBridge st; resources := resources st;
     tombstone := tombstone st; waiters := waiters st; claimedOwners := claimedOwners st; released := released st |}.
Definition set_released (st : RunState) : RunState :=
  {| lifecycle := lifecycle st; domain := None; domainBridge := domainBridge st; resources := resources st;
     tombstone := tombstone st; waiters := waiters st; claimedOwners := claimedOwners st; released := true |}.
Definition add_owner (k : nat) (st : RunState) : RunState :=
  {| lifecycle := lifecycle st; domain := domain st; domainBridge := domainBridge st; resources := resources st;
     tombstone := tombstone st; waiters := waiters st; claimedOwners := k :: claimedOwners st; released := released st |}.

(** ** The bridges *)

(** [standaloneBridge.open]; [None] is a refusal. *)
Definition standalone_open (id : jstr) (w : Ledger) : Ledger * option Domain :=
  if bool_decide (id ∈ standaloneQuarantined w) then (w, None)
  else
    match standaloneDomains w !! id with
    | Some (d, _) => (w, Some d)
    | None =>
        if bool_decide (id ∈ standaloneReleased w) then (w, None)
        else
          let d := standalone_domain (nextDomain w) in
          (with_standalone (<[id := (d, false)]> (standaloneDomains w)) (standaloneReleased w)
             (standaloneQuarantined w) (S (nextDomain w)) w, Some d)
    end.

Definition standalone_abort (id : jstr) (w : Ledger) : Ledger :=
  match standaloneDomains w !! id with
  | Some (d, _) =>
      with_standalone (<[id := (d, true)]> (standaloneDomains w)) (standaloneReleased w) (standaloneQuarantined w)
        (nextDomain w) w
  | None => w
  end.

Definition standalone_release (id : jstr) (disp : Disposition) (w : Ledger) : Ledger :=
  match standaloneDomains w !! id with
  | None => w
  | Some _ =>
      with_standalone (delete id (standaloneDomains w)) ({[ id ]} ∪ standaloneReleased w)
        (match disp with
         | disposed_quarantined => {[ id ]} ∪ standaloneQuarantined w
         | disposed_settled => standaloneQuarantined w
         end) (nextDomain w) w
  end.

Definition bridge_abort (b : Bridge) (id : jstr) (w : Ledger) : Ledger :=
  emit [ev_abort b id] (match b with standaloneBridge => standalone_abort id w | boundBridge _ => w end).
Definition bridge_release (b : Bridge) (id : jstr) (disp : Disposition) (w : Ledger) : Ledger :=
  emit [ev_release b id disp] (match b with standaloneBridge => standalone_release id disp w | boundBridge _ => w end).

(** ** Settlement *)

Definition snapshot (st : RunState) : list RunResourceEntry :=
  match lifecycle st with life_quarantined => tombstone st | _ => resources st end.

Definition settlementProof (st : RunState) : option RunSettlementProof :=
  match lifecycle st, resources st with
  | life_quarantined, _ => Some (unfenced reason_quarantined (tombstone st))
  | life_sealed, [] => Some settled
  | _, _ => None
  end.

Definition releaseIfSettled (id : jstr) (w : Ledger) : Ledger :=
  match runs w !! id with
  | Some st =>
      match released st, lifecycle st, resources st, domain st with
      | false, life_sealed, [], Some _ =>
          bridge_release (domainBridge st) id disposed_settled (put id (set_released st) w)
      | _, _, _, _ => w
      end
  | None => w
  end.

Definition notify (id : jstr) (w : Ledger) : Ledger :=
  match runs w !! id with
  | Some st =>
      releaseIfSettled id
        (match settlementProof st with
         | Some proof =>
             emit (map (fun k => ev_resolve k id proof) (waiters st)) (put id (set_waiters [] st) w)
         | None => w
         end)
  | None => w
  end.

Definition appendTombstone (e : RunResourceEntry) (ts : list RunResourceEntry) : list RunResourceEntry :=
  let ts' := ts ++ [e] in drop (length ts' - MAX_TOMBSTONE_ENTRIES) ts'.

Definition detached (st : RunState) : RunState :=
  set_resources [] (set_tombstone (foldl (fun ts e => appendTombstone e ts) [] (resources st))
    (set_lifecycle life_quarantined st)).

Definition quarantineState (id : jstr) (w : Ledger) : Ledger :=
  match runs w !! id with
  | None => w
  | Some st =>
      notify id
        (match lifecycle st with
         | life_quarantined => w
         | _ =>
             let st' := detached st in
             match domain st with
             | Some _ =>
                 let w' := bridge_abort (domainBridge st) id (put id st' w) in
                 if released st then put id (set_released st') w'
                 else bridge_release (domainBridge st) id disposed_quarantined (put id (set_released st') w')
             | None => put id st' w
             end
         end)
  end.

(** ** Registration *)

Definition register (id : jstr) (kind : RunResourceKind) (label : jstr) (src : Source) (now : Z) (w : Ledger)
    : Ledger * option jstr :=
  match runs w !! id with
  | None => (w, None)
  | Some st =>
      let n := sequence w + 1 in
      let entry := {| en_id := num_to_str n; en_kind := kind; en_label := label; en_registeredAt := now |} in
      match lifecycle st with
      | life_quarantined =>
          (put id (set_tombstone (appendTombstone entry (tombstone st)) st) (with_work n (leases w) (observers w) w), None)
      | _ =>
          (put id (set_resources (resources st ++ [entry]) st)
             (with_work n (leases w)
                (observers w ++ [{| ob_run := id; ob_entry := num_to_str n; ob_source := src |}]) w),
           Some (num_to_str n))
      end
  end.

(** [leaseFor]: the lease is the number of it in [leases]. *)
Definition leaseFor (id : jstr) (kind : RunResourceKind) (label : jstr) (now : Z) (w : Ledger) : Ledger * option nat :=
  match runs w !! id with
  | Some st =>
      match domain st with
      | None => (w, None)
      | Some d =>
          let n := length (leases w) in
          match register id kind label (lease_completion n) now w with
          | (w', None) => (w', None)
          | (w', Some _) =>
              (with_work (sequence w') (leases w' ++ [{| le_run := id; le_domain := d; le_closed := false |}])
                 (observers w') w', Some n)
          end
      end
  | None => (w, None)
  end.

(** ** The operations *)

Inductive Refusal := no_run | sealed_run | quarantined_run | domain_mismatch | already_claimed | handle_mismatch
  | closed_claim | parent_closed.

Definition lease_or (r : Refusal) (x : Ledger * option nat) : Ledger * result Refusal nat :=
  match x with (w, Some l) => (w, Ok l) | (w, None) => (w, Err r) end.

(** [false] is the throw on a second binding. *)
Definition bindCancellationDomainBridge (next : nat) (w : Ledger) : Ledger * bool :=
  match bridge w with
  | Some b => (w, bool_decide (b = next))
  | None => (with_bindings (Some next) (agentSessionClaimKey w) w, true)
  end.
Definition bindAgentSessionClaimKey (key : nat) (w : Ledger) : Ledger * bool :=
  match agentSessionClaimKey w with
  | Some k => (w, bool_decide (k = key))
  | None => (with_bindings (bridge w) (Some key) w, true)
  end.

Definition opened_run (d : Domain) (b : Bridge) : RunState :=
  {| lifecycle := life_open; domain := Some d; domainBridge := b; resources := []; tombstone := []; waiters := [];
     claimedOwners := []; released := false |}.

(** [open]; [answer] is what a bound bridge answers. *)
Definition open_run (id : jstr) (answer : option nat) (w : Ledger) : Ledger * option Domain :=
  match runs w !! id with
  | Some st => (w, match lifecycle st with life_open => domain st | _ => None end)
  | None =>
      let '(w', d) := match bridge w with
                      | Some _ => (w, bound_domain <$> answer)
                      | None => standalone_open id w
                      end in
      match d with
      | None => (w', None)
      | Some d => (put id (opened_run d (match bridge w with Some b => boundBridge b | None => standaloneBridge end)) w',
                   Some d)
      end
  end.

Definition lookupDomain (id : jstr) (w : Ledger) : option Domain := runs w !! id ≫= domain.

(** [expectedDomain && expectedDomain !== state.domain] *)
Definition other_domain (expected : option Domain) (st : RunState) : bool :=
  match expected with Some d => negb (bool_decide (Some d = domain st)) | None => false end.

Definition reserveProducer (id : jstr) (expected : option Domain) (kind : RunResourceKind) (label : jstr) (now : Z)
    (w : Ledger) : Ledger * result Refusal nat :=
  match runs w !! id with
  | None => (w, Err no_run)
  | Some st =>
      match lifecycle st with
      | life_quarantined => (w, Err quarantined_run)
      | life_sealed => (quarantineState id w, Err sealed_run)
      | life_open =>
          if other_domain expected st then (quarantineState id w, Err domain_mismatch)
          else lease_or quarantined_run (leaseFor id kind label now w)
      end
  end.

Definition claimProducer (id : jstr) (expected : option Domain) (ownerKey : nat) (now : Z) (w : Ledger)
    : Ledger * result Refusal nat :=
  if negb (bool_decide (agentSessionClaimKey w = Some ownerKey)) then (w, Err closed_claim)
  else
    match runs w !! id with
    | None => (w, Err handle_mismatch)
    | Some st =>
        match lifecycle st with
        | life_quarantined => (w, Err quarantined_run)
        | life_sealed => (quarantineState id w, Err closed_claim)
        | life_open =>
            if other_domain expected st then (quarantineState id w, Err domain_mismatch)
            else if bool_decide (ownerKey ∈ claimedOwners st) then (quarantineState id w, Err already_claimed)
            else lease_or quarantined_run
                   (leaseFor id post_prompt (u "agent-session") now (put id (add_owner ownerKey st) w))
        end
    end.

(** [track] of the ledger: the promise of an unknown run is not followed. *)
Definition track (id : jstr) (kind : RunResourceKind) (label : jstr) (now : Z) (w : Ledger) : Ledger :=
  fst (register id kind label promise now w).

Definition pending (id : jstr) (w : Ledger) : list RunResourceEntry :=
  match runs w !! id with Some st => snapshot st | None => [] end.

Definition seal (id : jstr) (w : Ledger) : Ledger :=
  match runs w !! id with
  | Some st => match lifecycle st with life_open => notify id (put id (set_lifecycle life_sealed st) w) | _ => w end
  | None => w
  end.

(** [waitForSettlement]: the number of the waiter whose promise is returned. *)
Definition waitForSettlement (id : jstr) (w : Ledger) : Ledger * nat :=
  let k := nextWaiter w in
  let w' := new_waiter w in
  match runs w !! id with
  | None => (emit [ev_resolve k id (unfenced unknown_run [])] w', k)
  | Some st =>
      match settlementProof st with
      | Some proof => (emit [ev_resolve k id proof] w', k)
      | None => (put id (set_waiters (waiters st ++ [k]) st) w', k)
      end
  end.

(** The timer of a waiter; it is cleared when the waiter is resolved. *)
Definition timeout (id : jstr) (k : nat) (w : Ledger) : Ledger :=
  match runs w !! id with
  | Some st =>
      if bool_decide (k ∈ waiters st) then
        let proof := default (unfenced (match lifecycle st with life_open => run_not_sealed | _ => resources_pending end)
                                (snapshot st)) (settlementProof st) in
        emit [ev_resolve k id proof] (put id (set_waiters (List.filter (fun j => negb (j =? k)%nat) (waiters st)) st) w)
      else w
  | None => w
  end.

Definition quarantine (id : jstr) (w : Ledger) : Ledger := quarantineState id w.

(** *** A lease *)

Definition lease_track (l : nat) (kind : RunResourceKind) (label : jstr) (now : Z) (w : Ledger) : Ledger * bool :=
  match leases w !! l with
  | None => (w, false)
  | Some le =>
      match runs w !! le_run le with
      | None => (w, false)
      | Some st =>
          if le_closed le || bool_decide (lifecycle st = life_quarantined) then (quarantineState (le_run le) w, false)
          else
            let '(w', e) := register (le_run le) kind label promise now w in
            (w', match e with Some _ => true | None => false end)
      end
  end.

Definition lease_fork (l : nat) (expected : Domain) (kind : RunResourceKind) (label : jstr) (now : Z) (w : Ledger)
    : Ledger * result Refusal nat :=
  match leases w !! l with
  | None => (w, Err parent_closed)
  | Some le =>
      match runs w !! le_run le with
      | None => (w, Err parent_closed)
      | Some st =>
          if negb (bool_decide (expected = le_domain le)) then (quarantineState (le_run le) w, Err domain_mismatch)
          else
            let wasQuarantined := bool_decide (lifecycle st = life_quarantined) in
            if le_closed le || wasQuarantined
            then (quarantineState (le_run le) w, Err (if wasQuarantined then quarantined_run else parent_closed))
            else lease_or quarantined_run (leaseFor (le_run le) kind label now w)
      end
  end.

Definition close_lease (le : Lease) : Lease := {| le_run := le_run le; le_domain := le_domain le; le_closed := true |}.
Definition closeDiscovery (l : nat) (w : Ledger) : Ledger :=
  with_work (sequence w) (alter close_lease l (leases w)) (observers w) w.

(** *** A promise settles *)

Definition completed (w : Ledger) (o : Observer) : bool :=
  match ob_source o with
  | promise => true
  | lease_completion l => match leases w !! l with Some le => le_closed le | None => false end
  end.

(** The callback of the observer at [i], once its promise has settled. *)
Definition observed (i : nat) (w : Ledger) : Ledger :=
  match observers w !! i with
  | None => w
  | Some o =>
      if completed w o then
        let w' := with_work (sequence w) (leases w) (delete i (observers w)) w in
        match runs w' !! ob_run o with
        | None => w'
        | Some st =>
            notify (ob_run o)
              (put (ob_run o) (set_resources (List.filter (fun e => negb (en_id e === ob_entry o)) (resources st)) st) w')
        end
      else w
  end.

(** ** Histories *)

Inductive Op :=
| op_bind_bridge (n : nat)
| op_bind_key (n : nat)
| op_open (id : jstr) (answer : option nat)
| op_reserve (id : jstr) (expected : option Domain) (kind : RunResourceKind) (label : jstr) (now : Z)
| op_claim (id : jstr) (expected : option Domain) (ownerKey : nat) (now : Z)
| op_track (id : jstr) (kind : RunResourceKind) (label : jstr) (now : Z)
| op_seal (id : jstr)
| op_wait (id : jstr)
| op_timeout (id : jstr) (k : nat)
| op_quarantine (id : jstr)
| op_lease_track (l : nat) (kind : RunResourceKind) (label : jstr) (now : Z)
| op_lease_fork (l : nat) (expected : Domain) (kind : RunResourceKind) (label : jstr) (now : Z)
| op_close (l : nat)
| op_observed (i : nat).

Definition exec (op : Op) (w : Ledger) : Ledger :=
  match op with
  | op_bind_bridge n => fst (bindCancellationDomainBridge n w)
  | op_bind_key n => fst (bindAgentSessionClaimKey n w)
  | op_open id answer => fst (open_run id answer w)
  | op_reserve id expected kind label now => fst (reserveProducer id expected kind label now w)
  | op_claim id expected k now => fst (claimProducer id expected k now w)
  | op_track id kind label now => track id kind label now w
  | op_seal id => seal id w
  | op_wait id => fst (waitForSettlement id w)
  | op_timeout id k => timeout id k w
  | op_quarantine id => quarantine id w
  | op_lease_track l kind label now => fst (lease_track l kind label now w)
  | op_lease_fork l expected kind label now => fst (lease_fork l expected kind label now w)
  | op_close l => closeDiscovery l w
  | op_observed i => observed i w
  end.

Definition history (ops : list Op) : Ledger := foldl (fun w op => exec op w) createRunResourceLedger ops.
