(* ===== verification/RunLedgerProofs.v ===== *)
(** * The invariants of the resource ledger

    Every operation changes at most one run; the changes are few, and each invariant is checked against
    them. *)
From S2P Require Import Prelude.
From S2P Require Import Json.
From S2P Require Import RunLedger.
#[local] Open Scope Z_scope.
#[local] Open Scope js_scope.

(** ** What the operations change *)

(** [notify] on the state of a run. *)
Definition released_by_notify (st : RunState) : bool :=
  negb (released st) && bool_decide (lifecycle st = life_sealed) && match resources st with [] => true | _ => false end
  && match domain st with Some _ => true | None => false end.
Definition notified (st : RunState) : RunState :=
  match settlementProof st with
  | Some _ => let st' := set_waiters [] st in if released_by_notify st then set_released st' else st'
  | None => st
  end.
Definition notify_events (id : jstr) (st : RunState) : list Event :=
  match settlementProof st with
  | Some proof =>
      map (fun k => ev_resolve k id proof) (waiters st)
      ++ if released_by_notify st then [ev_release (domainBridge st) id disposed_settled] else []
  | None => []
  end.

(** [quarantineState], without the notification. *)
Definition quarantined (st : RunState) : RunState :=
  match lifecycle st with
  | life_quarantined => st
  | _ => match domain st with Some _ => set_released (detached st) | None => detached st end
  end.
Definition quarantine_events (id : jstr) (st : RunState) : list Event :=
  match lifecycle st, domain st, released st with
  | life_quarantined, _, _ | _, None, _ => []
  | _, Some _, true => [ev_abort (domainBridge st) id]
  | _, Some _, false => [ev_abort (domainBridge st) id; ev_release (domainBridge st) id disposed_quarantined]
  end.

(** The fields apart from the runs and the events. *)
Definition rest (w : Ledger) : Z * list Lease * list Observer * nat := (sequence w, leases w, observers w, nextWaiter w).

(** [w'] is [w] with [st'] at [id] and the events [es]. *)
Record changes (w w' : Ledger) (id : jstr) (st' : RunState) (es : list Event) : Prop := {
  ch_runs : runs w' = <[id := st']> (runs w);
  ch_rest : rest w' = rest w;
  ch_events : events w' = events w ++ es
}.

Lemma abort_changes b id w : runs (bridge_abort b id w) = runs w /\ rest (bridge_abort b id w) = rest w
  /\ events (bridge_abort b id w) = events w ++ [ev_abort b id].
Proof. unfold bridge_abort, standalone_abort. destruct b; [destruct (standaloneDomains w !! id) as [[]|]|]; done. Qed.

Lemma release_changes b id d w : runs (bridge_release b id d w) = runs w /\ rest (bridge_release b id d w) = rest w
  /\ events (bridge_release b id d w) = events w ++ [ev_release b id d].
Proof. unfold bridge_release, standalone_release. destruct b; [destruct (standaloneDomains w !! id) as [[]|]|]; done. Qed.

Lemma notify_changes id st w :
  runs w !! id = Some st -> changes w (notify id w) id (notified st) (notify_events id st).
Proof.
  intros Hst. unfold notify, notified, notify_events. rewrite Hst.
  destruct (settlementProof st) as [proof|] eqn:Hp.
  - unfold releaseIfSettled. cbn [runs emit put with_runs]. rewrite lookup_insert_eq. unfold released_by_notify.
    cbn [released lifecycle resources domain set_waiters domainBridge].
    destruct (released st); cbn [negb andb]; [by split; cbn; rewrite ?app_nil_r|].
    destruct (lifecycle st) eqn:Hl; [by split; cbn; rewrite ?app_nil_r| |by split; cbn; rewrite ?app_nil_r].
    rewrite bool_decide_true by done. cbn [andb].
    destruct (resources st); [|by split; cbn; rewrite ?app_nil_r].
    destruct (domain st); [|by split; cbn; rewrite ?app_nil_r].
    match goal with |- context [bridge_release ?b ?i ?d ?x] => destruct (release_changes b i d x) as (Hr & Hs & He) end.
    split; [by rewrite Hr; cbn; rewrite insert_insert_eq | by rewrite Hs | by rewrite He; cbn; rewrite <- app_assoc].
  - unfold releaseIfSettled. rewrite Hst. unfold settlementProof in Hp.
    assert (Heq : (match released st, lifecycle st, resources st, domain st with
      | false, life_sealed, [], Some _ => bridge_release (domainBridge st) id disposed_settled (put id (set_released st) w)
      | _, _, _, _ => w end) = w) by (destruct (released st), (lifecycle st), (resources st), (domain st); done).
    rewrite Heq. split; [by rewrite insert_id | done | by rewrite app_nil_r].
Qed.

Lemma changes_trans w w' w'' id st st' es es' :
  changes w w' id st es -> changes w' w'' id st' es' -> changes w w'' id st' (es ++ es').
Proof.
  intros [H1 H2 H3] [H4 H5 H6]. split; [by rewrite H4, H1, insert_insert_eq | by rewrite H5 | by rewrite H6, H3, <- app_assoc].
Qed.

Lemma changes_lookup w w' id st es : changes w w' id st es -> runs w' !! id = Some st.
Proof. intros [H _ _]. by rewrite H, lookup_insert_eq. Qed.

Lemma put_changes id st w : changes w (put id st w) id st [].
Proof. split; [done|done|by rewrite app_nil_r]. Qed.

Lemma put_notify id st w : changes w (notify id (put id st w)) id (notified st) (notify_events id st).
Proof.
  replace (notify_events id st) with ([] ++ notify_events id st) by done.
  eapply changes_trans; [apply put_changes|]. apply notify_changes. apply lookup_insert_eq.
Qed.

Lemma quarantine_changes id st w :
  runs w !! id = Some st ->
  changes w (quarantineState id w) id (notified (quarantined st)) (quarantine_events id st ++ notify_events id (quarantined st)).
Proof.
  intros Hst. unfold quarantineState. rewrite Hst.
  assert (Hq : lifecycle st <> life_quarantined ->
    changes w (match domain st with
               | Some _ =>
                   let w' := bridge_abort (domainBridge st) id (put id (detached st) w) in
                   if released st then put id (set_released (detached st)) w'
                   else bridge_release (domainBridge st) id disposed_quarantined (put id (set_released (detached st)) w')
               | None => put id (detached st) w
               end) id (quarantined st) (quarantine_events id st)).
  { intros Hl. unfold quarantined, quarantine_events.
    pose proof (abort_changes (domainBridge st) id (put id (detached st) w)) as (Ha & Hb & Hc).
    destruct (domain st) as [d|]; [|destruct (lifecycle st); [apply put_changes | apply put_changes | done]].
    cbn zeta. generalize dependent (bridge_abort (domainBridge st) id (put id (detached st) w)). intros w1 Ha Hb Hc.
    assert (Hput : changes w (put id (set_released (detached st)) w1) id (set_released (detached st)) [ev_abort (domainBridge st) id]).
    { split; [cbn; rewrite Ha; cbn; by rewrite insert_insert_eq | done | cbn; by rewrite Hc]. }
    assert (Hrel : changes w (bridge_release (domainBridge st) id disposed_quarantined (put id (set_released (detached st)) w1)) id
      (set_released (detached st)) [ev_abort (domainBridge st) id; ev_release (domainBridge st) id disposed_quarantined]).
    { destruct (release_changes (domainBridge st) id disposed_quarantined (put id (set_released (detached st)) w1)) as (Hr & Hs & He).
      destruct Hput as [H1 H2 H3]. split; [by rewrite Hr | by rewrite Hs | by rewrite He, H3, <- app_assoc]. }
    destruct (lifecycle st), (released st); done. }
  destruct (lifecycle st) eqn:Hl.
  - eapply changes_trans; [by apply Hq|]. apply notify_changes. by eapply changes_lookup, Hq.
  - eapply changes_trans; [by apply Hq|]. apply notify_changes. by eapply changes_lookup, Hq.
  - assert (Heq : quarantined st = st) by (unfold quarantined; by rewrite Hl).
    assert (Hev : quarantine_events id st = []) by (unfold quarantine_events; by rewrite Hl).
    rewrite Heq, Hev. by apply notify_changes.
Qed.

(** ** Effects *)

(** What [w'] has instead of the fields of [w]. *)
Record becomes (w w' : Ledger) (rs : gmap jstr RunState) (n : Z) (ls : list Lease) (obs : list Observer) (k : nat)
    (es : list Event) : Prop := {
  be_runs : runs w' = rs;
  be_sequence : sequence w' = n;
  be_leases : leases w' = ls;
  be_observers : observers w' = obs;
  be_next : nextWaiter w' = k;
  be_events : events w' = events w ++ es
}.

Lemma changes_becomes w w' id st es :
  changes w w' id st es -> becomes w w' (<[id := st]> (runs w)) (sequence w) (leases w) (observers w) (nextWaiter w) es.
Proof. intros [H1 H2 H3]. unfold rest in H2. by simplify_eq. Qed.

(** The one change that an operation makes. *)
Inductive effect (w w' : Ledger) : Prop :=
| eff_none : becomes w w' (runs w) (sequence w) (leases w) (observers w) (nextWaiter w) [] -> effect w w'
| eff_open id d b :
    runs w !! id = None ->
    becomes w w' (<[id := opened_run d b]> (runs w)) (sequence w) (leases w) (observers w) (nextWaiter w) [] -> effect w w'
| eff_owner id st k :
    runs w !! id = Some st ->
    becomes w w' (<[id := add_owner k st]> (runs w)) (sequence w) (leases w) (observers w) (nextWaiter w) [] -> effect w w'
| eff_quarantine id st :
    runs w !! id = Some st ->
    becomes w w' (<[id := notified (quarantined st)]> (runs w)) (sequence w) (leases w) (observers w) (nextWaiter w)
      (quarantine_events id st ++ notify_events id (quarantined st)) -> effect w w'
| eff_seal id st :
    runs w !! id = Some st -> lifecycle st = life_open ->
    becomes w w' (<[id := notified (set_lifecycle life_sealed st)]> (runs w)) (sequence w) (leases w) (observers w)
      (nextWaiter w) (notify_events id (set_lifecycle life_sealed st)) -> effect w w'
| eff_tombstone id st e :
    runs w !! id = Some st -> lifecycle st = life_quarantined ->
    becomes w w' (<[id := set_tombstone (appendTombstone e (tombstone st)) st]> (runs w)) (sequence w + 1) (leases w)
      (observers w) (nextWaiter w) [] -> effect w w'
| eff_register id st st1 e src ls :
    runs w !! id = Some st -> lifecycle st <> life_quarantined -> (st1 = st \/ exists k, st1 = add_owner k st) ->
    en_id e = num_to_str (sequence w + 1) ->
    (src = promise /\ ls = []
     \/ exists d, src = lease_completion (length (leases w)) /\ domain st = Some d
          /\ ls = [{| le_run := id; le_domain := d; le_closed := false |}]) ->
    becomes w w' (<[id := set_resources (resources st ++ [e]) st1]> (runs w)) (sequence w + 1) (leases w ++ ls)
      (observers w ++ [{| ob_run := id; ob_entry := en_id e; ob_source := src |}]) (nextWaiter w) [] -> effect w w'
| eff_answer id proof :
    (runs w !! id = None /\ proof = unfenced unknown_run []
     \/ exists st, runs w !! id = Some st /\ settlementProof st = Some proof) ->
    becomes w w' (runs w) (sequence w) (leases w) (observers w) (S (nextWaiter w)) [ev_resolve (nextWaiter w) id proof] ->
    effect w w'
| eff_wait id st :
    runs w !! id = Some st -> settlementProof st = None ->
    becomes w w' (<[id := set_waiters (waiters st ++ [nextWaiter w]) st]> (runs w)) (sequence w) (leases w) (observers w)
      (S (nextWaiter w)) [] -> effect w w'
| eff_timeout id st k :
    runs w !! id = Some st -> k ∈ waiters st ->
    becomes w w' (<[id := set_waiters (List.filter (fun j => negb (j =? k)%nat) (waiters st)) st]> (runs w)) (sequence w)
      (leases w) (observers w) (nextWaiter w)
      [ev_resolve k id (default (unfenced (match lifecycle st with life_open => run_not_sealed | _ => resources_pending end)
                                   (snapshot st)) (settlementProof st))] -> effect w w'
| eff_close l :
    becomes w w' (runs w) (sequence w) (alter close_lease l (leases w)) (observers w) (nextWaiter w) [] -> effect w w'
| eff_observed i o st :
    observers w !! i = Some o -> completed w o = true -> runs w !! ob_run o = Some st ->
    becomes w w'
      (<[ob_run o := notified (set_resources (List.filter (fun e => negb (en_id e === ob_entry o)) (resources st)) st)]> (runs w))
      (sequence w) (leases w) (delete i (observers w)) (nextWaiter w)
      (notify_events (ob_run o) (set_resources (List.filter (fun e => negb (en_id e === ob_entry o)) (resources st)) st)) ->
    effect w w'
| eff_lost i o :
    observers w !! i = Some o -> runs w !! ob_run o = None ->
    becomes w w' (runs w) (sequence w) (leases w) (delete i (observers w)) (nextWaiter w) [] -> effect w w'.

Lemma becomes_same w : becomes w w (runs w) (sequence w) (leases w) (observers w) (nextWaiter w) [].
Proof. split; try done. by rewrite app_nil_r. Qed.

Lemma effect_same w : effect w w.
Proof. apply eff_none, becomes_same. Qed.

Lemma effect_quarantine id w : effect w (quarantineState id w).
Proof.
  destruct (runs w !! id) as [st|] eqn:Hst.
  - eapply eff_quarantine; [done|]. apply changes_becomes. by apply quarantine_changes.
  - unfold quarantineState. rewrite Hst. apply effect_same.
Qed.

Lemma effect_register id kind label now w : effect w (fst (register id kind label promise now w)).
Proof.
  unfold register. destruct (runs w !! id) as [st|] eqn:Hst; [|apply effect_same].
  assert (Hreg : lifecycle st <> life_quarantined -> effect w
    (put id (set_resources (resources st ++ [{| en_id := num_to_str (sequence w + 1); en_kind := kind; en_label := label; en_registeredAt := now |}]) st)
       (with_work (sequence w + 1) (leases w) (observers w ++ [{| ob_run := id; ob_entry := num_to_str (sequence w + 1); ob_source := promise |}]) w))).
  { intros Hl. eapply (eff_register w _ id st st
      {| en_id := num_to_str (sequence w + 1); en_kind := kind; en_label := label; en_registeredAt := now |} promise []);
      [done|done|by left|done|by left|].
    split; cbn; rewrite ?app_nil_r; done. }
  destruct (lifecycle st) eqn:Hl; cbn [fst]; [by apply Hreg | by apply Hreg|].
  eapply (eff_tombstone w _ id st); [done|done|]. split; cbn; rewrite ?app_nil_r; done.
Qed.

(** A lease for a run, of which only the owners may have changed before. *)
Lemma effect_lease id st st1 kind label now w (r : Refusal) :
  runs w !! id = Some st -> lifecycle st <> life_quarantined -> (st1 = st \/ exists k, st1 = add_owner k st) ->
  effect w (fst (lease_or r (leaseFor id kind label now (put id st1 w)))).
Proof.
  intros Hst Hl Hown. unfold leaseFor. cbn [runs put with_runs]. rewrite lookup_insert_eq.
  assert (Hd : domain st1 = domain st /\ resources st1 = resources st /\ lifecycle st1 = lifecycle st)
    by (destruct Hown as [-> | [k ->]]; done).
  destruct Hd as (Hd & Hr & Hl1). rewrite Hd. destruct (domain st) as [d|] eqn:Hdom.
  2: { cbn. destruct Hown as [-> | [k ->]].
       - apply eff_none. split; cbn; rewrite ?app_nil_r; try done. by rewrite insert_id.
       - eapply (eff_owner w _ id st k); [done|]. split; cbn; rewrite ?app_nil_r; done. }
  unfold register. cbn [runs put with_runs]. rewrite lookup_insert_eq, Hl1, Hr.
  assert (Hreg : effect w (fst (lease_or r
    (with_work (sequence w + 1) (leases w ++ [{| le_run := id; le_domain := d; le_closed := false |}])
       (observers w ++ [{| ob_run := id; ob_entry := num_to_str (sequence w + 1); ob_source := lease_completion (length (leases w)) |}])
       (put id (set_resources (resources st ++ [{| en_id := num_to_str (sequence w + 1); en_kind := kind; en_label := label; en_registeredAt := now |}]) st1)
          (with_work (sequence w + 1) (leases w)
             (observers w ++ [{| ob_run := id; ob_entry := num_to_str (sequence w + 1); ob_source := lease_completion (length (leases w)) |}])
             (put id st1 w))), Some (length (leases w)))))).
  { eapply (eff_register w _ id st st1 {| en_id := num_to_str (sequence w + 1); en_kind := kind; en_label := label; en_registeredAt := now |}
      (lease_completion (length (leases w))) _); [done|done|done|done|right; by exists d|].
    split; cbn; rewrite ?app_nil_r, ?insert_insert_eq; done. }
  destruct (lifecycle st); [exact Hreg | exact Hreg | done].
Qed.

Lemma put_id id st w : runs w !! id = Some st -> put id st w = w.
Proof. intros H. unfold put, with_runs. rewrite insert_id by done. by destruct w. Qed.

(** Every operation has one effect. *)
Lemma exec_effect op w : effect w (exec op w).
Proof.
  destruct op as [n|n|id answer|id expected kind label now|id expected k now|id kind label now|id|id|id k|id|l kind label now
    |l expected kind label now|l|i]; cbn [exec].
  - unfold bindCancellationDomainBridge. destruct (bridge w); apply eff_none; split; cbn; by rewrite ?app_nil_r.
  - unfold bindAgentSessionClaimKey. destruct (agentSessionClaimKey w); apply eff_none; split; cbn; by rewrite ?app_nil_r.
  - unfold open_run. destruct (runs w !! id) as [st|] eqn:Hst; [apply effect_same|].
    assert (Hs : forall w1 d, (bridge w = None /\ standalone_open id w = (w1, d) \/ w1 = w) ->
      becomes w w1 (runs w) (sequence w) (leases w) (observers w) (nextWaiter w) []).
    { intros w1 d [[_ Ho] | ->]; [|apply becomes_same]. unfold standalone_open in Ho.
      repeat (case_match; simplify_eq; try apply becomes_same). split; cbn; by rewrite ?app_nil_r. }
    destruct (bridge w) as [b|] eqn:Hb; [|destruct (standalone_open id w) as [w1 d] eqn:Ho].
    + destruct (bound_domain <$> answer) as [d|]; cbn [fst]; [|apply effect_same].
      apply (eff_open w _ id d (boundBridge b) Hst). split; cbn; by rewrite ?app_nil_r.
    + pose proof (Hs w1 d (or_introl (conj eq_refl eq_refl))) as [H1 H2 H3 H4 H5 H6].
      destruct d as [d|]; cbn [fst]; [|by apply eff_none].
      apply (eff_open w _ id d standaloneBridge Hst). split; cbn; try done. by rewrite H1.
  - unfold reserveProducer. destruct (runs w !! id) as [st|] eqn:Hst; [|apply effect_same].
    destruct (lifecycle st) eqn:Hl; [|apply effect_quarantine|apply effect_same].
    destruct (other_domain expected st); [apply effect_quarantine|].
    rewrite <- (put_id id st w Hst) at 2. apply (effect_lease id st); [done| by rewrite Hl | by left].
  - unfold claimProducer. destruct (negb _); [apply effect_same|].
    destruct (runs w !! id) as [st|] eqn:Hst; [|apply effect_same].
    destruct (lifecycle st) eqn:Hl; [|apply effect_quarantine|apply effect_same].
    destruct (other_domain expected st); [apply effect_quarantine|].
    destruct (bool_decide _); [apply effect_quarantine|].
    apply (effect_lease id st); [done| by rewrite Hl | right; by exists k].
  - apply effect_register.
  - unfold seal. destruct (runs w !! id) as [st|] eqn:Hst; [|apply effect_same].
    destruct (lifecycle st) eqn:Hl; [|apply effect_same|apply effect_same].
    eapply eff_seal; [done|done|]. apply changes_becomes, put_notify.
  - unfold waitForSettlement. destruct (runs w !! id) as [st|] eqn:Hst; cbn [fst].
    + destruct (settlementProof st) as [proof|] eqn:Hp; cbn [fst].
      * apply (eff_answer w _ id proof); [right; by exists st|]. by split.
      * apply (eff_wait w _ id st Hst Hp). split; cbn; by rewrite ?app_nil_r.
    + apply (eff_answer w _ id (unfenced unknown_run [])); [by left|]. by split.
  - unfold timeout. destruct (runs w !! id) as [st|] eqn:Hst; [|apply effect_same].
    destruct (bool_decide_reflect (k ∈ waiters st)); [|apply effect_same]. by eapply eff_timeout.
  - apply effect_quarantine.
  - unfold lease_track. destruct (leases w !! l) as [le|]; [|apply effect_same].
    destruct (runs w !! le_run le) as [st|]; [|apply effect_same].
    destruct (_ || _); [apply effect_quarantine|]. pose proof (effect_register (le_run le) kind label now w) as He.
    by destruct (register _ _ _ _ _ _).
  - unfold lease_fork. destruct (leases w !! l) as [le|]; [|apply effect_same].
    destruct (runs w !! le_run le) as [st|] eqn:Hst; [|apply effect_same].
    destruct (negb _); [apply effect_quarantine|]. destruct (_ || _) eqn:Hq; [apply effect_quarantine|].
    apply orb_false_iff in Hq as [_ Hq%bool_decide_eq_false].
    rewrite <- (put_id (le_run le) st w Hst) at 2. apply (effect_lease (le_run le) st); [done| done | by left].
  - apply (eff_close w _ l). split; cbn; by rewrite ?app_nil_r.
  - unfold observed. destruct (observers w !! i) as [o|] eqn:Ho; [|apply effect_same].
    destruct (completed w o) eqn:Hc; [|apply effect_same]. cbn [runs with_work].
    destruct (runs w !! ob_run o) as [st|] eqn:Hst.
    + eapply (eff_observed w _ i o st Ho Hc Hst). match goal with |- context [notify ?id (put ?id ?st ?w1)] => pose proof (put_notify id st w1) as Hn end.
      apply changes_becomes in Hn as [H1 H2 H3 H4 H5 H6]. split; done.
    + apply (eff_lost w _ i o Ho Hst). split; cbn; by rewrite ?app_nil_r.
Qed.

(** ** The state of a run *)

Record run_ok (st : RunState) : Prop := {
  ok_detached : lifecycle st = life_quarantined -> resources st = [];
  ok_proved : settlementProof st <> None -> waiters st = [] /\ domain st = None;
  ok_released : domain st = None <-> released st = true;
  ok_tombstone : (length (tombstone st) <= MAX_TOMBSTONE_ENTRIES)%nat
}.

(** What is left of it before a notification. *)
Record run_almost (st : RunState) : Prop := {
  al_detached : lifecycle st = life_quarantined -> resources st = [] /\ domain st = None;
  al_released : domain st = None <-> released st = true;
  al_tombstone : (length (tombstone st) <= MAX_TOMBSTONE_ENTRIES)%nat
}.

Lemma run_ok_almost st : run_ok st -> run_almost st.
Proof.
  intros [H1 H2 H3 H4]. split; [|done|done]. intros Hq. split; [by apply H1|]. apply H2. unfold settlementProof.
  by rewrite Hq.
Qed.

Lemma notified_fields st :
  lifecycle (notified st) = lifecycle st /\ resources (notified st) = resources st /\ tombstone (notified st) = tombstone st.
Proof. unfold notified. destruct (settlementProof st); [|done]. by destruct (released_by_notify st). Qed.

Lemma notified_ok st : run_almost st -> run_ok (notified st).
Proof.
  intros [H1 H2 H3]. destruct (notified_fields st) as (Hl & Hr & Ht).
  assert (Hp : settlementProof (notified st) = settlementProof st) by (unfold settlementProof; by rewrite Hl, Hr, Ht).
  split; [by rewrite Hl, Hr; intros [? _]%H1| | |by rewrite Ht]; [rewrite Hp|]; unfold notified; destruct (settlementProof st) eqn:Hs;
    try done.
  - intros _. unfold released_by_notify. destruct (released st) eqn:Hrel; cbn [negb andb].
    + split; [done|]. by apply H2.
    + destruct (bool_decide_reflect (lifecycle st = life_sealed)) as [Hsl | Hns]; cbn [andb].
      * unfold settlementProof in Hs. rewrite Hsl in Hs. destruct (resources st); [|done]. cbn [andb].
        destruct (domain st) eqn:Hd; [done|]. split; [done | exact Hd].
      * split; [done|]. unfold settlementProof in Hs. destruct (lifecycle st); [done|done|]. by apply H1.
  - destruct (released_by_notify st); [done | exact H2].
Qed.

Lemma append_tombstone_length e ts :
  (length ts <= MAX_TOMBSTONE_ENTRIES)%nat -> (length (appendTombstone e ts) <= MAX_TOMBSTONE_ENTRIES)%nat.
Proof. intros H. unfold appendTombstone. rewrite length_drop, length_app. cbn [length]. lia. Qed.

Lemma quarantined_almost st : run_ok st -> run_almost (quarantined st) /\ lifecycle (quarantined st) = life_quarantined.
Proof.
  intros Hok. pose proof (run_ok_almost st Hok) as Hal. unfold quarantined.
  assert (Hlen : forall rs ts, (length ts <= MAX_TOMBSTONE_ENTRIES)%nat ->
    (length (foldl (fun ts e => appendTombstone e ts) ts rs) <= MAX_TOMBSTONE_ENTRIES)%nat).
  { induction rs as [|e rs IH]; intros ts Hts; [done|]. cbn. by apply IH, append_tombstone_length. }
  assert (Hdet : domain st = None -> run_almost (detached st)).
  { intros Hd. split; cbn; [done | exact (ok_released _ Hok) | apply Hlen; cbn; unfold MAX_TOMBSTONE_ENTRIES; lia]. }
  assert (Hrel : run_almost (set_released (detached st))).
  { split; cbn; [done | done | apply Hlen; cbn; unfold MAX_TOMBSTONE_ENTRIES; lia]. }
  destruct (lifecycle st) eqn:Hl; [| |done]; (destruct (domain st) eqn:Hd; [done | split; [by apply Hdet | done]]).
Qed.

(** ** Work and observers *)

Record work_ok (w : Ledger) : Prop := {
  ok_runs : forall id st, runs w !! id = Some st -> run_ok st;
  ok_fresh : 0 <= sequence w /\ forall o, o ∈ observers w -> exists k, 0 < k <= sequence w /\ ob_entry o = num_to_str k;
  ok_distinct : NoDup (map ob_entry (observers w));
  ok_pending : forall o st, o ∈ observers w -> runs w !! ob_run o = Some st -> lifecycle st <> life_quarantined ->
    exists e, e ∈ resources st /\ en_id e = ob_entry o;
  ok_watched : forall id st e, runs w !! id = Some st -> e ∈ resources st ->
    exists o, o ∈ observers w /\ ob_run o = id /\ ob_entry o = en_id e;
  ok_leases : forall l le st, leases w !! l = Some le -> le_closed le = false -> runs w !! le_run le = Some st ->
    lifecycle st <> life_quarantined ->
    exists o, o ∈ observers w /\ ob_run o = le_run le /\ ob_source o = lease_completion l;
  ok_homes : (forall o, o ∈ observers w -> is_Some (runs w !! ob_run o))
    /\ (forall l le, leases w !! l = Some le -> is_Some (runs w !! le_run le))
}.

Lemma insert_some (m : gmap jstr RunState) i v x : is_Some (m !! x) -> is_Some (<[i := v]> m !! x).
Proof. intros H. apply lookup_insert_is_Some'. by right. Qed.

(** Invariants of the runs alone: an insertion preserves them when the run's state does. *)
Lemma work_insert w w' id st st' :
  work_ok w -> runs w !! id = Some st ->
  runs w' = <[id := st']> (runs w) -> sequence w' = sequence w -> leases w' = leases w -> observers w' = observers w ->
  run_ok st' -> (lifecycle st' = life_quarantined \/ lifecycle st <> life_quarantined /\ resources st' = resources st) ->
  work_ok w'.
Proof.
  intros [H1 H2 H3 H4 H5 H6 [H7 H8]] Hst Hr Hs Hl Ho Hok Hres.
  split; rewrite ?Hr, ?Hs, ?Hl, ?Ho; [|done|done|..|split; intros; apply insert_some; eauto].
  - intros id' x Hx. apply lookup_insert_Some in Hx as [[_ <-] | [_ Hx]]; [done | by eapply H1].
  - intros o x Hin Hx Hq. apply lookup_insert_Some in Hx as [[Hid <-] | [_ Hx]]; [|by eapply H4].
    destruct Hres as [? | [Hnq Hres]]; [done|]. rewrite Hres. apply (H4 o st Hin); [by rewrite <- Hid | done].
  - intros id' x e Hx He. apply lookup_insert_Some in Hx as [[<- <-] | [_ Hx]]; [|by eapply H5].
    destruct Hres as [Hq | [_ Hres]]; [by rewrite (ok_detached _ Hok Hq) in He; apply elem_of_nil in He|].
    rewrite Hres in He. by eapply H5.
  - intros l le x Hle Hc Hx Hq. apply lookup_insert_Some in Hx as [[Hid <-] | [_ Hx]]; [|by eapply H6].
    destruct Hres as [? | [Hnq Hres]]; [done|]. eapply (H6 l le st); [done|done|by rewrite <- Hid|done].
Qed.

Lemma work_insert_same w w' id st st' :
  work_ok w -> runs w !! id = Some st ->
  runs w' = <[id := st']> (runs w) -> sequence w' = sequence w -> leases w' = leases w -> observers w' = observers w ->
  run_ok st' -> lifecycle st' = lifecycle st -> resources st' = resources st -> work_ok w'.
Proof.
  intros Hw Hst Hr Hs Hl Ho Hok Hlf Hres. eapply work_insert; try done. rewrite Hlf.
  destruct (decide (lifecycle st = life_quarantined)); [by left | by right].
Qed.

Lemma owner_ok k st : run_ok st -> run_ok (add_owner k st).
Proof. by intros [H1 H2 H3 H4]. Qed.

Lemma resource_ok e st : lifecycle st <> life_quarantined -> run_ok st -> run_ok (set_resources (resources st ++ [e]) st).
Proof.
  intros Hq [H1 H2 H3 H4]. split; cbn; try done. unfold settlementProof. cbn.
  destruct (lifecycle st); [done| |done]. by destruct (resources st).
Qed.

Lemma work_register w w' id st st1 e src ls :
  work_ok w -> runs w !! id = Some st -> lifecycle st <> life_quarantined -> (st1 = st \/ exists k, st1 = add_owner k st) ->
  en_id e = num_to_str (sequence w + 1) ->
  (src = promise /\ ls = [] \/ exists d, src = lease_completion (length (leases w)) /\ domain st = Some d
     /\ ls = [{| le_run := id; le_domain := d; le_closed := false |}]) ->
  runs w' = <[id := set_resources (resources st ++ [e]) st1]> (runs w) -> sequence w' = sequence w + 1 ->
  leases w' = leases w ++ ls ->
  observers w' = observers w ++ [{| ob_run := id; ob_entry := en_id e; ob_source := src |}] -> work_ok w'.
Proof.
  intros [H1 H2 H3 H4 H5 H6 [H7 H8]] Hst Hq Hown He Hsrc Hr Hs Hl Ho.
  assert (Hst1 : run_ok st1 /\ lifecycle st1 = lifecycle st /\ resources st1 = resources st).
  { pose proof (H1 id st Hst). destruct Hown as [-> | [k ->]]; [done|]. split; [by apply owner_ok | done]. }
  destruct Hst1 as (Hok & Hlf & Hres). split; rewrite ?Hr, ?Hs, ?Hl, ?Ho.
  - intros id' x Hx. apply lookup_insert_Some in Hx as [[_ <-] | [_ Hx]]; [|by eapply H1].
    rewrite <- Hres. apply resource_ok; [by rewrite Hlf | done].
  - destruct H2 as [Hpos H2]. split; [lia|]. intros o [Hin | ->%list_elem_of_singleton]%elem_of_app.
    + destruct (H2 o Hin) as (k & Hk & Heq). exists k. split; [lia | done].
    + exists (sequence w + 1). split; [lia | done].
  - rewrite map_app. apply NoDup_app. split; [done|]. split; [|apply NoDup_singleton].
    intros x (o & -> & Hin)%list_elem_of_fmap Hx. apply list_elem_of_singleton in Hx. cbn in Hx.
    destruct (proj2 H2 o Hin) as (k & Hk & Heq). rewrite He, Heq in Hx. apply num_to_str_inj in Hx. lia.
  - intros o x Hin Hx Hnq. apply lookup_insert_Some in Hx as [[Hid <-] | [Hid Hx]].
    + cbn. apply elem_of_app in Hin as [Hin | ->%list_elem_of_singleton].
      * destruct (H4 o st Hin) as (e' & He' & Heq); [by rewrite <- Hid | done|]. exists e'. split; [|done]. apply elem_of_app. by left.
      * exists e. split; [|done]. apply elem_of_app. right. by left.
    + apply elem_of_app in Hin as [Hin | ->%list_elem_of_singleton]; [by eapply H4 | done].
  - intros id' x e' Hx He'. apply lookup_insert_Some in Hx as [[<- <-] | [Hid Hx]].
    + cbn in He'. apply elem_of_app in He' as [He' | ->%list_elem_of_singleton].
      * destruct (H5 id st e' Hst He') as (o & Hin & Heq). exists o. split; [apply elem_of_app; by left | done].
      * eexists. split; [apply elem_of_app; right; by left|]. done.
    + destruct (H5 id' x e' Hx He') as (o & Hin & Heq). exists o. split; [apply elem_of_app; by left | done].
  - intros l le x Hle Hc Hx Hnq. apply lookup_app_Some in Hle as [Hle | [Hlen Hle]].
    + assert (Hold : exists y, runs w !! le_run le = Some y /\ lifecycle y <> life_quarantined).
      { apply lookup_insert_Some in Hx as [[Hid _] | [_ Hx]]; [exists st; by rewrite <- Hid | by exists x]. }
      destruct Hold as (y & Hy & Hyq). destruct (H6 l le y Hle Hc Hy Hyq) as (o & Hin & Heq).
      exists o. split; [apply elem_of_app; by left | done].
    + destruct Hsrc as [[_ ->] | (d & -> & _ & ->)]; [done|].
      apply list_lookup_singleton_Some in Hle as [Hz <-]. eexists. split; [apply elem_of_app; right; by left|]. cbn.
      split; [done|]. f_equal. lia.
  - split.
    + intros o [Hin | ->%list_elem_of_singleton]%elem_of_app; [by apply insert_some, H7|]. cbn. rewrite lookup_insert_eq. eauto.
    + intros l le [Hle | [_ Hle]]%lookup_app_Some; [by eapply insert_some, H8|].
      destruct Hsrc as [[_ ->] | (d & _ & _ & ->)]; [done|]. apply list_lookup_singleton_Some in Hle as [_ <-]. cbn.
      rewrite lookup_insert_eq. eauto.
Qed.
