(* ===== verification/RunLedgerSafety.v ===== *)
(** * What the resource ledger promises

    A settled run has nothing left to settle, every wait is answered once, quarantine is final, and a run's
    domain is given back once. *)
From S2P Require Import Prelude.
From S2P Require Import Json.
From S2P Require Import RunLedger.
From S2P Require Import RunLedgerProofs.
#[local] Open Scope Z_scope.
#[local] Open Scope js_scope.

(** ** Work *)

Lemma delete_elem {A} (l : list A) i x : x ∈ delete i l -> x ∈ l.
Proof. intros H. eapply elem_of_sublist; [exact H | apply sublist_delete]. Qed.

Lemma delete_distinct {A B} (f : A -> B) l i o x :
  NoDup (map f l) -> l !! i = Some o -> x ∈ l -> x ∈ delete i l \/ x = o.
Proof.
  intros _ Hi Hx. apply list_elem_of_lookup in Hx as [j Hj]. destruct (decide (i = j)) as [<- | Hne].
  - right. congruence.
  - left. destruct (decide (j < i)%nat).
    + apply (list_elem_of_lookup_2 _ j). by rewrite list_lookup_delete_lt.
    + apply (list_elem_of_lookup_2 _ (j - 1)). rewrite list_lookup_delete_ge by lia. by replace (S (j - 1)) with j by lia.
Qed.

Lemma delete_other {A B} (f : A -> B) l i o x :
  NoDup (map f l) -> l !! i = Some o -> x ∈ delete i l -> f x <> f o.
Proof.
  intros Hnd Hi Hx Heq. apply list_elem_of_lookup in Hx as [j Hj].
  assert (Hk : exists k, l !! k = Some x /\ k <> i).
  { destruct (decide (j < i)%nat).
    - rewrite list_lookup_delete_lt in Hj by done. exists j. split; [done | lia].
    - rewrite list_lookup_delete_ge in Hj by lia. exists (S j). split; [done | lia]. }
  destruct Hk as (k & Hk & Hne). apply Hne. eapply (NoDup_lookup (map f l) k i (f o) Hnd); rewrite list_lookup_fmap.
  - by rewrite Hk; cbn; rewrite Heq.
  - by rewrite Hi.
Qed.

Lemma work_observed w w' i o :
  work_ok w -> observers w !! i = Some o -> completed w o = true ->
  sequence w' = sequence w -> leases w' = leases w -> observers w' = delete i (observers w) ->
  (runs w !! ob_run o = None /\ runs w' = runs w
   \/ exists st, runs w !! ob_run o = Some st
        /\ runs w' = <[ob_run o := notified (set_resources (List.filter (fun e => negb (en_id e === ob_entry o)) (resources st)) st)]> (runs w)) ->
  work_ok w'.
Proof.
  intros [H1 H2 H3 H4 H5 H6 [H7 H8]] Hi Hdone Hs Hl Ho Hruns.
  assert (Hold : forall id x, runs w' !! id = Some x -> exists y, runs w !! id = Some y /\ lifecycle x = lifecycle y
    /\ (forall e, e ∈ resources x <-> e ∈ resources y /\ (id = ob_run o -> en_id e <> ob_entry o)) /\ run_ok x).
  { intros id x Hx. destruct Hruns as [[Hnone Hr] | (st & Hst & Hr)]; rewrite Hr in Hx.
    - exists x. split; [done|]. split; [done|]. split; [|by eapply H1]. intros e. split; [|by intros [? _]].
      intros He. split; [done|]. intros ->. congruence.
    - apply lookup_insert_Some in Hx as [[<- <-] | [Hne Hx]].
      + exists st. set (st1 := set_resources _ st). destruct (notified_fields st1) as (Hlf & Hres & _).
        split; [done|]. split; [done|]. split.
        * intros e. rewrite Hres. cbn. rewrite list_elem_of_In, filter_In, <- list_elem_of_In.
          rewrite negb_true_iff, bool_decide_eq_false. split; [by intros [? ?] | intros [? Hne]; split; [done | by apply Hne]].
        * apply notified_ok. destruct (run_ok_almost st (H1 _ _ Hst)) as [A1 A2 A3]. split; [|done|done].
          intros Hq. destruct (A1 Hq) as [Hnil Hd]. cbn. by rewrite Hnil.
      + exists x. split; [done|]. split; [done|]. split; [|by eapply H1]. intros e. split; [|by intros [? _]].
        intros He. split; [done|]. by intros ->. }
  split; rewrite ?Hs, ?Hl, ?Ho.
  - intros id x Hx. by destruct (Hold id x Hx) as (y & _ & _ & _ & ?).
  - destruct H2 as [Hp H2]. split; [done|]. intros x Hx%delete_elem. by apply H2.
  - clear -H3. revert i. induction (observers w) as [|x l IH]; intros i; [by destruct i|]. cbn [map] in H3.
    apply NoDup_cons in H3 as [Hx Hn]. destruct i as [|i]; [done|]. cbn. constructor; [|by apply IH].
    intros (y & Hy & Hin%delete_elem)%list_elem_of_fmap. apply Hx. rewrite Hy. apply list_elem_of_fmap. by exists y.
  - intros x st Hin Hx Hq. destruct (Hold _ _ Hx) as (y & Hy & Hlf & Hres & _).
    destruct (H4 x y (delete_elem _ _ _ Hin) Hy) as (e & He & Heq); [by rewrite <- Hlf|]. exists e. split; [|done].
    apply Hres. split; [done|]. intros _. rewrite Heq. by eapply delete_other.
  - intros id x e Hx He. destruct (Hold _ _ Hx) as (y & Hy & _ & Hres & _). destruct (proj1 (Hres e) He) as [Hin0 Hne].
    destruct (H5 id y e Hy Hin0) as (o' & Hin & Hrun & Heq). exists o'. split; [|done].
    destruct (delete_distinct ob_entry _ _ _ o' H3 Hi Hin) as [? | ->]; [done|]. exfalso. by apply Hne.
  - intros l le st Hle Hc Hx Hq. destruct (Hold _ _ Hx) as (y & Hy & Hlf & _).
    destruct (H6 l le y Hle Hc Hy) as (o' & Hin & Hrun & Hsrc); [by rewrite <- Hlf|]. exists o'. split; [|done].
    destruct (delete_distinct ob_entry _ _ _ o' H3 Hi Hin) as [? | ->]; [done|]. exfalso.
    unfold completed in Hdone. rewrite Hsrc, Hle in Hdone. by rewrite Hc in Hdone.
  - assert (Hsome : forall x, is_Some (runs w !! x) -> is_Some (runs w' !! x)).
    { intros x Hx. destruct Hruns as [[_ ->] | (st & _ & ->)]; [done | by apply insert_some]. }
    split; [intros x Hin%delete_elem | intros l le Hle]; apply Hsome; [by apply H7 | by eapply H8].
Qed.

Lemma work_effect w w' : work_ok w -> effect w w' -> work_ok w'.
Proof.
  intros Hw He. destruct He as [[B1 B2 B3 B4 B5 B6]|id d b Hnone [B1 B2 B3 B4 B5 B6]|id st k Hst [B1 B2 B3 B4 B5 B6]
    |id st Hst [B1 B2 B3 B4 B5 B6]|id st Hst Hl [B1 B2 B3 B4 B5 B6]|id st e Hst Hl [B1 B2 B3 B4 B5 B6]
    |id st st1 e src ls Hst Hl Hown Hid Hsrc [B1 B2 B3 B4 B5 B6]|id proof _ [B1 B2 B3 B4 B5 B6]
    |id st Hst Hp [B1 B2 B3 B4 B5 B6]|id st k Hst Hk [B1 B2 B3 B4 B5 B6]|l [B1 B2 B3 B4 B5 B6]
    |i o st Ho Hc Hst [B1 B2 B3 B4 B5 B6]|i o Ho Hnone [B1 B2 B3 B4 B5 B6]].
  - destruct Hw. by split; rewrite ?B1, ?B2, ?B3, ?B4.
  - destruct Hw as [H1 H2 H3 H4 H5 H6 [H7 H8]]. split; rewrite ?B1, ?B2, ?B3, ?B4; try done.
    + intros id' x Hx. apply lookup_insert_Some in Hx as [[_ <-] | [_ Hx]]; [|by eapply H1].
      split; cbn; [done|done|done|lia].
    + intros o x Hin Hx Hq. apply lookup_insert_Some in Hx as [[Hid _] | [_ Hx]]; [|by eapply H4].
      destruct (H7 o Hin) as [y Hy]. congruence.
    + intros id' x e Hx He. apply lookup_insert_Some in Hx as [[_ <-] | [_ Hx]]; [by apply elem_of_nil in He | by eapply H5].
    + intros l le x Hle Hc Hx Hq. apply lookup_insert_Some in Hx as [[Hid _] | [_ Hx]]; [|by eapply H6].
      destruct (H8 l le Hle) as [y Hy]. congruence.
    + split; [intros o Ho | intros l le Hle]; apply insert_some; [by apply H7 | by eapply H8].
  - eapply (work_insert_same w w' id st); try done. by apply owner_ok, (ok_runs _ Hw id).
  - destruct (quarantined_almost st (ok_runs _ Hw id st Hst)) as [Hal Hq]. destruct (notified_fields (quarantined st)) as (Hlf & _).
    eapply (work_insert w w' id st); try done; [by apply notified_ok|]. left. by rewrite Hlf.
  - destruct (notified_fields (set_lifecycle life_sealed st)) as (Hlf & Hres & _).
    eapply (work_insert w w' id st); try done.
    + apply notified_ok. destruct (run_ok_almost st (ok_runs _ Hw id st Hst)) as [A1 A2 A3]. by split.
    + right. rewrite Hl. split; [done | exact Hres].
  - assert (Hok : run_ok (set_tombstone (appendTombstone e (tombstone st)) st)).
    { destruct (ok_runs _ Hw id st Hst) as [O1 O2 O3 O4]. split; [done| |done|by apply append_tombstone_length].
      intros _. apply O2. unfold settlementProof. by rewrite Hl. }
    destruct Hw as [H1 H2 H3 H4 H5 H6 H7].
    apply (work_insert (with_work (sequence w + 1) (leases w) (observers w) w) w' id st (set_tombstone (appendTombstone e (tombstone st)) st)); try done; [|by left].
    split; cbn; try done. destruct H2 as [Hp H2]. split; [lia|]. intros o Ho. destruct (H2 o Ho) as (k & Hk & Heq). exists k. split; [lia | done].
  - by eapply (work_register w w' id st st1 e src ls).
  - destruct Hw. by split; rewrite ?B1, ?B2, ?B3, ?B4.
  - eapply (work_insert_same w w' id st); try done. destruct (ok_runs _ Hw id st Hst) as [O1 O2 O3 O4].
    split; [done|by rewrite <- Hp at 1|done|done].
  - eapply (work_insert_same w w' id st); try done. destruct (ok_runs _ Hw id st Hst) as [O1 O2 O3 O4].
    split; [done| |done|done]. intros Hp. destruct (O2 Hp) as [Hnil Hd]. cbn. by rewrite Hnil.
  - destruct Hw as [H1 H2 H3 H4 H5 H6 [H7 H8]].
    assert (Hback : forall j le, alter close_lease l (leases w) !! j = Some le ->
      exists le0, leases w !! j = Some le0 /\ le_run le = le_run le0 /\ (le_closed le = false -> le = le0)).
    { intros j le Hj. destruct (decide (l = j)) as [-> | Hne].
      - rewrite list_lookup_alter_eq in Hj. destruct (leases w !! j) as [le0|]; [|done]. injection Hj as <-. by exists le0.
      - rewrite list_lookup_alter_ne in Hj by done. by exists le. }
    split; rewrite ?B1, ?B2, ?B3, ?B4; try done.
    + intros j le x Hj Hc Hx Hq. destruct (Hback j le Hj) as (le0 & Hle0 & _ & Heq). pose proof (Heq Hc) as <-. by eapply H6.
    + split; [done|]. intros j le Hj. destruct (Hback j le Hj) as (le0 & Hle0 & -> & _). by eapply H8.
  - eapply (work_observed w w' i o); try done. right. by exists st.
  - destruct Hw as [H1 H2 H3 H4 H5 H6 [H7 H8]]. destruct (H7 o) as [y Hy]; [by eapply list_elem_of_lookup_2|]. congruence.
Qed.

(** ** Waits *)

Definition resolution (e : Event) : option nat := match e with ev_resolve k _ _ => Some k | _ => None end.
Definition resolved (w : Ledger) : list nat := omap resolution (events w).

Record waits_ok (w : Ledger) : Prop := {
  wa_once : NoDup (resolved w);
  wa_known : forall k, k ∈ resolved w -> (k < nextWaiter w)%nat;
  wa_open : forall id st k, runs w !! id = Some st -> k ∈ waiters st -> (k < nextWaiter w)%nat /\ k ∉ resolved w;
  wa_distinct : forall id st, runs w !! id = Some st -> NoDup (waiters st);
  wa_apart : forall id id' st st' k, runs w !! id = Some st -> runs w !! id' = Some st' -> k ∈ waiters st ->
    k ∈ waiters st' -> id = id';
  wa_all : forall k, (k < nextWaiter w)%nat -> k ∈ resolved w \/ exists id st, runs w !! id = Some st /\ k ∈ waiters st
}.

(** The waiters of one run, and maybe a new one, are shared out between the run and the answers. *)
Lemma waits_change w w' id st st' new es :
  waits_ok w -> runs w !! id = Some st -> runs w' = <[id := st']> (runs w) ->
  new = [] \/ new = [nextWaiter w] -> nextWaiter w' = (nextWaiter w + length new)%nat -> events w' = events w ++ es ->
  omap resolution es ++ waiters st' ≡ₚ waiters st ++ new -> waits_ok w'.
Proof.
  intros [W1 W2 W3 W4 W5 W6] Hst Hr Hnew Hn He Hp.
  assert (Hres : resolved w' = resolved w ++ omap resolution es) by (unfold resolved; by rewrite He, omap_app).
  assert (Hin : forall k, k ∈ omap resolution es \/ k ∈ waiters st' <-> k ∈ waiters st \/ k ∈ new).
  { intros k. rewrite <- !elem_of_app. by rewrite Hp. }
  assert (Hfresh : forall k, k ∈ new -> k = nextWaiter w).
  { intros k Hk. destruct Hnew as [-> | ->]; [by apply elem_of_nil in Hk | by apply list_elem_of_singleton in Hk]. }
  assert (Hold : forall k, k ∈ waiters st \/ k ∈ new -> (k < nextWaiter w')%nat /\ k ∉ resolved w).
  { intros k [Hk | Hk].
    - destruct (W3 id st k Hst Hk) as [Hlt Hnot]. split; [lia | done].
    - pose proof (Hfresh k Hk) as ->. split; [destruct Hnew as [-> | ->]; [by apply elem_of_nil in Hk | cbn in *; lia]|].
      intros Hbad. apply W2 in Hbad. lia. }
  assert (Hnd : NoDup (omap resolution es ++ waiters st')).
  { rewrite Hp. apply NoDup_app. split; [by eapply W4|]. split.
    - intros k Hk Hk'%Hfresh. destruct (W3 id st k Hst Hk) as [Hlt _]. lia.
    - destruct Hnew as [-> | ->]; [constructor | apply NoDup_singleton]. }
  apply NoDup_app in Hnd as (Hnd1 & Hapart & Hnd2). split; rewrite ?Hres, ?Hr.
  - apply NoDup_app. split; [done|]. split; [|done]. intros k Hk Hk'. apply (Hold k); [|done]. apply Hin. by left.
  - intros k [Hk | Hk]%elem_of_app; [specialize (W2 k Hk); lia|]. apply Hold, Hin. by left.
  - intros id' x k Hx Hk. apply lookup_insert_Some in Hx as [[<- <-] | [Hne Hx]].
    + destruct (Hold k) as [Hlt Hnot]; [apply Hin; by right|]. split; [done|]. intros [? | Hbad]%elem_of_app; [done|].
      by apply (Hapart k).
    + destruct (W3 id' x k Hx Hk) as [Hlt Hnot]. split; [lia|]. intros [? | Hbad]%elem_of_app; [done|].
      destruct (proj1 (Hin k) (or_introl Hbad)) as [Hkst | ->%Hfresh]; [|lia]. apply Hne. by eapply (W5 id id').
  - intros id' x Hx. apply lookup_insert_Some in Hx as [[_ <-] | [_ Hx]]; [done | by eapply W4].
  - assert (Hmine : forall id' x k, id <> id' -> runs w !! id' = Some x -> k ∈ waiters x -> k ∈ waiters st' -> False).
    { intros id' x k Hne Hx Hk Hk'. destruct (proj1 (Hin k) (or_intror Hk')) as [Hkst | ->%Hfresh].
      - apply Hne. by eapply (W5 id id').
      - destruct (W3 id' x _ Hx Hk). lia. }
    intros i1 i2 x1 x2 k H1 H2 K1 K2. apply lookup_insert_Some in H1 as [[<- <-] | [N1 H1]];
      apply lookup_insert_Some in H2 as [[<- <-] | [N2 H2]]; [done| exfalso; by eapply (Hmine i2) | exfalso; by eapply (Hmine i1) | by eapply W5].
  - intros k Hk. assert (Hcase : (k < nextWaiter w)%nat \/ k ∈ new).
    { destruct Hnew as [-> | ->]; cbn in Hn; [left; lia|]. destruct (decide (k = nextWaiter w)) as [-> | ?]; [right; by left | left; lia]. }
    assert (Hhere : k ∈ waiters st \/ k ∈ new -> k ∈ resolved w ++ omap resolution es
      \/ exists id0 st0, <[id := st']> (runs w) !! id0 = Some st0 /\ k ∈ waiters st0).
    { intros [Hc | Hc]%Hin; [left; apply elem_of_app; by right | right]. exists id, st'. by rewrite lookup_insert_eq. }
    destruct Hcase as [Hlt | Hc]; [|apply Hhere; by right].
    destruct (W6 k Hlt) as [? | (id' & x & Hx & Hkx)]; [left; apply elem_of_app; by left|].
    destruct (decide (id = id')) as [<- | Hne]; [apply Hhere; left; congruence|]. right. exists id', x.
    by rewrite lookup_insert_ne.
Qed.

Lemma waits_same w w' id st st' es :
  waits_ok w -> runs w !! id = Some st -> runs w' = <[id := st']> (runs w) -> nextWaiter w' = nextWaiter w ->
  events w' = events w ++ es -> omap resolution es ++ waiters st' ≡ₚ waiters st -> waits_ok w'.
Proof.
  intros Hw Hst Hr Hn He Hp. eapply (waits_change w w' id st st' []); try done; [by left| |]; rewrite ?app_nil_r; [cbn; lia | done].
Qed.

(** A notification hands out all waiters or none. *)
Lemma notify_waits id st : omap resolution (notify_events id st) ++ waiters (notified st) = waiters st.
Proof.
  unfold notify_events, notified. destruct (settlementProof st) as [proof|]; [|done].
  assert (Hmap : forall ks, omap resolution (map (fun k => ev_resolve k id proof) ks) = ks)
    by (induction ks as [|k ks IH]; [done|]; cbn; by f_equal).
  rewrite omap_app, Hmap. destruct (released_by_notify st); cbn; by rewrite !app_nil_r.
Qed.

Lemma quarantine_waits id st : waiters (quarantined st) = waiters st /\ omap resolution (quarantine_events id st) = [].
Proof. unfold quarantined, quarantine_events. by destruct (lifecycle st), (domain st), (released st). Qed.

Lemma filter_waiters k ks : NoDup ks -> k ∈ ks -> k :: List.filter (fun j => negb (j =? k)%nat) ks ≡ₚ ks.
Proof.
  intros Hnd Hk. induction ks as [|j ks IH]; [by apply elem_of_nil in Hk|]. apply NoDup_cons in Hnd as [Hj Hnd]. cbn.
  destruct (Nat.eqb_spec j k) as [-> | Hne]; cbn.
  - f_equiv. clear IH Hnd Hk. induction ks as [|i ks IH]; [done|]. apply not_elem_of_cons in Hj as [Hik Hj]. cbn.
    destruct (Nat.eqb_spec i k); [by subst|]. cbn. by rewrite IH.
  - apply elem_of_cons in Hk as [-> | Hk]; [done|]. rewrite <- (IH Hnd Hk) at 2. apply Permutation_swap.
Qed.

Lemma waits_effect w w' : work_ok w -> waits_ok w -> effect w w' -> waits_ok w'.
Proof.
  intros Hok Hw He. destruct He as [[B1 B2 B3 B4 B5 B6]|id d b Hnone [B1 B2 B3 B4 B5 B6]|id st k Hst [B1 B2 B3 B4 B5 B6]
    |id st Hst [B1 B2 B3 B4 B5 B6]|id st Hst Hl [B1 B2 B3 B4 B5 B6]|id st e Hst Hl [B1 B2 B3 B4 B5 B6]
    |id st st1 e src ls Hst Hl Hown Hid Hsrc [B1 B2 B3 B4 B5 B6]|id proof _ [B1 B2 B3 B4 B5 B6]
    |id st Hst Hp [B1 B2 B3 B4 B5 B6]|id st k Hst Hk [B1 B2 B3 B4 B5 B6]|l [B1 B2 B3 B4 B5 B6]
    |i o st Ho Hc Hst [B1 B2 B3 B4 B5 B6]|i o Ho Hnone [B1 B2 B3 B4 B5 B6]].
  - rewrite app_nil_r in B6. destruct Hw. by split; unfold resolved; rewrite ?B1, ?B5, ?B6.
  - rewrite app_nil_r in B6. destruct Hw as [W1 W2 W3 W4 W5 W6]. split; unfold resolved; rewrite ?B1, ?B5, ?B6; try done.
    + intros id' x k Hx Hk. apply lookup_insert_Some in Hx as [[_ <-] | [_ Hx]]; [by apply elem_of_nil in Hk | by eapply W3].
    + intros id' x Hx. apply lookup_insert_Some in Hx as [[_ <-] | [_ Hx]]; [constructor | by eapply W4].
    + intros i1 i2 x1 x2 k H1 H2 K1 K2. apply lookup_insert_Some in H1 as [[_ <-] | [_ H1]]; [by apply elem_of_nil in K1|].
      apply lookup_insert_Some in H2 as [[_ <-] | [_ H2]]; [by apply elem_of_nil in K2 | by eapply W5].
    + intros k Hk. destruct (W6 k Hk) as [? | (id' & x & Hx & Hkx)]; [by left|]. right. exists id', x.
      rewrite lookup_insert_ne; [done|]. intros ->. congruence.
  - by eapply (waits_same w w' id st).
  - eapply (waits_same w w' id st); try done. destruct (quarantine_waits id st) as [Hq Hqe].
    rewrite omap_app, Hqe. cbn [app]. by rewrite notify_waits, Hq.
  - eapply (waits_same w w' id st); try done. by rewrite notify_waits.
  - by eapply (waits_same w w' id st).
  - eapply (waits_same w w' id st); try done. by destruct Hown as [-> | [k ->]].
  - destruct Hw as [W1 W2 W3 W4 W5 W6].
    assert (Hres : resolved w' = resolved w ++ [nextWaiter w]) by (unfold resolved; by rewrite B6, omap_app).
    split; rewrite ?Hres, ?B1, ?B5; try done.
    + apply NoDup_app. split; [done|]. split; [|apply NoDup_singleton]. intros k Hk ->%list_elem_of_singleton.
      apply W2 in Hk. lia.
    + intros k [Hk | ->%list_elem_of_singleton]%elem_of_app; [apply W2 in Hk; lia | lia].
    + intros id' x k Hx Hk. destruct (W3 id' x k Hx Hk) as [Hlt Hnot]. split; [lia|].
      intros [? | ->%list_elem_of_singleton]%elem_of_app; [done | lia].
    + intros k Hk. destruct (decide (k = nextWaiter w)) as [-> | Hne]; [left; apply elem_of_app; right; by left|].
      destruct (W6 k) as [? | ?]; [lia | left; apply elem_of_app; by left | by right].
  - eapply (waits_change w w' id st _ [nextWaiter w] []); try done; [by right | rewrite B5; cbn; lia].
  - eapply (waits_same w w' id st); try done. cbn. apply filter_waiters; [by eapply (wa_distinct _ Hw) | done].
  - rewrite app_nil_r in B6. destruct Hw. by split; unfold resolved; rewrite ?B1, ?B5, ?B6.
  - eapply (waits_same w w' (ob_run o) st); try done. by rewrite notify_waits.
  - rewrite app_nil_r in B6. destruct Hw. by split; unfold resolved; rewrite ?B1, ?B5, ?B6.
Qed.

(** ** Domains *)

Definition releases (id : jstr) (e : Event) : bool :=
  match e with ev_release _ id' _ => bool_decide (id' = id) | _ => false end.
Definition release_count (id : jstr) (es : list Event) : nat := length (List.filter (releases id) es).
Definition given_back (id : jstr) (w : Ledger) : nat :=
  match runs w !! id with Some st => if released st then 1 else 0 | None => 0 end.
Definition releases_ok (w : Ledger) : Prop := forall id, release_count id (events w) = given_back id w.

Lemma release_count_app id es es' : release_count id (es ++ es') = (release_count id es + release_count id es')%nat.
Proof. unfold release_count. by rewrite List.filter_app, length_app. Qed.

Lemma notify_releases id id' st :
  (release_count id' (notify_events id st) + (if bool_decide (id = id') then if released st then 1 else 0 else 0)
   = if bool_decide (id = id') then if released (notified st) then 1 else 0 else 0)%nat.
Proof.
  unfold notify_events, notified. destruct (settlementProof st) as [proof|]; [|done].
  assert (Hmap : forall ks, release_count id' (map (fun k => ev_resolve k id proof) ks) = 0%nat)
    by (induction ks as [|k ks IH]; [done | exact IH]).
  rewrite release_count_app, Hmap. unfold released_by_notify.
  destruct (released st) eqn:Hr; cbn [negb andb]; [by destruct (bool_decide (id = id')); cbn; rewrite ?Hr|].
  destruct (_ && _); unfold release_count; cbn; destruct (bool_decide (id = id')); cbn; by rewrite ?Hr.
Qed.

Lemma quarantine_releases id id' st :
  (release_count id' (quarantine_events id st) + (if bool_decide (id = id') then if released st then 1 else 0 else 0)
   = if bool_decide (id = id') then if released (quarantined st) then 1 else 0 else 0)%nat.
Proof.
  unfold quarantine_events, quarantined. destruct (lifecycle st), (domain st), (released st) eqn:Hr; unfold release_count; cbn;
    rewrite ?Hr; by destruct (bool_decide (id = id')).
Qed.

(** A change of one run counts as many releases as it marks. *)
Lemma releases_change w w' id st' es :
  releases_ok w -> runs w' = <[id := st']> (runs w) -> events w' = events w ++ es ->
  (forall id', (release_count id' es + (if bool_decide (id = id') then given_back id w else 0)
     = if bool_decide (id = id') then if released st' then 1 else 0 else 0)%nat) ->
  releases_ok w'.
Proof.
  intros Hok Hr He Hes id'. specialize (Hes id'). specialize (Hok id'). rewrite He, release_count_app, Hok.
  unfold given_back at 1 2. rewrite Hr. destruct (bool_decide_reflect (id = id')) as [<- | Hne].
  - rewrite lookup_insert_eq. unfold given_back in Hes. lia.
  - rewrite lookup_insert_ne by done. lia.
Qed.

Lemma releases_same w w' id st st' es :
  releases_ok w -> runs w !! id = Some st -> runs w' = <[id := st']> (runs w) -> events w' = events w ++ es ->
  (forall id', (release_count id' es + (if bool_decide (id = id') then if released st then 1 else 0 else 0)
     = if bool_decide (id = id') then if released st' then 1 else 0 else 0)%nat) ->
  releases_ok w'.
Proof. intros Hok Hst Hr He Hes. eapply releases_change; try done. unfold given_back. by rewrite Hst. Qed.

Lemma releases_effect w w' : releases_ok w -> effect w w' -> releases_ok w'.
Proof.
  intros Hok He. destruct He as [[B1 B2 B3 B4 B5 B6]|id d b Hnone [B1 B2 B3 B4 B5 B6]|id st k Hst [B1 B2 B3 B4 B5 B6]
    |id st Hst [B1 B2 B3 B4 B5 B6]|id st Hst Hl [B1 B2 B3 B4 B5 B6]|id st e Hst Hl [B1 B2 B3 B4 B5 B6]
    |id st st1 e src ls Hst Hl Hown Hid Hsrc [B1 B2 B3 B4 B5 B6]|id proof _ [B1 B2 B3 B4 B5 B6]
    |id st Hst Hp [B1 B2 B3 B4 B5 B6]|id st k Hst Hk [B1 B2 B3 B4 B5 B6]|l [B1 B2 B3 B4 B5 B6]
    |i o st Ho Hc Hst [B1 B2 B3 B4 B5 B6]|i o Ho Hnone [B1 B2 B3 B4 B5 B6]].
  all: try (intros id'; specialize (Hok id'); unfold given_back in *; rewrite B6, B1, release_count_app, Hok; cbn; lia).
  all: try (by eapply (releases_same w w' id st)).
  - eapply (releases_change w w' id); try done. unfold given_back. by rewrite Hnone.
  - eapply (releases_same w w' id st); try done. intros id'. rewrite release_count_app.
    pose proof (quarantine_releases id id' st). pose proof (notify_releases id id' (quarantined st)). lia.
  - eapply (releases_same w w' id st); try done. intros id'. exact (notify_releases id id' (set_lifecycle life_sealed st)).
  - eapply (releases_same w w' id st); try done. by destruct Hown as [-> | [k ->]].
  - eapply (releases_same w w' (ob_run o) st); try done. intros id'. exact (notify_releases (ob_run o) id' (set_resources _ st)).
Qed.
