(* ===== verification/RunLedgerPromises.v ===== *)
(** * The promises of the resource ledger, over any history of it *)
From S2P Require Import Prelude.
From S2P Require Import Json.
From S2P Require Import RunLedger.
From S2P Require Import RunLedgerProofs.
From S2P Require Import RunLedgerSafety.
#[local] Open Scope Z_scope.
#[local] Open Scope js_scope.

Lemma history_app ops ops' : history (ops ++ ops') = foldl (fun w op => exec op w) (history ops) ops'.
Proof. unfold history. by rewrite foldl_app. Qed.

Lemma history_snoc ops op : history (ops ++ [op]) = exec op (history ops).
Proof. by rewrite history_app. Qed.

(** An invariant of the effects holds of every history. *)
Lemma history_invariant (P : Ledger -> Prop) :
  P createRunResourceLedger -> (forall w w', P w -> effect w w' -> P w') -> forall ops, P (history ops).
Proof.
  intros H0 Hstep ops. induction ops as [|op ops IH] using rev_ind; [done|]. rewrite history_snoc.
  eapply Hstep; [exact IH | apply exec_effect].
Qed.

Record ledger_ok (w : Ledger) : Prop := { lo_work : work_ok w; lo_waits : waits_ok w; lo_releases : releases_ok w }.

Lemma ledger_start : ledger_ok createRunResourceLedger.
Proof.
  split; [split|split|]; cbn; try done.
  - split; [done|]. intros o Ho. by apply elem_of_nil in Ho.
  - constructor.
  - split; [intros o Ho; by apply elem_of_nil in Ho | done].
  - constructor.
  - intros k Hk. by apply elem_of_nil in Hk.
  - lia.
Qed.

Lemma history_ok ops : ledger_ok (history ops).
Proof.
  apply (history_invariant ledger_ok); [exact ledger_start|]. intros w w' [H1 H2 H3] He.
  split; [by eapply work_effect | by eapply waits_effect | by eapply releases_effect].
Qed.

(** ** Settlement *)

Lemma proved_settled st : settlementProof st = Some settled <-> lifecycle st = life_sealed /\ resources st = [].
Proof.
  unfold settlementProof. destruct (lifecycle st), (resources st); split; (try done); by intros [? ?].
Qed.

Lemma notified_proof st : settlementProof (notified st) = settlementProof st.
Proof. destruct (notified_fields st) as (Hl & Hr & Ht). unfold settlementProof. by rewrite Hl, Hr, Ht. Qed.

Lemma notify_answers id st k id' proof :
  ev_resolve k id' proof ∈ notify_events id st -> id' = id /\ settlementProof st = Some proof /\ k ∈ waiters st.
Proof.
  unfold notify_events. destruct (settlementProof st) as [p|]; [|by intros ?%elem_of_nil].
  intros [Hin | Hin]%elem_of_app.
  - apply list_elem_of_fmap in Hin as (j & [= -> -> ->] & Hj). done.
  - destruct (released_by_notify st); [by apply list_elem_of_singleton in Hin | by apply elem_of_nil in Hin].
Qed.

Lemma quarantine_answers id st k id' proof : ev_resolve k id' proof ∉ quarantine_events id st.
Proof.
  unfold quarantine_events. destruct (lifecycle st), (domain st), (released st); set_solver.
Qed.

(** Who is told that a run settled is told so by a run that has: the events are those of one effect. *)
Lemma answered_settled w w' es id k :
  ledger_ok w -> effect w w' -> events w' = events w ++ es -> ev_resolve k id settled ∈ es ->
  exists st, runs w' !! id = Some st /\ settlementProof st = Some settled.
Proof.
  intros Hok He Hes Hin. destruct He as [[B1 B2 B3 B4 B5 B6]|id0 d b Hnone [B1 B2 B3 B4 B5 B6]|id0 st k0 Hst [B1 B2 B3 B4 B5 B6]
    |id0 st Hst [B1 B2 B3 B4 B5 B6]|id0 st Hst Hl [B1 B2 B3 B4 B5 B6]|id0 st e Hst Hl [B1 B2 B3 B4 B5 B6]
    |id0 st st1 e src ls Hst Hl Hown Hid Hsrc [B1 B2 B3 B4 B5 B6]|id0 proof Hproof [B1 B2 B3 B4 B5 B6]
    |id0 st Hst Hp [B1 B2 B3 B4 B5 B6]|id0 st k0 Hst Hk [B1 B2 B3 B4 B5 B6]|l [B1 B2 B3 B4 B5 B6]
    |i o st Ho Hc Hst [B1 B2 B3 B4 B5 B6]|i o Ho Hnone [B1 B2 B3 B4 B5 B6]];
    rewrite Hes in B6; apply app_inv_head in B6; subst es; (try by apply elem_of_nil in Hin).
  - apply elem_of_app in Hin as [Hin | Hin]; [by apply quarantine_answers in Hin|].
    apply notify_answers in Hin as (-> & Hp & _). exists (notified (quarantined st)).
    rewrite B1, lookup_insert_eq, notified_proof. done.
  - apply notify_answers in Hin as (-> & Hp & _). eexists. rewrite B1, lookup_insert_eq. split; [done|].
    by rewrite notified_proof.
  - apply list_elem_of_singleton in Hin as [= -> -> <-]. rewrite B1.
    destruct Hproof as [[_ ?] | (st & Hst & Hp)]; [done|]. by exists st.
  - apply list_elem_of_singleton in Hin as [= -> -> Hd]. eexists. rewrite B1, lookup_insert_eq. split; [done|].
    unfold settlementProof. cbn. fold (settlementProof st). by destruct (settlementProof st); cbn in Hd; simplify_eq.
  - apply notify_answers in Hin as (-> & Hp & _). eexists. rewrite B1, lookup_insert_eq. split; [done|].
    by rewrite notified_proof.
Qed.

Lemma settled_idle w id st :
  work_ok w -> runs w !! id = Some st -> settlementProof st = Some settled ->
  resources st = [] /\ (forall o, o ∈ observers w -> ob_run o <> id)
  /\ (forall l le, leases w !! l = Some le -> le_run le = id -> le_closed le = true).
Proof.
  intros Hw Hst [Hl Hr]%proved_settled. split; [done|].
  assert (Hno : forall o, o ∈ observers w -> ob_run o <> id).
  { intros o Ho <-. destruct (ok_pending w Hw o st Ho Hst) as (e & He & _); [by rewrite Hl|]. rewrite Hr in He.
    by apply elem_of_nil in He. }
  split; [done|]. intros l le Hle <-. destruct (le_closed le) eqn:Hc; [done|].
  destruct (ok_leases w Hw l le st Hle Hc Hst) as (o & Ho & Hrun & _); [by rewrite Hl|]. by destruct (Hno o Ho).
Qed.

(** ** Leases and domains *)

Record domain_ok (w : Ledger) : Prop := {
  do_open : forall id st, runs w !! id = Some st -> lifecycle st = life_open -> is_Some (domain st);
  do_lease : forall l le st, leases w !! l = Some le -> le_closed le = false -> runs w !! le_run le = Some st ->
    lifecycle st <> life_quarantined -> domain st = Some (le_domain le)
}.

Lemma domain_change w w' id st st' :
  domain_ok w -> work_ok w' -> runs w !! id = Some st -> runs w' = <[id := st']> (runs w) ->
  (forall l le, leases w' !! l = Some le -> leases w !! l = Some le \/ le_run le = id /\ domain st' = Some (le_domain le)) ->
  lifecycle st' = life_quarantined \/ settlementProof st' = Some settled
  \/ domain st' = domain st /\ lifecycle st <> life_quarantined /\ (lifecycle st' = life_open -> lifecycle st = life_open) ->
  domain_ok w'.
Proof.
  intros [D1 D2] Hw' Hst Hr Hls Hcase. split.
  - intros id' x Hx Hlf. rewrite Hr in Hx. apply lookup_insert_Some in Hx as [[_ <-] | [_ Hx]]; [|by eapply D1].
    destruct Hcase as [Hq | [[Hq _]%proved_settled | (-> & _ & Hop)]]; [congruence | congruence|].
    by apply (D1 id st); [|apply Hop].
  - intros l le x Hle Hc Hx Hnq. pose proof Hx as Hx'. rewrite Hr in Hx.
    apply lookup_insert_Some in Hx as [[Hid <-] | [Hne Hx]].
    + destruct Hcase as [Hq | [Hset | (Hd & Hnq' & _)]]; [done| |].
      * destruct (settled_idle w' (le_run le) st' Hw' Hx' Hset) as (_ & _ & Hclosed).
        by rewrite (Hclosed l le Hle eq_refl) in Hc.
      * destruct (Hls l le Hle) as [Hle0 | [_ Hd']]; [|done]. rewrite Hd. by apply (D2 l le st Hle0 Hc); [rewrite <- Hid|].
    + destruct (Hls l le Hle) as [Hle0 | [Hid _]]; [by eapply D2 | by rewrite Hid in Hne].
Qed.

(** A notification that does not prove a run settled leaves its domain alone. *)
Lemma notified_domain st :
  lifecycle st <> life_quarantined -> settlementProof (notified st) = Some settled \/ notified st = st.
Proof.
  intros Hq. rewrite notified_proof. unfold notified, settlementProof. destruct (lifecycle st), (resources st); try done; by (left + right).
Qed.

Lemma domain_effect w w' : work_ok w -> work_ok w' -> domain_ok w -> effect w w' -> domain_ok w'.
Proof.
  intros Hw Hw' Hok He. destruct He as [[B1 B2 B3 B4 B5 B6]|id0 d b Hnone [B1 B2 B3 B4 B5 B6]|id0 st k0 Hst [B1 B2 B3 B4 B5 B6]
    |id0 st Hst [B1 B2 B3 B4 B5 B6]|id0 st Hst Hl [B1 B2 B3 B4 B5 B6]|id0 st e Hst Hl [B1 B2 B3 B4 B5 B6]
    |id0 st st1 e src ls Hst Hl Hown Hid Hsrc [B1 B2 B3 B4 B5 B6]|id0 proof Hproof [B1 B2 B3 B4 B5 B6]
    |id0 st Hst Hp [B1 B2 B3 B4 B5 B6]|id0 st k0 Hst Hk [B1 B2 B3 B4 B5 B6]|l [B1 B2 B3 B4 B5 B6]
    |i o st Ho Hc Hst [B1 B2 B3 B4 B5 B6]|i o Ho Hnone [B1 B2 B3 B4 B5 B6]].
  all: try (destruct Hok; split; rewrite ?B1, ?B3; done).
  all: try (assert (Hkeep : forall l le, leases w' !! l = Some le -> leases w !! l = Some le) by (intros ? ?; by rewrite B3)).
  - destruct Hok as [D1 D2]. split; rewrite ?B1, ?B3.
    + intros id x Hx Hlf. apply lookup_insert_Some in Hx as [[_ <-] | [_ Hx]]; [by eexists | by eapply D1].
    + intros l le x Hle Hc Hx Hq. apply lookup_insert_Some in Hx as [[Hid _] | [_ Hx]]; [|by eapply D2].
      destruct (proj2 (ok_homes _ Hw) l le Hle) as [y Hy]. congruence.
  - eapply (domain_change w w' id0 st); try done; [intros; left; by apply Hkeep|].
    destruct (decide (lifecycle st = life_quarantined)); [by left | by right; right].
  - eapply (domain_change w w' id0 st); try done; [intros; left; by apply Hkeep|]. left.
    destruct (notified_fields (quarantined st)) as (-> & _). by destruct (quarantined_almost st (ok_runs _ Hw id0 st Hst)).
  - eapply (domain_change w w' id0 st); try done; [intros; left; by apply Hkeep|]. right.
    destruct (notified_domain (set_lifecycle life_sealed st)) as [Hp | ->]; [done | by left | right]. by rewrite Hl.
  - eapply (domain_change w w' id0 st); try done; [intros; left; by apply Hkeep|]. by left.
  - assert (Hd : domain st1 = domain st /\ lifecycle st1 = lifecycle st) by (destruct Hown as [-> | [k ->]]; done).
    destruct Hd as [Hd Hlf]. eapply (domain_change w w' id0 st); try done; cbn; [|right; right; rewrite Hlf; done].
    intros l le Hle. rewrite B3 in Hle. apply lookup_app_Some in Hle as [? | [_ Hle]]; [by left | right].
    destruct Hsrc as [[_ ->] | (d & _ & Hdom & ->)]; [done|]. apply list_lookup_singleton_Some in Hle as [_ <-]. cbn.
    by rewrite Hd.
  - eapply (domain_change w w' id0 st); try done; [intros; left; by apply Hkeep|].
    destruct (decide (lifecycle st = life_quarantined)); [by left | by right; right].
  - eapply (domain_change w w' id0 st); try done; [intros; left; by apply Hkeep|].
    destruct (decide (lifecycle st = life_quarantined)); [by left | by right; right].
  - destruct Hok as [D1 D2]. split; rewrite ?B1; [done|]. intros j le x Hj Hc Hx Hq. rewrite B3 in Hj.
    destruct (decide (l = j)) as [-> | Hne].
    + rewrite list_lookup_alter_eq in Hj. destruct (leases w !! j) as [le0|]; [|done]. by injection Hj as <-.
    + rewrite list_lookup_alter_ne in Hj by done. by eapply D2.
  - eapply (domain_change w w' (ob_run o) st); try done; [intros; left; by apply Hkeep|].
    set (st1 := set_resources _ st) in *. destruct (decide (lifecycle st = life_quarantined)) as [Hq | Hq].
    + left. by destruct (notified_fields st1) as (-> & _).
    + right. destruct (notified_domain st1) as [Hp | ->]; [done | by left | by right].
Qed.

Lemma history_domains ops : domain_ok (history ops).
Proof.
  assert (Hboth : ledger_ok (history ops) /\ domain_ok (history ops)); [|tauto].
  apply (history_invariant (fun w => ledger_ok w /\ domain_ok w)).
  - split; [exact ledger_start|]. by split.
  - intros w w' [[H1 H2 H3] Hd] He. assert (Hw' : work_ok w') by by eapply work_effect.
    split; [|by apply (domain_effect w)]. split; [done | by apply (waits_effect w) | by apply (releases_effect w)].
Qed.

(** ** The promises *)

(** C19. Settled means done: whenever an operation of the ledger tells a waiter that a run is settled, that run is
    sealed, it has no resource, no promise of its own is still watched, and all its leases are closed. *)
Theorem settled_means_done ops op es id k :
  events (history (ops ++ [op])) = events (history ops) ++ es -> ev_resolve k id settled ∈ es ->
  exists st, runs (history (ops ++ [op])) !! id = Some st /\ lifecycle st = life_sealed /\ resources st = []
    /\ (forall o, o ∈ observers (history (ops ++ [op])) -> ob_run o <> id)
    /\ (forall l le, leases (history (ops ++ [op])) !! l = Some le -> le_run le = id -> le_closed le = true).
Proof.
  intros Hes Hin. rewrite history_snoc in Hes.
  destruct (answered_settled _ _ es id k (history_ok ops) (exec_effect op (history ops)) Hes Hin) as (st & Hst & Hp).
  rewrite <- history_snoc in Hst. exists st. split; [done|]. split; [by apply proved_settled in Hp as [? _]|].
  exact (settled_idle _ id st (lo_work _ (history_ok (ops ++ [op]))) Hst Hp).
Qed.

(** C20. No wait hangs, and none is answered twice: over any history the answers go to different waiters, and a
    waiter without one is on the list of one run that has no proof of settlement, where its timer will answer it. *)
Theorem every_wait_is_answered ops k :
  (k < nextWaiter (history ops))%nat ->
  NoDup (resolved (history ops))
  /\ (k ∈ resolved (history ops)
      \/ exists id st, runs (history ops) !! id = Some st /\ k ∈ waiters st /\ settlementProof st = None
           /\ (forall id' st', runs (history ops) !! id' = Some st' -> k ∈ waiters st' -> id' = id)
           /\ resolved (history (ops ++ [op_timeout id k])) = resolved (history ops) ++ [k]).
Proof.
  intros Hk. destruct (history_ok ops) as [Hw [W1 W2 W3 W4 W5 W6] _]. split; [done|].
  destruct (W6 k Hk) as [? | (id & st & Hst & Hin)]; [by left | right]. exists id, st. split; [done|]. split; [done|].
  assert (Hp : settlementProof st = None).
  { destruct (settlementProof st) eqn:Hp; [|done]. destruct (ok_proved st (ok_runs _ Hw id st Hst)) as [Hnil _]; [by rewrite Hp|].
    rewrite Hnil in Hin. by apply elem_of_nil in Hin. }
  split; [done|]. split; [intros id' st' Hst' Hin'; by eapply W5|].
  rewrite history_snoc. cbn [exec]. unfold timeout. rewrite Hst, bool_decide_true by done. unfold resolved. cbn [events emit].
  by rewrite omap_app.
Qed.

(** A run gives its cancellation domain back once: the bridge is told of a run's release exactly once when the run has
    none left, and not before; a run that is proved settled or quarantined has none left, and an open one has its. *)
Theorem domain_given_back_once ops id st :
  runs (history ops) !! id = Some st ->
  release_count id (events (history ops)) = (match domain st with None => 1 | Some _ => 0 end)%nat
  /\ (settlementProof st <> None -> domain st = None) /\ (lifecycle st = life_open -> is_Some (domain st)).
Proof.
  intros Hst. destruct (history_ok ops) as [Hw _ Hrel]. pose proof (ok_runs _ Hw id st Hst) as [_ Hp Hd _]. split; [|split].
  - rewrite (Hrel id). unfold given_back. rewrite Hst. destruct (released st), (domain st); (done || (exfalso; naive_solver)).
  - intros Hs. by apply Hp.
  - by apply (do_open _ (history_domains ops) id).
Qed.

(** *** Quarantine *)

(** What quarantine leaves of a run, and of its answers since the first [n] events. *)
Record terminal (id : jstr) (n : nat) (w : Ledger) : Prop := {
  te_run : exists st, runs w !! id = Some st /\ lifecycle st = life_quarantined;
  te_length : (n <= length (events w))%nat;
  te_answers : forall k proof, ev_resolve k id proof ∈ drop n (events w) ->
    exists pending, proof = unfenced reason_quarantined pending
}.

Lemma terminal_change w w' id n id0 st st' es :
  terminal id n w -> runs w !! id0 = Some st -> runs w' = <[id0 := st']> (runs w) -> events w' = events w ++ es ->
  (id0 = id -> lifecycle st = life_quarantined -> lifecycle st' = life_quarantined) ->
  (forall k proof, ev_resolve k id proof ∈ es -> lifecycle st = life_quarantined -> id0 = id /\ exists pending, proof = unfenced reason_quarantined pending) ->
  (forall k proof, ev_resolve k id proof ∈ es -> id0 = id) ->
  terminal id n w'.
Proof.
  intros [(x & Hx & Hq) T2 T3] Hst Hr He Hlf Hes Hid. split.
  - rewrite Hr. destruct (decide (id0 = id)) as [-> | Hne].
    + exists st'. rewrite lookup_insert_eq. split; [done|]. apply Hlf; [done | congruence].
    + exists x. by rewrite lookup_insert_ne.
  - rewrite He, length_app. lia.
  - intros k proof Hin. rewrite He, drop_app_le in Hin by done. apply elem_of_app in Hin as [Hin | Hin]; [by eapply T3|].
    pose proof (Hid k proof Hin) as ->. destruct (Hes k proof Hin) as [_ ?]; [congruence | done].
Qed.

Lemma quarantined_proof st proof :
  lifecycle st = life_quarantined -> settlementProof st = Some proof -> exists pending, proof = unfenced reason_quarantined pending.
Proof. unfold settlementProof. intros ->. intros [= <-]. by eexists. Qed.

Lemma terminal_effect w w' id n : work_ok w -> terminal id n w -> effect w w' -> terminal id n w'.
Proof.
  intros Hw Hok He. destruct He as [[B1 B2 B3 B4 B5 B6]|id0 d b Hnone [B1 B2 B3 B4 B5 B6]|id0 st k0 Hst [B1 B2 B3 B4 B5 B6]
    |id0 st Hst [B1 B2 B3 B4 B5 B6]|id0 st Hst Hl [B1 B2 B3 B4 B5 B6]|id0 st e Hst Hl [B1 B2 B3 B4 B5 B6]
    |id0 st st1 e src ls Hst Hl Hown Hid Hsrc [B1 B2 B3 B4 B5 B6]|id0 proof Hproof [B1 B2 B3 B4 B5 B6]
    |id0 st Hst Hp [B1 B2 B3 B4 B5 B6]|id0 st k0 Hst Hk [B1 B2 B3 B4 B5 B6]|l [B1 B2 B3 B4 B5 B6]
    |i o st Ho Hc Hst [B1 B2 B3 B4 B5 B6]|i o Ho Hnone [B1 B2 B3 B4 B5 B6]].
  all: try (rewrite app_nil_r in B6; destruct Hok; split; rewrite ?B1, ?B6; done).
  all: try (eapply (terminal_change w w' id n _ st _ []); try done; by intros ? ? ?%elem_of_nil).
  - rewrite app_nil_r in B6. destruct Hok as [(x & Hx & Hq) T2 T3]. split; rewrite ?B1, ?B6; try done.
    exists x. rewrite lookup_insert_ne; [done|]. intros ->. congruence.
  - destruct (quarantined_almost st (ok_runs _ Hw id0 st Hst)) as [_ Hq]. destruct (notified_fields (quarantined st)) as (Hlf & _).
    assert (Hans : forall k proof, ev_resolve k id proof ∈ quarantine_events id0 st ++ notify_events id0 (quarantined st) ->
      id0 = id /\ exists pending, proof = unfenced reason_quarantined pending).
    { intros k proof [Hin | Hin]%elem_of_app; [by apply quarantine_answers in Hin|].
      apply notify_answers in Hin as (-> & Hp & _). split; [done|]. by eapply quarantined_proof. }
    eapply (terminal_change w w' id n id0 st); try done; [by rewrite Hlf | intros; by eapply Hans | intros; by eapply Hans].
  - eapply (terminal_change w w' id n id0 st); try done; [by rewrite Hl | by rewrite Hl|].
    by intros k proof (-> & _)%notify_answers.
  - destruct Hok as [(x & Hx & Hq) T2 T3]. split; rewrite ?B1, ?B6; [by exists x | rewrite length_app; lia|].
    intros k p Hin. rewrite drop_app_le in Hin by done. apply elem_of_app in Hin as [Hin | Hin]; [by eapply T3|].
    apply list_elem_of_singleton in Hin as [= -> <- ->]. destruct Hproof as [[? _] | (st & Hst & Hp)]; [congruence|].
    eapply quarantined_proof; [|done]. congruence.
  - eapply (terminal_change w w' id n id0 st); try done; [|by intros k p [= -> <- ->]%list_elem_of_singleton].
    intros k p [= -> <- ->]%list_elem_of_singleton Hq. split; [done|]. unfold settlementProof. rewrite Hq. by eexists.
  - set (st1 := set_resources _ st) in *. eapply (terminal_change w w' id n (ob_run o) st); try done.
    + intros _ Hq. by destruct (notified_fields st1) as (-> & _).
    + intros k p Hin Hq. apply notify_answers in Hin as (-> & Hp & _). split; [done|]. by eapply (quarantined_proof st1).
    + by intros k p (-> & _)%notify_answers.
Qed.

Lemma quarantine_lifecycle w id st :
  work_ok w -> runs w !! id = Some st ->
  exists st', runs (quarantineState id w) !! id = Some st' /\ lifecycle st' = life_quarantined.
Proof.
  intros Hw Hst. exists (notified (quarantined st)). split; [by eapply changes_lookup, quarantine_changes|].
  destruct (notified_fields (quarantined st)) as (-> & _). by destruct (quarantined_almost st (ok_runs _ Hw id st Hst)).
Qed.

Lemma terminal_start w id st :
  work_ok w -> runs w !! id = Some st -> terminal id (length (events w)) (quarantineState id w).
Proof.
  intros Hw Hst. destruct (quarantine_changes id st w Hst) as [_ _ He].
  split; [by eapply quarantine_lifecycle | rewrite He, length_app; lia|].
  intros k proof Hin. rewrite He, drop_app_length in Hin. apply elem_of_app in Hin as [Hin | Hin]; [by apply quarantine_answers in Hin|].
  apply notify_answers in Hin as (_ & Hp & _). eapply quarantined_proof; [|exact Hp].
  by destruct (quarantined_almost st (ok_runs _ Hw id st Hst)).
Qed.

Lemma terminal_history id n ops later : terminal id n (history ops) -> terminal id n (history (ops ++ later)).
Proof.
  intros Ht. induction later as [|op later IH] using rev_ind; [by rewrite app_nil_r|]. rewrite app_assoc, history_snoc.
  eapply terminal_effect; [exact (lo_work _ (history_ok (ops ++ later))) | exact IH | apply exec_effect].
Qed.

(** C21. Quarantine is final: after it, whatever is called, the run keeps the lifecycle, has no resources, no waiters and no
    domain and at most 256 entries in its tombstone, and every answer about it, the ones quarantine itself gives
    included, is that it is unfenced because of the quarantine. *)
Theorem quarantine_is_final ops later id st :
  runs (history ops) !! id = Some st ->
  exists st', runs (history (ops ++ op_quarantine id :: later)) !! id = Some st'
    /\ lifecycle st' = life_quarantined /\ resources st' = [] /\ waiters st' = [] /\ domain st' = None
    /\ (length (tombstone st') <= MAX_TOMBSTONE_ENTRIES)%nat
    /\ forall k proof, ev_resolve k id proof ∈ drop (length (events (history ops))) (events (history (ops ++ op_quarantine id :: later))) ->
         exists pending, proof = unfenced reason_quarantined pending.
Proof.
  intros Hst. pose proof (terminal_start _ id st (lo_work _ (history_ok ops)) Hst) as Ht.
  change (quarantineState id (history ops)) with (exec (op_quarantine id) (history ops)) in Ht. rewrite <- history_snoc in Ht.
  apply (terminal_history id _ _ later) in Ht. rewrite <- app_assoc in Ht. cbn [app] in Ht.
  destruct Ht as [(st' & Hst' & Hq) _ Hans]. exists st'.
  pose proof (ok_runs _ (lo_work _ (history_ok (ops ++ op_quarantine id :: later))) id st' Hst') as [O1 O2 O3 O4].
  destruct O2 as [Hnil Hd]; [unfold settlementProof; by rewrite Hq|]. by repeat split; auto.
Qed.

(** *** Refusals *)

(** A producer of the run [id] is turned away, other than for naming no run or for a foreign claim key. *)
Inductive refused (w : Ledger) (id : jstr) : Ledger -> Prop :=
| refused_reserve expected kind label now w' r :
    reserveProducer id expected kind label now w = (w', Err r) -> r <> no_run -> refused w id w'
| refused_claim expected k now w' r :
    agentSessionClaimKey w = Some k -> claimProducer id expected k now w = (w', Err r) -> r <> handle_mismatch ->
    refused w id w'
| refused_fork l le expected kind label now w' r :
    leases w !! l = Some le -> le_run le = id -> lease_fork l expected kind label now w = (w', Err r) -> refused w id w'
| refused_track l le kind label now w' :
    leases w !! l = Some le -> le_run le = id -> lease_track l kind label now w = (w', false) -> refused w id w'.

Lemma lease_granted id kind label now w st :
  runs w !! id = Some st -> is_Some (domain st) -> lifecycle st <> life_quarantined ->
  is_Some (snd (leaseFor id kind label now w)).
Proof.
  intros Hst [d Hd] Hq. unfold leaseFor, register. rewrite Hst, Hd. by destruct (lifecycle st).
Qed.

Lemma lease_or_error r w' r' x : lease_or r x = (w', Err r') -> r' = r /\ snd x = None.
Proof. destruct x as [w [l|]]; cbn; [done|]. by intros [= <- <-]. Qed.

Lemma refused_state w id w' : work_ok w -> domain_ok w -> refused w id w' ->
  exists st, runs w' !! id = Some st /\ lifecycle st = life_quarantined.
Proof.
  intros Hw [D1 D2] Href.
  assert (Hgrant : forall x r r', is_Some (snd x) -> lease_or r x = (w', Err r') -> False).
  { intros x r r' [y Hy] [_ Hn]%lease_or_error. congruence. }
  destruct Href as [expected kind label now w' r Hop Hr | expected k now w' r Hkey Hop Hr
    | l le expected kind label now w' r Hle <- Hop | l le kind label now w' Hle <- Hop].
  - unfold reserveProducer in Hop. destruct (runs w !! id) as [st|] eqn:Hst; [|by injection Hop as <- <-].
    destruct (lifecycle st) eqn:Hl; [|injection Hop as <- _; by apply (quarantine_lifecycle w _ st)|injection Hop as <- _; by exists st].
    destruct (other_domain expected st); [injection Hop as <- _; by apply (quarantine_lifecycle w _ st)|].
    exfalso. eapply Hgrant; [|exact Hop]. eapply lease_granted; [done | by apply (D1 id) | by rewrite Hl].
  - unfold claimProducer in Hop. rewrite bool_decide_true in Hop by done. cbn [negb] in Hop.
    destruct (runs w !! id) as [st|] eqn:Hst; [|by injection Hop as <- <-].
    destruct (lifecycle st) eqn:Hl; [|injection Hop as <- _; by apply (quarantine_lifecycle w _ st)|injection Hop as <- _; by exists st].
    destruct (other_domain expected st); [injection Hop as <- _; by apply (quarantine_lifecycle w _ st)|].
    destruct (bool_decide (k ∈ claimedOwners st)); [injection Hop as <- _; by apply (quarantine_lifecycle w _ st)|].
    exfalso. eapply Hgrant; [|exact Hop]. eapply lease_granted; [apply lookup_insert_eq | exact (D1 id st Hst Hl) | cbn; congruence].
  - destruct (proj2 (ok_homes _ Hw) l le Hle) as [st Hst]. unfold lease_fork in Hop. rewrite Hle, Hst in Hop.
    destruct (negb _); [injection Hop as <- _; by apply (quarantine_lifecycle w _ st)|].
    destruct (_ || _) eqn:Hq; [injection Hop as <- _; by apply (quarantine_lifecycle w _ st)|].
    apply orb_false_iff in Hq as [Hc Hq%bool_decide_eq_false].
    exfalso. eapply Hgrant; [|exact Hop]. eapply lease_granted; [done | by eexists; eapply D2 | done].
  - destruct (proj2 (ok_homes _ Hw) l le Hle) as [st Hst]. unfold lease_track in Hop. rewrite Hle, Hst in Hop.
    destruct (_ || _) eqn:Hq; [injection Hop as <-; by apply (quarantine_lifecycle w _ st)|].
    apply orb_false_iff in Hq as [_ Hq%bool_decide_eq_false]. unfold register in Hop. rewrite Hst in Hop.
    by destruct (lifecycle st).
Qed.

(** A producer that is turned away takes the run down with it: when a reservation, a claim with the bound key, a
    fork or a tracking of a lease is refused on a run the ledger knows, the run is quarantined afterwards. *)
Theorem refusal_quarantines ops id w' :
  refused (history ops) id w' -> exists st, runs w' !! id = Some st /\ lifecycle st = life_quarantined.
Proof. apply refused_state; [apply (lo_work _ (history_ok ops)) | apply history_domains]. Qed.

(** An open lease carries the live domain of its run: as long as the lease is open and its run is not quarantined, the
    run still has its cancellation domain, the one of the lease, and cannot be proved settled. *)
Theorem open_lease_is_live ops l le st :
  leases (history ops) !! l = Some le -> le_closed le = false -> runs (history ops) !! le_run le = Some st ->
  lifecycle st <> life_quarantined -> domain st = Some (le_domain le) /\ settlementProof st = None.
Proof.
  intros Hle Hc Hst Hq. assert (Hd : domain st = Some (le_domain le)) by by eapply (do_lease _ (history_domains ops)).
  split; [done|]. destruct (settlementProof st) eqn:Hp; [|done].
  destruct (ok_proved _ (ok_runs _ (lo_work _ (history_ok ops)) _ _ Hst)) as [_ Hn]; congruence.
Qed.
