(* ===== verification/RunLedgerDemo.v ===== *)
(** * A day of the resource ledger: a run that settles, one that is quarantined *)
From S2P Require Import Prelude.
From S2P Require Import RunLedger.
From S2P Require Import RunLedgerProofs.
From S2P Require Import RunLedgerSafety.
From S2P Require Import RunLedgerPromises.
#[local] Open Scope Z_scope.
#[local] Open Scope js_scope.

Definition run_a : jstr := u "run-a".
Definition run_b : jstr := u "run-b".
Definition domain_a : Domain := standalone_domain 0.

(** The run is opened, a tool reserves a lease, its work is tracked and forked, the run is sealed and waited for. *)
Definition ops_work : list Op :=
  [op_bind_key 7; op_open run_a None; op_reserve run_a (Some domain_a) kind_tool (u "read") 1;
   op_lease_track 0 kind_tool (u "read") 2; op_lease_fork 0 domain_a provider_iterator (u "stream") 3; op_seal run_a;
   op_wait run_a].

(** All but the last of its four promises settle: the tracked work, and both leases once they are closed. *)
Definition ops_settling : list Op :=
  ops_work ++ [op_observed 1; op_close 0; op_observed 0; op_close 1].

(** Another run, of which the waiter times out. *)
Definition ops_other : list Op :=
  [op_bind_key 7; op_open run_b None; op_track run_b kind_tool (u "shell") 5; op_wait run_b; op_timeout run_b 0; op_wait run_b].

Lemma waits_for_the_lease : resolved (history ops_settling) = [].
Proof. vm_compute. reflexivity. Qed.
Lemma the_last_promise :
  events (history (ops_settling ++ [op_observed 0]))
  = events (history ops_settling) ++ [ev_resolve 0 run_a settled; ev_release standaloneBridge run_a disposed_settled].
Proof. vm_compute. reflexivity. Qed.
Lemma tells_the_waiter :
  ev_resolve 0 run_a settled ∈ [ev_resolve 0 run_a settled; ev_release standaloneBridge run_a disposed_settled].
Proof. left. Qed.

Lemma settled_means_done_witness :
  exists st, runs (history (ops_settling ++ [op_observed 0])) !! run_a = Some st /\ lifecycle st = life_sealed
    /\ resources st = [] /\ (forall o, o ∈ observers (history (ops_settling ++ [op_observed 0])) -> ob_run o <> run_a)
    /\ (forall l le, leases (history (ops_settling ++ [op_observed 0])) !! l = Some le -> le_run le = run_a -> le_closed le = true).
Proof. exact (settled_means_done ops_settling (op_observed 0) _ run_a 0 the_last_promise tells_the_waiter). Defined.

Lemma second_waiter_known : (1 < nextWaiter (history ops_other))%nat.
Proof. vm_compute. lia. Qed.

Lemma every_wait_is_answered_witness :
  NoDup (resolved (history ops_other))
  /\ (1%nat ∈ resolved (history ops_other)
      \/ exists id st, runs (history ops_other) !! id = Some st /\ 1%nat ∈ waiters st /\ settlementProof st = None
           /\ (forall id' st', runs (history ops_other) !! id' = Some st' -> 1%nat ∈ waiters st' -> id' = id)
           /\ resolved (history (ops_other ++ [op_timeout id 1])) = resolved (history ops_other) ++ [1%nat]).
Proof. exact (every_wait_is_answered ops_other 1 second_waiter_known). Defined.

Definition state_of (id : jstr) (w : Ledger) : RunState :=
  default (opened_run domain_a standaloneBridge) (runs w !! id).

(** While its leases are open. *)
Lemma run_a_working : runs (history ops_work) !! run_a = Some (state_of run_a (history ops_work)).
Proof. vm_compute. reflexivity. Qed.

Lemma domain_given_back_once_witness :
  release_count run_a (events (history ops_work))
    = (match domain (state_of run_a (history ops_work)) with None => 1 | Some _ => 0 end)%nat
  /\ (settlementProof (state_of run_a (history ops_work)) <> None -> domain (state_of run_a (history ops_work)) = None)
  /\ (lifecycle (state_of run_a (history ops_work)) = life_open -> is_Some (domain (state_of run_a (history ops_work)))).
Proof. exact (domain_given_back_once ops_work run_a _ run_a_working). Defined.

(** Work that arrives after the quarantine, and a wait. *)
Definition ops_late : list Op := [op_track run_a kind_tool (u "late") 9; op_observed 1; op_wait run_a; op_seal run_a].

Lemma quarantine_is_final_witness :
  exists st', runs (history (ops_work ++ op_quarantine run_a :: ops_late)) !! run_a = Some st'
    /\ lifecycle st' = life_quarantined /\ resources st' = [] /\ waiters st' = [] /\ domain st' = None
    /\ (length (tombstone st') <= MAX_TOMBSTONE_ENTRIES)%nat
    /\ forall k proof, ev_resolve k run_a proof ∈ drop (length (events (history ops_work)))
           (events (history (ops_work ++ op_quarantine run_a :: ops_late))) ->
         exists pending, proof = unfenced reason_quarantined pending.
Proof. exact (quarantine_is_final ops_work ops_late run_a _ run_a_working). Defined.

(** Both waiters, the one before the quarantine and the one after it, are told what was pending. *)
Example quarantine_answers_both :
  map (fun e => match e with ev_resolve _ _ (unfenced _ ts) => length ts | _ => O end)
    (List.filter (fun e => match e with ev_resolve _ _ _ => true | _ => false end)
       (events (history (ops_work ++ op_quarantine run_a :: ops_late)))) = [3; 4]%nat.
Proof. vm_compute. reflexivity. Qed.

(** A reservation on the sealed run. *)
Definition after_refusal : Ledger := fst (reserveProducer run_a (Some domain_a) kind_tool (u "write") 6 (history ops_work)).

Lemma reservation_refused :
  reserveProducer run_a (Some domain_a) kind_tool (u "write") 6 (history ops_work) = (after_refusal, Err sealed_run).
Proof. vm_compute. reflexivity. Qed.
Lemma sealed_is_a_run : sealed_run <> no_run.
Proof. discriminate. Qed.

Lemma refusal_quarantines_witness :
  exists st, runs after_refusal !! run_a = Some st /\ lifecycle st = life_quarantined.
Proof.
  exact (refusal_quarantines ops_work run_a after_refusal
    (refused_reserve _ _ _ _ _ _ _ _ reservation_refused sealed_is_a_run)).
Defined.

Definition lease_a : Lease := {| le_run := run_a; le_domain := domain_a; le_closed := false |}.
Lemma lease_a_open : leases (history ops_work) !! 0%nat = Some lease_a.
Proof. vm_compute. reflexivity. Qed.
Lemma run_a_not_quarantined : lifecycle (state_of run_a (history ops_work)) <> life_quarantined.
Proof. vm_compute. discriminate. Qed.

Lemma open_lease_is_live_witness :
  domain (state_of run_a (history ops_work)) = Some domain_a /\ settlementProof (state_of run_a (history ops_work)) = None.
Proof. exact (open_lease_is_live ops_work 0 lease_a _ lease_a_open eq_refl run_a_working run_a_not_quarantined). Defined.

(** Work that is registered after a run without resources was sealed comes too late: the waiter was told that the run is
    settled, the domain is gone, and the run is unsettled again. *)
Example late_work_unsettles_a_settled_run :
  let w := history [op_open run_b None; op_wait run_b; op_seal run_b; op_track run_b post_prompt (u "memory") 3; op_wait run_b] in
  events w = [ev_resolve 0 run_b settled; ev_release standaloneBridge run_b disposed_settled]
  /\ map en_label (pending run_b w) = [u "memory"] /\ settlementProof (state_of run_b w) = None.
Proof. vm_compute. auto. Qed.
