(* ===== verification/Staged.v ===== *)
(** * The size of what a managed attempt stages

    packages/agent/src/agent-loop.ts: how large a value is as JSON and as a clone, measured by walking
    it and without making either; the bounded copy that replaces what cannot be cloned; and the caps.
    A value is the unfolding of an object graph, with [VBack] for a reference to an object that is
    being walked.  Numbers are integers; a [toJSON] is an inherited method. *)
From S2P Require Import Prelude.
From S2P Require Import Json.
#[local] Open Scope Z_scope.
#[local] Open Scope js_scope.

(** A property: its value, no element (an index of a sparse array), or an accessor that answers or throws. *)
Inductive slot (V : Type) := Data (v : V) | Hole | Getter (answer : option V).
Arguments Data {V} v.
Arguments Hole {V}.
Arguments Getter {V} answer.

(** The [toJSON] of an object; [None] is a throw. *)
Inductive method (V : Type) := NoMethod | Method (answer : option V).
Arguments NoMethod {V}.
Arguments Method {V} answer.

Inductive typed_kind := one_byte | two_bytes | four_bytes | eight_bytes.

Inductive value :=
| VUndefined
| VNull
| VBool (b : bool)
| VNumber (n : Z)
| VString (s : jstr)
| VBigInt (n : Z)
| VFunction
| VSymbol
| VBack
| VProxy (shows : option value)
| VDate (iso : option jstr)
| VRegExp (source : jstr)
| VMap (entries : list (value * value))
| VSet (elements : list value)
| VBuffer (bytes : Z)
| VTyped (kind : typed_kind) (elements : list Z)
| VArray (items : list (slot value)) (extra : list (jstr * slot value)) (toJSON : method value)
| VObject (fields : list (jstr * slot value)) (toJSON : method value).

(** ** Walks that count and may stop

    A walk takes the bytes seen so far: it goes on, stops because they exceed the limit
    ([MANAGED_SIZE_SENTINEL]), or throws. *)
Inductive walked := Seen (n : Z) | Exceeded | Hostile.
Definition Walk := Z -> walked.

Definition exceeds (limit : option Z) (n : Z) : bool := match limit with Some l => l <? n | None => false end.
Definition add (limit : option Z) (bytes : Z) : Walk :=
  fun seen => if exceeds limit (seen + bytes) then Exceeded else Seen (seen + bytes).
Definition skip : Walk := Seen.
Definition hostile : Walk := fun _ => Hostile.
Definition andThen (a b : Walk) : Walk := fun seen => match a seen with Seen n => b n | r => r end.
Declare Scope walk_scope.
Delimit Scope walk_scope with walk.
Infix ">>>" := andThen (at level 61, left associativity) : walk_scope.
#[local] Open Scope walk_scope.

(** ** Strings *)

(** [MANAGED_PLAIN_ASCII] finds a unit outside of it. *)
Definition plain_ascii (c : jchar) : bool :=
  ((32 <=? c) && (c <=? 33)) || ((35 <=? c) && (c <=? 91)) || ((93 <=? c) && (c <=? 126)).

Definition unit_charge (c : jchar) : Z :=
  if (c =? 34) || (c =? 92) then 2
  else if (c =? 8) || (c =? 9) || (c =? 10) || (c =? 12) || (c =? 13) then 2
  else if c <=? 31 then 6
  else if (55296 <=? c) && (c <=? 57343) then 6
  else if c <=? 127 then 1
  else if c <=? 2047 then 2
  else 3.

(** The loop over the code points: a pair of surrogates is one. *)
Fixpoint charge_units (limit : option Z) (s : jstr) : Walk :=
  match s with
  | [] => skip
  | c :: s' =>
      match s' with
      | d :: s'' => if is_high c && is_low d then add limit 4 >>> charge_units limit s''
                    else add limit (unit_charge c) >>> charge_units limit s'
      | [] => add limit (unit_charge c)
      end
  end.

Definition managedChargeStringBytes (limit : option Z) (text : jstr) : Walk :=
  add limit 1 >>>
  (if forallb plain_ascii text then add limit (zlen text) >>> add limit 1
   else charge_units limit text >>> add limit 1).

(** ** The JSON surface *)

Definition read_slot {A} (throws hole : A) (f : value -> A) (s : slot value) : A :=
  match s with
  | Data v => f v
  | Hole => hole
  | Getter (Some v) => f v
  | Getter None => throws
  end.

(** [prepare]: [own] of the value itself, or [returned] of what its [toJSON] returns.  A date prints itself; a
    proxy is what its traps show. *)
Definition prepare {A} (throws : A) (date : option jstr -> A) (own returned : value -> A) (v : value) : A :=
  match v with
  | VArray _ _ (Method (Some r)) | VObject _ (Method (Some r)) => returned r
  | VArray _ _ (Method None) | VObject _ (Method None) => throws
  | VDate iso => date iso
  | VProxy (Some r) => returned r
  | VProxy None => throws
  | _ => own v
  end.

(** [JSON.stringify] omits such a value in an object. *)
Definition omitted (v : value) : bool := match v with VUndefined | VFunction | VSymbol => true | _ => false end.

(** What becomes of a field: it is omitted, reading it throws, or its value is walked. *)
Inductive field := left_out | unreadable | printed (w : Walk).

(** Between elements. *)
Definition comma (limit : option Z) (emitted : bool) : Walk := if emitted then add limit 1 else skip.

Section json_walk.
Context (limit : option Z).

Definition charge_bool (b : bool) : Walk := add limit (if b then 4 else 5).
Definition charge_number (n : Z) : Walk := add limit (zlen (num_to_str n)).

(** A field that is printed: its separator, its key and its value. *)
Definition charge_field (emitted : bool) (key : jstr) (w : Walk) : Walk :=
  comma limit emitted >>> managedChargeStringBytes limit key >>> add limit 1 >>> w.

(** The loops over the elements of an array, over the fields of an object, and over the entries of a collection. *)
Definition over_items {A} (w : A -> Walk) : bool -> list A -> Walk :=
  fix go (first : bool) (l : list A) : Walk :=
    match l with [] => skip | s :: l' => comma limit (negb first) >>> w s >>> go false l' end.
Definition over_fields {A} (w : A -> field) : bool -> list (jstr * A) -> Walk :=
  fix go (emitted : bool) (l : list (jstr * A)) : Walk :=
    match l with
    | [] => skip
    | (key, s) :: l' =>
        match w s with
        | left_out => go emitted l'
        | unreadable => hostile
        | printed x => charge_field emitted key x >>> go true l'
        end
    end.
Definition in_turn {A} (w : A -> Walk) : list A -> Walk :=
  fix go (l : list A) : Walk := match l with [] => skip | x :: l' => w x >>> go l' end.

(** The elements of a typed array are its fields. *)
Definition typed_fields (elements : list Z) : list (jstr * Z) := imap (fun i n => (num_to_str (Z.of_nat i), n)) elements.

Definition charge_date (iso : option jstr) : Walk :=
  match iso with Some t => managedChargeStringBytes limit t | None => add limit 4 end.

Fixpoint walkPrepared (v : value) (inArray : bool) {struct v} : Walk :=
  match v with
  | VNull => add limit 4
  | VUndefined | VFunction | VSymbol => if inArray then add limit 4 else skip
  | VString s => managedChargeStringBytes limit s
  | VBool b => charge_bool b
  | VNumber n => charge_number n
  | VBigInt _ | VBack => hostile
  | VProxy (Some w) => walkPrepared w inArray
  | VProxy None => hostile
  | VDate _ | VRegExp _ | VMap _ | VSet _ | VBuffer _ => add limit 1 >>> add limit 1
  | VTyped _ elements =>
      add limit 1 >>> over_fields (fun n => printed (charge_number n)) false (typed_fields elements) >>> add limit 1
  | VArray items _ _ =>
      add limit 1 >>>
      over_items
        (read_slot hostile (add limit 4)
           (prepare hostile charge_date (fun w => walkPrepared w true) (fun r => walkPrepared r true))) true items >>>
      add limit 1
  | VObject fields _ =>
      add limit 1 >>>
      over_fields
        (read_slot unreadable left_out
           (prepare unreadable (fun iso => printed (charge_date iso))
              (fun w => match w with VUndefined | VFunction => left_out | _ => printed (walkPrepared w false) end)
              (fun r => if omitted r then left_out else printed (walkPrepared r false)))) false fields >>>
      add limit 1
  end.
End json_walk.

(** [managedJsonByteLengthWithin]: [Hostile] stands for [undefined], [Exceeded] for the sentinel. *)
Definition managedJsonByteLengthWithin (v : value) (limit : option Z) : walked :=
  prepare hostile
    (charge_date limit)
    (fun w => match w with VFunction => hostile | _ => walkPrepared limit w false end)
    (fun r => if omitted r then hostile else walkPrepared limit r false) v 0.

Definition managedSnapshotJsonByteLength (v : value) : option Z :=
  match managedJsonByteLengthWithin v None with Seen n => Some n | _ => None end.

Inductive Excess := over | under | unknown.
Definition managedSnapshotExceedsBytes (v : value) (limit : Z) : Excess :=
  match managedJsonByteLengthWithin v (Some limit) with Seen _ => under | Exceeded => over | Hostile => unknown end.

(** ** The clone surface *)

Definition MANAGED_CLONE_NODE_OVERHEAD_BYTES : Z := 64.

Definition managedTypedArrayJsonDigits (k : typed_kind) : Z :=
  match k with one_byte => 4 | two_bytes => 6 | four_bytes => 11 | eight_bytes => 24 end.
Definition element_bytes (k : typed_kind) : Z :=
  match k with one_byte => 1 | two_bytes => 2 | four_bytes => 4 | eight_bytes => 8 end.

Fixpoint clone_walk (limit : option Z) (v : value) {struct v} : Walk :=
  let node := add limit MANAGED_CLONE_NODE_OVERHEAD_BYTES in
  match v with
  | VNull => add limit 4
  | VFunction | VSymbol | VProxy _ | VBack => hostile
  | VUndefined => skip
  | VString s => managedChargeStringBytes limit s
  | VNumber n => charge_number limit n
  | VBool b => charge_bool limit b
  | VBigInt n => add limit (MANAGED_CLONE_NODE_OVERHEAD_BYTES + zlen (num_to_str n))
  | VDate _ => node >>> add limit 32
  | VRegExp source => node >>> add limit (2 + zlen source)
  | VMap entries => node >>> in_turn (fun e => node >>> clone_walk limit (fst e) >>> clone_walk limit (snd e)) entries
  | VSet elements => node >>> in_turn (fun x => node >>> clone_walk limit x) elements
  | VBuffer bytes => node >>> add limit bytes
  | VTyped k elements =>
      node >>> add limit (zlen elements * element_bytes k + zlen elements * managedTypedArrayJsonDigits k)
  | VArray items extra _ =>
      node >>> add limit 2 >>>
      over_items limit (fun s => match s with Data x => clone_walk limit x | Hole => add limit 4 | Getter _ => hostile end)
        true items >>>
      in_turn (fun e => match snd e with
                        | Data x => managedChargeStringBytes limit (fst e) >>> clone_walk limit x
                        | Hole => managedChargeStringBytes limit (fst e)
                        | Getter _ => hostile
                        end) extra
  | VObject fields _ =>
      node >>> add limit 2 >>>
      over_fields limit
        (fun s => match s with Data x => printed (clone_walk limit x) | Hole => printed skip | Getter _ => unreadable end)
        false fields
  end.

Inductive Surface := surface_over | surface_under | degrade.
Definition managedCloneSurfaceExceedsBudget (v : value) (limit : Z) : Surface :=
  match clone_walk (Some limit) v 0 with Seen _ => surface_under | Exceeded => surface_over | Hostile => degrade end.

(** ** Copies *)

(** [structuredClone]: accessors are read, inherited methods dropped; [None] is a [DataCloneError] or a throw of
    an accessor. *)
Definition traverse {A B} (f : A -> option B) : list A -> option (list B) :=
  fix go (l : list A) : option (list B) :=
    match l with
    | [] => Some []
    | x :: l' => match f x with Some y => match go l' with Some r => Some (y :: r) | None => None end | None => None end
    end.
Definition clone_slot (f : value -> option value) (s : slot value) : option (slot value) :=
  match s with
  | Data x | Getter (Some x) => match f x with Some y => Some (Data y) | None => None end
  | Hole => Some Hole
  | Getter None => None
  end.
Definition clone_field (f : value -> option value) (kv : jstr * slot value) : option (jstr * slot value) :=
  match clone_slot f (snd kv) with Some s => Some (fst kv, s) | None => None end.
Definition clone_entry (f : value -> option value) (e : value * value) : option (value * value) :=
  match f (fst e), f (snd e) with Some k, Some x => Some (k, x) | _, _ => None end.

Fixpoint structuredClone (v : value) : option value :=
  match v with
  | VFunction | VSymbol | VProxy _ => None
  | VMap entries => VMap <$> traverse (clone_entry structuredClone) entries
  | VSet elements => VSet <$> traverse structuredClone elements
  | VArray items extra _ =>
      match traverse (clone_slot structuredClone) items, traverse (clone_field structuredClone) extra with
      | Some items', Some extra' => Some (VArray items' extra' NoMethod)
      | _, _ => None
      end
  | VObject fields _ =>
      (fun fields' => VObject fields' NoMethod) <$> traverse (clone_field structuredClone) fields
  | _ => Some v
  end.

(** *** [sanitizedDetachedClone] *)

Definition MANAGED_SNAPSHOT_MAX_NODES : Z := 100000.

(** [takeBudget]: [None] spends what is left. *)
Definition takeBudget (units budget : Z) : option Z := if budget <? units then None else Some (budget - units).

Definition present (s : slot value) : bool := match s with Hole => false | _ => true end.
(** The indices that have elements are the first ones. *)
Definition dense (items : list (slot value)) : bool := forallb (fun s => negb (present s)) (drop_while present items).

(** [readOwnValue] *)
Definition read_own (walk : value -> Z -> value * Z) (s : slot value) (budget : Z) : value * Z :=
  match s with
  | Data x => walk x budget
  | Getter _ => (VString (u "[accessor]"), budget)
  | Hole => (VString (u "[unserializable]"), budget)
  end.

Definition plain_items (l : list value) : value := VArray (map Data l) [] NoMethod.
Definition plain_fields (l : list (jstr * value)) : value := VObject (map (fun kv => (fst kv, Data (snd kv))) l) NoMethod.

(** The loops over the keys of an object, over the present elements of an array, and over a typed array. *)
Definition own_fields_walk (walk : value -> Z -> value * Z) : list (jstr * slot value) -> Z -> list (jstr * value) * Z :=
  fix go l b :=
    match l with
    | [] => ([], b)
    | (key, s) :: l' => let '(x, b) := read_own walk s b in let '(r, b) := go l' b in ((key, x) :: r, b)
    end.
Definition own_items_walk (walk : value -> Z -> value * Z) : Z -> list (slot value) -> Z -> list (jstr * value) * Z :=
  fix go i l b :=
    match l with
    | [] => ([], b)
    | s :: l' =>
        match s with
        | Hole => go (i + 1) l' b
        | _ => let '(x, b) := read_own walk s b in let '(r, b) := go (i + 1) l' b in ((num_to_str i, x) :: r, b)
        end
    end.
Definition numbers_walk : Z -> list Z -> Z -> list (jstr * value) * Z :=
  fix go i l b :=
    match l with
    | [] => ([], b)
    | n :: l' =>
        let '(x, b) := match takeBudget 1 b with None => (VString (u "[truncated]"), 0) | Some b => (VNumber n, b) end in
        let '(r, b) := go (i + 1) l' b in ((num_to_str i, x) :: r, b)
    end.

(** [walk] of it, with the budget that is left. *)
Fixpoint sanitize (v : value) (budget : Z) {struct v} : value * Z :=
  let truncated := (VString (u "[truncated]"), 0) in
  match takeBudget 1 budget with
  | None => truncated
  | Some b =>
      match v with
      | VBigInt n => (VString (num_to_str n), b)
      | VFunction | VSymbol | VProxy _ => (VString (u "[unserializable]"), b)
      | VBack => (VString (u "[Circular]"), b)
      | VUndefined | VNull | VBool _ | VNumber _ | VString _ | VDate _ => (v, b)
      | VRegExp _ | VMap _ | VSet _ | VBuffer _ => (plain_fields [], b)
      | VTyped _ elements =>
          match takeBudget (zlen elements) b with
          | None => truncated
          | Some b => let '(l, b) := numbers_walk 0 elements b in (plain_fields l, b)
          end
      | VArray items extra _ =>
          match takeBudget (zlen (List.filter present items) + zlen extra) b with
          | None => truncated
          | Some b =>
              let '(l, b) := own_items_walk sanitize 0 items b in
              (match extra with
               | [] => if dense items then plain_items (map snd l) else plain_fields l
               | _ => plain_fields l
               end, b)
          end
      | VObject fields _ =>
          match takeBudget (zlen fields) b with
          | None => truncated
          | Some b => let '(l, b) := own_fields_walk sanitize fields b in (plain_fields l, b)
          end
      end
  end.

Definition sanitizedDetachedClone (v : value) (maxNodes : Z) : value := fst (sanitize v maxNodes).

(** *** Snapshots *)

Record Detailed := { dt_snapshot : value; jsonBytes : option Z; sanitized : bool }.

Definition measured (v : value) (s : bool) : Detailed :=
  {| dt_snapshot := v; jsonBytes := managedSnapshotJsonByteLength v; sanitized := s |}.

(** [managedAttemptSnapshotDetailed], with the limit it is given or the cap. *)
Definition managedAttemptSnapshotDetailed (v : value) (byteLimit : Z) : Detailed :=
  match managedCloneSurfaceExceedsBudget v byteLimit with
  | surface_under =>
      match structuredClone v with
      | Some snapshot =>
          match managedSnapshotJsonByteLength snapshot with
          | Some bytes => {| dt_snapshot := snapshot; jsonBytes := Some bytes; sanitized := false |}
          | None => measured (sanitizedDetachedClone snapshot MANAGED_SNAPSHOT_MAX_NODES) true
          end
      | None => measured (sanitizedDetachedClone v MANAGED_SNAPSHOT_MAX_NODES) true
      end
  | _ => measured (sanitizedDetachedClone v MANAGED_SNAPSHOT_MAX_NODES) true
  end.

(** ** Caps *)

Definition MANAGED_ATTEMPT_MAX_STAGED_EVENTS : Z := 10000.
Definition MANAGED_ATTEMPT_MAX_STAGED_BYTES : Z := 16 * 1024 * 1024.
Definition MANAGED_STAGED_PEAK_RSS_BUDGET_BYTES : Z := 4 * 1024 * 1024 * 1024.
Definition MANAGED_STAGED_PEAK_RSS_FACTOR : Z := 4.
Definition MANAGED_ATTEMPT_STAGED_EVENTS_CEILING : Z := 2000000.
Definition MANAGED_ATTEMPT_STAGED_BYTES_CEILING : Z :=
  MANAGED_STAGED_PEAK_RSS_BUDGET_BYTES / MANAGED_STAGED_PEAK_RSS_FACTOR.
Definition MAX_SAFE_INTEGER : Z := 2 ^ 53 - 1.

(** [/^\d+$/] *)
Definition all_digits (s : jstr) : bool := negb (bool_decide (s = [])) && forallb is_digit s.
Definition strip_zeros (s : jstr) : jstr := drop_while (fun c => c =? 48) s.

Definition parsePositiveEnvInt (raw : jstr) : option Z :=
  if all_digits raw then
    let parsed := parse_dec raw in
    if (parsed <=? MAX_SAFE_INTEGER) && (0 <? parsed) then Some parsed else None
  else None.

Definition isPositiveDecimalDigits (raw : jstr) : bool := all_digits raw && negb (bool_decide (strip_zeros raw = [])).

Definition decimalAtLeast (raw : jstr) (threshold : Z) : bool :=
  let digits := strip_zeros raw in
  let thresholdDigits := strip_zeros (num_to_str threshold) in
  if negb (zlen digits =? zlen thresholdDigits) then zlen thresholdDigits <? zlen digits
  else negb (str_lt digits thresholdDigits).

(** [warnClampedStagedCap]: the payload of the warning, which is also what it is remembered by. *)
Definition warned_as (requested : Z + jstr) : jstr :=
  match requested with
  | inl n => num_to_str n
  | inr s => num_to_str (zlen s) ++ u " digits (starts " ++ slice s 0 8 ++ u ")"
  end.
Definition warnClampedStagedCap (name : jstr) (requested : Z + jstr) (warned : gset jstr) : gset jstr * bool :=
  let key := name ++ u ":" ++ warned_as requested in
  if bool_decide (key ∈ warned) then (warned, false) else ({[ key ]} ∪ warned, true).

(** [clampedStagedCap]: the cap, and the request that is warned of. *)
Definition clampedStagedCap (env : option jstr) (fallback ceiling : Z) : Z * option (Z + jstr) :=
  match trim <$> env with
  | None => (fallback, None)
  | Some raw =>
      match parsePositiveEnvInt raw with
      | Some parsed => if parsed <=? ceiling then (parsed, None) else (ceiling, Some (inl parsed))
      | None =>
          if isPositiveDecimalDigits raw && decimalAtLeast raw (ceiling + 1) then (ceiling, Some (inr raw))
          else (fallback, None)
      end
  end.

Definition managedAttemptMaxStagedEvents (env : option jstr) : Z :=
  fst (clampedStagedCap env MANAGED_ATTEMPT_MAX_STAGED_EVENTS MANAGED_ATTEMPT_STAGED_EVENTS_CEILING).
Definition managedAttemptMaxStagedBytes (env : option jstr) : Z :=
  fst (clampedStagedCap env MANAGED_ATTEMPT_MAX_STAGED_BYTES MANAGED_ATTEMPT_STAGED_BYTES_CEILING).

(** ** Reading and changing plain objects *)

(** [managedProperty(v, key)]: an accessor that throws reads as [undefined]. *)
Fixpoint slot_of (fields : list (jstr * slot value)) (key : jstr) : option (slot value) :=
  match fields with
  | [] => None
  | (k, s) :: l => if k === key then Some s else slot_of l key
  end.
Definition managedProperty (v : value) (key : jstr) : value :=
  match v with
  | VObject fields _ => match slot_of fields key with Some (Data x) | Some (Getter (Some x)) => x | _ => VUndefined end
  | _ => VUndefined
  end.

(** [{ ...v, [key]: x }] of an object with data properties. *)
Fixpoint put_field (key : jstr) (x : value) (fields : list (jstr * slot value)) : list (jstr * slot value) :=
  match fields with
  | [] => [(key, Data x)]
  | (k, s) :: l => if k === key then (k, Data x) :: l else (k, s) :: put_field key x l
  end.
Definition with_field (key : jstr) (x : value) (v : value) : value :=
  VObject (put_field key x (match v with VObject fields _ => fields | _ => [] end)) NoMethod.

Definition isManagedPlainRecord (v : value) : bool :=
  match v with
  | VDate _ | VRegExp _ | VMap _ | VSet _ | VBuffer _ | VTyped _ _ | VObject _ _ => true
  | _ => false
  end.

Definition LOSSLESS_SNAPSHOT_KEYS : list jstr :=
  map u ["role"; "content"; "api"; "provider"; "model"; "responseId"; "usage"; "stopReason"; "errorMessage"; "errorKind";
         "errorStatus"; "transportFailure"; "disabledFeatures"; "bufferOverflow"; "providerPayload"; "timestamp"; "duration";
         "ttft"; "type"; "contentIndex"; "delta"; "partial"; "toolCall"; "reason"; "message"; "error"]%string.
Definition TRANSPORT_KEYS : list jstr :=
  map u ["kind"; "status"; "code"; "providerCode"; "openaiErrorCode"; "anthropicErrorType"; "retryAfterMs"; "headers"]%string.

(** The own data properties among [keys] that can be cloned; [otherwise] is asked about the others. *)
Definition cloneable (otherwise : jstr -> value -> option value) (keys : list jstr) (v : value) : list (jstr * slot value) :=
  flat_map (fun key =>
    match v with
    | VObject fields _ =>
        match slot_of fields key with
        | Some (Data x) =>
            match structuredClone x with
            | Some y => [(key, Data y)]
            | None => match otherwise key x with Some y => [(key, Data y)] | None => [] end
            end
        | _ => []
        end
    | _ => []
    end) keys.

Definition lossless_surface (v : value) : value :=
  VObject (cloneable (fun key x =>
    if (key ==s "transportFailure") && isManagedPlainRecord x
    then Some (VObject (cloneable (fun _ _ => None) TRANSPORT_KEYS x) NoMethod) else None) LOSSLESS_SNAPSHOT_KEYS v) NoMethod.

Definition losslessDetachedClone (cap : Z) (v : value) : value :=
  let measured_or_sanitized x :=
    match managedSnapshotJsonByteLength x with
    | Some _ => x
    | None => sanitizedDetachedClone x MANAGED_SNAPSHOT_MAX_NODES
    end in
  match managedCloneSurfaceExceedsBudget v cap with
  | surface_over => sanitizedDetachedClone v MANAGED_SNAPSHOT_MAX_NODES
  | _ =>
      match structuredClone v with
      | Some snapshot => measured_or_sanitized snapshot
      | None =>
          if isManagedPlainRecord v then measured_or_sanitized (lossless_surface v)
          else sanitizedDetachedClone v MANAGED_SNAPSHOT_MAX_NODES
      end
  end.
