(* ===== verification/StagedSize.v ===== *)
(** * The walk measures exactly what [JSON.stringify] would print *)
From S2P Require Import Prelude.
From S2P Require Import Json.
From S2P Require Import Staged.
#[local] Open Scope Z_scope.
#[local] Open Scope js_scope.
#[local] Open Scope walk_scope.

(** ** Charges *)

(** [w] counts [k] bytes, and stops when that is too much. *)
Definition charges (limit : option Z) (k : Z) (w : Walk) : Prop :=
  0 <= k /\ forall n, exceeds limit n = false -> w n = if exceeds limit (n + k) then Exceeded else Seen (n + k).

(** [w] does not come to an end. *)
Definition fails (limit : option Z) (w : Walk) : Prop := forall n, exceeds limit n = false -> forall m, w n <> Seen m.

Create HintDb charges.

Section charges.
Context (limit : option Z).

Lemma exceeds_mono n k : 0 <= k -> exceeds limit n = true -> exceeds limit (n + k) = true.
Proof. destruct limit as [l|]; [|done]. cbn. rewrite !Z.ltb_lt. lia. Qed.

Lemma charges_skip : charges limit 0 skip.
Proof. split; [done|]. intros n Hn. rewrite Z.add_0_r, Hn. done. Qed.

Lemma charges_add k : 0 <= k -> charges limit k (add limit k).
Proof. intros Hk. split; [done|]. done. Qed.

Lemma charges_then j k a b : charges limit j a -> charges limit k b -> charges limit (j + k) (a >>> b).
Proof.
  intros [Hj Ha] [Hk Hb]. split; [lia|]. intros n Hn. unfold andThen. rewrite (Ha n Hn).
  destruct (exceeds limit (n + j)) eqn:E.
  - rewrite Z.add_assoc. by rewrite (exceeds_mono _ k Hk E).
  - by rewrite (Hb _ E), Z.add_assoc.
Qed.

Lemma charges_eq j k w : charges limit j w -> j = k -> charges limit k w.
Proof. by intros ? <-. Qed.

Lemma charges_unique j k w : charges limit j w -> charges limit k w -> j = k.
Proof.
  intros [Hj H1] [Hk H2]. set (n := match limit with Some l => l - j - k | None => 0 end).
  assert (Hn : forall m, 0 <= m <= j + k -> exceeds limit (n + m) = false).
  { intros m Hm. unfold n. destruct limit; [|done]. cbn. apply Z.ltb_ge. lia. }
  assert (H0 : exceeds limit n = false) by (rewrite <- (Z.add_0_r n); apply Hn; lia).
  specialize (H1 n H0). specialize (H2 n H0). rewrite !Hn in * by lia. rewrite H1 in H2. injection H2. lia.
Qed.

Lemma fails_hostile : fails limit hostile.
Proof. done. Qed.

Lemma fails_left a b : fails limit a -> fails limit (a >>> b).
Proof. intros Ha n Hn m. unfold andThen. destruct (a n) eqn:E; [by destruct (Ha n Hn n0) | done | done]. Qed.

Lemma fails_right j a b : charges limit j a -> fails limit b -> fails limit (a >>> b).
Proof.
  intros [Hj Ha] Hb n Hn m. unfold andThen. rewrite (Ha n Hn). destruct (exceeds limit (n + j)) eqn:E; [done | by apply Hb].
Qed.

Lemma charges_comma (b : bool) : charges limit (if b then 1 else 0) (comma limit b).
Proof. destruct b; [by apply charges_add | apply charges_skip]. Qed.
End charges.

#[export] Hint Resolve charges_skip charges_add charges_then charges_comma fails_hostile fails_left fails_right : charges.
#[export] Hint Extern 2 (0 <= _) => lia : charges.
Ltac charge := solve [eauto 10 with charges].

(** ** Bytes of a string *)

Lemma byte_length_sum s : byte_length s = foldr (fun (cp : jstr) (n : Z) => utf8_size cp + n) 0 (code_points s).
Proof.
  unfold byte_length.
  assert (H : forall l (a : Z), fold_left (fun n cp => n + utf8_size cp) l a = a + foldr (fun (cp : jstr) (n : Z) => utf8_size cp + n) 0 l).
  { induction l as [|cp l IH]; intros a; cbn [fold_left foldr]; [lia|]. rewrite IH. lia. }
  by rewrite H.
Qed.

Lemma byte_length_nil : byte_length [] = 0.
Proof. done. Qed.

Lemma byte_length_unit c s : is_high c = false -> byte_length (c :: s) = utf8_size [c] + byte_length s.
Proof.
  intros Hc. rewrite !byte_length_sum. destruct s as [|d s]; [cbn; lia|]. cbn [code_points]. by rewrite Hc.
Qed.

Lemma byte_length_pair c d s : is_high c = true -> is_low d = true -> byte_length (c :: d :: s) = 4 + byte_length s.
Proof. intros Hc Hd. rewrite !byte_length_sum. cbn [code_points]. by rewrite Hc, Hd. Qed.

Lemma byte_length_ascii a s : Forall (fun c => 0 <= c < 128) a -> byte_length (a ++ s) = zlen a + byte_length s.
Proof.
  induction 1 as [|c a Hc _ IH]; [done|]. cbn [app].
  rewrite byte_length_unit, IH, zlen_cons by (unfold is_high; lia). cbn [utf8_size].
  destruct (Z.ltb_spec c 128); lia.
Qed.

Lemma byte_length_only_ascii a : Forall (fun c => 0 <= c < 128) a -> byte_length a = zlen a.
Proof. intros Ha. rewrite <- (app_nil_r a) at 1. rewrite byte_length_ascii by done. rewrite byte_length_nil. lia. Qed.

Lemma hex_digit_ascii d : 0 <= d < 16 -> 0 <= hex_digit d < 128.
Proof. intros Hd. unfold hex_digit. destruct (d <? 10); lia. Qed.

Lemma unit_escape_ascii c : Forall (fun c => 0 <= c < 128) (unit_escape c) /\ zlen (unit_escape c) = 6.
Proof.
  split; [|done]. unfold unit_escape. cbn -[Z.shiftr hex_digit].
  repeat (constructor; [first [lia | apply hex_digit_ascii, Z.mod_pos_bound; lia]|]). constructor.
Qed.

Lemma byte_length_known a s :
  forallb (fun c => (0 <=? c) && (c <? 128)) a = true -> byte_length (a ++ s) = zlen a + byte_length s.
Proof.
  intros Ha. apply byte_length_ascii. rewrite Forall_forall. intros c Hc%list_elem_of_In.
  rewrite forallb_forall in Ha. specialize (Ha c Hc). lia.
Qed.

Lemma quote_unit_bytes c s :
  is_unit c = true -> is_high c = false -> is_low c = false ->
  byte_length (quote_unit c ++ s) = unit_charge c + byte_length s.
Proof.
  intros [H0%Z.leb_le H1%Z.leb_le]%andb_true_iff Hh Hl. unfold quote_unit, unit_charge.
  destruct (Z.eqb_spec c 34) as [->|]; [cbn [orb]; apply (byte_length_known [_; _]); reflexivity|].
  destruct (Z.eqb_spec c 92) as [->|]; [cbn [orb]; apply (byte_length_known [_; _]); reflexivity|].
  destruct (Z.eqb_spec c 8) as [->|]; [cbn [orb]; apply (byte_length_known [_; _]); reflexivity|].
  destruct (Z.eqb_spec c 9) as [->|]; [cbn [orb]; apply (byte_length_known [_; _]); reflexivity|].
  destruct (Z.eqb_spec c 10) as [->|]; [cbn [orb]; apply (byte_length_known [_; _]); reflexivity|].
  destruct (Z.eqb_spec c 12) as [->|]; [cbn [orb]; apply (byte_length_known [_; _]); reflexivity|].
  destruct (Z.eqb_spec c 13) as [->|]; [cbn [orb]; apply (byte_length_known [_; _]); reflexivity|].
  cbn [orb].
  destruct (Z.ltb_spec c 32), (Z.leb_spec c 31); try lia.
  - destruct (unit_escape_ascii c) as [Ha Hz]. by rewrite byte_length_ascii, Hz.
  - cbn [app]. rewrite byte_length_unit by done. f_equal. unfold is_high, is_low in *. cbn [utf8_size].
    destruct ((55296 <=? c) && (c <=? 57343)) eqn:Hs; [lia|].
    destruct (Z.ltb_spec c 128), (Z.leb_spec c 127); try lia. destruct (Z.ltb_spec c 2048), (Z.leb_spec c 2047); lia.
Qed.

(** What the loop over the code points counts. *)
Lemma charge_units_bytes limit s r :
  forallb is_unit s = true ->
  exists k, charges limit k (charge_units limit s) /\ byte_length (quote_body s ++ r) = k + byte_length r.
Proof.
  remember (length s) as n eqn:En. revert s En. induction (lt_wf n) as [n _ IH]. intros s -> Hs.
  assert (Hpos : forall c, 0 <= unit_charge c).
  { intros c. unfold unit_charge. repeat (case_match; try lia). }
  assert (Hlone : forall c, is_unit c = true -> is_high c || is_low c = true -> unit_charge c = 6).
  { intros c Hc Hsur. unfold is_high, is_low in Hsur. unfold unit_charge.
    repeat (match goal with |- context [c =? ?k] => destruct (Z.eqb_spec c k); [lia|] end). cbn [orb].
    destruct (Z.leb_spec c 31); [lia|]. by destruct (Z.leb_spec 55296 c), (Z.leb_spec c 57343); cbn; try lia. }
  assert (Hesc : forall c x, byte_length (unit_escape c ++ x) = 6 + byte_length x).
  { intros c x. destruct (unit_escape_ascii c) as [Ha Hz]. by rewrite byte_length_ascii, Hz. }
  destruct s as [|c s]; [exists 0; split; [apply charges_skip | done]|].
  cbn [forallb] in Hs. apply andb_true_iff in Hs as [Hc Hs].
  assert (Htail : exists k, charges limit k (charge_units limit s) /\ byte_length (quote_body s ++ r) = k + byte_length r)
    by (apply (IH (length s)); [cbn; lia|done|done]).
  destruct Htail as (k & Hk & Hbk).
  assert (Hone : exists k', charges limit k' (match s with [] => add limit (unit_charge c) | _ => add limit (unit_charge c) >>> charge_units limit s end)
    /\ k' = unit_charge c + k).
  { destruct s as [|d s]; [|charge]. cbn in Hk. exists (unit_charge c). split; [charge|].
    rewrite (charges_unique limit k 0 skip Hk (charges_skip limit)). lia. }
  destruct Hone as (k' & Hk' & ->).
  cbn [quote_body charge_units]. destruct (is_high c) eqn:Eh; [|destruct (is_low c) eqn:El].
  - destruct s as [|d s]; [|destruct (is_low d) eqn:El].
    + exists (unit_charge c + k). split; [done|]. rewrite Hesc. cbn [quote_body app] in Hbk. rewrite (Hlone c Hc) by (by rewrite Eh). lia.
    + cbn [forallb] in Hs. apply andb_true_iff in Hs as [Hd Hs].
      destruct (IH (length s) ltac:(cbn; lia) s eq_refl Hs) as (k2 & Hk2 & Hb2). exists (4 + k2).
      cbn [andb]. split; [charge|].
      change ((c :: d :: quote_body s) ++ r) with (c :: d :: (quote_body s ++ r)). rewrite byte_length_pair by done. lia.
    + exists (unit_charge c + k). cbn [andb]. split; [done|]. rewrite <- app_assoc, Hesc, Hbk, (Hlone c Hc) by (by rewrite Eh). lia.
  - exists (unit_charge c + k). split; [by destruct s|]. rewrite <- app_assoc, Hesc, Hbk, (Hlone c Hc) by (by rewrite El, orb_true_r). lia.
  - exists (unit_charge c + k). split; [by destruct s|]. rewrite <- app_assoc, quote_unit_bytes, Hbk by done. lia.
Qed.

Lemma plain_ascii_body s : forallb plain_ascii s = true -> quote_body s = s /\ Forall (fun c => 0 <= c < 128) s.
Proof.
  induction s as [|c s IH]; [done|]. cbn [forallb]. intros [Hc Hs]%andb_true_iff. destruct (IH Hs) as [Hb Ha].
  unfold plain_ascii in Hc. split; [|constructor; [lia | done]]. cbn [quote_body].
  assert (Hh : is_high c = false /\ is_low c = false) by (unfold is_high, is_low; lia). destruct Hh as [-> ->].
  rewrite Hb. unfold quote_unit. repeat (match goal with |- context [c =? ?k] => destruct (Z.eqb_spec c k); [lia|] end).
  destruct (Z.ltb_spec c 32); [lia | done].
Qed.

(** A string costs the bytes of its quoted form. *)
Lemma string_charge limit s :
  forallb is_unit s = true -> charges limit (byte_length (json_quote s)) (managedChargeStringBytes limit s).
Proof.
  intros Hs. unfold managedChargeStringBytes, json_quote.
  rewrite byte_length_known by reflexivity. change (zlen [34]) with 1.
  destruct (forallb plain_ascii s) eqn:Hp.
  - destruct (plain_ascii_body s Hp) as [Hb Ha]. rewrite Hb, byte_length_ascii by done. change (byte_length [34]) with 1.
    pose proof (zlen_nonneg s). charge.
  - destruct (charge_units_bytes limit s [34] Hs) as (k & Hk & Hb). rewrite Hb. change (byte_length [34]) with 1.
    charge.
Qed.
#[export] Hint Resolve string_charge : charges.

(** ** What [JSON.stringify] makes of a value *)

(** [None] is a throw; [JUndefined] is a value that is not printed. *)
Fixpoint json_of (v : value) : option json :=
  match v with
  | VUndefined | VFunction | VSymbol => Some JUndefined
  | VNull => Some JNull
  | VBool b => Some (JBool b)
  | VNumber n => Some (JNum n)
  | VString s => Some (JStr s)
  | VBigInt _ | VBack | VProxy None => None
  | VProxy (Some w) => json_of w
  | VDate _ | VRegExp _ | VMap _ | VSet _ | VBuffer _ => Some (JObj [])
  | VTyped _ elements => Some (JObj (map (fun kv => (fst kv, JNum (snd kv))) (typed_fields elements)))
  | VArray items _ _ =>
      JArr <$> traverse (read_slot None (Some JUndefined)
        (prepare None (fun iso => Some (match iso with Some t => JStr t | None => JNull end)) json_of json_of)) items
  | VObject fields _ =>
      JObj <$> traverse (fun kv =>
        match read_slot None (Some JUndefined)
          (prepare None (fun iso => Some (match iso with Some t => JStr t | None => JNull end)) json_of json_of) (snd kv) with
        | Some j => Some (fst kv, j)
        | None => None
        end) fields
  end.

(** The value that is printed for a property. *)
Definition json_read : slot value -> option json :=
  read_slot None (Some JUndefined)
    (prepare None (fun iso => Some (match iso with Some t => JStr t | None => JNull end)) json_of json_of).

(** *** Induction over a value *)

Definition slot_all (P : value -> Prop) (s : slot value) : Prop :=
  match s with Data x | Getter (Some x) => P x | _ => True end.
Definition method_all (P : value -> Prop) (m : method value) : Prop :=
  match m with Method (Some r) => P r | _ => True end.

Section value_induction.
Variable P : value -> Prop.
Hypothesis Hatom : forall v, match v with VProxy (Some _) | VMap _ | VSet _ | VArray _ _ _ | VObject _ _ => True | _ => P v end.
Hypothesis Hproxy : forall w, P w -> P (VProxy (Some w)).
Hypothesis Hmap : forall l, Forall (fun e => P (fst e) /\ P (snd e)) l -> P (VMap l).
Hypothesis Hset : forall l, Forall P l -> P (VSet l).
Hypothesis Harray : forall items extra m,
  Forall (slot_all P) items -> Forall (fun kv => slot_all P (snd kv)) extra -> method_all P m -> P (VArray items extra m).
Hypothesis Hobject : forall fields m,
  Forall (fun kv => slot_all P (snd kv)) fields -> method_all P m -> P (VObject fields m).
Fixpoint value_induction (v : value) : P v :=
  let on_slot (s : slot value) : slot_all P s :=
    match s with Data x => value_induction x | Getter (Some x) => value_induction x | Getter None => I | Hole => I end in
  let on_method (m : method value) : method_all P m :=
    match m with Method (Some r) => value_induction r | Method None => I | NoMethod => I end in
  let on_fields :=
    fix go (l : list (jstr * slot value)) : Forall (fun kv => slot_all P (snd kv)) l :=
      match l with [] => Forall_nil_2 _ | kv :: l' => Forall_cons_2 _ kv l' (on_slot (snd kv)) (go l') end in
  match v with
  | VProxy (Some w) => Hproxy w (value_induction w)
  | VMap l => Hmap l ((fix go l : Forall (fun e => P (fst e) /\ P (snd e)) l :=
      match l with [] => Forall_nil_2 _ | e :: l' => Forall_cons_2 _ e l' (conj (value_induction (fst e)) (value_induction (snd e))) (go l') end) l)
  | VSet l => Hset l ((fix go l : Forall P l :=
      match l with [] => Forall_nil_2 _ | x :: l' => Forall_cons_2 _ x l' (value_induction x) (go l') end) l)
  | VArray items extra m =>
      Harray items extra m
        ((fix go l : Forall (slot_all P) l :=
            match l with [] => Forall_nil_2 _ | s :: l' => Forall_cons_2 _ s l' (on_slot s) (go l') end) items)
        (on_fields extra) (on_method m)
  | VObject fields m => Hobject fields m (on_fields fields) (on_method m)
  | VUndefined => Hatom VUndefined | VNull => Hatom VNull | VBool b => Hatom (VBool b) | VNumber n => Hatom (VNumber n)
  | VString s => Hatom (VString s) | VBigInt n => Hatom (VBigInt n) | VFunction => Hatom VFunction
  | VSymbol => Hatom VSymbol | VBack => Hatom VBack | VProxy None => Hatom (VProxy None) | VDate iso => Hatom (VDate iso)
  | VRegExp s => Hatom (VRegExp s) | VBuffer n => Hatom (VBuffer n) | VTyped k l => Hatom (VTyped k l)
  end.
End value_induction.

(** ** Exactness *)

Definition slot_ok (f : value -> bool) (s : slot value) : bool :=
  match s with Data x | Getter (Some x) => f x | _ => true end.
Definition method_ok (f : value -> bool) (m : method value) : bool := match m with Method (Some r) => f r | _ => true end.
Definition is_proxy (v : value) : bool := match v with VProxy _ => true | _ => false end.
Definition is_symbol (s : slot value) : bool := match s with Data VSymbol | Getter (Some VSymbol) => true | _ => false end.

(** Strings are sequences of units, no field holds a symbol, and a proxy shows what is printed. *)
Fixpoint well_formed (v : value) : bool :=
  match v with
  | VString s | VDate (Some s) => forallb is_unit s
  | VProxy (Some w) => negb (is_proxy w) && negb (omitted w) && well_formed w
  | VArray items _ m => forallb (slot_ok well_formed) items && method_ok well_formed m
  | VObject fields m =>
      forallb (fun kv => forallb is_unit (fst kv) && slot_ok well_formed (snd kv) && negb (is_symbol (snd kv))) fields
      && method_ok well_formed m
  | _ => true
  end.

(** Text to which other text can be appended without joining a pair of surrogates. *)
Definition solid (t : jstr) : Prop := forall r, byte_length (t ++ r) = byte_length t + byte_length r.

Lemma solid_app a b : solid a -> solid b -> solid (a ++ b).
Proof. intros Ha Hb r. rewrite <- app_assoc, !Ha, Hb. lia. Qed.
Lemma solid_known a : forallb (fun c => (0 <=? c) && (c <? 128)) a = true -> solid a.
Proof.
  intros Ha r. rewrite byte_length_known by done. rewrite <- (app_nil_r a) at 2. rewrite byte_length_known by done.
  rewrite byte_length_nil. lia.
Qed.

Lemma num_to_str_ascii n : Forall (fun c => 0 <= c < 128) (num_to_str n).
Proof.
  destruct (num_to_str_chars n) as [H _]. eapply Forall_impl; [exact H|]. intros c. unfold num_char, is_digit. lia.
Qed.

Lemma solid_num n : solid (num_to_str n).
Proof.
  intros r. rewrite byte_length_ascii by apply num_to_str_ascii. by rewrite (byte_length_only_ascii _ (num_to_str_ascii n)).
Qed.

Lemma solid_quote s : forallb is_unit s = true -> solid (json_quote s).
Proof.
  intros Hs r. unfold json_quote. rewrite <- !app_assoc. rewrite !(byte_length_known [34]) by reflexivity.
  destruct (charge_units_bytes None s ([34] ++ r) Hs) as (k & Hk & Hb).
  destruct (charge_units_bytes None s [34] Hs) as (k' & Hk' & Hb').
  rewrite Hb, Hb', (charges_unique None k k' _ Hk Hk'), (byte_length_known [34]) by reflexivity.
  change (byte_length [34]) with 1. change (zlen [34]) with 1. lia.
Qed.

Lemma solid_join ts : Forall solid ts -> solid (join_with [44] ts).
Proof.
  induction 1 as [|t ts Ht Hts IH]; [done|]. destruct ts as [|t' ts]; [done|].
  rewrite join_cons by done. apply solid_app; [done|]. apply solid_app; [by apply solid_known | done].
Qed.

(** Bytes of a list of texts, with the separators. *)
Definition list_bytes (ts : list jstr) : Z := foldr (fun t n => byte_length t + n) 0 ts + (zlen ts - 1) `max` 0.

Lemma join_bytes ts : Forall solid ts -> byte_length (join_with [44] ts) = list_bytes ts.
Proof.
  unfold list_bytes. induction 1 as [|t ts Ht Hts IH]; [done|]. destruct ts as [|t' ts].
  - cbn [join_with foldr]. change (zlen [t]) with 1. lia.
  - rewrite join_cons by done. rewrite Ht, (byte_length_known [44]), IH by reflexivity.
    change (zlen [44]) with 1. rewrite !zlen_cons. pose proof (zlen_nonneg ts). cbn [foldr]. lia.
Qed.

Lemma bracketed_bytes o c ts :
  0 <= o < 128 -> 0 <= c < 128 -> Forall solid ts ->
  byte_length ([o] ++ join_with [44] ts ++ [c]) = 1 + list_bytes ts + 1 /\ solid ([o] ++ join_with [44] ts ++ [c]).
Proof.
  intros Ho Hc Hts.
  assert (So : solid [o]) by (apply solid_known; cbn; lia). assert (Sc : solid [c]) by (apply solid_known; cbn; lia).
  pose proof (solid_join ts Hts) as Sj. split; [|by repeat apply solid_app].
  rewrite So, Sj, join_bytes by done. rewrite !byte_length_only_ascii by (repeat constructor; lia).
  rewrite !zlen_cons, !zlen_nil. lia.
Qed.

(** What a walk does for the value that is printed as [o]. *)
Definition outcome (limit : option Z) (inArray : bool) (o : option json) (w : Walk) : Prop :=
  match o with
  | None => fails limit w
  | Some j =>
      charges limit (if is_undefined j then if inArray then 4 else 0 else byte_length (stringify j)) w /\ solid (stringify j)
  end.

Lemma outcome_known limit inArray j w k :
  is_undefined j = false -> charges limit k w -> byte_length (stringify j) = k -> solid (stringify j) ->
  outcome limit inArray (Some j) w.
Proof. intros Hu Hk <- Hs. cbn. by rewrite Hu. Qed.

Lemma outcome_string limit inArray s :
  forallb is_unit s = true -> outcome limit inArray (Some (JStr s)) (managedChargeStringBytes limit s).
Proof. intros Hs. split; [by apply string_charge | by apply solid_quote]. Qed.

Lemma outcome_number limit inArray n : outcome limit inArray (Some (JNum n)) (charge_number limit n).
Proof.
  split; [|apply solid_num]. cbn [is_undefined stringify]. rewrite byte_length_only_ascii by apply num_to_str_ascii.
  apply charges_add, zlen_nonneg.
Qed.

Lemma outcome_date limit inArray iso :
  (match iso with Some t => forallb is_unit t | None => true end) = true ->
  outcome limit inArray (Some (match iso with Some t => JStr t | None => JNull end)) (charge_date limit iso).
Proof.
  destruct iso; cbn [charge_date]; [apply outcome_string|]. intros _. split; [by apply charges_add | by apply solid_known].
Qed.

(** ** The loops *)

Lemma over_items_cons {A} limit (w : A -> Walk) first s l :
  over_items limit w first (s :: l) = comma limit (negb first) >>> w s >>> over_items limit w false l.
Proof. done. Qed.
Lemma over_fields_cons {A} limit (w : A -> field) emitted key s l :
  over_fields limit w emitted ((key, s) :: l) =
    match w s with
    | left_out => over_fields limit w emitted l
    | unreadable => hostile
    | printed x => charge_field limit emitted key x >>> over_fields limit w true l
    end.
Proof. done. Qed.
Lemma in_turn_cons {A} (w : A -> Walk) x l : in_turn w (x :: l) = w x >>> in_turn w l.
Proof. done. Qed.
Lemma traverse_cons {A B} (f : A -> option B) x l :
  traverse f (x :: l)
  = match f x with Some y => match traverse f l with Some r => Some (y :: r) | None => None end | None => None end.
Proof. done. Qed.

Lemma items_walk {A} limit (w : A -> Walk) (f : A -> option json) items (first : bool) :
  Forall (fun s => outcome limit true (f s) (w s)) items ->
  match traverse f items with
  | None => fails limit (over_items limit w first items)
  | Some js => charges limit (list_bytes (map stringify js) + (if first then 0 else if bool_decide (js = []) then 0 else 1))
                 (over_items limit w first items)
               /\ Forall solid (map stringify js)
  end.
Proof.
  intros Hf. revert first. induction Hf as [|s items Hs _ IH]; intros first.
  - cbn. split; [|constructor]. destruct first; apply charges_skip.
  - rewrite over_items_cons, traverse_cons. specialize (IH false).
    assert (Hc : charges limit (if first then 0 else 1) (comma limit (negb first))).
    { destruct first; [apply charges_skip | by apply charges_add]. }
    unfold outcome in Hs. destruct (f s) as [j|]; [|by apply fails_left; eapply fails_right].
    destruct Hs as [Hj Hsj]. destruct (traverse f items) as [js|]; [|by eapply fails_right; [eapply charges_then|]].
    destruct IH as [IHc IHs]. split; [|by constructor]. eapply charges_eq; [charge|].
    assert (Hb : (if is_undefined j then 4 else byte_length (stringify j)) = byte_length (stringify j)) by (by destruct j).
    rewrite Hb. unfold list_bytes. cbn [map foldr]. rewrite !zlen_cons, !zlen_map.
    rewrite (bool_decide_eq_false_2 (j :: js = [])) by done. pose proof (zlen_nonneg js).
    destruct js as [|j' js]; [change (zlen (@nil json)) with 0; cbn [map foldr]; rewrite bool_decide_eq_true_2 by done; destruct first; lia|].
    rewrite (bool_decide_eq_false_2 (j' :: js = [])) by done. rewrite !zlen_cons. pose proof (zlen_nonneg js).
    destruct first; lia.
Qed.

(** The texts of the fields that are printed, as in [stringify]. *)
Definition field_texts (js : list (jstr * json)) : list jstr :=
  flat_map (fun kv => if is_undefined (snd kv) then [] else [json_quote (fst kv) ++ [58] ++ stringify (snd kv)]) js.

Lemma field_texts_cons key j js :
  is_undefined j = false -> field_texts ((key, j) :: js) = (json_quote key ++ [58] ++ stringify j) :: field_texts js.
Proof. intros Hu. unfold field_texts. cbn [flat_map fst snd]. by rewrite Hu. Qed.

Definition field_outcome (limit : option Z) (o : option json) (w : field) : Prop :=
  match w with
  | unreadable => o = None
  | left_out => o = Some JUndefined
  | printed x => match o with Some j => is_undefined j = false | None => True end /\ outcome limit false o x
  end.

Definition json_field {A} (f : A -> option json) (kv : jstr * A) : option (jstr * json) :=
  match f (snd kv) with Some j => Some (fst kv, j) | None => None end.

Lemma field_walk limit (emitted : bool) key j x :
  forallb is_unit key = true -> is_undefined j = false -> outcome limit false (Some j) x ->
  charges limit ((if emitted then 1 else 0) + byte_length (json_quote key ++ [58] ++ stringify j)) (charge_field limit emitted key x)
  /\ solid (json_quote key ++ [58] ++ stringify j).
Proof.
  intros Hk Hu [Hj Hs]. rewrite Hu in Hj. pose proof (solid_quote key Hk) as Hq.
  assert (Hc : solid [58]) by (by apply solid_known).
  split; [|apply solid_app; [done | by apply solid_app]].
  unfold charge_field. eapply charges_eq; [charge|]. rewrite Hq, Hc.
  change (byte_length [58]) with 1. lia.
Qed.

Lemma fields_walk {A} limit (w : A -> field) (f : A -> option json) fields (emitted : bool) :
  Forall (fun kv => forallb is_unit (fst kv) = true /\ field_outcome limit (f (snd kv)) (w (snd kv))) fields ->
  match traverse (json_field f) fields with
  | None => fails limit (over_fields limit w emitted fields)
  | Some js => charges limit (list_bytes (field_texts js) + (if emitted then if bool_decide (field_texts js = []) then 0 else 1 else 0))
                 (over_fields limit w emitted fields)
               /\ Forall solid (field_texts js)
  end.
Proof.
  intros Hf. revert emitted. induction Hf as [|[key s] fields [Hkey Hs] _ IH]; intros emitted.
  - cbn. split; [|constructor]. destruct emitted; apply charges_skip.
  - rewrite over_fields_cons, traverse_cons. unfold json_field at 1. cbn [fst snd] in *. unfold field_outcome in Hs.
    destruct (w s) as [| |x].
    + rewrite Hs. specialize (IH emitted). destruct (traverse (json_field f) fields) as [js|]; [|done].
      destruct IH as [IHc IHs]. by split.
    + by rewrite Hs.
    + destruct Hs as [Hu Ho]. destruct (f s) as [j|].
      2: { unfold charge_field. charge. }
      destruct (field_walk limit emitted key j x Hkey Hu Ho) as [Hc Hsol]. specialize (IH true).
      destruct (traverse (json_field f) fields) as [js|]; [|by eapply fails_right].
      destruct IH as [IHc IHs]. rewrite field_texts_cons by done. split; [|by constructor]. eapply charges_eq; [charge|].
      rewrite (bool_decide_eq_false_2 (_ :: _ = [])) by done. unfold list_bytes. cbn [foldr]. rewrite !zlen_cons.
      destruct (field_texts js) as [|t ts].
      * rewrite bool_decide_eq_true_2 by done. change (zlen (@nil jstr)) with 0. cbn [foldr]. destruct emitted; lia.
      * rewrite bool_decide_eq_false_2 by done. rewrite !zlen_cons. pose proof (zlen_nonneg ts). destruct emitted; lia.
Qed.

Lemma stringify_object js : stringify (JObj js) = [123] ++ join_with [44] (field_texts js) ++ [125].
Proof. done. Qed.

(** ** Values *)

Lemma json_defined v :
  well_formed v = true -> omitted v = false -> match json_of v with Some j => is_undefined j = false | None => True end.
Proof.
  intros Hwf Ho. destruct v as [| | | | | | | | |[w|]|iso| | | | | |items extra m|fields m]; try done.
  - cbn in Hwf. apply andb_true_iff in Hwf as [[Hp Ho']%andb_true_iff _]. cbn [json_of].
    destruct w as [| | | | | | | | |w'|iso| | | | | |items extra m|fields m]; try done; cbn [json_of]; by destruct (traverse _ _).
  - cbn [json_of]. by destruct (traverse _ _).
  - cbn [json_of]. by destruct (traverse _ _).
Qed.

(** A property and the value behind it. *)
Lemma prepared_outcome limit s :
  slot_all (fun v => (well_formed v = true -> forall limit a, outcome limit a (json_of v) (walkPrepared limit v a))
    /\ (well_formed v = true -> match v with
        | VArray _ _ (Method (Some r)) | VObject _ (Method (Some r)) | VProxy (Some r) =>
            forall limit a, outcome limit a (json_of r) (walkPrepared limit r a)
        | _ => True
        end)) s ->
  slot_ok well_formed s = true ->
  outcome limit true (json_read s)
    (read_slot hostile (add limit 4)
       (prepare hostile (charge_date limit) (fun w => walkPrepared limit w true) (fun r => walkPrepared limit r true)) s)
  /\ (is_symbol s = false ->
      field_outcome limit (json_read s)
        (read_slot unreadable left_out
           (prepare unreadable (fun iso => printed (charge_date limit iso))
              (fun w => match w with VUndefined | VFunction => left_out | _ => printed (walkPrepared limit w false) end)
              (fun r => if omitted r then left_out else printed (walkPrepared limit r false))) s)).
Proof.
  assert (Hval : forall v, (well_formed v = true -> forall limit a, outcome limit a (json_of v) (walkPrepared limit v a))
    /\ (well_formed v = true -> match v with
        | VArray _ _ (Method (Some r)) | VObject _ (Method (Some r)) | VProxy (Some r) =>
            forall limit a, outcome limit a (json_of r) (walkPrepared limit r a)
        | _ => True
        end) -> well_formed v = true ->
    outcome limit true (json_read (Data v))
      (prepare hostile (charge_date limit) (fun w => walkPrepared limit w true) (fun r => walkPrepared limit r true) v)
    /\ (is_symbol (Data v) = false ->
        field_outcome limit (json_read (Data v))
          (prepare unreadable (fun iso => printed (charge_date limit iso))
              (fun w => match w with VUndefined | VFunction => left_out | _ => printed (walkPrepared limit w false) end)
              (fun r => if omitted r then left_out else printed (walkPrepared limit r false)) v))).
  { intros v [Hown Hret] Hwf. specialize (Hown Hwf). specialize (Hret Hwf). specialize (Hown limit).
    assert (Hm : forall r, well_formed r = true -> (forall limit a, outcome limit a (json_of r) (walkPrepared limit r a)) ->
      field_outcome limit (json_of r) (if omitted r then left_out else printed (walkPrepared limit r false))).
    { intros r Hr Ho. destruct (omitted r) eqn:Hom; [by destruct r|]. split; [by apply json_defined | apply Ho]. }
    unfold json_read. cbn [read_slot].
    destruct v as [| | | | | | | | |[w|]|iso| | | | | |items extra [|[r|]]|fields [|[r|]]]; cbn [prepare];
      try (split; [exact (Hown true)|]; intros Hsym; first [done | split; [by apply json_defined | exact (Hown false)]]).
    - split; [by apply Hret | intros _; apply Hm; [|by apply Hret]]. cbn in Hwf. by apply andb_true_iff in Hwf as [_ ?].
    - assert (Hd : outcome limit true (Some (match iso with Some t => JStr t | None => JNull end)) (charge_date limit iso))
        by (apply outcome_date; by destruct iso).
      split; [done|]. intros _. split; [by destruct iso|]. apply outcome_date. by destruct iso.
    - split; [by apply Hret | intros _; apply Hm; [|by apply Hret]]. cbn in Hwf. by apply andb_true_iff in Hwf as [_ ?].
    - by split.
    - split; [by apply Hret | intros _; apply Hm; [|by apply Hret]]. cbn in Hwf. by apply andb_true_iff in Hwf as [_ ?].
    - by split. }
  intros Hs Hok. destruct s as [v| |[v|]]; [by apply Hval | | by apply Hval | done].
  split; [|done]. split; [by apply charges_add | by apply solid_known].
Qed.

Definition walk_ok (v : value) : Prop :=
  (well_formed v = true -> forall limit a, outcome limit a (json_of v) (walkPrepared limit v a))
  /\ (well_formed v = true -> match v with
      | VArray _ _ (Method (Some r)) | VObject _ (Method (Some r)) | VProxy (Some r) =>
          forall limit a, outcome limit a (json_of r) (walkPrepared limit r a)
      | _ => True
      end).

Lemma empty_object limit a : outcome limit a (Some (JObj [])) (add limit 1 >>> add limit 1).
Proof. split; [|by apply solid_known]. cbn [is_undefined]. change (byte_length (stringify (JObj []))) with (1 + 1). charge. Qed.

Lemma items_outcome {A} limit a (w : A -> Walk) (f : A -> option json) items :
  Forall (fun s => outcome limit true (f s) (w s)) items ->
  outcome limit a (JArr <$> traverse f items) (add limit 1 >>> over_items limit w true items >>> add limit 1).
Proof.
  intros Hf. pose proof (items_walk limit w f items true Hf) as H.
  destruct (traverse f items) as [js|]; cbn [fmap option_fmap option_map].
  - destruct H as [Hc Hs]. rewrite Z.add_0_r in Hc. cbn [outcome is_undefined stringify].
    destruct (bracketed_bytes 91 93 _ ltac:(lia) ltac:(lia) Hs) as [-> Hsolid]. split; [charge | done].
  - cbn [outcome]. apply fails_left. eapply fails_right; [by apply charges_add | exact H].
Qed.

Lemma fields_outcome {A} limit a (w : A -> field) (f : A -> option json) fields :
  Forall (fun kv => forallb is_unit (fst kv) = true /\ field_outcome limit (f (snd kv)) (w (snd kv))) fields ->
  outcome limit a (JObj <$> traverse (json_field f) fields) (add limit 1 >>> over_fields limit w false fields >>> add limit 1).
Proof.
  intros Hf. pose proof (fields_walk limit w f fields false Hf) as H. revert H.
  generalize (traverse (json_field f) fields). intros [js|] H; cbn [fmap option_fmap option_map].
  - destruct H as [Hc Hs]. rewrite Z.add_0_r in Hc. cbn [outcome is_undefined]. rewrite stringify_object.
    destruct (bracketed_bytes 123 125 _ ltac:(lia) ltac:(lia) Hs) as [-> Hsolid]. split; [charge | done].
  - cbn [outcome]. apply fails_left. eapply fails_right; [by apply charges_add | exact H].
Qed.

Lemma num_to_str_units n : forallb is_unit (num_to_str n) = true.
Proof.
  apply forallb_forall. intros c Hc%list_elem_of_In. pose proof (num_to_str_ascii n) as Ha.
  rewrite Forall_forall in Ha. specialize (Ha c Hc). unfold is_unit. lia.
Qed.

Lemma typed_walk limit a k elements : outcome limit a (json_of (VTyped k elements)) (walkPrepared limit (VTyped k elements) a).
Proof.
  assert (Ht : forall l : list (jstr * Z), Some (JObj (map (fun kv => (fst kv, JNum (snd kv))) l)) = JObj <$> traverse (json_field (fun n => Some (JNum n))) l).
  { intros l. assert (Hl : traverse (json_field (fun n => Some (JNum n))) l = Some (map (fun kv => (fst kv, JNum (snd kv))) l))
      by (induction l as [|[key n] l IH]; [done|]; by rewrite traverse_cons, IH). by rewrite Hl. }
  cbn [json_of walkPrepared]. rewrite Ht. apply fields_outcome.
  apply Forall_forall. intros [key n] (i & x & [= -> ->] & _)%elem_of_lookup_imap. cbn.
  split; [apply num_to_str_units|]. split; [done|]. apply (outcome_number limit false).
Qed.

Lemma array_walk limit a items extra m :
  Forall (slot_all walk_ok) items -> forallb (slot_ok well_formed) items = true ->
  outcome limit a (json_of (VArray items extra m)) (walkPrepared limit (VArray items extra m) a).
Proof.
  intros Hall Hwf. apply items_outcome.
  rewrite forallb_forall in Hwf. rewrite Forall_forall in Hall. apply Forall_forall. intros s Hs.
  apply prepared_outcome; [by apply Hall | by apply Hwf, list_elem_of_In].
Qed.

Lemma object_walk limit a fields m :
  Forall (fun kv => slot_all walk_ok (snd kv)) fields ->
  forallb (fun kv => forallb is_unit (fst kv) && slot_ok well_formed (snd kv) && negb (is_symbol (snd kv))) fields = true ->
  outcome limit a (json_of (VObject fields m)) (walkPrepared limit (VObject fields m) a).
Proof.
  intros Hall Hwf. apply fields_outcome.
  rewrite forallb_forall in Hwf. rewrite Forall_forall in Hall. apply Forall_forall. intros kv Hkv.
  specialize (Hwf kv). rewrite <- list_elem_of_In in Hwf. specialize (Hwf Hkv).
  apply andb_true_iff in Hwf as [[Hk Hok]%andb_true_iff Hsym%negb_true_iff].
  split; [done|]. apply prepared_outcome; [by apply Hall | done | done].
Qed.

Lemma walk_ok_all v : walk_ok v.
Proof.
  revert v. apply value_induction; [intros v|intros w [Hw _]|intros l _|intros l _|intros items extra m Hi _ Hm|intros fields m Hf Hm].
  - assert (Hp : forall s, forallb (fun c => (0 <=? c) && (c <? 128)) s = true -> solid s) by exact solid_known.
    destruct v as [| |b|n|s|n| | | |[w|]|iso|s|l|l|n|k l|items extra m|fields m]; try done; (split; [|done]); intros Hwf limit a.
    + split; [|by apply Hp]. destruct a; cbn; [by apply charges_add | apply charges_skip].
    + split; [by apply charges_add | by apply Hp].
    + split; [by destruct b; apply charges_add | by destruct b; apply Hp].
    + apply outcome_number.
    + by apply outcome_string.
    + split; [|by apply Hp]. destruct a; cbn; [by apply charges_add | apply charges_skip].
    + split; [|by apply Hp]. destruct a; cbn; [by apply charges_add | apply charges_skip].
    + apply empty_object.
    + apply empty_object.
    + apply empty_object.
    + apply typed_walk.
  - assert (Hwf : well_formed (VProxy (Some w)) = true -> well_formed w = true) by (intros H; cbn in H; by apply andb_true_iff in H as [_ ?]).
    split; [intros H limit a; cbn [json_of walkPrepared]; by apply Hw, Hwf | intros H; by apply Hw, Hwf].
  - split; [|done]. intros _ limit a. apply empty_object.
  - split; [|done]. intros _ limit a. apply empty_object.
  - assert (Hwf : well_formed (VArray items extra m) = true -> forallb (slot_ok well_formed) items = true /\ method_ok well_formed m = true)
      by (intros H; by apply andb_true_iff in H).
    split; [intros [Hwi _]%Hwf limit a; by apply array_walk|]. intros [_ Hwm]%Hwf. destruct m as [|[r|]]; try done. by apply Hm.
  - assert (Hwf : well_formed (VObject fields m) = true ->
      forallb (fun kv => forallb is_unit (fst kv) && slot_ok well_formed (snd kv) && negb (is_symbol (snd kv))) fields = true
      /\ method_ok well_formed m = true) by (intros H; by apply andb_true_iff in H).
    split; [intros [Hwi _]%Hwf limit a; by apply object_walk|]. intros [_ Hwm]%Hwf. destruct m as [|[r|]]; try done. by apply Hm.
Qed.

(** [JSON.stringify(v)]: [None] is a throw, [JUndefined] is [undefined]. *)
Definition json_text (v : value) : option json := json_read (Data v).

Lemma outcome_result limit o w :
  outcome limit false o w -> exceeds limit 0 = false ->
  match o with
  | None => forall n, w 0 <> Seen n
  | Some j => is_undefined j = true \/ w 0 = if exceeds limit (byte_length (stringify j)) then Exceeded else Seen (byte_length (stringify j))
  end.
Proof.
  intros Ho Hl. destruct o as [j|]; [|by intros n; apply Ho]. destruct Ho as [[_ Hc] _]. destruct (is_undefined j); [by left | right].
  exact (Hc 0 Hl).
Qed.

(** The walk of the value that is measured. *)
Lemma measure_result v limit :
  well_formed v = true -> exceeds limit 0 = false ->
  match json_text v with
  | None => forall n, managedJsonByteLengthWithin v limit <> Seen n
  | Some j => is_undefined j = true \/
      managedJsonByteLengthWithin v limit = if exceeds limit (byte_length (stringify j)) then Exceeded else Seen (byte_length (stringify j))
  end.
Proof.
  intros Hwf Hl. destruct (walk_ok_all v) as [Hown Hret]. specialize (Hown Hwf limit false). specialize (Hret Hwf).
  unfold managedJsonByteLengthWithin, json_text, json_read. cbn [read_slot].
  assert (Hr : forall r, (forall limit a, outcome limit a (json_of r) (walkPrepared limit r a)) ->
    match json_of r with
    | None => forall n, (if omitted r then hostile else walkPrepared limit r false) 0 <> Seen n
    | Some j => is_undefined j = true \/ (if omitted r then hostile else walkPrepared limit r false) 0
        = if exceeds limit (byte_length (stringify j)) then Exceeded else Seen (byte_length (stringify j))
    end).
  { intros r Hr. destruct (omitted r) eqn:Hom; [destruct r; try done; by left|]. by apply outcome_result. }
  destruct v as [| | | | | | | | |[w|]|iso| | | | | |items extra [|[r|]]|fields [|[r|]]]; cbn [prepare];
    try (by apply (outcome_result limit _ _ Hown Hl)); try done; try (by apply Hr).
  - by left.
  - pose proof (outcome_result limit _ (charge_date limit iso) (outcome_date limit false iso ltac:(by destruct iso)) Hl) as Hd.
    by destruct iso.
Qed.

(** C26. The walk measures what would be printed: for a value of well-formed strings without symbol fields, the walk under a
    limit answers the bytes of the UTF-8 text of [JSON.stringify] when they are within the limit and stops when they are
    not, and it never answers a number for a value that cannot be serialised; nothing is printed to find out. *)
Theorem size_is_exact v limit :
  well_formed v = true -> 0 <= limit ->
  match json_text v with
  | None => forall n, managedJsonByteLengthWithin v (Some limit) <> Seen n
  | Some j => is_undefined j = true \/
      managedJsonByteLengthWithin v (Some limit) =
        (if byte_length (stringify j) <=? limit then Seen (byte_length (stringify j)) else Exceeded)
      /\ managedSnapshotJsonByteLength v = Some (byte_length (stringify j))
  end.
Proof.
  intros Hwf Hl. assert (H0 : exceeds (Some limit) 0 = false) by (cbn; lia).
  pose proof (measure_result v (Some limit) Hwf H0) as H1. pose proof (measure_result v None Hwf eq_refl) as H2.
  destruct (json_text v) as [j|]; [|done]. destruct H1 as [? | ->]; [by left|]. destruct H2 as [? | H2]; [by left | right].
  unfold managedSnapshotJsonByteLength. rewrite H2. split; [|done]. cbn [exceeds].
  by destruct (Z.ltb_spec limit (byte_length (stringify j))), (Z.leb_spec (byte_length (stringify j)) limit); try lia.
Qed.
