(* ===== verification/StagedCopies.v ===== *)
(** * Copies are bounded and always measured; caps are the least of request and ceiling *)
From S2P Require Import Prelude.
From S2P Require Import Json.
From S2P Require Import Staged.
From S2P Require Import StagedSize.
#[local] Open Scope Z_scope.
#[local] Open Scope js_scope.
#[local] Open Scope walk_scope.

(** ** What the sanitizer leaves *)

(** Detached data: nothing that can throw, refuse to be printed or run code. *)
Fixpoint clean (v : value) : bool :=
  match v with
  | VUndefined | VNull | VBool _ | VNumber _ | VString _ | VDate _ => true
  | VArray items [] NoMethod => forallb (fun s => match s with Data x => clean x | _ => false end) items
  | VObject fields NoMethod => forallb (fun kv => match snd kv with Data x => clean x | _ => false end) fields
  | _ => false
  end.

Fixpoint nodes (v : value) : Z :=
  match v with
  | VArray items _ _ => 1 + foldr (fun s n => match s with Data x => nodes x | _ => 0 end + n) 0 items
  | VObject fields _ => 1 + foldr (fun kv n => match snd kv with Data x => nodes x | _ => 0 end + n) 0 fields
  | _ => 1
  end.

Lemma clean_fields l : Forall (fun kv => clean (snd kv) = true) l -> clean (plain_fields l) = true.
Proof. induction 1 as [|[k x] l Hx _ IH]; [done|]. cbn in *. by rewrite Hx. Qed.
Lemma clean_items l : Forall (fun x => clean x = true) l -> clean (plain_items l) = true.
Proof. induction 1 as [|x l Hx _ IH]; [done|]. cbn in *. by rewrite Hx. Qed.

Definition all_nodes (l : list value) : Z := foldr (fun x n => nodes x + n) 0 l.
Lemma nodes_fields l : nodes (plain_fields l) = 1 + all_nodes (map snd l).
Proof. cbn. f_equal. induction l as [|[k x] l IH]; [done|]. cbn in *. by rewrite IH. Qed.
Lemma nodes_items l : nodes (plain_items l) = 1 + all_nodes l.
Proof. cbn. f_equal. induction l as [|x l IH]; [done|]. cbn in *. by rewrite IH. Qed.

(** What a walk with the budget [b] leaves: [extra] nodes were paid for before. *)
Definition spends (b extra : Z) (x : value) (b' : Z) : Prop := clean x = true /\ 0 <= b' <= b /\ nodes x <= extra + (b - b').

Lemma take_some units b b' : takeBudget units b = Some b' -> b' = b - units /\ units <= b.
Proof. unfold takeBudget. destruct (Z.ltb_spec b units); [done|]. intros [= <-]. lia. Qed.

(** Each value of a list was paid for with the key it is filed under. *)
Definition spends_all (b : Z) (l : list (jstr * value)) (b' : Z) : Prop :=
  Forall (fun kv => clean (snd kv) = true) l /\ 0 <= b' <= b /\ all_nodes (map snd l) <= zlen l + (b - b').

Lemma spends_cons b x b1 key r b2 : spends b 1 x b1 -> spends_all b1 r b2 -> spends_all b ((key, x) :: r) b2.
Proof.
  intros (C1 & B1 & N1) (C2 & B2 & N2). split; [by constructor|]. split; [lia|]. cbn [map snd all_nodes foldr].
  fold (all_nodes (map snd r)). rewrite zlen_cons. lia.
Qed.

Lemma spends_nil b : 0 <= b -> spends_all b [] b.
Proof. intros Hb. split; [constructor|]. split; [lia|]. unfold zlen. cbn. lia. Qed.

Lemma read_own_spends s b :
  slot_all (fun v => forall b, 0 <= b -> spends b 1 (fst (sanitize v b)) (snd (sanitize v b))) s -> 0 <= b ->
  spends b 1 (fst (read_own sanitize s b)) (snd (read_own sanitize s b)).
Proof. intros Hs Hb. destruct s as [x| |a]; [by apply Hs | |]; (split; [done|]; split; [cbn; lia | cbn; lia]). Qed.

Lemma fields_spend l b :
  Forall (fun kv => slot_all (fun v => forall b, 0 <= b -> spends b 1 (fst (sanitize v b)) (snd (sanitize v b))) (snd kv)) l -> 0 <= b ->
  spends_all b (fst (own_fields_walk sanitize l b)) (snd (own_fields_walk sanitize l b))
  /\ zlen (fst (own_fields_walk sanitize l b)) = zlen l.
Proof.
  intros Hl. revert b. induction Hl as [|[key s] l Hs _ IH]; intros b Hb; [split; [by apply spends_nil | done]|].
  assert (Hcons : own_fields_walk sanitize ((key, s) :: l) b =
    let '(x, b) := read_own sanitize s b in let '(r, b) := own_fields_walk sanitize l b in ((key, x) :: r, b)) by done.
  rewrite Hcons. clear Hcons.
  pose proof (read_own_spends s b Hs Hb) as Hx. destruct (read_own sanitize s b) as [x b1]. cbn [fst snd] in Hx.
  destruct (IH b1) as [Hr Hz]; [by destruct Hx as (_ & ? & _); lia|].
  destruct (own_fields_walk sanitize l b1) as [r b2]. cbn [fst snd] in *. split; [by eapply spends_cons|]. rewrite !zlen_cons. lia.
Qed.

Lemma items_spend l i b :
  Forall (slot_all (fun v => forall b, 0 <= b -> spends b 1 (fst (sanitize v b)) (snd (sanitize v b)))) l -> 0 <= b ->
  spends_all b (fst (own_items_walk sanitize i l b)) (snd (own_items_walk sanitize i l b))
  /\ zlen (fst (own_items_walk sanitize i l b)) = zlen (List.filter present l).
Proof.
  intros Hl. revert i b. induction Hl as [|s l Hs _ IH]; intros i b Hb; [split; [by apply spends_nil | done]|].
  assert (Hcons : present s = true -> own_items_walk sanitize i (s :: l) b =
    let '(x, b) := read_own sanitize s b in let '(r, b) := own_items_walk sanitize (i + 1) l b in ((num_to_str i, x) :: r, b))
    by (by destruct s).
  cbn [List.filter]. destruct (present s) eqn:Hp.
  - rewrite Hcons by done. pose proof (read_own_spends s b Hs Hb) as Hx. destruct (read_own sanitize s b) as [x b1]. cbn [fst snd] in Hx.
    destruct (IH (i + 1) b1) as [Hr Hz]; [by destruct Hx as (_ & ? & _); lia|].
    destruct (own_items_walk sanitize (i + 1) l b1) as [r b2]. cbn [fst snd] in *. split; [by eapply spends_cons|]. rewrite !zlen_cons. lia.
  - destruct s; try done. exact (IH (i + 1) b Hb).
Qed.

Lemma numbers_spend l i b :
  0 <= b -> spends_all b (fst (numbers_walk i l b)) (snd (numbers_walk i l b)) /\ zlen (fst (numbers_walk i l b)) = zlen l.
Proof.
  revert i b. induction l as [|n l IH]; intros i b Hb; [split; [by apply spends_nil | done]|].
  assert (Hcons : numbers_walk i (n :: l) b =
    let '(x, b) := match takeBudget 1 b with None => (VString (u "[truncated]"), 0) | Some b => (VNumber n, b) end in
    let '(r, b) := numbers_walk (i + 1) l b in ((num_to_str i, x) :: r, b)) by done.
  rewrite Hcons. clear Hcons.
  assert (Hx : exists x b1, match takeBudget 1 b with None => (VString (u "[truncated]"), 0) | Some b => (VNumber n, b) end = (x, b1) /\ spends b 1 x b1).
  { destruct (takeBudget 1 b) as [b1|] eqn:E; [apply take_some in E; exists (VNumber n), b1 | eexists _, 0]; (split; [done|]; split; [done|]; cbn; lia). }
  destruct Hx as (x & b1 & -> & Hx). destruct (IH (i + 1) b1) as [Hr Hz]; [by destruct Hx as (_ & ? & _); lia|].
  destruct (numbers_walk (i + 1) l b1) as [r b2]. cbn [fst snd] in *. split; [by eapply spends_cons|]. rewrite !zlen_cons. lia.
Qed.

Lemma sanitize_spends v b : 0 <= b -> spends b 1 (fst (sanitize v b)) (snd (sanitize v b)).
Proof.
  revert v b. apply (value_induction (fun v => forall b, 0 <= b -> spends b 1 (fst (sanitize v b)) (snd (sanitize v b)))).
  - intros v.
    assert (Hleaf : forall b x, 0 <= b -> clean x = true -> nodes x = 1 ->
      let r := match takeBudget 1 b with None => (VString (u "[truncated]"), 0) | Some b => (x, b) end in spends b 1 (fst r) (snd r)).
    { intros b x Hb Hc Hn. cbn zeta. destruct (takeBudget 1 b) as [b1|] eqn:E; [apply take_some in E|]; (split; [done|]; split; [cbn; lia|]; cbn; lia). }
    destruct v as [| |b0|n|t|n| | | |[w|]|iso|src|l|l|nb|k elements|items extra m|fields m]; try done; intros b Hb; try (by apply Hleaf).
    cbn [sanitize]. destruct (takeBudget 1 b) as [b1|] eqn:E; [apply take_some in E|split; [done|]; cbn; lia].
    destruct (takeBudget (zlen elements) b1) as [b2|] eqn:E2; [apply take_some in E2|split; [done|]; cbn; lia].
    destruct (numbers_spend elements 0 b2) as [(C & B & N) Hz]; [lia|].
    destruct (numbers_walk 0 elements b2) as [l b3]. cbn [fst snd] in *. split; [by apply clean_fields|].
    rewrite nodes_fields. pose proof (zlen_nonneg elements). lia.
  - intros w _ b Hb. cbn [sanitize]. destruct (takeBudget 1 b) as [b1|] eqn:E; [apply take_some in E|]; (split; [done|]; split; [cbn; lia|]; cbn; lia).
  - intros l _ b Hb. cbn [sanitize]. destruct (takeBudget 1 b) as [b1|] eqn:E; [apply take_some in E|]; (split; [done|]; split; [cbn; lia|]; cbn; lia).
  - intros l _ b Hb. cbn [sanitize]. destruct (takeBudget 1 b) as [b1|] eqn:E; [apply take_some in E|]; (split; [done|]; split; [cbn; lia|]; cbn; lia).
  - intros items extra m Hi _ _ b Hb. cbn [sanitize]. destruct (takeBudget 1 b) as [b1|] eqn:E; [apply take_some in E|split; [done|]; cbn; lia].
    destruct (takeBudget _ b1) as [b2|] eqn:E2; [apply take_some in E2|split; [done|]; cbn; lia].
    pose proof (zlen_nonneg extra). pose proof (zlen_nonneg (List.filter present items)).
    destruct (items_spend items 0 b2 Hi) as [(C & B & N) Hz]; [lia|].
    destruct (own_items_walk sanitize 0 items b2) as [l b3]. cbn [fst snd] in *.
    assert (Hf : spends b 1 (plain_fields l) b3) by (split; [by apply clean_fields|]; rewrite nodes_fields; lia).
    destruct extra; [|done]. destruct (dense items); [|done]. split; [|rewrite nodes_items; lia].
    apply clean_items, Forall_fmap. exact C.
  - intros fields m Hf _ b Hb. cbn [sanitize]. destruct (takeBudget 1 b) as [b1|] eqn:E; [apply take_some in E|split; [done|]; cbn; lia].
    destruct (takeBudget _ b1) as [b2|] eqn:E2; [apply take_some in E2|split; [done|]; cbn; lia].
    pose proof (zlen_nonneg fields).
    destruct (fields_spend fields b2 Hf) as [(C & B & N) Hz]; [lia|].
    destruct (own_fields_walk sanitize fields b2) as [l b3]. cbn [fst snd] in *. split; [by apply clean_fields|]. rewrite nodes_fields. lia.
Qed.

(** ** Clean data is measured *)

(** Without a limit, [w] comes to an end. *)
Definition ends (w : Walk) : Prop := forall n, exists m, w n = Seen m.
Lemma ends_add k : ends (add None k).
Proof. intros n. by eexists. Qed.
Lemma ends_skip : ends skip.
Proof. intros n. by eexists. Qed.
Lemma ends_then a b : ends a -> ends b -> ends (a >>> b).
Proof. intros Ha Hb n. unfold andThen. destruct (Ha n) as [m ->]. apply Hb. Qed.
Create HintDb ends.
#[export] Hint Resolve ends_add ends_skip ends_then : ends.

Lemma ends_string s : ends (managedChargeStringBytes None s).
Proof.
  unfold managedChargeStringBytes. apply ends_then; [apply ends_add|]. destruct (forallb plain_ascii s); [eauto with ends|].
  apply ends_then; [|apply ends_add]. remember (length s) as n eqn:En. revert s En. induction (lt_wf n) as [n _ IH]. intros s ->.
  destruct s as [|c [|d s]]; [apply ends_skip | apply ends_add |]. cbn [charge_units].
  destruct (is_high c && is_low d); (apply ends_then; [apply ends_add|]); [exact (IH (length s) ltac:(cbn; lia) s eq_refl) | exact (IH (length (d :: s)) ltac:(cbn; lia) (d :: s) eq_refl)].
Qed.

Lemma ends_date iso : ends (charge_date None iso).
Proof. destruct iso; [apply ends_string | apply ends_add]. Qed.

Lemma ends_items {A} (w : A -> Walk) l first : Forall (fun x => ends (w x)) l -> ends (over_items None w first l).
Proof.
  intros Hl. revert first. induction Hl as [|x l Hx _ IH]; intros first; [apply ends_skip|]. rewrite over_items_cons.
  apply ends_then; [apply ends_then; [destruct first; [apply ends_skip | apply ends_add] | done] | apply IH].
Qed.

Lemma ends_fields {A} (w : A -> field) l emitted :
  Forall (fun kv => match w (snd kv) with unreadable => False | left_out => True | printed x => ends x end) l ->
  ends (over_fields None w emitted l).
Proof.
  intros Hl. revert emitted. induction Hl as [|[key x] l Hx _ IH]; intros emitted; [apply ends_skip|]. rewrite over_fields_cons.
  cbn [snd] in Hx. destruct (w x); [apply IH | done|]. unfold charge_field. apply ends_then; [|apply IH].
  apply ends_then; [|done]. apply ends_then; [|apply ends_add]. apply ends_then; [|apply ends_string].
  destruct emitted; [apply ends_add | apply ends_skip].
Qed.

Lemma clean_ends v a : clean v = true -> ends (walkPrepared None v a).
Proof.
  revert v a. apply (value_induction (fun v => forall a, clean v = true -> ends (walkPrepared None v a))).
  - intros v. destruct v as [| |b|n|s|n| | | |[w|]|iso|s|l|l|n|k l|items extra m|fields m]; try done; intros a _; cbn [walkPrepared];
      try (by eauto with ends); try (by destruct a; eauto with ends); apply ends_string.
  - done.
  - done.
  - done.
  - intros items extra m Hi _ _ a Hc. cbn [clean] in Hc. destruct extra; [|done]. destruct m; [|done].
    cbn [walkPrepared]. apply ends_then; [|apply ends_add]. apply ends_then; [apply ends_add|]. apply ends_items.
    rewrite forallb_forall in Hc. rewrite Forall_forall in Hi. apply Forall_forall. intros s Hs.
    specialize (Hi s Hs). specialize (Hc s). rewrite <- list_elem_of_In in Hc. specialize (Hc Hs).
    destruct s as [x| |]; [|done|done]. cbn [read_slot slot_all] in *.
    destruct x as [| | | | | | | | | |iso| | | | | |items' extra' [|]|fields' [|]]; try done; cbn [prepare]; try (by apply Hi);
      [apply ends_date | by cbn in Hc; destruct extra'].
  - intros fields m Hf _ a Hc. cbn [clean] in Hc. destruct m; [|done].
    cbn [walkPrepared]. apply ends_then; [|apply ends_add]. apply ends_then; [apply ends_add|]. apply ends_fields.
    rewrite forallb_forall in Hc. rewrite Forall_forall in Hf. apply Forall_forall. intros [key s] Hs.
    specialize (Hf _ Hs). specialize (Hc (key, s)). rewrite <- list_elem_of_In in Hc. specialize (Hc Hs). cbn [snd] in *.
    destruct s as [x| |]; [|done|done]. cbn [read_slot slot_all] in *.
    destruct x as [| | | | | | | | | |iso| | | | | |items' extra' [|]|fields' [|]]; try done; cbn [prepare]; try (by apply Hf);
      [apply ends_date | by cbn in Hc; destruct extra'].
Qed.

Lemma clean_measured v : clean v = true -> is_Some (managedSnapshotJsonByteLength v).
Proof.
  intros Hc. unfold managedSnapshotJsonByteLength, managedJsonByteLengthWithin.
  assert (He : ends (prepare hostile (charge_date None) (fun w => match w with VFunction => hostile | _ => walkPrepared None w false end)
    (fun r => if omitted r then hostile else walkPrepared None r false) v)).
  { pose proof (clean_ends v false Hc) as He.
    destruct v as [| | | | | | | | | |iso| | | | | |items extra [|]|fields [|]]; try done; cbn [prepare]; [apply ends_date | by cbn in Hc; destruct extra]. }
  destruct (He 0) as [m ->]. by eexists.
Qed.

(** C32. The degraded copy is total and bounded: whatever graph it is given, proxies, accessors, cycles and uncloneable parts
    included, the copy is detached data of at most one node more than its budget, and its size is always known. *)
Theorem sanitizer_is_total v maxNodes :
  0 <= maxNodes ->
  clean (sanitizedDetachedClone v maxNodes) = true /\ nodes (sanitizedDetachedClone v maxNodes) <= 1 + maxNodes
  /\ is_Some (managedSnapshotJsonByteLength (sanitizedDetachedClone v maxNodes)).
Proof.
  intros Hm. destruct (sanitize_spends v maxNodes Hm) as (Hc & Hb & Hn). split; [done|]. split; [unfold sanitizedDetachedClone; lia|].
  by apply clean_measured.
Qed.

(** A snapshot is never of unknown size. *)
Lemma snapshot_measured v limit : is_Some (jsonBytes (managedAttemptSnapshotDetailed v limit))
  /\ jsonBytes (managedAttemptSnapshotDetailed v limit) = managedSnapshotJsonByteLength (dt_snapshot (managedAttemptSnapshotDetailed v limit)).
Proof.
  assert (Hs : forall x, is_Some (managedSnapshotJsonByteLength (sanitizedDetachedClone x MANAGED_SNAPSHOT_MAX_NODES))).
  { intros x. apply clean_measured. by destruct (sanitize_spends x MANAGED_SNAPSHOT_MAX_NODES ltac:(unfold MANAGED_SNAPSHOT_MAX_NODES; lia)). }
  unfold managedAttemptSnapshotDetailed. destruct (managedCloneSurfaceExceedsBudget v limit); try (by split; [apply Hs|]).
  destruct (structuredClone v) as [c|]; [|by split; [apply Hs|]].
  destruct (managedSnapshotJsonByteLength c) as [n|] eqn:Hn; [by split|]. by split; [apply Hs|].
Qed.

(** ** Caps *)

Lemma parse_from acc s : fold_left (fun a c => 10 * a + (c - 48)) s acc = acc * 10 ^ zlen s + parse_dec s.
Proof.
  unfold parse_dec. revert acc. induction s as [|c s IH]; intros acc; cbn [fold_left]; [change (zlen (@nil Z)) with 0; rewrite Z.pow_0_r; lia|].
  rewrite IH, (IH (10 * 0 + _)), zlen_cons, Z.pow_add_r by (pose proof (zlen_nonneg s); lia). lia.
Qed.

Lemma parse_cons c s : parse_dec (c :: s) = (c - 48) * 10 ^ zlen s + parse_dec s.
Proof. unfold parse_dec at 1. cbn [fold_left]. by rewrite parse_from. Qed.

Lemma parse_bound s : forallb is_digit s = true -> 0 <= parse_dec s < 10 ^ zlen s.
Proof.
  induction s as [|c s IH]; [done|]. cbn [forallb]. intros [Hc Hs]%andb_true_iff. specialize (IH Hs).
  rewrite parse_cons, zlen_cons, Z.pow_add_r by (pose proof (zlen_nonneg s); lia). unfold is_digit in Hc.
  assert (0 <= c - 48 <= 9) by lia. nia.
Qed.

Lemma parse_strip s : parse_dec (strip_zeros s) = parse_dec s.
Proof.
  induction s as [|c s IH]; [done|]. cbn [strip_zeros drop_while]. destruct (Z.eqb_spec c 48) as [->|]; [|done].
  rewrite parse_cons. unfold strip_zeros in IH. rewrite IH. lia.
Qed.

Lemma strip_digits s : forallb is_digit s = true -> forallb is_digit (strip_zeros s) = true.
Proof.
  induction s as [|c s IH]; [done|]. cbn [forallb strip_zeros drop_while]. intros [Hc Hs]%andb_true_iff.
  destruct (c =? 48); [by apply IH|]. cbn [forallb]. by rewrite Hc.
Qed.

(** Digits without leading zeros fill their length. *)
Lemma strip_filled s : forallb is_digit s = true -> strip_zeros s <> [] -> 10 ^ (zlen (strip_zeros s) - 1) <= parse_dec (strip_zeros s).
Proof.
  induction s as [|c s IH]; [done|]. cbn [forallb strip_zeros drop_while]. intros [Hc Hs]%andb_true_iff.
  destruct (Z.eqb_spec c 48) as [|Hne]; [by apply IH|]. intros _. rewrite parse_cons, zlen_cons. replace (1 + zlen s - 1) with (zlen s) by lia.
  pose proof (parse_bound s Hs). unfold is_digit in Hc. assert (1 <= c - 48) by lia.
  assert (0 < 10 ^ zlen s) by (apply Z.pow_pos_nonneg; [lia | apply zlen_nonneg]). nia.
Qed.

Lemma lexicographic a b :
  forallb is_digit a = true -> forallb is_digit b = true -> zlen a = zlen b -> str_lt a b = (parse_dec a <? parse_dec b).
Proof.
  revert b. induction a as [|c a IH]; intros [|d b] Ha Hb Hl; [done|unfold zlen in Hl; cbn [length] in Hl; lia..|].
  rewrite !zlen_cons in Hl. cbn [forallb] in Ha, Hb. apply andb_true_iff in Ha as [Hc Ha]. apply andb_true_iff in Hb as [Hd Hb].
  cbn [str_lt]. assert (Hz : zlen a = zlen b) by lia. rewrite (IH b Ha Hb Hz), !parse_cons, Hz.
  pose proof (parse_bound a Ha). pose proof (parse_bound b Hb). rewrite Hz in *.
  destruct (Z.ltb_spec c d); cbn [orb].
  - symmetry. apply Z.ltb_lt. nia.
  - destruct (Z.eqb_spec c d) as [->|]; cbn [andb].
    + destruct (Z.ltb_spec (parse_dec a) (parse_dec b)); symmetry; [apply Z.ltb_lt | apply Z.ltb_ge]; lia.
    + symmetry. apply Z.ltb_ge. nia.
Qed.

Lemma decimal_at_least raw threshold :
  forallb is_digit raw = true -> 0 < threshold -> strip_zeros raw <> [] ->
  decimalAtLeast raw threshold = (threshold <=? parse_dec raw).
Proof.
  intros Hr Ht Hne. unfold decimalAtLeast.
  assert (Hd : forallb is_digit (num_to_str threshold) = true /\ parse_dec (num_to_str threshold) = threshold).
  { unfold num_to_str. destruct (Z.ltb_spec threshold 0); [lia|]. destruct (nat_to_str_spec threshold ltac:(lia)) as (Hp & _ & Hd).
    split; [|done]. by apply forallb_Forall. }
  destruct Hd as [Hd Hp].
  replace (threshold <=? parse_dec raw) with (parse_dec (strip_zeros (num_to_str threshold)) <=? parse_dec (strip_zeros raw))
    by (by rewrite !parse_strip, Hp).
  pose proof (strip_digits _ Hr) as Hsr. pose proof (strip_digits _ Hd) as Hst.
  pose proof (strip_filled _ Hr Hne) as Hfr.
  assert (Hne' : strip_zeros (num_to_str threshold) <> []).
  { intros He. pose proof (parse_strip (num_to_str threshold)) as Hs. rewrite He, Hp in Hs. cbn in Hs. lia. }
  pose proof (strip_filled _ Hd Hne') as Hft. pose proof (parse_bound _ Hsr) as Hbr. pose proof (parse_bound _ Hst) as Hbt.
  set (a := strip_zeros raw) in *. set (b := strip_zeros (num_to_str threshold)) in *.
  destruct (Z.eqb_spec (zlen a) (zlen b)) as [Heq|Hneq]; cbn [negb].
  - rewrite (lexicographic a b Hsr Hst Heq). destruct (Z.ltb_spec (parse_dec a) (parse_dec b)), (Z.leb_spec (parse_dec b) (parse_dec a)); try done; lia.
  - assert (Hpow : forall x y : jstr, zlen x < zlen y -> 10 ^ zlen x <= 10 ^ (zlen y - 1)).
    { intros x y Hxy. apply Z.pow_le_mono_r; [lia|]. lia. }
    destruct (Z.ltb_spec (zlen b) (zlen a)) as [Hlt|Hge].
    + specialize (Hpow b a Hlt). symmetry. apply Z.leb_le. lia.
    + specialize (Hpow a b ltac:(lia)). symmetry. apply Z.leb_gt. lia.
Qed.

(** The caps are the least of the request and the ceiling: a setting of decimal digits, of whatever length, counts with its
    value unless that is zero; anything else leaves the default; only what is above the ceiling is warned of. *)
Theorem caps_clamp env fallback ceiling :
  0 < ceiling < MAX_SAFE_INTEGER ->
  let requested := match trim <$> env with
                   | Some raw => if all_digits raw && (0 <? parse_dec raw) then Some (parse_dec raw) else None
                   | None => None
                   end in
  fst (clampedStagedCap env fallback ceiling) = match requested with Some n => Z.min n ceiling | None => fallback end
  /\ (is_Some (snd (clampedStagedCap env fallback ceiling)) <-> exists n, requested = Some n /\ ceiling < n).
Proof.
  intros Hc. unfold clampedStagedCap. destruct (trim <$> env) as [raw|]; [|cbn; split; [done|]; split; [by intros [? ?] | by intros (? & ? & _)]].
  unfold parsePositiveEnvInt, isPositiveDecimalDigits. destruct (all_digits raw) eqn:Had; cbn [andb].
  2: { cbn. split; [done|]. split; [by intros [? ?] | by intros (? & ? & _)]. }
  assert (Hd : forallb is_digit raw = true) by (by apply andb_true_iff in Had as [_ ?]). pose proof (parse_bound raw Hd) as Hb.
  destruct (Z.ltb_spec 0 (parse_dec raw)) as [Hpos|Hzero].
  - assert (Hne : strip_zeros raw <> []) by (intros He; pose proof (parse_strip raw) as Hs; rewrite He in Hs; cbn in Hs; lia).
    destruct (Z.leb_spec (parse_dec raw) MAX_SAFE_INTEGER) as [Hs|Hs]; cbn [andb].
    + destruct (Z.leb_spec (parse_dec raw) ceiling) as [Hle|Hgt]; cbn [fst snd]; (split; [lia|]).
      * split; [by intros [? ?] | intros (n & [= <-] & ?); lia].
      * split; [intros _; by eexists | intros _; by eexists].
    + rewrite bool_decide_eq_false_2 by done. cbn [negb andb]. rewrite decimal_at_least by (done || lia).
      destruct (Z.leb_spec (ceiling + 1) (parse_dec raw)); [|lia]. cbn [fst snd]. split; [lia|].
      split; intros _; [exists (parse_dec raw); split; [done|lia] | by eexists].
  - assert (He : strip_zeros raw = []).
    { destruct (strip_zeros raw) eqn:E; [done|]. pose proof (strip_filled raw Hd) as Hf. rewrite parse_strip, E in Hf. specialize (Hf ltac:(done)).
      assert (0 < 10 ^ (zlen (z :: l) - 1)) by (apply Z.pow_pos_nonneg; [lia|]; rewrite zlen_cons; pose proof (zlen_nonneg l); lia). lia. }
    rewrite He, bool_decide_eq_true_2 by done. rewrite andb_false_r. cbn. split; [done|]. split; [by intros [? ?] | by intros (? & ? & _)].
Qed.
