(* ===== verification/Attempt.v ===== *)
(** * A provisional attempt: [ManagedAttemptTransaction] of packages/agent/src/agent-loop.ts

    The events of a model request are held back until the attempt is accepted.  A managed attempt is
    published at once or not at all; a lossless one may start to publish when text appears or a cap is met.
    An event is a plain object ([Staged.value]); what the stream and the callback get is a trace. *)
From S2P Require Import Prelude.
From S2P Require Import Json.
From S2P Require Import Staged.
#[local] Open Scope Z_scope.
#[local] Open Scope js_scope.

Inductive SnapshotMode := managed | lossless.
#[export] Instance SnapshotMode_eq : EqDecision SnapshotMode.
Proof. solve_decision. Defined.

Inductive ItemBody := event_item (e : value) | assistant_item (message e : value).
Record ManagedAttemptBatchItem := { body : ItemBody; bytes : option Z }.

Inductive Publication := to_stream (e : value) | to_callback (message e : value).

Record StagedShape := { shape_events : Z; shape_bytes : Z; contentBlockCount : Z }.
Inductive Exceeded := by_events | by_bytes | by_both.
Record Overflow := {
  stage : jstr; exceeded : Exceeded; ov_events : Z; ov_bytes : Z; incomingEventBytes : Z; ov_maxEvents : Z; ov_maxBytes : Z
}.

(** [ManagedAttemptBufferOverflowError], [ManagedAttemptSnapshotError], and the [RangeError] of a recursion without end. *)
Inductive AttemptError := buffer_overflow (o : Overflow) | snapshot_error (stage : jstr) | stack_overflow.

Record Transaction := {
  batch : list ManagedAttemptBatchItem;
  stagedEventCount : Z;
  stagedBytes : Z;
  maxStagedEvents : Z;
  maxStagedBytes : Z;
  lastStagedShape : option StagedShape;
  discarded : bool;
  committed : bool;
  snapshotMode : SnapshotMode;
  published : list Publication
}.

Definition newTransaction (mode : SnapshotMode) (maxEvents maxBytes : Z) : Transaction :=
  {| batch := []; stagedEventCount := 0; stagedBytes := 0; maxStagedEvents := maxEvents; maxStagedBytes := maxBytes;
     lastStagedShape := None; discarded := false; committed := false; snapshotMode := mode; published := [] |}.

(** How the rest of agent-loop.ts normalises what a provider sent: the shell of an assistant message, the snapshot
    of an assistant event (both may throw), and the evidence that a lossless copy gets back. *)
Class Normalizer := {
  managedAssistantShell : value -> result jstr value;
  managedAssistantEventSnapshot : value -> value -> result jstr value;
  restoreTransientUnicodeEscapeEvidence : value -> value -> value
}.

Section transaction.
Context `{N : Normalizer}.

Abbreviation M := (SM Transaction AttemptError).

Definition with_batch (b : list ManagedAttemptBatchItem) (count size : Z) (t : Transaction) : Transaction :=
  {| batch := b; stagedEventCount := count; stagedBytes := size; maxStagedEvents := maxStagedEvents t;
     maxStagedBytes := maxStagedBytes t; lastStagedShape := lastStagedShape t; discarded := discarded t;
     committed := committed t; snapshotMode := snapshotMode t; published := published t |}.
Definition set_batch (b : list ManagedAttemptBatchItem) (t : Transaction) : Transaction :=
  with_batch b (stagedEventCount t) (stagedBytes t) t.
Definition commit (t : Transaction) : Transaction :=
  {| batch := batch t; stagedEventCount := stagedEventCount t; stagedBytes := stagedBytes t;
     maxStagedEvents := maxStagedEvents t; maxStagedBytes := maxStagedBytes t; lastStagedShape := lastStagedShape t;
     discarded := discarded t; committed := true; snapshotMode := snapshotMode t; published := published t |}.
Definition publish (ps : list Publication) (t : Transaction) : Transaction :=
  {| batch := batch t; stagedEventCount := stagedEventCount t; stagedBytes := stagedBytes t;
     maxStagedEvents := maxStagedEvents t; maxStagedBytes := maxStagedBytes t; lastStagedShape := lastStagedShape t;
     discarded := discarded t; committed := committed t; snapshotMode := snapshotMode t; published := published t ++ ps |}.

Definition type_of (e : value) : value := managedProperty e (u "type").
Definition is_type (e : value) (name : string) : bool :=
  match type_of e with VString s => s === u name | _ => false end.
Definition message_of (e : value) : value := managedProperty e (u "message").

(** [message_end] and [turn_end] *)
Definition terminal_event (e : value) : bool := is_type e "message_end" || is_type e "turn_end".

Definition isTerminalItem (i : ManagedAttemptBatchItem) : bool :=
  match body i with
  | assistant_item _ e => is_type e "done" || is_type e "error"
  | event_item e => terminal_event e
  end.

Definition superseded_type (e : value) : bool :=
  is_type e "text_delta" || is_type e "thinking_delta" || is_type e "reasoning_summary_delta" || is_type e "toolcall_delta".

Definition isSupersededStreamingDelta (i : ManagedAttemptBatchItem) : bool :=
  match body i with
  | assistant_item _ e => superseded_type e
  | event_item e => is_type e "message_update" && superseded_type (managedProperty e (u "assistantMessageEvent"))
  end.

Definition publication (b : ItemBody) : Publication :=
  match b with event_item e => to_stream e | assistant_item m e => to_callback m e end.

(** *** Snapshots *)

Definition lift_stage {A} (r : result jstr A) : M A := fun t =>
  (t, match r with Ok a => Ok a | Err st => Err (snapshot_error st) end).

Definition is_assistant (m : value) : bool :=
  match managedProperty m (u "role") with VString s => s === u "assistant" | _ => false end.
Definition content_length (m : value) : option Z :=
  match managedProperty m (u "content") with VArray items _ _ => Some (zlen items) | _ => None end.

(** [#losslessSnapshot] *)
Definition losslessSnapshot (cap : Z) (v : value) : value :=
  let snapshot := losslessDetachedClone cap v in
  match content_length snapshot with
  | Some _ => if is_assistant snapshot then restoreTransientUnicodeEscapeEvidence snapshot v else snapshot
  | None => snapshot
  end.

(** [#assistantSnapshot] *)
Definition assistantSnapshot (t : Transaction) (m : value) : result jstr value :=
  match snapshotMode t with
  | lossless => Ok (losslessSnapshot (maxStagedBytes t) m)
  | managed => managedAssistantShell m
  end.

(** [#assistantEventSnapshot] *)
Definition assistantEventSnapshot (t : Transaction) (e m : value) : result jstr value :=
  match snapshotMode t with
  | managed => managedAssistantEventSnapshot e m
  | lossless =>
      let snapshot := losslessSnapshot (maxStagedBytes t) e in
      Ok (if is_type snapshot "done" then with_field (u "message") m snapshot
          else if is_type snapshot "error" then with_field (u "error") m snapshot
          else if is_type snapshot "toolChoiceIncapability" then snapshot
          else with_field (u "partial") m snapshot)
  end.

(** [#losslessAgentEventSnapshot] *)
Definition losslessAgentEventSnapshot (t : Transaction) (e : value) : result jstr value :=
  let cap := maxStagedBytes t in
  if is_type e "message_start" || is_type e "message_end" then
    Ok (with_field (u "message") (losslessSnapshot cap (message_of e)) e)
  else if is_type e "message_update" then
    let m := losslessSnapshot cap (message_of e) in
    if is_assistant m then
      match assistantEventSnapshot t (managedProperty e (u "assistantMessageEvent")) m with
      | Ok ame => Ok (with_field (u "assistantMessageEvent") ame (with_field (u "message") m e))
      | Err st => Err st
      end
    else Ok (with_field (u "message") m e)
  else if is_type e "turn_end" then
    Ok (with_field (u "toolResults") (losslessSnapshot cap (managedProperty e (u "toolResults")))
          (with_field (u "message") (losslessSnapshot cap (message_of e)) e))
  else Ok (losslessSnapshot cap e).

(** The messages of an [agent_end], each assistant message as its shell. *)
Fixpoint repair_messages (items : list (slot value)) : result jstr (list (slot value)) :=
  match items with
  | [] => Ok []
  | Data m :: l =>
      match (if is_assistant m then managedAssistantShell m else Ok m), repair_messages l with
      | Ok m', Ok l' => Ok (Data m' :: l')
      | Err st, _ => Err st
      | _, Err st => Err st
      end
  | s :: l => match repair_messages l with Ok l' => Ok (s :: l') | Err st => Err st end
  end.

(** [#repairAssistantEvent] *)
Definition repairAssistantEvent (t : Transaction) (e : value) : result jstr value :=
  match snapshotMode t with
  | lossless => Ok e
  | managed =>
      if is_type e "message_start" || is_type e "message_end" || is_type e "turn_end" then
        if is_assistant (message_of e) then
          match managedAssistantShell (message_of e) with Ok m => Ok (with_field (u "message") m e) | Err st => Err st end
        else Ok e
      else if is_type e "message_update" then
        match managedAssistantShell (message_of e) with
        | Ok m =>
            match managedAssistantEventSnapshot (managedProperty e (u "assistantMessageEvent")) m with
            | Ok ame => Ok (with_field (u "assistantMessageEvent") ame (with_field (u "message") m e))
            | Err st => Err st
            end
        | Err st => Err st
        end
      else if is_type e "agent_end" then
        match managedProperty e (u "messages") with
        | VArray items extra m =>
            match repair_messages items with
            | Ok items' => Ok (with_field (u "messages") (VArray items' extra m) e)
            | Err st => Err st
            end
        | _ => Ok e
        end
      else Ok e
  end.

(** *** Shape, discard, flush *)

Definition item_message (i : ManagedAttemptBatchItem) : value :=
  match body i with assistant_item m _ => m | event_item e => message_of e end.

(** [#stagedContentBlockCount]: of the last staged message that has content. *)
Definition stagedContentBlockCount (b : list ManagedAttemptBatchItem) : Z :=
  default 0 (head (omap (fun i => content_length (item_message i)) (rev b))).

Definition current_shape (t : Transaction) : StagedShape :=
  {| shape_events := stagedEventCount t; shape_bytes := stagedBytes t; contentBlockCount := stagedContentBlockCount (batch t) |}.
Definition stagedShape (t : Transaction) : StagedShape := default (current_shape t) (lastStagedShape t).

Definition discard (t : Transaction) : Transaction :=
  {| batch := []; stagedEventCount := 0; stagedBytes := 0; maxStagedEvents := maxStagedEvents t;
     maxStagedBytes := maxStagedBytes t;
     lastStagedShape := if discarded t then lastStagedShape t else Some (current_shape t);
     discarded := true; committed := committed t; snapshotMode := snapshotMode t; published := published t |}.

Definition flush (t : Transaction) : Transaction :=
  if discarded t then t
  else commit (with_batch [] 0 0 (publish (map (fun i => publication (body i)) (batch t)) t)).

Definition flushNonTerminal (t : Transaction) : Transaction :=
  if discarded t || committed t then t
  else set_batch (List.filter isTerminalItem (batch t))
         (publish (map (fun i => publication (body i)) (List.filter (fun i => negb (isTerminalItem i)) (batch t))) t).

(** What [commitCallbacksAndUpdates] holds back. *)
Definition held (i : ManagedAttemptBatchItem) : bool :=
  match body i with event_item e => terminal_event e | assistant_item _ _ => false end.

Definition commitCallbacksAndUpdates (t : Transaction) : Transaction :=
  if discarded t || committed t then t
  else commit (set_batch (List.filter held (batch t))
         (publish (map (fun i => publication (body i)) (List.filter (fun i => negb (held i)) (batch t))) t)).

Definition replaced (t : Transaction) (message : value) (i : ManagedAttemptBatchItem) : result jstr ManagedAttemptBatchItem :=
  match body i with
  | assistant_item _ e =>
      match assistantEventSnapshot t e message with
      | Ok e' => Ok {| body := assistant_item message e'; bytes := bytes i |}
      | Err st => Err st
      end
  | event_item e =>
      Ok (if terminal_event e then {| body := event_item (with_field (u "message") message e); bytes := bytes i |} else i)
  end.
Fixpoint replace_all (t : Transaction) (message : value) (b : list ManagedAttemptBatchItem)
    : result jstr (list ManagedAttemptBatchItem) :=
  match b with
  | [] => Ok []
  | i :: l =>
      match replaced t message i, replace_all t message l with
      | Ok i', Ok l' => Ok (i' :: l')
      | Err st, _ => Err st
      | _, Err st => Err st
      end
  end.
Definition replacePendingAssistantMessage (message : value) : M unit := fun t =>
  match replace_all t message (batch t) with
  | Ok b => (set_batch b t, Ok tt)
  | Err st => (t, Err (snapshot_error st))
  end.

(** *** Caps *)

Definition wouldOverflow (size : Z) (t : Transaction) : bool :=
  (maxStagedEvents t <? stagedEventCount t + 1) || (maxStagedBytes t <? stagedBytes t + size).

(** [#overflowShape], after the discard. *)
Definition overflowShape (st : jstr) (incoming : Z) (t : Transaction) : Overflow :=
  let staged := stagedShape t in
  let eventsExceeded := maxStagedEvents t <? shape_events staged + 1 in
  let bytesExceeded := maxStagedBytes t <? shape_bytes staged + incoming in
  {| stage := st;
     exceeded := if eventsExceeded && bytesExceeded then by_both else if eventsExceeded then by_events else by_bytes;
     ov_events := shape_events staged; ov_bytes := shape_bytes staged; incomingEventBytes := incoming;
     ov_maxEvents := maxStagedEvents t; ov_maxBytes := maxStagedBytes t |}.

Definition compactSupersededFrames (t : Transaction) : Transaction :=
  let dropped := List.filter isSupersededStreamingDelta (batch t) in
  with_batch (List.filter (fun i => negb (isSupersededStreamingDelta i)) (batch t))
    (stagedEventCount t - zlen dropped)
    (stagedBytes t - foldr (fun i n => default 0 (bytes i) + n) 0 dropped) t.

Definition append (b : ItemBody) (size : Z) (t : Transaction) : Transaction :=
  with_batch (batch t ++ [{| body := b; bytes := Some size |}]) (stagedEventCount t + 1) (stagedBytes t + size) t.

Definition fail_with (e : Transaction -> AttemptError) : M unit := fun t => let t' := discard t in (t', Err (e t')).

(** Admit [size] bytes as they are, after a compaction, or not at all. *)
Definition admit_item (b : ItemBody) (size : Z) : M unit := fun t =>
  if wouldOverflow size t then
    let t' := compactSupersededFrames t in
    if wouldOverflow size t' then fail_with (fun t'' => buffer_overflow (overflowShape (u "overflow.staged") size t'')) t'
    else (append b size t', Ok tt)
  else (append b size t, Ok tt).

(** *** Staging an event *)

(** [push] once the transaction is committed. *)
Definition push_committed (e : value) (t : Transaction) : Transaction :=
  if terminal_event e then set_batch (batch t ++ [{| body := event_item e; bytes := None |}]) t
  else publish [to_stream e] t.

(** [this.flush(); this.push(e)]: a discarded transaction does not get committed and comes back here. *)
Definition flush_and_push (e : value) : M unit := fun t =>
  let t' := flush t in
  if committed t' then (push_committed e t', Ok tt) else (t', Err stack_overflow).

Definition remaining (t : Transaction) : Z := maxStagedBytes t - stagedBytes t.

Definition is_over (x : Excess) : bool := match x with over => true | _ => false end.
Definition is_surface_over (x : Surface) : bool := match x with surface_over => true | _ => false end.

Definition stage_lossless (e : value) : M unit := fun t =>
  if is_over (managedSnapshotExceedsBytes e (remaining t)) then flush_and_push e t
  else if match managedSnapshotJsonByteLength e with Some raw => wouldOverflow raw t | None => false end then flush_and_push e t
  else if is_surface_over (managedCloneSurfaceExceedsBudget e (remaining t)) then flush_and_push e t
  else
    match losslessAgentEventSnapshot t e with
    | Err _ => fail_with (fun _ => snapshot_error (u "staging.losslessSnapshot")) t
    | Ok detached =>
        match managedSnapshotJsonByteLength detached with
        | None => fail_with (fun _ => snapshot_error (u "staging.measure")) t
        | Some size =>
            if wouldOverflow size t then flush_and_push detached t else (append (event_item detached) size t, Ok tt)
        end
    end.

Definition preflightOver (e : value) (t : Transaction) : bool :=
  is_over (managedSnapshotExceedsBytes e (remaining t)) || is_surface_over (managedCloneSurfaceExceedsBudget e (remaining t)).

(** The size that the diagnostic names: a walk bounded by twice the cap, and at least one byte too many. *)
Definition incoming_bytes (e : value) (t : Transaction) : Z :=
  match managedJsonByteLengthWithin e (Some (maxStagedBytes t * 2)) with
  | Seen n => Z.max n (remaining t + 1)
  | Hostile => Z.max 0 (remaining t + 1)
  | Staged.Exceeded => remaining t + 1
  end.

(** The repair, the snapshot and the admission that follow the preflight. *)
Definition stage_snapshot (e : value) : M unit := fun t =>
  match repairAssistantEvent t e with
  | Err st => (t, Err (snapshot_error st))
  | Ok repaired =>
      let detailed := managedAttemptSnapshotDetailed repaired (remaining t) in
      match jsonBytes detailed with
      | None => fail_with (fun _ => snapshot_error (u "staging.sanitize")) t
      | Some size => admit_item (event_item (dt_snapshot detailed)) size t
      end
  end.

Definition stage_managed (e : value) : M unit := fun t =>
  if preflightOver e t then
    let t' := compactSupersededFrames t in
    if preflightOver e t' then
      fail_with (fun t'' => buffer_overflow (overflowShape (u "overflow.preMeasure") (incoming_bytes e t') t'')) t'
    else stage_snapshot e t'
  else stage_snapshot e t.

Definition push (e : value) : M unit := fun t =>
  if committed t then (push_committed e t, Ok tt)
  else match snapshotMode t with lossless => stage_lossless e t | managed => stage_managed e t end.

(** *** Staging a callback *)

Definition pair_value (m e : value) : value := VArray [Data m; Data e] [] NoMethod.

(** The message and the event that refers to it, as one snapshot. *)
Definition paired (t : Transaction) (m e : value) : result jstr (value * value) :=
  match assistantSnapshot t m with
  | Ok partial => match assistantEventSnapshot t e partial with Ok e' => Ok (partial, e') | Err st => Err st end
  | Err st => Err st
  end.
Definition call_back (m e : value) : M unit := fun t =>
  match paired t m e with
  | Ok (partial, e') => (publish [to_callback partial e'] t, Ok tt)
  | Err st => (t, Err (snapshot_error st))
  end.

Definition stage_pair (m e : value) : M unit := fun t =>
  match paired t m e with
  | Err st => (t, Err (snapshot_error st))
  | Ok (partial, e') =>
      let publish_now t := (publish [to_callback partial e'] (flush t), Ok tt) in
      match managedSnapshotJsonByteLength (pair_value partial e') with
      | None =>
          match snapshotMode t with
          | lossless => publish_now t
          | managed => fail_with (fun _ => snapshot_error (u "staging.measure")) t
          end
      | Some size =>
          match snapshotMode t with
          | managed => admit_item (assistant_item partial e') size t
          | lossless =>
              if wouldOverflow size t then
                let t' := compactSupersededFrames t in
                if wouldOverflow size t' then publish_now t'
                else (append (assistant_item partial e') size t', Ok tt)
              else (append (assistant_item partial e') size t, Ok tt)
          end
      end
  end.

Definition stageAssistantMessageEvent (m e : value) : M unit := fun t =>
  if committed t then call_back m e t
  else if is_over (managedSnapshotExceedsBytes (pair_value m e) (remaining t)) then
    let t' := compactSupersededFrames t in
    if is_over (managedSnapshotExceedsBytes (pair_value m e) (remaining t')) then
      match snapshotMode t with
      | lossless => call_back m e (flush t')
      | managed => fail_with (fun t'' => buffer_overflow (overflowShape (u "overflow.staged") (remaining t'' + 1) t'')) t'
      end
    else stage_pair m e t'
  else stage_pair m e t.

(** [acceptedAssistantSnapshot] *)
Definition acceptedAssistantSnapshot (m : value) : M value := fun t => lift_stage (assistantSnapshot t m) t.
End transaction.
