(* ===== verification/AttemptProofs.v ===== *)
(** * What a provisional attempt holds back, and what it lets out

    Histories of a transaction; what it retains is measured and within its caps; a managed attempt is atomic;
    nothing that was admitted is lost. *)
From S2P Require Import Prelude.
From S2P Require Import Json.
From S2P Require Import Staged.
From S2P Require Import StagedSize.
From S2P Require Import StagedCopies.
From S2P Require Import Attempt.
#[local] Open Scope Z_scope.
#[local] Open Scope js_scope.
#[local] Open Scope walk_scope.

(** ** A size is not negative *)

Definition grows (w : Walk) : Prop := forall n m, w n = Seen m -> n <= m.
Lemma grows_add limit k : 0 <= k -> grows (add limit k).
Proof. intros Hk n m. unfold add. destruct (exceeds limit (n + k)); [done|]. intros [= <-]. lia. Qed.
Lemma grows_skip : grows skip.
Proof. intros n m [= <-]. lia. Qed.
Lemma grows_hostile : grows hostile.
Proof. intros n m H. done. Qed.
Lemma grows_then a b : grows a -> grows b -> grows (a >>> b).
Proof. intros Ha Hb n m. unfold andThen. destruct (a n) as [k| |] eqn:E; [|done|done]. intros H. apply Ha in E. apply Hb in H. lia. Qed.
Create HintDb grows.
#[export] Hint Resolve grows_skip grows_hostile grows_then : grows.
#[export] Hint Extern 2 (grows (add _ _)) => (apply grows_add; first [lia | apply zlen_nonneg]) : grows.
Ltac grow := solve [eauto 10 with grows].

Lemma grows_comma limit b : grows (comma limit b).
Proof. destruct b; cbn [comma]; grow. Qed.
#[export] Hint Resolve grows_comma : grows.

Lemma grows_units limit s : grows (charge_units limit s).
Proof.
  remember (length s) as n eqn:En. revert s En. induction (lt_wf n) as [n _ IH]. intros s ->.
  assert (Hu : forall c, 0 <= unit_charge c) by (intros c; unfold unit_charge; repeat case_match; lia).
  destruct s as [|c [|d s]]; cbn [charge_units]; [grow | by apply grows_add |].
  destruct (is_high c && is_low d); (apply grows_then; [apply grows_add; first [lia | done]|]).
  - exact (IH (length s) ltac:(cbn; lia) s eq_refl).
  - exact (IH (length (d :: s)) ltac:(cbn; lia) (d :: s) eq_refl).
Qed.
#[export] Hint Resolve grows_units : grows.

Lemma grows_string limit s : grows (managedChargeStringBytes limit s).
Proof. unfold managedChargeStringBytes. apply grows_then; [grow|]. destruct (forallb plain_ascii s); grow. Qed.
#[export] Hint Resolve grows_string : grows.

Lemma grows_date limit iso : grows (charge_date limit iso).
Proof. destruct iso; cbn [charge_date]; grow. Qed.
#[export] Hint Resolve grows_date : grows.

Lemma grows_number limit n : grows (charge_number limit n).
Proof. unfold charge_number. grow. Qed.
Lemma grows_bool limit b : grows (charge_bool limit b).
Proof. unfold charge_bool. destruct b; grow. Qed.
#[export] Hint Resolve grows_number grows_bool : grows.

Lemma grows_items {A} limit (w : A -> Walk) first l : Forall (fun x => grows (w x)) l -> grows (over_items limit w first l).
Proof. intros Hl. revert first. induction Hl as [|x l Hx _ IH]; intros first; [grow|]. rewrite over_items_cons. grow. Qed.

Definition grows_field (x : field) : Prop := match x with printed w => grows w | _ => True end.
Lemma grows_fields {A} limit (w : A -> field) emitted l :
  Forall (fun kv => grows_field (w (snd kv))) l -> grows (over_fields limit w emitted l).
Proof.
  intros Hl. revert emitted. induction Hl as [|[key x] l Hx _ IH]; intros emitted; [grow|]. rewrite over_fields_cons.
  cbn [snd] in Hx. destruct (w x); cbn [grows_field] in Hx; [apply IH | grow |]. unfold charge_field. grow.
Qed.

(** What is known of a value is known of what its [toJSON] returns. *)
Definition returned_of (v : value) : option value :=
  match v with VArray _ _ (Method r) | VObject _ (Method r) | VProxy r => r | _ => None end.
Lemma prepare_cases {A} (P : A -> Prop) throws date own returned v :
  P throws -> (forall iso, P (date iso)) -> P (own v) -> (forall r, returned_of v = Some r -> P (returned r)) ->
  P (prepare throws date own returned v).
Proof.
  intros Ht Hd Ho Hr. destruct v as [| |b|n|s|n| | | |[w|]|iso|s|l|l|n|k l|items extra [|[r|]]|fields [|[r|]]];
    cbn [prepare]; first [done | apply Hd | by apply Hr].
Qed.

Definition walk_grows limit (v : value) : Prop := forall a, grows (walkPrepared limit v a).
Lemma walk_grows_all limit v : walk_grows limit v /\ (forall r, returned_of v = Some r -> walk_grows limit r).
Proof.
  revert v. apply (value_induction (fun v => walk_grows limit v /\ (forall r, returned_of v = Some r -> walk_grows limit r))).
  - intros v. destruct v as [| |b|n|s|n| | | |[w|]|iso|s|l|l|n|k l|items extra m|fields m]; try done; (split; [|done]);
      intros a; cbn [walkPrepared]; try grow; try (destruct a; grow).
    apply grows_then; [|grow]. apply grows_then; [grow|]. apply grows_fields. apply Forall_forall. intros kv _. cbn [grows_field]. grow.
  - intros w [Hw _]. split; [exact Hw|]. by intros r [= <-].
  - split; [intros a; cbn [walkPrepared]; grow | done].
  - split; [intros a; cbn [walkPrepared]; grow | done].
  - intros items extra m Hi _ Hm. split.
    + intros a. cbn [walkPrepared]. apply grows_then; [|grow]. apply grows_then; [grow|]. apply grows_items.
      apply (Forall_impl _ _ _ Hi). intros [x| |[x|]] Hx; cbn [read_slot slot_all] in *; try grow;
        (destruct Hx as [Hx Hx']; apply prepare_cases; [grow | intros; grow | apply Hx | intros r Hr; by apply (Hx' r)]).
    + intros r Hr. destruct m as [|[r'|]]; [done| |done]. cbn in Hr. injection Hr as <-. exact (proj1 Hm).
  - intros fields m Hf Hm. split.
    + intros a. cbn [walkPrepared]. apply grows_then; [|grow]. apply grows_then; [grow|]. apply grows_fields.
      apply (Forall_impl _ _ _ Hf). intros [key [x| |[x|]]] Hx; cbn [read_slot slot_all snd] in *; try done;
        (destruct Hx as [Hx Hx']; apply prepare_cases; [done | intros; cbn; grow | destruct x; cbn [grows_field]; try done; apply Hx
                              | intros r Hr; destruct (omitted r); cbn [grows_field]; [done | by apply (Hx' r)]]).
    + intros r Hr. destruct m as [|[r'|]]; [done| |done]. cbn in Hr. injection Hr as <-. exact (proj1 Hm).
Qed.

Lemma size_not_negative v n : managedSnapshotJsonByteLength v = Some n -> 0 <= n.
Proof.
  unfold managedSnapshotJsonByteLength, managedJsonByteLengthWithin.
  assert (Hg : grows (prepare hostile (charge_date None) (fun w => match w with VFunction => hostile | _ => walkPrepared None w false end)
    (fun r => if omitted r then hostile else walkPrepared None r false) v)).
  { destruct (walk_grows_all None v) as [Hv Hr].
    apply prepare_cases; [grow | intros; grow | destruct v; try apply Hv; grow |]. intros r Hret. destruct (omitted r); [grow|]. by apply Hr. }
  match goal with |- context [match ?w 0 with _ => _ end] => destruct (w 0) as [m| |] eqn:E end; [|done|done].
  intros [= <-]. by apply Hg in E.
Qed.

(** ** Histories *)

Inductive Op :=
| op_push (e : value)
| op_callback (m e : value)
| op_flush
| op_flushNonTerminal
| op_commitCallbacks
| op_replace (m : value)
| op_discard.

Section histories.
Context `{N : Normalizer}.

Definition perform (op : Op) : SM Transaction AttemptError unit := fun t =>
  match op with
  | op_push e => push e t
  | op_callback m e => stageAssistantMessageEvent m e t
  | op_flush => (flush t, Ok tt)
  | op_flushNonTerminal => (flushNonTerminal t, Ok tt)
  | op_commitCallbacks => (commitCallbacksAndUpdates t, Ok tt)
  | op_replace m => replacePendingAssistantMessage m t
  | op_discard => (discard t, Ok tt)
  end.

(** What a history makes of a transaction, errors ignored. *)
Definition history (ops : list Op) (t : Transaction) : Transaction := fold_left (fun t op => fst (perform op t)) ops t.

Lemma history_keeps (P : Transaction -> Prop) (allowed : Op -> Prop) ops t :
  (forall op, allowed op -> keeps P (perform op)) -> Forall allowed ops -> P t -> P (history ops t).
Proof. intros Hk Hops. revert t. induction Hops as [|op ops Hop _ IH]; intros t Ht; [done|]. apply IH. by apply Hk. Qed.

(** ** Within the caps *)

Definition item_size (b : ItemBody) : option Z :=
  match b with
  | event_item e => managedSnapshotJsonByteLength e
  | assistant_item m e => managedSnapshotJsonByteLength (pair_value m e)
  end.
(** Each item is charged; its charge is its exact size, unless a message was put into it later ([exact] is then false). *)
Definition charged (exact : bool) (i : ManagedAttemptBatchItem) : Prop :=
  (exact = true -> bytes i = item_size (body i)) /\ exists n, bytes i = Some n /\ 0 <= n.
Definition late_event (i : ManagedAttemptBatchItem) : Prop := held i = true.
Definition total (b : list ManagedAttemptBatchItem) : Z := foldr (fun i n => default 0 (bytes i) + n) 0 b.

Definition accounted (exact : bool) (t : Transaction) : Prop :=
  if committed t then Forall late_event (batch t)
  else Forall (charged exact) (batch t) /\ zlen (batch t) <= stagedEventCount t <= maxStagedEvents t
       /\ total (batch t) <= stagedBytes t <= maxStagedBytes t.
Definition capped (exact : bool) (maxEvents maxBytes : Z) (t : Transaction) : Prop :=
  accounted exact t /\ maxStagedEvents t = maxEvents /\ maxStagedBytes t = maxBytes /\ 0 <= maxEvents /\ 0 <= maxBytes.

Lemma item_size_not_negative b n : item_size b = Some n -> 0 <= n.
Proof. destruct b; apply size_not_negative. Qed.

Lemma charge_not_negative exact i : charged exact i -> 0 <= default 0 (bytes i).
Proof. by intros (_ & n & -> & Hn). Qed.

Lemma filter_split {A} (f : A -> bool) l :
  zlen l = zlen (List.filter f l) + zlen (List.filter (fun x => negb (f x)) l).
Proof. induction l as [|x l IH]; [done|]. cbn [List.filter]. destruct (f x); cbn [negb]; rewrite !zlen_cons; lia. Qed.

Lemma total_split f b : total b = total (List.filter f b) + total (List.filter (fun i => negb (f i)) b).
Proof. induction b as [|i b IH]; [done|]. cbn [List.filter]. destruct (f i); cbn [negb total foldr] in *; fold (total b) in *; fold (total (List.filter f b)) in *; fold (total (List.filter (fun i => negb (f i)) b)) in *; lia. Qed.

Lemma total_not_negative exact b : Forall (charged exact) b -> 0 <= total b.
Proof. induction 1 as [|i b Hi _ IH]; [done|]. cbn [total foldr]. fold (total b). apply charge_not_negative in Hi. lia. Qed.

Lemma total_sum b : total b = foldr Z.add 0 (map (fun i => default 0 (bytes i)) b).
Proof. induction b as [|i b IH]; [done|]. cbn [map total foldr]. fold (total b). by rewrite IH. Qed.

Lemma total_app b c : total (b ++ c) = total b + total c.
Proof. induction b as [|i b IH]; [done|]. cbn [app total foldr]. fold (total (b ++ c)) (total b). lia. Qed.

Lemma Forall_list_filter {A} (P : A -> Prop) f l : Forall P l -> Forall P (List.filter f l).
Proof. induction 1 as [|x l Hx _ IH]; [constructor|]. cbn [List.filter]. destruct (f x); [by constructor | done]. Qed.

Lemma Forall_list_filter_self {A} (f : A -> bool) l : Forall (fun x => f x = true) (List.filter f l).
Proof. induction l as [|x l IH]; [constructor|]. cbn [List.filter]. destruct (f x) eqn:E; [by constructor | done]. Qed.

Section caps.
Context (exact : bool) (maxEvents maxBytes : Z).
Abbreviation P := (capped exact maxEvents maxBytes).

Lemma compacted_capped t : P t -> committed t = false -> P (compactSupersededFrames t).
Proof.
  intros (Ha & Hcaps) Hc. split; [|exact Hcaps]. unfold accounted in *. cbn [compactSupersededFrames with_batch committed batch stagedEventCount stagedBytes maxStagedEvents maxStagedBytes].
  rewrite Hc in *. destruct Ha as (Hr & Hn & Hb). pose proof (filter_split isSupersededStreamingDelta (batch t)) as Hz.
  pose proof (total_split isSupersededStreamingDelta (batch t)) as Ht.
  pose proof (total_not_negative exact _ (Forall_list_filter _ isSupersededStreamingDelta _ Hr)) as Hp.
  pose proof (zlen_nonneg (List.filter isSupersededStreamingDelta (batch t))).
  fold (total (List.filter isSupersededStreamingDelta (batch t))).
  split; [by apply Forall_list_filter|]. split; lia.
Qed.

Lemma discarded_capped t : P t -> P (discard t).
Proof.
  intros (Ha & Hcaps). split; [|exact Hcaps]. unfold accounted. cbn. destruct (committed t); [constructor|].
  destruct Hcaps as (-> & -> & ? & ?). split; [constructor|]. unfold zlen. cbn. lia.
Qed.

Lemma flushed_capped t : P t -> P (flush t).
Proof. intros (Ha & Hcaps). unfold flush. destruct (discarded t); [by split|]. split; [constructor | exact Hcaps]. Qed.

Lemma published_capped ps t : P t -> P (publish ps t).
Proof. by intros (Ha & Hcaps). Qed.

Lemma wouldOverflow_false size t :
  wouldOverflow size t = false -> stagedEventCount t + 1 <= maxStagedEvents t /\ stagedBytes t + size <= maxStagedBytes t.
Proof. unfold wouldOverflow. intros [H1 H2]%orb_false_iff. lia. Qed.

Lemma appended_capped b size t :
  P t -> committed t = false -> item_size b = Some size -> wouldOverflow size t = false -> P (append b size t).
Proof.
  intros (Ha & Hcaps) Hc Hs [Ho1 Ho2]%wouldOverflow_false. split; [|exact Hcaps]. unfold accounted in *.
  cbn [append with_batch committed batch stagedEventCount stagedBytes maxStagedEvents maxStagedBytes]. rewrite Hc in *.
  destruct Ha as (Hr & Hn & Hb). pose proof (item_size_not_negative b size Hs).
  split; [apply Forall_app; split; [done|]; constructor; [|constructor]; split; [by intros _ | by exists size]|].
  rewrite zlen_app, total_app. unfold zlen at 2. cbn. lia.
Qed.

Lemma push_committed_capped e t : P t -> committed t = true -> P (push_committed e t).
Proof.
  intros (Ha & Hcaps) Hc. unfold push_committed. destruct (terminal_event e) eqn:Ht; [|by split].
  split; [|exact Hcaps]. unfold accounted in *. cbn. rewrite Hc in *. apply Forall_app. split; [done|]. by constructor.
Qed.

Lemma flush_and_push_capped e t : P t -> P (fst (flush_and_push e t)).
Proof.
  intros Ht. unfold flush_and_push. destruct (committed (flush t)) eqn:Hc; cbn [fst].
  - apply push_committed_capped; [by apply flushed_capped | done].
  - by apply flushed_capped.
Qed.

Lemma admit_item_capped b size t : P t -> committed t = false -> item_size b = Some size -> P (fst (admit_item b size t)).
Proof.
  intros Ht Hc Hs. unfold admit_item. destruct (wouldOverflow size t) eqn:Ho; [|by apply appended_capped].
  pose proof (compacted_capped t Ht Hc) as Ht'.
  destruct (wouldOverflow size (compactSupersededFrames t)) eqn:Ho'; [by apply discarded_capped | by apply appended_capped].
Qed.

Lemma fail_capped e t : P t -> P (fst (fail_with e t)).
Proof. apply discarded_capped. Qed.

Lemma stage_snapshot_capped e t : P t -> committed t = false -> P (fst (stage_snapshot e t)).
Proof.
  intros Ht Hc. unfold stage_snapshot. destruct (repairAssistantEvent t e) as [r|]; [|done]. cbv zeta.
  destruct (snapshot_measured r (remaining t)) as [[n Hn] Hm]. rewrite Hn. apply admit_item_capped; [done | done |].
  cbn [item_size]. by rewrite <- Hm.
Qed.

Lemma stage_lossless_capped e t : P t -> committed t = false -> P (fst (stage_lossless e t)).
Proof.
  intros Ht Hc. unfold stage_lossless. pose proof (fun x => flush_and_push_capped x t Ht) as Hf.
  destruct (is_over _); [apply Hf|]. destruct (match managedSnapshotJsonByteLength e with Some _ => _ | _ => _ end); [apply Hf|].
  destruct (is_surface_over _); [apply Hf|]. destruct (losslessAgentEventSnapshot t e) as [d|]; [|by apply fail_capped].
  destruct (managedSnapshotJsonByteLength d) as [n|] eqn:Hn; [|by apply fail_capped].
  destruct (wouldOverflow n t) eqn:Ho; [apply Hf|]. by apply appended_capped.
Qed.

Lemma stage_managed_capped e t : P t -> committed t = false -> P (fst (stage_managed e t)).
Proof.
  intros Ht Hc. unfold stage_managed. destruct (preflightOver e t); [|by apply stage_snapshot_capped].
  pose proof (compacted_capped t Ht Hc) as Ht'. cbv zeta.
  destruct (preflightOver e (compactSupersededFrames t)); [by apply fail_capped | by apply stage_snapshot_capped].
Qed.

Lemma push_capped e : keeps P (push e).
Proof.
  intros t Ht. unfold push. destruct (committed t) eqn:Hc; [by apply push_committed_capped|].
  destruct (snapshotMode t); [by apply stage_managed_capped | by apply stage_lossless_capped].
Qed.

Lemma stage_pair_capped m e t : P t -> committed t = false -> P (fst (stage_pair m e t)).
Proof.
  intros Ht Hc. unfold stage_pair. destruct (paired t m e) as [[p e']|]; [|done]. cbv zeta.
  pose proof (flushed_capped t Ht) as Hf. pose proof (compacted_capped t Ht Hc) as Ht'. pose proof (flushed_capped _ Ht') as Hf'.
  destruct (managedSnapshotJsonByteLength (pair_value p e')) as [n|] eqn:Hn.
  - destruct (snapshotMode t); [by apply admit_item_capped|].
    destruct (wouldOverflow n t) eqn:Ho; [|by apply appended_capped].
    destruct (wouldOverflow n (compactSupersededFrames t)) eqn:Ho'; [by apply published_capped | by apply appended_capped].
  - destruct (snapshotMode t); [by apply fail_capped | by apply published_capped].
Qed.

Lemma call_back_capped m e : keeps P (call_back m e).
Proof. intros t Ht. unfold call_back. destruct (paired t m e) as [[p e']|]; [by apply published_capped | done]. Qed.

Lemma callback_capped m e : keeps P (stageAssistantMessageEvent m e).
Proof.
  intros t Ht. unfold stageAssistantMessageEvent. destruct (committed t) eqn:Hc; [by apply call_back_capped|].
  destruct (is_over _); [|by apply stage_pair_capped]. pose proof (compacted_capped t Ht Hc) as Ht'. cbv zeta.
  destruct (is_over _); [|by apply stage_pair_capped].
  destruct (snapshotMode t); [by apply fail_capped | by apply call_back_capped, flushed_capped].
Qed.

(** A message that is put into an item does not make it another kind of item. *)
Lemma type_put e m : type_of (with_field (u "message") m e) = type_of e.
Proof.
  unfold type_of, with_field, managedProperty. assert (Hs : forall fields, slot_of (put_field (u "message") m fields) (u "type") = slot_of fields (u "type")).
  { induction fields as [|[k s] l IH]; [done|]. cbn [put_field]. destruct (k === u "message") eqn:Hk; cbn [slot_of].
    - apply bool_decide_eq_true in Hk as ->. done.
    - by rewrite IH. }
  rewrite Hs. by destruct e.
Qed.

Lemma replaced_charged message t i i' : exact = false -> replaced t message i = Ok i' -> charged exact i -> charged exact i'.
Proof.
  intros He. unfold replaced. destruct i as [[e|m e] n]; cbn [body bytes].
  - intros [= <-] [_ Hn]. rewrite He. split; [done|]. by destruct (terminal_event e).
  - destruct (assistantEventSnapshot t e message); [|done]. intros [= <-] [_ Hn]. rewrite He. by split.
Qed.
Lemma replaced_bytes message t i i' : replaced t message i = Ok i' -> bytes i' = bytes i.
Proof.
  unfold replaced. destruct i as [[e|m e] n]; cbn [body bytes].
  - intros [= <-]. by destruct (terminal_event e).
  - destruct (assistantEventSnapshot t e message); [|done]. by intros [= <-].
Qed.
Lemma replaced_late message t i i' : replaced t message i = Ok i' -> late_event i -> late_event i'.
Proof.
  unfold replaced, late_event, held. destruct i as [[e|m e] n]; cbn [body bytes]; [|by destruct (assistantEventSnapshot t e message)].
  intros [= <-]. destruct (terminal_event e) eqn:Ht; [|done]. intros _. cbn [body].
  unfold terminal_event, is_type in *. by rewrite type_put.
Qed.

Lemma replace_all_keeps (Q : ManagedAttemptBatchItem -> Prop) message t b b' :
  (forall i i', replaced t message i = Ok i' -> Q i -> Q i') -> replace_all t message b = Ok b' -> Forall Q b -> Forall Q b'.
Proof.
  intros Hq. revert b'. induction b as [|i b IH]; cbn [replace_all]; [by intros b' [= <-]|].
  intros b'. destruct (replaced t message i) as [i'|] eqn:Hi; [|done]. destruct (replace_all t message b) as [c|]; [|done].
  intros [= <-] Hf. inversion_clear Hf. constructor; [by apply (Hq i) | by apply IH].
Qed.
Lemma replace_all_bytes message t b b' : replace_all t message b = Ok b' -> map bytes b' = map bytes b.
Proof.
  revert b'. induction b as [|i b IH]; cbn [replace_all]; [by intros b' [= <-]|].
  intros b'. destruct (replaced t message i) as [i'|] eqn:Hi; [|done]. destruct (replace_all t message b) as [c|]; [|done].
  intros [= <-]. cbn [map]. by rewrite (replaced_bytes _ _ _ _ Hi), (IH c).
Qed.
Lemma same_bytes b b' : map bytes b' = map bytes b -> zlen b' = zlen b /\ total b' = total b.
Proof.
  intros H. split; [unfold zlen; by rewrite <- (length_map bytes b'), H, length_map|]. unfold total.
  revert b' H. induction b as [|i b IH]; intros [|i' b']; try discriminate; [done|]. intros [= Hi Hb]. cbn [foldr]. by rewrite Hi, (IH b').
Qed.

Lemma replace_capped m : exact = false -> keeps P (replacePendingAssistantMessage m).
Proof.
  intros He t (Ha & Hcaps). unfold replacePendingAssistantMessage. destruct (replace_all t m (batch t)) as [b|] eqn:Hb; [|by split].
  split; [|exact Hcaps]. unfold accounted in *. cbn [fst set_batch with_batch committed batch stagedEventCount stagedBytes maxStagedEvents maxStagedBytes].
  destruct (committed t); [by apply (replace_all_keeps late_event _ _ _ _ (replaced_late m t) Hb)|].
  destruct (same_bytes _ _ (replace_all_bytes _ _ _ _ Hb)) as [-> ->]. destruct Ha as (Hr & Hz). split; [|exact Hz].
  apply (replace_all_keeps (charged exact) _ _ _ _ (fun i i' => replaced_charged m t i i' He) Hb Hr).
Qed.

Definition is_replace (op : Op) : bool := match op with op_replace _ => true | _ => false end.

Definition charges_kept (op : Op) : Prop := exact = true -> is_replace op = false.

Lemma perform_capped op : charges_kept op -> keeps P (perform op).
Proof.
  intros Hop t Ht. destruct op; cbn [perform fst].
  - by apply push_capped.
  - by apply callback_capped.
  - by apply flushed_capped.
  - unfold flushNonTerminal. destruct (discarded t || committed t) eqn:Hd; [done|]. apply orb_false_iff in Hd as [_ Hc].
    destruct Ht as (Ha & Hcaps). split; [|exact Hcaps]. unfold accounted in *.
    cbn [set_batch with_batch publish committed batch stagedEventCount stagedBytes maxStagedEvents maxStagedBytes]. rewrite Hc in *.
    destruct Ha as (Hr & Hn & Hb). split; [by apply Forall_list_filter|].
    pose proof (filter_split isTerminalItem (batch t)). pose proof (total_split isTerminalItem (batch t)).
    pose proof (total_not_negative exact _ (Forall_list_filter _ (fun i => negb (isTerminalItem i)) _ Hr)).
    pose proof (zlen_nonneg (List.filter (fun i => negb (isTerminalItem i)) (batch t))). lia.
  - unfold commitCallbacksAndUpdates. destruct (discarded t || committed t); [done|]. destruct Ht as (_ & Hcaps).
    split; [|exact Hcaps]. unfold accounted. cbn. apply Forall_list_filter_self.
  - apply replace_capped; [|done]. unfold charges_kept in Hop. destruct exact; [by discriminate Hop | done].
  - by apply discarded_capped.
Qed.

Lemma history_capped mode ops :
  0 <= maxEvents -> 0 <= maxBytes -> Forall charges_kept ops -> P (history ops (newTransaction mode maxEvents maxBytes)).
Proof.
  intros He Hb Hops. apply (history_keeps P charges_kept); [apply perform_capped | done |].
  split; [|done]. unfold accounted. cbn. split; [constructor|]. unfold zlen. cbn. lia.
Qed.
End caps.

(** ** What a committed attempt still holds back *)

(** The pushes of a [message_end] or [turn_end]. *)
Definition ends_pushed (ops : list Op) : Z := zlen (List.filter (fun op => match op with op_push e => terminal_event e | _ => false end) ops).

(** [t'] does not hold back more than [t] did, or one event. *)
Definition no_larger (t t' : Transaction) : Prop := committed t' = true -> zlen (batch t') <= Z.max 1 (zlen (batch t)).

Lemma no_larger_same t t' : batch t' = batch t -> no_larger t t'.
Proof. intros Hb _. rewrite Hb. lia. Qed.
Lemma no_larger_open t t' : committed t' = false -> no_larger t t'.
Proof. intros Hc. unfold no_larger. by rewrite Hc. Qed.
Lemma no_larger_filter f t t' : batch t' = List.filter f (batch t) -> no_larger t t'.
Proof.
  intros Hb _. rewrite Hb. pose proof (filter_split f (batch t)). pose proof (zlen_nonneg (List.filter (fun x => negb (f x)) (batch t))). lia.
Qed.
Lemma no_larger_compact t t' : no_larger (compactSupersededFrames t) t' -> no_larger t t'.
Proof.
  intros H Hc. specialize (H Hc). cbn [compactSupersededFrames with_batch batch] in H.
  pose proof (filter_split isSupersededStreamingDelta (batch t)). pose proof (zlen_nonneg (List.filter isSupersededStreamingDelta (batch t))). lia.
Qed.
Lemma no_larger_flush ps t : no_larger t (publish ps (flush t)).
Proof. unfold flush. destruct (discarded t); [by apply no_larger_same|]. intros _. unfold zlen. cbn. lia. Qed.

Lemma no_larger_flush_and_push d t : committed t = false -> no_larger t (fst (flush_and_push d t)).
Proof.
  intros Hc. unfold flush_and_push, flush. destruct (discarded t).
  - rewrite Hc. by apply no_larger_open.
  - intros _. cbn [commit committed fst]. unfold push_committed. destruct (terminal_event d); [|unfold zlen; cbn; lia].
    unfold zlen. cbn. lia.
Qed.

Lemma no_larger_admit b size t : committed t = false -> no_larger t (fst (admit_item b size t)).
Proof.
  intros Hc. apply no_larger_open. unfold admit_item. destruct (wouldOverflow size t); [|done]. by destruct (wouldOverflow size _).
Qed.
Lemma no_larger_snapshot e t : committed t = false -> no_larger t (fst (stage_snapshot e t)).
Proof.
  intros Hc. unfold stage_snapshot. destruct (repairAssistantEvent t e); [|by apply no_larger_open]. cbv zeta.
  destruct (jsonBytes _); [by apply no_larger_admit | by apply no_larger_open].
Qed.
Lemma no_larger_push e t : committed t = false -> no_larger t (fst (push e t)).
Proof.
  intros Hc. unfold push. rewrite Hc. destruct (snapshotMode t).
  - unfold stage_managed. destruct (preflightOver e t); [|by apply no_larger_snapshot]. cbv zeta.
    destruct (preflightOver e _); [by apply no_larger_open | by apply no_larger_compact, no_larger_snapshot].
  - unfold stage_lossless. pose proof (fun d => no_larger_flush_and_push d t Hc) as Hf. destruct (is_over _); [apply Hf|].
    destruct (match managedSnapshotJsonByteLength e with Some _ => _ | _ => _ end); [apply Hf|].
    destruct (is_surface_over _); [apply Hf|]. destruct (losslessAgentEventSnapshot t e) as [d|]; [|by apply no_larger_open].
    destruct (managedSnapshotJsonByteLength d); [|by apply no_larger_open]. destruct (wouldOverflow _ t); [apply Hf | by apply no_larger_open].
Qed.
Lemma no_larger_pair m e t : committed t = false -> no_larger t (fst (stage_pair m e t)).
Proof.
  intros Hc. unfold stage_pair. destruct (paired t m e) as [[p e']|]; [|by apply no_larger_open]. cbv zeta.
  destruct (managedSnapshotJsonByteLength _), (snapshotMode t);
    [by apply no_larger_admit | | by apply no_larger_open | by apply no_larger_flush].
  destruct (wouldOverflow _ t); [|by apply no_larger_open]. apply no_larger_compact.
  destruct (wouldOverflow _ _); [by apply no_larger_flush | by apply no_larger_open].
Qed.
Lemma no_larger_call_back m e t t' : no_larger t t' -> no_larger t (fst (call_back m e t')).
Proof. intros H. unfold call_back. by destruct (paired t' m e) as [[p e']|]. Qed.
Lemma no_larger_callback m e t : no_larger t (fst (stageAssistantMessageEvent m e t)).
Proof.
  unfold stageAssistantMessageEvent. destruct (committed t) eqn:Hc; [by apply no_larger_call_back, no_larger_same|].
  destruct (is_over _); [|by apply no_larger_pair]. cbv zeta. apply no_larger_compact.
  destruct (is_over _); [|by apply no_larger_pair]. destruct (snapshotMode t); [by apply no_larger_open|].
  apply no_larger_call_back. exact (no_larger_flush [] _).
Qed.

(** An operation lets what is held back grow by the end that it pushes. *)
Lemma held_back_grows op t :
  committed (fst (perform op t)) = true ->
  zlen (batch (fst (perform op t))) <= Z.max 1 (zlen (batch t)) + ends_pushed [op].
Proof.
  assert (Hz : 0 <= ends_pushed [op]) by apply zlen_nonneg. intros Hc.
  cut (no_larger t (fst (perform op t)) \/ exists e, op = op_push e /\ committed t = true).
  { intros [H|(e & -> & Ht)]; [specialize (H Hc); lia|]. cbn [perform]. unfold push. rewrite Ht. unfold push_committed, ends_pushed.
    cbn [fst List.filter]. destruct (terminal_event e); [|unfold zlen; cbn [publish batch length]; lia].
    cbn [set_batch with_batch batch]. rewrite zlen_app. unfold zlen. cbn. lia. }
  clear Hc Hz. destruct op; cbn [perform fst]; try (left; exact (no_larger_flush [] t)).
  - destruct (committed t) eqn:Hc; [right; by exists e | left; by apply no_larger_push].
  - left. apply no_larger_callback.
  - left. unfold flushNonTerminal. destruct (_ || _); [by apply no_larger_same | by eapply no_larger_filter].
  - left. unfold commitCallbacksAndUpdates. destruct (_ || _); [by apply no_larger_same | by eapply no_larger_filter].
  - left. unfold replacePendingAssistantMessage. destruct (replace_all t m (batch t)) as [b|] eqn:Hb; [|by apply no_larger_same].
    intros _. cbn [fst set_batch with_batch batch]. rewrite (proj1 (same_bytes _ _ (replace_all_bytes _ _ _ _ Hb))). lia.
  - left. intros _. unfold zlen. cbn [discard batch length]. lia.
Qed.

Lemma history_holds_back maxEvents maxBytes mode ops :
  0 <= maxEvents -> 0 <= maxBytes -> let t := history ops (newTransaction mode maxEvents maxBytes) in
  zlen (batch t) <= Z.max 1 maxEvents + ends_pushed ops.
Proof.
  intros He Hb. cbv zeta. induction ops as [|op ops IH] using rev_ind; [unfold ends_pushed, zlen; cbn; lia|].
  assert (Ht : capped false maxEvents maxBytes (history (ops ++ [op]) (newTransaction mode maxEvents maxBytes))).
  { apply history_capped; [done..|]. by apply Forall_forall. }
  revert Ht. unfold history, ends_pushed in *. rewrite fold_left_app, List.filter_app, zlen_app. cbn [fold_left].
  set (t := fold_left _ ops _) in *. pose proof (held_back_grows op t) as Hg. unfold ends_pushed in Hg.
  set (t' := fst (perform op t)) in *. clearbody t t'. intros (Ha & Hm & _).
  pose proof (zlen_nonneg (List.filter (fun op => match op with op_push e => terminal_event e | _ => false end) ops)).
  pose proof (zlen_nonneg (List.filter (fun op => match op with op_push e => terminal_event e | _ => false end) [op])).
  unfold accounted in Ha. destruct (committed t'); [specialize (Hg eq_refl)|]; lia.
Qed.

End histories.
