(* ===== verification/AttemptEffects.v ===== *)
(** * A managed attempt is atomic, and nothing that was admitted is lost, invented or reordered *)
From S2P Require Import Prelude.
From S2P Require Import Json.
From S2P Require Import Staged.
From S2P Require Import StagedCopies.
From S2P Require Import Attempt.
From S2P Require Import AttemptProofs.
#[local] Open Scope Z_scope.
#[local] Open Scope js_scope.

Section effects.
Context `{N : Normalizer}.

(** ** Atomicity *)

(** [t'] is as public as [t], and discarded if [t] is. *)
Definition quiet (t t' : Transaction) : Prop :=
  snapshotMode t' = snapshotMode t /\ committed t' = committed t /\ published t' = published t
  /\ (discarded t = true -> discarded t' = true).

Lemma quiet_compact t : quiet t (compactSupersededFrames t).
Proof. done. Qed.
Lemma quiet_discard t : quiet t (discard t).
Proof. done. Qed.
Lemma quiet_trans t1 t2 t3 : quiet t1 t2 -> quiet t2 t3 -> quiet t1 t3.
Proof. intros (H1 & H2 & H3 & H4) (K1 & K2 & K3 & K4). repeat split; [congruence..|auto]. Qed.
(** The records of [t] and [t'] show it. *)
Ltac hush := unfold fail_with; cbn [fst]; done.

Lemma quiet_admit b size t : quiet t (fst (admit_item b size t)).
Proof. unfold admit_item. destruct (wouldOverflow size t); [|hush]. destruct (wouldOverflow size _); hush. Qed.

Lemma quiet_snapshot e t : quiet t (fst (stage_snapshot e t)).
Proof.
  unfold stage_snapshot. destruct (repairAssistantEvent t e); [|hush]. cbv zeta.
  destruct (jsonBytes _); [apply quiet_admit | hush].
Qed.

Lemma quiet_managed e t : quiet t (fst (stage_managed e t)).
Proof.
  unfold stage_managed. destruct (preflightOver e t); [|apply quiet_snapshot]. cbv zeta.
  destruct (preflightOver e _); [hush|]. eapply quiet_trans; [apply quiet_compact | apply quiet_snapshot].
Qed.

Lemma quiet_pair m e t : snapshotMode t = managed -> quiet t (fst (stage_pair m e t)).
Proof.
  intros Hm. unfold stage_pair. rewrite Hm. destruct (paired t m e) as [[p e']|]; [|hush]. cbv zeta.
  destruct (managedSnapshotJsonByteLength _); [apply quiet_admit | hush].
Qed.

Lemma quiet_callback m e t : snapshotMode t = managed -> committed t = false -> quiet t (fst (stageAssistantMessageEvent m e t)).
Proof.
  intros Hm Hc. unfold stageAssistantMessageEvent. rewrite Hc, Hm. destruct (is_over _); [|by apply quiet_pair]. cbv zeta.
  destruct (is_over _); [hush|]. eapply quiet_trans; [apply quiet_compact | by apply quiet_pair].
Qed.

Lemma quiet_push e t : snapshotMode t = managed -> committed t = false -> quiet t (fst (push e t)).
Proof. intros Hm Hc. unfold push. rewrite Hc, Hm. apply quiet_managed. Qed.

Lemma quiet_replace m t : quiet t (fst (replacePendingAssistantMessage m t)).
Proof. unfold replacePendingAssistantMessage. by destruct (replace_all t m (batch t)). Qed.

(** What the items of a batch are published as. *)
Definition pending (b : list ManagedAttemptBatchItem) : list Publication := map (fun i => publication (body i)) b.

(** An operation that [ManagedAttemptTransaction] has for managed attempts: the loop flushes them as a whole. *)
Definition whole (op : Op) : bool := match op with op_flushNonTerminal => false | _ => true end.

(** Nothing is public before the commit. *)
Definition unpublished (t : Transaction) : Prop :=
  snapshotMode t = managed /\ (committed t = false -> published t = []).
Definition silenced (t : Transaction) : Prop :=
  snapshotMode t = managed /\ committed t = false /\ discarded t = true /\ published t = [].

Lemma unpublished_step op : whole op = true -> keeps unpublished (perform op).
Proof.
  intros Hop t [Hm Hp]. assert (Hq : forall t', quiet t t' -> unpublished t').
  { intros t' (H1 & H2 & H3 & _). split; [congruence|]. rewrite H2, H3. exact Hp. }
  destruct op; try discriminate Hop; cbn [perform fst].
  - destruct (committed t) eqn:Hc; [|apply Hq; by apply quiet_push]. unfold push, push_committed. rewrite Hc.
    destruct (terminal_event e); (split; [exact Hm|]); cbn; by rewrite Hc.
  - destruct (committed t) eqn:Hc; [|apply Hq; by apply quiet_callback]. unfold stageAssistantMessageEvent, call_back. rewrite Hc.
    destruct (paired t m e) as [[p e']|]; (split; [exact Hm|]); cbn; by rewrite Hc.
  - unfold flush. destruct (discarded t); by split.
  - unfold commitCallbacksAndUpdates. destruct (discarded t || committed t); by split.
  - apply Hq, quiet_replace.
  - apply Hq, quiet_discard.
Qed.

Lemma silenced_step op : keeps silenced (perform op).
Proof.
  intros t (Hm & Hc & Hd & Hp). assert (Hq : forall t', quiet t t' -> silenced t').
  { intros t' (H1 & H2 & H3 & H4). split; [congruence|]. split; [congruence|]. split; [by apply H4 | congruence]. }
  destruct op; cbn [perform fst].
  - apply Hq. by apply quiet_push.
  - apply Hq. by apply quiet_callback.
  - unfold flush. by rewrite Hd.
  - unfold flushNonTerminal. by rewrite Hd.
  - unfold commitCallbacksAndUpdates. by rewrite Hd.
  - apply Hq, quiet_replace.
  - apply Hq, quiet_discard.
Qed.

(** What fails for the caps is discarded. *)
Definition overflowed (r : Transaction * result AttemptError unit) : Prop :=
  match r with (t', Err (buffer_overflow _)) => discarded t' = true /\ committed t' = false | _ => True end.

Lemma overflowed_fail e t : committed t = false -> overflowed (fail_with e t).
Proof. intros Hc. unfold fail_with. cbn. by destruct (e (discard t)). Qed.

Lemma overflowed_admit b size t : committed t = false -> overflowed (admit_item b size t).
Proof.
  intros Hc. unfold admit_item. destruct (wouldOverflow size t); [|done]. destruct (wouldOverflow size _); [by apply overflowed_fail | done].
Qed.

Lemma overflowed_snapshot e t : committed t = false -> overflowed (stage_snapshot e t).
Proof.
  intros Hc. unfold stage_snapshot. destruct (repairAssistantEvent t e); [|done]. cbv zeta.
  destruct (jsonBytes _); [by apply overflowed_admit | by apply overflowed_fail].
Qed.

Lemma overflowed_flush_and_push e t : overflowed (flush_and_push e t).
Proof. unfold flush_and_push. by destruct (committed (flush t)). Qed.

Lemma overflowed_push e t : overflowed (push e t).
Proof.
  unfold push. destruct (committed t) eqn:Hc; [done|]. pose proof (fun x => overflowed_flush_and_push x t) as Hf.
  destruct (snapshotMode t).
  - unfold stage_managed. destruct (preflightOver e t); [|by apply overflowed_snapshot]. cbv zeta.
    destruct (preflightOver e _); [by apply overflowed_fail | by apply overflowed_snapshot].
  - unfold stage_lossless. destruct (is_over _); [done|].
    destruct (match managedSnapshotJsonByteLength e with Some _ => _ | _ => _ end); [done|]. destruct (is_surface_over _); [done|].
    destruct (losslessAgentEventSnapshot t e); [|by apply overflowed_fail].
    destruct (managedSnapshotJsonByteLength _); [|by apply overflowed_fail]. by destruct (wouldOverflow _ t).
Qed.

Lemma overflowed_pair m e t : committed t = false -> overflowed (stage_pair m e t).
Proof.
  intros Hc. unfold stage_pair. destruct (paired t m e) as [[p e']|]; [|done]. cbv zeta.
  destruct (managedSnapshotJsonByteLength _), (snapshotMode t); try done; [by apply overflowed_admit|].
  destruct (wouldOverflow _ t); [|done]. by destruct (wouldOverflow _ _).
Qed.

Lemma overflowed_callback m e t : overflowed (stageAssistantMessageEvent m e t).
Proof.
  unfold stageAssistantMessageEvent, call_back. destruct (committed t) eqn:Hc; [by destruct (paired t m e) as [[]|]|].
  destruct (is_over _); [|by apply overflowed_pair]. cbv zeta. destruct (is_over _); [|by apply overflowed_pair].
  destruct (snapshotMode t); [by apply overflowed_fail | by destruct (paired _ m e) as [[]|]].
Qed.

Lemma overflow_discards op t t' o : perform op t = (t', Err (buffer_overflow o)) -> discarded t' = true /\ committed t' = false.
Proof.
  intros H. pose proof (overflowed_push) as Hp. pose proof overflowed_callback as Hcb.
  destruct op; cbn [perform] in H; try discriminate H.
  - specialize (Hp e t). by rewrite H in Hp.
  - specialize (Hcb m e t). by rewrite H in Hcb.
  - unfold replacePendingAssistantMessage in H. by destruct (replace_all t m (batch t)).
Qed.

Lemma only_flushes_commit op t :
  whole op = true -> snapshotMode t = managed -> committed t = false -> committed (fst (perform op t)) = true ->
  op = op_flush \/ op = op_commitCallbacks.
Proof.
  intros Hop Hm Hc. assert (Hq : forall t', quiet t t' -> committed t' = true -> False).
  { intros t' (_ & H2 & _) H. rewrite H2, Hc in H. done. }
  destruct op; try discriminate Hop; cbn [perform fst]; intros H; try (by left); try (by right); exfalso; revert H; apply Hq.
  - by apply quiet_push.
  - by apply quiet_callback.
  - apply quiet_replace.
  - apply quiet_discard.
Qed.

(** C16. A managed attempt is published as a whole or not at all.  Until it is committed neither the stream nor the callback has got
    anything.  Only the two commits end that, of an attempt that was not discarded: [flush] publishes the whole batch in its
    order, and [commitCallbacksAndUpdates] all of it but the [message_end] and [turn_end] events, which the next [flush] publishes.
    Once it is discarded before the commit, by its owner or because the caps do not admit an event, nothing that is done to it
    afterwards commits it or publishes anything. *)
Theorem attempt_is_atomic maxEvents maxBytes before after :
  forallb whole before = true ->
  let t := history before (newTransaction managed maxEvents maxBytes) in
  (committed t = false -> published t = [])
  /\ (forall op, committed t = false -> whole op = true -> committed (fst (perform op t)) = true ->
      discarded t = false /\ (op = op_flush \/ op = op_commitCallbacks))
  /\ (committed t = false -> discarded t = false ->
      let t' := flush t in
      committed t' = true /\ published t' = pending (batch t) /\ batch t' = [])
  /\ (committed t = false -> discarded t = false ->
      let t' := commitCallbacksAndUpdates t in
      committed t' = true /\ published t' = pending (List.filter (fun i => negb (held i)) (batch t))
      /\ published (flush t') = published t' ++ pending (List.filter held (batch t)))
  /\ (committed t = false -> discarded t = true ->
      published (history after t) = [] /\ committed (history after t) = false)
  /\ (forall op t' o, perform op t = (t', Err (buffer_overflow o)) -> discarded t' = true /\ committed t' = false).
Proof.
  intros Hb. cbv zeta. assert (Ht : unpublished (history before (newTransaction managed maxEvents maxBytes))).
  { apply (history_keeps _ (fun op => whole op = true)); [exact unpublished_step | | by split].
    by apply forallb_Forall in Hb. }
  set (t := history _ _) in *. clearbody t. destruct Ht as [Hm Hp]. split; [exact Hp|].
  split; [|split; [|split; [|split; [|intros op t' o; apply overflow_discards]]]].
  - intros op Hc Hop Hc'. pose proof (only_flushes_commit op t Hop Hm Hc Hc') as Ho. split; [|exact Ho].
    destruct (discarded t) eqn:Hd; [|done]. revert Hc'.
    destruct Ho as [->| ->]; cbn [perform fst]; unfold flush, commitCallbacksAndUpdates; rewrite Hd; cbn [orb]; congruence.
  - intros Hc Hd. unfold flush. rewrite Hd. cbn. by rewrite (Hp Hc).
  - intros Hc Hd. unfold commitCallbacksAndUpdates. rewrite Hd, Hc. cbn [orb]. split; [done|].
    unfold flush. cbn [commit set_batch with_batch publish discarded published batch]. rewrite Hd. cbn. by rewrite (Hp Hc).
  - intros Hc Hd. destruct (history_keeps silenced (fun _ => True) after t) as (_ & H1 & _ & H2); [intros op _; apply silenced_step | by apply Forall_true | |done].
    split; [done|]. split; [done|]. split; [done | by apply Hp].
Qed.

(** ** Diagnostics *)

Lemma compact_idem t : compactSupersededFrames (compactSupersededFrames t) = compactSupersededFrames t.
Proof.
  assert (Hn : List.filter isSupersededStreamingDelta (List.filter (fun i => negb (isSupersededStreamingDelta i)) (batch t)) = []).
  { induction (batch t) as [|i b IH]; [done|]. cbn [List.filter]. destruct (isSupersededStreamingDelta i) eqn:E; cbn [negb]; [done|].
    cbn [List.filter]. by rewrite E. }
  assert (Hs : List.filter (fun i => negb (isSupersededStreamingDelta i)) (List.filter (fun i => negb (isSupersededStreamingDelta i)) (batch t))
    = List.filter (fun i => negb (isSupersededStreamingDelta i)) (batch t)).
  { clear Hn. induction (batch t) as [|i b IH]; [done|]. cbn [List.filter]. destruct (negb _) eqn:E; [|done]. cbn [List.filter]. by rewrite E, IH. }
  unfold compactSupersededFrames at 1. cbn [compactSupersededFrames with_batch batch stagedEventCount stagedBytes maxStagedEvents
    maxStagedBytes lastStagedShape discarded committed snapshotMode published]. rewrite Hn, Hs.
  unfold compactSupersededFrames, with_batch. change (zlen (@nil ManagedAttemptBatchItem)) with 0. cbn [foldr]. by rewrite !Z.sub_0_r.
Qed.

(** [o] tells what [t] stages, and exactly the caps that the incoming event would pass. *)
Definition explains (t : Transaction) (o : Overflow) : Prop :=
  ov_events o = stagedEventCount t /\ ov_bytes o = stagedBytes t
  /\ ov_maxEvents o = maxStagedEvents t /\ ov_maxBytes o = maxStagedBytes t
  /\ let events_over := ov_maxEvents o < ov_events o + 1 in
     let bytes_over := ov_maxBytes o < ov_bytes o + incomingEventBytes o in
     match exceeded o with
     | by_events => events_over /\ ~ bytes_over
     | by_bytes => ~ events_over /\ bytes_over
     | by_both => events_over /\ bytes_over
     end.

Lemma explains_shape t st incoming :
  discarded t = false -> wouldOverflow incoming t = true -> explains t (overflowShape st incoming (discard t)).
Proof.
  intros Hd Ho. unfold explains, overflowShape, stagedShape, discard.
  cbn [lastStagedShape maxStagedEvents maxStagedBytes ov_events ov_bytes ov_maxEvents ov_maxBytes incomingEventBytes exceeded].
  rewrite Hd. cbn [from_option id current_shape shape_events shape_bytes]. do 4 (split; [done|]). cbv zeta. unfold wouldOverflow in Ho.
  destruct (Z.ltb_spec (maxStagedEvents t) (stagedEventCount t + 1)), (Z.ltb_spec (maxStagedBytes t) (stagedBytes t + incoming));
    cbn in Ho |- *; [split; lia | split; lia | split; lia | discriminate Ho].
Qed.

Definition explained (t : Transaction) (r : Transaction * result AttemptError unit) : Prop :=
  match r with (_, Err (buffer_overflow o)) => explains (compactSupersededFrames t) o | _ => True end.

Lemma explained_admit b size t : discarded t = false -> explained t (admit_item b size t).
Proof.
  intros Hd. unfold admit_item. destruct (wouldOverflow size t); [|done]. cbv zeta. destruct (wouldOverflow size _) eqn:Ho; [|done].
  by apply explains_shape.
Qed.

Lemma explained_compact t r : explained (compactSupersededFrames t) r -> explained t r.
Proof. unfold explained. by rewrite compact_idem. Qed.

Lemma explained_snapshot e t : discarded t = false -> explained t (stage_snapshot e t).
Proof.
  intros Hd. unfold stage_snapshot. destruct (repairAssistantEvent t e); [|done]. cbv zeta.
  destruct (jsonBytes _); [by apply explained_admit | done].
Qed.

Lemma more_than_remaining t n : remaining t + 1 <= n -> wouldOverflow n t = true.
Proof.
  unfold remaining, wouldOverflow. intros Hn. destruct (Z.ltb_spec (maxStagedBytes t) (stagedBytes t + n)); [apply orb_true_r | lia].
Qed.

Lemma explained_push e t : discarded t = false -> explained t (push e t).
Proof.
  intros Hd. unfold push. destruct (committed t) eqn:Hc; [done|]. destruct (snapshotMode t).
  - unfold stage_managed. destruct (preflightOver e t); [|by apply explained_snapshot]. cbv zeta.
    destruct (preflightOver e _); [|by apply explained_compact, explained_snapshot].
    apply explains_shape; [done|]. apply more_than_remaining. unfold incoming_bytes.
    destruct (managedJsonByteLengthWithin e _); lia.
  - unfold stage_lossless, flush_and_push. unfold flush. rewrite Hd. cbn [commit committed].
    destruct (is_over _); [done|]. destruct (match managedSnapshotJsonByteLength e with Some _ => _ | _ => _ end); [done|].
    destruct (is_surface_over _); [done|]. destruct (losslessAgentEventSnapshot t e); [|done].
    destruct (managedSnapshotJsonByteLength _); [|done]. by destruct (wouldOverflow _ t).
Qed.

Lemma explained_pair m e t : discarded t = false -> explained t (stage_pair m e t).
Proof.
  intros Hd. unfold stage_pair. destruct (paired t m e) as [[p e']|]; [|done]. cbv zeta.
  destruct (managedSnapshotJsonByteLength _), (snapshotMode t); try done; [by apply explained_admit|].
  destruct (wouldOverflow _ t); [|done]. by destruct (wouldOverflow _ _).
Qed.

Lemma explained_callback m e t :
  discarded t = false -> 0 <= stagedBytes (compactSupersededFrames t) -> explained t (stageAssistantMessageEvent m e t).
Proof.
  intros Hd Hb. unfold stageAssistantMessageEvent, call_back. destruct (committed t) eqn:Hc; [by destruct (paired t m e) as [[]|]|].
  destruct (is_over _); [|by apply explained_pair]. cbv zeta. destruct (is_over _); [|by apply explained_compact, explained_pair].
  destruct (snapshotMode t); [|by destruct (paired _ m e) as [[]|]]. apply explains_shape; [done|]. apply more_than_remaining.
  unfold remaining. cbn [discard maxStagedBytes stagedBytes]. lia.
Qed.

(** The size that is reported: of a callback, the exact size of the repaired pair, but when the live pair does not fit even after
    the increments were reclaimed, it is read after the discard; of an event, the exact size of its snapshot, or one that is
    more than what is left. *)
Definition reports (t : Transaction) (op : Op) (o : Overflow) : Prop :=
  let t' := compactSupersededFrames t in
  match op with
  | op_push e =>
      if preflightOver e t && preflightOver e t' then remaining t' < incomingEventBytes o
      else exists r limit, repairAssistantEvent t e = Ok r
             /\ managedSnapshotJsonByteLength (dt_snapshot (managedAttemptSnapshotDetailed r limit)) = Some (incomingEventBytes o)
  | op_callback m e =>
      let live := pair_value m e in
      if is_over (managedSnapshotExceedsBytes live (remaining t)) && is_over (managedSnapshotExceedsBytes live (remaining t'))
      then incomingEventBytes o = maxStagedBytes t + 1
      else exists p e', paired t m e = Ok (p, e') /\ managedSnapshotJsonByteLength (pair_value p e') = Some (incomingEventBytes o)
  | _ => False
  end.

Lemma admit_reports b size t t' o : admit_item b size t = (t', Err (buffer_overflow o)) -> incomingEventBytes o = size.
Proof.
  unfold admit_item. destruct (wouldOverflow size t); [|done]. cbv zeta. destruct (wouldOverflow size _); [|done].
  unfold fail_with. by intros [= _ <-].
Qed.

Lemma snapshot_reports e t t' o :
  stage_snapshot e t = (t', Err (buffer_overflow o)) ->
  exists r limit, repairAssistantEvent t e = Ok r
    /\ managedSnapshotJsonByteLength (dt_snapshot (managedAttemptSnapshotDetailed r limit)) = Some (incomingEventBytes o).
Proof.
  unfold stage_snapshot. destruct (repairAssistantEvent t e) as [r|] eqn:Hr; [|done]. cbv zeta.
  destruct (snapshot_measured r (remaining t)) as [[n Hn] Hm]. rewrite Hn. intros H%admit_reports.
  exists r, (remaining t). split; [done|]. by rewrite <- Hm, H.
Qed.

Lemma pair_reports m e t t' o :
  stage_pair m e t = (t', Err (buffer_overflow o)) ->
  exists p e', paired t m e = Ok (p, e') /\ managedSnapshotJsonByteLength (pair_value p e') = Some (incomingEventBytes o).
Proof.
  unfold stage_pair. destruct (paired t m e) as [[p e']|] eqn:Hp; [|done]. cbv zeta.
  destruct (managedSnapshotJsonByteLength (pair_value p e')) as [n|] eqn:Hn, (snapshotMode t); try done.
  - intros <-%admit_reports. by exists p, e'.
  - destruct (wouldOverflow n t); [|done]. by destruct (wouldOverflow n _).
Qed.

Lemma lossless_admits e t t' o : stage_lossless e t = (t', Err (buffer_overflow o)) -> False.
Proof.
  assert (Hf : forall d, flush_and_push d t = (t', Err (buffer_overflow o)) -> False).
  { intros d. unfold flush_and_push. by destruct (committed (flush t)). }
  unfold stage_lossless, fail_with. destruct (is_over _); [apply Hf|].
  destruct (match managedSnapshotJsonByteLength e with Some _ => _ | _ => _ end); [apply Hf|]. destruct (is_surface_over _); [apply Hf|].
  destruct (losslessAgentEventSnapshot t e); [|done]. destruct (managedSnapshotJsonByteLength _); [|done].
  destruct (wouldOverflow _ t); [apply Hf | done].
Qed.

Lemma overflow_reports op t t' o : perform op t = (t', Err (buffer_overflow o)) -> reports t op o.
Proof.
  destruct op; cbn [perform reports]; try discriminate.
  - unfold push. destruct (committed t); [done|]. destruct (snapshotMode t); [|by intros []%lossless_admits].
    unfold stage_managed. destruct (preflightOver e t); cbv zeta; cbn [andb]; [|by intros H%snapshot_reports].
    destruct (preflightOver e _); [|by intros H%snapshot_reports]. unfold fail_with. intros [= _ <-].
    cbn [overflowShape incomingEventBytes]. unfold incoming_bytes. destruct (managedJsonByteLengthWithin e _); lia.
  - unfold stageAssistantMessageEvent, call_back, fail_with. destruct (committed t); [by destruct (paired t m e) as [[]|]|].
    destruct (is_over (managedSnapshotExceedsBytes (pair_value m e) (remaining t))); cbv zeta; cbn [andb]; [|by intros H%pair_reports].
    destruct (is_over _); [|by intros H%pair_reports]. destruct (snapshotMode t); [|by destruct (paired _ m e) as [[]|]].
    intros [= _ <-]. unfold overflowShape, remaining. cbn [incomingEventBytes discard maxStagedBytes stagedBytes compactSupersededFrames with_batch]. lia.
  - unfold replacePendingAssistantMessage. by destruct (replace_all t m (batch t)).
Qed.

(** C27. The diagnostic of an overflow of an attempt that was not discarded before tells the truth about the batch and the caps:
    it names what is staged after the increments were reclaimed, the limits in force, and exactly the limits that an event of the
    reported size would pass.  That size is exact for whatever was measured; for an event that is refused by the preflight it is more than
    what is left; but for a callback whose live pair is refused it is the cap and one byte, whatever is staged, since it is
    read after the discard. *)
Theorem overflow_is_explained mode maxEvents maxBytes ops op t' o :
  0 <= maxEvents -> 0 <= maxBytes ->
  let t := history ops (newTransaction mode maxEvents maxBytes) in
  discarded t = false -> perform op t = (t', Err (buffer_overflow o)) ->
  explains (compactSupersededFrames t) o /\ reports t op o.
Proof.
  intros He Hb. cbv zeta. assert (Ht : capped false maxEvents maxBytes (history ops (newTransaction mode maxEvents maxBytes))).
  { apply history_capped; [done..|]. by apply Forall_forall. }
  set (t := history _ _) in *. clearbody t. intros Hd H. split; [|by eapply overflow_reports].
  cut (explained t (perform op t)); [by rewrite H|]. clear H. destruct op; try done; cbn [perform].
  - by apply explained_push.
  - destruct (committed t) eqn:Hc.
    + unfold stageAssistantMessageEvent, call_back. rewrite Hc. by destruct (paired t m e) as [[]|].
    + apply explained_callback; [done|]. apply (compacted_capped _ _ _ t Ht) in Hc as Hc'. destruct Hc' as (Ha & _).
      unfold accounted in Ha. change (committed (compactSupersededFrames t)) with (committed t) in Ha. rewrite Hc in Ha.
      destruct Ha as (Hr & _ & Hs & _). apply total_not_negative in Hr. lia.
  - unfold replacePendingAssistantMessage. by destruct (replace_all t m (batch t)).
Qed.
End effects.

(** ** Nothing that was admitted is lost, invented or reordered *)

Section content.
Context `{N : Normalizer}.

(** What is published, and what is about to be. *)
Definition item_of (p : Publication) : ManagedAttemptBatchItem :=
  {| body := match p with to_stream e => event_item e | to_callback m e => assistant_item m e end; bytes := None |}.
Definition shown (t : Transaction) : list Publication := published t ++ pending (batch t).

Definition superseded (p : Publication) : bool := isSupersededStreamingDelta (item_of p).
Definition late (p : Publication) : bool := isTerminalItem (item_of p).
Definition lasting (p : Publication) : bool := negb (superseded p).
Definition ordered (p : Publication) : bool := negb (superseded p) && negb (late p).

Definition on_time (p : Publication) : bool := negb (late p).
Definition is_event (p : Publication) : bool := match p with to_stream _ => true | _ => false end.
Definition late_of (stream : bool) (p : Publication) : bool := late p && Bool.eqb (is_event p) stream.

(** [l'] is [l] with superseded increments missing and late ones moved: whatever is not late keeps its order, increments
    among the others, and so do the late events of the stream and the late callbacks. *)
Definition keeps_content (l l' : list Publication) : Prop :=
  List.filter on_time l' `sublist_of` List.filter on_time l
  /\ List.filter ordered l' = List.filter ordered l
  /\ forall stream, List.filter (late_of stream) l' = List.filter (late_of stream) l.

#[export] Instance keeps_content_preorder : PreOrder keeps_content.
Proof.
  split.
  - intros l. by split; [|split].
  - intros l1 l2 l3 (H1 & H2 & H3) (K1 & K2 & K3). split; [by transitivity (List.filter on_time l2)|].
    split; [congruence|]. intros stream. by rewrite K3.
Qed.

Lemma keeps_content_join a a' b b' : keeps_content a a' -> keeps_content b b' -> keeps_content (a ++ b) (a' ++ b').
Proof.
  intros (H1 & H2 & H3) (K1 & K2 & K3). unfold keeps_content. rewrite !List.filter_app, H2, K2.
  split; [by apply sublist_app|]. split; [done|]. intros stream. by rewrite !List.filter_app, H3, K3.
Qed.
Lemma keeps_content_app l l' k : keeps_content l l' -> keeps_content (l ++ k) (l' ++ k).
Proof. intros H. by apply keeps_content_join. Qed.
Lemma keeps_content_prefix l l' k : keeps_content l l' -> keeps_content (k ++ l) (k ++ l').
Proof. intros H. by apply keeps_content_join. Qed.

Lemma filter_none {A} (f : A -> bool) l : (forall x, x ∈ l -> f x = false) -> List.filter f l = [].
Proof.
  induction l as [|x l IH]; intros Hl; [done|]. cbn [List.filter]. rewrite (Hl x) by apply list_elem_of_here.
  apply IH. intros y Hy. apply Hl. by apply list_elem_of_further.
Qed.
Lemma filter_twice {A} (f g : A -> bool) l : (forall x, f x = true -> g x = true) -> List.filter f (List.filter g l) = List.filter f l.
Proof.
  intros Hfg. induction l as [|x l IH]; [done|]. cbn [List.filter]. destruct (g x) eqn:Hg; cbn [List.filter]; rewrite IH; [done|].
  destruct (f x) eqn:Hf; [|done]. apply Hfg in Hf. congruence.
Qed.
Lemma filter_apart {A} (f g : A -> bool) l : (forall x, f x = true -> g x = false) -> List.filter f (List.filter g l) = [].
Proof.
  intros Hfg. apply filter_none. intros x Hx. destruct (f x) eqn:Hf; [|done]. apply Hfg in Hf.
  apply list_elem_of_In, List.filter_In in Hx as [_ Hx]. congruence.
Qed.

(** Those that [f] moves behind the others are moved with all of their kind [g], or none of it. *)
Lemma filter_moved {A} (f g : A -> bool) l :
  (forall x, g x = true -> f x = true) \/ (forall x, g x = true -> f x = false) ->
  List.filter g (List.filter (fun x => negb (f x)) l ++ List.filter f l) = List.filter g l.
Proof.
  intros [Hg|Hg]; rewrite List.filter_app.
  - rewrite filter_apart, filter_twice; [done | done |]. intros x Hx. by rewrite (Hg x Hx).
  - rewrite (filter_twice g (fun x => negb (f x))), filter_apart, app_nil_r; [done | done |]. intros x Hx. by rewrite (Hg x Hx).
Qed.

Lemma on_time_not_late p : on_time p = true -> late p = false.
Proof. unfold on_time. by destruct (late p). Qed.
Lemma ordered_on_time p : ordered p = true -> late p = false.
Proof. unfold ordered. intros [_ H]%andb_true_iff. by apply on_time_not_late. Qed.

Lemma keeps_content_partition (f : Publication -> bool) l :
  (forall p, late p = false -> f p = false) ->
  (forall stream, (forall p, late_of stream p = true -> f p = true) \/ (forall p, late_of stream p = true -> f p = false)) ->
  keeps_content l (List.filter (fun p => negb (f p)) l ++ List.filter f l).
Proof.
  intros Hf Hl. split; [|split].
  - rewrite filter_moved; [done|]. right. intros p Hp. by apply Hf, on_time_not_late.
  - apply filter_moved. right. intros p Hp. by apply Hf, ordered_on_time.
  - intros stream. by apply filter_moved.
Qed.

(** An increment is not late. *)
Lemma superseded_on_time p : superseded p = true -> late p = false.
Proof.
  unfold superseded, late, isSupersededStreamingDelta, isTerminalItem, superseded_type, terminal_event, is_type.
  destruct p as [e|m e]; cbn [item_of body]; destruct (type_of e); try done.
  - rewrite andb_true_iff. intros [H _]. by apply bool_decide_eq_true in H as ->.
  - rewrite !orb_true_iff. by intros [[[H|H]|H]|H]; apply bool_decide_eq_true in H as ->.
Qed.

Lemma sublist_filter_weaken {A} (f g : A -> bool) l :
  (forall x, f x = true -> g x = true) -> List.filter f l `sublist_of` List.filter g l.
Proof.
  intros Hfg. induction l as [|x l IH]; [done|]. cbn [List.filter]. destruct (f x) eqn:Hf.
  - rewrite (Hfg x Hf). by apply sublist_skip.
  - destruct (g x); [by apply sublist_cons | done].
Qed.

Lemma keeps_content_compact l : keeps_content l (List.filter lasting l).
Proof.
  split; [|split].
  - induction l as [|p l IH]; [done|]. cbn [List.filter]. destruct (lasting p); cbn [List.filter]; destruct (on_time p); try done.
    + by apply sublist_skip.
    + by apply sublist_cons.
  - apply filter_twice. by intros p [? _]%andb_true_iff.
  - intros stream. apply filter_twice. intros p [Hp _]%andb_true_iff. unfold lasting.
    destruct (superseded p) eqn:Hs; [|done]. apply superseded_on_time in Hs. congruence.
Qed.

Lemma pending_filter f g b :
  (forall i, f i = g (publication (body i))) -> pending (List.filter f b) = List.filter g (pending b).
Proof. intros Hfg. unfold pending. induction b as [|i b IH]; [done|]. cbn [List.filter map]. rewrite Hfg. destruct (g _); cbn [map]; by rewrite IH. Qed.

Lemma superseded_item i : isSupersededStreamingDelta i = superseded (publication (body i)).
Proof. destruct i as [[e|m e] n]; done. Qed.
Lemma late_item i : isTerminalItem i = late (publication (body i)).
Proof. destruct i as [[e|m e] n]; done. Qed.

Definition held_back (p : Publication) : bool := held (item_of p).
Lemma held_item i : held i = held_back (publication (body i)).
Proof. destruct i as [[e|m e] n]; done. Qed.
Lemma held_is_late p : held_back p = late_of true p.
Proof. destruct p as [e|m e]; unfold late_of; cbn [is_event Bool.eqb]; [by rewrite andb_true_r | by rewrite andb_false_r]. Qed.

Lemma late_of_late stream p : late_of stream p = true -> late p = true.
Proof. by intros [? _]%andb_true_iff. Qed.

Definition late_stream (p : Publication) : Prop := late_of true p = true.
Lemma late_stream_filter f l : (forall p, late_stream p -> f p = false) -> Forall late_stream l -> List.filter f l = [].
Proof. intros Hf Hl. rewrite Forall_forall in Hl. apply filter_none. intros p Hp. by apply Hf, Hl. Qed.

Lemma keeps_content_swap l p : Forall late_stream l -> late_of true p = false -> keeps_content (l ++ [p]) ([p] ++ l).
Proof.
  intros Hl Hp. assert (Hf : forall f, (forall q, late_stream q -> f q = false) -> List.filter f (l ++ [p]) = List.filter f ([p] ++ l)).
  { intros f Hf. by rewrite !List.filter_app, (late_stream_filter f l Hf Hl), app_nil_r. }
  assert (Hlate : forall f : Publication -> bool, (forall q, f q = true -> late q = false) -> forall q, late_stream q -> f q = false).
  { intros f H q Hq%late_of_late. destruct (f q) eqn:Hfq; [|done]. apply H in Hfq. congruence. }
  split; [|split].
  - rewrite Hf; [done|]. apply Hlate, on_time_not_late.
  - symmetry. apply Hf, Hlate, ordered_on_time.
  - intros [|].
    + rewrite !List.filter_app. cbn [List.filter]. by rewrite Hp, app_nil_r.
    + symmetry. apply Hf. unfold late_stream, late_of. intros q [-> Hq]%andb_true_iff. by destruct (is_event q).
Qed.

(** ** A step *)

(** While committed, the batch is what is held back. *)
Definition settled (t : Transaction) : Prop := (committed t = true -> Forall late_event (batch t)) /\ discarded t = false.

Definition admits (t : Transaction) (new : list Publication) (t' : Transaction) : Prop :=
  settled t' /\ keeps_content (shown t ++ new) (shown t').

Lemma admits_trans t1 t2 t3 a b : admits t1 a t2 -> admits t2 b t3 -> admits t1 (a ++ b) t3.
Proof.
  intros [_ H1] [H2 H3]. split; [done|]. etransitivity; [|exact H3]. rewrite app_assoc. by apply keeps_content_app.
Qed.

Lemma pending_late b : Forall late_event b -> Forall late_stream (pending b).
Proof.
  intros Hb. unfold pending. apply Forall_fmap. apply (Forall_impl _ _ _ Hb). intros i Hi. unfold late_event in Hi. cbn.
  unfold late_stream. by rewrite <- held_is_late, <- held_item.
Qed.

Lemma admits_append b size t : settled t -> committed t = false -> admits t [publication b] (append b size t).
Proof.
  intros [_ Hd] Hc. split; [split; [cbn; congruence | done]|]. unfold shown, append. cbn [with_batch published batch].
  unfold pending. rewrite map_app, app_assoc. done.
Qed.

Lemma admits_compact t : settled t -> committed t = false -> admits t [] (compactSupersededFrames t).
Proof.
  intros [_ Hd] Hc. split; [split; [cbn; congruence | done]|]. rewrite app_nil_r. unfold shown. cbn [compactSupersededFrames with_batch published batch].
  apply keeps_content_prefix. rewrite (pending_filter _ lasting) by (intros i; unfold lasting; by rewrite superseded_item).
  apply keeps_content_compact.
Qed.

Lemma admits_flush t : settled t -> admits t [] (flush t) /\ committed (flush t) = true /\ batch (flush t) = [].
Proof.
  intros [_ Hd]. unfold flush. rewrite Hd. split; [|done]. split; [by split; [intros _; constructor|]|].
  unfold shown. cbn. by rewrite !app_nil_r.
Qed.

(** What is published after the commit overtakes what is held back. *)
Lemma admits_publish p t : late_of true p = false -> settled t -> committed t = true -> admits t [p] (publish [p] t).
Proof.
  intros Hp [Hl Hd] Hc. split; [by split|]. unfold shown. cbn [publish published batch]. rewrite <- !app_assoc. apply keeps_content_prefix.
  apply keeps_content_swap; [by apply pending_late, Hl | done].
Qed.

Lemma admits_push_committed e t : settled t -> committed t = true -> admits t [to_stream e] (push_committed e t).
Proof.
  intros Hs Hc. unfold push_committed. destruct (terminal_event e) eqn:He; [|apply admits_publish; [by rewrite <- held_is_late | done..]].
  destruct Hs as [Hl Hd]. split.
  - split; [|done]. intros _. cbn. apply Forall_app. split; [by apply Hl|]. by constructor.
  - unfold shown. cbn [set_batch with_batch published batch]. unfold pending. by rewrite map_app, app_assoc.
Qed.

Lemma admits_flush_and_push e t : settled t -> admits t [to_stream e] (fst (flush_and_push e t)).
Proof.
  intros Hs. destruct (admits_flush t Hs) as ([Hs' Hk] & Hc & _). unfold flush_and_push. rewrite Hc. cbn [fst].
  apply (admits_trans _ (flush t) _ [] _); [by split|]. by apply admits_push_committed.
Qed.

Lemma admits_flush_and_publish p t : late_of true p = false -> settled t -> admits t [p] (publish [p] (flush t)).
Proof.
  intros Hp Hs. destruct (admits_flush t Hs) as ([Hs' Hk] & Hc & _). apply (admits_trans _ (flush t) _ [] _); [by split|].
  by apply admits_publish.
Qed.

Lemma admits_after_compact t a t' :
  settled t -> committed t = false -> (settled (compactSupersededFrames t) -> admits (compactSupersededFrames t) a t') -> admits t a t'.
Proof. intros Hs Hc Ha. pose proof (admits_compact t Hs Hc) as H. apply (admits_trans _ _ _ [] _ H), Ha, H. Qed.

Lemma admits_admit b size t t' : settled t -> committed t = false -> admit_item b size t = (t', Ok tt) -> admits t [publication b] t'.
Proof.
  intros Hs Hc. unfold admit_item. destruct (wouldOverflow size t); [|intros [= <-]; by apply admits_append]. cbv zeta.
  destruct (wouldOverflow size _); [done|]. intros [= <-]. apply admits_after_compact; [done..|]. intros Hs'. by apply admits_append.
Qed.

Lemma keeps_content_late l : keeps_content l (List.filter (fun p => negb (late p)) l ++ List.filter late l).
Proof. apply keeps_content_partition; [done|]. intros stream. left. apply late_of_late. Qed.
Lemma keeps_content_held l : keeps_content l (List.filter (fun p => negb (held_back p)) l ++ List.filter held_back l).
Proof.
  apply keeps_content_partition.
  - intros p Hp. rewrite held_is_late. unfold late_of. by rewrite Hp.
  - intros [|]; [left | right]; intros p; rewrite held_is_late; [done|]. unfold late_of. intros [-> Hq]%andb_true_iff. by destruct (is_event p).
Qed.

Lemma callback_on_time m e : late_of true (to_callback m e) = false.
Proof. unfold late_of. apply andb_false_r. Qed.

(** ** What stands for an event *)

Inductive copy_of (e : value) : value -> Prop :=
| itself : copy_of e e
| lossless_copy t e' : losslessAgentEventSnapshot t e = Ok e' -> copy_of e e'
| managed_copy t r limit : repairAssistantEvent t e = Ok r -> copy_of e (dt_snapshot (managedAttemptSnapshotDetailed r limit)).

Definition stands_for (op : Op) (new : list Publication) : Prop :=
  match op with
  | op_push e => exists e', copy_of e e' /\ new = [to_stream e']
  | op_callback m e => exists t m' e', paired t m e = Ok (m', e') /\ new = [to_callback m' e']
  | _ => new = []
  end.

(** [op] succeeded, and something that stands for it was admitted. *)
Definition admitted (op : Op) (t t' : Transaction) : Prop := exists new, stands_for op new /\ admits t new t'.

Lemma admitted_snapshot e t t' : settled t -> committed t = false -> stage_snapshot e t = (t', Ok tt) -> admitted (op_push e) t t'.
Proof.
  intros Hs Hc. unfold stage_snapshot. destruct (repairAssistantEvent t e) as [r|] eqn:Hr; [|done]. cbv zeta.
  destruct (jsonBytes _); [|done]. intros H. eexists [_]. split; [by eexists; split; [eapply managed_copy|]|].
  by apply (admits_admit _ _ t t' Hs Hc) in H.
Qed.

Lemma admitted_after_compact op t t' :
  settled t -> committed t = false -> (settled (compactSupersededFrames t) -> admitted op (compactSupersededFrames t) t') -> admitted op t t'.
Proof.
  intros Hs Hc Ha. destruct (Ha (proj1 (admits_compact t Hs Hc))) as (new & Hn & Hk). exists new. split; [done|].
  by apply admits_after_compact.
Qed.

Lemma admitted_flush_and_push e e' t t' : settled t -> copy_of e e' -> flush_and_push e' t = (t', Ok tt) -> admitted (op_push e) t t'.
Proof. intros Hs He H. exists [to_stream e']. split; [by exists e'|]. pose proof (admits_flush_and_push e' t Hs) as Ha. by rewrite H in Ha. Qed.

Lemma admitted_lossless e t t' : settled t -> committed t = false -> stage_lossless e t = (t', Ok tt) -> admitted (op_push e) t t'.
Proof.
  intros Hs Hc. unfold stage_lossless. pose proof (admitted_flush_and_push e e t t' Hs (itself e)) as Hf.
  destruct (is_over _); [done|]. destruct (match managedSnapshotJsonByteLength e with Some _ => _ | _ => _ end); [done|].
  destruct (is_surface_over _); [done|]. destruct (losslessAgentEventSnapshot t e) as [d|] eqn:Hd; [|done].
  destruct (managedSnapshotJsonByteLength d) as [n|]; [|done]. destruct (wouldOverflow n t).
  - apply admitted_flush_and_push; [done|]. by eapply lossless_copy.
  - intros [= <-]. exists [to_stream d]. split; [exists d; split; [by eapply lossless_copy | done]|]. by apply (admits_append (event_item d)).
Qed.

Lemma admitted_push e t t' : settled t -> push e t = (t', Ok tt) -> admitted (op_push e) t t'.
Proof.
  intros Hs. unfold push. destruct (committed t) eqn:Hc.
  - intros [= <-]. exists [to_stream e]. split; [exists e; split; [apply itself | done]|]. by apply admits_push_committed.
  - destruct (snapshotMode t); [|by apply admitted_lossless]. unfold stage_managed.
    destruct (preflightOver e t); [|by apply admitted_snapshot]. cbv zeta. destruct (preflightOver e _); [done|].
    intros H. apply admitted_after_compact; [done..|]. intros Hs'. by apply admitted_snapshot.
Qed.

Lemma admitted_call_back m e t t' : settled t -> committed t = true -> call_back m e t = (t', Ok tt) -> admitted (op_callback m e) t t'.
Proof.
  intros Hs Hc. unfold call_back. destruct (paired t m e) as [[p e']|] eqn:Hp; [|done]. intros [= <-].
  exists [to_callback p e']. split; [by exists t, p, e' | apply admits_publish; [apply callback_on_time | done..]].
Qed.

Lemma admitted_pair m e t t' : settled t -> committed t = false -> stage_pair m e t = (t', Ok tt) -> admitted (op_callback m e) t t'.
Proof.
  intros Hs Hc. unfold stage_pair. destruct (paired t m e) as [[p e']|] eqn:Hp; [|done]. cbv zeta. intros H.
  exists [to_callback p e']. split; [by exists t, p, e'|].
  destruct (managedSnapshotJsonByteLength _) as [n|], (snapshotMode t); try discriminate H.
  - by apply (admits_admit (assistant_item p e') _ t t' Hs Hc) in H.
  - destruct (wouldOverflow n t); [|injection H as <-; by apply (admits_append (assistant_item p e'))].
    apply admits_after_compact; [done..|]. intros Hs'. destruct (wouldOverflow n _); injection H as <-.
    + apply admits_flush_and_publish; [apply callback_on_time | done..].
    + by apply (admits_append (assistant_item p e')).
  - injection H as <-. apply admits_flush_and_publish; [apply callback_on_time | done..].
Qed.

Lemma admitted_callback m e t t' : settled t -> stageAssistantMessageEvent m e t = (t', Ok tt) -> admitted (op_callback m e) t t'.
Proof.
  intros Hs. unfold stageAssistantMessageEvent. destruct (committed t) eqn:Hc; [by apply admitted_call_back|].
  destruct (is_over _); [|by apply admitted_pair]. cbv zeta. intros H. apply admitted_after_compact; [done..|]. intros Hs'. revert H.
  destruct (is_over _); [|by apply admitted_pair]. destruct (snapshotMode t); [done|]. intros H.
  destruct (admits_flush _ Hs') as (Hf & Hfc & _). apply admitted_call_back in H; [|apply Hf | done].
  destruct H as (new & Hn & Ha). exists new. split; [done|]. exact (admits_trans _ _ _ [] _ Hf Ha).
Qed.

(** The operations of a history that is accepted as it came. *)
Definition plain_op (op : Op) : bool := match op with op_replace _ | op_discard => false | _ => true end.

Lemma admitted_perform op t t' : plain_op op = true -> settled t -> perform op t = (t', Ok tt) -> admitted op t t'.
Proof.
  intros Hop Hs. destruct op; try discriminate Hop; cbn [perform].
  - by apply admitted_push.
  - by apply admitted_callback.
  - intros [= <-]. exists []. split; [done | by apply admits_flush].
  - intros [= <-]. exists []. split; [done|]. unfold flushNonTerminal. destruct (discarded t || committed t) eqn:Hd; [by split; [|rewrite app_nil_r]|].
    apply orb_false_iff in Hd as [Hd Hc]. split; [split; [cbn; congruence | done]|]. rewrite app_nil_r. unfold shown.
    cbn [set_batch with_batch publish published batch]. rewrite <- app_assoc. apply keeps_content_prefix.
    fold (pending (List.filter (fun i => negb (isTerminalItem i)) (batch t))).
    rewrite (pending_filter isTerminalItem late) by apply late_item.
    rewrite (pending_filter _ (fun p => negb (late p))) by (intros i; by rewrite late_item). by apply keeps_content_late.
  - intros [= <-]. exists []. split; [done|]. unfold commitCallbacksAndUpdates. destruct (discarded t || committed t) eqn:Hd; [by split; [|rewrite app_nil_r]|].
    apply orb_false_iff in Hd as [Hd Hc]. split; [split; [intros _; apply Forall_list_filter_self | done]|]. rewrite app_nil_r. unfold shown.
    cbn [commit set_batch with_batch publish published batch]. rewrite <- app_assoc. apply keeps_content_prefix.
    fold (pending (List.filter (fun i => negb (held i)) (batch t))).
    rewrite (pending_filter held held_back) by apply held_item.
    rewrite (pending_filter _ (fun p => negb (held_back p))) by (intros i; by rewrite held_item). by apply keeps_content_held.
Qed.

(** The transaction after [ops], if each of them succeeds. *)
Fixpoint accept (ops : list Op) (t : Transaction) : option Transaction :=
  match ops with
  | [] => Some t
  | op :: l => match perform op t with (t', Ok _) => accept l t' | (_, Err _) => None end
  end.

End content.
