(* ===== verification/AttemptDemo.v ===== *)
(** * A streamed reply, staged under small caps *)
From S2P Require Import Prelude.
From S2P Require Import Json.
From S2P Require Import Staged.
From S2P Require Import StagedSize.
From S2P Require Import StagedCopies.
From S2P Require Import Attempt.
From S2P Require Import AttemptProofs.
From S2P Require Import AttemptEffects.
#[local] Open Scope Z_scope.
#[local] Open Scope js_scope.

(** A provider whose messages need no repair. *)
#[local] Instance tidy : Normalizer := {
  managedAssistantShell m := Ok m;
  managedAssistantEventSnapshot e m := Ok (with_field (u "partial") m e);
  restoreTransientUnicodeEscapeEvidence snapshot v := snapshot
}.

Definition str (s : string) : slot value := Data (VString (u s)).
Definition obj (fields : list (jstr * slot value)) : value := VObject fields NoMethod.
Definition assistant (text : string) : value :=
  obj [(u "role", str "assistant"); (u "content", Data (VArray [Data (obj [(u "type", str "text"); (u "text", str text)])] [] NoMethod))].
Definition delta (text : string) : value := obj [(u "type", str "text_delta"); (u "delta", str text)].
Definition update (text : string) : value :=
  obj [(u "type", str "message_update"); (u "message", Data (assistant text)); (u "assistantMessageEvent", Data (delta text))].
Definition frame (kind text : string) : value := obj [(u "type", str kind); (u "message", Data (assistant text))].

(** Six frames: three are increments. *)
Definition streaming : list Op :=
  [op_push (frame "message_start" "");
   op_push (update "he"); op_callback (assistant "he") (delta "he");
   op_push (update "hello");
   op_callback (assistant "hello") (obj [(u "type", str "done")]);
   op_push (frame "message_end" "hello")].

(** Four events are room enough, since increments are reclaimed. *)
Example streaming_compacts :
  (fun t => (zlen (batch t), published t)) <$> accept streaming (newTransaction managed 4 2000) = Some (3, []).
Proof. vm_compute. reflexivity. Qed.
Definition streamed : Transaction := default (newTransaction managed 4 2000) (accept streaming (newTransaction managed 4 2000)).
Lemma streaming_accepted : accept streaming (newTransaction managed 4 2000) = Some streamed.
Proof. vm_compute. reflexivity. Qed.
Lemma streaming_plain : forallb plain_op streaming = true.
Proof. vm_compute. reflexivity. Qed.


Lemma four : 0 <= 4.
Proof. lia. Qed.
Lemma two_thousand : 0 <= 2000.
Proof. lia. Qed.

(** The last message is replaced, the callbacks are committed, and another end is held back. *)
Definition held_over : list Op := streaming ++ [op_replace (assistant "goodbye"); op_commitCallbacks; op_push (frame "turn_end" "hello")].
Example held_over_ends :
  (fun t => (committed t, zlen (batch t), zlen (published t))) (history held_over (newTransaction managed 4 2000)) = (true, 2, 2).
Proof. vm_compute. reflexivity. Qed.


Lemma streaming_whole : forallb whole (streaming ++ [op_discard]) = true.
Proof. vm_compute. reflexivity. Qed.
Lemma attempt_is_atomic_witness :
  let t := history (streaming ++ [op_discard]) (newTransaction managed 4 2000) in
  (committed t = false -> published t = [])
  /\ (forall op, committed t = false -> whole op = true -> committed (fst (perform op t)) = true ->
      discarded t = false /\ (op = op_flush \/ op = op_commitCallbacks))
  /\ (committed t = false -> discarded t = false ->
      let t' := flush t in
      committed t' = true /\ published t' = pending (batch t) /\ batch t' = [])
  /\ (committed t = false -> discarded t = false ->
      let t' := commitCallbacksAndUpdates t in
      committed t' = true /\ published t' = pending (List.filter (fun i => negb (held i)) (batch t))
      /\ published (flush t') = published t' ++ pending (List.filter held (batch t)))
  /\ (committed t = false -> discarded t = true ->
      published (history (streaming ++ [op_flush]) t) = [] /\ committed (history (streaming ++ [op_flush]) t) = false)
  /\ (forall op t' o, perform op t = (t', Err (buffer_overflow o)) -> discarded t' = true /\ committed t' = false).
Proof. exact (attempt_is_atomic 4 2000 (streaming ++ [op_discard]) (streaming ++ [op_flush]) streaming_whole). Defined.

(** A callback that does not fit: 93 of 400 bytes are staged, and 401 are said to come. *)
Definition shout : string := "a text that is longer than what is left of the four hundred bytes in which the attempt has to stay, so that the pair cannot be staged whatever is reclaimed".
Definition half : list Op := [op_push (frame "message_start" "")].
Lemma half_kept : discarded (history half (newTransaction managed 4 400)) = false.
Proof. vm_compute. reflexivity. Qed.
Lemma four_hundred : 0 <= 400.
Proof. lia. Qed.
Example shouting_fails :
  match perform (op_callback (assistant shout) (delta shout)) (history half (newTransaction managed 4 400)) with
  | (_, Err (buffer_overflow o)) => (ov_bytes o, incomingEventBytes o)
  | _ => (0, 0)
  end = (93, 401).
Proof. vm_compute. reflexivity. Qed.

Definition shouting : Op := op_callback (assistant shout) (delta shout).
Definition shouted : Transaction * result AttemptError unit := perform shouting (history half (newTransaction managed 4 400)).
Definition complaint : Overflow :=
  match snd shouted with
  | Err (buffer_overflow o) => o
  | _ => {| stage := []; exceeded := by_events; ov_events := 0; ov_bytes := 0; incomingEventBytes := 0; ov_maxEvents := 0; ov_maxBytes := 0 |}
  end.
Lemma shouting_overflows :
  perform shouting (history half (newTransaction managed 4 400)) = (fst shouted, Err (buffer_overflow complaint)).
Proof. vm_compute. reflexivity. Qed.

Lemma overflow_is_explained_witness :
  let t := history half (newTransaction managed 4 400) in
  explains (compactSupersededFrames t) complaint /\ reports t shouting complaint.
Proof. exact (overflow_is_explained managed 4 400 half shouting (fst shouted) complaint four four_hundred half_kept shouting_overflows). Defined.

(** At a cap the callback path drops the increments of an ordinary session; the [push] path publishes them. *)
Definition ordinary (last : Op) : option (list Publication * list Publication) :=
  (fun t => (published t, pending (batch t))) <$> accept [op_push (update "he"); op_push (update "hello"); last] (newTransaction lossless 2 2000).
Example callback_drops_increments :
  (fun r => (length (fst r), length (snd r))) <$> ordinary (op_callback (assistant "hello") (obj [(u "type", str "done")])) = Some (0%nat, 1%nat).
Proof. vm_compute. reflexivity. Qed.
Example push_publishes_increments :
  (fun r => (length (fst r), length (snd r))) <$> ordinary (op_push (update "hello!")) = Some (3%nat, 0%nat).
Proof. vm_compute. reflexivity. Qed.

(** A symbol is charged although it is not printed: [{}] has two bytes. *)
Example symbol_is_charged :
  managedSnapshotJsonByteLength (VObject [(u "s", Data VSymbol)] NoMethod) = Some 6
  /\ (fun j => byte_length (stringify j)) <$> json_text (VObject [(u "s", Data VSymbol)] NoMethod) = Some 2.
Proof. split; vm_compute; reflexivity. Qed.

(** A value with an escape, a character of three bytes and a pair of surrogates. *)
Definition mixed : value :=
  VObject [(u "text", Data (VString [34; 8364; 55357; 56832])); (u "none", Data VUndefined); (u "list", Data (VArray [Data (VNumber 7); Hole] [] NoMethod))] NoMethod.
Lemma mixed_well_formed : well_formed mixed = true.
Proof. vm_compute. reflexivity. Qed.
Example mixed_size : managedSnapshotJsonByteLength mixed = Some 36.
Proof. vm_compute. reflexivity. Qed.
Lemma size_is_exact_witness :
  match json_text mixed with
  | None => forall n, managedJsonByteLengthWithin mixed (Some 400) <> Seen n
  | Some j => is_undefined j = true \/
      managedJsonByteLengthWithin mixed (Some 400) =
        (if byte_length (stringify j) <=? 400 then Seen (byte_length (stringify j)) else Staged.Exceeded)
      /\ managedSnapshotJsonByteLength mixed = Some (byte_length (stringify j))
  end.
Proof. exact (size_is_exact mixed 400 mixed_well_formed four_hundred). Defined.

Definition hostile_value : value := VObject [(u "self", Data VBack); (u "get", Getter None); (u "f", Data VFunction)] NoMethod.
Lemma sanitizer_is_total_witness :
  clean (sanitizedDetachedClone hostile_value 4) = true /\ nodes (sanitizedDetachedClone hostile_value 4) <= 1 + 4
  /\ is_Some (managedSnapshotJsonByteLength (sanitizedDetachedClone hostile_value 4)).
Proof. exact (sanitizer_is_total hostile_value 4 four). Defined.

Lemma events_ceiling : 0 < MANAGED_ATTEMPT_STAGED_EVENTS_CEILING < MAX_SAFE_INTEGER.
Proof. split; vm_compute; reflexivity. Qed.
(** A setting of twenty digits is clamped. *)
Lemma caps_clamp_witness :
  let requested := match trim <$> Some (u "00099999999999999999") with
                   | Some raw => if all_digits raw && (0 <? parse_dec raw) then Some (parse_dec raw) else None
                   | None => None
                   end in
  fst (clampedStagedCap (Some (u "00099999999999999999")) MANAGED_ATTEMPT_MAX_STAGED_EVENTS MANAGED_ATTEMPT_STAGED_EVENTS_CEILING)
    = match requested with Some n => Z.min n MANAGED_ATTEMPT_STAGED_EVENTS_CEILING | None => MANAGED_ATTEMPT_MAX_STAGED_EVENTS end
  /\ (is_Some (snd (clampedStagedCap (Some (u "00099999999999999999")) MANAGED_ATTEMPT_MAX_STAGED_EVENTS MANAGED_ATTEMPT_STAGED_EVENTS_CEILING))
      <-> exists n, requested = Some n /\ MANAGED_ATTEMPT_STAGED_EVENTS_CEILING < n).
Proof.
  exact (caps_clamp (Some (u "00099999999999999999")) MANAGED_ATTEMPT_MAX_STAGED_EVENTS MANAGED_ATTEMPT_STAGED_EVENTS_CEILING events_ceiling).
Defined.
