(* ===== verification/AgentLoop.v ===== *)
(** * The agent loop: [runLoopBody] and [streamAssistantResponse] of packages/agent/src/agent-loop.ts

    Turns of requests, tools and user input.  The host that owns queues, providers and tools is a class; its answers
    move its state.  A message has an identity, since the loop changes messages in place and looks them up.
    What the loop does is a log of actions. *)
From S2P Require Import Prelude.
#[local] Open Scope Z_scope.
#[local] Open Scope js_scope.

(** ** Messages *)

Inductive StopReason := stop | length_limit | toolUse | error | aborted.
#[export] Instance StopReason_eq : EqDecision StopReason.
Proof. solve_decision. Defined.

(** A call that the provider has resolved ([isCursorExecResolved]) is not executed; [escaped] is the mark of the parser,
    [evidence] the raw text that is kept for a while. *)
Record ToolCall := { call_id : jstr; call_name : jstr; resolved : bool; escaped : bool; evidence : bool }.
Inductive Block := text_block (t : jstr) | tool_block (c : ToolCall).
Record Assistant := { content : list Block; stopReason : StopReason; errorMessage : option jstr }.
Record ToolResult := { result_of : jstr; result_name : jstr; isError : bool; result_text : jstr }.

(** What is not of the assistant or a tool, is the user's. *)
Inductive Body := user_message (t : jstr) | assistant_message (a : Assistant) | tool_result (r : ToolResult).
Record Message := { mid : nat; mbody : Body }.

Definition set_content (c : list Block) (a : Assistant) : Assistant :=
  {| content := c; stopReason := stopReason a; errorMessage := errorMessage a |}.
Definition set_stop (r : StopReason) (a : Assistant) : Assistant :=
  {| content := content a; stopReason := r; errorMessage := errorMessage a |}.
(** An error with a text that is appended to the one there is. *)
Definition fail_message (t : jstr) (a : Assistant) : Assistant :=
  {| content := content a; stopReason := error;
     errorMessage := Some (match errorMessage a with
                           | Some (_ :: _ as m) => m ++ u " | " ++ t
                           | _ => t
                           end) |}.

Definition hasEscapedNonAsciiToolCall (a : Assistant) : bool :=
  existsb (fun b => match b with tool_block c => escaped c || evidence c | text_block _ => false end) (content a).
Definition strip_block (b : Block) : Block :=
  match b with
  | tool_block c => tool_block {| call_id := call_id c; call_name := call_name c; resolved := resolved c; escaped := escaped c; evidence := false |}
  | text_block _ => b
  end.
Definition stripUnicodeEscapeEvidence (a : Assistant) : Assistant := set_content (map strip_block (content a)) a.

(** The calls that the loop has to answer. *)
Definition open_calls (a : Assistant) : list ToolCall :=
  omap (fun b => match b with tool_block c => if resolved c then None else Some c | text_block _ => None end) (content a).

Definition ended_badly (a : Assistant) : bool := bool_decide (stopReason a = error) || bool_decide (stopReason a = aborted).

(** ** What the provider does *)

Inductive ProviderEvent :=
| pe_start (partial : Assistant)
| pe_update (partial : Assistant) (shows_text interrupted : bool)
| pe_incapability
| pe_final (m : Assistant).

(** What a thrown error is to the policy of managed attempts: [managedContextOverflow] and [managedRetryableFailure]. *)
Record Failure := { overflows : bool; retryable : bool }.

(** How the iterator ends if no final event comes: it is done, the signal aborts, or something throws. *)
Inductive Ending := runs_out (m : Assistant) | cut_off | throws (f : Failure).
(** [flushed]: a cap made the transaction publish meanwhile. *)
Record Script := { provider_events : list ProviderEvent; ending : Ending; flushed : bool }.

(** ** The log *)

Inductive EndReason := completed | paused | maintenance.
Inductive Outcome := retryable_discarded | context_overflow_discarded | escaped_arguments_discarded (steeringPending : bool) | cancelled.

Inductive RecoveryKind := malformed_tool_call | composer_bash_policy | provider_recovery | escaped_nonascii.
#[export] Instance RecoveryKind_eq : EqDecision RecoveryKind.
Proof. solve_decision. Defined.
Record Recovery := { kind : RecoveryKind; inserted : bool; syntheticMessage : option jstr }.

Inductive ToolMode := tools_none | tools_auto | tools_choice (c : option jstr).

Inductive Action :=
| a_turn_start
| a_user (m : Message)
| a_release
| a_request (context : list Message) (synthetic : option jstr) (tools : ToolMode)
| a_flush
| a_discard
| a_outcome (o : Outcome)
| a_accepted
| a_tools (m : Message)
| a_placeholder (call : jstr)
| a_turn_end (m : Message) (results : list ToolResult)
| a_requeue (ms : list jstr)
| a_agent_end (r : EndReason)
| a_end (messages : list Message).

Inductive MaintenanceOutcome := not_needed | maintained | maintenance_aborted.
#[export] Instance MaintenanceOutcome_eq : EqDecision MaintenanceOutcome.
Proof. solve_decision. Defined.

Record Batch := { toolResults : list ToolResult; steeringMessages : list jstr; malformedToolCallSignatures : list jstr }.

(** ** The host *)

Class Host (H : Type) := {
  fallbackManaged : bool;
  transientRecoveryMessage : option jstr;
  signal_aborted : H -> bool;
  getSteeringMessages : H -> list jstr * H;
  requeueSteeringMessages : list jstr -> H -> H;
  getFollowUpMessages : H -> list jstr * H;
  getSyntheticRecoveryMessage : H -> option jstr * H;
  shouldPause : H -> bool * H;
  onBeforeYield : H -> H;
  (** [None]: not configured *)
  maintainContext : option (list Message -> H -> MaintenanceOutcome * bool * H);
  syncContextBeforeModelCall : H -> H;
  getToolChoice : H -> option jstr * H;
  respond : list Message -> option jstr -> ToolMode -> H -> Script * H;
  waitForConsumerDrain : H -> H;
  onManagedAttemptOutcome : Outcome -> H -> H;
  onManagedAttemptAccepted : H -> H;
  executeToolCalls : list Message -> Assistant -> H -> Batch * H;

  (** The texts of the instructions that are sent but not kept. *)
  recoveryPrompt : RecoveryKind -> jstr;
  finalMessage : Assistant -> Assistant;
  managedShell : Assistant -> Assistant;
  acceptedSnapshot : Assistant -> Assistant;
  (** A leak that has to be mitigated, and what could be recovered. *)
  detectHarmonyLeak : Assistant -> option (option Assistant);
  isInvalidPromptError : Assistant -> bool;
  isReasoningContentReplayError : Assistant -> bool;
  neutralize : Body -> Body * bool;
  stripReasoning : Body -> Body * bool;
  classifyContextOverflow : Assistant -> bool;
  managedRetryableFailure : Assistant -> bool;
  isComposerBashPolicyBlockedToolResult : ToolResult -> bool
}.

Definition MAX_CONSECUTIVE_MALFORMED_TURNS : Z := 5.
Definition MAX_ESCAPED_NONASCII_RESAMPLES : Z := 2.

(** *** The state of a run *)

(** The durable context and what this run has added. *)
Record Talk := mkTalk { nextId : nat; context : list Message; newMessages : list Message }.

Record Retries := mkRetries {
  harmonyRetryAttempt : Z;
  harmonyTruncateResumeCount : Z;
  invalidPromptRepairAttempted : bool;
  reasoningContentRepairAttempted : bool;
  escapedNonAsciiResampleAttempt : Z;
  (** [None]: not captured for this logical turn *)
  escapedNonAsciiToolChoice : option (option jstr)
}.

Record Recoveries := mkRecoveries {
  previousMalformedToolSignatures : list jstr;
  pendingRecovery : option Recovery;
  malformedToolRecoveryAttempted : bool;
  composerBashPolicyRecoveryAttempted : bool;
  consecutiveMalformedTurns : Z
}.

Record Loop (H : Type) := mkLoop {
  host : H;
  talk : Talk;
  firstTurn : bool;
  hasMoreToolCalls : bool;
  pendingMessages : list jstr;
  modelHasResponded : bool;
  retries : Retries;
  recoveries : Recoveries;
  log : list Action
}.
Arguments mkLoop {H}. Arguments host {H} _. Arguments talk {H} _. Arguments firstTurn {H} _. Arguments hasMoreToolCalls {H} _.
Arguments pendingMessages {H} _. Arguments modelHasResponded {H} _. Arguments retries {H} _. Arguments recoveries {H} _.
Arguments log {H} _.

Definition set_harmony (n : Z) (r : Retries) : Retries :=
  mkRetries n (harmonyTruncateResumeCount r) (invalidPromptRepairAttempted r) (reasoningContentRepairAttempted r)
    (escapedNonAsciiResampleAttempt r) (escapedNonAsciiToolChoice r).
Definition set_truncations (n : Z) (r : Retries) : Retries :=
  mkRetries (harmonyRetryAttempt r) n (invalidPromptRepairAttempted r) (reasoningContentRepairAttempted r)
    (escapedNonAsciiResampleAttempt r) (escapedNonAsciiToolChoice r).
Definition set_invalid_prompt (r : Retries) : Retries :=
  mkRetries (harmonyRetryAttempt r) (harmonyTruncateResumeCount r) true (reasoningContentRepairAttempted r)
    (escapedNonAsciiResampleAttempt r) (escapedNonAsciiToolChoice r).
Definition set_reasoning (r : Retries) : Retries :=
  mkRetries (harmonyRetryAttempt r) (harmonyTruncateResumeCount r) (invalidPromptRepairAttempted r) true
    (escapedNonAsciiResampleAttempt r) (escapedNonAsciiToolChoice r).
Definition set_resamples (n : Z) (r : Retries) : Retries :=
  mkRetries (harmonyRetryAttempt r) (harmonyTruncateResumeCount r) (invalidPromptRepairAttempted r)
    (reasoningContentRepairAttempted r) n (escapedNonAsciiToolChoice r).
Definition set_choice (c : option (option jstr)) (r : Retries) : Retries :=
  mkRetries (harmonyRetryAttempt r) (harmonyTruncateResumeCount r) (invalidPromptRepairAttempted r)
    (reasoningContentRepairAttempted r) (escapedNonAsciiResampleAttempt r) c.

Definition set_recovery (p : option Recovery) (r : Recoveries) : Recoveries :=
  mkRecoveries (previousMalformedToolSignatures r) p (malformedToolRecoveryAttempted r)
    (composerBashPolicyRecoveryAttempted r) (consecutiveMalformedTurns r).
Definition set_malformed (signatures : list jstr) (n : Z) (r : Recoveries) : Recoveries :=
  mkRecoveries signatures (pendingRecovery r) (malformedToolRecoveryAttempted r) (composerBashPolicyRecoveryAttempted r) n.
Definition set_malformed_attempted (r : Recoveries) : Recoveries :=
  mkRecoveries (previousMalformedToolSignatures r) (pendingRecovery r) true (composerBashPolicyRecoveryAttempted r)
    (consecutiveMalformedTurns r).
Definition set_composer_attempted (r : Recoveries) : Recoveries :=
  mkRecoveries (previousMalformedToolSignatures r) (pendingRecovery r) (malformedToolRecoveryAttempted r) true
    (consecutiveMalformedTurns r).

(** How an iteration goes on: [continue], [break], [return], or an error that ends the stream. *)
Inductive Exit := again | leave | finished | thrown.

Section loop.
Context {H : Type} `{!Host H}.

Abbreviation M := (SM (Loop H) Exit).

Definition on_host (f : H -> H) : M unit := fun l =>
  (mkLoop (f (host l)) (talk l) (firstTurn l) (hasMoreToolCalls l) (pendingMessages l) (modelHasResponded l) (retries l)
     (recoveries l) (log l), Ok tt).
Definition ask {A} (f : H -> A * H) : M A := fun l =>
  let '(a, h) := f (host l) in
  (mkLoop h (talk l) (firstTurn l) (hasMoreToolCalls l) (pendingMessages l) (modelHasResponded l) (retries l)
     (recoveries l) (log l), Ok a).
Definition on_talk (f : Talk -> Talk) : M unit := fun l =>
  (mkLoop (host l) (f (talk l)) (firstTurn l) (hasMoreToolCalls l) (pendingMessages l) (modelHasResponded l) (retries l)
     (recoveries l) (log l), Ok tt).
Definition on_retries (f : Retries -> Retries) : M unit := fun l =>
  (mkLoop (host l) (talk l) (firstTurn l) (hasMoreToolCalls l) (pendingMessages l) (modelHasResponded l) (f (retries l))
     (recoveries l) (log l), Ok tt).
Definition on_recoveries (f : Recoveries -> Recoveries) : M unit := fun l =>
  (mkLoop (host l) (talk l) (firstTurn l) (hasMoreToolCalls l) (pendingMessages l) (modelHasResponded l) (retries l)
     (f (recoveries l)) (log l), Ok tt).
Definition set_first : M unit := fun l =>
  (mkLoop (host l) (talk l) false (hasMoreToolCalls l) (pendingMessages l) (modelHasResponded l) (retries l)
     (recoveries l) (log l), Ok tt).
Definition set_more (b : bool) : M unit := fun l =>
  (mkLoop (host l) (talk l) (firstTurn l) b (pendingMessages l) (modelHasResponded l) (retries l) (recoveries l) (log l), Ok tt).
Definition set_pending (ms : list jstr) : M unit := fun l =>
  (mkLoop (host l) (talk l) (firstTurn l) (hasMoreToolCalls l) ms (modelHasResponded l) (retries l) (recoveries l) (log l), Ok tt).
Definition set_responded : M unit := fun l =>
  (mkLoop (host l) (talk l) (firstTurn l) (hasMoreToolCalls l) (pendingMessages l) true (retries l) (recoveries l) (log l), Ok tt).
Definition note (a : Action) : M unit := fun l =>
  (mkLoop (host l) (talk l) (firstTurn l) (hasMoreToolCalls l) (pendingMessages l) (modelHasResponded l) (retries l)
     (recoveries l) (log l ++ [a]), Ok tt).

Definition is_aborted : M bool := fun l => (l, Ok (signal_aborted (host l))).

(** ** Messages of the run *)

Definition push_context (m : Message) (t : Talk) : Talk := mkTalk (nextId t) (context t ++ [m]) (newMessages t).
Definition push_new (m : Message) (t : Talk) : Talk := mkTalk (nextId t) (context t) (newMessages t ++ [m]).
Definition push_both (m : Message) (t : Talk) : Talk := push_new m (push_context m t).
Definition set_context (c : list Message) (t : Talk) : Talk := mkTalk (nextId t) c (newMessages t).
(** [messages.splice(count)] of both lists. *)
Definition truncate (contextCount newCount : nat) (t : Talk) : Talk :=
  mkTalk (nextId t) (take contextCount (context t)) (take newCount (newMessages t)).

Definition set_last (m : Message) (l : list Message) : list Message := removelast l ++ [m].
Definition ends_with_assistant (l : list Message) : bool :=
  match List.last (map mbody l) (user_message []) with assistant_message _ => true | _ => false end.
(** At [lastIndexOf] the message. *)
Fixpoint replace_last_index (id : nat) (by_ : list Message) (l : list Message) : list Message :=
  match l with
  | [] => []
  | m :: l' =>
      if bool_decide (mid m = id) && negb (existsb (fun x => bool_decide (mid x = id)) l') then by_ ++ l'
      else m :: replace_last_index id by_ l'
  end.
Definition removeCommittedAssistantMessage (m : Message) (t : Talk) : Talk :=
  set_context (replace_last_index (mid m) [] (context t)) t.

(** A change of the message, wherever it is listed. *)
Definition change (id : nat) (f : Body -> Body) (m : Message) : Message :=
  if bool_decide (mid m = id) then {| mid := mid m; mbody := f (mbody m) |} else m.
Definition mutate (id : nat) (f : Body -> Body) (t : Talk) : Talk :=
  mkTalk (nextId t) (map (change id f) (context t)) (map (change id f) (newMessages t)).
Definition on_assistant (f : Assistant -> Assistant) (b : Body) : Body :=
  match b with assistant_message a => assistant_message (f a) | _ => b end.

(** A new object. *)
Definition make (b : Body) : M Message := fun l =>
  let t := talk l in
  (mkLoop (host l) (mkTalk (S (nextId t)) (context t) (newMessages t)) (firstTurn l) (hasMoreToolCalls l) (pendingMessages l)
     (modelHasResponded l) (retries l) (recoveries l) (log l), Ok {| mid := nextId t; mbody := b |}).

Definition each {A} (f : A -> M unit) : list A -> M unit :=
  fix go (l : list A) : M unit := match l with [] => mret tt | x :: l' => f x ≫= fun _ => go l' end.

(** An assistant message and its identity. *)
Definition Reply : Type := nat * Assistant.
Definition message_of (r : Reply) : Message := {| mid := fst r; mbody := assistant_message (snd r) |}.
Definition amend (r : Reply) (f : Assistant -> Assistant) : M Reply :=
  _ ← on_talk (mutate (fst r) (on_assistant f));
  mret (fst r, f (snd r)).

(** ** The end of a run *)

(** [stream.end(newMessages); return] *)
Definition end_run {A} : M A :=
  l ← get_state;
  _ ← note (a_end (newMessages (talk l)));
  throw finished.
Definition end_agent {A} (r : EndReason) : M A := _ ← note (a_agent_end r); end_run.

(** A managed attempt that is given up. *)
Definition report {A} (contextCount newCount : nat) (o : Outcome) : M A :=
  _ ← note a_discard;
  _ ← on_talk (truncate contextCount newCount);
  _ ← on_host (onManagedAttemptOutcome o);
  _ ← note (a_outcome o);
  end_run.

(** ** The beginning of a turn *)

Definition open_turn : M unit :=
  l ← get_state;
  if firstTurn l then set_first else note a_turn_start.

Definition deliver_one (t : jstr) : M unit := m ← make (user_message t); _ ← note (a_user m); on_talk (push_both m).
Definition deliver : M unit :=
  l ← get_state;
  _ ← each deliver_one (pendingMessages l);
  set_pending [].

Definition release (t : Talk) : Talk := mkTalk (nextId t) [] [].
Definition maintain : M unit :=
  l ← get_state;
  match maintainContext with
  | Some check =>
      if modelHasResponded l && negb (signal_aborted (host l)) then
        p ← ask (fun h => let '(o, r, h) := check (context (talk l)) h in ((o, r), h));
        stopped ← is_aborted;
        let outcome := if stopped : bool then maintenance_aborted else fst p in
        _ ← (if snd p : bool then _ ← note a_release; on_talk release else mret tt);
        if bool_decide (outcome = not_needed) then mret tt else end_agent maintenance
      else mret tt
  | None => mret tt
  end.

(** ** The request *)

Definition shown_partial (a : Assistant) : Assistant := if fallbackManaged then managedShell a else a.

(** [emitAbortedAssistantMessage]: the partial message leaves the context. *)
Definition abortedMessage (partial : option Assistant) : Assistant :=
  {| content := match partial with Some a => content a | None => [] end; stopReason := aborted;
     errorMessage := Some (u "Request was aborted") |}.
Definition emitAbortedAssistantMessage (partial : option Reply) : M Reply :=
  m ← make (assistant_message (abortedMessage (option_map snd partial)));
  _ ← (match partial with
       | Some _ => on_talk (fun t => set_context (removelast (context t)) t)
       | None => mret tt
       end);
  mret (mid m, abortedMessage (option_map snd partial)).

(** The events of the stream.  [committed]: visible text has committed the lossless transaction. *)
Fixpoint consume (events : list ProviderEvent) (e : Ending) (partial : option Reply) (committed : bool)
    : M ((Reply + Failure) * bool) :=
  match events with
  | pe_start a :: l =>
      m ← make (assistant_message (shown_partial a));
      _ ← on_talk (push_context m);
      consume l e (Some (mid m, shown_partial a)) committed
  | pe_update a shows_text interrupted :: l =>
      match partial with
      | Some _ =>
          m ← make (assistant_message (shown_partial a));
          _ ← on_talk (fun t => set_context (set_last m (context t)) t);
          consume l e (Some (mid m, shown_partial a))
            (committed || (shows_text && negb interrupted && negb fallbackManaged))
      | None => consume l e None committed
      end
  | pe_incapability :: l => consume l e partial committed
  | pe_final a :: _ =>
      m ← make (assistant_message (finalMessage a));
      _ ← on_talk (fun t => match partial with
                            | Some _ => set_context (set_last m (context t)) t
                            | None => push_context m t
                            end);
      mret (inl (mid m, finalMessage a), committed)
  | [] =>
      match e with
      | cut_off => r ← emitAbortedAssistantMessage partial; mret (inl r, committed)
      | runs_out a =>
          m ← make (assistant_message (finalMessage a));
          mret (inl (mid m, finalMessage a), committed)
      | throws f => mret (inr f, committed)
      end
  end.

Definition streamAssistantResponse (synthetic : option jstr) (mode : ToolMode) : M ((Reply + Failure) * bool) :=
  stopped ← is_aborted;
  if stopped : bool then r ← emitAbortedAssistantMessage None; mret (inl r, false)
  else
    l ← get_state;
    _ ← note (a_request (context (talk l)) synthetic mode);
    s ← ask (respond (context (talk l)) synthetic mode);
    consume (provider_events s) (ending s) None (flushed s && negb fallbackManaged).

(** [getLogicalTurnToolChoice] *)
Definition getLogicalTurnToolChoice : M (option jstr) :=
  l ← get_state;
  match escapedNonAsciiToolChoice (retries l) with
  | Some c => mret c
  | None => c ← ask getToolChoice; _ ← on_retries (set_choice (Some c)); mret c
  end.

Definition is_kind (k : RecoveryKind) (r : option Recovery) : bool :=
  match r with Some r => bool_decide (kind r = k) | None => false end.

(** The recovery of this attempt, with its instruction. *)
Definition insert_recovery (r : Recovery) : Recovery :=
  if inserted r then r
  else {| kind := kind r; inserted := true;
          syntheticMessage := if bool_decide (kind r = provider_recovery) then syntheticMessage r else Some (recoveryPrompt (kind r)) |}.

Definition request (recoveryAttempt : option Recovery) : M ((Reply + Failure) * bool) :=
  _ ← on_recoveries (set_recovery (option_map insert_recovery recoveryAttempt));
  let synthetic := match option_map insert_recovery recoveryAttempt with Some r => syntheticMessage r | None => None end in
  let wasMalformed := is_kind malformed_tool_call recoveryAttempt in
  let wasEscaped := is_kind escaped_nonascii recoveryAttempt in
  choice ← (match recoveryAttempt, wasEscaped, synthetic with
            | Some _, false, Some _ => mret None
            | Some _, false, None => ask getToolChoice
            | _, _, _ => getLogicalTurnToolChoice
            end);
  streamAssistantResponse synthetic
    (match synthetic with
     | Some _ => if wasMalformed then tools_none else if wasEscaped then tools_choice choice else tools_auto
     | None => tools_choice choice
     end).

(** ** What becomes of the response *)

(** A thrown error: a managed attempt reports what its policy may retry. *)
Definition settle_failure {A} (contextCount newCount : nat) (f : Failure) : M A :=
  if fallbackManaged && overflows f then report contextCount newCount context_overflow_discarded
  else if fallbackManaged && retryable f then report contextCount newCount retryable_discarded
  else throw thrown.

Definition drop_rejected (t : Talk) : Talk := if ends_with_assistant (context t) then set_context (removelast (context t)) t else t.

(** A leak of the harmony protocol: resume with what could be recovered, or ask again. *)
Definition settle_leak (recovered : option Assistant) (committed : bool) : M Reply :=
  l ← get_state;
  if fallbackManaged then throw thrown
  else
    match recovered with
    | Some a =>
        if 2 <=? harmonyTruncateResumeCount (retries l) then throw thrown
        else
          _ ← on_retries (set_truncations (harmonyTruncateResumeCount (retries l) + 1));
          m ← make (assistant_message a);
          _ ← on_talk (fun t => if ends_with_assistant (context t) then set_context (set_last m (context t)) t else t);
          mret (mid m, a)
    | None =>
        if committed && negb (ends_with_assistant (context (talk l))) then throw thrown
        else
          _ ← (if committed then note a_flush else mret tt);
          if 2 <=? harmonyRetryAttempt (retries l) then throw thrown
          else
            _ ← on_retries (set_harmony (harmonyRetryAttempt (retries l) + 1));
            _ ← on_talk drop_rejected;
            throw again
    end.

(** The response, or an early exit; [true] if the lossless transaction is committed. *)
Definition receive (contextCount newCount : nat) (recoveryAttempt : option Recovery) : M (Reply * bool) :=
  r ← request recoveryAttempt;
  match fst r with
  | inr f => settle_failure contextCount newCount f
  | inl reply =>
      match detectHarmonyLeak (snd reply) with
      | Some recovered => reply ← settle_leak recovered (snd r); mret (reply, snd r)
      | None => _ ← on_retries (fun r => set_truncations 0 (set_harmony 0 r)); mret (reply, snd r)
      end
  end.

(** A repair in place of what was sent. *)
Definition repair (f : Body -> Body * bool) (retained : list Message) (m : Message) : Message :=
  if existsb (fun x => bool_decide (mid x = mid m)) retained then {| mid := mid m; mbody := fst (f (mbody m)) |} else m.
Definition repair_talk (f : Body -> Body * bool) (retained : list Message) (t : Talk) : Talk :=
  mkTalk (nextId t) (map (repair f retained) (context t)) (map (repair f retained) (newMessages t)).
Definition resend_repaired (f : Body -> Body * bool) : M unit :=
  l ← get_state;
  let retained := context (drop_rejected (talk l)) in
  if existsb (fun m => snd (f (mbody m))) retained then
    _ ← on_talk (fun t => drop_rejected (repair_talk f retained t));
    throw again
  else mret tt.

Definition repair_invalid_prompt (a : Assistant) : M unit :=
  l ← get_state;
  if negb fallbackManaged && bool_decide (stopReason a = error) && negb (invalidPromptRepairAttempted (retries l)) && isInvalidPromptError a then
    _ ← on_retries set_invalid_prompt; resend_repaired neutralize
  else mret tt.
Definition repair_reasoning (a : Assistant) : M unit :=
  l ← get_state;
  if negb fallbackManaged && bool_decide (stopReason a = error) && negb (reasoningContentRepairAttempted (retries l))
     && isReasoningContentReplayError a then
    _ ← on_retries set_reasoning; resend_repaired stripReasoning
  else mret tt.

(** Arguments in escape syntax: drop the turn and ask again, with an instruction. *)
Definition resample_escaped (contextCount newCount : nat) (recoveryAttempt : option Recovery) (reply : Reply) (committed : bool) : M unit :=
  l ← get_state;
  let n := escapedNonAsciiResampleAttempt (retries l) in
  if negb (ended_badly (snd reply)) && (n <? MAX_ESCAPED_NONASCII_RESAMPLES) && negb committed
     && hasEscapedNonAsciiToolCall (snd reply) then
    _ ← on_retries (set_resamples (n + 1));
    _ ← (if fallbackManaged then mret tt else note a_discard);
    reply ← amend reply stripUnicodeEscapeEvidence;
    _ ← on_talk (removeCommittedAssistantMessage (message_of reply));
    if fallbackManaged then
      report contextCount newCount (escaped_arguments_discarded (negb (is_kind escaped_nonascii recoveryAttempt)))
    else
      l ← get_state;
      _ ← (if bool_decide (pendingRecovery (recoveries l) = None) || is_kind escaped_nonascii (pendingRecovery (recoveries l)) then
             on_recoveries (set_recovery (Some {| kind := escaped_nonascii; inserted := false; syntheticMessage := None |}))
           else mret tt);
      throw again
  else mret tt.

Definition strip_if_bad (reply : Reply) : M Reply :=
  if ended_badly (snd reply) then amend reply stripUnicodeEscapeEvidence else mret reply.

Definition overflow_text : jstr :=
  u "Provider returned an empty response with anomalously low token usage (possible context overflow via proxy)".

Definition managedContextOverflow (a : Assistant) : bool :=
  if fallbackManaged && negb (bool_decide (stopReason a = error)) then false else classifyContextOverflow a.

(** The response becomes durable, and the transaction is flushed or given up. *)
Definition accept_response (contextCount newCount : nat) (reply : Reply) : M Reply :=
  let overflow := managedContextOverflow (snd reply) in
  if fallbackManaged && overflow then
    reply ← amend reply stripUnicodeEscapeEvidence;
    report contextCount newCount context_overflow_discarded
  else
    _ ← on_talk (push_new (message_of reply));
    _ ← set_responded;
    reply ← (if negb fallbackManaged && bool_decide (stopReason (snd reply) = stop) && bool_decide (length (content (snd reply)) = 0%nat) && overflow
             then amend reply (fail_message overflow_text) else mret reply);
    if fallbackManaged && bool_decide (stopReason (snd reply) = error) && managedRetryableFailure (snd reply) then
      report contextCount newCount retryable_discarded
    else if fallbackManaged && bool_decide (stopReason (snd reply) = aborted) then report contextCount newCount cancelled
    else if fallbackManaged then
      m ← make (assistant_message (managedShell (snd reply)));
      _ ← on_talk (fun t =>
             mkTalk (nextId t) (if ends_with_assistant (context t) then set_last m (context t) else context t)
               (set_last m (newMessages t)));
      _ ← note a_flush;
      mret (mid m, managedShell (snd reply))
    else
      m ← make (assistant_message (acceptedSnapshot (snd reply)));
      _ ← on_talk (fun t =>
             mkTalk (nextId t) (replace_last_index (fst reply) [m] (context t)) (replace_last_index (fst reply) [m] (newMessages t)));
      let accepted := (mid m, acceptedSnapshot (snd reply)) in
      stopped ← is_aborted;
      drained ← (if ended_badly (snd accepted) then mret stopped
                 else _ ← on_host waitForConsumerDrain; now_stopped ← is_aborted; mret (orb stopped now_stopped));
      reply ← (if negb (ended_badly (snd accepted)) && drained then amend accepted (set_stop aborted) else mret accepted);
      reply ← strip_if_bad reply;
      _ ← note a_flush;
      mret reply.

(** ** Tools *)

(** [createAbortedToolResult] *)
Definition createAbortedToolResult (c : ToolCall) (was_aborted : bool) (message : option jstr) : ToolResult :=
  let head := if was_aborted then u "Tool execution was aborted" else u "Tool execution failed due to an error" in
  {| result_of := call_id c; result_name := call_name c; isError := true;
     result_text := match message with Some ((_ :: _) as m) => head ++ u ": " ++ m | _ => head ++ u "." end |}.

Definition keep_result (r : ToolResult) : M unit := m ← make (tool_result r); on_talk (push_both m).
Definition placeholder (was_aborted : bool) (text : option jstr) (c : ToolCall) : M unit :=
  _ ← note (a_placeholder (call_id c));
  keep_result (createAbortedToolResult c was_aborted text).

(** An aborted or failed turn: its calls are answered, and the run ends. *)
Definition end_badly (reply : Reply) : M unit :=
  reply ← amend reply stripUnicodeEscapeEvidence;
  let was_aborted := bool_decide (stopReason (snd reply) = aborted) in
  _ ← each (placeholder was_aborted (errorMessage (snd reply))) (open_calls (snd reply));
  _ ← note (a_turn_end (message_of reply)
              (map (fun c => createAbortedToolResult c was_aborted (errorMessage (snd reply))) (open_calls (snd reply))));
  end_agent completed.

Definition disabled_text : jstr := u "Tool calls are disabled during repeated malformed tool-call recovery.".

(** [a] has no element twice. *)
Fixpoint distinct (l : list jstr) : bool :=
  match l with [] => true | x :: l' => negb (existsb (fun y => bool_decide (y = x)) l') && distinct l' end.

Record Executed := { results : list ToolResult; steering : list jstr; repeatedMalformed : bool; policyBlocked : bool }.

Definition run_tools (reply : Reply) : M Executed :=
  l ← get_state;
  _ ← note (a_tools (message_of reply));
  b ← ask (executeToolCalls (context (talk l)) (snd reply));
  let signatures := malformedToolCallSignatures b in
  let all_malformed := bool_decide (toolResults b <> []) && bool_decide (length signatures = length (toolResults b)) in
  let previous := previousMalformedToolSignatures (recoveries l) in
  _ ← on_recoveries (fun r => if all_malformed then set_malformed signatures (consecutiveMalformedTurns r + 1) r else set_malformed [] 0 r);
  _ ← each keep_result (toolResults b);
  mret {| results := toolResults b; steering := steeringMessages b;
          repeatedMalformed := all_malformed
            && (negb (distinct signatures) || existsb (fun s => existsb (fun p => bool_decide (p = s)) previous) signatures);
          policyBlocked := existsb isComposerBashPolicyBlockedToolResult (toolResults b) |}.

Definition no_tools : Executed := {| results := []; steering := []; repeatedMalformed := false; policyBlocked := false |}.

Definition dispatch (wasMalformedToolRecoveryAttempt : bool) (reply : Reply) : M Executed :=
  let calls := open_calls (snd reply) in
  _ ← set_more (bool_decide (calls <> []));
  if bool_decide (calls = []) then mret no_tools
  else if wasMalformedToolRecoveryAttempt then
    _ ← each (placeholder false (Some disabled_text)) calls;
    mret {| results := map (fun c => createAbortedToolResult c false (Some disabled_text)) calls; steering := [];
            repeatedMalformed := false; policyBlocked := false |}
  else run_tools reply.

(** ** The end of a turn *)

(** Steering opens the next turn, unless the signal is aborted: then it is handed back. *)
Definition steer (ms : list jstr) (abandon : M unit) : M unit :=
  stopped ← is_aborted;
  if stopped : bool then _ ← note (a_requeue ms); _ ← on_host (requeueSteeringMessages ms); _ ← abandon; throw leave
  else _ ← set_pending ms; throw again.

Definition composer_text : jstr :=
  u "Composer bash policy blocked repository file I/O again after its one automatic recovery turn. Continue with dedicated repository tools.".
Definition breaker_text (n : Z) : jstr :=
  u "Stopping after " ++ num_to_str n ++ u " consecutive turns of malformed tool calls; the model did not produce a usable tool call or answer.".

Definition recover (reply : Reply) (x : Executed) : M unit :=
  l ← get_state;
  let start k := on_recoveries (set_recovery (Some {| kind := k; inserted := false; syntheticMessage := None |})) in
  if policyBlocked x && negb (composerBashPolicyRecoveryAttempted (recoveries l)) then
    _ ← start composer_bash_policy; on_recoveries set_composer_attempted
  else if policyBlocked x then _ ← amend reply (fail_message composer_text); end_agent completed
  else if repeatedMalformed x && negb (malformedToolRecoveryAttempted (recoveries l)) then
    _ ← start malformed_tool_call; on_recoveries set_malformed_attempted
  else if MAX_CONSECUTIVE_MALFORMED_TURNS <=? consecutiveMalformedTurns (recoveries l) then
    _ ← amend reply (fail_message (breaker_text (consecutiveMalformedTurns (recoveries l)))); end_agent completed
  else mret tt.

Definition close_turn (reply : Reply) (x : Executed) : M unit :=
  _ ← note (a_turn_end (message_of reply) (results x));
  if bool_decide (steering x <> []) then steer (steering x) (mret tt)
  else
    ms ← ask getSteeringMessages;
    if bool_decide (ms <> []) then steer ms (set_pending ms)
    else
      _ ← set_pending [];
      p ← ask shouldPause;
      if p : bool then end_agent paused else recover reply x.

(** One iteration of the inner loop. *)
Definition iterate : M unit :=
  _ ← open_turn;
  _ ← deliver;
  _ ← maintain;
  _ ← on_host syncContextBeforeModelCall;
  l ← get_state;
  let contextCount := length (context (talk l)) in
  let newCount := length (newMessages (talk l)) in
  let recoveryAttempt := pendingRecovery (recoveries l) in
  r ← receive contextCount newCount recoveryAttempt;
  let '(reply, committed) := r in
  _ ← repair_invalid_prompt (snd reply);
  _ ← repair_reasoning (snd reply);
  _ ← resample_escaped contextCount newCount recoveryAttempt reply committed;
  reply ← strip_if_bad reply;
  _ ← on_retries (fun r => set_choice None (set_resamples 0 r));
  reply ← accept_response contextCount newCount reply;
  _ ← (if fallbackManaged && negb (ended_badly (snd reply)) then _ ← on_host onManagedAttemptAccepted; note a_accepted else mret tt);
  if ended_badly (snd reply) then end_badly reply
  else
    x ← dispatch (is_kind malformed_tool_call recoveryAttempt) reply;
    _ ← (if bool_decide (recoveryAttempt = None) then mret tt else on_recoveries (set_recovery None));
    close_turn reply x.

(** ** The loops *)

(** Before the run would end: a pause, follow-ups, or a recovery of the provider. *)
Definition before_yield : M unit :=
  _ ← on_host onBeforeYield;
  p ← ask shouldPause;
  if p : bool then end_agent paused
  else
    synthetic ← ask getSyntheticRecoveryMessage;
    followUps ← ask getFollowUpMessages;
    if bool_decide (followUps <> []) then set_pending followUps
    else
      match synthetic with
      | Some t => on_recoveries (set_recovery (Some {| kind := provider_recovery; inserted := true; syntheticMessage := Some t |}))
      | None => end_agent completed
      end.

(** The inner loop has an iteration to do. *)
Definition goes_on (l : Loop H) : bool := hasMoreToolCalls l || bool_decide (pendingMessages l <> []).

Inductive Place := inner | outer | over (e : Exit).

(** A step of the two loops: an iteration, the end of the inner loop, or the poll of the outer one. *)
Definition step (l : Loop H) (p : Place) : Loop H * Place :=
  match p with
  | inner =>
      if goes_on l then
        match iterate l with
        | (l, Ok _) | (l, Err again) => (l, inner)
        | (l, Err leave) => (l, outer)
        | (l, Err e) => (l, over e)
        end
      else (l, outer)
  | outer =>
      match before_yield l with
      | (l, Ok _) => (fst (set_more true l), inner)
      | (l, Err e) => (l, over e)
      end
  | over e => (l, over e)
  end.

Fixpoint steps (n : nat) (s : Loop H * Place) : Loop H * Place :=
  match n with O => s | Datatypes.S m => steps m (step (fst s) (snd s)) end.

(** [runLoopBody]: the state in which the loops begin. *)
Definition runLoopBody (h : H) (t : Talk) : Loop H * Place :=
  let '(ms, h) := getSteeringMessages h in
  (mkLoop h t true true ms false
     (mkRetries 0 0 false false 0 None)
     (mkRecoveries []
        (option_map (fun m => {| kind := escaped_nonascii; inserted := true; syntheticMessage := Some m |}) transientRecoveryMessage)
        false false 0)
     [], inner).

(** [agentLoop]: a run over new prompts; the caller's list is copied. *)
Definition agentLoop (prompts messages : list Message) (next : nat) (h : H) : Loop H * Place :=
  runLoopBody h (mkTalk next (messages ++ prompts) prompts).

(** [agentLoopContinue]: a run from the context as it is, if it ends with something to answer. *)
Definition agentLoopContinue (messages : list Message) (next : nat) (h : H) : option (Loop H * Place) :=
  if bool_decide (messages = []) || ends_with_assistant messages then None else Some (runLoopBody h (mkTalk next messages [])).
End loop.
