(* ===== verification/AgentLoopProofs.v ===== *)
(** * Reasoning about an iteration of the agent loop; a run ends once *)
From S2P Require Import Prelude.
From S2P Require Import AgentLoop.
#[local] Open Scope Z_scope.
#[local] Open Scope js_scope.

(** ** Weakest preconditions *)

Section wp.
Context {H : Type} `{!Host H}.

Definition wp {A} (m : SM (Loop H) Exit A) (Q : A -> Loop H -> Prop) (E : Exit -> Loop H -> Prop) (l : Loop H) : Prop :=
  match m l with (l', Ok a) => Q a l' | (l', Err e) => E e l' end.

Lemma wp_ret {A} (a : A) Q E l : Q a l -> wp (mret a) Q E l.
Proof. done. Qed.
Lemma wp_throw {A} e (Q : A -> Loop H -> Prop) (E : Exit -> Loop H -> Prop) l : E e l -> wp (throw e) Q E l.
Proof. done. Qed.
Lemma wp_get (Q : Loop H -> Loop H -> Prop) E l : Q l l -> wp get_state Q E l.
Proof. done. Qed.
Lemma wp_bind {A B} (m : SM (Loop H) Exit A) (k : A -> SM (Loop H) Exit B) Q E l :
  wp m (fun a l' => wp (k a) Q E l') E l -> wp (m ≫= k) Q E l.
Proof. unfold wp, mbind, sm_bind. destruct (m l) as [l' [a|e]]; done. Qed.
Lemma wp_mono {A} (m : SM (Loop H) Exit A) (Q Q' : A -> Loop H -> Prop) (E E' : Exit -> Loop H -> Prop) l :
  wp m Q E l -> (forall a l', Q a l' -> Q' a l') -> (forall e l', E e l' -> E' e l') -> wp m Q' E' l.
Proof. unfold wp. destruct (m l) as [l' [a|e]]; auto. Qed.
Lemma wp_if {A} (b : bool) (m n : SM (Loop H) Exit A) Q E l :
  (b = true -> wp m Q E l) -> (b = false -> wp n Q E l) -> wp (if b then m else n) Q E l.
Proof. destruct b; auto. Qed.

Lemma wp_each {A} (f : A -> SM (Loop H) Exit unit) (I : list A -> Loop H -> Prop) xs E l :
  (forall x xs l, I (x :: xs) l -> wp (f x) (fun _ l' => I xs l') E l) -> I xs l -> wp (each f xs) (fun _ l' => I [] l') E l.
Proof.
  intros Hf. revert l. induction xs as [|x xs IH]; intros l Hl; [exact Hl|]. change (each f (x :: xs)) with (f x ≫= fun _ => each f xs).
  apply wp_bind. eapply wp_mono; [by apply Hf | | done]. intros [] l'. apply IH.
Qed.
End wp.

(** Apply the rules along a computation. *)
Ltac wp_step :=
  match goal with
  | |- wp (_ ≫= _) _ _ _ => apply wp_bind
  | |- wp (mret _) _ _ _ => apply wp_ret
  | |- wp (throw _) _ _ _ => apply wp_throw
  | |- wp get_state _ _ _ => apply wp_get; cbv beta
  | |- wp (if _ then _ else _) _ _ _ => apply wp_if; intros
  end.

(** ** A run ends once *)

Section ends.
Context {H : Type} `{!Host H}.

Definition is_end (a : Action) : bool := match a with a_agent_end _ | a_outcome _ | a_end _ => true | _ => false end.
Definition running (g : list Action) : Prop := existsb is_end g = false.

Definition is_outcome (a : Action) : bool := match a with a_outcome _ => true | _ => false end.

(** The stream is ended with the messages of the run: after an [agent_end], or after the outcome of a managed attempt. *)
Definition ended (l : Loop H) : Prop :=
  exists before last, running before /\ log l = before ++ [last; a_end (newMessages (talk l))]
    /\ (is_outcome last = true \/ exists r, last = a_agent_end r).

Definition after (e : Exit) (l : Loop H) : Prop := match e with finished => ended l | _ => running (log l) end.

Lemma running_note g a : is_end a = false -> running g -> running (g ++ [a]).
Proof. intros Ha Hg. unfold running in *. rewrite existsb_app, Hg. cbn. by rewrite Ha. Qed.

(** A computation that ends the run at most by [after]. *)
Definition tame {A} (m : SM (Loop H) Exit A) : Prop := forall l, running (log l) -> wp m (fun _ l' => running (log l')) after l.

Lemma tame_ret {A} (a : A) : tame (mret a).
Proof. intros l Hl. exact Hl. Qed.
Lemma tame_throw {A} e : e <> finished -> tame (throw (A := A) e).
Proof. intros He l Hl. by destruct e. Qed.
Lemma tame_get : tame get_state.
Proof. intros l Hl. exact Hl. Qed.
Lemma tame_bind {A B} (m : SM (Loop H) Exit A) (k : A -> SM (Loop H) Exit B) : tame m -> (forall a, tame (k a)) -> tame (m ≫= k).
Proof. intros Hm Hk l Hl. apply wp_bind. eapply wp_mono; [by apply Hm | | done]. intros a l'. apply Hk. Qed.
Lemma tame_each {A} (f : A -> SM (Loop H) Exit unit) xs : (forall x, tame (f x)) -> tame (each f xs).
Proof. intros Hf l Hl. apply (wp_each f (fun _ l => running (log l))); [|done]. intros x xs' l' Hl'. by apply Hf. Qed.
Lemma tame_on_host f : tame (on_host f).
Proof. intros l Hl. exact Hl. Qed.
Lemma tame_ask {A} (f : H -> A * H) : tame (ask f).
Proof. intros l Hl. unfold wp, ask. by destruct (f (host l)). Qed.
Lemma tame_on_talk f : tame (on_talk f).
Proof. intros l Hl. exact Hl. Qed.
Lemma tame_on_retries f : tame (on_retries f).
Proof. intros l Hl. exact Hl. Qed.
Lemma tame_on_recoveries f : tame (on_recoveries f).
Proof. intros l Hl. exact Hl. Qed.
Lemma tame_set_first : tame set_first.
Proof. intros l Hl. exact Hl. Qed.
Lemma tame_set_more b : tame (set_more b).
Proof. intros l Hl. exact Hl. Qed.
Lemma tame_set_pending ms : tame (set_pending ms).
Proof. intros l Hl. exact Hl. Qed.
Lemma tame_set_responded : tame set_responded.
Proof. intros l Hl. exact Hl. Qed.
Lemma tame_is_aborted : tame is_aborted.
Proof. intros l Hl. exact Hl. Qed.
Lemma tame_make b : tame (make b).
Proof. intros l Hl. exact Hl. Qed.
Lemma tame_note a : is_end a = false -> tame (note a).
Proof. intros Ha l Hl. unfold wp, note. cbn. by apply running_note. Qed.
Lemma tame_amend r f : tame (amend r f).
Proof. intros l Hl. exact Hl. Qed.
Lemma tame_end_agent {A} r : tame (end_agent (A := A) r).
Proof.
  intros l Hl. unfold wp. cbn. exists (log l), (a_agent_end r). split; [done|]. cbn. split; [by rewrite <- app_assoc | right; by exists r].
Qed.
Lemma tame_report {A} n k o : tame (report (A := A) n k o).
Proof.
  intros l Hl. unfold wp. cbn. exists (log l ++ [a_discard]), (a_outcome o). split; [by apply running_note|].
  cbn. split; [by rewrite <- !app_assoc | by left].
Qed.
Create HintDb tame.
#[local] Hint Resolve tame_ret tame_get tame_each tame_on_host tame_ask tame_on_talk tame_on_retries tame_on_recoveries
  tame_set_first tame_set_more tame_set_pending tame_set_responded tame_is_aborted tame_make tame_amend tame_end_agent
  tame_report : tame.
Ltac tame :=
  repeat (intros; cbv zeta; match goal with
    | |- tame (_ ≫= _) => apply tame_bind
    | |- tame (throw _) => apply tame_throw; discriminate
    | |- tame (note _) => apply tame_note; reflexivity
    | |- tame (each _ _) => apply tame_each
    | |- tame (match ?x with _ => _ end) => destruct x eqn:?
    | |- tame _ => solve [simple apply tame_ret | auto 2 with tame nocore]
    end).

Lemma tame_consume events e partial committed : tame (consume events e partial committed).
Proof.
  revert partial committed. induction events as [|ev events IH]; intros partial committed; cbn [consume].
  - destruct e; unfold emitAbortedAssistantMessage; tame.
  - destruct ev; tame.
Qed.
#[local] Hint Resolve tame_consume : tame.

Lemma tame_maintain : tame maintain.
Proof. unfold maintain. tame. Qed.
Lemma tame_receive n k r : tame (receive n k r).
Proof.
  unfold receive, request, getLogicalTurnToolChoice, streamAssistantResponse, emitAbortedAssistantMessage, settle_failure, settle_leak. tame.
Qed.
Lemma tame_resend f : tame (resend_repaired f).
Proof. unfold resend_repaired. tame. Qed.
#[local] Hint Resolve tame_resend : tame.
Lemma tame_invalid_prompt a : tame (repair_invalid_prompt a).
Proof. unfold repair_invalid_prompt. tame. Qed.
Lemma tame_reasoning a : tame (repair_reasoning a).
Proof. unfold repair_reasoning. tame. Qed.
Lemma tame_resample n k r reply c : tame (resample_escaped n k r reply c).
Proof. unfold resample_escaped. tame. Qed.
Lemma tame_strip reply : tame (strip_if_bad reply).
Proof. unfold strip_if_bad. tame. Qed.
#[local] Hint Resolve tame_invalid_prompt tame_reasoning tame_maintain tame_receive tame_resample tame_strip : tame.
Lemma tame_accept n k reply : tame (accept_response n k reply).
Proof. unfold accept_response. tame. Qed.
Lemma tame_end_badly reply : tame (end_badly reply).
Proof. unfold end_badly, placeholder, keep_result. tame. Qed.
Lemma tame_dispatch b reply : tame (dispatch b reply).
Proof. unfold dispatch, run_tools, placeholder, keep_result. tame. Qed.
Lemma tame_close reply x : tame (close_turn reply x).
Proof. unfold close_turn, steer, recover. tame. Qed.
#[local] Hint Resolve tame_accept tame_end_badly tame_dispatch tame_close : tame.

Lemma tame_iterate : tame iterate.
Proof.
  unfold iterate, open_turn, deliver, deliver_one. tame.
Qed.

Lemma tame_before_yield : tame before_yield.
Proof. unfold before_yield. tame. Qed.

Definition place_ok (s : Loop H * Place) : Prop := match snd s with over e => after e (fst s) | _ => running (log (fst s)) end.

Lemma place_ok_step l p : place_ok (l, p) -> place_ok (step l p).
Proof.
  destruct p as [| |e]; cbn [step]; intros Hl; [| |exact Hl].
  - destruct (goes_on l); [|exact Hl]. pose proof (tame_iterate l Hl) as Hi. unfold wp in Hi.
    destruct (iterate l) as [l' [[]|e]]; [exact Hi|]. destruct e; exact Hi.
  - pose proof (tame_before_yield l Hl) as Hi. unfold wp in Hi. destruct (before_yield l) as [l' [[]|e]]; exact Hi.
Qed.

Lemma place_ok_steps n s : place_ok s -> place_ok (steps n s).
Proof.
  revert s. induction n as [|n IH]; intros [l p] Hs; [exact Hs|]. apply IH. exact (place_ok_step l p Hs).
Qed.

(** C2. A run ends once: however many steps it takes, no [agent_end] is published and the stream is not ended while it runs
    or when it fails with an error; a finished run has ended the stream with its messages, as its last action, right
    after its only [agent_end] or, for a managed attempt that was given up, after the outcome it reported. *)
Theorem run_ends_once h t n :
  let '(l, p) := steps n (runLoopBody h t) in
  match p with
  | over finished =>
      exists before last, running before /\ log l = before ++ [last; a_end (newMessages (talk l))]
        /\ (is_outcome last = true \/ exists r, last = a_agent_end r)
  | _ => running (log l)
  end.
Proof.
  assert (Hs : place_ok (steps n (runLoopBody h t))).
  { apply place_ok_steps. unfold runLoopBody. by destruct (getSteeringMessages h). }
  destruct (steps n (runLoopBody h t)) as [l [| |e]]; [exact Hs | exact Hs|]. by destruct e.
Qed.
End ends.
