(* ===== verification/AgentLoopPairs.v ===== *)
(** * What a provider is asked is paired: every call of a tool has its result *)
From S2P Require Import Prelude.
From S2P Require Import AgentLoop.
From S2P Require Import AgentLoopProofs.
#[local] Open Scope Z_scope.
#[local] Open Scope js_scope.

(** ** Pairing *)

Definition call_ids (a : Assistant) : list jstr := map call_id (open_calls a).

(** The calls that are still to be answered after a message, if it may come while [owed] are. *)
Definition owe (owed : list jstr) (m : Message) : option (list jstr) :=
  match mbody m, owed with
  | user_message _, [] => Some []
  | assistant_message a, [] => Some (call_ids a)
  | tool_result r, c :: cs => if bool_decide (result_of r = c) then Some cs else None
  | _, _ => None
  end.
Fixpoint owes (owed : list jstr) (l : list Message) : option (list jstr) :=
  match l with
  | [] => Some owed
  | m :: l' => match owe owed m with Some o => owes o l' | None => None end
  end.
(** Results follow the message that called for them, one for each call and in its order. *)
Definition paired (l : list Message) : Prop := owes [] l = Some [].

Lemma owes_app o l l' : owes o (l ++ l') = match owes o l with Some o' => owes o' l' | None => None end.
Proof. revert o. induction l as [|m l IH]; intros o; [done|]. cbn [app owes]. destruct (owe o m); [apply IH | done]. Qed.

Definition same_shape (b b' : Body) : Prop :=
  match b, b' with
  | user_message _, user_message _ => True
  | assistant_message a, assistant_message a' => call_ids a' = call_ids a
  | tool_result r, tool_result r' => result_of r' = result_of r
  | _, _ => False
  end.

Lemma owes_map f o l : (forall m, same_shape (mbody m) (mbody (f m))) -> owes o (map f l) = owes o l.
Proof.
  intros Hf. revert o. induction l as [|m l IH]; intros o; [done|]. cbn [map owes].
  assert (Ho : owe o (f m) = owe o m).
  { specialize (Hf m). unfold owe. destruct (mbody m), (mbody (f m)); try done; cbn in Hf; [by rewrite Hf | by rewrite Hf]. }
  rewrite Ho. destruct (owe o m); [apply IH | done].
Qed.

Lemma same_shape_refl b : same_shape b b.
Proof. by destruct b. Qed.

Lemma change_shape id f m : (forall a, call_ids (f a) = call_ids a) -> same_shape (mbody m) (mbody (change id (on_assistant f) m)).
Proof.
  intros Hf. unfold change. destruct (bool_decide (mid m = id)); [|apply same_shape_refl]. cbn [mbody].
  destruct (mbody m); cbn; [done | apply Hf | done].
Qed.

Lemma call_ids_strip a : call_ids (stripUnicodeEscapeEvidence a) = call_ids a.
Proof.
  unfold call_ids, open_calls, stripUnicodeEscapeEvidence. cbn [content set_content]. induction (content a) as [|b l IH]; [done|].
  destruct b as [t|c]; cbn; [exact IH|]. destruct (resolved c); cbn; [exact IH | by rewrite IH].
Qed.

(** ** What is asked of the host *)

(** A response starts at most once, and its iterator does not run out without a final event. *)
Fixpoint proper (started : bool) (events : list ProviderEvent) (e : Ending) : bool :=
  match events with
  | [] => match e with runs_out _ => false | _ => true end
  | pe_start _ :: l => negb started && proper true l e
  | pe_final _ :: _ => true
  | _ :: l => proper started l e
  end.

Definition lasts {H} `{!Host H} (f : H -> H) : Prop := forall h, signal_aborted h = true -> signal_aborted (f h) = true.

(** An abort lasts; responses are proper and cut off by an abort only; every call gets its result; the repairs of the
    history leave its calls and results alone; an empty message leaks nothing, and a snapshot keeps the stop reason. *)
Class HostLaws (H : Type) `{!Host H} := {
  steering_lasts : lasts (fun h => snd (getSteeringMessages h));
  requeue_lasts ms : lasts (requeueSteeringMessages ms);
  followup_lasts : lasts (fun h => snd (getFollowUpMessages h));
  synthetic_lasts : lasts (fun h => snd (getSyntheticRecoveryMessage h));
  pause_lasts : lasts (fun h => snd (shouldPause h));
  yield_lasts : lasts onBeforeYield;
  maintenance_lasts check c : maintainContext = Some check -> lasts (fun h => snd (check c h));
  sync_lasts : lasts syncContextBeforeModelCall;
  choice_lasts : lasts (fun h => snd (getToolChoice h));
  response_lasts c s m : lasts (fun h => snd (respond c s m h));
  drain_lasts : lasts waitForConsumerDrain;
  outcome_lasts o : lasts (onManagedAttemptOutcome o);
  accepted_lasts : lasts onManagedAttemptAccepted;
  tools_last c a : lasts (fun h => snd (executeToolCalls c a h));
  responses_proper c s m h :
    let r := respond c s m h in
    proper false (provider_events (fst r)) (ending (fst r)) = true
    /\ (ending (fst r) = cut_off -> signal_aborted (snd r) = true);
  tools_answer c a h : map result_of (toolResults (fst (executeToolCalls c a h))) = call_ids a;
  neutralize_shape b : same_shape b (fst (neutralize b));
  strip_shape b : same_shape b (fst (stripReasoning b));
  nothing_leaks : detectHarmonyLeak (abortedMessage None) = None;
  snapshot_keeps_stop a : stopReason (acceptedSnapshot a) = stopReason a
}.

(** ** Speaking of the context *)

Section pairs.
Context {H : Type} `{!Host H} `{!HostLaws H}.

Definition asked_well (a : Action) : Prop := match a with a_request c _ _ => paired c | _ => True end.

(** Requests were paired, and unless the signal is aborted [P] holds of the context. *)
Definition says (P : list Message -> Prop) (l : Loop H) : Prop :=
  Forall asked_well (log l) /\ (signal_aborted (host l) = true \/ P (context (talk l))).

Definition exits (e : Exit) (l : Loop H) : Prop :=
  match e with again | leave => says paired l | finished | thrown => Forall asked_well (log l) end.

Definition speaks {A} (P : list Message -> Prop) (m : SM (Loop H) Exit A) (Q : A -> list Message -> Prop) : Prop :=
  forall l, says P l -> wp m (fun a l' => says (Q a) l') exits l.

Lemma says_mono (P Q : list Message -> Prop) l : (forall c, P c -> Q c) -> says P l -> says Q l.
Proof. intros HPQ [Hlog [Ha|Hp]]; (split; [done|]); [by left | right; by apply HPQ]. Qed.

Lemma speaks_ret {A} (P : list Message -> Prop) (a : A) : speaks P (mret a) (fun _ => P).
Proof. intros l Hl. exact Hl. Qed.
Lemma speaks_mono {A} (P P' : list Message -> Prop) (m : SM (Loop H) Exit A) (Q Q' : A -> list Message -> Prop) :
  speaks P m Q -> (forall c, P' c -> P c) -> (forall a c, Q a c -> Q' a c) -> speaks P' m Q'.
Proof.
  intros Hm HP HQ l Hl. eapply wp_mono; [apply Hm; by eapply says_mono | | done]. intros a l'. apply says_mono, HQ.
Qed.
Lemma speaks_bind {A B} P (m : SM (Loop H) Exit A) Q (k : A -> SM (Loop H) Exit B) R :
  speaks P m Q -> (forall a, speaks (Q a) (k a) R) -> speaks P (m ≫= k) R.
Proof. intros Hm Hk l Hl. apply wp_bind. eapply wp_mono; [by apply Hm | | done]. intros a l'. apply Hk. Qed.
Lemma speaks_again {A} (P : list Message -> Prop) (e : Exit) Q :
  (forall c, P c -> paired c) -> speaks P (throw (A := A) e) Q.
Proof. intros HP l Hl. destruct e; cbn; [by eapply says_mono | by eapply says_mono | apply Hl | apply Hl]. Qed.
Lemma speaks_thrown {A} (P : list Message -> Prop) Q : speaks P (throw (A := A) thrown) Q.
Proof. intros l Hl. apply Hl. Qed.
Lemma speaks_get {A} P (k : Loop H -> SM (Loop H) Exit A) Q : (forall l0, speaks P (k l0) Q) -> speaks P (get_state ≫= k) Q.
Proof. intros Hk l Hl. apply wp_bind, wp_get. by apply Hk. Qed.
Lemma speaks_host P f : lasts f -> speaks P (on_host f) (fun _ => P).
Proof. intros Hf l [Hlog Hl]. split; [done|]. cbn. destruct Hl as [Ha|Hp]; [left; by apply Hf | by right]. Qed.
Lemma speaks_ask {A} P (f : H -> A * H) : lasts (fun h => snd (f h)) -> speaks P (ask f) (fun _ => P).
Proof.
  intros Hf l [Hlog Hl]. unfold wp, ask. specialize (Hf (host l)). cbn in Hf. destruct (f (host l)) as [a h]. split; [done|].
  cbn in *. destruct Hl as [Ha|Hp]; [left; by apply Hf | by right].
Qed.
Lemma speaks_talk (P Q : list Message -> Prop) f : (forall t, P (context t) -> Q (context (f t))) -> speaks P (on_talk f) (fun _ => Q).
Proof. intros Hf l [Hlog Hl]. split; [done|]. cbn. destruct Hl as [Ha|Hp]; [by left | right; by apply Hf]. Qed.
Lemma speaks_note P a : (forall c s m, a <> a_request c s m) -> speaks P (note a) (fun _ => P).
Proof.
  intros Ha l [Hlog Hl]. split; [|exact Hl]. cbn. apply Forall_app. split; [done|]. constructor; [|constructor]. destruct a; try done. by edestruct Ha.
Qed.
Lemma speaks_retries P f : speaks P (on_retries f) (fun _ => P).
Proof. intros l Hl. exact Hl. Qed.
Lemma speaks_recoveries P f : speaks P (on_recoveries f) (fun _ => P).
Proof. intros l Hl. exact Hl. Qed.
Lemma speaks_more P b : speaks P (set_more b) (fun _ => P).
Proof. intros l Hl. exact Hl. Qed.
Lemma speaks_pending P ms : speaks P (set_pending ms) (fun _ => P).
Proof. intros l Hl. exact Hl. Qed.
Lemma speaks_first P : speaks P set_first (fun _ => P).
Proof. intros l Hl. exact Hl. Qed.
Lemma speaks_responded P : speaks P set_responded (fun _ => P).
Proof. intros l Hl. exact Hl. Qed.
Lemma speaks_aborted P : speaks P is_aborted (fun _ => P).
Proof. intros l Hl. exact Hl. Qed.
Lemma speaks_make P b : speaks P (make b) (fun m c => P c /\ mbody m = b).
Proof. intros l [Hlog [Ha|Hp]]; (split; [done|]); [by left | by right]. Qed.
Lemma speaks_end {A} P r Q : speaks P (end_agent (A := A) r) Q.
Proof. intros l [Hlog _]. change (Forall asked_well ((log l ++ [a_agent_end r]) ++ [a_end (newMessages (talk l))])). rewrite <- app_assoc. apply Forall_app. split; [done|]. repeat constructor. Qed.
Lemma speaks_report {A} P n k o Q : speaks P (report (A := A) n k o) Q.
Proof. intros l [Hlog _].
  change (Forall asked_well (((log l ++ [a_discard]) ++ [a_outcome o]) ++ [a_end (take k (newMessages (talk l)))])). rewrite <- !app_assoc. apply Forall_app. split; [done|]. repeat constructor. Qed.
Lemma speaks_each {A} (f : A -> SM (Loop H) Exit unit) (I : list A -> list Message -> Prop) xs :
  (forall x xs, speaks (I (x :: xs)) (f x) (fun _ => I xs)) -> speaks (I xs) (each f xs) (fun _ => I []).
Proof. intros Hf l Hl. apply (wp_each f (fun xs => says (I xs))); [|done]. intros x xs' l' Hl'. by apply Hf. Qed.
End pairs.

Create HintDb speaks.
#[export] Hint Resolve speaks_ret speaks_host speaks_ask speaks_retries speaks_recoveries speaks_more speaks_pending speaks_first
  speaks_responded speaks_aborted speaks_end speaks_report speaks_thrown : speaks.
#[export] Hint Resolve steering_lasts requeue_lasts followup_lasts synthetic_lasts pause_lasts yield_lasts sync_lasts choice_lasts
  response_lasts drain_lasts outcome_lasts accepted_lasts tools_last : speaks.
#[export] Hint Extern 1 (speaks _ (note _) _) => (apply speaks_note; discriminate) : speaks.

(** ** The phases of an iteration *)

Section ask.
Context {H : Type} `{!Host H} `{!HostLaws H}.

(** The context ends with the response, and what comes before is paired. *)
Definition landed (r : Reply) (c : list Message) : Prop := exists base, c = base ++ [message_of r] /\ paired base.

Lemma paired_user c m t : paired c -> mbody m = user_message t -> paired (c ++ [m]).
Proof. intros Hc Hm. unfold paired in *. rewrite owes_app, Hc. cbn [owes]. unfold owe. by rewrite Hm. Qed.

Lemma landed_owes r c : landed r c -> owes [] c = Some (call_ids (snd r)).
Proof. intros (base & -> & Hb). by rewrite owes_app, Hb. Qed.

Lemma landed_last r c : landed r c -> removelast c = removelast (c) /\ exists base, c = base ++ [message_of r] /\ removelast c = base /\ paired base.
Proof. intros (base & -> & Hb). split; [done|]. exists base. by rewrite removelast_last. Qed.

Lemma landed_set_last r r' c : landed r c -> landed r' (set_last (message_of r') c).
Proof. intros (base & -> & Hb). exists base. unfold set_last. by rewrite removelast_last. Qed.

Lemma landed_push r c : paired c -> landed r (c ++ [message_of r]).
Proof. intros Hc. by exists c. Qed.

Lemma landed_ends r c : landed r c -> ends_with_assistant c = true.
Proof. intros (base & -> & _). unfold ends_with_assistant. rewrite map_app. cbn [map]. by rewrite List.last_last. Qed.

Lemma landed_drop r t : landed r (context t) -> paired (context (drop_rejected t)).
Proof.
  intros Hl. unfold drop_rejected. rewrite (landed_ends r _ Hl). destruct Hl as (base & Hc & Hb). cbn. by rewrite Hc, removelast_last.
Qed.

Lemma landed_mutate r f t :
  (forall a, call_ids (f a) = call_ids a) -> landed r (context t) -> landed (fst r, f (snd r)) (context (mutate (fst r) (on_assistant f) t)).
Proof.
  intros Hf (base & Hc & Hb). exists (map (change (fst r) (on_assistant f)) base). cbn [mutate context]. rewrite Hc, map_app.
  split.
  - f_equal. cbn. unfold change. cbn. by rewrite bool_decide_eq_true_2.
  - unfold paired. rewrite owes_map; [done|]. intros m. by apply change_shape.
Qed.

Lemma replace_last_app id m by_ l : mid m = id -> replace_last_index id by_ (l ++ [m]) = l ++ by_.
Proof.
  intros Hm. induction l as [|x l IH]; cbn [app replace_last_index].
  - rewrite bool_decide_eq_true_2 by done. cbn. by rewrite app_nil_r.
  - assert (He : existsb (fun y => bool_decide (mid y = id)) (l ++ [m]) = true).
    { rewrite existsb_app. cbn. rewrite (bool_decide_eq_true_2 (mid m = id)) by done. cbn. apply orb_true_r. }
    rewrite He, andb_false_r, IH. done.
Qed.

Lemma landed_remove r t : landed r (context t) -> paired (context (removeCommittedAssistantMessage (message_of r) t)).
Proof. intros (base & Hc & Hb). cbn. rewrite Hc, (replace_last_app _ (message_of r)), app_nil_r by done. done. Qed.

Lemma landed_replace r r' t : landed r (context t) -> landed r' (replace_last_index (fst r) [message_of r'] (context t)).
Proof. intros (base & Hc & Hb). exists base. by rewrite Hc, (replace_last_app _ (message_of r)). Qed.

Lemma paired_repair f retained c :
  (forall b, same_shape b (fst (f b))) -> paired c -> paired (map (repair f retained) c).
Proof.
  intros Hf Hc. unfold paired. rewrite owes_map; [done|]. intros m. unfold repair. destruct (existsb _ retained); [apply Hf | apply same_shape_refl].
Qed.

Lemma made (m : Message) a : mbody m = assistant_message a -> message_of (mid m, a) = m.
Proof. intros Hm. unfold message_of. cbn. rewrite <- Hm. by destruct m. Qed.

(** ** The beginning of a turn *)

Lemma speaks_open P : speaks P open_turn (fun _ => P).
Proof. unfold open_turn. apply speaks_get. intros l0. destruct (firstTurn l0); auto with speaks. Qed.

Lemma speaks_deliver : speaks paired deliver (fun _ => paired).
Proof.
  unfold deliver. apply speaks_get. intros l0. apply (speaks_bind _ _ (fun _ => paired)); [|intros []; apply speaks_pending].
  apply (speaks_each deliver_one (fun _ => paired)). intros t _. unfold deliver_one.
  eapply speaks_bind; [apply speaks_make|]. intros m. cbv beta. eapply speaks_bind; [auto with speaks|]. intros [].
  apply speaks_talk. intros tk [Hc Hm]. by eapply paired_user.
Qed.

Lemma speaks_maintain : speaks paired maintain (fun _ => paired).
Proof.
  unfold maintain. apply speaks_get. intros l0. destruct maintainContext as [check|] eqn:Hcheck; [|auto with speaks].
  destruct (modelHasResponded l0 && negb (signal_aborted (host l0))); [|auto with speaks].
  eapply speaks_bind.
  { apply speaks_ask. intros h Ha. pose proof (maintenance_lasts check (context (talk l0)) Hcheck h Ha) as Hl.
    cbn in *. by destruct (check (context (talk l0)) h) as [[o r] h']. }
  intros [o r]. cbv beta. eapply speaks_bind; [apply speaks_aborted|]. intros b. cbv beta zeta.
  apply (speaks_bind _ _ (fun _ => paired)); [destruct (snd (o, r)); [|apply speaks_ret]|].
  { eapply speaks_bind; [by apply speaks_note|]. intros []. by apply speaks_talk. }
  intros []. destruct (bool_decide _); auto with speaks.
Qed.

(** ** The request *)

(** Between the events of a stream that is not going to be cut off. *)
Definition mid_stream (e : Ending) (partial : option Reply) (c : list Message) : Prop :=
  e <> cut_off /\ match partial with Some r => landed r c | None => paired c end.

Definition answered (r : (Reply + Failure) * bool) (c : list Message) : Prop :=
  match fst r with inl reply => landed reply c | inr _ => True end.

Lemma speaks_consume events e partial committed :
  proper (bool_decide (partial <> None)) events e = true ->
  speaks (mid_stream e partial) (consume events e partial committed) answered.
Proof.
  revert partial committed. induction events as [|ev events IH]; intros partial committed Hp; cbn [consume proper] in *.
  - destruct e as [a| |f]; [done| |].
    + intros l [Hlog [Ha|[He _]]]; [|done]. unfold emitAbortedAssistantMessage.
      destruct partial; (split; [exact Hlog | by left]).
    + intros l [Hlog _]. split; [exact Hlog | by right].
  - destruct ev as [a|a shows interrupted| |a].
    + apply andb_true_iff in Hp as [Hn Hp]. destruct partial; [done|].
      eapply speaks_bind; [apply speaks_make|]. intros m. cbv beta.
      apply (speaks_bind _ _ (fun _ => mid_stream e (Some (mid m, shown_partial a)))); [|intros []; by apply IH].
      apply speaks_talk. intros t [[He Hc] Hm]. split; [done|]. cbn [push_context context]. rewrite <- (made m _ Hm). by apply landed_push.
    + destruct partial as [r|]; [|by apply IH]. eapply speaks_bind; [apply speaks_make|]. intros m. cbv beta.
      apply (speaks_bind _ _ (fun _ => mid_stream e (Some (mid m, shown_partial a)))); [|intros []; by apply IH].
      apply speaks_talk. intros t [[He Hc] Hm]. split; [done|]. cbn [set_context context]. rewrite <- (made m _ Hm). by eapply landed_set_last.
    + by apply IH.
    + eapply speaks_bind; [apply speaks_make|]. intros m. cbv beta.
      apply (speaks_bind _ _ (fun _ => landed (mid m, finalMessage a))); [|intros [] l Hl; exact Hl].
      apply speaks_talk. intros t [[He Hc] Hm]. rewrite <- (made m _ Hm). destruct partial as [r|]; cbn [set_context push_context context].
      * by eapply landed_set_last.
      * by apply landed_push.
Qed.

Lemma speaks_stream synthetic mode : speaks paired (streamAssistantResponse synthetic mode) answered.
Proof.
  intros l [Hlog Hl]. unfold streamAssistantResponse. apply wp_bind. change (wp (is_aborted) ?Q ?E l) with (Q (signal_aborted (host l)) l).
  cbv beta. destruct (signal_aborted (host l)) eqn:Ha; [by split; [|left]|].
  destruct Hl as [Hl|Hl]; [congruence|]. apply wp_bind, wp_get. apply wp_bind.
  change (wp (note ?a) ?Q ?E l) with (Q tt (fst (note a l))). cbv beta. apply wp_bind. unfold wp at 1, ask. cbn [fst note host].
  destruct (responses_proper (context (talk l)) synthetic mode (host l)) as [Hp Hcut].
  pose proof (response_lasts (context (talk l)) synthetic mode (host l)) as _.
  destruct (respond (context (talk l)) synthetic mode (host l)) as [s h] eqn:Hr. cbn [fst snd] in *.
  apply speaks_consume; [exact Hp|]. split; cbn [log host talk].
  - apply Forall_app. split; [done|]. by constructor.
  - destruct (ending s) eqn:He; [right | left; by apply Hcut | right]; (split; [done | exact Hl]).
Qed.

Lemma speaks_choice P : speaks P getLogicalTurnToolChoice (fun _ => P).
Proof.
  unfold getLogicalTurnToolChoice. apply speaks_get. intros l0. destruct (escapedNonAsciiToolChoice _); [apply speaks_ret|].
  apply (speaks_bind _ _ (fun _ => P)); [apply speaks_ask, choice_lasts|]. intros c.
  apply (speaks_bind _ _ (fun _ => P)); [apply speaks_retries|]. intros []. apply speaks_ret.
Qed.

Lemma speaks_request r : speaks paired (request r) answered.
Proof.
  unfold request. apply (speaks_bind _ _ (fun _ => paired)); [apply speaks_recoveries|]. intros []. cbv zeta.
  apply (speaks_bind _ _ (fun _ => paired)); [|intros c; apply speaks_stream].
  repeat case_match; first [apply speaks_ret | apply speaks_choice | apply speaks_ask, choice_lasts].
Qed.

(** ** The response *)

Lemma speaks_failure {A} P n k f Q : speaks P (settle_failure (A := A) n k f) Q.
Proof. unfold settle_failure. repeat case_match; auto with speaks. Qed.

Lemma speaks_leak reply recovered committed : speaks (landed reply) (settle_leak recovered committed) landed.
Proof.
  unfold settle_leak. apply speaks_get. intros l0. destruct fallbackManaged; [auto with speaks|]. destruct recovered as [a|].
  - destruct (2 <=? _); [auto with speaks|]. apply (speaks_bind _ _ (fun _ => landed reply)); [auto with speaks|]. intros [].
    eapply speaks_bind; [apply speaks_make|]. intros m. cbv beta.
    apply (speaks_bind _ _ (fun _ => landed (mid m, a))); [|intros [] l Hl; exact Hl].
    apply speaks_talk. intros t [Hc Hm]. rewrite (landed_ends _ _ Hc). cbn [set_context context]. rewrite <- (made m a Hm). by eapply landed_set_last.
  - destruct (committed && _); [auto with speaks|].
    apply (speaks_bind _ _ (fun _ => landed reply)); [destruct committed; auto with speaks|]. intros [].
    destruct (2 <=? _); [auto with speaks|]. apply (speaks_bind _ _ (fun _ => landed reply)); [auto with speaks|]. intros [].
    apply (speaks_bind _ _ (fun _ => paired)); [apply speaks_talk; intros t; apply landed_drop|]. intros []. by apply speaks_again.
Qed.

Lemma speaks_receive n k r : speaks paired (receive n k r) (fun rc => landed (fst rc)).
Proof.
  unfold receive. eapply speaks_bind; [apply speaks_request|]. intros [[reply|f] committed]; cbn [fst snd]; unfold answered; cbn [fst]; [|apply speaks_failure].
  destruct (detectHarmonyLeak (snd reply)) as [recovered|].
  - eapply speaks_bind; [apply speaks_leak|]. intros reply' l Hl. exact Hl.
  - apply (speaks_bind _ _ (fun _ => landed reply)); [auto with speaks|]. intros [] l Hl. exact Hl.
Qed.

Lemma landed_repair f retained r t :
  (forall b, same_shape b (fst (f b))) -> landed r (context t) -> paired (context (drop_rejected (repair_talk f retained t))).
Proof.
  intros Hf (base & Hc & Hb). unfold drop_rejected. cbn [repair_talk context]. rewrite Hc, map_app. cbn [map].
  assert (Ha : exists a, mbody (repair f retained (message_of r)) = assistant_message a).
  { unfold repair. destruct (existsb _ retained); [|by eexists]. cbn [mbody message_of]. specialize (Hf (assistant_message (snd r))).
    destruct (fst (f _)); try done. by eexists. }
  destruct Ha as [a Ha]. unfold ends_with_assistant. rewrite map_app. cbn [map]. rewrite List.last_last, Ha. cbn [set_context context].
  rewrite removelast_last. by apply paired_repair.
Qed.

Lemma speaks_resend f r : (forall b, same_shape b (fst (f b))) -> speaks (landed r) (resend_repaired f) (fun _ => landed r).
Proof.
  intros Hf. unfold resend_repaired. apply speaks_get. intros l0. cbv zeta. destruct (existsb _ _); [|apply speaks_ret].
  apply (speaks_bind _ _ (fun _ => paired)); [apply speaks_talk; intros t; by apply landed_repair|]. intros []. by apply speaks_again.
Qed.

Lemma speaks_invalid_prompt a r : speaks (landed r) (repair_invalid_prompt a) (fun _ => landed r).
Proof.
  unfold repair_invalid_prompt. apply speaks_get. intros l0. destruct (_ && _); [|apply speaks_ret].
  apply (speaks_bind _ _ (fun _ => landed r)); [auto with speaks|]. intros []. apply speaks_resend, neutralize_shape.
Qed.
Lemma speaks_reasoning a r : speaks (landed r) (repair_reasoning a) (fun _ => landed r).
Proof.
  unfold repair_reasoning. apply speaks_get. intros l0. destruct (_ && _); [|apply speaks_ret].
  apply (speaks_bind _ _ (fun _ => landed r)); [auto with speaks|]. intros []. apply speaks_resend, strip_shape.
Qed.

Lemma speaks_amend r f : (forall a, call_ids (f a) = call_ids a) -> speaks (landed r) (amend r f) landed.
Proof.
  intros Hf. unfold amend. apply (speaks_bind _ _ (fun _ => landed (fst r, f (snd r)))); [|intros [] l Hl; exact Hl].
  apply speaks_talk. intros t. by apply landed_mutate.
Qed.

Lemma speaks_resample n k recovery reply committed :
  speaks (landed reply) (resample_escaped n k recovery reply committed) (fun _ => landed reply).
Proof.
  unfold resample_escaped. apply speaks_get. intros l0. cbv zeta. destruct (_ && _); [|apply speaks_ret].
  apply (speaks_bind _ _ (fun _ => landed reply)); [auto with speaks|]. intros [].
  apply (speaks_bind _ _ (fun _ => landed reply)); [destruct fallbackManaged; auto with speaks|]. intros [].
  eapply speaks_bind; [apply speaks_amend, call_ids_strip|]. intros reply'. cbv beta.
  apply (speaks_bind _ _ (fun _ => paired)); [apply speaks_talk; intros t; apply landed_remove|]. intros [].
  destruct fallbackManaged; [auto with speaks|]. apply speaks_get. intros l1.
  apply (speaks_bind _ _ (fun _ => paired)); [destruct (_ || _); auto with speaks|]. intros []. by apply speaks_again.
Qed.

Lemma speaks_strip reply : speaks (landed reply) (strip_if_bad reply) landed.
Proof. unfold strip_if_bad. destruct (ended_badly _); [apply speaks_amend, call_ids_strip | intros l Hl; exact Hl]. Qed.

Lemma speaks_accept n k reply : speaks (landed reply) (accept_response n k reply) landed.
Proof.
  unfold accept_response. cbv zeta. destruct (fallbackManaged && _).
  { eapply speaks_bind; [apply speaks_amend, call_ids_strip|]. intros r. auto with speaks. }
  apply (speaks_bind _ _ (fun _ => landed reply)); [by apply speaks_talk|]. intros [].
  apply (speaks_bind _ _ (fun _ => landed reply)); [auto with speaks|]. intros [].
  apply (speaks_bind _ _ landed); [destruct (_ && _); [by apply speaks_amend | intros l Hl; exact Hl]|]. intros r. cbv beta.
  destruct (_ && _); [auto with speaks|]. destruct (_ && _); [auto with speaks|]. destruct fallbackManaged.
  - eapply speaks_bind; [apply speaks_make|]. intros m. cbv beta.
    apply (speaks_bind _ _ (fun _ => landed (mid m, managedShell (snd r)))).
    + apply speaks_talk. intros t [Hc Hm]. cbn [context]. rewrite (landed_ends _ _ Hc). rewrite <- (made m _ Hm). by eapply landed_set_last.
    + intros []. apply (speaks_bind _ _ (fun _ => landed (mid m, managedShell (snd r)))); [auto with speaks|]. intros [] l Hl. exact Hl.
  - eapply speaks_bind; [apply speaks_make|]. intros m. cbv beta.
    apply (speaks_bind _ _ (fun _ => landed (mid m, acceptedSnapshot (snd r)))).
    { apply speaks_talk. intros t [Hc Hm]. cbn [context]. rewrite <- (made m _ Hm). by apply landed_replace. }
    intros []. apply (speaks_bind _ _ (fun _ => landed (mid m, acceptedSnapshot (snd r)))); [auto with speaks|]. intros stopped.
    apply (speaks_bind _ _ (fun _ => landed (mid m, acceptedSnapshot (snd r)))).
    { destruct (ended_badly _); [apply speaks_ret|]. eapply speaks_bind; [apply speaks_host, drain_lasts|]. intros [].
      eapply speaks_bind; [apply speaks_aborted|]. intros b l Hl. exact Hl. }
    intros drained. eapply speaks_bind; [|intros r'; cbv beta; eapply speaks_bind; [apply speaks_strip|]].
    + destruct (_ && _); [by apply speaks_amend | intros l Hl; exact Hl].
    + intros r''. cbv beta. apply (speaks_bind _ _ (fun _ => landed r'')); [auto with speaks|]. intros [] l Hl. exact Hl.
Qed.

(** ** Tools *)

Definition owing (cs : list jstr) (c : list Message) : Prop := owes [] c = Some cs.

Lemma speaks_keep r cs : speaks (owing (result_of r :: cs)) (keep_result r) (fun _ => owing cs).
Proof.
  unfold keep_result. eapply speaks_bind; [apply speaks_make|]. intros m. cbv beta. apply speaks_talk. intros t [Hc Hm].
  unfold owing in *. cbn [push_both push_new push_context context]. rewrite owes_app, Hc. cbn [owes]. unfold owe. rewrite Hm.
  by rewrite bool_decide_eq_true_2.
Qed.

Lemma speaks_keep_all rs : speaks (owing (map result_of rs)) (each keep_result rs) (fun _ => paired).
Proof. apply (speaks_each keep_result (fun rs => owing (map result_of rs))). intros r rs'. apply speaks_keep. Qed.

Lemma speaks_placeholders b text calls : speaks (owing (map call_id calls)) (each (placeholder b text) calls) (fun _ => paired).
Proof.
  apply (speaks_each (placeholder b text) (fun calls => owing (map call_id calls))). intros c calls'. unfold placeholder.
  apply (speaks_bind _ _ (fun _ => owing (map call_id (c :: calls')))); [auto with speaks|]. intros [].
  apply (speaks_keep (createAbortedToolResult c b text)).
Qed.

Lemma speaks_end_badly reply Q : speaks (landed reply) (end_badly reply) Q.
Proof.
  unfold end_badly. eapply speaks_bind; [apply speaks_amend, call_ids_strip|]. intros r. cbv beta zeta.
  apply (speaks_bind _ _ (fun _ => paired)).
  { apply (speaks_mono _ _ _ _ _ (speaks_placeholders _ _ _)); [|done]. intros c Hc. exact (landed_owes r c Hc). }
  intros []. apply (speaks_bind _ _ (fun _ => paired)); auto with speaks.
Qed.

Lemma speaks_dispatch b reply : speaks (landed reply) (dispatch b reply) (fun _ => paired).
Proof.
  unfold dispatch. cbv zeta. apply (speaks_bind _ _ (fun _ => owing (call_ids (snd reply)))).
  { apply (speaks_mono _ _ _ _ _ (speaks_more (owing (call_ids (snd reply))) _)); [|done]. intros c Hc. exact (landed_owes reply c Hc). }
  intros []. destruct (bool_decide (open_calls (snd reply) = [])) eqn:Hn.
  - apply bool_decide_eq_true in Hn. apply (speaks_mono _ _ _ _ _ (speaks_ret paired no_tools)); [|done].
    intros c. unfold call_ids, owing, paired. by rewrite Hn.
  - destruct b.
    + apply (speaks_bind _ _ (fun _ => paired)); [apply speaks_placeholders|]. intros []. apply speaks_ret.
    + unfold run_tools. apply speaks_get. intros l0. apply (speaks_bind _ _ (fun _ => owing (call_ids (snd reply)))); [auto with speaks|]. intros [].
      intros l [Hlog Hl]. apply wp_bind. unfold wp at 1, ask.
      pose proof (tools_answer (context (talk l0)) (snd reply) (host l)) as Hans.
      pose proof (tools_last (context (talk l0)) (snd reply) (host l)) as Hlast. cbv beta in Hlast.
      destruct (executeToolCalls _ _ (host l)) as [batch h]. cbn [fst snd] in *. cbv zeta. rewrite <- Hans in Hl.
      assert (Hs : speaks (owing (map result_of (toolResults batch))) (each keep_result (toolResults batch)) (fun _ => paired)) by apply speaks_keep_all.
      apply wp_bind. unfold wp at 1, on_recoveries. apply wp_bind. eapply wp_mono; [apply Hs | | done].
      * split; [exact Hlog|]. cbn. destruct Hl as [Ha|Hp]; [left; by apply Hlast | by right].
      * intros [] l' Hl'. exact Hl'.
Qed.

Lemma paired_amend (reply : Reply) f t : (forall a, call_ids (f a) = call_ids a) -> paired (context t) -> paired (context (mutate (fst reply) (on_assistant f) t)).
Proof. intros Hf Hc. unfold paired. cbn [mutate context]. rewrite owes_map; [done|]. intros m. by apply change_shape. Qed.

Lemma speaks_fail reply text : speaks paired (amend reply (fail_message text)) (fun _ => paired).
Proof.
  unfold amend. apply (speaks_bind _ _ (fun _ => paired)); [apply speaks_talk; intros t; by apply paired_amend|]. intros [] l Hl. exact Hl.
Qed.

Lemma speaks_steer ms abandon : speaks paired abandon (fun _ => paired) -> speaks paired (steer ms abandon) (fun _ => paired).
Proof.
  intros Hab. unfold steer. apply (speaks_bind _ _ (fun _ => paired)); [auto with speaks|]. intros [|].
  - apply (speaks_bind _ _ (fun _ => paired)); [auto with speaks|]. intros [].
    apply (speaks_bind _ _ (fun _ => paired)); [apply speaks_host, requeue_lasts|]. intros [].
    apply (speaks_bind _ _ (fun _ => paired)); [done|]. intros []. by apply speaks_again.
  - apply (speaks_bind _ _ (fun _ => paired)); [auto with speaks|]. intros []. by apply speaks_again.
Qed.

Lemma speaks_recover reply x : speaks paired (recover reply x) (fun _ => paired).
Proof.
  unfold recover. apply speaks_get. intros l0. cbv zeta. destruct (_ && _).
  { apply (speaks_bind _ _ (fun _ => paired)); auto with speaks. }
  destruct (policyBlocked x); [eapply speaks_bind; [apply speaks_fail | intros r; auto with speaks]|].
  destruct (_ && _); [apply (speaks_bind _ _ (fun _ => paired)); auto with speaks|].
  destruct (_ <=? _); [eapply speaks_bind; [apply speaks_fail | intros r; auto with speaks] | apply speaks_ret].
Qed.

Lemma speaks_close reply x : speaks paired (close_turn reply x) (fun _ => paired).
Proof.
  unfold close_turn. apply (speaks_bind _ _ (fun _ => paired)); [auto with speaks|]. intros [].
  destruct (bool_decide _); [apply speaks_steer, speaks_ret|].
  apply (speaks_bind _ _ (fun _ => paired)); [apply speaks_ask, steering_lasts|]. intros ms.
  destruct (bool_decide _); [apply speaks_steer; auto with speaks|].
  apply (speaks_bind _ _ (fun _ => paired)); [auto with speaks|]. intros [].
  apply (speaks_bind _ _ (fun _ => paired)); [apply speaks_ask, pause_lasts|]. intros [|]; [auto with speaks | apply speaks_recover].
Qed.

Lemma speaks_iterate : speaks paired iterate (fun _ => paired).
Proof.
  unfold iterate. apply (speaks_bind _ _ (fun _ => paired)); [apply speaks_open|]. intros [].
  apply (speaks_bind _ _ (fun _ => paired)); [apply speaks_deliver|]. intros [].
  apply (speaks_bind _ _ (fun _ => paired)); [apply speaks_maintain|]. intros [].
  apply (speaks_bind _ _ (fun _ => paired)); [apply speaks_host, sync_lasts|]. intros []. apply speaks_get. intros l0. cbv zeta.
  eapply speaks_bind; [apply speaks_receive|]. intros [reply committed]. cbn [fst].
  apply (speaks_bind _ _ (fun _ => landed reply)); [apply speaks_invalid_prompt|]. intros [].
  apply (speaks_bind _ _ (fun _ => landed reply)); [apply speaks_reasoning|]. intros [].
  apply (speaks_bind _ _ (fun _ => landed reply)); [apply speaks_resample|]. intros [].
  eapply speaks_bind; [apply speaks_strip|]. intros r1. cbv beta.
  apply (speaks_bind _ _ (fun _ => landed r1)); [auto with speaks|]. intros [].
  eapply speaks_bind; [apply speaks_accept|]. intros r2. cbv beta.
  apply (speaks_bind _ _ (fun _ => landed r2)).
  { destruct (_ && _); [|apply speaks_ret]. apply (speaks_bind _ _ (fun _ => landed r2)); [apply speaks_host, accepted_lasts|]. intros []. auto with speaks. }
  intros []. destruct (ended_badly _); [apply speaks_end_badly|].
  apply (speaks_bind _ _ (fun _ => paired)); [apply speaks_dispatch|]. intros x.
  apply (speaks_bind _ _ (fun _ => paired)); [destruct (bool_decide _); auto with speaks|]. intros []. apply speaks_close.
Qed.

Lemma speaks_before_yield : speaks paired before_yield (fun _ => paired).
Proof.
  unfold before_yield. apply (speaks_bind _ _ (fun _ => paired)); [apply speaks_host, yield_lasts|]. intros [].
  apply (speaks_bind _ _ (fun _ => paired)); [apply speaks_ask, pause_lasts|]. intros [|]; [auto with speaks|].
  apply (speaks_bind _ _ (fun _ => paired)); [apply speaks_ask, synthetic_lasts|]. intros syn.
  apply (speaks_bind _ _ (fun _ => paired)); [apply speaks_ask, followup_lasts|]. intros ms.
  destruct (bool_decide _); [auto with speaks|]. destruct syn; auto with speaks.
Qed.

Definition speaking (s : Loop H * Place) : Prop :=
  match snd s with over _ => Forall asked_well (log (fst s)) | _ => says paired (fst s) end.

Lemma speaking_step l p : speaking (l, p) -> speaking (step l p).
Proof.
  destruct p as [| |e]; cbn [step]; intros Hl; [| |exact Hl].
  - destruct (goes_on l); [|exact Hl]. pose proof (speaks_iterate l Hl) as Hi. unfold wp in Hi.
    destruct (iterate l) as [l' [[]|e]]; [exact Hi|]. destruct e; exact Hi.
  - pose proof (speaks_before_yield l Hl) as Hi. unfold wp in Hi. destruct (before_yield l) as [l' [[]|e]]; [exact Hi|].
    unfold speaking. cbn [fst snd]. destruct e; cbn in Hi; [apply Hi | apply Hi | exact Hi | exact Hi].
Qed.

Lemma speaking_steps n s : speaking s -> speaking (steps n s).
Proof. revert s. induction n as [|n IH]; intros [l p] Hs; [exact Hs|]. apply IH. exact (speaking_step l p Hs). Qed.

(** C1. What the provider is asked is always paired: from a paired context, every request of the run, after whatever leaks,
    repairs, resamples, truncations, steering, failures and tools, has each assistant message followed by exactly the results
    of its calls, in order; so has the context whenever the loop is between iterations, unless the signal is aborted. *)
Theorem requests_are_paired h t n :
  paired (context t) ->
  let '(l, p) := steps n (runLoopBody h t) in
  (forall c synthetic tools, a_request c synthetic tools ∈ log l -> paired c)
  /\ (match p with over _ => True | _ => signal_aborted (host l) = false -> paired (context (talk l)) end).
Proof.
  intros Ht. assert (Hs : speaking (steps n (runLoopBody h t))).
  { apply speaking_steps. unfold runLoopBody. destruct (getSteeringMessages h). split; [constructor | by right]. }
  destruct (steps n (runLoopBody h t)) as [l p]. unfold speaking in Hs. cbn [fst snd] in Hs.
  assert (Hlog : Forall asked_well (log l)) by (destruct p; [apply Hs | apply Hs | exact Hs]). split.
  - intros c s m Hin. rewrite Forall_forall in Hlog. exact (Hlog _ Hin).
  - destruct p; [..|done]; (intros Ha; destruct Hs as [_ [Ha'|Hp]]; [congruence | done]).
Qed.
End ask.
