(* ===== verification/AgentLoopStops.v ===== *)
(** * An aborted run asks and executes nothing more, and ends; a request is made again a few times only *)
From S2P Require Import Prelude.
From S2P Require Import AgentLoop.
From S2P Require Import AgentLoopProofs.
From S2P Require Import AgentLoopPairs.
#[local] Open Scope Z_scope.
#[local] Open Scope js_scope.

(** ** Aborts *)

Section stops.
Context {H : Type} `{!Host H} `{!HostLaws H}.

(** What costs something: a request, or tools. *)
Definition works (a : Action) : bool := match a with a_request _ _ _ | a_tools _ => true | _ => false end.
Context (done_before : list Action).

Definition idle (l : Loop H) : Prop := signal_aborted (host l) = true /\ List.filter works (log l) = done_before.
Definition rests (e : Exit) (l : Loop H) : Prop := e = finished /\ List.filter works (log l) = done_before.

Definition stays {A} (m : SM (Loop H) Exit A) (Q : A -> Prop) : Prop :=
  forall l, idle l -> wp m (fun a l' => idle l' /\ Q a) rests l.

Definition any {A} (_ : A) : Prop := True.

Lemma stays_ret {A} (a : A) (Q : A -> Prop) : Q a -> stays (mret a) Q.
Proof. intros HQ l Hl. by split. Qed.
Lemma stays_seq {A B} (m : SM (Loop H) Exit A) Q (k : A -> SM (Loop H) Exit B) R :
  stays m Q -> (forall a, Q a -> stays (k a) R) -> stays (m ≫= k) R.
Proof. intros Hm Hk l Hl. apply wp_bind. eapply wp_mono; [by apply Hm | | done]. intros a l' [Hl' Ha]. by apply Hk. Qed.
Lemma stays_mono {A} (m : SM (Loop H) Exit A) (Q Q' : A -> Prop) : stays m Q -> (forall a, Q a -> Q' a) -> stays m Q'.
Proof. intros Hm HQ l Hl. eapply wp_mono; [by apply Hm | | done]. intros a l' [Hl' Ha]. split; [done | by apply HQ]. Qed.
Lemma stays_get {A} (k : Loop H -> SM (Loop H) Exit A) Q :
  (forall l0, signal_aborted (host l0) = true -> stays (k l0) Q) -> stays (get_state ≫= k) Q.
Proof. intros Hk l Hl. apply wp_bind, wp_get. apply Hk; [apply Hl | done]. Qed.
Lemma stays_host f : lasts f -> stays (on_host f) any.
Proof. intros Hf l [Ha Hlog]. split; [|done]. split; [by apply Hf | done]. Qed.
Lemma stays_ask {A} (f : H -> A * H) : lasts (fun h => snd (f h)) -> stays (ask f) any.
Proof.
  intros Hf l [Ha Hlog]. unfold wp, ask. specialize (Hf (host l) Ha). cbv beta in Hf. destruct (f (host l)) as [a h]. by split; [split|].
Qed.
Lemma stays_note a : works a = false -> stays (note a) any.
Proof. intros Hw l [Ha Hlog]. split; [|done]. split; [done|]. cbn [note fst log]. rewrite List.filter_app, Hlog. cbn. by rewrite Hw, app_nil_r. Qed.
Lemma stays_talk f : stays (on_talk f) any.
Proof. intros l Hl. by split. Qed.
Lemma stays_retries f : stays (on_retries f) any.
Proof. intros l Hl. by split. Qed.
Lemma stays_recoveries f : stays (on_recoveries f) any.
Proof. intros l Hl. by split. Qed.
Lemma stays_pending ms : stays (set_pending ms) any.
Proof. intros l Hl. by split. Qed.
Lemma stays_first : stays set_first any.
Proof. intros l Hl. by split. Qed.
Lemma stays_responded : stays set_responded any.
Proof. intros l Hl. by split. Qed.
Lemma stays_make b : stays (make b) any.
Proof. intros l Hl. by split. Qed.
Lemma stays_aborted : stays is_aborted (fun b => b = true).
Proof. intros l Hl. split; [done|]. apply Hl. Qed.
Lemma stays_amend r f : stays (amend r f) (fun r' => r' = (fst r, f (snd r))).
Proof. intros l Hl. by split. Qed.
Lemma stays_each {A} (f : A -> SM (Loop H) Exit unit) xs : (forall x, stays (f x) any) -> stays (each f xs) any.
Proof.
  intros Hf l Hl. eapply wp_mono; [apply (wp_each f (fun _ => idle)); [|done] | by split | done].
  intros x xs' l' Hl'. eapply wp_mono; [by apply Hf | | done]. by intros [] l'' [? _].
Qed.
Lemma stays_end {A} r Q : stays (end_agent (A := A) r) Q.
Proof.
  intros l [_ Hlog]. change (rests finished (fst (note (a_end (newMessages (talk l))) (fst (note (a_agent_end r) l))))). split; [done|].
  cbn [note fst log]. by rewrite !List.filter_app, Hlog, !app_nil_r.
Qed.
Lemma stays_report {A} n k o Q : stays (report (A := A) n k o) Q.
Proof.
  intros l [_ Hlog].
  change (rests finished (mkLoop (onManagedAttemptOutcome o (host l)) (truncate n k (talk l)) (firstTurn l) (hasMoreToolCalls l) (pendingMessages l)
    (modelHasResponded l) (retries l) (recoveries l) (((log l ++ [a_discard]) ++ [a_outcome o]) ++ [a_end (take k (newMessages (talk l)))]))).
  split; [done|]. cbn [log]. by rewrite !List.filter_app, Hlog, !app_nil_r.
Qed.

Lemma stays_open : stays open_turn any.
Proof. unfold open_turn. apply stays_get. intros l0 _. destruct (firstTurn l0); [apply stays_first | by apply stays_note]. Qed.

Lemma stays_deliver : stays deliver any.
Proof.
  unfold deliver. apply stays_get. intros l0 _. apply (stays_seq _ any); [|intros [] _; apply stays_pending].
  apply stays_each. intros t. unfold deliver_one. apply (stays_seq _ any); [apply stays_make|]. intros m _.
  apply (stays_seq _ any); [by apply stays_note|]. intros [] _. apply stays_talk.
Qed.

Lemma stays_maintain : stays maintain any.
Proof.
  unfold maintain. apply stays_get. intros l0 Ha. destruct maintainContext; [|by apply stays_ret]. rewrite Ha, andb_false_r. by apply stays_ret.
Qed.

Definition gives_up (rc : Reply * bool) : Prop := snd (fst rc) = abortedMessage None.

Lemma stays_receive n k r : stays (receive n k r) gives_up.
Proof.
  unfold receive. apply (stays_seq _ (fun x => match fst x with inl reply => snd reply = abortedMessage None | inr _ => False end)).
  - unfold request. apply (stays_seq _ any); [apply stays_recoveries|]. intros [] _. cbv zeta. apply (stays_seq _ any).
    { assert (Hc : stays getLogicalTurnToolChoice any).
      { unfold getLogicalTurnToolChoice. apply stays_get. intros l0 _. destruct (escapedNonAsciiToolChoice _); [by apply stays_ret|].
        apply (stays_seq _ any); [apply stays_ask, choice_lasts|]. intros c _.
        apply (stays_seq _ any); [apply stays_retries|]. intros [] _. by apply stays_ret. }
      repeat case_match; first [by apply stays_ret | exact Hc | apply stays_ask, choice_lasts]. }
    intros c _. unfold streamAssistantResponse. apply (stays_seq _ (fun b => b = true)); [apply stays_aborted|]. intros b ->.
    unfold emitAbortedAssistantMessage. intros l Hl. by split.
  - intros [[reply|f] committed]; cbn [fst snd]; [|done]. intros Hr. rewrite Hr, nothing_leaks.
    apply (stays_seq _ any); [apply stays_retries|]. intros [] _. by apply stays_ret.
Qed.

Lemma stays_accept n k reply :
  snd reply = abortedMessage None -> stays (accept_response n k reply) (fun r => fallbackManaged = false /\ stopReason (snd r) = aborted).
Proof.
  intros Hr. unfold accept_response. cbv zeta. rewrite Hr. unfold managedContextOverflow.
  destruct fallbackManaged eqn:Hm; cbn [andb negb].
  - change (bool_decide (stopReason (abortedMessage None) = error)) with false. cbn [negb].
    apply (stays_seq _ any); [apply stays_talk|]. intros [] _. apply (stays_seq _ any); [apply stays_responded|]. intros [] _.
    apply (stays_seq _ (fun r => r = reply)); [by apply stays_ret|]. intros r ->. rewrite Hr. apply stays_report.
  - apply (stays_seq _ any); [apply stays_talk|]. intros [] _. apply (stays_seq _ any); [apply stays_responded|]. intros [] _.
    apply (stays_seq _ (fun r => r = reply)); [by apply stays_ret|]. intros r ->. rewrite Hr.
    assert (Hs : stopReason (acceptedSnapshot (abortedMessage None)) = aborted) by apply snapshot_keeps_stop.
    assert (Hb : ended_badly (acceptedSnapshot (abortedMessage None)) = true) by (unfold ended_badly; by rewrite Hs).
    apply (stays_seq _ any); [apply stays_make|]. intros m _. apply (stays_seq _ any); [apply stays_talk|]. intros [] _.
    apply (stays_seq _ any); [by apply (stays_mono _ _ _ stays_aborted)|]. intros b _.
    cbn [snd]. rewrite Hb. cbn [negb andb]. apply (stays_seq _ any); [by apply stays_ret|]. intros d _.
    apply (stays_seq _ (fun r => stopReason (snd r) = aborted)); [by apply stays_ret|]. intros r1 H1.
    apply (stays_seq _ (fun r => stopReason (snd r) = aborted)).
    { unfold strip_if_bad. destruct (ended_badly (snd r1)); [|by apply stays_ret]. apply (stays_mono _ _ _ (stays_amend _ _)). by intros r2 ->. }
    intros r2 H2. apply (stays_seq _ any); [by apply stays_note|]. intros [] _. by apply stays_ret.
Qed.

Lemma stays_end_badly reply Q : stays (end_badly reply) Q.
Proof.
  unfold end_badly. apply (stays_seq _ any); [by apply (stays_mono _ _ _ (stays_amend _ _))|]. intros r _. cbv zeta.
  apply (stays_seq _ any).
  { apply stays_each. intros c. unfold placeholder, keep_result. apply (stays_seq _ any); [by apply stays_note|]. intros [] _.
    apply (stays_seq _ any); [apply stays_make|]. intros m _. apply stays_talk. }
  intros [] _. apply (stays_seq _ any); [by apply stays_note|]. intros [] _. apply stays_end.
Qed.

(** An iteration on an aborted signal ends the run. *)
Lemma stays_iterate : stays iterate (fun _ => False).
Proof.
  unfold iterate. apply (stays_seq _ any); [apply stays_open|]. intros [] _. apply (stays_seq _ any); [apply stays_deliver|]. intros [] _.
  apply (stays_seq _ any); [apply stays_maintain|]. intros [] _. apply (stays_seq _ any); [apply stays_host, sync_lasts|]. intros [] _.
  apply stays_get. intros l0 _. cbv zeta. apply (stays_seq _ gives_up); [apply stays_receive|]. intros [reply committed]. unfold gives_up. cbn [fst]. intros Hr.
  assert (Hrep : stays (repair_invalid_prompt (snd reply)) any /\ stays (repair_reasoning (snd reply)) any).
  { unfold repair_invalid_prompt, repair_reasoning. rewrite Hr. change (bool_decide (stopReason (abortedMessage None) = error)) with false.
    rewrite !andb_false_r. split; apply stays_get; intros l1 _; by apply stays_ret. }
  apply (stays_seq _ any); [apply Hrep|]. intros [] _. apply (stays_seq _ any); [apply Hrep|]. intros [] _.
  apply (stays_seq _ any).
  { unfold resample_escaped. rewrite Hr. apply stays_get. intros l1 _. by apply stays_ret. }
  intros [] _. apply (stays_seq _ (fun r => snd r = abortedMessage None)).
  { unfold strip_if_bad. rewrite Hr. apply (stays_mono _ _ _ (stays_amend _ _)). intros r ->. cbn [snd]. by rewrite Hr. }
  intros r1 H1. apply (stays_seq _ any); [apply stays_retries|]. intros [] _.
  eapply stays_seq; [by apply stays_accept|]. intros r2 [Hm H2]. rewrite Hm. cbn [andb].
  apply (stays_seq _ any); [by apply stays_ret|]. intros [] _.
  assert (Hb : ended_badly (snd r2) = true) by (unfold ended_badly; by rewrite H2). rewrite Hb. apply stays_end_badly.
Qed.

Lemma stays_before_yield : stays before_yield any.
Proof.
  unfold before_yield. apply (stays_seq _ any); [apply stays_host, yield_lasts|]. intros [] _.
  apply (stays_seq _ any); [apply stays_ask, pause_lasts|]. intros [|] _; [apply stays_end|].
  apply (stays_seq _ any); [apply stays_ask, synthetic_lasts|]. intros syn _.
  apply (stays_seq _ any); [apply stays_ask, followup_lasts|]. intros ms _.
  destruct (bool_decide _); [apply stays_pending|]. destruct syn; [apply stays_recoveries | apply stays_end].
Qed.

Lemma stops_inner l : idle l -> goes_on l = true -> exists l', step l inner = (l', over finished) /\ List.filter works (log l') = done_before.
Proof.
  intros Hl Hg. cbn [step]. rewrite Hg. pose proof (stays_iterate l Hl) as Hi. unfold wp in Hi.
  destruct (iterate l) as [l' [[]|e]]; [by destruct Hi|]. destruct Hi as [-> Hi]. by exists l'.
Qed.

Lemma stops_outer l : idle l ->
  (exists l', step l outer = (l', over finished) /\ List.filter works (log l') = done_before)
  \/ (exists l', step l outer = (l', inner) /\ idle l' /\ goes_on l' = true).
Proof.
  intros Hl. cbn [step]. pose proof (stays_before_yield l Hl) as Hi. unfold wp in Hi.
  destruct (before_yield l) as [l' [[]|e]]; [right | left; destruct Hi as [-> Hi]; by exists l'].
  exists (fst (set_more true l')). split; [done|]. split; [apply Hi | done].
Qed.
End stops.

Section aborts.
Context {H : Type} `{!Host H} `{!HostLaws H}.

(** C14. An abort ends the run: wherever a run is when its signal is aborted, three steps later it is over, in the ordinary way, and
    no request was made and no tool was run in between; so a turn that user input still opens is answered by nothing. *)
Theorem abort_ends_the_run l p :
  signal_aborted (host l) = true -> (forall e, p <> over e) ->
  let '(l', p') := steps 3 (l, p) in
  p' = over finished /\ List.filter works (log l') = List.filter works (log l).
Proof.
  intros Ha Hp. set (before := List.filter works (log l)). assert (Hl : idle before l) by (by split).
  assert (Hinner : forall l, idle before l -> goes_on l = true -> exists l', step l inner = (l', over finished) /\ List.filter works (log l') = before)
    by (intros; by apply stops_inner).
  assert (Houter : forall l, idle before l -> exists l', steps 2 (l, outer) = (l', over finished) /\ List.filter works (log l') = before).
  { intros l1 Hl1. cbn [steps fst snd]. destruct (stops_outer before l1 Hl1) as [(l' & Hs & Hw)|(l' & Hs & Hl' & Hg)].
    - exists l'. rewrite Hs. by split.
    - rewrite Hs. cbn [fst snd]. destruct (Hinner l' Hl' Hg) as (l'' & Hs' & Hw). rewrite Hs'. by exists l''. }
  destruct p as [| |e]; [| |by edestruct Hp].
  - destruct (goes_on l) eqn:Hg.
    + destruct (Hinner l Hl Hg) as (l' & Hs & Hw). cbn [steps fst snd]. rewrite Hs. by split.
    + assert (Hs : step l inner = (l, outer)) by (cbn [step]; by rewrite Hg). destruct (Houter l Hl) as (l' & Hs2 & Hw).
      change (steps 3 (l, inner)) with (steps 2 (step l inner)). rewrite Hs, Hs2. by split.
  - destruct (Houter l Hl) as (l' & Hs2 & Hw). change (steps 3 (l, outer)) with (steps 1 (steps 2 (l, outer))). rewrite Hs2. by split.
Qed.
End aborts.

(** ** Requests that are made again *)

(** ** What is left of the budgets *)

Definition b2z (b : bool) : Z := if b then 1 else 0.
(** Repairs and resamples; each lets the harmony retries begin anew. *)
Definition repairs_left (r : Retries) : Z :=
  (MAX_ESCAPED_NONASCII_RESAMPLES - escapedNonAsciiResampleAttempt r) + b2z (negb (invalidPromptRepairAttempted r))
  + b2z (negb (reasoningContentRepairAttempted r)).
Definition budget (r : Retries) : Z := (2 - harmonyRetryAttempt r) + 3 * repairs_left r.
Definition in_budget (r : Retries) : Prop :=
  0 <= harmonyRetryAttempt r <= 2 /\ 0 <= escapedNonAsciiResampleAttempt r <= MAX_ESCAPED_NONASCII_RESAMPLES.

Lemma budget_bounds r : in_budget r -> 0 <= budget r <= 14.
Proof. unfold in_budget, budget, repairs_left, MAX_ESCAPED_NONASCII_RESAMPLES, b2z. intros. repeat case_match; lia. Qed.

Definition is_turn_end (a : Action) : bool := match a with a_turn_end _ _ => true | _ => false end.
Definition turns (g : list Action) : Z := zlen (List.filter is_turn_end g).

Section resends.
Context {H : Type} `{!Host H}.
Context (r0 : Retries) (n0 : Z).

Definition paid (r : Retries) (n : Z) : Prop := in_budget r /\ n0 <= n /\ (budget r < budget r0 \/ n0 < n).

Definition leaves (e : Exit) (l : Loop H) : Prop :=
  match e with again | leave => paid (retries l) (turns (log l)) | _ => True end.

Definition pays {A} (P : Retries -> Z -> Prop) (m : SM (Loop H) Exit A) (Q : Retries -> Z -> Prop) : Prop :=
  forall l, P (retries l) (turns (log l)) -> wp m (fun _ l' => Q (retries l') (turns (log l'))) leaves l.

Lemma pays_ret {A} P (a : A) : pays P (mret a) P.
Proof. intros l Hl. exact Hl. Qed.
Lemma pays_mono {A} (P P' : Retries -> Z -> Prop) (m : SM (Loop H) Exit A) (Q Q' : Retries -> Z -> Prop) :
  pays P m Q -> (forall r n, P' r n -> P r n) -> (forall r n, Q r n -> Q' r n) -> pays P' m Q'.
Proof. intros Hm HP HQ l Hl. eapply wp_mono; [by apply Hm, HP | | done]. intros a l'. apply HQ. Qed.
Lemma pays_bind {A B} P (m : SM (Loop H) Exit A) Q (k : A -> SM (Loop H) Exit B) R :
  pays P m Q -> (forall a, pays Q (k a) R) -> pays P (m ≫= k) R.
Proof. intros Hm Hk l Hl. apply wp_bind. eapply wp_mono; [by apply Hm | | done]. intros a l'. apply Hk. Qed.
Lemma pays_stop {A} P Q e : e = thrown \/ e = finished -> pays P (throw (A := A) e) Q.
Proof. by intros [-> | ->] l Hl. Qed.
Lemma pays_again {A} (P : Retries -> Z -> Prop) Q e : (forall r n, P r n -> paid r n) -> pays P (throw (A := A) e) Q.
Proof. intros HP l Hl. destruct e; [by apply HP | by apply HP | done | done]. Qed.
Lemma pays_get P : pays P get_state P.
Proof. intros l Hl. exact Hl. Qed.
Lemma pays_get_bind {A} (P : Retries -> Z -> Prop) (k : Loop H -> SM (Loop H) Exit A) Q :
  (forall l0, pays (fun r n => P r n /\ r = retries l0) (k l0) Q) -> pays P (get_state ≫= k) Q.
Proof. intros Hk l Hl. apply wp_bind, wp_get. apply Hk. by split. Qed.
Lemma pays_each {A} P (f : A -> SM (Loop H) Exit unit) xs : (forall x, pays P (f x) P) -> pays P (each f xs) P.
Proof. intros Hf l Hl. apply (wp_each f (fun _ l => P (retries l) (turns (log l)))); [|done]. intros x xs' l' Hl'. by apply Hf. Qed.
Lemma pays_host P f : pays P (on_host f) P.
Proof. intros l Hl. exact Hl. Qed.
Lemma pays_ask {A} P (f : H -> A * H) : pays P (ask f) P.
Proof. intros l Hl. unfold wp, ask. by destruct (f (host l)). Qed.
Lemma pays_talk P f : pays P (on_talk f) P.
Proof. intros l Hl. exact Hl. Qed.
Lemma pays_recoveries P f : pays P (on_recoveries f) P.
Proof. intros l Hl. exact Hl. Qed.
Lemma pays_first P : pays P set_first P.
Proof. intros l Hl. exact Hl. Qed.
Lemma pays_more P b : pays P (set_more b) P.
Proof. intros l Hl. exact Hl. Qed.
Lemma pays_pending P ms : pays P (set_pending ms) P.
Proof. intros l Hl. exact Hl. Qed.
Lemma pays_responded P : pays P set_responded P.
Proof. intros l Hl. exact Hl. Qed.
Lemma pays_aborted P : pays P is_aborted P.
Proof. intros l Hl. exact Hl. Qed.
Lemma pays_make P b : pays P (make b) P.
Proof. intros l Hl. exact Hl. Qed.
Lemma pays_amend P r f : pays P (amend r f) P.
Proof. intros l Hl. exact Hl. Qed.
Lemma pays_end {A} P r Q : pays P (end_agent (A := A) r) Q.
Proof. intros l Hl. exact I. Qed.
Lemma pays_report {A} P n k o Q : pays P (report (A := A) n k o) Q.
Proof. intros l Hl. exact I. Qed.
Lemma turns_note g a : turns (g ++ [a]) = turns g + b2z (is_turn_end a).
Proof. unfold turns. rewrite List.filter_app, zlen_app. cbn. destruct (is_turn_end a); unfold zlen; cbn; lia. Qed.
Lemma pays_note P a : is_turn_end a = false -> pays P (note a) P.
Proof. intros Ha l Hl. unfold wp, note. cbn [log retries]. rewrite turns_note, Ha. by rewrite Z.add_0_r. Qed.
Lemma pays_retries (P Q : Retries -> Z -> Prop) f : (forall r n, P r n -> Q (f r) n) -> pays P (on_retries f) Q.
Proof. intros Hf l Hl. by apply Hf. Qed.
End resends.

Create HintDb pays.
#[export] Hint Resolve pays_ret pays_get pays_host pays_ask pays_talk pays_recoveries pays_first pays_more pays_pending pays_responded
  pays_aborted pays_make pays_amend pays_end pays_report : pays.
(** Computations that leave the budgets alone. *)
Ltac pay :=
  repeat (intros; cbv zeta; match goal with
    | |- pays _ _ _ (_ ≫= _) _ => eapply pays_bind
    | |- pays _ _ _ (throw _) _ => apply pays_stop; first [by left | by right]
    | |- pays _ _ _ (note _) _ => apply pays_note; reflexivity
    | |- pays _ _ _ (each _ _) _ => apply pays_each
    | |- pays _ _ _ (match ?x with _ => _ end) _ => destruct x eqn:?
    | |- pays _ _ _ _ _ => solve [simple apply pays_ret | auto 2 with pays nocore]
    end).

Section phases.
Context {H : Type} `{!Host H}.
Context (r0 : Retries) (n0 : Z).
Abbreviation pays := (pays (H := H) r0 n0).

(** Before the response is accepted: the repairs left are at most those of the beginning. *)
Definition unspent (r : Retries) (n : Z) : Prop := in_budget r /\ n = n0 /\ repairs_left r <= repairs_left r0.
Definition at_start (r : Retries) (n : Z) : Prop := in_budget r /\ n = n0 /\ repairs_left r = repairs_left r0 /\ harmonyRetryAttempt r = harmonyRetryAttempt r0.
Definition bounded (r : Retries) (n : Z) : Prop := in_budget r /\ n = n0.

Lemma pays_consume P events e partial committed : pays P (consume events e partial committed) P.
Proof.
  revert partial committed. induction events as [|ev events IH]; intros partial committed; cbn [consume].
  - destruct e; unfold emitAbortedAssistantMessage; pay.
  - destruct ev; pay; try apply IH.
Qed.

#[local] Hint Resolve pays_consume : pays.

Lemma pays_choice (P : Retries -> Z -> Prop) : (forall r n c, P r n -> P (set_choice c r) n) -> pays P getLogicalTurnToolChoice P.
Proof.
  intros HP. unfold getLogicalTurnToolChoice. eapply pays_bind; [apply pays_get|]. intros l0. destruct (escapedNonAsciiToolChoice _); [apply pays_ret|].
  eapply pays_bind; [apply pays_ask|]. intros c. apply (pays_bind _ _ _ _ P); [apply pays_retries; intros r n; apply HP|]. intros []. apply pays_ret.
Qed.

Lemma pays_request r : pays at_start (request r) at_start.
Proof.
  unfold request. apply (pays_bind _ _ _ _ at_start); [apply pays_recoveries|]. intros []. cbv zeta. apply (pays_bind _ _ _ _ at_start).
  - assert (Hc : pays at_start getLogicalTurnToolChoice at_start) by (by apply pays_choice).
    repeat case_match; first [apply pays_ret | exact Hc | apply pays_ask].
  - intros c. unfold streamAssistantResponse, emitAbortedAssistantMessage. pay.
Qed.

Lemma start_unspent r n : at_start r n -> unspent r n.
Proof. intros (Hb & Hn & Hr & _). split; [done|]. split; [done|]. lia. Qed.

Lemma pays_leak recovered committed : pays at_start (settle_leak recovered committed) unspent.
Proof.
  unfold settle_leak. apply pays_get_bind. intros l0. destruct fallbackManaged; [apply pays_stop; by left|]. destruct recovered as [a|].
  - destruct (2 <=? _); [apply pays_stop; by left|]. apply (pays_bind _ _ _ _ unspent).
    { apply pays_retries. intros r n [Hs _]. by apply start_unspent in Hs. }
    intros []. pay.
  - destruct (committed && _); [apply pays_stop; by left|].
    apply (pays_bind _ _ _ _ (fun r n => at_start r n /\ r = retries l0)); [destruct committed; pay|]. intros [].
    destruct (Z.leb_spec 2 (harmonyRetryAttempt (retries l0))); [apply pays_stop; by left|].
    apply (pays_bind _ _ _ _ (paid r0 n0)).
    { apply pays_retries. intros r n [(Hb & Hn & Hr & Hh) ->]. unfold paid, in_budget, budget, repairs_left in *.
      cbn [set_harmony harmonyRetryAttempt escapedNonAsciiResampleAttempt invalidPromptRepairAttempted reasoningContentRepairAttempted]. lia. }
    intros []. apply (pays_bind _ _ _ _ (paid r0 n0)); [apply pays_talk|]. intros []. by apply pays_again.
Qed.

Lemma pays_receive n k r : pays at_start (receive n k r) unspent.
Proof.
  unfold receive. apply (pays_bind _ _ _ _ at_start); [apply pays_request|]. intros [[reply|f] committed]; cbn [fst].
  - destruct (detectHarmonyLeak (snd reply)) as [recovered|].
    + apply (pays_bind _ _ _ _ unspent); [apply pays_leak|]. intros reply'. apply pays_ret.
    + apply (pays_bind _ _ _ _ unspent); [|intros []; apply pays_ret]. apply pays_retries. intros q m (Hb & Hn & Hr & _).
      unfold unspent, in_budget, repairs_left in *.
      cbn [set_harmony set_truncations harmonyRetryAttempt escapedNonAsciiResampleAttempt invalidPromptRepairAttempted reasoningContentRepairAttempted]. lia.
  - unfold settle_failure. pay.
Qed.

Definition spent (r : Retries) (n : Z) : Prop := in_budget r /\ n = n0 /\ repairs_left r < repairs_left r0.
Context (Hr0 : in_budget r0).

Lemma spent_paid r n : spent r n -> paid r0 n0 r n.
Proof. intros (Hb & -> & Hl). split; [done|]. split; [lia|]. left. unfold in_budget, budget in *. lia. Qed.
Lemma spent_unspent r n : spent r n -> unspent r n.
Proof. intros (Hb & Hn & Hl). split; [done|]. split; [done|]. lia. Qed.

Lemma pays_resend f : pays spent (resend_repaired f) unspent.
Proof.
  unfold resend_repaired. apply (pays_bind _ _ _ _ spent); [apply pays_get|]. intros l0. cbv zeta. destruct (existsb _ _).
  - apply (pays_bind _ _ _ _ spent); [apply pays_talk|]. intros []. apply pays_again. apply spent_paid.
  - eapply pays_mono; [apply (pays_ret _ _ spent) | done | apply spent_unspent].
Qed.

Lemma pays_invalid_prompt a : pays unspent (repair_invalid_prompt a) unspent.
Proof.
  unfold repair_invalid_prompt. apply pays_get_bind. intros l0.
  destruct (_ && negb (invalidPromptRepairAttempted (retries l0)) && _) eqn:Hc.
  - apply (pays_bind _ _ _ _ spent); [|intros []; apply pays_resend]. apply pays_retries. intros r n [(Hb & Hn & Hl) ->].
    apply andb_true_iff in Hc as [[_ Hc]%andb_true_iff _]. unfold spent, in_budget, repairs_left in *.
    cbn [set_invalid_prompt harmonyRetryAttempt escapedNonAsciiResampleAttempt invalidPromptRepairAttempted reasoningContentRepairAttempted].
    rewrite Hc in Hl. cbn in *. lia.
  - eapply pays_mono; [apply pays_ret | | done]. by intros r n [? _].
Qed.
Lemma pays_reasoning a : pays unspent (repair_reasoning a) unspent.
Proof.
  unfold repair_reasoning. apply pays_get_bind. intros l0.
  destruct (_ && negb (reasoningContentRepairAttempted (retries l0)) && _) eqn:Hc.
  - apply (pays_bind _ _ _ _ spent); [|intros []; apply pays_resend]. apply pays_retries. intros r n [(Hb & Hn & Hl) ->].
    apply andb_true_iff in Hc as [[_ Hc]%andb_true_iff _]. unfold spent, in_budget, repairs_left in *.
    cbn [set_reasoning harmonyRetryAttempt escapedNonAsciiResampleAttempt invalidPromptRepairAttempted reasoningContentRepairAttempted].
    rewrite Hc in Hl. cbn in *. lia.
  - eapply pays_mono; [apply pays_ret | | done]. by intros r n [? _].
Qed.

Lemma pays_resample n k recovery reply committed : pays unspent (resample_escaped n k recovery reply committed) unspent.
Proof.
  unfold resample_escaped. apply pays_get_bind. intros l0. cbv zeta. destruct (_ && (_ <? _) && _ && _) eqn:Hc.
  - apply andb_true_iff in Hc as [[[_ Hc]%andb_true_iff _]%andb_true_iff _].
    apply (pays_bind _ _ _ _ spent).
    { apply pays_retries. intros r m [(Hb & Hn & Hl) ->]. unfold spent, in_budget, repairs_left in *.
      cbn [set_resamples harmonyRetryAttempt escapedNonAsciiResampleAttempt invalidPromptRepairAttempted reasoningContentRepairAttempted]. lia. }
    intros []. apply (pays_bind _ _ _ _ spent); [destruct fallbackManaged; pay|]. intros []. apply (pays_bind _ _ _ _ spent); [apply pays_amend|].
    intros reply'. apply (pays_bind _ _ _ _ spent); [apply pays_talk|]. intros []. destruct fallbackManaged; [apply pays_report|].
    apply (pays_bind _ _ _ _ spent); [apply pays_get|]. intros l1. apply (pays_bind _ _ _ _ spent); [pay|]. intros []. apply pays_again, spent_paid.
  - eapply pays_mono; [apply pays_ret | | done]. by intros r m [? _].
Qed.

Definition turned (r : Retries) (n : Z) : Prop := in_budget r /\ n0 < n.
Lemma turned_paid r n : turned r n -> paid r0 n0 r n.
Proof. intros [Hb Hn]. split; [done|]. split; [lia | by right]. Qed.
Lemma pays_turn m rs : pays bounded (note (a_turn_end m rs)) turned.
Proof. intros l [Hb Hn]. unfold wp, note. cbn [retries log]. rewrite turns_note. split; [done|]. cbn. lia. Qed.

Lemma pays_steer ms abandon : pays turned abandon turned -> pays turned (steer ms abandon) turned.
Proof.
  intros Hab. unfold steer. apply (pays_bind _ _ _ _ turned); [apply pays_aborted|]. intros [|].
  - apply (pays_bind _ _ _ _ turned); [pay|]. intros []. apply (pays_bind _ _ _ _ turned); [pay|]. intros [].
    apply (pays_bind _ _ _ _ turned); [done|]. intros []. apply pays_again, turned_paid.
  - apply (pays_bind _ _ _ _ turned); [pay|]. intros []. apply pays_again, turned_paid.
Qed.

Lemma pays_close reply x : pays bounded (close_turn reply x) turned.
Proof.
  unfold close_turn. apply (pays_bind _ _ _ _ turned); [apply pays_turn|]. intros []. destruct (bool_decide _); [apply pays_steer; pay|].
  apply (pays_bind _ _ _ _ turned); [pay|]. intros ms. destruct (bool_decide _); [apply pays_steer; pay|].
  apply (pays_bind _ _ _ _ turned); [pay|]. intros []. apply (pays_bind _ _ _ _ turned); [pay|]. intros [|]; [pay|].
  unfold recover. pay.
Qed.

Lemma pays_iterate : pays at_start iterate turned.
Proof.
  unfold iterate, open_turn, deliver, deliver_one, maintain.
  apply (pays_bind _ _ _ _ at_start); [pay|]. intros []. apply (pays_bind _ _ _ _ at_start); [pay|]. intros [].
  apply (pays_bind _ _ _ _ at_start); [pay|]. intros []. apply (pays_bind _ _ _ _ at_start); [pay|]. intros [].
  apply (pays_bind _ _ _ _ at_start); [pay|]. intros l0. cbv zeta. apply (pays_bind _ _ _ _ unspent); [apply pays_receive|]. intros [reply committed].
  apply (pays_bind _ _ _ _ unspent); [apply pays_invalid_prompt|]. intros []. apply (pays_bind _ _ _ _ unspent); [apply pays_reasoning|]. intros [].
  apply (pays_bind _ _ _ _ unspent); [apply pays_resample|]. intros []. apply (pays_bind _ _ _ _ unspent); [unfold strip_if_bad; pay|]. intros r1.
  apply (pays_bind _ _ _ _ bounded).
  { apply pays_retries. intros r n (Hb & Hn & _). split; [|done]. unfold in_budget, MAX_ESCAPED_NONASCII_RESAMPLES in *. cbn. lia. }
  intros []. apply (pays_bind _ _ _ _ bounded); [unfold accept_response, strip_if_bad; pay|]. intros r2.
  apply (pays_bind _ _ _ _ bounded); [pay|]. intros []. destruct (ended_badly _).
  - unfold end_badly, placeholder, keep_result. apply (pays_bind _ _ _ _ bounded); [pay|]. intros r3. cbv zeta.
    apply (pays_bind _ _ _ _ bounded); [pay|]. intros []. apply (pays_bind _ _ _ _ turned); [apply pays_turn|]. intros []. apply pays_end.
  - apply (pays_bind _ _ _ _ bounded); [unfold dispatch, run_tools, placeholder, keep_result; pay|]. intros x.
    apply (pays_bind _ _ _ _ bounded); [pay|]. intros []. apply pays_close.
Qed.
End phases.

Section bound.
Context {H : Type} `{!Host H}.

(** [k] iterations in a row that end no turn: each has asked, and is going to ask again. *)
Inductive resends : nat -> Loop H -> Loop H -> Prop :=
| resends_none l : resends 0 l l
| resends_more k l l1 l2 :
    goes_on l = true -> step l inner = (l1, inner) -> turns (log l1) = turns (log l) -> resends k l1 l2 -> resends (S k) l l2.

Definition solvent (s : Loop H * Place) : Prop := match snd s with over _ => True | _ => in_budget (retries (fst s)) end.

Lemma iterate_pays l :
  in_budget (retries l) -> wp iterate (fun _ l' => turned (turns (log l)) (retries l') (turns (log l'))) (leaves (retries l) (turns (log l))) l.
Proof. intros Hb. apply (pays_iterate (retries l) (turns (log l)) Hb). by split. Qed.

Lemma before_yield_keeps l : wp before_yield (fun _ l' => retries l' = retries l) (fun _ _ => True) l.
Proof.
  unfold wp, before_yield. unfold mbind, sm_bind, on_host, ask. cbn. destruct (shouldPause _) as [[|] h1]; [done|]. cbn.
  destruct (getSyntheticRecoveryMessage h1) as [syn h2]. cbn. destruct (getFollowUpMessages h2) as [ms h3]. cbn.
  destruct (bool_decide (ms <> [])); [done|]. by destruct syn.
Qed.

Lemma solvent_step l p : solvent (l, p) -> solvent (step l p).
Proof.
  destruct p as [| |e]; cbn [step]; intros Hb; [| |done].
  - destruct (goes_on l); [|exact Hb]. pose proof (iterate_pays l Hb) as Hi. unfold wp in Hi.
    destruct (iterate l) as [l' [[]|e]]; [by destruct Hi|]. destruct e; [by destruct Hi | by destruct Hi | done | done].
  - pose proof (before_yield_keeps l) as Hi. unfold wp in Hi. destruct (before_yield l) as [l' [[]|e]]; [|done].
    unfold solvent in *. cbn [fst snd set_more retries] in *. by rewrite Hi.
Qed.

Lemma solvent_steps n s : solvent s -> solvent (steps n s).
Proof. revert s. induction n as [|n IH]; intros [l p] Hs; [exact Hs|]. apply IH. exact (solvent_step l p Hs). Qed.

Lemma resends_pay k l l' : resends k l l' -> in_budget (retries l) -> in_budget (retries l') /\ Z.of_nat k + budget (retries l') <= budget (retries l).
Proof.
  induction 1 as [l|k l l1 l2 Hg Hs Ht _ IH]; intros Hb; [split; [done | lia]|]. cbn [step] in Hs. rewrite Hg in Hs.
  pose proof (iterate_pays l Hb) as Hi. unfold wp in Hi. destruct (iterate l) as [l' [[]|e]].
  - injection Hs as <-. destruct Hi as [_ Hi]. lia.
  - destruct e; try discriminate Hs. injection Hs as <-. destruct Hi as (Hb1 & _ & [Hpay|Hi]); [|lia].
    destruct (IH Hb1) as [Hb2 Hk]. split; [done|]. lia.
Qed.

(** C15. A request is repeated a bounded number of times: whatever the model answers and in whatever order leaks, repaired
    prompts, stripped reasoning and escaped arguments come, at no point of a run do more than fourteen iterations in a row
    ask without ending a turn, and each of them spends from the budgets of the run. *)
Theorem resends_are_bounded h t n l k l' :
  steps n (runLoopBody h t) = (l, inner) -> resends k l l' ->
  (k <= 14)%nat /\ Z.of_nat k + budget (retries l') <= budget (retries l) <= 14.
Proof.
  intros Hn Hk. assert (Hb : solvent (steps n (runLoopBody h t))).
  { apply solvent_steps. unfold runLoopBody. destruct (getSteeringMessages h). cbn. unfold in_budget, MAX_ESCAPED_NONASCII_RESAMPLES. cbn. lia. }
  rewrite Hn in Hb. change (in_budget (retries l)) in Hb. destruct (resends_pay k l l' Hk Hb) as [Hb' Hp]. pose proof (budget_bounds _ Hb). pose proof (budget_bounds _ Hb'). lia.
Qed.
End bound.
