(* ===== verification/AgentLoopInput.v ===== *)
(** * A managed attempt that is given up loses no user input *)
From S2P Require Import Prelude.
From S2P Require Import AgentLoop.
From S2P Require Import AgentLoopProofs.
From S2P Require Import AgentLoopPairs.
#[local] Open Scope Z_scope.
#[local] Open Scope js_scope.

Definition is_user (m : Message) : bool := match mbody m with user_message _ => true | _ => false end.
Definition users (l : list Message) : list Message := List.filter is_user l.
Definition delivered (g : list Action) : list Message := omap (fun a => match a with a_user m => Some m | _ => None end) g.

(** The user's messages that a run which began with [U] holds: those of the beginning and the delivered ones in their order;
    from a release of the context on, where there may be one, only those that are delivered after it. *)
Definition hold (may_release : bool) (U : list Message) (a : Action) : list Message :=
  match a with a_user m => U ++ [m] | a_release => if may_release then [] else U | _ => U end.
Definition held (may_release : bool) (U : list Message) (g : list Action) : list Message := fold_left (hold may_release) g U.

Lemma users_app l l' : users (l ++ l') = users l ++ users l'.
Proof. apply List.filter_app. Qed.
Lemma users_change id f l : users (map (change id (on_assistant f)) l) = users l.
Proof.
  induction l as [|m l IH]; [done|]. unfold users in *. cbn [map List.filter].
  assert (Hm : is_user (change id (on_assistant f) m) = is_user m /\ (is_user m = true -> change id (on_assistant f) m = m)).
  { unfold change, is_user. destruct m as [i b]. cbn. destruct (bool_decide _); [|done]. by destruct b. }
  destruct Hm as [Hm1 Hm2]. rewrite Hm1, IH. destruct (is_user m); [|done]. by rewrite Hm2.
Qed.
Lemma held_snoc b U g a : held b U (g ++ [a]) = hold b (held b U g) a.
Proof. apply fold_left_app. Qed.
Lemma held_delivered U g : held false U g = U ++ delivered g.
Proof.
  revert U. unfold held, delivered. induction g as [|a g IH]; intros U; cbn [fold_left omap list_omap]; [by rewrite app_nil_r|].
  rewrite IH. destruct a; cbn [hold]; try done. by rewrite <- app_assoc.
Qed.

Section input.
Context {H : Type} `{!Host H} `{!HostLaws H}.
Context (U0 V0 : list Message) (may_release : bool).

(** What is asserted of the context, the new messages, and the user's messages that both should hold. *)
Definition View : Type := list Message -> list Message -> list Message * list Message -> Prop.
Definition sees (P : View) (l : Loop H) : Prop := P (context (talk l)) (newMessages (talk l)) (held may_release U0 (log l), held may_release V0 (log l)).

(** The user's messages are the ones that are held, in order. *)
Definition steady : View := fun c n d => users c = fst d /\ users n = snd d.

Definition guards {A} (P : View) (m : SM (Loop H) Exit A) (Q : A -> View) : Prop :=
  forall l, sees P l -> wp m (fun a l' => sees (Q a) l') (fun _ l' => sees steady l') l.

Lemma guards_ret {A} P (a : A) : guards P (mret a) (fun _ => P).
Proof. intros l Hl. exact Hl. Qed.
Lemma guards_bind {A B} P (m : SM (Loop H) Exit A) Q (k : A -> SM (Loop H) Exit B) R :
  guards P m Q -> (forall a, guards (Q a) (k a) R) -> guards P (m ≫= k) R.
Proof. intros Hm Hk l Hl. apply wp_bind. eapply wp_mono; [by apply Hm | | done]. intros a l'. apply Hk. Qed.
Lemma guards_pre {A} (P P' : View) (m : SM (Loop H) Exit A) Q : guards P m Q -> (forall c n d, P' c n d -> P c n d) -> guards P' m Q.
Proof. intros Hm HP l Hl. apply Hm. by apply HP. Qed.
Lemma guards_throw {A} (P : View) e Q : (forall c n d, P c n d -> steady c n d) -> guards P (throw (A := A) e) Q.
Proof. intros HP l Hl. by apply HP. Qed.
Lemma guards_get P : guards P get_state (fun _ => P).
Proof. intros l Hl. exact Hl. Qed.
Lemma guards_each {A} P (f : A -> SM (Loop H) Exit unit) xs : (forall x, guards P (f x) (fun _ => P)) -> guards P (each f xs) (fun _ => P).
Proof. intros Hf l Hl. apply (wp_each f (fun _ => sees P)); [|done]. intros x xs' l' Hl'. by apply Hf. Qed.
Lemma guards_host P f : guards P (on_host f) (fun _ => P).
Proof. intros l Hl. exact Hl. Qed.
Lemma guards_ask {A} P (f : H -> A * H) : guards P (ask f) (fun _ => P).
Proof. intros l Hl. unfold wp, ask. by destruct (f (host l)). Qed.
Lemma guards_retries P f : guards P (on_retries f) (fun _ => P).
Proof. intros l Hl. exact Hl. Qed.
Lemma guards_recoveries P f : guards P (on_recoveries f) (fun _ => P).
Proof. intros l Hl. exact Hl. Qed.
Lemma guards_first P : guards P set_first (fun _ => P).
Proof. intros l Hl. exact Hl. Qed.
Lemma guards_more P b : guards P (set_more b) (fun _ => P).
Proof. intros l Hl. exact Hl. Qed.
Lemma guards_pending P ms : guards P (set_pending ms) (fun _ => P).
Proof. intros l Hl. exact Hl. Qed.
Lemma guards_responded P : guards P set_responded (fun _ => P).
Proof. intros l Hl. exact Hl. Qed.
Lemma guards_aborted P : guards P is_aborted (fun _ => P).
Proof. intros l Hl. exact Hl. Qed.
Lemma guards_make P b : guards P (make b) (fun m c n d => P c n d /\ mbody m = b).
Proof. intros l Hl. by split. Qed.
Lemma guards_talk (P Q : View) f :
  (forall t d, P (context t) (newMessages t) d -> Q (context (f t)) (newMessages (f t)) d) -> guards P (on_talk f) (fun _ => Q).
Proof. intros Hf l Hl. by apply Hf. Qed.
Lemma guards_note P a : (forall U, hold may_release U a = U) -> guards P (note a) (fun _ => P).
Proof. intros Ha l Hl. unfold wp, note, sees. cbn [talk log]. by rewrite !held_snoc, !Ha. Qed.

(** A list of at least [n] messages, of which the user's are among the first [n]. *)
Definition cut (n : nat) (W : list Message) (l : list Message) : Prop :=
  exists base tail, l = base ++ tail /\ length base = n /\ users base = W /\ users tail = [].
(** ... and whose last one is beyond. *)
Definition beyond (n : nat) (W : list Message) (last : Message) (l : list Message) : Prop :=
  exists base tail, l = base ++ tail ++ [last] /\ length base = n /\ users base = W /\ users (tail ++ [last]) = [].

Lemma cut_users n W l : cut n W l -> users l = W.
Proof. intros (base & tail & -> & _ & Hb & Ht). by rewrite users_app, Hb, Ht, app_nil_r. Qed.
Lemma cut_take n W l : cut n W l -> users (take n l) = W.
Proof. intros (base & tail & -> & <- & Hb & Ht). by rewrite take_app_length. Qed.
Lemma cut_self l : cut (length l) (users l) l.
Proof. exists l, []. by rewrite app_nil_r. Qed.
Lemma beyond_cut n W m l : beyond n W m l -> cut n W l.
Proof. intros (base & tail & -> & Hn & Hb & Ht). by exists base, (tail ++ [m]). Qed.
Lemma cut_push n W m l : is_user m = false -> cut n W l -> beyond n W m (l ++ [m]).
Proof.
  intros Hm (base & tail & -> & Hn & Hb & Ht). exists base, tail. rewrite <- app_assoc. split; [done|]. split; [done|]. split; [done|].
  rewrite users_app, Ht. cbn. by rewrite Hm.
Qed.
Lemma users_tail m tail : users (tail ++ [m]) = [] -> users tail = [] /\ is_user m = false.
Proof. rewrite users_app. intros Ht%app_eq_nil. destruct Ht as [Ht Hm]. split; [done|]. cbn in Hm. by destruct (is_user m). Qed.
Lemma beyond_set_last n W m m' l : is_user m' = false -> beyond n W m l -> beyond n W m' (set_last m' l).
Proof.
  intros Hm (base & tail & -> & Hn & Hb & Ht). destruct (users_tail _ _ Ht) as [Ht' _]. exists base, tail.
  unfold set_last. rewrite app_assoc, removelast_last, <- app_assoc. split; [done|]. split; [done|]. split; [done|].
  rewrite users_app, Ht'. cbn. by rewrite Hm.
Qed.
Lemma beyond_drop n W m l : beyond n W m l -> cut n W (removelast l).
Proof.
  intros (base & tail & -> & Hn & Hb & Ht). destruct (users_tail _ _ Ht) as [Ht' _]. exists base, tail.
  by rewrite app_assoc, removelast_last.
Qed.
Lemma cut_change n W id f l : cut n W l -> cut n W (map (change id (on_assistant f)) l).
Proof.
  intros (base & tail & -> & Hn & Hb & Ht). exists (map (change id (on_assistant f)) base), (map (change id (on_assistant f)) tail).
  by rewrite map_app, length_map, !users_change.
Qed.
Lemma beyond_change n W r f l : beyond n W (message_of r) l -> beyond n W (message_of (fst r, f (snd r))) (map (change (fst r) (on_assistant f)) l).
Proof.
  intros (base & tail & -> & Hn & Hb & Ht). exists (map (change (fst r) (on_assistant f)) base), (map (change (fst r) (on_assistant f)) tail).
  assert (Hm : change (fst r) (on_assistant f) (message_of r) = message_of (fst r, f (snd r))) by (unfold change; cbn; by rewrite bool_decide_eq_true_2).
  rewrite !map_app, length_map, users_change. cbn [map]. rewrite Hm. split; [done|]. split; [done|]. split; [done|].
  destruct (users_tail _ _ Ht) as [Ht' _]. by rewrite users_app, users_change, Ht'.
Qed.

(** ** The phases of a managed iteration *)

Context (Hmanaged : fallbackManaged (H := H) = true).
Context (Hkept : match maintainContext (H := H) with Some check => forall c h, snd (fst (check c h)) = true -> may_release = true | None => True end).

Lemma steady_push m c n d : is_user m = false -> steady c n d -> steady (c ++ [m]) (n ++ [m]) d.
Proof. intros Hm [Hc Hn]. unfold steady. rewrite !users_app, Hc, Hn. cbn. by rewrite Hm, !app_nil_r. Qed.

Lemma guards_end {A} P r Q : (forall c n d, P c n d -> steady c n d) -> guards P (end_agent (A := A) r) Q.
Proof.
  intros HP. unfold end_agent, end_run. eapply guards_bind; [by apply guards_note|]. intros [].
  eapply guards_bind; [apply guards_get|]. intros l. eapply guards_bind; [by apply guards_note|]. intros []. by apply guards_throw.
Qed.

(** From the request on: [cc] and [nc] are the counts that are noted before it. *)
Section attempt.
Context (cc nc : nat).
Definition begun : View := fun c n d => cut cc (fst d) c /\ cut nc (snd d) n.
Definition holding (m : Message) : View := fun c n d => beyond cc (fst d) m c /\ cut nc (snd d) n.

Lemma begun_steady c n d : begun c n d -> steady c n d.
Proof. intros [Hc Hn]. split; by eapply cut_users. Qed.
Lemma holding_begun m c n d : holding m c n d -> begun c n d.
Proof. intros [Hc Hn]. split; [by eapply beyond_cut | done]. Qed.

Lemma guards_report {A} (P : View) o Q : (forall c n d, P c n d -> begun c n d) -> guards P (report (A := A) cc nc o) Q.
Proof.
  intros HP. unfold report. eapply guards_bind; [by apply guards_note|]. intros [].
  eapply (guards_bind _ _ (fun _ => steady)).
  - apply guards_talk. intros t d Ht. destruct (HP _ _ _ Ht) as [Hc Hn]. split; cbn; by apply cut_take.
  - intros []. eapply guards_bind; [apply guards_host|]. intros []. eapply guards_bind; [by apply guards_note|]. intros [].
    unfold end_run. eapply guards_bind; [apply guards_get|]. intros l. eapply guards_bind; [by apply guards_note|]. intros []. by apply guards_throw.
Qed.

(** In the middle of a stream, and after it. *)
Definition streaming (partial : option Reply) : View := match partial with Some r => holding (message_of r) | None => begun end.
Definition got (r : (Reply + Failure) * bool) : View := fun c n d =>
  match fst r with
  | inl reply => holding (message_of reply) c n d \/ (begun c n d /\ stopReason (snd reply) = aborted)
  | inr _ => begun c n d
  end.

Lemma streaming_begun partial c n d : streaming partial c n d -> begun c n d.
Proof. destruct partial; [apply holding_begun | done]. Qed.

Lemma assistant_no_user (m : Message) a : mbody m = assistant_message a -> is_user m = false.
Proof. unfold is_user. by intros ->. Qed.
Lemma made_message (m : Message) a : mbody m = assistant_message a -> message_of (mid m, a) = m.
Proof. intros Hm. unfold message_of. cbn. rewrite <- Hm. by destruct m. Qed.

Lemma guards_aborted_message partial : guards (streaming partial) (emitAbortedAssistantMessage partial)
  (fun r c n d => begun c n d /\ stopReason (snd r) = aborted).
Proof.
  unfold emitAbortedAssistantMessage. eapply guards_bind; [apply guards_make|]. intros m. cbv beta.
  eapply (guards_bind _ _ (fun _ => begun)); [|intros [] l Hl; by split].
  destruct partial as [r|].
  - apply guards_talk. intros t d [[Hc Hn] _]. split; [by eapply beyond_drop | done].
  - intros l [Hl _]. exact Hl.
Qed.

Lemma guards_consume events e partial committed :
  proper (bool_decide (partial <> None)) events e = true -> guards (streaming partial) (consume events e partial committed) got.
Proof.
  revert partial committed. induction events as [|ev events IH]; intros partial committed Hp; cbn [consume proper] in *.
  - destruct e as [a| |f]; [done| |].
    + eapply guards_bind; [apply guards_aborted_message|]. intros r l [Hl Hr]. by right.
    + intros l Hl. by apply (streaming_begun partial).
  - destruct ev as [a|a shows interrupted| |a].
    + apply andb_true_iff in Hp as [Hn Hp]. destruct partial; [done|]. eapply guards_bind; [apply guards_make|]. intros m. cbv beta.
      apply (guards_bind _ _ (fun _ => streaming (Some (mid m, shown_partial a)))); [|intros []; by apply IH].
      apply guards_talk. intros t d [[Hc Hnew] Hm]. split; [|done]. rewrite (made_message _ _ Hm). apply cut_push; [by eapply assistant_no_user | done].
    + destruct partial as [r|]; [|by apply IH]. eapply guards_bind; [apply guards_make|]. intros m. cbv beta.
      apply (guards_bind _ _ (fun _ => streaming (Some (mid m, shown_partial a)))); [|intros []; by apply IH].
      apply guards_talk. intros t d [[Hc Hnew] Hm]. split; [|done]. rewrite (made_message _ _ Hm).
      eapply beyond_set_last; [by eapply assistant_no_user | done].
    + by apply IH.
    + eapply guards_bind; [apply guards_make|]. intros m. cbv beta.
      apply (guards_bind _ _ (fun _ => holding (message_of (mid m, finalMessage a)))); [|intros [] l Hl; by left].
      apply guards_talk. intros t d [Hs Hm]. pose proof (assistant_no_user _ _ Hm) as Hu. rewrite (made_message _ _ Hm).
      destruct partial as [r|]; destruct Hs as [Hc Hnew]; (split; [|done]); [by eapply beyond_set_last | by apply cut_push].
Qed.

Lemma guards_stream synthetic mode : guards begun (streamAssistantResponse synthetic mode) got.
Proof.
  intros l Hl. unfold streamAssistantResponse. apply wp_bind. change (wp is_aborted ?Q ?E l) with (Q (signal_aborted (host l)) l). cbv beta.
  destruct (signal_aborted (host l)).
  - revert l Hl. change (guards begun (emitAbortedAssistantMessage None ≫= fun r => mret (inl r, false)) got).
    eapply guards_bind; [apply (guards_aborted_message None)|]. intros r l [Hl Hr]. by right.
  - apply wp_bind, wp_get. apply wp_bind. change (wp (note ?a) ?Q ?E l) with (Q tt (fst (note a l))). cbv beta. apply wp_bind.
    unfold wp at 1, ask. cbn [fst note host]. destruct (responses_proper (context (talk l)) synthetic mode (host l)) as [Hp _].
    destruct (respond (context (talk l)) synthetic mode (host l)) as [s h]. cbn [fst snd] in *.
    apply guards_consume; [exact Hp|]. unfold sees. cbn [talk log]. by rewrite !held_snoc.
Qed.

Lemma guards_request r : guards begun (request r) got.
Proof.
  unfold request. eapply guards_bind; [apply guards_recoveries|]. intros []. cbv zeta. apply (guards_bind _ _ (fun _ => begun)); [|intros c; apply guards_stream].
  assert (Hc : guards begun getLogicalTurnToolChoice (fun _ => begun)).
  { unfold getLogicalTurnToolChoice. eapply guards_bind; [apply guards_get|]. intros l0. destruct (escapedNonAsciiToolChoice _); [apply guards_ret|].
    eapply guards_bind; [apply guards_ask|]. intros c. eapply guards_bind; [apply guards_retries|]. intros []. apply guards_ret. }
  repeat case_match; first [apply guards_ret | exact Hc | apply guards_ask].
Qed.

Lemma guards_receive r : guards begun (receive cc nc r) (fun rc => got (inl (fst rc), snd rc)).
Proof.
  unfold receive. eapply guards_bind; [apply guards_request|]. intros [[reply|f] committed]; cbn [fst snd].
  - destruct (detectHarmonyLeak (snd reply)) as [recovered|].
    + eapply (guards_bind _ _ (fun reply => got (inl reply, committed))); [|intros r' l Hl; exact Hl].
      unfold settle_leak. eapply guards_bind; [apply guards_get|]. intros l0. rewrite Hmanaged. apply guards_throw.
      intros c n d [Hg|[Hg _]]; [by eapply begun_steady, holding_begun | by apply begun_steady].
    + eapply guards_bind; [apply guards_retries|]. intros [] l Hl. exact Hl.
  - unfold settle_failure. rewrite Hmanaged. cbn [andb].
    destruct (overflows f); [by apply guards_report|]. destruct (retryable f); [by apply guards_report|]. apply guards_throw. apply begun_steady.
Qed.

(** The response, or an abort that is told so. *)
Definition received (reply : Reply) : View := got (inl reply, false).
Lemma received_begun reply c n d : received reply c n d -> begun c n d.
Proof. intros [Hg|[Hg _]]; [by eapply holding_begun | done]. Qed.

Lemma guards_amend reply f :
  (forall a, stopReason (f a) = stopReason a) -> guards (received reply) (amend reply f) received.
Proof.
  intros Hf. unfold amend. eapply (guards_bind _ _ (fun _ => received (fst reply, f (snd reply)))); [|intros [] l Hl; exact Hl].
  apply guards_talk. intros t d Ht. unfold received, got in *. cbn [fst mutate context newMessages].
  destruct Ht as [[Hc Hn]|[[Hc Hn] Hs]]; [left | right].
  - split; [by apply beyond_change | by apply cut_change].
  - split; [split; by apply cut_change|]. cbn [snd]. by rewrite Hf.
Qed.

Lemma guards_repairs a P : guards P (repair_invalid_prompt a) (fun _ => P) /\ guards P (repair_reasoning a) (fun _ => P).
Proof.
  unfold repair_invalid_prompt, repair_reasoning. rewrite Hmanaged. cbn [negb andb].
  split; (eapply guards_bind; [apply guards_get|]; intros l0; apply guards_ret).
Qed.

Lemma replace_last_beyond id W l m : mid m = id -> beyond cc W m l -> cut cc W (replace_last_index id [] l).
Proof.
  intros Hm (base & tail & -> & Hn & Hb & Ht). destruct (users_tail _ _ Ht) as [Ht' _]. exists base, tail. rewrite app_assoc.
  split; [|done]. generalize (base ++ tail) as l. intros l. induction l as [|x l IH]; cbn [app replace_last_index].
  - by rewrite bool_decide_eq_true_2.
  - assert (He : existsb (fun y => bool_decide (mid y = id)) (l ++ [m]) = true).
    { rewrite existsb_app. cbn. rewrite (bool_decide_eq_true_2 (mid m = id)) by done. cbn. apply orb_true_r. }
    by rewrite He, andb_false_r, IH.
Qed.

Lemma guards_amend_held reply f : guards (holding (message_of reply)) (amend reply f) (fun r => holding (message_of r)).
Proof.
  unfold amend. eapply (guards_bind _ _ (fun _ => holding (message_of (fst reply, f (snd reply))))); [|intros [] l Hl; exact Hl].
  apply guards_talk. intros t d [Hc Hn]. split; [by apply beyond_change | by apply cut_change].
Qed.

Lemma received_held reply c n d : stopReason (snd reply) <> aborted -> received reply c n d -> holding (message_of reply) c n d.
Proof. intros Hs [Hg|[_ Hg]]; [done | by destruct Hs]. Qed.

Lemma guards_resample recovery reply committed : guards (received reply) (resample_escaped cc nc recovery reply committed) (fun _ => received reply).
Proof.
  unfold resample_escaped. eapply guards_bind; [apply guards_get|]. intros l0. cbv zeta. destruct (negb (ended_badly (snd reply)) && _ && _ && _) eqn:Hc; [|apply guards_ret].
  apply andb_true_iff in Hc as [[[Hbad _]%andb_true_iff _]%andb_true_iff _]. apply negb_true_iff in Hbad.
  assert (Hs : stopReason (snd reply) <> aborted) by (intros Hs; unfold ended_badly in Hbad; by rewrite Hs in Hbad).
  apply (guards_pre (holding (message_of reply))); [|intros c n d; by apply received_held].
  eapply guards_bind; [apply guards_retries|]. intros []. rewrite Hmanaged. eapply guards_bind; [apply guards_ret|]. intros [].
  eapply guards_bind; [apply guards_amend_held|]. intros r. cbv beta. apply (guards_bind _ _ (fun _ => begun)).
  - apply guards_talk. intros t d [Hc Hn]. split; [by eapply replace_last_beyond | done].
  - intros []. by apply guards_report.
Qed.

Lemma guards_strip reply : guards (received reply) (strip_if_bad reply) received.
Proof. unfold strip_if_bad. destruct (ended_badly _); [by apply guards_amend | intros l Hl; exact Hl]. Qed.

Lemma guards_accept reply : guards (received reply) (accept_response cc nc reply) (fun _ => steady).
Proof.
  unfold accept_response. rewrite Hmanaged. cbn [andb negb]. cbv zeta. destruct (managedContextOverflow _).
  { eapply guards_bind; [by apply guards_amend|]. intros r. cbv beta. apply guards_report. intros c n d. apply received_begun. }
  pose (pushed := fun (c n : list Message) (d : list Message * list Message) =>
    (beyond cc (fst d) (message_of reply) c \/ cut cc (fst d) c /\ stopReason (snd reply) = aborted) /\ beyond nc (snd d) (message_of reply) n).
  apply (guards_bind _ _ (fun _ => pushed)).
  { apply guards_talk. intros t d Ht. unfold received, got in Ht. cbn [fst] in Ht. unfold pushed. cbn [push_new context newMessages].
    destruct Ht as [[Hc Hn]|[[Hc Hn] Hs]]; (split; [by auto|]; by apply cut_push). }
  intros []. eapply guards_bind; [apply guards_responded|]. intros [].
  apply (guards_bind _ _ (fun r c n d => pushed c n d /\ r = reply)); [intros l Hl; by split|]. intros r.
  assert (Hpb : forall c n d, pushed c n d -> begun c n d).
  { intros c n d [[Hc|[Hc _]] Hn]; (split; [|by eapply beyond_cut]); [by eapply beyond_cut | done]. }
  destruct (_ && _); [apply guards_report; intros c n d [Hg _]; by apply Hpb|].
  destruct (bool_decide (stopReason (snd r) = aborted)) eqn:Hs; [apply guards_report; intros c n d [Hg _]; by apply Hpb|]. apply bool_decide_eq_false in Hs.
  eapply guards_bind; [apply guards_make|]. intros m. cbv beta. apply (guards_bind _ _ (fun _ => steady)).
  - apply guards_talk. intros t d [[[Hc Hn] ->] Hm]. pose proof (assistant_no_user _ _ Hm) as Hu. destruct Hc as [Hc|[_ Hc]]; [|done].
    assert (Hlast : ends_with_assistant (context t) = true).
    { destruct Hc as (base & tail & -> & _). unfold ends_with_assistant. rewrite app_assoc, map_app. cbn [map]. by rewrite List.last_last. }
    cbn [context newMessages]. rewrite Hlast. split.
    + eapply cut_users, beyond_cut, beyond_set_last; done.
    + eapply cut_users, beyond_cut, beyond_set_last; done.
  - intros []. eapply guards_bind; [by apply guards_note|]. intros []. apply guards_ret.
Qed.
End attempt.

(** *** Around the attempt *)

Lemma guards_keep r : guards steady (keep_result r) (fun _ => steady).
Proof.
  unfold keep_result. eapply guards_bind; [apply guards_make|]. intros m. cbv beta. apply guards_talk. intros t d [Ht Hm].
  apply steady_push; [|done]. unfold is_user. by rewrite Hm.
Qed.
Lemma guards_placeholders b text calls : guards steady (each (placeholder b text) calls) (fun _ => steady).
Proof. apply guards_each. intros c. unfold placeholder. eapply guards_bind; [by apply guards_note|]. intros []. apply guards_keep. Qed.
Lemma guards_amend_steady reply f : guards steady (amend reply f) (fun _ => steady).
Proof.
  unfold amend. apply (guards_bind _ _ (fun _ => steady)); [|intros [] l Hl; exact Hl].
  apply guards_talk. intros t d [Hc Hn]. unfold steady. cbn [mutate context newMessages]. by rewrite !users_change.
Qed.

Lemma guards_open : guards steady open_turn (fun _ => steady).
Proof.
  unfold open_turn. eapply guards_bind; [apply guards_get|]. intros l0. destruct (firstTurn l0); [apply guards_first | by apply guards_note].
Qed.

Lemma guards_deliver : guards steady deliver (fun _ => steady).
Proof.
  unfold deliver. eapply guards_bind; [apply guards_get|]. intros l0. apply (guards_bind _ _ (fun _ => steady)); [|intros []; apply guards_pending].
  apply guards_each. intros t. unfold deliver_one. eapply guards_bind; [apply guards_make|]. intros m. cbv beta.
  apply (guards_bind _ _ (fun _ c n d => fst d = users c ++ [m] /\ snd d = users n ++ [m] /\ is_user m = true)).
  - intros l [[Hc Hn] Hm]. unfold wp, note, sees. cbn [talk log fst snd]. rewrite !held_snoc. cbn [fst snd] in *. rewrite Hc, Hn.
    unfold is_user. by rewrite Hm.
  - intros []. apply guards_talk. intros tk d (Hc & Hn & Hu). unfold steady. cbn [push_both push_new push_context context newMessages].
    rewrite !users_app, Hc, Hn. cbn. by rewrite Hu.
Qed.

Lemma guards_release : may_release = true -> guards steady (_ ← note a_release; on_talk release) (fun _ => steady).
Proof.
  intros Hr. apply (guards_bind _ _ (fun _ c n d => d = ([], []))).
  - intros l Hl. unfold wp, note, sees. cbn [talk log]. rewrite !held_snoc. cbn [hold]. by rewrite Hr.
  - intros []. apply guards_talk. intros t d ->. by split.
Qed.
Lemma guards_maintain : guards steady maintain (fun _ => steady).
Proof.
  unfold maintain. eapply guards_bind; [apply guards_get|]. intros l0. destruct maintainContext as [check|]; [|apply guards_ret].
  destruct (_ && _); [|apply guards_ret]. intros l Hl. apply wp_bind. unfold wp at 1, ask. specialize (Hkept (context (talk l0)) (host l)).
  destruct (check (context (talk l0)) (host l)) as [[o r] h]. cbn [fst snd] in Hkept.
  match goal with |- wp ?m _ _ ?l1 => assert (Hg : guards steady m (fun _ => steady)); [|apply Hg; exact Hl] end.
  eapply guards_bind; [apply guards_aborted|]. intros b. cbv zeta. cbn [fst snd]. apply (guards_bind _ _ (fun _ => steady)).
  - destruct r; [by apply guards_release, Hkept | apply guards_ret].
  - intros []. destruct (bool_decide _); [apply guards_ret | by apply guards_end].
Qed.

Lemma guards_tools b reply : guards steady (dispatch b reply) (fun _ => steady).
Proof.
  unfold dispatch. cbv zeta. eapply guards_bind; [apply guards_more|]. intros []. destruct (bool_decide _); [apply guards_ret|]. destruct b.
  - eapply guards_bind; [apply guards_placeholders|]. intros []. apply guards_ret.
  - unfold run_tools. eapply guards_bind; [apply guards_get|]. intros l0. eapply guards_bind; [by apply guards_note|]. intros [].
    eapply guards_bind; [apply guards_ask|]. intros batch. cbv zeta. eapply guards_bind; [apply guards_recoveries|]. intros [].
    eapply guards_bind; [apply guards_each; apply guards_keep|]. intros []. apply guards_ret.
Qed.

Lemma guards_steer ms abandon : guards steady abandon (fun _ => steady) -> guards steady (steer ms abandon) (fun _ => steady).
Proof.
  intros Hab. unfold steer. eapply guards_bind; [apply guards_aborted|]. intros [|].
  - eapply guards_bind; [by apply guards_note|]. intros []. eapply guards_bind; [apply guards_host|]. intros [].
    eapply guards_bind; [exact Hab|]. intros []. by apply guards_throw.
  - eapply guards_bind; [apply guards_pending|]. intros []. by apply guards_throw.
Qed.

Lemma guards_close reply x : guards steady (close_turn reply x) (fun _ => steady).
Proof.
  unfold close_turn. eapply guards_bind; [by apply guards_note|]. intros []. destruct (bool_decide _); [apply guards_steer, guards_ret|].
  eapply guards_bind; [apply guards_ask|]. intros ms. destruct (bool_decide _); [apply guards_steer, guards_pending|].
  eapply guards_bind; [apply guards_pending|]. intros []. eapply guards_bind; [apply guards_ask|]. intros [|]; [by apply guards_end|].
  unfold recover. eapply guards_bind; [apply guards_get|]. intros l0. cbv zeta.
  destruct (_ && _); [eapply guards_bind; [apply guards_recoveries | intros []; apply guards_recoveries]|].
  destruct (policyBlocked x); [eapply guards_bind; [apply guards_amend_steady | intros r; by apply guards_end]|].
  destruct (_ && _); [eapply guards_bind; [apply guards_recoveries | intros []; apply guards_recoveries]|].
  destruct (_ <=? _); [eapply guards_bind; [apply guards_amend_steady | intros r; by apply guards_end] | apply guards_ret].
Qed.

(** The counts are those of the state in which the request begins. *)
Lemma guards_iterate : guards steady iterate (fun _ => steady).
Proof.
  unfold iterate. eapply guards_bind; [apply guards_open|]. intros []. eapply guards_bind; [apply guards_deliver|]. intros [].
  eapply guards_bind; [apply guards_maintain|]. intros []. eapply guards_bind; [apply guards_host|]. intros [].
  intros l Hl. apply wp_bind, wp_get. cbv zeta. set (cc := length (context (talk l))). set (nc := length (newMessages (talk l))).
  match goal with |- wp ?m _ _ _ => assert (Hg : guards (begun cc nc) m (fun _ => steady)) end.
  - eapply guards_bind; [apply guards_receive|]. intros [reply committed]. cbn [fst snd].
    apply (guards_pre (received cc nc reply)); [|done].
    eapply guards_bind; [apply (proj1 (guards_repairs (snd reply) _))|]. intros []. eapply guards_bind; [apply (proj2 (guards_repairs (snd reply) _))|]. intros [].
    eapply guards_bind; [apply guards_resample|]. intros []. eapply guards_bind; [apply guards_strip|]. intros r1. cbv beta.
    eapply guards_bind; [apply guards_retries|]. intros []. eapply guards_bind; [apply guards_accept|]. intros r2. cbv beta.
    apply (guards_bind _ _ (fun _ => steady)).
    { destruct (_ && _); [|apply guards_ret]. eapply guards_bind; [apply guards_host|]. intros []. by apply guards_note. }
    intros []. destruct (ended_badly _).
    + unfold end_badly. eapply guards_bind; [apply guards_amend_steady|]. intros r3. cbv zeta. eapply guards_bind; [apply guards_placeholders|]. intros [].
      eapply guards_bind; [by apply guards_note|]. intros []. by apply guards_end.
    + eapply guards_bind; [apply guards_tools|]. intros x. apply (guards_bind _ _ (fun _ => steady)).
      * destruct (bool_decide _); [apply guards_ret | apply guards_recoveries].
      * intros []. apply guards_close.
  - apply Hg. destruct Hl as [Hc Hn]. split; [rewrite <- Hc | rewrite <- Hn]; apply cut_self.
Qed.

Lemma guards_before_yield : guards steady before_yield (fun _ => steady).
Proof.
  unfold before_yield. eapply guards_bind; [apply guards_host|]. intros []. eapply guards_bind; [apply guards_ask|]. intros [|]; [by apply guards_end|].
  eapply guards_bind; [apply guards_ask|]. intros syn. eapply guards_bind; [apply guards_ask|]. intros ms.
  destruct (bool_decide _); [apply guards_pending|]. destruct syn; [apply guards_recoveries | by apply guards_end].
Qed.

Lemma steady_step l p : sees steady l -> sees steady (fst (step l p)).
Proof.
  intros Hl. destruct p as [| |e]; cbn [step]; [| |exact Hl].
  - destruct (goes_on l); [|exact Hl]. pose proof (guards_iterate l Hl) as Hi. unfold wp in Hi.
    destruct (iterate l) as [l' [[]|e]]; [exact Hi|]. destruct e; exact Hi.
  - pose proof (guards_before_yield l Hl) as Hi. unfold wp in Hi. destruct (before_yield l) as [l' [[]|e]]; exact Hi.
Qed.

Lemma steady_steps n s : sees steady (fst s) -> sees steady (fst (steps n s)).
Proof. revert s. induction n as [|n IH]; intros [l p] Hs; [exact Hs|]. apply IH. exact (steady_step l p Hs). Qed.
End input.

