(* ===== verification/AgentLoopDemo.v ===== *)
(** * Runs over a scripted host *)
From S2P Require Import Prelude.
From S2P Require Import AgentLoop.
From S2P Require Import AgentLoopProofs.
From S2P Require Import AgentLoopPairs.
From S2P Require Import AgentLoopStops.
From S2P Require Import AgentLoopInput.
#[local] Open Scope Z_scope.
#[local] Open Scope js_scope.

(** ** A host that plays from lists *)

Inductive Response := says_so (partials : list Assistant) (m : Assistant) | is_cut (partial : option Assistant) | fails (f : Failure).
(** What a batch of tools does: whether the user aborts meanwhile, and the signatures of malformed calls. *)
Record Tooling := { aborts : bool; signatures : list jstr }.

Record World (managed : bool) := mkWorld {
  w_aborted : bool;
  w_steering : list (list jstr);
  w_follow : list (list jstr);
  w_synthetic : list jstr;
  w_responses : list Response;
  w_tools : list Tooling
}.
Arguments mkWorld {managed}. Arguments w_aborted {managed} _. Arguments w_steering {managed} _. Arguments w_follow {managed} _.
Arguments w_synthetic {managed} _. Arguments w_responses {managed} _. Arguments w_tools {managed} _.

Definition updates (l : list Assistant) : list ProviderEvent :=
  match l with [] => [] | a :: l' => pe_start a :: map (fun b => pe_update b false false) l' end.
Definition script_of (r : Response) : Script :=
  match r with
  | says_so l m => {| provider_events := updates l ++ [pe_final m]; ending := cut_off; flushed := false |}
  | is_cut p => {| provider_events := match p with Some a => [pe_start a] | None => [] end; ending := cut_off; flushed := false |}
  | fails f => {| provider_events := []; ending := throws f; flushed := false |}
  end.
(** The stream of a message that came whole is not cut off. *)
Definition whole_script (s : Script) : Script :=
  {| provider_events := provider_events s; ending := match ending s with cut_off => throws {| overflows := false; retryable := false |} | e => e end; flushed := flushed s |}.

Definition says_text (t : string) (a : Assistant) : bool := existsb (fun b => match b with text_block s => s === u t | _ => false end) (content a).
Definition cleaned (b : Body) : Body * bool :=
  match b with user_message t => if t === u "poison" then (user_message (u "cleaned"), true) else (b, false) | _ => (b, false) end.

Definition says_forget (m : Message) : bool := match mbody m with user_message t => t === u "forget" | _ => false end.
(** The maintenance of a managed run releases the context when the user says so. *)
#[export] Instance scripted managed : Host (World managed) := {
  fallbackManaged := managed;
  transientRecoveryMessage := None;
  signal_aborted := w_aborted;
  getSteeringMessages w :=
    (default [] (head (w_steering w)), mkWorld (w_aborted w) (drop 1 (w_steering w)) (w_follow w) (w_synthetic w) (w_responses w) (w_tools w));
  requeueSteeringMessages ms w :=
    mkWorld (w_aborted w) (ms :: w_steering w) (w_follow w) (w_synthetic w) (w_responses w) (w_tools w);
  getFollowUpMessages w :=
    (default [] (head (w_follow w)), mkWorld (w_aborted w) (w_steering w) (drop 1 (w_follow w)) (w_synthetic w) (w_responses w) (w_tools w));
  getSyntheticRecoveryMessage w :=
    (head (w_synthetic w), mkWorld (w_aborted w) (w_steering w) (w_follow w) (drop 1 (w_synthetic w)) (w_responses w) (w_tools w));
  shouldPause w := (false, w);
  onBeforeYield w := w;
  maintainContext := if managed then Some (fun c w => (not_needed, existsb says_forget c, w)) else None;
  syncContextBeforeModelCall w := w;
  getToolChoice w := (None, w);
  respond _ _ _ w :=
    let next := mkWorld (w_aborted w) (w_steering w) (w_follow w) (w_synthetic w) (drop 1 (w_responses w)) (w_tools w) in
    match head (w_responses w) with
    | Some (is_cut p) => (script_of (is_cut p), mkWorld true (w_steering w) (w_follow w) (w_synthetic w) (drop 1 (w_responses w)) (w_tools w))
    | Some r => (whole_script (script_of r), next)
    | None => (script_of (fails {| overflows := false; retryable := false |}), next)
    end;
  waitForConsumerDrain w := w;
  onManagedAttemptOutcome _ w := w;
  onManagedAttemptAccepted w := w;
  executeToolCalls _ a w :=
    let t := default {| aborts := false; signatures := [] |} (head (w_tools w)) in
    ({| toolResults := map (fun c => {| result_of := call_id c; result_name := call_name c; isError := false; result_text := u "done" |}) (open_calls a);
        steeringMessages := []; malformedToolCallSignatures := signatures t |},
     mkWorld (w_aborted w || aborts t) (w_steering w) (w_follow w) (w_synthetic w) (w_responses w) (drop 1 (w_tools w)));
  recoveryPrompt _ := u "instruction";
  finalMessage a := a;
  managedShell a := a;
  acceptedSnapshot a := a;
  detectHarmonyLeak a := if says_text "leak" a then Some None else None;
  isInvalidPromptError a := match errorMessage a with Some t => t === u "invalid_prompt" | None => false end;
  isReasoningContentReplayError _ := false;
  neutralize := cleaned;
  stripReasoning b := (b, false);
  classifyContextOverflow _ := false;
  managedRetryableFailure a := match errorMessage a with Some t => t === u "overloaded" | None => false end;
  isComposerBashPolicyBlockedToolResult _ := false
}.

Lemma proper_updates l m e : proper false (updates l ++ [pe_final m]) e = true.
Proof.
  destruct l as [|a l]; [done|]. cbn [updates app proper negb andb]. induction l as [|b l IH]; [done|]. exact IH.
Qed.

#[export] Instance scripted_laws managed : HostLaws (World managed).
Proof.
  split; try (intros; intros w Hw; exact Hw).
  - intros check c Hcheck w Hw. destruct managed; [|done]. cbn in Hcheck. injection Hcheck as <-. exact Hw.
  - intros c s m w Hw. cbn [respond scripted]. destruct (head (w_responses w)) as [[]|]; exact Hw || done.
  - intros c a w Hw. change (w_aborted w = true) in Hw. cbn. by rewrite Hw.
  - intros c s m w. cbn [respond scripted]. destruct (head (w_responses w)) as [[l a|p|f]|]; cbn.
    + split; [apply proper_updates | done].
    + by destruct p.
    + by split; [|done].
    + by split; [|done].
  - intros c a w. cbn. unfold call_ids. by rewrite map_map.
  - intros b. destruct b; cbn; try done. by destruct (_ === _).
  - intros b. apply same_shape_refl.
  - done.
  - done.
Qed.

(** ** Runs *)

Definition text (t : string) : Assistant := {| content := [text_block (u t)]; stopReason := stop; errorMessage := None |}.
Definition calls (ids : list string) (esc : bool) : Assistant :=
  {| content := map (fun i => tool_block {| call_id := u i; call_name := u "read"; resolved := false; escaped := esc; evidence := false |}) ids;
     stopReason := toolUse; errorMessage := None |}.
Definition failed (t : string) : Assistant := {| content := []; stopReason := error; errorMessage := Some (u t) |}.
Definition prompt : list Message := [{| mid := 0; mbody := user_message (u "poison") |}].
Definition start {managed} (w : World managed) : Loop (World managed) * Place := agentLoop prompt [] 1 w.
Definition after_steps {managed} (n : nat) (w : World managed) : Loop (World managed) * Place := steps n (start w).

Definition requests (g : list Action) : nat := length (List.filter (fun a => match a with a_request _ _ _ => true | _ => false end) g).
Definition bodies (l : list Message) : list Body := map mbody l.

(** Escaped arguments, a poisoned prompt, a leak, a tool, and an answer. *)
Definition eventful : World false :=
  mkWorld false [] [[u "thanks"]] []
    [says_so [text "partial"] (calls ["c0"] true); says_so [] (failed "invalid_prompt"); says_so [text "x"] (text "leak");
     says_so [] (calls ["c1"; "c2"] false); says_so [text "wo"; text "work"] (text "works"); says_so [] (text "bye")] [].
Example eventful_run :
  let '(l, p) := after_steps 10 eventful in
  p = over finished /\ requests (log l) = 6%nat /\ length (context (talk l)) = 7%nat
  /\ head (bodies (context (talk l))) = Some (user_message (u "cleaned")).
Proof. vm_compute. by repeat split. Qed.

(** A response that is not made again: a leak in a turn that steering opened after a turn without tools. *)
Definition unlucky : World false :=
  mkWorld false [[]; [u "and now?"]] [] [] [says_so [] (text "hello"); says_so [] (text "leak"); says_so [] (text "never asked for")] [].
Example resend_is_lost :
  let '(l, p) := after_steps 4 unlucky in
  p = over finished /\ requests (log l) = 2%nat
  /\ bodies (newMessages (talk l)) = [user_message (u "poison"); assistant_message (text "hello"); user_message (u "and now?")].
Proof. vm_compute. by repeat split. Qed.
(** In the first turn the same leak is answered by another request. *)
Definition lucky : World false := mkWorld false [] [] [] [says_so [] (text "leak"); says_so [] (text "asked for")] [].
Example resend_is_made :
  let '(l, p) := after_steps 4 lucky in
  p = over finished /\ requests (log l) = 2%nat
  /\ bodies (newMessages (talk l)) = [user_message (u "poison"); assistant_message (text "asked for")].
Proof. vm_compute. by repeat split. Qed.

(** The user aborts while a tool runs, with steering and a follow-up queued. *)
Definition interrupted : World false :=
  mkWorld false [[]; [u "steer"]] [[u "follow"]] [] [says_so [] (calls ["c1"] false)] [{| aborts := true; signatures := [] |}].
Definition requeued (g : list Action) : list jstr :=
  concat (omap (fun a => match a with a_requeue ms => Some ms | _ => None end) g).
Example follow_up_on_an_aborted_signal :
  let '(l, p) := after_steps 4 interrupted in
  p = over finished /\ requests (log l) = 1%nat /\ requeued (log l) = [u "steer"]
  /\ bodies (delivered (log l)) = [user_message (u "follow")] /\ w_follow (host l) = [].
Proof. vm_compute. by repeat split. Qed.
(** With a recovery of the provider instead, the steering that is handed back is delivered as well. *)
Definition interrupted_twice : World false :=
  mkWorld false [[]; [u "steer"]] [] [u "go on"] [says_so [] (calls ["c1"] false)] [{| aborts := true; signatures := [] |}].
Example steering_is_delivered_and_handed_back :
  let '(l, p) := after_steps 4 interrupted_twice in
  p = over finished /\ requeued (log l) = [u "steer"] /\ bodies (delivered (log l)) = [user_message (u "steer")].
Proof. vm_compute. by repeat split. Qed.

(** ** Witnesses *)

(** The run announces its end once. *)
Lemma run_ends_once_witness :
  let '(l, p) := steps 10 (runLoopBody eventful (mkTalk 1 prompt prompt)) in
  match p with
  | over finished =>
      exists before last, running before /\ log l = before ++ [last; a_end (newMessages (talk l))]
        /\ (is_outcome last = true \/ exists r, last = a_agent_end r)
  | _ => running (log l)
  end.
Proof. simple apply (run_ends_once eventful (mkTalk 1 prompt prompt) 10). Defined.

Lemma prompt_paired : paired (context (mkTalk 1 prompt prompt)).
Proof. vm_compute. reflexivity. Qed.
Lemma requests_are_paired_witness :
  let '(l, p) := steps 9 (runLoopBody eventful (mkTalk 1 prompt prompt)) in
  (forall c synthetic tools, a_request c synthetic tools ∈ log l -> paired c)
  /\ (match p with over _ => True | _ => signal_aborted (host l) = false -> paired (context (talk l)) end).
Proof. simple apply (requests_are_paired eventful (mkTalk 1 prompt prompt) 9 prompt_paired). Defined.

Definition aborted_state : Loop (World false) := fst (after_steps 1 interrupted).
Lemma state_is_aborted : signal_aborted (host aborted_state) = true.
Proof. vm_compute. reflexivity. Qed.
Lemma outer_is_not_over : forall e, outer <> over e.
Proof. discriminate. Qed.
Lemma abort_ends_the_run_witness :
  let '(l', p') := steps 3 (aborted_state, outer) in
  p' = over finished /\ List.filter works (log l') = List.filter works (log aborted_state).
Proof. simple apply (abort_ends_the_run aborted_state outer state_is_aborted outer_is_not_over). Defined.

Definition beginning : Loop (World false) := fst (start eventful).
Definition third : Loop (World false) := fst (after_steps 3 eventful).
Lemma at_the_beginning : steps 0 (runLoopBody eventful (mkTalk 1 prompt prompt)) = (beginning, inner).
Proof. vm_compute. reflexivity. Qed.
Lemma three_resends : resends 3 beginning third.
Proof.
  apply (resends_more 2 _ (fst (after_steps 1 eventful)) third); [vm_compute; reflexivity..|].
  apply (resends_more 1 _ (fst (after_steps 2 eventful)) third); [vm_compute; reflexivity..|].
  apply (resends_more 0 _ third third); [vm_compute; reflexivity..|]. apply resends_none.
Qed.
Lemma resends_are_bounded_witness : (3 <= 14)%nat /\ Z.of_nat 3 + budget (retries third) <= budget (retries beginning) <= 14.
Proof. simple apply (resends_are_bounded eventful (mkTalk 1 prompt prompt) 0 beginning 3 third at_the_beginning three_resends). Defined.

(** A managed run: an answer, a follow-up that is delivered and answered, one that has the context released, and then an attempt
    that is overloaded. *)
Definition managed_world : World true :=
  mkWorld false [] [[u "more"]; [u "forget"]; [u "again"]] []
    [says_so [] (text "done"); says_so [] (text "also done"); says_so [] (text "forgotten"); says_so [text "par"] (failed "overloaded")] [].
Lemma managed_is_managed : fallbackManaged (H := World true) = true.
Proof. reflexivity. Qed.
Example managed_run :
  let before := fst (steps 4 (runLoopBody managed_world (mkTalk 1 prompt prompt))) in
  let '(l, p) := steps 10 (runLoopBody managed_world (mkTalk 1 prompt prompt)) in
  bodies (users (newMessages (talk before))) = [user_message (u "poison"); user_message (u "more")]
  /\ p = over finished /\ bodies (delivered (log l)) = map (fun t => user_message (u t)) ["more"; "forget"; "again"]
  /\ bodies (users (newMessages (talk l))) = [user_message (u "again")] /\ bodies (users (context (talk l))) = [user_message (u "again")].
Proof. vm_compute. by repeat split. Qed.
